(* ===== verification/_CoqProject ===== *)
-Q . S2P
Prelude.v
Json.v
Domain.v
Contracts.v
Network.v
Boundary.v
Platform.v
Redaction.v
CommandApproval.v
JournalStore.v
Journal.v
JournalVerify.v
Store.v
SessionContracts.v
Transcript.v
ProjectionStore.v
ExternalWork.v
ProjectionWorker.v
ProjectionHandlers.v
WorkContracts.v
Session.v
Work.v
WorkService.v
Communication.v
JournalModel.v
JournalCorrect.v
JournalTest.v
JournalAppend.v
StoreSpec.v
JournalPort.v
JournalReads.v
ProjectionCorrect.v
JournalSafety.v
ExternalWorkCorrect.v
ProjectionView.v
JournalHolds.v
StoreCorrect.v
Interleaving.v
SessionModel.v
SessionTest.v
SessionCorrect.v
SessionOps.v
SessionSafety.v
SessionOutcomes.v
ProjectionReplay.v
ProjectionHandlersCorrect.v
ProjectionSim.v
ProjectionWorkerCorrect.v
ProjectionDrain.v
Aggregates.v
WorkModel.v
WorkTest.v
WorkOps.v
WorkSafety.v
WorkLifecycle.v
WorkListing.v
CommunicationModel.v
CommunicationStep.v
CommunicationSettle.v
CommunicationSafety.v
CommunicationReads.v
CommunicationTest.v
Composition.v
PlanCommands.v
WorkServiceCorrect.v
CommunicationPort.v
CommunicationOps.v
CommunicationCorrect.v
CommunicationRecovery.v
Scenarios.v
WorkflowCondition.v
Workflow.v
SchemaDisclosure.v
Kernel.v
Builtin.v
Ports.v
Gateway.v
Permit.v
Lifecycle.v
Enforcement.v
