(* ===== verification/Prelude.v ===== *)
(** * Colossus: the trusted core, verified

    A model of the parts of Colossus that decide what an agent may do and that remember
    what it did: the policy kernel and effect gateway, the encrypted event journal, the
    projections derived from it, the sessions, work items and agent inboxes kept in it, and the workflow
    definitions registered in it.
    Definitions are executable translations of the Rust sources (paths below are under
    [src/crates/]); theorems are about those definitions.

    ** Parts, and how they interact

    An effect (a command, a file or network access, a tool call) is a request to the
    gateway ([colossus-policy]).  The safety kernel normalises and redacts it, a policy
    decides, the kernel checks the decision against limits no policy can override, an
    approver and a risk reviewer may be asked, a one-use permit is minted and redeemed, an
    adapter runs it, its output is held back until its release is authorized, and every
    step is an event of the journal ([colossus-journal-redb]).  The journal is a hash chain
    of encrypted events with per-stream versions, an index, an outbox, signed checkpoints
    and a secure anchor.  Projections and external consumers ([colossus-projection]) follow
    its outbox; the repositories of sessions ([colossus-session]), of tasks, decisions,
    plans, goals and child-agent jobs ([colossus-work]) and of the inboxes of executions
    ([colossus-communication]) keep aggregates as streams of it and rely on its version check
    to be safe against each other.  The work service creates sessions for child jobs and
    registers their inboxes in the job's own batch; including messages in a turn writes the
    session and the inbox in one batch.  Workflow definitions ([colossus-workflow]) are
    parsed, validated with the conditions in them and against the calls of what is
    registered, and stored as streams of the same journal.

    ** Files

    - [Prelude]: results, options, lists, strings and saturating integers as the sources
      use them, the tactics ([inv_ok], [inv_err], [inv_bool]) and the hint databases
      [colossus].  [Json]: [serde_json::Value].
    - [Domain] ([colossus-domain/src/lib.rs]), [Contracts], [SessionContracts]
      ([colossus-contracts/src/]): the data that crosses component boundaries; the latter
      with the transcript validators of [session.rs], whose meaning is [Transcript].
    - [Platform]: what the sources take from outside (serialisation, hashing, URLs, the
      host) as the class [Externals], whose laws are separate classes.
    - [Network] ([colossus-network/src/http.rs]): which addresses are public.
    - [Boundary], [Redaction], [SchemaDisclosure], [CommandApproval], [Kernel], [Builtin]
      ([colossus-policy/src/kernel.rs], [schema_disclosure.rs], [command_approval.rs],
      [builtin.rs]): the gate for unsandboxed execution, what a policy and an approver get
      to see, the kernel's checks, the offline policy.
    - [Ports]: the services the gateway calls as the queries of a free monad, with traces
      ([runs]) and a weakest precondition ([wlp]).  [Gateway] ([gateway.rs],
      [gateway/fence.rs]): [execute_internal], function by function.  [Permit]: permits.
      [Lifecycle]: the abstract protocol of an effect; [Enforcement]: the gateway
      implements it, and what follows for every run.
    - [JournalStore] ([common.rs], [crypto.rs], [keys.rs], [journal/payload.rs]), [Journal]
      ([journal/*.rs]), [JournalVerify] ([verification.rs], [startup.rs]): the tables, the
      operations of the port, verification and startup.  [JournalModel] is the abstract
      journal (a list of envelopes that form a chain); [JournalCorrect], [JournalAppend],
      [JournalPort], [JournalReads] and [JournalSafety] relate the two; [JournalTest] is a
      concrete codec for witnesses.
    - [Store] ([colossus-ports/src/journal.rs]): the monad of the repositories and the
      journal port as the class [EventJournal]; [StoreSpec]: its contract
      [EventJournalOk], over histories of events with their payloads; [JournalHolds]: the
      redb journal keeps it; [StoreCorrect]: what follows for every client, and histories
      of streams; [Interleaving]: any number of writers that read, prepare and commit, and
      operations that are runs of them ([moves]).
    - [ProjectionStore] ([journal/projections.rs]), [ExternalWork], [ProjectionWorker],
      [ProjectionHandlers] ([colossus-projection/src/]): rows, consumers, the worker and
      the built-in reducers.  [ProjectionCorrect], [ExternalWorkCorrect], [ProjectionView],
      [ProjectionReplay], [ProjectionHandlersCorrect],
      [ProjectionSim], [ProjectionWorkerCorrect], [ProjectionDrain]: their proofs, from
      single rows to rebuilding everything.
    - [Session] ([colossus-session/src/]): the session repository.  [SessionModel]: what a
      session's stream means; [SessionCorrect], [SessionOps]: readers and writers
      against it; [SessionSafety]: any number of writers; [SessionOutcomes]: what
      the operations answer.  [SessionTest]: a concrete codec.
    - [WorkContracts] ([colossus-contracts/src/work.rs], [decisions.rs]), [Work]
      ([colossus-work/src/validation.rs], [repository.rs], [subagent_recovery.rs]): work
      items and their repository.  [Aggregates]: streams that hold records, as runs of a
      transition system ([Aggregate]); [WorkModel]: the five kinds; [WorkOps]: the
      operations commit steps of them; [WorkSafety]: any number of writers;
      [WorkLifecycle], [WorkListing]: what follows; [WorkTest]: a concrete codec.
    - [WorkService] ([colossus-work/src/service.rs]): the service over both repositories.
      [Composition]: sessions, work items and inboxes on one journal; [PlanCommands]: plan
      commands at a revision; [WorkServiceCorrect]: the service is a run of the joint system,
      and what a command on a child-agent job does exactly.
    - [Communication] ([colossus-communication/src/]): the durable inboxes of executions.
      [CommunicationModel]: what their streams mean, the invariant ([comm_wf]) and the five
      kinds of batch ([comm_write]); [CommunicationStep], [CommunicationSettle],
      [CommunicationSafety]: each batch keeps it; [CommunicationReads]: readers;
      [CommunicationPort]: the port of the work service; [CommunicationOps],
      [CommunicationCorrect], [CommunicationRecovery]: the operations; [CommunicationTest]: a
      concrete codec.
    - [WorkflowCondition] ([colossus-workflow/src/condition.rs]): the condition language,
      its parser, evaluator and grammar.  [Workflow] ([validation.rs], and the parts of
      [repository.rs] and [service.rs] that register and read definitions): validation, the
      call graph, registration.
    - [Scenarios]: a run of the work repository and a run of the services on the redb
      journal, and the witnesses taken from them.

    ** What the theorems show

    - Gateway: every run against arbitrary services follows the life cycle; an adapter is
      called only for the authorized, prepared request; results and chunks are shown only
      after their release; approvals are for this very request; failures are reported in
      their phase and for their cause ([caused]: a refusal of a service or of a check that
      is in the run); and one case in which an effect is left open.
    - Kernel and policies: accepted decisions contain file, process and network effects in
      what was granted; direct execution is acknowledged; a secret reaches policies and
      approvers as a hash and a size; the schema check terminates and agrees with a
      declarative meaning of "holds a secret" ([holds_secret]); the built-in policy denies by
      default and agrees with the kernel.
    - Journal: appending refines the abstract chain; verification accepts exactly the tables
      that hold one; whatever is done through the port, within the limits of [journal_step],
      the chain only grows; reads are slices of it; the payloads an append was answered for
      decrypt to what was appended, whatever is done later; two ways in which valid input
      closes a journal.
    - Projections: a round of the worker is a replay of events one at a time; what a
      projection holds is a function of the journal; a rebuild restores it and ends;
      consumers see every event once and in order.
    - Sessions: under any interleaving of writers every stream stays one conversation; the
      operations refine that system; reads answer with the conversation and writes are read
      back; a tool turn completes only with one result per call and blocks everything else;
      the transcript validator is equivalent to a grammar.
    - Work items: under any interleaving of writers every item stays a run of its kind, also
      for the operations that check on one reading and append after another; a plan that
      the repository executes is the one that was approved, and is never written again; an
      iteration slot is reserved once, within budget; creating a goal from a plan leaves both
      events or none, whatever it answers; a job keeps its origin; listings and recovery
      pages are exact; and one race by which an archived decision becomes active again.
    - Agent communication: every operation, retries included, is a run of the joint system;
      a message is sent once under its key; including a batch moves the session and the
      receipts together; closing settles every pending message; recovery ends and leaves
      nothing running; inbox pages are exact.
    - Composition: the repositories keep their invariants on one journal, whatever
      interleaves, and every operation of the work service, retries included, is a run of
      that system, with what the communication service stages in its batches; a plan command
      writes exactly the next revision of the plan at the revision it names, and a command
      on a child-agent job exactly the job it makes, in the first of eight attempts that no
      other writer gets ahead of.

    - Workflow definitions: the condition parser ends, accepts exactly a grammar within its
      bounds and reads back whatever is written down; validation accepts exactly the
      well-formed definitions, in which an execution identity names one execution; the check
      of the call graph is exact and keeps the registered definitions free of call cycles,
      except through names with a colon in them; and a registry deeper than the check allows.

    ** Conventions, bounds and fuel

    Errors are values of [result]; an early return is [Err].  Unsigned integers are [N]
    with saturation, checked addition and the [u64] bound written out ([u64_max]); the
    theorems on the journal assume fewer than [u64_max] events, which the code's checked
    additions enforce.  A port operation takes the state of the port to its answer and the
    next state; fresh identifiers, clocks and nonces are inputs.  Loops are recursive on
    the data they consume.  Where the source loops until a condition: [collect_stream_ids]
    takes fuel and runs out into [FUEL_EXHAUSTED], one more than the number of streams
    being enough ([StoreCorrect.collect_stream_ids_ok]); so does [recover], a page more than
    there are participants being enough ([recovery_ends] shows its answer to be that of a
    finite run of the loop without fuel); the condition parser, whose
    recursion is on the tokens it consumes, takes four units per token and four more
    ([condition_parse_exact] shows that it answers), and [visit] one more than the sixteen
    calls it allows; the schema worklist is iterated
    [walk_bound] times, a cube of the schema's size within which it is shown to end; and
    the rounds of a drain are the source's own limit (16384 rounds of 256 events for a
    rebuild), which is why [rebuild_all_restores] is about journals of that many events.

    Locks, lock poisoning (such as a panic of a reducer leaves behind), threads and async
    scheduling are not modelled: operations that
    the source runs under a lock are atomic here, and interleavings of operations are
    steps of a relation.  [redb] transactions commit at once or not at all; disk errors are
    not modelled.  Cryptography is a parameter with its functional laws only (decryption
    inverts encryption, a signature verifies); nothing is claimed of its strength.

    ** Not modelled

    The session activity timeline ([colossus-projection/src/activity.rs], an argument of
    [default_handlers]) and the OPA
    adapter, approval broker and model risk evaluator of [colossus-policy]; the Postgres
    journal; context compaction, memory, worktrees, research and the agent loop; of workflows
    the runs with their executor, control and calendar, the schedules, webhooks and
    subscriptions.  These keep their state in streams of the journal as well and would be
    modelled against [EventJournal].  Also not modelled:
    providers, sandboxes, process and browser control, MCP, plugins and credentials, whose
    logic is mostly I/O against systems outside the repository; the terminal, desktop and
    cloud applications, the API services, SDK and sidecar (glue and presentation); and
    generated code, tests, examples and build scripts. *)

From stdpp Require Export base option list strings gmap sorting numbers pretty.
From Stdlib Require Export Ascii Lia.

(** * Results *)

(** Rust's [Result<A, E>]. *)
Inductive result (E A : Type) : Type :=
| Ok (a : A)
| Err (e : E).
Arguments Ok {E A} a.
Arguments Err {E A} e.

#[export] Instance result_eq_dec {E A} `{EqDecision E, EqDecision A} :
  EqDecision (result E A).
Proof. solve_decision. Defined.

#[export] Instance result_ret {E} : MRet (result E) := fun A a => Ok a.
#[export] Instance result_bind {E} : MBind (result E) := fun A B f m =>
  match m with Ok a => f a | Err e => Err e end.
#[export] Instance result_fmap {E} : FMap (result E) := fun A B f m =>
  match m with Ok a => Ok (f a) | Err e => Err e end.

(** [Result::map_err]. *)
Definition map_err {E F A} (f : E -> F) (m : result E A) : result F A :=
  match m with Ok a => Ok a | Err e => Err (f e) end.

(** [Option::ok_or]. *)
Definition ok_or {E A} (o : option A) (e : E) : result E A :=
  match o with Some a => Ok a | None => Err e end.

(** [Result::is_ok_and]. *)
Definition is_ok_and {E A} (m : result E A) (f : A -> bool) : bool :=
  match m with Ok a => f a | Err _ => false end.

(** [Option::is_some_and] and [Option::is_none_or]. *)
Definition is_some_and {A} (o : option A) (f : A -> bool) : bool :=
  match o with Some a => f a | None => false end.
Definition is_none_or {A} (o : option A) (f : A -> bool) : bool :=
  match o with Some a => f a | None => true end.
Definition is_some {A} (o : option A) : bool := is_some_and o (fun _ => true).
Definition is_none {A} (o : option A) : bool := negb (is_some o).

(** [if b { return Err(e) }]. *)
Definition reject {E} (b : bool) (e : E) : result E unit :=
  if b then Err e else Ok tt.

(** A [for] loop whose body can return early with an error. *)
Fixpoint try_for_each {E A} (f : A -> result E unit) (l : list A) : result E unit :=
  match l with
  | [] => Ok tt
  | a :: l' => f a ;; try_for_each f l'
  end.

(** The same loop threading a local variable. *)
Fixpoint try_fold {E A S} (f : S -> A -> result E S) (l : list A) (s : S) : result E S :=
  match l with
  | [] => Ok s
  | a :: l' => s' ← f s a; try_fold f l' s'
  end.

(** [iter().map(f).collect::<Result<Vec<_>, _>>()]. *)
Fixpoint try_map {E A B} (f : A -> result E B) (l : list A) : result E (list B) :=
  match l with
  | [] => Ok []
  | a :: l' => b ← f a; bs ← try_map f l'; Ok (b :: bs)
  end.

(** * Machine integers *)

(** [u64] values are [N] below [2^64]; the operations the sources use are written
    out with their bounds. *)
(** [Vec::len]. *)
Definition count {A} (l : list A) : N := N.of_nat (length l).
Definition u64_max : N := 18446744073709551615.
Definition u32_max : N := 4294967295.
Definition saturating_add (a b : N) : N := N.min u64_max (a + b).
Definition saturating_sub (a b : N) : N := a - b.
Definition checked_add (a b : N) : option N :=
  if (a + b <=? u64_max)%N then Some (a + b)%N else None.

(** * Strings *)

Declare Scope colossus_scope.
Delimit Scope colossus_scope with col.
Notation "s1 ++s s2" := (String.append s1 s2)
  (at level 60, right associativity) : colossus_scope.
Notation "a =s b" := (String.eqb a b) (at level 70) : colossus_scope.
Open Scope colossus_scope.

(** Comparisons with an unknown string stay folded. *)
Arguments String.eqb !_ !_ : simpl nomatch.

(** [str::len] counts bytes. *)
Definition slen (s : string) : N := N.of_nat (String.length s).
Definition is_empty (s : string) : bool := String.eqb s "".
Definition starts_with (s p : string) : bool := String.prefix p s.

Fixpoint bytes (s : string) : list ascii :=
  match s with EmptyString => [] | String c s' => c :: bytes s' end.
Fixpoint of_bytes (l : list ascii) : string :=
  match l with [] => EmptyString | c :: l' => String c (of_bytes l') end.

Definition ends_with (s p : string) : bool :=
  String.prefix (of_bytes (rev (bytes p))) (of_bytes (rev (bytes s))).
Definition byte_n (c : ascii) : N := N_of_ascii c.
Definition ascii_eqb (a b : ascii) : bool := Ascii.eqb a b.
Definition in_range (lo hi : N) (c : ascii) : bool :=
  (lo <=? byte_n c)%N && (byte_n c <=? hi)%N.
Definition is_ascii_digit (c : ascii) : bool := in_range 48 57 c.
Definition is_ascii_uppercase (c : ascii) : bool := in_range 65 90 c.
Definition is_ascii_lowercase (c : ascii) : bool := in_range 97 122 c.
Definition is_ascii_alphabetic (c : ascii) : bool :=
  is_ascii_uppercase c || is_ascii_lowercase c.
Definition is_ascii_alphanumeric (c : ascii) : bool :=
  is_ascii_alphabetic c || is_ascii_digit c.
Definition ascii_lower (c : ascii) : ascii :=
  if is_ascii_uppercase c then ascii_of_N (byte_n c + 32) else c.
Definition map_bytes (f : ascii -> ascii) (s : string) : string :=
  of_bytes (f <$> bytes s).
Definition to_ascii_lowercase (s : string) : string := map_bytes ascii_lower s.
Definition eq_ignore_ascii_case (a b : string) : bool :=
  String.eqb (to_ascii_lowercase a) (to_ascii_lowercase b).
Definition all_bytes (f : ascii -> bool) (s : string) : bool := forallb f (bytes s).
Definition contains_byte (c : ascii) (s : string) : bool :=
  existsb (ascii_eqb c) (bytes s).
Definition is_one_of (s : string) (l : list string) : bool := existsb (String.eqb s) l.
Arguments is_one_of : simpl never.

(** [str::split(c)]: the pieces between the separators, one more than there are. *)
Fixpoint split_bytes (c : ascii) (l cur : list ascii) : list string :=
  match l with
  | [] => [of_bytes (rev cur)]
  | b :: l' =>
      if ascii_eqb b c then of_bytes (rev cur) :: split_bytes c l' []
      else split_bytes c l' (b :: cur)
  end.
Definition split_on (c : ascii) (s : string) : list string := split_bytes c (bytes s) [].

(** [str::strip_prefix] and [str::strip_suffix]. *)
Definition strip_prefix (p s : string) : option string :=
  if starts_with s p
  then Some (String.substring (String.length p) (String.length s - String.length p) s)
  else None.
Definition strip_suffix (p s : string) : option string :=
  if ends_with s p then Some (String.substring 0 (String.length s - String.length p) s)
  else None.

(** [trim_end_matches(c)]. *)
Fixpoint drop_leading (c : ascii) (l : list ascii) : list ascii :=
  match l with
  | b :: l' => if ascii_eqb b c then drop_leading c l' else l
  | [] => []
  end.
Definition trim_end_matches (c : ascii) (s : string) : string :=
  of_bytes (rev (drop_leading c (rev (bytes s)))).

(** [chars().count()] on UTF-8: the bytes that are not continuation bytes. *)
Definition is_continuation (c : ascii) : bool := in_range 128 191 c.
Definition char_count (s : string) : N :=
  N.of_nat (length (List.filter (fun c => negb (is_continuation c)) (bytes s))).

(** [str::trim]: the UTF-8 encodings of the Unicode [White_Space] characters are
    removed from both ends. *)
Definition white_space_encodings : list (list N) :=
  [[9]; [10]; [11]; [12]; [13]; [32]; [194; 133]; [194; 160]; [225; 154; 128];
   [226; 128; 128]; [226; 128; 129]; [226; 128; 130]; [226; 128; 131];
   [226; 128; 132]; [226; 128; 133]; [226; 128; 134]; [226; 128; 135];
   [226; 128; 136]; [226; 128; 137]; [226; 128; 138]; [226; 128; 168];
   [226; 128; 169]; [226; 128; 175]; [226; 129; 159]; [227; 128; 128]]%N.
Fixpoint strip_code (code : list N) (l : list ascii) : option (list ascii) :=
  match code, l with
  | [], _ => Some l
  | n :: code', b :: l' => if (n =? byte_n b)%N then strip_code code' l' else None
  | _ :: _, [] => None
  end.
Definition strip_one (codes : list (list N)) (l : list ascii) : option (list ascii) :=
  fold_right (fun code acc =>
    match strip_code code l with Some l' => Some l' | None => acc end) None codes.
Fixpoint trim_codes (fuel : nat) (codes : list (list N)) (l : list ascii) : list ascii :=
  match fuel with
  | O => l
  | S fuel' =>
      match strip_one codes l with
      | Some l' => trim_codes fuel' codes l'
      | None => l
      end
  end.
Definition trim_start_bytes (l : list ascii) : list ascii :=
  trim_codes (length l) white_space_encodings l.
Definition trim_end_bytes (l : list ascii) : list ascii :=
  rev (trim_codes (length l) ((fun code => rev code) <$> white_space_encodings) (rev l)).
Definition trim (s : string) : string :=
  of_bytes (trim_end_bytes (trim_start_bytes (bytes s))).

(** * Ordered containers *)

(** [Ord] on [str] compares bytes; [String.leb] does the same. *)
Definition str_ltb (a b : string) : bool := String.ltb a b.
Definition str_leb (a b : string) : bool := String.leb a b.

(** The entries of a [BTreeMap<String, _>], in key order. *)
Definition key_le {V} (a b : string * V) : Prop := String.le a.1 b.1.
#[export] Instance key_le_dec {V} : RelDecision (@key_le V).
Proof. intros a b. unfold key_le. apply _. Defined.
Definition sorted_entries {V} (m : gmap string V) : list (string * V) :=
  merge_sort key_le (map_to_list m).

(** [Vec::sort] and [Vec::dedup] on strings. *)
Definition sort_strings (l : list string) : list string := merge_sort String.le l.
Fixpoint dedup_by {A} (same : A -> A -> bool) (l : list A) : list A :=
  match l with
  | [] => []
  | a :: l' =>
      match dedup_by same l' with
      | [] => [a]
      | b :: r => if same a b then a :: r else a :: b :: r
      end
  end.
Definition sort_dedup (l : list string) : list string :=
  dedup_by String.eqb (sort_strings l).

(** Whether [iter().collect::<BTreeSet<_>>().len() == len()]. *)
Fixpoint has_duplicate (l : list string) : bool :=
  match l with
  | [] => false
  | a :: l' => existsb (String.eqb a) l' || has_duplicate l'
  end.

(** * UTF-8 *)

(** [str::chars] on a valid UTF-8 string: the code points. *)
Fixpoint utf8_chars (l : list ascii) : list N :=
  let cont (b : ascii) := (byte_n b mod 64)%N in
  match l with
  | [] => []
  | a :: l1 =>
      if (byte_n a <? 128)%N then byte_n a :: utf8_chars l1
      else match l1 with
      | [] => [byte_n a]
      | b :: l2 =>
          if (byte_n a <? 224)%N then (byte_n a mod 32 * 64 + cont b)%N :: utf8_chars l2
          else match l2 with
          | [] => [byte_n a]
          | c :: l3 =>
              if (byte_n a <? 240)%N
              then (byte_n a mod 16 * 4096 + cont b * 64 + cont c)%N :: utf8_chars l3
              else match l3 with
              | [] => [byte_n a]
              | d :: l4 =>
                  (byte_n a mod 8 * 262144 + cont b * 4096 + cont c * 64 + cont d)%N
                    :: utf8_chars l4
              end
          end
      end
  end.
Definition chars (s : string) : list N := utf8_chars (bytes s).

(** The validity test of [String::from_utf8]: shortest forms only, no surrogates, at
    most U+10FFFF. *)
Fixpoint valid_utf8 (l : list ascii) : bool :=
  match l with
  | [] => true
  | a :: l1 =>
      if (byte_n a <? 128)%N then valid_utf8 l1
      else match l1 with
      | [] => false
      | b :: l2 =>
          if in_range 194 223 a then is_continuation b && valid_utf8 l2
          else match l2 with
          | [] => false
          | c :: l3 =>
              if in_range 224 239 a then
                is_continuation b && is_continuation c
                && (negb (byte_n a =? 224)%N || (160 <=? byte_n b)%N)
                && (negb (byte_n a =? 237)%N || (byte_n b <=? 159)%N)
                && valid_utf8 l3
              else match l3 with
              | [] => false
              | d :: l4 =>
                  in_range 240 244 a && is_continuation b && is_continuation c
                  && is_continuation d
                  && (negb (byte_n a =? 240)%N || (144 <=? byte_n b)%N)
                  && (negb (byte_n a =? 244)%N || (byte_n b <=? 143)%N)
                  && valid_utf8 l4
              end
          end
      end
  end.

(** * Loops *)

(** A [while] loop whose body either goes on with a new state or returns: [iterate p]
    runs at most [p] iterations and stops as soon as the body returns, so a generous
    binary bound costs nothing. *)
Fixpoint iterate {S R} (body : S -> S + R) (p : positive) (s : S + R) : S + R :=
  match s with
  | inr r => inr r
  | inl s0 =>
      match p with
      | xH => body s0
      | xO q => iterate body q (iterate body q s)
      | xI q => iterate body q (iterate body q (body s0))
      end
  end.

Section Iterate.
Context {S R : Type} (body : S -> S + R).

Lemma iterate_returned p r : iterate body p (inr r) = inr r.
Proof. by destruct p. Qed.

(** A state invariant holds of every state the loop reaches. *)
Lemma iterate_invariant (I : S -> Prop) (Q : R -> Prop) p x :
  (forall s, I s -> match body s with inl s' => I s' | inr r => Q r end) ->
  match x with inl s => I s | inr r => Q r end ->
  match iterate body p x with inl s => I s | inr r => Q r end.
Proof.
  intros Hbody. revert x. induction p as [p IH|p IH|]; intros [s|r] Hx; simpl; auto.
  - apply IH, IH. apply (Hbody s Hx).
  - apply IH, (IH (inl s)), Hx.
  - apply (Hbody s Hx).
Qed.

(** A measure below the bound that every iteration decreases makes the loop return. *)
Lemma iterate_decreasing (I : S -> Prop) (m : S -> N) p x :
  (forall s, I s -> match body s with inl s' => I s' /\ (m s' < m s)%N | inr _ => True end) ->
  match x with inl s => I s | inr r => True end ->
  match iterate body p x with
  | inl s => I s /\ match x with inl s0 => (m s + Npos p <= m s0)%N | inr _ => False end
  | inr _ => True
  end.
Proof.
  intros Hbody. revert x. induction p as [p IH|p IH|]; intros [s|r] Hx; simpl; auto.
  - pose proof (Hbody s Hx) as Hb. destruct (body s) as [s1|r1].
    + destruct Hb as [Hi Hm]. pose proof (IH (inl s1) Hi) as H1.
      destruct (iterate body p (inl s1)) as [s2|r2]; [|by rewrite iterate_returned].
      destruct H1 as [Hi2 Hm2]. pose proof (IH (inl s2) Hi2) as H2.
      destruct (iterate body p (inl s2)) as [s3|r3]; [|done].
      destruct H2 as [Hi3 Hm3]. split; [done|lia].
    + by rewrite !iterate_returned.
  - pose proof (IH (inl s) Hx) as H1.
    destruct (iterate body p (inl s)) as [s2|r2]; [|by rewrite iterate_returned].
    destruct H1 as [Hi2 Hm2]. pose proof (IH (inl s2) Hi2) as H2.
    destruct (iterate body p (inl s2)) as [s3|r3]; [|done].
    destruct H2 as [Hi3 Hm3]. split; [done|lia].
  - pose proof (Hbody s Hx) as Hb. destruct (body s); [|done].
    destruct Hb; split; [done|lia].
Qed.
End Iterate.

(** * Reasoning about results *)

Lemma bind_Ok {E A B} (m : result E A) (f : A -> result E B) b :
  m ≫= f = Ok b <-> exists a, m = Ok a /\ f a = Ok b.
Proof. destruct m; naive_solver. Qed.

Lemma bind_Err {E A B} (m : result E A) (f : A -> result E B) e :
  m ≫= f = Err e <-> m = Err e \/ exists a, m = Ok a /\ f a = Err e.
Proof. destruct m; naive_solver. Qed.

Lemma reject_Err {E} b (e e' : E) : reject b e = Err e' <-> b = true /\ e = e'.
Proof. destruct b; naive_solver. Qed.

Lemma map_err_Ok {E F A} (f : E -> F) (m : result E A) a :
  map_err f m = Ok a <-> m = Ok a.
Proof. destruct m; naive_solver. Qed.

Lemma ok_or_Ok {E A} (o : option A) (e : E) a : ok_or o e = Ok a <-> o = Some a.
Proof. destruct o; naive_solver. Qed.

Lemma reject_Ok {E} b (e : E) : reject b e = Ok tt <-> b = false.
Proof. destruct b; naive_solver. Qed.

Lemma try_for_each_Ok {E A} (f : A -> result E unit) l :
  try_for_each f l = Ok tt <-> Forall (fun a => f a = Ok tt) l.
Proof.
  induction l as [|a l IH]; simpl; [by split|].
  rewrite bind_Ok, Forall_cons, <- IH.
  split; [intros ([] & ? & ?)|intros [? ?]; exists tt]; auto.
Qed.

Lemma count_app {A} (l l' : list A) : count (l ++ l') = (count l + count l')%N.
Proof. unfold count. rewrite length_app. lia. Qed.

Lemma count_snoc {A} (l : list A) a : count (l ++ [a]) = (count l + 1)%N.
Proof. by rewrite count_app. Qed.

Lemma try_fold_app {E A T} (f : T -> A -> result E T) l l' t :
  try_fold f (l ++ l') t = t' ← try_fold f l t; try_fold f l' t'.
Proof. revert t. induction l as [|a l IH]; intros t; simpl; [done|]. destruct (f t a); simpl; auto. Qed.

Lemma of_bytes_bytes s : of_bytes (bytes s) = s.
Proof. induction s; simpl; congruence. Qed.
Lemma bytes_of_bytes l : bytes (of_bytes l) = l.
Proof. induction l; simpl; congruence. Qed.

Lemma append_cons c a b : (String c a ++s b) = String c (a ++s b).
Proof. done. Qed.
Lemma append_assoc a b c : ((a ++s b) ++s c) = (a ++s b ++s c).
Proof. induction a as [|d a IH]; [done|]. by rewrite !append_cons, IH. Qed.
Lemma append_inj p a b : (p ++s a) = (p ++s b) -> a = b.
Proof. induction p as [|c p IH]; [done|]. rewrite !append_cons. intros [= Heq]. auto. Qed.
Lemma bytes_append a b : bytes (a ++s b) = (bytes a ++ bytes b)%list.
Proof. induction a as [|c a IH]; [done|]. rewrite append_cons. simpl. by rewrite IH. Qed.
Lemma length_bytes s : length (bytes s) = String.length s.
Proof. induction s; simpl; congruence. Qed.
Lemma length_of_bytes l : String.length (of_bytes l) = length l.
Proof. induction l; simpl; congruence. Qed.

(** Trimming does nothing, or the string ended in the trimmed character. *)
Lemma trim_end_matches_cases c s :
  trim_end_matches c s = s \/ last (bytes s) = Some c.
Proof.
  unfold trim_end_matches.
  assert (forall r, drop_leading c r = r \/ head r = Some c) as Hd.
  { intros [|b r]; simpl; [by left|]. destruct (ascii_eqb b c) eqn:Eb; [|by left].
    apply Ascii.eqb_eq in Eb as ->. by right. }
  rewrite <- head_reverse. unfold reverse. rewrite <- rev_alt.
  destruct (Hd (rev (bytes s))) as [->|Hh]; [left|by right].
  by rewrite rev_involutive, of_bytes_bytes.
Qed.

Lemma is_some_and_true {A} (o : option A) f :
  is_some_and o f = true <-> exists a, o = Some a /\ f a = true.
Proof. destruct o; naive_solver. Qed.

Lemma is_ok_and_true {E A} (m : result E A) f :
  is_ok_and m f = true <-> exists a, m = Ok a /\ f a = true.
Proof. destruct m; naive_solver. Qed.

Lemma starts_with_spec s p : starts_with s p = true <-> exists r, s = (p ++s r).
Proof.
  unfold starts_with. revert s. induction p as [|c p IH]; intros s.
  - split; [by exists s|]. by destruct s.
  - destruct s as [|d s]; simpl; [by split; [|intros [? ?]]|].
    destruct (ascii_dec c d) as [->|Hne].
    + rewrite IH. split; intros [r Hr]; exists r; [by rewrite append_cons, Hr|].
      rewrite append_cons in Hr. by injection Hr.
    + split; [done|]. intros [r Hr]. rewrite append_cons in Hr. injection Hr as -> _. by destruct Hne.
Qed.
Lemma strip_prefix_append p r : strip_prefix p (p ++s r) = Some r.
Proof.
  unfold strip_prefix.
  replace (starts_with (p ++s r) p) with true by (symmetry; apply starts_with_spec; by exists r).
  f_equal. induction p as [|c p IH]; [|by rewrite append_cons].
  change ("" ++s r) with r. simpl. rewrite Nat.sub_0_r.
  induction r as [|c r IH]; [done|]. simpl. by rewrite IH.
Qed.
Lemma strip_prefix_Some p s r : strip_prefix p s = Some r <-> s = (p ++s r).
Proof.
  split; [|intros ->; apply strip_prefix_append]. intros Hs.
  destruct (starts_with s p) eqn:Hst.
  - apply starts_with_spec in Hst as [r' ->]. rewrite strip_prefix_append in Hs. by injection Hs as ->.
  - unfold strip_prefix in Hs. by rewrite Hst in Hs.
Qed.

Lemma is_one_of_true s l : is_one_of s l = true <-> s ∈ l.
Proof.
  unfold is_one_of. rewrite existsb_exists. setoid_rewrite String.eqb_eq.
  rewrite list_elem_of_In. naive_solver.
Qed.

(** [sort] and [dedup] keep the elements and leave no duplicate. *)
Lemma dedup_by_elem (l : list string) x : x ∈ dedup_by String.eqb l <-> x ∈ l.
Proof.
  induction l as [|a l IH]; simpl; [done|]. rewrite elem_of_cons, <- IH.
  destruct (dedup_by String.eqb l) as [|b r]; [by rewrite elem_of_cons|].
  destruct (String.eqb_spec a b) as [->|]; rewrite !elem_of_cons; tauto.
Qed.

Lemma dedup_by_head (l : list string) : head (dedup_by String.eqb l) = head l.
Proof.
  destruct l as [|a l]; simpl; [done|]. destruct (dedup_by _ l); [done|].
  by destruct (String.eqb a s).
Qed.

Lemma dedup_by_NoDup (l : list string) :
  StronglySorted String.le l -> NoDup (dedup_by String.eqb l).
Proof.
  induction 1 as [|a l Hs IH Hall]; simpl; [constructor|].
  pose proof (dedup_by_head l) as Hh.
  destruct (dedup_by String.eqb l) as [|b r] eqn:E; [repeat constructor; by intros ?%elem_of_nil|].
  destruct (String.eqb_spec a b) as [->|Hne]; [done|]. constructor; [|done].
  intros Hin. apply Hne. rewrite Forall_forall in Hall.
  assert (b ∈ l) as Hb by (apply dedup_by_elem; rewrite E; by left).
  assert (String.le b a) as Hba.
  { apply NoDup_cons in IH as [_ _]. destruct l as [|c l]; [done|]. injection Hh as ->.
    assert (a ∈ c :: l) as Ha by (apply dedup_by_elem; by rewrite E).
    apply elem_of_cons in Ha as [->|Ha]; [done|].
    inversion Hs as [|? ? ? Hc]; subst. rewrite Forall_forall in Hc. by apply Hc. }
  apply (anti_symm String.le); auto.
Qed.

Lemma sort_dedup_elem l x : x ∈ sort_dedup l <-> x ∈ l.
Proof.
  unfold sort_dedup, sort_strings. rewrite dedup_by_elem.
  apply elem_of_Permutation_proper, merge_sort_Permutation.
Qed.

Lemma sort_dedup_NoDup l : NoDup (sort_dedup l).
Proof. apply dedup_by_NoDup, StronglySorted_merge_sort; apply _. Qed.

Lemma dedup_sorted (l : list string) :
  StronglySorted String.le l -> StronglySorted String.le (dedup_by String.eqb l).
Proof.
  induction 1 as [|a l Hs IH Hall]; simpl; [constructor|].
  destruct (dedup_by String.eqb l) as [|b r] eqn:Hd; [constructor; [constructor|apply Forall_nil_2]|].
  assert (Forall (String.le a) (b :: r)) as Hle.
  { rewrite <- Hd. apply Forall_forall. intros x Hx. apply (proj1 (dedup_by_elem l x)) in Hx.
    rewrite Forall_forall in Hall. by apply Hall. }
  destruct (String.eqb a b); [|by constructor]. inversion IH; subst. inversion Hle; subst.
  by constructor.
Qed.
Lemma sort_dedup_sorted l : StronglySorted String.le (sort_dedup l).
Proof. apply dedup_sorted, StronglySorted_merge_sort; apply _. Qed.

(** Take a computation that returned [Ok] apart: one equation per step it made. *)
Ltac inv_ok :=
  repeat match goal with
  | H : Ok _ = Ok _ |- _ => injection H; clear H; intros; subst
  | H : Err _ = Ok _ |- _ => discriminate H
  | H : _ ≫= _ = Ok _ |- _ =>
      let x := fresh "x" in let E := fresh "E" in
      apply bind_Ok in H as (x & E & H)
  | H : (let (_, _) := ?p in _) = Ok _ |- _ => let E := fresh "E" in destruct p eqn:E
  | x : unit |- _ => destruct x
  | H : reject _ _ = Ok _ |- _ => apply reject_Ok in H
  | H : ok_or _ _ = Ok _ |- _ => apply ok_or_Ok in H
  | H : map_err _ _ = Ok _ |- _ => apply map_err_Ok in H
  end.

(** Take a computation that returned [Err] apart: one goal per step that can fail. *)
Ltac inv_err :=
  repeat match goal with
  | H : Ok _ = Err _ |- _ => discriminate H
  | H : Err _ = Err _ |- _ => injection H; clear H; intros; subst
  | H : _ ≫= _ = Err _ |- _ =>
      let x := fresh "x" in let E := fresh "E" in
      apply bind_Err in H as [H|(x & E & H)]
  | H : (let (_, _) := ?p in _) = Err _ |- _ => let E := fresh "E" in destruct p eqn:E
  | x : unit |- _ => destruct x
  | H : reject _ _ = Err _ |- _ => apply reject_Err in H as [H ?]; subst
  end.

(** Split the boolean guards of the sources. *)
Ltac inv_bool :=
  repeat match goal with
  | H : _ && _ = true |- _ => apply andb_true_iff in H as [? ?]
  | H : _ || _ = false |- _ => apply orb_false_iff in H as [? ?]
  | H : negb _ = true |- _ => apply negb_true_iff in H
  | H : negb _ = false |- _ => apply negb_false_iff in H
  | H : String.eqb _ _ = true |- _ => apply String.eqb_eq in H
  | H : String.eqb _ _ = false |- _ => apply String.eqb_neq in H
  | H : bool_decide _ = true |- _ => apply bool_decide_eq_true in H
  | H : bool_decide _ = false |- _ => apply bool_decide_eq_false in H
  | H : is_some_and _ _ = true |- _ => apply is_some_and_true in H as (? & ? & ?)
  | H : is_ok_and _ _ = true |- _ => apply is_ok_and_true in H as (? & ? & ?)
  end.

Create HintDb colossus.
Create Rewrite HintDb colossus.
#[export] Hint Rewrite @bind_Ok @map_err_Ok @ok_or_Ok @reject_Ok @try_for_each_Ok
  @is_some_and_true @is_ok_and_true : colossus.
#[export] Hint Resolve is_one_of_true : colossus.
