(* ===== verification/Json.v ===== *)
(** * JSON values

    [serde_json::Value] as the sources use it: the enum, the accessors they call
    and RFC 6901 pointers.  Objects are association lists in key order with unique
    keys ([serde_json] without [preserve_order], the configuration of the modelled
    crates, keeps a [BTreeMap]; [colossus-cloud-postgres] turns [preserve_order] on, and
    what a build with it would do to the others is not modelled).  Serialisation ([serde_json::to_vec]) is not
    defined here: it is a parameter of every component that uses it. *)

From S2P Require Import Prelude.
From Stdlib Require Import SpecFloat.

Open Scope string_scope.

(** [serde_json::Number]: a non-negative integer that fits [u64], a negative one
    that fits [i64], or a finite [f64]. *)
Inductive number :=
| PosInt (n : N)
| NegInt (z : Z)
| Float (f : spec_float).

Inductive value :=
| Null
| Bool (b : bool)
| Number (n : number)
| Str (s : string)
| Array (l : list value)
| Object (fields : list (string * value)).

Section ValueInd.
Context (P : value -> Prop).
Context (Hnull : P Null) (Hbool : forall b, P (Bool b)) (Hnum : forall n, P (Number n)).
Context (Hstr : forall s, P (Str s)).
Context (Harr : forall l, Forall P l -> P (Array l)).
Context (Hobj : forall fs, Forall (fun kv => P (snd kv)) fs -> P (Object fs)).

(** Induction through the nested lists. *)
Fixpoint value_rec_full (v : value) : P v :=
  match v with
  | Null => Hnull
  | Bool b => Hbool b
  | Number n => Hnum n
  | Str s => Hstr s
  | Array l =>
      Harr l ((fix go l : Forall P l :=
        match l with
        | [] => @List.Forall_nil _ P
        | x :: l' => @List.Forall_cons _ P x l' (value_rec_full x) (go l')
        end) l)
  | Object fs =>
      Hobj fs ((fix go fs : Forall (fun kv => P (snd kv)) fs :=
        match fs with
        | [] => @List.Forall_nil _ (fun kv => P (snd kv))
        | kv :: fs' =>
            @List.Forall_cons _ (fun kv => P (snd kv)) kv fs' (value_rec_full (snd kv)) (go fs')
        end) fs)
  end.
End ValueInd.

#[export] Instance number_eq_dec : EqDecision number.
Proof.
  assert (EqDecision spec_float) by solve_decision.
  solve_decision.
Defined.

Fixpoint value_eqb (v w : value) : bool :=
  match v, w with
  | Null, Null => true
  | Bool a, Bool b => Bool.eqb a b
  | Number n, Number m => bool_decide (n = m)
  | Str s, Str t => String.eqb s t
  | Array l, Array l' =>
      (fix go l l' :=
        match l, l' with
        | [], [] => true
        | x :: r, y :: r' => value_eqb x y && go r r'
        | _, _ => false
        end) l l'
  | Object fs, Object fs' =>
      (fix go fs fs' :=
        match fs, fs' with
        | [], [] => true
        | (k, x) :: r, (k', y) :: r' => String.eqb k k' && value_eqb x y && go r r'
        | _, _ => false
        end) fs fs'
  | _, _ => false
  end.

Lemma value_eqb_eq v : forall w, value_eqb v w = true <-> v = w.
Proof.
  induction v as [|b|n|s|l IH|fs IH] using value_rec_full; intros [|b'|n'|s'|l'|fs'];
    simpl; try (split; congruence).
  - rewrite Bool.eqb_true_iff; split; congruence.
  - rewrite bool_decide_eq_true; split; congruence.
  - rewrite String.eqb_eq; split; congruence.
  - revert l'. induction IH as [|x r Hx Hr IHr]; intros [|y r']; try (split; congruence).
    rewrite andb_true_iff, Hx, IHr. split; [intros [-> H]; congruence|].
    intros H; injection H as -> ->; auto.
  - revert fs'. induction IH as [|[k x] r Hx Hr IHr]; intros [|[k' y] r'];
      try (split; congruence). simpl in Hx.
    rewrite !andb_true_iff, String.eqb_eq, Hx, IHr.
    split; [intros [[-> ->] H]; congruence|].
    intros H; injection H as -> -> ->; auto.
Qed.

#[export] Instance value_eq_dec : EqDecision value.
Proof.
  intros v w. destruct (value_eqb v w) eqn:E; [left|right];
    [by apply value_eqb_eq|intros ->]. rewrite (proj2 (value_eqb_eq w w) eq_refl) in E. done.
Defined.

(** ** Accessors *)

Definition as_str (v : value) : option string :=
  match v with Str s => Some s | _ => None end.
Definition as_array (v : value) : option (list value) :=
  match v with Array l => Some l | _ => None end.
Definition as_object (v : value) : option (list (string * value)) :=
  match v with Object fs => Some fs | _ => None end.
Definition as_bool (v : value) : option bool :=
  match v with Bool b => Some b | _ => None end.
Definition as_u64 (v : value) : option N :=
  match v with Number (PosInt n) => Some n | _ => None end.
Definition is_null (v : value) : bool := match v with Null => true | _ => false end.
Definition is_object (v : value) : bool := match v with Object _ => true | _ => false end.
Definition is_boolean (v : value) : bool := match v with Bool _ => true | _ => false end.

(** [Map::get]. *)
Fixpoint field (k : string) (fs : list (string * value)) : option value :=
  match fs with
  | [] => None
  | (k', v) :: fs' => if String.eqb k k' then Some v else field k fs'
  end.
Definition keys (fs : list (string * value)) : list string := fs.*1.
Definition contains_key (k : string) (fs : list (string * value)) : bool :=
  is_some (field k fs).

(** [Value::get] with a string key. *)
Definition get (k : string) (v : value) : option value :=
  match v with Object fs => field k fs | _ => None end.

(** [get(k).and_then(Value::as_str)]. *)
Definition get_str (k : string) (v : value) : option string := get k v ≫= as_str.

(** ** RFC 6901 pointers, as [Value::pointer] evaluates them *)

(** [token.replace("~1", "/").replace("~0", "~")]. *)
Fixpoint replace_escape (digit by_ : ascii) (l : list ascii) : list ascii :=
  match l with
  | a :: ((b :: l') as r) =>
      if ascii_eqb a "~" && ascii_eqb b digit then by_ :: replace_escape digit by_ l'
      else a :: replace_escape digit by_ r
  | _ => l
  end.
Definition unescape_token (s : string) : string :=
  of_bytes (replace_escape "0" "~" (replace_escape "1" "/" (bytes s))).

(** [parse_index]: no leading [+], no leading zero, and a [usize]. *)
Fixpoint parse_digits (l : list ascii) (acc : N) : option N :=
  match l with
  | [] => Some acc
  | c :: l' =>
      if is_ascii_digit c then
        let acc' := (acc * 10 + (byte_n c - 48))%N in
        if (acc' <=? u64_max)%N then parse_digits l' acc' else None
      else None
  end.
Definition parse_index (s : string) : option N :=
  if is_empty s then None
  else if starts_with s "+" || (starts_with s "0" && negb (slen s =? 1)%N) then None
  else parse_digits (bytes s) 0.

Definition step_token (target : value) (token : string) : option value :=
  match target with
  | Object fs => field token fs
  | Array l => i ← parse_index token; l !! N.to_nat i
  | _ => None
  end.
Definition pointer (v : value) (path : string) : option value :=
  if is_empty path then Some v
  else if negb (starts_with path "/") then None
  else foldl (fun acc token => target ← acc; step_token target (unescape_token token))
         (Some v) (tail (split_on "/" path)).
