(* ===== verification/Domain.v ===== *)
(** * The domain vocabulary

    [crates/colossus-domain/src/lib.rs]: the dependency-free enums and the wire
    names the [string_enum!] macro gives them.  The macro is the class
    [StringEnum]: one table per enum, from which [Display] and [FromStr] are
    derived, and the two laws every use of the macro has to satisfy. *)

From S2P Require Import Prelude.

Open Scope string_scope.

Module Domain.

Inductive ActorType := User | Application | Model | Workflow | Subagent | System.
Inductive EventClassification :=
| ClsDomain | ClsEffect | ClsPolicy | ClsApproval | ClsWorkflow | ClsSystem.
Inductive EffectPhase := PreEffect | PostEffect.
Inductive DecisionOutcome := Allow | Deny | RequireApproval.
Inductive RiskStatus := Available | Unavailable.
Inductive WorkflowStatus :=
| Queued | Running | Waiting | Completed | Failed | Cancelled | Interrupted.

#[export] Instance ActorType_eq_dec : EqDecision ActorType.
Proof. solve_decision. Defined.
#[export] Instance EventClassification_eq_dec : EqDecision EventClassification.
Proof. solve_decision. Defined.
#[export] Instance EffectPhase_eq_dec : EqDecision EffectPhase.
Proof. solve_decision. Defined.
#[export] Instance DecisionOutcome_eq_dec : EqDecision DecisionOutcome.
Proof. solve_decision. Defined.
#[export] Instance RiskStatus_eq_dec : EqDecision RiskStatus.
Proof. solve_decision. Defined.
#[export] Instance WorkflowStatus_eq_dec : EqDecision WorkflowStatus.
Proof. solve_decision. Defined.

(** One use of [string_enum!]: the type's name and its [Variant => wire] table. *)
Class StringEnum (T : Type) := {
  enum_name : string;
  enum_table : list (T * string);
}.

(** [Display::fmt]: the [match self] of the macro, first row that matches. *)
Fixpoint table_display {T} `{EqDecision T} (t : T) (rows : list (T * string)) : string :=
  match rows with
  | [] => ""
  | (v, wire) :: rows' => if decide (v = t) then wire else table_display t rows'
  end.
Definition display {T} `{EqDecision T, StringEnum T} (t : T) : string :=
  table_display t enum_table.

(** [FromStr::from_str]: the [match value] of the macro. *)
Fixpoint table_from_str {T} (s : string) (rows : list (T * string)) : option T :=
  match rows with
  | [] => None
  | (v, wire) :: rows' => if String.eqb s wire then Some v else table_from_str s rows'
  end.
Definition from_str {T} `{StringEnum T} (s : string) : result string T :=
  ok_or (table_from_str s enum_table) ("unknown " ++ enum_name).

#[export] Instance ActorType_enum : StringEnum ActorType := {
  enum_name := "ActorType";
  enum_table := [(User, "user"); (Application, "application"); (Model, "model");
    (Workflow, "workflow"); (Subagent, "subagent"); (System, "system")];
}.
#[export] Instance EventClassification_enum : StringEnum EventClassification := {
  enum_name := "EventClassification";
  enum_table := [(ClsDomain, "domain"); (ClsEffect, "effect"); (ClsPolicy, "policy");
    (ClsApproval, "approval"); (ClsWorkflow, "workflow"); (ClsSystem, "system")];
}.
#[export] Instance EffectPhase_enum : StringEnum EffectPhase := {
  enum_name := "EffectPhase";
  enum_table := [(PreEffect, "pre_effect"); (PostEffect, "post_effect")];
}.
#[export] Instance DecisionOutcome_enum : StringEnum DecisionOutcome := {
  enum_name := "DecisionOutcome";
  enum_table := [(Allow, "allow"); (Deny, "deny"); (RequireApproval, "require_approval")];
}.
#[export] Instance RiskStatus_enum : StringEnum RiskStatus := {
  enum_name := "RiskStatus";
  enum_table := [(Available, "available"); (Unavailable, "unavailable")];
}.
#[export] Instance WorkflowStatus_enum : StringEnum WorkflowStatus := {
  enum_name := "WorkflowStatus";
  enum_table := [(Queued, "queued"); (Running, "running"); (Waiting, "waiting");
    (Completed, "completed"); (Failed, "failed"); (Cancelled, "cancelled");
    (Interrupted, "interrupted")];
}.

(** The laws: every value has a row, and no wire name is used twice. *)
Class StringEnumOk (T : Type) `{StringEnum T} := {
  enum_complete : forall t : T, t ∈ enum_table.*1;
  enum_variants_distinct : NoDup enum_table.*1;
  enum_wires_distinct : NoDup enum_table.*2;
}.

(** ** Properties *)

Section Generic.
Context {T : Type} `{EqDecision T, !StringEnum T, !StringEnumOk T}.

Lemma table_roundtrip (t : T) rows :
  t ∈ rows.*1 -> NoDup rows.*2 ->
  table_from_str (table_display t rows) rows = Some t.
Proof.
  induction rows as [|[v w] rows IH]; simpl; [by intros ?%not_elem_of_nil|].
  intros Hin Hnd. apply NoDup_cons in Hnd as [Hw Hnd].
  case_decide as Heq; [subst; by rewrite String.eqb_refl|].
  apply elem_of_cons in Hin as [->|Hin]; [done|].
  destruct (String.eqb_spec (table_display t rows) w) as [<-|]; [|by apply IH].
  exfalso. apply Hw. clear -Hin.
  induction rows as [|[v' w'] rows IH]; simpl in *; [by apply not_elem_of_nil in Hin|].
  case_decide; [by left|].
  apply elem_of_cons in Hin as [->|Hin]; [done|]. right. auto.
Qed.

Lemma table_from_str_sound s rows (t : T) :
  table_from_str s rows = Some t -> (t, s) ∈ rows.
Proof.
  induction rows as [|[v w] rows IH]; simpl; [done|].
  destruct (String.eqb_spec s w) as [->|]; [intros [= ->]; by left|].
  intros; right; auto.
Qed.

Lemma table_display_unique rows (t : T) s :
  NoDup rows.*1 -> (t, s) ∈ rows -> table_display t rows = s.
Proof.
  induction rows as [|[v w] rows IH]; simpl; [by intros _ ?%not_elem_of_nil|].
  intros Hnd. apply NoDup_cons in Hnd as [Hv Hnd].
  intros [[= -> ->]|Hin]%elem_of_cons; [by rewrite decide_True|].
  rewrite decide_False; [by apply IH|]. intros ->. apply Hv.
  apply list_elem_of_fmap. by exists (t, s).
Qed.
End Generic.

Ltac solve_enum_ok :=
  split; [intros []; cbn; repeat first [by left | right]
         | apply (bool_decide_unpack _); vm_compute; exact I
         | apply (bool_decide_unpack _); vm_compute; exact I].

#[export] Instance ActorType_ok : StringEnumOk ActorType.
Proof. solve_enum_ok. Qed.
#[export] Instance EventClassification_ok : StringEnumOk EventClassification.
Proof. solve_enum_ok. Qed.
#[export] Instance EffectPhase_ok : StringEnumOk EffectPhase.
Proof. solve_enum_ok. Qed.
#[export] Instance DecisionOutcome_ok : StringEnumOk DecisionOutcome.
Proof. solve_enum_ok. Qed.
#[export] Instance RiskStatus_ok : StringEnumOk RiskStatus.
Proof. solve_enum_ok. Qed.
#[export] Instance WorkflowStatus_ok : StringEnumOk WorkflowStatus.
Proof. solve_enum_ok. Qed.

(** Wire round trip of every [string_enum!]: parsing accepts exactly the names
    [Display] produces, each for the value it was printed from, and reports every
    other string as unknown. *)
Lemma string_enum_roundtrip {T} `{EqDecision T, !StringEnum T, !StringEnumOk T}
    (t : T) (s : string) :
  from_str (display t) = Ok t /\
  (from_str s = Ok t -> display t = s) /\
  (s ∉ (@enum_table T _).*2 -> from_str (T:=T) s = Err ("unknown " ++ enum_name)).
Proof.
  unfold from_str, display. repeat split.
  - rewrite table_roundtrip; [done|apply enum_complete|apply enum_wires_distinct].
  - intros H. destruct (table_from_str s enum_table) eqn:E; [|done].
    injection H as ->.
    by apply table_display_unique, table_from_str_sound; [apply enum_variants_distinct|].
  - intros Hs. destruct (table_from_str s enum_table) eqn:E; [|done].
    apply table_from_str_sound in E. exfalso. apply Hs.
    apply list_elem_of_fmap. by eexists (_, _).
Qed.

Lemma string_enum_roundtrip_witness :
  from_str (display Waiting) = Ok Waiting /\
  display Interrupted = "interrupted" /\
  from_str (T:=WorkflowStatus) "paused" = Err "unknown WorkflowStatus".
Proof.
  split; [apply (string_enum_roundtrip Waiting "")|].
  split; [by apply (proj1 (proj2 (string_enum_roundtrip Interrupted "interrupted")))|].
  rewrite (proj2 (proj2 (string_enum_roundtrip Queued "paused"))); [reflexivity|].
  apply (bool_decide_unpack _); vm_compute; exact I.
Defined.

End Domain.
