(* ===== verification/Contracts.v ===== *)
(** * Shared contracts

    [crates/colossus-contracts/src/]: the records and enums that cross the
    component boundaries the development models: actors and execution context,
    journal events and envelopes, projections, effect requests, policy decisions
    and their obligations, approval proofs, risk reviews and provider failures.
    Field names carry a short prefix per record (Rocq's projections are global);
    enum variants that clash carry the enum's initials. *)

From S2P Require Import Prelude Json.

Open Scope string_scope.

(** ** [journal.rs] *)

Inductive ActorType := User | Application | Model | WorkflowActor | Subagent | System.
Inductive EventClassification :=
| EC_Domain | EC_Effect | EC_Policy | EC_Approval | EC_Workflow | EC_System.
Inductive EffectPhase := PreEffect | PostEffect.
Inductive DecisionOutcome := Allow | Deny | RequireApproval.
Inductive RiskStatus := Available | Unavailable.
Inductive RiskLevel := Low | Medium | High.
Inductive RiskRecommendation := RR_Allow | RR_Deny | RR_RequireApproval.
Inductive WorkflowStatus :=
| Queued | Running | Waiting | Completed | Failed | Cancelled | Interrupted.

#[export] Instance ActorType_eq_dec : EqDecision ActorType.
Proof. solve_decision. Defined.
#[export] Instance EventClassification_eq_dec : EqDecision EventClassification.
Proof. solve_decision. Defined.
#[export] Instance EffectPhase_eq_dec : EqDecision EffectPhase.
Proof. solve_decision. Defined.
#[export] Instance DecisionOutcome_eq_dec : EqDecision DecisionOutcome.
Proof. solve_decision. Defined.
#[export] Instance RiskStatus_eq_dec : EqDecision RiskStatus.
Proof. solve_decision. Defined.
#[export] Instance RiskLevel_eq_dec : EqDecision RiskLevel.
Proof. solve_decision. Defined.
#[export] Instance RiskRecommendation_eq_dec : EqDecision RiskRecommendation.
Proof. solve_decision. Defined.
#[export] Instance WorkflowStatus_eq_dec : EqDecision WorkflowStatus.
Proof. solve_decision. Defined.

Record Actor := mkActor { actor_type : ActorType; actor_id : string }.
#[export] Instance Actor_eq_dec : EqDecision Actor.
Proof. solve_decision. Defined.

(** [image_view.rs]: capacity left for one pending tool turn. *)
Record ImageInputBudget := mkImageInputBudget {
  remaining_count : N;
  remaining_bytes : N;
}.
#[export] Instance ImageInputBudget_eq_dec : EqDecision ImageInputBudget.
Proof. solve_decision. Defined.

(** The fields marked [#[serde(skip)]] in the source ([image_input_budget],
    [draft_plan_id], [draft_plan_revision], [offered_tools]) are part of the value
    and of its equality, and are lost by serialisation: [durable_context]. *)
Record ExecutionContext := mkExecutionContext {
  ctx_image_input_budget : option ImageInputBudget;
  ctx_correlation_id : string;
  ctx_causation_id : option string;
  ctx_session_id : option string;
  ctx_run_id : option string;
  ctx_goal_id : option string;
  ctx_plan_id : option string;
  ctx_draft_plan_id : option string;
  ctx_draft_plan_revision : option N;
  ctx_subagent_id : option string;
  ctx_skill_ids : list string;
  ctx_plugin_digests : list (string * string);
  ctx_offered_tools : list string;
  ctx_workflow_id : option string;
  ctx_workflow_hash : option string;
  ctx_step_id : option string;
  ctx_attempt : option N;
}.
#[export] Instance ExecutionContext_eq_dec : EqDecision ExecutionContext.
Proof. solve_decision. Defined.

(** [ExecutionContext::default()]. *)
Definition default_context : ExecutionContext :=
  mkExecutionContext None "" None None None None None None None None [] [] [] None None None None.

(** What survives [serde]: skipped fields come back as their defaults. *)
Definition durable_context (c : ExecutionContext) : ExecutionContext :=
  mkExecutionContext None (ctx_correlation_id c) (ctx_causation_id c) (ctx_session_id c)
    (ctx_run_id c) (ctx_goal_id c) (ctx_plan_id c) None None (ctx_subagent_id c)
    (ctx_skill_ids c) (ctx_plugin_digests c) [] (ctx_workflow_id c) (ctx_workflow_hash c)
    (ctx_step_id c) (ctx_attempt c).

Record NewEvent := mkNewEvent {
  ne_event_version : N;
  ne_stream_id : string;
  ne_expected_stream_version : N;
  ne_classification : EventClassification;
  ne_event_type : string;
  ne_actor : Actor;
  ne_context : ExecutionContext;
  ne_payload : value;
}.
#[export] Instance NewEvent_eq_dec : EqDecision NewEvent.
Proof. solve_decision. Defined.

Record EncryptedPayload := mkEncryptedPayload {
  pl_key_id : string;
  pl_algorithm : string;
  pl_nonce : string;
  pl_ciphertext : string;
  pl_plaintext_hash : string;
}.
#[export] Instance EncryptedPayload_eq_dec : EqDecision EncryptedPayload.
Proof. solve_decision. Defined.

Definition ENCRYPTED_PAYLOAD_ALGORITHM : string := "XChaCha20-Poly1305".
Definition PLAINTEXT_PAYLOAD_ALGORITHM : string := "plaintext-json-v1".

Record EventEnvelope := mkEventEnvelope {
  ev_schema_version : N;
  ev_event_version : N;
  ev_event_id : string;
  ev_global_sequence : N;
  ev_stream_id : string;
  ev_stream_version : N;
  ev_classification : EventClassification;
  ev_event_type : string;
  ev_actor : Actor;
  ev_context : ExecutionContext;
  ev_occurred_at : string;
  ev_payload : EncryptedPayload;
  ev_previous_hash : string;
  ev_record_hash : string;
}.
#[export] Instance EventEnvelope_eq_dec : EqDecision EventEnvelope.
Proof. solve_decision. Defined.

Record SignedCheckpoint := mkSignedCheckpoint {
  cp_global_sequence : N;
  cp_record_hash : string;
  cp_key_id : string;
  cp_algorithm : string;
  cp_signature : string;
  cp_created_at : string;
}.
#[export] Instance SignedCheckpoint_eq_dec : EqDecision SignedCheckpoint.
Proof. solve_decision. Defined.

Inductive StartupVerificationMode := Incremental | Full.
Inductive SecureAnchorStatus := Verified | Quarantined.
#[export] Instance StartupVerificationMode_eq_dec : EqDecision StartupVerificationMode.
Proof. solve_decision. Defined.
#[export] Instance SecureAnchorStatus_eq_dec : EqDecision SecureAnchorStatus.
Proof. solve_decision. Defined.

Record SecureAnchor := mkSecureAnchor {
  an_format_version : N;
  an_sequence : N;
  an_hash : string;
  an_verification_profile : option string;
  an_status : SecureAnchorStatus;
}.
#[export] Instance SecureAnchor_eq_dec : EqDecision SecureAnchor.
Proof. solve_decision. Defined.

Record ProjectionWorkItem := mkProjectionWorkItem {
  pw_global_sequence : N;
  pw_event_id : string;
}.
#[export] Instance ProjectionWorkItem_eq_dec : EqDecision ProjectionWorkItem.
Proof. solve_decision. Defined.

Inductive ProjectionMutation :=
| Upsert (key : string) (v : value)
| Delete (key : string).

Record ProjectionBatch := mkProjectionBatch {
  pb_projection : string;
  pb_expected_position : N;
  pb_through_sequence : N;
  pb_mutations : list ProjectionMutation;
}.

Record RiskInput := mkRiskInput {
  ri_status : RiskStatus;
  ri_level : option string;
  ri_reason : option string;
}.
#[export] Instance RiskInput_eq_dec : EqDecision RiskInput.
Proof. solve_decision. Defined.

Record RiskAssessment := mkRiskAssessment {
  ra_risk_level : RiskLevel;
  ra_recommended_decision : RiskRecommendation;
  ra_reason : string;
}.

Record AutomaticApprovalNotice := mkAutomaticApprovalNotice {
  aan_action : string;
  aan_resource : string;
  aan_risk_level : RiskLevel;
  aan_reason : string;
}.
#[export] Instance AutomaticApprovalNotice_eq_dec : EqDecision AutomaticApprovalNotice.
Proof. solve_decision. Defined.

Inductive RiskReviewFailure := EvaluatorUnavailable | InvalidAssessment.
#[export] Instance RiskReviewFailure_eq_dec : EqDecision RiskReviewFailure.
Proof. solve_decision. Defined.

Record RiskReviewFallbackNotice := mkRiskReviewFallbackNotice {
  rfn_action : string;
  rfn_resource : string;
  rfn_failure : RiskReviewFailure;
  rfn_reason : string;
}.
#[export] Instance RiskReviewFallbackNotice_eq_dec : EqDecision RiskReviewFallbackNotice.
Proof. solve_decision. Defined.

Record CredentialReference := mkCredentialReference {
  cr_reference : string;
  cr_value_hash : option string;
}.
#[export] Instance CredentialReference_eq_dec : EqDecision CredentialReference.
Proof. solve_decision. Defined.

(** ** [sandbox.rs] *)

Definition DEFAULT_SANDBOX_TIMEOUT_MS : N := 15 * 60 * 1000.

Inductive ResourceAuthority := Declared | Ambient.
Inductive SandboxBoundaryMode := External | DangerFullAccess.
#[export] Instance ResourceAuthority_eq_dec : EqDecision ResourceAuthority.
Proof. solve_decision. Defined.
#[export] Instance SandboxBoundaryMode_eq_dec : EqDecision SandboxBoundaryMode.
Proof. solve_decision. Defined.

Definition as_backend (m : SandboxBoundaryMode) : string :=
  match m with External => "external" | DangerFullAccess => "danger_full_access" end.
Definition from_backend (backend : string) : option SandboxBoundaryMode :=
  if String.eqb backend "external" then Some External
  else if String.eqb backend "danger_full_access" then Some DangerFullAccess
  else None.

(** ** [command_approval.rs] *)

Definition MAX_COMMAND_JUSTIFICATION_CHARS : N := 512.
Definition MAX_COMMAND_APPROVAL_BYTES : N := 4 * 1024 * 1024.

Record CommandIntent := mkCommandIntent { justification : string }.
#[export] Instance CommandIntent_eq_dec : EqDecision CommandIntent.
Proof. solve_decision. Defined.

Record CommandApprovalContext := mkCommandApprovalContext {
  cac_justification : string;
  cac_executable : string;
  cac_arguments : list string;
  cac_working_directory : string;
  cac_redacted : bool;
}.
#[export] Instance CommandApprovalContext_eq_dec : EqDecision CommandApprovalContext.
Proof. solve_decision. Defined.

(** ** [provider_failure.rs] *)

Inductive ProviderFailureReason :=
| ContextLimitExceeded | RequestTooLarge | OutputLimitExceeded | RateLimited
| QuotaExceeded | ContentFiltered | ProviderUnavailable | Other.

Definition reason_code (r : ProviderFailureReason) : string :=
  match r with
  | ContextLimitExceeded => "provider.context_limit_exceeded"
  | RequestTooLarge => "provider.request_too_large"
  | OutputLimitExceeded => "provider.output_limit_exceeded"
  | RateLimited => "provider.rate_limited"
  | QuotaExceeded => "provider.quota_exceeded"
  | ContentFiltered => "provider.content_filtered"
  | ProviderUnavailable => "provider.unavailable"
  | Other => "provider.failed"
  end.
Definition reason_message (r : ProviderFailureReason) : string :=
  match r with
  | ContextLimitExceeded => "the request exceeds the model's context window; shorten the message, reduce tool arguments or output, or start a new session"
  | RequestTooLarge => "the provider request exceeds its size limit; reduce the message, tool arguments, attachments, or instructions"
  | OutputLimitExceeded => "the provider reached the output token limit; increase the configured output limit or request a shorter response"
  | RateLimited => "the provider rate limit was reached; wait before retrying"
  | QuotaExceeded => "the provider quota is exhausted; check the account's quota and billing settings"
  | ContentFiltered => "the provider stopped the response because of a content filter; revise the request"
  | ProviderUnavailable => "the provider could not complete the request; check its availability before retrying"
  | Other => "the provider could not complete the request; check the provider and model settings"
  end.

Record ProviderFailure := mkProviderFailure {
  pf_reason : ProviderFailureReason;
  pf_http_status : option N;
}.

(** ** [agent.rs]: effect requests and policy decisions *)

Record ApprovalProof := mkApprovalProof {
  ap_approval_id : string;
  ap_request_hash : string;
  ap_approved_by : string;
  ap_approved_at : string;
}.
#[export] Instance ApprovalProof_eq_dec : EqDecision ApprovalProof.
Proof. solve_decision. Defined.

Record EffectRequest := mkEffectRequest {
  er_schema_version : N;
  er_request_id : string;
  er_actor : Actor;
  er_action : string;
  er_resource : string;
  er_capabilities : list string;
  er_risk : RiskInput;
  er_content : value;
  er_command_intent : option CommandIntent;
  er_credential_references : list CredentialReference;
  er_context : ExecutionContext;
  er_idempotency_id : option string;
  er_phase : EffectPhase;
  er_approval : option ApprovalProof;
}.
#[export] Instance EffectRequest_eq_dec : EqDecision EffectRequest.
Proof. solve_decision. Defined.

Record FilesystemGrant := mkFilesystemGrant { fg_root : string; fg_mode : string }.
#[export] Instance FilesystemGrant_eq_dec : EqDecision FilesystemGrant.
Proof. solve_decision. Defined.

Record PolicyObligations := mkPolicyObligations {
  ob_sandbox_backend : string;
  ob_sandbox_profile : string;
  ob_resource_authority : ResourceAuthority;
  ob_filesystem : list FilesystemGrant;
  ob_protected_filesystem : list string;
  ob_network_destinations : list string;
  ob_allowed_environment : list string;
  ob_allow_sandbox_downgrade : bool;
  ob_timeout_ms : N;
  ob_max_output_bytes : N;
  ob_max_processes : N;
  ob_max_memory_bytes : N;
  ob_max_concurrency : N;
  ob_required_redactions : list string;
  ob_require_post_effect : bool;
  ob_audit_labels : gmap string string;
  ob_retention : string;
}.
#[export] Instance PolicyObligations_eq_dec : EqDecision PolicyObligations.
Proof. solve_decision. Defined.

Record PolicyDecision := mkPolicyDecision {
  pd_decision_id : string;
  pd_policy_revision : string;
  pd_outcome : DecisionOutcome;
  pd_reason : string;
  pd_obligations : PolicyObligations;
}.
#[export] Instance PolicyDecision_eq_dec : EqDecision PolicyDecision.
Proof. solve_decision. Defined.

(** [bytes: Vec<u8>] is a list of bytes. *)
Record QuarantinedEffectResult := mkQuarantinedEffectResult {
  qr_media_type : string;
  qr_bytes : list ascii;
  qr_effect_succeeded : bool;
}.
#[export] Instance QuarantinedEffectResult_eq_dec : EqDecision QuarantinedEffectResult.
Proof. solve_decision. Defined.

(** ** Field updates the sources write with [let mut r = request.clone(); r.f = v] *)

Definition with_approval (a : option ApprovalProof) (r : EffectRequest) : EffectRequest :=
  mkEffectRequest (er_schema_version r) (er_request_id r) (er_actor r) (er_action r)
    (er_resource r) (er_capabilities r) (er_risk r) (er_content r) (er_command_intent r)
    (er_credential_references r) (er_context r) (er_idempotency_id r) (er_phase r) a.
Definition with_risk (x : RiskInput) (r : EffectRequest) : EffectRequest :=
  mkEffectRequest (er_schema_version r) (er_request_id r) (er_actor r) (er_action r)
    (er_resource r) (er_capabilities r) x (er_content r) (er_command_intent r)
    (er_credential_references r) (er_context r) (er_idempotency_id r) (er_phase r)
    (er_approval r).
Definition with_content (v : value) (r : EffectRequest) : EffectRequest :=
  mkEffectRequest (er_schema_version r) (er_request_id r) (er_actor r) (er_action r)
    (er_resource r) (er_capabilities r) (er_risk r) v (er_command_intent r)
    (er_credential_references r) (er_context r) (er_idempotency_id r) (er_phase r)
    (er_approval r).
Definition with_command_intent (i : option CommandIntent) (r : EffectRequest) : EffectRequest :=
  mkEffectRequest (er_schema_version r) (er_request_id r) (er_actor r) (er_action r)
    (er_resource r) (er_capabilities r) (er_risk r) (er_content r) i
    (er_credential_references r) (er_context r) (er_idempotency_id r) (er_phase r)
    (er_approval r).
Definition with_request_id (i : string) (r : EffectRequest) : EffectRequest :=
  mkEffectRequest (er_schema_version r) i (er_actor r) (er_action r)
    (er_resource r) (er_capabilities r) (er_risk r) (er_content r) (er_command_intent r)
    (er_credential_references r) (er_context r) (er_idempotency_id r) (er_phase r)
    (er_approval r).
Definition with_phase (p : EffectPhase) (r : EffectRequest) : EffectRequest :=
  mkEffectRequest (er_schema_version r) (er_request_id r) (er_actor r) (er_action r)
    (er_resource r) (er_capabilities r) (er_risk r) (er_content r) (er_command_intent r)
    (er_credential_references r) (er_context r) (er_idempotency_id r) p (er_approval r).
