(* ===== verification/Network.v ===== *)
(** * Network addresses

    [crates/colossus-network/src/http.rs]: host literals and the classification of
    addresses that are not on the public Internet, with the parts of [core::net] they
    use (the address parser and the [is_*] predicates) written out. *)

From S2P Require Import Prelude.

Open Scope string_scope.

Inductive IpAddr :=
| V4 (a b c d : N)
| V6 (segments : list N).
#[export] Instance IpAddr_eq_dec : EqDecision IpAddr.
Proof. solve_decision. Defined.

(** ** [core::net::parser] *)

Section Parser.

Definition parser (A : Type) : Type := list ascii -> option (A * list ascii).

Definition read_char (c : ascii) : parser unit := fun l =>
  match l with b :: l' => if ascii_eqb b c then Some (tt, l') else None | [] => None end.

Definition digit_of (radix : N) (c : ascii) : option N :=
  let n := if is_ascii_digit c then Some (byte_n c - 48)%N
           else if in_range 97 102 c then Some (byte_n c - 87)%N
           else if in_range 65 70 c then Some (byte_n c - 55)%N
           else None in
  d ← n; if (d <? radix)%N then Some d else None.

(** The digits of a number, at most [max] of them. *)
Fixpoint read_digits (radix : N) (max : nat) (l : list ascii) : list N * list ascii :=
  match l with
  | c :: l' =>
      match digit_of radix c, max with
      | Some d, S max' =>
          let '(ds, rest) := read_digits radix max' l' in (d :: ds, rest)
      | _, _ => ([], l)
      end
  | [] => ([], [])
  end.

(** [read_number(radix, Some(max), allow_zero_prefix)] into a type bounded by [bound]:
    no digit, too many digits, a forbidden leading zero and overflow all fail. *)
Definition read_number (radix : N) (max : nat) (allow_zero_prefix : bool) (bound : N)
    : parser N := fun l =>
  let '(ds, rest) := read_digits radix max l in
  let more := match rest with c :: _ => is_some (digit_of radix c) | [] => false end in
  let v := foldl (fun acc d => acc * radix + d)%N 0%N ds in
  match ds with
  | [] => None
  | d :: ds' =>
      if more || (negb allow_zero_prefix && (d =? 0)%N && negb (Nat.eqb (length ds') 0))
         || (bound <? v)%N
      then None else Some (v, rest)
  end.

(** [read_separator(sep, index, inner)]. *)
Definition read_separator {A} (sep : ascii) (index : nat) (inner : parser A) : parser A :=
  fun l =>
    match index with
    | O => inner l
    | S _ => '(_, l') ← read_char sep l; inner l'
    end.

Definition read_ipv4_addr : parser (N * N * N * N) := fun l =>
  '(a, l) ← read_separator "." 0 (read_number 10 3 false 255) l;
  '(b, l) ← read_separator "." 1 (read_number 10 3 false 255) l;
  '(c, l) ← read_separator "." 2 (read_number 10 3 false 255) l;
  '(d, l) ← read_separator "." 3 (read_number 10 3 false 255) l;
  Some ((a, b, c, d), l).

(** [read_groups]: the groups read, whether an embedded IPv4 ended them, the rest. *)
Fixpoint read_groups (limit i : nat) (l : list ascii) : list N * bool * list ascii :=
  match limit with
  | O => ([], false, l)
  | S limit' =>
      let v4 := if Nat.eqb limit' 0 then None
                else read_separator ":" i read_ipv4_addr l in
      match v4 with
      | Some ((a, b, c, d), rest) => ([a * 256 + b; c * 256 + d]%N, true, rest)
      | None =>
          match read_separator ":" i (read_number 16 4 true 65535) l with
          | Some (g, rest) =>
              let '(gs, v4, rest') := read_groups limit' (S i) rest in (g :: gs, v4, rest')
          | None => ([], false, l)
          end
      end
  end.

Definition read_ipv6_addr : parser (list N) := fun l =>
  let '(head, head_ipv4, rest) := read_groups 8 0 l in
  if Nat.eqb (length head) 8 then Some (head, rest)
  else if head_ipv4 then None
  else
    '(_, rest) ← read_char ":" rest;
    '(_, rest) ← read_char ":" rest;
    let '(tl, _, rest) := read_groups (8 - (length head + 1)) 0 rest in
    Some ((head ++ replicate (8 - length head - length tl) 0%N ++ tl)%list, rest).

(** [str::parse::<IpAddr>().ok()]. *)
Definition parse_ip (s : string) : option IpAddr :=
  let l := bytes s in
  match read_ipv4_addr l with
  | Some ((a, b, c, d), rest) =>
      match rest with [] => Some (V4 a b c d) | _ => None end
  | None =>
      '(segs, rest) ← read_ipv6_addr l;
      match rest with [] => Some (V6 segs) | _ => None end
  end.

End Parser.

(** ** Host literals *)

Definition unbracketed_host (host : string) : string :=
  default host (v ← strip_prefix "[" host; strip_suffix "]" v).

Definition parse_host_ip (host : string) : option IpAddr := parse_ip (unbracketed_host host).

(** ** [Ipv4Addr] and [Ipv6Addr] predicates *)

Definition v4_is_private (a b c d : N) : bool :=
  (a =? 10)%N || ((a =? 172)%N && (16 <=? b)%N && (b <=? 31)%N)
  || ((a =? 192)%N && (b =? 168)%N).
Definition v4_is_loopback (a b c d : N) : bool := (a =? 127)%N.
Definition v4_is_link_local (a b c d : N) : bool := (a =? 169)%N && (b =? 254)%N.
Definition v4_is_multicast (a b c d : N) : bool := (224 <=? a)%N && (a <=? 239)%N.
Definition v4_is_broadcast (a b c d : N) : bool :=
  (a =? 255)%N && (b =? 255)%N && (c =? 255)%N && (d =? 255)%N.
Definition v4_is_documentation (a b c d : N) : bool :=
  ((a =? 192)%N && (b =? 0)%N && (c =? 2)%N)
  || ((a =? 198)%N && (b =? 51)%N && (c =? 100)%N)
  || ((a =? 203)%N && (b =? 0)%N && (c =? 113)%N).
Definition v4_is_unspecified (a b c d : N) : bool :=
  (a =? 0)%N && (b =? 0)%N && (c =? 0)%N && (d =? 0)%N.

Definition non_public_v4 (a b c d : N) : bool :=
  v4_is_private a b c d || v4_is_loopback a b c d || v4_is_link_local a b c d
  || v4_is_multicast a b c d || v4_is_broadcast a b c d || v4_is_documentation a b c d
  || v4_is_unspecified a b c d
  || (a =? 0)%N
  || ((a =? 100)%N && (64 <=? b)%N && (b <=? 127)%N)
  || ((a =? 198)%N && ((b =? 18)%N || (b =? 19)%N)).

Definition to_ipv4_mapped (segs : list N) : option (N * N * N * N) :=
  match segs with
  | [0; 0; 0; 0; 0; 65535; x; y]%N => Some (x / 256, x mod 256, y / 256, y mod 256)%N
  | _ => None
  end.
Definition segment (i : nat) (segs : list N) : N := default 0%N (segs !! i).
Definition v6_is_loopback (segs : list N) : bool :=
  bool_decide (segs = [0; 0; 0; 0; 0; 0; 0; 1]%N).
Definition v6_is_unspecified (segs : list N) : bool :=
  bool_decide (segs = [0; 0; 0; 0; 0; 0; 0; 0]%N).
Definition v6_is_unique_local (segs : list N) : bool :=
  (N.land (segment 0 segs) 65024 =? 64512)%N.
Definition v6_is_unicast_link_local (segs : list N) : bool :=
  (N.land (segment 0 segs) 65472 =? 65152)%N.
Definition v6_is_multicast (segs : list N) : bool :=
  (segment 0 segs / 256 =? 255)%N.

Definition non_public_network_address (ip : IpAddr) : bool :=
  match ip with
  | V4 a b c d => non_public_v4 a b c d
  | V6 segs =>
      is_some_and (to_ipv4_mapped segs) (fun '(a, b, c, d) => non_public_v4 a b c d)
      || v6_is_loopback segs || v6_is_unspecified segs || v6_is_unique_local segs
      || v6_is_unicast_link_local segs || v6_is_multicast segs
      || ((segment 0 segs =? 8193)%N && (segment 1 segs =? 3512)%N)
  end.

Definition is_loopback (ip : IpAddr) : bool :=
  match ip with
  | V4 a b c d => v4_is_loopback a b c d
  | V6 segs => v6_is_loopback segs
  end.

(** ** Properties *)

Example parse_localhost : parse_host_ip "127.0.0.1" = Some (V4 127 0 0 1).
Proof. reflexivity. Qed.
Example parse_v6_loopback : parse_host_ip "[::1]" = Some (V6 [0; 0; 0; 0; 0; 0; 0; 1]%N).
Proof. reflexivity. Qed.
Example parse_v6_mapped :
  parse_host_ip "[::ffff:10.0.0.1]" = Some (V6 [0; 0; 0; 0; 0; 65535; 2560; 1]%N).
Proof. reflexivity. Qed.
Example parse_leading_zero : parse_host_ip "10.01.0.1" = None.
Proof. reflexivity. Qed.

(** Loopback addresses are never public. *)
Lemma loopback_non_public ip :
  is_loopback ip = true -> non_public_network_address ip = true.
Proof.
  destruct ip; simpl; unfold non_public_v4; intros ->; rewrite ?orb_true_r; done.
Qed.

(** An IPv4-mapped IPv6 literal is classified as the address it maps. *)
Lemma mapped_non_public a b c d :
  (a < 256 -> b < 256 -> c < 256 -> d < 256 ->
   non_public_v4 a b c d = true ->
   non_public_network_address (V6 [0; 0; 0; 0; 0; 65535; a * 256 + b; c * 256 + d]) = true)%N.
Proof.
  intros Ha Hb Hc Hd H. unfold non_public_network_address, to_ipv4_mapped, is_some_and.
  assert (forall x y, (y < 256)%N -> ((x * 256 + y) / 256 = x /\ (x * 256 + y) mod 256 = y)%N)
    as Hdm.
  { intros x y Hy. split.
    - rewrite N.div_add_l by done. rewrite (N.div_small y) by done. lia.
    - rewrite N.add_comm, N.Div0.mod_add. by apply N.mod_small. }
  destruct (Hdm a b Hb) as [-> ->], (Hdm c d Hd) as [-> ->]. by rewrite H.
Qed.
