(* ===== verification/Boundary.v ===== *)
(** * The sandbox boundary gate

    [crates/colossus-policy/src/kernel.rs], [SandboxBoundaryGate]: the process-local
    state that says which sessions accepted direct (unsandboxed) execution.  The two
    [RwLock]s are state fields; lock poisoning (a panic while a guard is held) is not
    modelled.  The task-local acknowledgement
    [ACTIVE_SANDBOX_BOUNDARY_ACKNOWLEDGEMENT] is the argument [active]. *)

From S2P Require Import Prelude Json Contracts.

Open Scope string_scope.

(** ** Errors shared by the kernel and the gateway *)

(** [crates/colossus-ports/src/control.rs]. *)
Inductive StoreError :=
| Conflict (stream_id : string) (expected actual : N)
| Verification (msg : string)
| NotFound (msg : string)
| KeyUnavailable (msg : string)
| WriterLeaseHeld
| WorkspaceIdentityChanged
| StoreAdapter (msg : string)
| StoreOutcomeUnknown (msg : string)
| RecoveryMode.
#[export] Instance StoreError_eq_dec : EqDecision StoreError.
Proof. solve_decision. Defined.

(** Its [Display]. *)
Definition store_error_text (e : StoreError) : string :=
  match e with
  | Conflict s expected actual => "optimistic concurrency conflict for " ++s s
      ++s ": expected " ++s pretty expected ++s ", actual " ++s pretty actual
  | Verification m => "journal verification failed: " ++s m
  | NotFound m => "not found: " ++s m
  | KeyUnavailable m => "key unavailable: " ++s m
  | WriterLeaseHeld => "runtime writer lease is already held"
  | WorkspaceIdentityChanged => "workspace identity changed"
  | StoreAdapter m => "storage adapter failure: " ++s m
  | StoreOutcomeUnknown m => "external storage outcome is unknown: " ++s m
  | RecoveryMode => "runtime is in read-only recovery mode"
  end.

(** [crates/colossus-ports/src/policy.rs]. *)
Inductive PolicyError :=
| InputTooLarge (limit : N)
| PolicyUnavailable (msg : string)
| InvalidDecision (msg : string).
#[export] Instance PolicyError_eq_dec : EqDecision PolicyError.
Proof. solve_decision. Defined.

(** [kernel.rs], [GatewayError]. *)
Inductive GatewayError :=
| ProviderRejected (failure : ProviderFailure)
| Safety (msg : string)
| Denied (msg : string)
| Approval (msg : string)
| Policy (e : PolicyError)
| Journal (e : StoreError)
| Execution (msg : string)
| RecoverableExecution (code msg : string) (http_status retry_after_ms : option N)
| HttpStatus (status : N) (msg : string)
| OutcomeUnknown (msg : string)
| Contract (msg : string).

(** ** State *)

Definition MAX_SANDBOX_BOUNDARY_SESSION_ACKNOWLEDGEMENTS : N := 4096.

(** [len()] of a set or map. *)
Definition len {A} `{Size A} (x : A) : N := N.of_nat (size x).

Record ScopedAcknowledgement := mkScoped {
  sa_session_id : string;
  sa_mode : SandboxBoundaryMode;
}.

Record SandboxBoundaryGate := mkGate {
  gate_mode : option SandboxBoundaryMode;
  gate_globally_acknowledged : bool;
  gate_sessions : gset string;
  gate_scoped : gmap string ScopedAcknowledgement;
}.

(** [SandboxBoundaryGate::new]. *)
Definition gate_new (mode : option SandboxBoundaryMode) (global : bool) : SandboxBoundaryGate :=
  mkGate mode global ∅ ∅.

(** ** Operations *)

Definition set_sessions (s : gset string) (g : SandboxBoundaryGate) : SandboxBoundaryGate :=
  mkGate (gate_mode g) (gate_globally_acknowledged g) s (gate_scoped g).
Definition set_scoped (m : gmap string ScopedAcknowledgement) (g : SandboxBoundaryGate)
    : SandboxBoundaryGate :=
  mkGate (gate_mode g) (gate_globally_acknowledged g) (gate_sessions g) m.

Definition pending_for_session (session_id : string) (g : SandboxBoundaryGate)
    : option SandboxBoundaryMode :=
  mode ← gate_mode g;
  if gate_globally_acknowledged g || bool_decide (session_id ∈ gate_sessions g)
  then None else Some mode.

Definition cannot_acknowledge (mode : SandboxBoundaryMode) : GatewayError :=
  Safety ("cannot acknowledge " ++ as_backend mode
          ++ " when that sandbox backend is not configured").

Definition acknowledge_session (session_id : string) (mode : SandboxBoundaryMode)
    (g : SandboxBoundaryGate) : result GatewayError SandboxBoundaryGate :=
  if is_empty session_id then
    Err (Safety "sandbox boundary acknowledgement requires a nonempty session id")
  else if negb (bool_decide (gate_mode g = Some mode)) then Err (cannot_acknowledge mode)
  else if negb (bool_decide (session_id ∈ gate_sessions g))
          && (MAX_SANDBOX_BOUNDARY_SESSION_ACKNOWLEDGEMENTS <=? len (gate_sessions g))%N
  then Err (Safety
    "sandbox boundary acknowledgement capacity is exhausted; restart the runtime")
  else Ok (set_sessions ({[session_id]} ∪ gate_sessions g) g).

Definition revoke_session_acknowledgement (session_id : string) (g : SandboxBoundaryGate)
    : SandboxBoundaryGate :=
  set_sessions (gate_sessions g ∖ {[session_id]}) g.

(** 64 lower-case hexadecimal digits. *)
Definition well_formed_acknowledgement (a : string) : bool :=
  (slen a =? 64)%N && all_bytes (fun b => is_ascii_digit b || in_range 97 102 b) a.

Definition acknowledge_interactive_client (acknowledgement session_id : string)
    (mode : SandboxBoundaryMode) (g : SandboxBoundaryGate)
    : result GatewayError SandboxBoundaryGate :=
  if negb (well_formed_acknowledgement acknowledgement) || is_empty session_id then
    Err (Safety "interactive sandbox boundary acknowledgement requires an exact opaque capability and nonempty session id")
  else if negb (bool_decide (gate_mode g = Some mode)) then Err (cannot_acknowledge mode)
  else if is_some (gate_scoped g !! acknowledgement) then
    Err (Safety "interactive sandbox boundary acknowledgement was replayed")
  else if (MAX_SANDBOX_BOUNDARY_SESSION_ACKNOWLEDGEMENTS <=? len (gate_scoped g))%N then
    Err (Safety "interactive sandbox boundary acknowledgement capacity is exhausted; restart the runtime")
  else Ok (set_scoped (<[acknowledgement := mkScoped session_id mode]> (gate_scoped g)) g).

Definition revoke_interactive_client_acknowledgement (acknowledgement : string)
    (g : SandboxBoundaryGate) : SandboxBoundaryGate :=
  set_scoped (delete acknowledgement (gate_scoped g)) g.

(** [active_scoped_acknowledgement_matches]: the task-local capability, if any, must be
    registered for this very session and mode. *)
Definition active_scoped_acknowledgement_matches (active : option string)
    (session_id : string) (mode : SandboxBoundaryMode) (g : SandboxBoundaryGate) : bool :=
  is_some_and active (fun acknowledgement =>
    is_some_and (gate_scoped g !! acknowledgement) (fun entry =>
      String.eqb (sa_session_id entry) session_id && bool_decide (sa_mode entry = mode))).

Definition acknowledged (active session_id : option string) (mode : SandboxBoundaryMode)
    (g : SandboxBoundaryGate) : bool :=
  gate_globally_acknowledged g
  || is_some_and session_id (fun session_id =>
       bool_decide (session_id ∈ gate_sessions g)
       || active_scoped_acknowledgement_matches active session_id mode g).

Definition acknowledged_mode (active session_id : option string) (g : SandboxBoundaryGate)
    : option SandboxBoundaryMode :=
  mode ← gate_mode g;
  if acknowledged active session_id mode g then Some mode else None.

Definition acknowledgement_requirement (mode : SandboxBoundaryMode) : string :=
  match mode with
  | External => "set sandbox.acknowledgeExternalBoundary: true for an operator-managed headless runtime or acknowledge the external boundary in the TUI"
  | DangerFullAccess => "set sandbox.acknowledgeDangerFullAccess: true for an operator-managed headless runtime or acknowledge danger full access in the TUI"
  end.

(** [SandboxBoundaryGate::validate]. *)
Definition gate_validate (active : option string) (request : EffectRequest)
    (mode : SandboxBoundaryMode) (g : SandboxBoundaryGate) : result GatewayError unit :=
  if negb (bool_decide (gate_mode g = Some mode)) then
    Err (Safety ("policy selected " ++ as_backend mode
      ++ " but the runtime was not configured for that direct-execution boundary"))
  else if acknowledged active (ctx_session_id (er_context request)) mode g then Ok tt
  else Err (Safety (as_backend mode ++ " process execution is not acknowledged; "
                    ++ acknowledgement_requirement mode)).

(** ** The gate as a transition system *)

(** What callers can do to the gate. *)
Inductive gate_step : SandboxBoundaryGate -> SandboxBoundaryGate -> Prop :=
| step_session s m g g' : acknowledge_session s m g = Ok g' -> gate_step g g'
| step_revoke_session s g : gate_step g (revoke_session_acknowledgement s g)
| step_client a s m g g' : acknowledge_interactive_client a s m g = Ok g' -> gate_step g g'
| step_revoke_client a g : gate_step g (revoke_interactive_client_acknowledgement a g).

Definition gate_reachable (mode : option SandboxBoundaryMode) (global : bool)
    (g : SandboxBoundaryGate) : Prop :=
  rtc gate_step (gate_new mode global) g.

(** The invariant: configuration is fixed, both tables are bounded, and every recorded
    acknowledgement is a well-formed one for the configured mode. *)
Record gate_inv (mode : option SandboxBoundaryMode) (global : bool)
    (g : SandboxBoundaryGate) : Prop := mkGateInv {
  inv_mode : gate_mode g = mode;
  inv_global : gate_globally_acknowledged g = global;
  inv_sessions_bound : (len (gate_sessions g) <= MAX_SANDBOX_BOUNDARY_SESSION_ACKNOWLEDGEMENTS)%N;
  inv_scoped_bound : (len (gate_scoped g) <= MAX_SANDBOX_BOUNDARY_SESSION_ACKNOWLEDGEMENTS)%N;
  inv_sessions : forall s, s ∈ gate_sessions g -> s <> "" /\ mode <> None;
  inv_scoped : forall a e, gate_scoped g !! a = Some e ->
    well_formed_acknowledgement a = true /\ sa_session_id e <> "" /\ mode = Some (sa_mode e);
}.

(** ** Properties *)

Ltac gate_cases H :=
  repeat (let E := fresh "E" in
    match type of H with
    | (if ?b then _ else _) = Ok _ => destruct b eqn:E; [discriminate H|]
    end); injection H as <-.

Lemma is_empty_false s : is_empty s = false <-> s <> "".
Proof. unfold is_empty. apply String.eqb_neq. Qed.

Lemma gate_step_inv mode global g g' :
  gate_inv mode global g -> gate_step g g' -> gate_inv mode global g'.
Proof.
  intros [Hm Hg Hb Hsb Hs Hsc] Hstep. destruct Hstep as [s m g g' H|s g|a s m g g' H|a g].
  - unfold acknowledge_session in H. gate_cases H.
    apply negb_false_iff, bool_decide_eq_true in E0. apply is_empty_false in E.
    split; simpl; auto.
    + destruct (decide (s ∈ gate_sessions g)) as [Hin|Hnin].
      * replace ({[s]} ∪ gate_sessions g) with (gate_sessions g) by set_solver. done.
      * rewrite (bool_decide_eq_false_2 _ Hnin) in E1. simpl in E1.
        apply N.leb_gt in E1. unfold len in *.
        rewrite size_union, size_singleton by set_solver. lia.
    + intros s' [->%elem_of_singleton|Hin]%elem_of_union; [|auto].
      split; [done|congruence].
  - split; simpl; auto.
    + etrans; [|exact Hb]. unfold len.
      assert (size (gate_sessions g ∖ {[s]}) <= size (gate_sessions g))%nat
        by (apply subseteq_size; set_solver). lia.
    + intros s' Hin. apply Hs. set_solver.
  - unfold acknowledge_interactive_client in H. gate_cases H.
    apply orb_false_iff in E as [Ewf Ene]. apply negb_false_iff in Ewf.
    apply is_empty_false in Ene. apply negb_false_iff, bool_decide_eq_true in E0.
    apply N.leb_gt in E2. unfold len in *.
    split; simpl; auto.
    + destruct (gate_scoped g !! a) eqn:Ea; [done|].
      unfold len. rewrite map_size_insert_None by done. lia.
    + intros a' e Ha'. destruct (decide (a = a')) as [<-|Hne].
      * rewrite lookup_insert_eq in Ha'. injection Ha' as <-. simpl. split_and!; congruence.
      * rewrite lookup_insert_ne in Ha' by done. eauto.
  - split; simpl; auto.
    + etrans; [|exact Hsb]. unfold len. rewrite map_size_delete.
      destruct (gate_scoped g !! a); simpl; lia.
    + intros a' e Ha'. apply lookup_delete_Some in Ha' as [_ Ha']. eauto.
Qed.

Lemma gate_reachable_inv mode global g :
  gate_reachable mode global g -> gate_inv mode global g.
Proof.
  intros Hr. unfold gate_reachable in Hr.
  remember (gate_new mode global) as g0 eqn:E.
  assert (gate_inv mode global g0) as Hi.
  { subst. by split. }
  clear E. induction Hr; eauto using gate_step_inv.
Qed.

(** What [validate] accepts, as a proposition. *)
Lemma gate_validate_ok active request mode g :
  gate_validate active request mode g = Ok tt <->
  gate_mode g = Some mode /\
  acknowledged active (ctx_session_id (er_context request)) mode g = true.
Proof.
  unfold gate_validate. destruct (bool_decide (gate_mode g = Some mode)) eqn:E; simpl.
  - apply bool_decide_eq_true in E. destruct (acknowledged _ _ _ _); naive_solver.
  - apply bool_decide_eq_false in E. naive_solver.
Qed.

(** Safety of the boundary gate over its whole life: in every reachable state, a
    request passes [validate] only for the configured mode, and only when the
    configuration acknowledged it globally, or the request's own session was
    acknowledged, or the running task carries a capability that was issued for exactly
    that session and mode.  The tables never exceed their capacity. *)
Lemma gate_validate_sound mode global g active request m :
  gate_reachable mode global g ->
  gate_validate active request m g = Ok tt ->
  mode = Some m /\
  (len (gate_sessions g) <= 4096)%N /\ (len (gate_scoped g) <= 4096)%N /\
  (global = true \/
   exists s, ctx_session_id (er_context request) = Some s /\ s <> "" /\
     (s ∈ gate_sessions g \/
      exists a, active = Some a /\ gate_scoped g !! a = Some (mkScoped s m))).
Proof.
  intros [Hm Hg Hb Hsb Hs Hsc]%gate_reachable_inv [Hmode Hack]%gate_validate_ok.
  split; [congruence|]. split; [exact Hb|]. split; [exact Hsb|].
  unfold acknowledged in Hack. rewrite Hg in Hack.
  destruct global; [by left|right]. simpl in Hack.
  destruct (ctx_session_id (er_context request)) as [s|]; [|done]. exists s. split; [done|].
  simpl in Hack. apply orb_true_iff in Hack as [Hin|Hact].
  - apply bool_decide_eq_true in Hin. destruct (Hs s Hin). eauto.
  - unfold active_scoped_acknowledgement_matches in Hact.
    destruct active as [a|]; [|done]. simpl in Hact.
    destruct (gate_scoped g !! a) as [[s' m']|] eqn:Ea; [|done]. simpl in Hact.
    apply andb_true_iff in Hact as [->%String.eqb_eq ->%bool_decide_eq_true].
    destruct (Hsc _ _ Ea) as (_ & Hne & _). split; [exact Hne|]. right. eauto.
Qed.

Lemma gate_validate_sound_witness :
  let g := mkGate (Some External) false {["s1"]} ∅ in
  let r := mkEffectRequest 1 "r" (mkActor User "u") "shell.run" "/bin/sh" []
    (mkRiskInput Unavailable None None) Null None []
    (mkExecutionContext None "c" None (Some "s1") None None None None None None [] [] []
       None None None None) None PreEffect None in
  gate_validate None r External g = Ok tt /\ Some External = Some External.
Proof.
  intros g r. split; [reflexivity|].
  refine (proj1 (gate_validate_sound (Some External) false g None r External _ eq_refl)).
  eapply rtc_l; [|apply rtc_refl].
  apply (step_session "s1" External). vm_compute. reflexivity.
Defined.

(** Acknowledge and revoke are inverse on every branch a caller can take: a fresh
    session (or fresh capability) that is acknowledged and then revoked, the rollback
    the callers perform when the audit append fails, leaves the gate exactly as it
    was, and revocation takes effect immediately. *)
Lemma gate_rollback s a m g g' :
  (s ∉ gate_sessions g -> acknowledge_session s m g = Ok g' ->
     revoke_session_acknowledgement s g' = g) /\
  (acknowledge_interactive_client a s m g = Ok g' ->
     revoke_interactive_client_acknowledgement a g' = g /\
     active_scoped_acknowledgement_matches (Some a) s m g' = true /\
     active_scoped_acknowledgement_matches (Some a) s m
       (revoke_interactive_client_acknowledgement a g') = false).
Proof.
  split.
  - intros Hnin H. unfold acknowledge_session in H. gate_cases H.
    unfold revoke_session_acknowledgement, set_sessions. destruct g; simpl in *. f_equal. set_solver.
  - intros H. unfold acknowledge_interactive_client in H. gate_cases H.
    destruct (gate_scoped g !! a) eqn:Ea; [done|].
    unfold revoke_interactive_client_acknowledgement, set_scoped,
      active_scoped_acknowledgement_matches; simpl.
    rewrite lookup_insert_eq, delete_insert_id by done. simpl. rewrite Ea.
    rewrite String.eqb_refl, bool_decide_eq_true_2 by done. destruct g; done.
Qed.

Lemma gate_rollback_witness :
  let g := gate_new (Some DangerFullAccess) false in
  let a := "0123456789abcdef0123456789abcdef0123456789abcdef0123456789abcdef" in
  exists g1 g2, acknowledge_session "s" DangerFullAccess g = Ok g1 /\
    acknowledge_interactive_client a "s" DangerFullAccess g = Ok g2 /\
    revoke_session_acknowledgement "s" g1 = g /\
    revoke_interactive_client_acknowledgement a g2 = g.
Proof.
  intros g a. eexists _, _. split; [reflexivity|]. split; [reflexivity|]. split.
  - eapply (proj1 (gate_rollback "s" a DangerFullAccess g _));
      [unfold g; simpl; set_solver|reflexivity].
  - eapply (proj2 (gate_rollback "s" a DangerFullAccess g _)). reflexivity.
Defined.
