(* ===== verification/Platform.v ===== *)
(** * What the sources take from outside the repository

    The external functions the policy crate calls, as the parameter class
    [Externals]: JSON serialisation ([serde_json]), hashing and authentication
    ([sha2], [hmac]) and URL parsing ([url]).  Nothing is assumed of them here; the
    theorems that need a documented property of one of them state it as a hypothesis
    (the classes at the end).  The host's filesystem answers are a [HostEnv]; path
    syntax ([std::path] on Unix) is written out. *)

From S2P Require Import Prelude Json Contracts Boundary.

Open Scope string_scope.

(** The parts of [url::Url] the sources read. *)
Record Url := mkUrl {
  url_scheme : string;
  url_host_str : option string;
  url_username : string;
  url_password : option string;
  url_origin : string; (** [origin().ascii_serialization()] *)
}.

(** The claims of [kernel.rs], [PermitClaims], in field order. *)
Record PermitClaims := mkPermitClaims {
  pc_request_hash : string;
  pc_decision_id : string;
  pc_obligations_hash : string;
  pc_actor_id : string;
  pc_nonce : string;
  pc_expires_at_unix_ms : Z;
}.
#[export] Instance PermitClaims_eq_dec : EqDecision PermitClaims.
Proof. solve_decision. Defined.

Class Externals := {
  to_vec_value : value -> result string string;
  to_vec_request : EffectRequest -> result string string;
  to_vec_obligations : PolicyObligations -> result string string;
  to_vec_claims : PermitClaims -> result string string;
  sha256_hex : string -> string;
  hmac_sha256 : string -> string -> string; (** key, message *)
  url_parse : string -> result string Url;
  base64_encode : string -> string;
}.

(** [canonical_bytes]: [serde_json::to_vec(value).map_err(Contract)]. *)
Definition canonical_value `{Externals} (v : value) : result GatewayError string :=
  map_err Contract (to_vec_value v).
Definition canonical_request `{Externals} (r : EffectRequest) : result GatewayError string :=
  map_err Contract (to_vec_request r).
Definition canonical_obligations `{Externals} (o : PolicyObligations)
    : result GatewayError string :=
  map_err Contract (to_vec_obligations o).
Definition canonical_claims `{Externals} (c : PermitClaims) : result GatewayError string :=
  map_err Contract (to_vec_claims c).

(** [serde_json::to_vec(value).unwrap_or_default()]. *)
Definition to_vec_or_default `{Externals} (v : value) : string :=
  match to_vec_value v with Ok b => b | Err _ => "" end.

(** ** The host filesystem *)

(** A canonical absolute path, as its components below the root. *)
Abbreviation path := (list string).

(** The answers of the filesystem while one decision is validated. *)
Record HostEnv := mkHostEnv {
  canonicalize : string -> result string path; (** [fs::canonicalize] *)
  is_file : path -> bool;
  target_windows : bool; (** [cfg!(target_os = "windows")] *)
}.

(** [Path::starts_with]: whole components. *)
Fixpoint path_starts_with (root p : path) : bool :=
  match root, p with
  | [], _ => true
  | r :: root', c :: p' => String.eqb r c && path_starts_with root' p'
  | _ :: _, [] => false
  end.

(** ** [std::path::Path] on Unix *)

Definition path_has_root (s : string) : bool := starts_with s "/".
Definition path_parts (s : string) : list string :=
  List.filter (fun c => negb (is_empty c) && negb (String.eqb c ".")) (split_on "/" s).
Definition path_leading_cur (s : string) : bool :=
  negb (path_has_root s) && String.eqb (default "" (head (split_on "/" s))) ".".

Definition path_text (root : bool) (parts : list string) : string :=
  (if root then "/" else "") ++ String.concat "/" parts.

(** [Path::parent], up to redundant separators in the middle of the path. *)
Definition path_parent (s : string) : option string :=
  match rev (path_parts s) with
  | [] => if path_leading_cur s then Some "" else None
  | _ :: init => Some (path_text (path_has_root s)
      ((if path_leading_cur s then ["."] else []) ++ rev init)%list)
  end.

(** [Path::file_name]. *)
Definition path_file_name (s : string) : option string :=
  match rev (path_parts s) with
  | [] => None
  | l :: _ => if String.eqb l ".." then None else Some l
  end.

(** ** Documented properties, for the theorems that rely on them *)

(** [url]: the ASCII serialisation of an HTTP(S) URL's tuple origin parses to a URL with
    the same scheme and host, no credentials, and the same origin. *)
Class OriginRoundtrip `{X : Externals} : Prop := {
  origin_roundtrip : forall r u host, url_parse r = Ok u ->
    url_scheme u = "http" \/ url_scheme u = "https" -> url_host_str u = Some host ->
    exists u', url_parse (url_origin u) = Ok u' /\ url_scheme u' = url_scheme u /\
      url_host_str u' = Some host /\ url_username u' = "" /\ url_password u' = None /\
      url_origin u' = url_origin u;
}.

(** ** A concrete instance, for the witnesses *)

(** A textual serialisation that keeps what the small examples distinguish; hashing is
    the identity. *)
Definition test_externals : Externals := {|
  to_vec_value v := Ok (match v with Str s => s | _ => "json" end);
  to_vec_request r := Ok (er_request_id r ++ ":" ++ er_action r ++ ":" ++ er_resource r
    ++ (if is_some (er_approval r) then ":approved" else ""));
  to_vec_obligations o := Ok (ob_sandbox_backend o ++ ":" ++ ob_sandbox_profile o);
  to_vec_claims c := Ok (pc_request_hash c ++ "|" ++ pc_decision_id c ++ "|"
    ++ pc_obligations_hash c ++ "|" ++ pc_actor_id c ++ "|" ++ pc_nonce c);
  sha256_hex s := s;
  hmac_sha256 k m := k ++ "#" ++ m;
  url_parse s := match strip_prefix "https://" s with
                 | Some host => Ok (mkUrl "https" (Some host) "" None s)
                 | None => match strip_prefix "http://" s with
                           | Some host => Ok (mkUrl "http" (Some host) "" None s)
                           | None => Err "relative URL without a base"
                           end
                 end;
  base64_encode s := s;
|}.

(** A host whose canonical paths are the paths themselves, all of them files. *)
Definition test_host : HostEnv := {|
  canonicalize s := if path_has_root s then Ok (path_parts s) else Err "entity not found";
  is_file _ := true;
  target_windows := false;
|}.

#[export] Instance test_origin_roundtrip : OriginRoundtrip (X:=test_externals).
Proof.
  constructor. simpl. intros r u host Hp _ Hh.
  exists u. assert (url_origin u = r /\ url_username u = "" /\ url_password u = None)
    as (-> & -> & ->) by (repeat case_match; inv_ok; by split_and!).
  by split_and!.
Qed.
