(* ===== verification/Redaction.v ===== *)
(** * Hard-secret redaction

    [crates/colossus-policy/src/kernel.rs], [redact_hard_secrets]: what policy engines
    see of a request's content.  Every field whose key names a hard secret is replaced
    by its hash and size, except a well-formed environment reference; inside the
    top-level [credential_headers] map exactly the well-formed structured references
    survive. *)

From S2P Require Import Prelude Json Contracts Boundary Platform.

Open Scope string_scope.

Section Redaction.
Context `{Externals}.

(** [key.to_ascii_lowercase().replace('-', "_")]. *)
Definition normalized_key (key : string) : string :=
  map_bytes (fun c => if ascii_eqb c "-" then "_"%char else c) (to_ascii_lowercase key).

Definition is_hard_secret_key (key : string) : bool :=
  is_one_of (normalized_key key)
    ["authorization"; "proxy_authorization"; "api_key"; "apikey"; "access_token";
     "refresh_token"; "private_key"; "client_secret"; "password"; "key_material";
     "hidden_reasoning"].

Definition CREDENTIAL_HEADERS_FIELD : string := "credential_headers".

Definition redacted_placeholder (v : value) : value :=
  let b := to_vec_or_default v in
  Object [("redacted", Bool true); ("sha256", Str (sha256_hex b));
          ("size", Number (PosInt (slen b)))].

(** The grammar of environment variable names, shared with [valid_environment_name]. *)
Definition valid_environment_name (name : string) : bool :=
  match bytes name with
  | [] => false
  | b :: l =>
      (ascii_eqb b "_" || is_ascii_alphabetic b)
      && forallb (fun b => ascii_eqb b "_" || is_ascii_alphanumeric b) l
  end.

Definition is_environment_credential_reference (v : value) : bool :=
  is_some_and (as_str v) (fun s => is_some_and (strip_prefix "env:" s) valid_environment_name).

Definition is_host_credential_reference (v : value) : bool :=
  is_some_and (as_str v) (fun s => is_some_and (strip_prefix "host:" s) (fun identifier =>
    negb (is_empty identifier) && (slen identifier <=? 128)%N
    && all_bytes (fun b => is_ascii_alphanumeric b
         || ascii_eqb b "-" || ascii_eqb b "_" || ascii_eqb b ".") identifier)).

Definition is_credential_header_reference (v : value) : bool :=
  match as_object v with
  | None => false
  | Some object =>
      if (2 <? N.of_nat (length object))%N
         || negb (contains_key "reference" object)
         || existsb (fun k => negb (is_one_of k ["reference"; "scheme"])) (keys object)
         || negb (is_some_and (field "reference" object) (fun reference =>
              is_environment_credential_reference reference
              || is_host_credential_reference reference))
      then false
      else is_none_or (field "scheme" object) (fun scheme =>
        is_null scheme
        || is_some_and (as_str scheme) (fun s =>
             negb (is_empty s) && (slen s <=? 64)%N
             && all_bytes (fun b => is_ascii_alphanumeric b || ascii_eqb b "-"
                  || ascii_eqb b "_") s))
  end.

(** [redact_credential_headers]; [rec] is [redact_effect_content] of the value. *)
Definition redact_credential_headers (v rec : value) : value :=
  match v with
  | Object headers =>
      Object (map (fun kc => (kc.1,
        if is_credential_header_reference kc.2 then kc.2 else redacted_placeholder kc.2))
        headers)
  | _ => rec
  end.

(** One object entry; [rec] is the child with its own contents redacted. *)
Definition redact_child (at_content_root : bool) (key : string) (child rec : value) : value :=
  if at_content_root && String.eqb key CREDENTIAL_HEADERS_FIELD then
    redact_credential_headers child rec
  else if is_hard_secret_key key && negb (is_environment_credential_reference child) then
    redacted_placeholder child
  else rec.

Fixpoint redact_effect_content (at_content_root : bool) (v : value) : value :=
  match v with
  | Object fields =>
      Object (map (fun kc => (kc.1,
        redact_child at_content_root kc.1 kc.2 (redact_effect_content false kc.2))) fields)
  | Array l => Array (map (redact_effect_content false) l)
  | _ => v
  end.

Definition redact_hard_secrets (v : value) : value := redact_effect_content true v.

(** ** What redaction promises *)

(** A value a policy engine may see: below it, every field with a hard-secret key holds
    an environment reference or a placeholder. *)
Fixpoint disclosable (v : value) : Prop :=
  match v with
  | Object fields =>
      (fix go fs :=
        match fs with
        | [] => True
        | (key, child) :: fs' =>
            (if is_hard_secret_key key then
               is_environment_credential_reference child = true \/
               (exists secret, child = redacted_placeholder secret)
             else disclosable child) /\ go fs'
        end) fields
  | Array l => (fix go l := match l with [] => True | c :: l' => disclosable c /\ go l' end) l
  | _ => True
  end.

(** What may be known of a secret: the hash and the size of its serialisation. *)
Definition fingerprint (v : value) : string * N :=
  (sha256_hex (to_vec_or_default v), slen (to_vec_or_default v)).
(** Two contents that differ only in secrets with the same fingerprint. *)
Inductive same_but_secrets : value -> value -> Prop :=
| sbs_refl v : same_but_secrets v v
| sbs_array l l' : Forall2 same_but_secrets l l' -> same_but_secrets (Array l) (Array l')
| sbs_object fs fs' : Forall2 same_field fs fs' -> same_but_secrets (Object fs) (Object fs')
with same_field : string * value -> string * value -> Prop :=
| sf_same k v : same_field (k, v) (k, v)
| sf_public k v v' : is_hard_secret_key k = false -> same_but_secrets v v' ->
    same_field (k, v) (k, v')
| sf_secret k v v' : is_hard_secret_key k = true ->
    is_environment_credential_reference v = false ->
    is_environment_credential_reference v' = false ->
    fingerprint v = fingerprint v' -> same_field (k, v) (k, v').
(** The headers of two contents: a value that is not a reference is a secret. *)
Inductive same_header : string * value -> string * value -> Prop :=
| sh_same h : same_header h h
| sh_secret k v v' : is_credential_header_reference v = false ->
    is_credential_header_reference v' = false ->
    fingerprint v = fingerprint v' -> same_header (k, v) (k, v').
(** The fields of two contents at their root. *)
Inductive same_root : string * value -> string * value -> Prop :=
| sr_field k v v' : k <> CREDENTIAL_HEADERS_FIELD -> same_field (k, v) (k, v') ->
    same_root (k, v) (k, v')
| sr_headers hs hs' : Forall2 same_header hs hs' ->
    same_root (CREDENTIAL_HEADERS_FIELD, Object hs) (CREDENTIAL_HEADERS_FIELD, Object hs')
| sr_same f : same_root f f.

(** ** Properties *)

Lemma credential_headers_not_secret : is_hard_secret_key CREDENTIAL_HEADERS_FIELD = false.
Proof. reflexivity. Qed.

Lemma redact_environment_reference v :
  is_environment_credential_reference v = true -> redact_effect_content false v = v.
Proof. by destruct v. Qed.

Lemma redact_inner_disclosable v : disclosable (redact_effect_content false v).
Proof.
  induction v as [| | | |l IH|fs IH] using value_rec_full; simpl; auto.
  - induction IH; simpl; auto.
  - induction IH as [|[k c] fs Hc _ IHfs]; simpl; auto. split; [|exact IHfs].
    unfold redact_child; simpl. simpl in Hc.
    destruct (is_hard_secret_key k) eqn:Ek; [|exact Hc].
    destruct (is_environment_credential_reference c) eqn:Ec; simpl; [|eauto].
    left. by rewrite redact_environment_reference.
Qed.

(** A placeholder tells the fingerprint only. *)
Lemma placeholder_fingerprint v v' :
  fingerprint v = fingerprint v' -> redacted_placeholder v = redacted_placeholder v'.
Proof. unfold fingerprint, redacted_placeholder. by intros [= -> ->]. Qed.

Lemma redact_inner_noninterference v : forall w,
  same_but_secrets v w -> redact_effect_content false v = redact_effect_content false w.
Proof.
  induction v as [|b|n|s|l IH|fs IH] using value_rec_full; intros w Hw;
    inversion Hw as [|? l' Hl|? fs' Hfs]; subst; try done; clear Hw; simpl; f_equal.
  - revert l' Hl. induction IH as [|c l Hc _ IHl]; intros l' Hl; inversion Hl; subst;
      simpl; [done|]. f_equal; auto.
  - revert fs' Hfs. induction IH as [|[k c] fs Hc _ IHfs]; intros fs' Hfs;
      inversion Hfs as [|? f' ? ? Hf]; subst; simpl; [done|]. f_equal; [|auto].
    inversion Hf as [|? ? v' Hk Hv|? ? v' Hk Hn Hn' Hp]; subst; [done| |];
      unfold redact_child; simpl; rewrite Hk; simpl.
    + f_equal. auto.
    + by rewrite Hn, Hn', (placeholder_fingerprint _ _ Hp).
Qed.

(** What one entry of the redacted top-level object may hold. *)
Definition disclosable_entry (kc : string * value) : Prop :=
  if String.eqb kc.1 CREDENTIAL_HEADERS_FIELD then
    match kc.2 with
    | Object headers =>
        Forall (fun h : string * value => is_credential_header_reference h.2 = true \/
          exists secret, h.2 = redacted_placeholder secret) headers
    | c => disclosable c
    end
  else if is_hard_secret_key kc.1 then
    is_environment_credential_reference kc.2 = true \/
    (exists secret, kc.2 = redacted_placeholder secret)
  else disclosable kc.2.

Definition disclosable_root (v : value) : Prop :=
  match v with Object fields => Forall disclosable_entry fields | v => disclosable v end.

Lemma redact_child_disclosable k c :
  disclosable_entry (k, redact_child true k c (redact_effect_content false c)).
Proof.
  unfold disclosable_entry, redact_child; simpl.
  destruct (String.eqb k CREDENTIAL_HEADERS_FIELD).
  - destruct c as [|b|n|s|l|hs]; try exact I;
      [exact (redact_inner_disclosable (Array l))|]. simpl.
    induction hs as [|[h c] hs IHh]; simpl; constructor; [|exact IHh].
    simpl. destruct (is_credential_header_reference c) eqn:Ec; eauto.
  - destruct (is_hard_secret_key k); simpl; [|apply redact_inner_disclosable].
    destruct (is_environment_credential_reference c) eqn:Ec; simpl; [|eauto].
    left. by rewrite redact_environment_reference.
Qed.

Lemma redact_hard_secrets_root v : disclosable_root (redact_hard_secrets v).
Proof.
  destruct v as [| | | |l|fs]; try exact I; [exact (redact_inner_disclosable (Array l))|].
  simpl. induction fs as [|[k c] fs IH]; simpl; constructor; [|exact IH].
  apply redact_child_disclosable.
Qed.

(** Disclosure safety of [redact_hard_secrets]: in the redacted content every field
    whose key names a hard secret, at any depth, holds an environment reference or a
    placeholder (hash and size), and [credential_headers] holds only structured
    references and placeholders; nothing else of the content is changed in shape (the
    top-level keys are the same). *)
Lemma redact_hard_secrets_disclosable v :
  disclosable_root (redact_hard_secrets v) /\
  (forall fs, v = Object fs ->
    exists fs', redact_hard_secrets v = Object fs' /\ fs'.*1 = fs.*1).
Proof.
  split; [apply redact_hard_secrets_root|].
  intros fs ->. eexists. split; [done|]. induction fs as [|[k c] fs IH]; [done|].
  exact (f_equal (cons k) IH).
Qed.

Lemma redact_headers_noninterference hs hs' :
  Forall2 same_header hs hs' ->
  map (fun kc => (kc.1, if is_credential_header_reference kc.2 then kc.2 else redacted_placeholder kc.2)) hs
  = map (fun kc => (kc.1, if is_credential_header_reference kc.2 then kc.2 else redacted_placeholder kc.2)) hs'.
Proof.
  induction 1 as [|h h' hs hs' Hh _ IH]; [done|]. cbn [map]. rewrite IH. f_equal.
  destruct Hh as [h|k v v' Hv Hv' Hp]; [done|]. cbn [fst snd].
  by rewrite Hv, Hv', (placeholder_fingerprint _ _ Hp).
Qed.

(** C40. Redaction is a function of the public part only (non-interference): contents
    that agree except for values under hard-secret keys that are no references, and values
    of credential headers that are none, are redacted to the same content when the differing
    values have the same serialised hash and size; so what a policy engine receives carries
    nothing of a secret but these two. *)
Theorem redaction_noninterference fs fs' :
  Forall2 same_root fs fs' ->
  redact_hard_secrets (Object fs) = redact_hard_secrets (Object fs').
Proof.
  intros Hfs. unfold redact_hard_secrets. simpl. f_equal.
  induction Hfs as [|f f' fs fs' Hf _ IH]; simpl; [done|]. rewrite IH. f_equal.
  destruct Hf as [k v v' Hne Hf|hs hs' Hhs|f]; [| |done]; cbn [fst snd].
  - unfold redact_child. rewrite (proj2 (String.eqb_neq _ _) Hne). simpl.
    inversion Hf as [|? ? ? Hk Hv|? ? ? Hk Hn Hn' Hp]; subst; [done|by rewrite Hk, (redact_inner_noninterference _ _ Hv)|].
    by rewrite Hk, Hn, Hn', (placeholder_fingerprint _ _ Hp).
  - unfold redact_child. rewrite String.eqb_refl. simpl.
    by rewrite (redact_headers_noninterference _ _ Hhs).
Qed.

End Redaction.

Lemma redaction_noninterference_witness :
  redact_hard_secrets (H:=test_externals)
    (Object [("url", Str "u"); ("password", Object [("v", Str "a")]);
             ("credential_headers", Object [("x-key", Array [Str "a"])])]) =
  redact_hard_secrets (H:=test_externals)
    (Object [("url", Str "u"); ("password", Object [("w", Str "b")]);
             ("credential_headers", Object [("x-key", Array [Str "b"])])]).
Proof.
  apply (redaction_noninterference (H:=test_externals)).
  apply Forall2_cons; split; [apply sr_same|]. apply Forall2_cons; split.
  - apply sr_field; [discriminate|]. by apply sf_secret.
  - apply Forall2_cons; split; [|apply Forall2_nil_2]. apply sr_headers.
    apply Forall2_cons; split; [by apply sh_secret|apply Forall2_nil_2].
Defined.
