(* ===== verification/CommandApproval.v ===== *)
(** * Command approval display

    [crates/colossus-policy/src/command_approval.rs] and
    [crates/colossus-contracts/src/command_approval.rs]: which details of a prepared
    [shell.run] request are released to the people who approve it.  The credential
    recognisers (regular expressions and shell spelling: [sanitized], [SECRET_FIELDS],
    [credential_fields], [credential_options], [shell_value]) are the class
    [CommandDisplay]; the guards, the argument loop and the final validation are
    definitions. *)

From S2P Require Import Prelude Json Contracts Boundary Platform.

Open Scope string_scope.

(** [str::split_once(c)]. *)
Fixpoint split_once_bytes (c : ascii) (l cur : list ascii) : option (string * string) :=
  match l with
  | [] => None
  | b :: l' => if ascii_eqb b c then Some (of_bytes (rev cur), of_bytes l')
               else split_once_bytes c l' (b :: cur)
  end.
Definition split_once (c : ascii) (s : string) : option (string * string) :=
  split_once_bytes c (bytes s) [].

(** The recognisers.  [sanitized] and [profile_value_start] take the invocation
    (executable and arguments) the credential profiles are derived from. *)
Class CommandDisplay := {
  secret_field : string -> bool; (** [SECRET_FIELDS.is_match] *)
  is_option : string -> bool; (** [credential_fields::is_option] *)
  profile_value_start : string -> list value -> string -> option N;
  is_dynamic : string -> bool; (** [shell_value::is_dynamic] *)
  sanitized : string -> list value -> list string -> string -> string * bool;
}.

(** [unsafe_command_display_character]: controls, bidirectional and zero-width
    characters. *)
Definition unsafe_command_display_character (c : N) : bool :=
  let between lo hi := (lo <=? c)%N && (c <=? hi)%N in
  (c <=? 31)%N || between 127%N 159%N
  || (c =? 173)%N || (c =? 1564)%N || between 8203%N 8207%N || between 8234%N 8238%N
  || between 8288%N 8303%N || (c =? 65279)%N || (c =? 8232)%N || (c =? 8233)%N
  || between 65529%N 65531%N.
Definition unsafe_text (s : string) : bool := existsb unsafe_command_display_character (chars s).

(** [CommandIntent::validate]. *)
Definition validate_intent (i : CommandIntent) : result string unit :=
  reject (is_empty (trim (justification i))
          || (MAX_COMMAND_JUSTIFICATION_CHARS <? N.of_nat (length (chars (justification i))))%N
          || unsafe_text (justification i))
    "justification must be nonblank plain text of at most 512 characters without control or bidirectional characters".

(** [CommandApprovalContext::validate]. *)
Definition context_fields (c : CommandApprovalContext) : list string :=
  [cac_justification c; cac_executable c; cac_working_directory c].
Definition context_text (c : CommandApprovalContext) : list string :=
  (context_fields c ++ cac_arguments c)%list.
Definition total_len (l : list string) : N := foldr (fun s n => slen s + n)%N 0%N l.
Definition validate_context (c : CommandApprovalContext) : result string unit :=
  reject (existsb (fun v => is_empty (trim v)) (context_fields c)
          || (8192 <? slen (cac_justification c))%N
          || (256 <? N.of_nat (length (cac_arguments c)))%N
          || existsb unsafe_text (context_text c)
          || (MAX_COMMAND_APPROVAL_BYTES <? total_len (context_text c))%N)
    "invalid command approval context".

Definition invalid_display : GatewayError :=
  Safety "command approval details cannot be displayed safely".

Definition REDACTED : string := "[REDACTED]".

Definition CREDENTIAL_VALUE_OPTIONS : list string :=
  ["--user"; "--proxy-user"; "--oauth2-bearer"; "--cookie"; "--header"; "--proxy-header";
   "--tlsuser"; "--proxy-tlsuser"; "--tlspassword"; "--proxy-tlspassword"; "--pass";
   "--proxy-pass"; "--cert"; "--proxy-cert"; "--login-options"; "-passin"; "-passout"; "-pw"].

Section Display.
Context `{Externals} `{CommandDisplay}.

(** [credential_option_value_start]. *)
Definition credential_option_value_start (resource : string) (args : list value)
    (argument : string) : option N :=
  let '(name, has_value) := match split_once "=" argument with
    | Some (name, _) => (name, true)
    | None => (argument, false)
    end in
  if is_option name || is_one_of name CREDENTIAL_VALUE_OPTIONS
  then Some (slen name + if has_value then 1 else 0)%N
  else profile_value_start resource args argument.

(** The values of the request's environment whose names look secret, sorted. *)
Definition environment_secrets (content : value) : list string :=
  match get "environment" content ≫= as_object with
  | None => []
  | Some env =>
      sort_dedup (List.filter (fun v => negb (is_empty v))
        (omap (fun kv => if secret_field kv.1 then as_str kv.2 else None) env))
  end.

(** The argument loop: [project] returns the sanitised text and whether it changed. *)
Fixpoint display_arguments (project : string -> string * bool)
    (value_start : string -> option N) (secret_next : bool) (args : list value)
    : result GatewayError (list string * bool) :=
  match args with
  | [] => Ok ([], false)
  | a :: args' =>
      argument ← ok_or (as_str a) invalid_display;
      if secret_next then
        '(l, redacted) ← display_arguments project value_start false args';
        Ok (REDACTED :: l, true)
      else
        let start := value_start argument in
        if is_some_and start (fun start => start <? slen argument)%N then
          let '(text, changed) :=
            project (String.substring 0 (N.to_nat (default 0%N start)) argument) in
          '(l, redacted) ← display_arguments project value_start false args';
          Ok ((text ++ REDACTED) :: l, true)
        else
          let '(text, changed) := project argument in
          '(l, redacted) ← display_arguments project value_start
             (is_dynamic argument || (is_some start && negb (contains_byte "=" argument))) args';
          Ok (text :: l, changed || redacted)
  end.

(** The background note of [lifetime: workspace] commands. *)
Definition lifetime_note (content : value) (justification : string) : string :=
  if bool_decide (get_str "lifetime" content = Some "workspace")
  then justification ++ " [Background process: continues across turns until stopped, its deadline, or runtime shutdown.]"
  else justification.

(** [command_approval_context]. *)
Definition command_approval_context (request : EffectRequest)
    : result GatewayError (option CommandApprovalContext) :=
  match er_command_intent request with
  | None => Ok None
  | Some intent =>
      reject (negb (String.eqb (er_action request) "shell.run"))
        (Safety "command intent is only valid on shell.run") ;;
      map_err Safety (validate_intent intent) ;;
      encoded ← map_err (fun _ => invalid_display) (to_vec_request request);
      reject (1024 * 1024 <? slen encoded)%N invalid_display ;;
      args ← ok_or (get "args" (er_content request) ≫= as_array) invalid_display;
      cwd ← ok_or (get_str "cwd" (er_content request)) invalid_display;
      let secrets := environment_secrets (er_content request) in
      let project := sanitized (er_resource request) args secrets in
      let '(text, redacted1) := project (justification intent) in
      let '(executable, redacted2) := project (er_resource request) in
      let '(working_directory, redacted3) := project cwd in
      '(arguments, redacted4) ← display_arguments project
         (credential_option_value_start (er_resource request) args) false args;
      let context := mkCommandApprovalContext (lifetime_note (er_content request) text)
        executable arguments working_directory
        (redacted1 || redacted2 || redacted3 || redacted4) in
      map_err (fun _ => invalid_display) (validate_context context) ;;
      Ok (Some context)
  end.

(** ** Properties *)

Definition no_unsafe_character (s : string) : Prop :=
  forall c, c ∈ chars s -> unsafe_command_display_character c = false.

Lemma unsafe_text_false s : unsafe_text s = false -> no_unsafe_character s.
Proof.
  unfold unsafe_text. intros Hf c Hc. apply not_true_iff_false. intros Ht.
  apply not_true_iff_false in Hf. apply Hf, existsb_exists. exists c.
  by rewrite <- list_elem_of_In.
Qed.

Lemma validate_context_Ok c :
  validate_context c = Ok tt ->
  Forall no_unsafe_character (context_text c) /\
  Forall (fun v => trim v <> "") (context_fields c) /\
  (length (cac_arguments c) <= 256)%nat /\
  (total_len (context_text c) <= MAX_COMMAND_APPROVAL_BYTES)%N.
Proof.
  unfold validate_context. intros Hc. apply reject_Ok in Hc. inv_bool.
  assert (forall (f : string -> bool) l, existsb f l = false -> Forall (fun v => f v = false) l)
    as Hex.
  { intros f l Hl. apply Forall_forall. intros v Hv. apply not_true_iff_false. intros Ht.
    apply not_true_iff_false in Hl. apply Hl, existsb_exists. exists v.
    by rewrite <- list_elem_of_In. }
  split_and!.
  - apply Hex in H3. eapply Forall_impl; [exact H3|]. apply unsafe_text_false.
  - apply Hex in H1. eapply Forall_impl; [exact H1|]. intros v Hv. by apply String.eqb_neq in Hv.
  - apply N.ltb_ge in H4. lia.
  - apply N.ltb_ge in H2. done.
Qed.

Lemma display_arguments_secret project vs args : forall l r,
  display_arguments project vs true args = Ok (l, r) ->
  match args with [] => l = [] | _ => head l = Some REDACTED end.
Proof.
  destruct args as [|a args]; simpl; intros l r Ha; [by inv_ok|].
  apply bind_Ok in Ha as (t & _ & Ha). apply bind_Ok in Ha as ([l' r'] & _ & Ha). by inv_ok.
Qed.

(** The arguments that stand where a credential option's value goes. *)
Fixpoint value_positions (vs : string -> option N) (secret_next : bool) (args : list value)
    : list bool :=
  match args with
  | [] => []
  | a :: args' =>
      let argument := default "" (as_str a) in
      secret_next ::
        (if secret_next then value_positions vs false args'
         else if is_some_and (vs argument) (fun start => start <? slen argument)%N
         then value_positions vs false args'
         else value_positions vs
                (is_dynamic argument || (is_some (vs argument) && negb (contains_byte "=" argument)))
                args')
  end.

(** Argument boundaries are kept, and every credential value position shows the
    placeholder only. *)
Lemma display_arguments_positions project vs args : forall secret_next l r,
  display_arguments project vs secret_next args = Ok (l, r) ->
  length l = length args /\
  Forall2 (fun secret text => secret = true -> text = REDACTED)
    (value_positions vs secret_next args) l /\
  (Exists (eq true) (value_positions vs secret_next args) -> r = true).
Proof.
  induction args as [|a args IH]; intros sn l r Ha; simpl in Ha.
  { inv_ok. split_and!; [done|constructor|]. inversion 1. }
  apply bind_Ok in Ha as (t & Et & Ha). apply ok_or_Ok in Et. simpl. rewrite Et. simpl.
  destruct sn; [|destruct (is_some_and (vs t) _) eqn:Es].
  - apply bind_Ok in Ha as ([l' r'] & E & Ha). inv_ok.
    destruct (IH _ _ _ E) as (Hl & Hf & _). simpl. auto.
  - destruct (project _) as [text ch]. apply bind_Ok in Ha as ([l' r'] & E & Ha). inv_ok.
    destruct (IH _ _ _ E) as (Hl & Hf & _). simpl. split_and!; auto. by constructor.
  - destruct (project t) as [text ch]. apply bind_Ok in Ha as ([l' r'] & E & Ha). inv_ok.
    destruct (IH _ _ _ E) as (Hl & Hf & Hr). simpl. split_and!; auto.
    + by constructor.
    + inversion 1; subst; [done|]. rewrite Hr by done. apply orb_true_r.
Qed.

Lemma validate_intent_Ok i :
  validate_intent i = Ok tt ->
  trim (justification i) <> "" /\
  (N.of_nat (length (chars (justification i))) <= MAX_COMMAND_JUSTIFICATION_CHARS)%N /\
  no_unsafe_character (justification i).
Proof.
  unfold validate_intent. intros Hi. apply reject_Ok in Hi. inv_bool.
  split_and!; [by apply String.eqb_neq|by apply N.ltb_ge|by apply unsafe_text_false].
Qed.

(** What an approver can be shown: command details are released only for a
    [shell.run] request that carries a valid intent; the released text holds no control,
    bidirectional or zero-width character and is bounded; the argument boundaries are
    those of the request, and each argument standing where a credential option takes its
    value is shown as the placeholder, with the [redacted] flag set.  A request without
    intent releases nothing. *)
Lemma command_approval_context_safe request o :
  command_approval_context request = Ok o ->
  match o with
  | None => er_command_intent request = None
  | Some c =>
      er_action request = "shell.run" /\
      (exists i, er_command_intent request = Some i /\ trim (justification i) <> "" /\
         no_unsafe_character (justification i)) /\
      Forall no_unsafe_character
        (cac_justification c :: cac_executable c :: cac_working_directory c :: cac_arguments c) /\
      (total_len (context_text c) <= 4194304)%N /\
      exists args, get "args" (er_content request) = Some (Array args) /\
        let positions := value_positions
          (credential_option_value_start (er_resource request) args) false args in
        Forall2 (fun secret text => secret = true -> text = REDACTED)
          positions (cac_arguments c) /\
        (Exists (eq true) positions -> cac_redacted c = true)
  end.
Proof.
  unfold command_approval_context. destruct (er_command_intent request) as [i|] eqn:Ei.
  2: { intros Ho. by inv_ok. }
  intros Ho. inv_ok. inv_bool. split; [done|].
  apply validate_intent_Ok in E0 as (Hne & _ & Hsafe). split; [eauto|].
  match goal with H : validate_context _ = _ |- _ =>
    apply validate_context_Ok in H as (Hf & _ & _ & Ht) end.
  match goal with H : display_arguments _ _ _ _ = _ |- _ => rename H into Ea end.
  split; [exact Hf|]. split; [exact Ht|].
  destruct (get "args" (er_content request)) as [[]|] eqn:Eg; try discriminate.
  simpl in E3. injection E3 as <-. eexists. split; [done|].
  destruct (display_arguments_positions _ _ _ _ _ _ Ea) as (_ & Hp & Hr).
  split; [exact Hp|]. simpl. intros He. rewrite (Hr He). by rewrite !orb_true_r.
Qed.

End Display.

(** ** A concrete recogniser, for the witnesses *)

Definition test_display : CommandDisplay := {|
  secret_field s := eq_ignore_ascii_case s "TOKEN";
  is_option s := String.eqb s "--password";
  profile_value_start _ _ _ := None;
  is_dynamic _ := false;
  sanitized _ _ secrets s := if is_one_of s secrets then (REDACTED, true) else (s, false);
|}.

Definition test_context : ExecutionContext :=
  mkExecutionContext None "c" None (Some "s1") None None None None None None [] [] []
    None None None None.

Definition test_shell_run : EffectRequest :=
  mkEffectRequest 1 "r" (mkActor User "u") "shell.run" "/bin/curl" []
    (mkRiskInput Unavailable None None)
    (Object [("args", Array [Str "--password"; Str "hunter2"; Str "host"]);
             ("cwd", Str "/work"); ("environment", Object [])])
    (Some (mkCommandIntent "fetch the page")) [] test_context None PreEffect None.

Lemma command_approval_context_safe_witness :
  command_approval_context (H:=test_externals) (H0:=test_display) test_shell_run =
    Ok (Some (mkCommandApprovalContext "fetch the page" "/bin/curl"
      ["--password"; REDACTED; "host"] "/work" true)) /\
  er_action test_shell_run = "shell.run".
Proof.
  assert (command_approval_context (H:=test_externals) (H0:=test_display) test_shell_run =
    Ok (Some (mkCommandApprovalContext "fetch the page" "/bin/curl"
      ["--password"; REDACTED; "host"] "/work" true))) as E by (vm_compute; reflexivity).
  split; [exact E|].
  exact (proj1 (command_approval_context_safe (H:=test_externals) (H0:=test_display) _ _ E)).
Defined.
