(* ===== verification/JournalStore.v ===== *)
(** * The redb journal: state and codec

    [crates/colossus-journal-redb/src/common.rs], [crypto.rs], [keys.rs] and
    [journal/payload.rs]: the tables of the database, the key and signer ports, the
    encryption of payloads and the hash of a record.  [redb] transactions are functional
    updates of [Tables] that take effect when the operation commits (an early return
    leaves the tables as they were); its I/O errors are not modelled.  [serde_json],
    [hex], the AEAD cipher and Ed25519 are the class [JournalCodec]. *)

From S2P Require Import Prelude Json Contracts Boundary Platform.

Open Scope string_scope.

(** ** Tables ([common.rs]) *)

Record Tables := mkTables {
  t_events : gmap N string;
  t_stream_events : gmap (string * N) N;
  t_stream_versions : gmap string N;
  t_metadata : gmap string string;
  t_outbox : gmap N string;
  t_positions : gmap string N;
  t_records : gmap string string;
}.
Definition no_tables : Tables := mkTables ∅ ∅ ∅ ∅ ∅ ∅ ∅.

Definition ZERO_HASH : string :=
  "0000000000000000000000000000000000000000000000000000000000000000".
Definition CHECKPOINT_INTERVAL : N := 100.
Definition STREAM_EVENTS_INDEX_KEY : string := "stream_events_index_version".
Definition STREAM_EVENTS_INDEX_VERSION : N := 1.
Definition PAYLOAD_PROTECTION_KEY : string := "payload_protection_v1".
Definition SECURE_ANCHOR_FORMAT_VERSION : N := 2.
Definition INCREMENTAL_VERIFICATION_PROFILE : string := "full-journal-v1".

(** The entries of an ordered table with integer keys. *)
Definition seq_le {V} (a b : N * V) : Prop := (a.1 <= b.1)%N.
#[export] Instance seq_le_dec {V} : RelDecision (@seq_le V).
Proof. intros a b. unfold seq_le. apply _. Defined.
Definition table_entries {V} (m : gmap N V) : list (N * V) := merge_sort seq_le (map_to_list m).
(** [table.range(from..)]. *)
Definition range_from {V} (from : N) (m : gmap N V) : list (N * V) :=
  List.filter (fun kv => from <=? kv.1)%N (table_entries m).

(** [stream_events.range((stream, low)..=(stream, high))]: versions and sequences. *)
Definition stream_range (stream : string) (low high : N) (m : gmap (string * N) N)
    : list (N * N) :=
  merge_sort seq_le (omap (fun kv : string * N * N =>
    if String.eqb kv.1.1 stream && (low <=? kv.1.2)%N && (kv.1.2 <=? high)%N
    then Some (kv.1.2, kv.2) else None) (map_to_list m)).

(** ** What a record is hashed and encrypted over ([crypto.rs]) *)

Record AssociatedData := mkAssociatedData {
  ad_schema_version : N;
  ad_event_version : N;
  ad_event_id : string;
  ad_global_sequence : N;
  ad_stream_id : string;
  ad_stream_version : N;
  ad_classification : EventClassification;
  ad_event_type : string;
  ad_actor : Actor;
  ad_context : ExecutionContext;
  ad_occurred_at : string;
}.
Record RecordHashInput := mkRecordHashInput {
  rh_associated_data : AssociatedData;
  rh_payload : EncryptedPayload;
  rh_previous_hash : string;
}.

(** [Box<RawValue>]: the exact JSON text of a nested value. *)
Abbreviation raw := string (only parsing).
Record PersistedEventEnvelope := mkPersistedEventEnvelope {
  pe_schema_version : N;
  pe_event_version : N;
  pe_event_id : string;
  pe_global_sequence : N;
  pe_stream_id : string;
  pe_stream_version : N;
  pe_classification : EventClassification;
  pe_event_type : string;
  pe_actor : raw;
  pe_context : raw;
  pe_occurred_at : string;
  pe_payload : raw;
  pe_previous_hash : string;
  pe_record_hash : string;
}.
Record PersistedAssociatedData := mkPersistedAssociatedData {
  pa_schema_version : N;
  pa_event_version : N;
  pa_event_id : string;
  pa_global_sequence : N;
  pa_stream_id : string;
  pa_stream_version : N;
  pa_classification : EventClassification;
  pa_event_type : string;
  pa_actor : raw;
  pa_context : raw;
  pa_occurred_at : string;
}.
Record PersistedRecordHashInput := mkPersistedRecordHashInput {
  ph_associated_data : PersistedAssociatedData;
  ph_payload : raw;
  ph_previous_hash : string;
}.

Definition associated_data (e : EventEnvelope) : AssociatedData :=
  mkAssociatedData (ev_schema_version e) (ev_event_version e) (ev_event_id e)
    (ev_global_sequence e) (ev_stream_id e) (ev_stream_version e) (ev_classification e)
    (ev_event_type e) (ev_actor e) (ev_context e) (ev_occurred_at e).
Definition record_hash_input (e : EventEnvelope) : RecordHashInput :=
  mkRecordHashInput (associated_data e) (ev_payload e) (ev_previous_hash e).
Definition persisted_associated_data (p : PersistedEventEnvelope) : PersistedAssociatedData :=
  mkPersistedAssociatedData (pe_schema_version p) (pe_event_version p) (pe_event_id p)
    (pe_global_sequence p) (pe_stream_id p) (pe_stream_version p) (pe_classification p)
    (pe_event_type p) (pe_actor p) (pe_context p) (pe_occurred_at p).
Definition persisted_record_hash_input (p : PersistedEventEnvelope) : PersistedRecordHashInput :=
  mkPersistedRecordHashInput (persisted_associated_data p) (pe_payload p) (pe_previous_hash p).

(** What the stored bytes of an envelope decode to: [#[serde(skip)]] fields are lost. *)
Definition durable_envelope (e : EventEnvelope) : EventEnvelope :=
  mkEventEnvelope (ev_schema_version e) (ev_event_version e) (ev_event_id e)
    (ev_global_sequence e) (ev_stream_id e) (ev_stream_version e) (ev_classification e)
    (ev_event_type e) (ev_actor e) (durable_context (ev_context e)) (ev_occurred_at e)
    (ev_payload e) (ev_previous_hash e) (ev_record_hash e).

(** ** Third-party code: [serde_json], [hex], [chacha20poly1305] *)

Class JournalCodec := {
  envelope_to_vec : EventEnvelope -> result string string;
  envelope_from_slice : string -> result string EventEnvelope;
  persisted_from_slice : string -> result string PersistedEventEnvelope;
  associated_to_vec : AssociatedData -> result string string;
  hash_input_to_vec : RecordHashInput -> result string string;
  persisted_associated_to_vec : PersistedAssociatedData -> result string string;
  persisted_hash_input_to_vec : PersistedRecordHashInput -> result string string;
  value_from_slice : string -> result string value;
  u64_to_vec : N -> result string string;
  u64_from_slice : string -> result string N;
  string_to_vec : string -> result string string;
  string_from_slice : string -> result string string;
  checkpoint_to_vec : SignedCheckpoint -> result string string;
  checkpoint_from_slice : string -> result string SignedCheckpoint;
  hex_encode : string -> string;
  hex_decode : string -> option string;
  aead_encrypt : string -> string -> string -> string -> result string string;
    (** key, nonce, message, associated data *)
  aead_decrypt : string -> string -> string -> string -> option string;
}.

(** How deeply a value nests; [serde_json] parses at most 127 levels. *)
Fixpoint json_depth (v : value) : nat :=
  match v with
  | Array l => S (foldr (fun v d => Nat.max (json_depth v) d) 0 l)
  | Object fs => S (foldr (fun kv d => Nat.max (json_depth kv.2) d) 0 fs)
  | _ => 0
  end.
Definition MAX_PARSED_DEPTH : nat := 127.
Definition parseable (v : value) : Prop := json_depth v <= MAX_PARSED_DEPTH.

(** The values that are parsed back exactly: integers in range, keys in map order, and no
    floats (without [float_roundtrip] their last digit may differ). *)
Fixpoint ascending_keys (l : list string) : bool :=
  match l with
  | a :: (b :: _) as l' => str_ltb a b && ascending_keys l'
  | _ => true
  end.
Fixpoint exact_json (v : value) : bool :=
  match v with
  | Number (Float _) => false
  | Number (PosInt n) => (n <=? u64_max)%N
  | Number (NegInt z) => (- 9223372036854775808 <=? z)%Z && (z <? 0)%Z
  | Array l => forallb exact_json l
  | Object fs => ascending_keys fs.*1 && forallb (fun kv => exact_json kv.2) fs
  | _ => true
  end.

(** Their documented behaviour. [RawValue] keeps the text it was parsed from, so what is
    hashed and authenticated again is what was hashed and encrypted. *)
Class JournalCodecOk `{Externals} `{JournalCodec} : Prop := {
  envelope_roundtrip : forall e b, envelope_to_vec e = Ok b ->
    envelope_from_slice b = Ok (durable_envelope e) /\
    exists p, persisted_from_slice b = Ok p /\ pe_record_hash p = ev_record_hash e /\
      persisted_associated_to_vec (persisted_associated_data p)
        = associated_to_vec (associated_data e) /\
      persisted_hash_input_to_vec (persisted_record_hash_input p)
        = hash_input_to_vec (record_hash_input e);
  value_parses : forall v b, parseable v -> to_vec_value v = Ok b ->
    exists v', value_from_slice b = Ok v';
  value_roundtrip : forall v b, parseable v -> exact_json v = true -> to_vec_value v = Ok b ->
    value_from_slice b = Ok v;
  u64_roundtrip : forall n, (n <= u64_max)%N ->
    exists b, u64_to_vec n = Ok b /\ u64_from_slice b = Ok n;
  string_roundtrip : forall s, exists b, string_to_vec s = Ok b /\ string_from_slice b = Ok s;
  checkpoint_roundtrip : forall c b, checkpoint_to_vec c = Ok b -> checkpoint_from_slice b = Ok c;
  hex_roundtrip : forall s, hex_decode (hex_encode s) = Some s;
  aead_roundtrip : forall k n m a c, aead_encrypt k n m a = Ok c -> aead_decrypt k n c a = Some m;
}.

(** [decode_journal_json]: malformed durable data is an integrity failure. *)
Definition decode_journal_json {A} (r : result string A) : result StoreError A :=
  map_err (fun e => Verification ("invalid stored journal JSON at " ++s e)) r.
Definition adapter_error {A} (r : result string A) : result StoreError A := map_err StoreAdapter r.

(** ** Ports: [KeyProvider] and [CheckpointSigner] *)

Inductive JournalPayloadProtection := EncryptedProtection | PlaintextProtection.
#[export] Instance JournalPayloadProtection_eq_dec : EqDecision JournalPayloadProtection.
Proof. solve_decision. Defined.
Definition protection_text (p : JournalPayloadProtection) : string :=
  match p with EncryptedProtection => "encrypted" | PlaintextProtection => "plaintext" end.

(** A provider's state is explicit: [store_anchor] returns the next one. *)
Class KeyProvider (K : Type) := {
  payload_protection : K -> JournalPayloadProtection;
  active_key : K -> result StoreError (string * string);
  key_by_id : K -> string -> result StoreError string;
  store_anchor : SecureAnchor -> K -> result StoreError K;
  load_anchor : K -> result StoreError (option SecureAnchor);
}.
Class CheckpointSigner (S : Type) := {
  signer_key_id : S -> string;
  sign : S -> string -> result StoreError string;
  verify_signature : S -> string -> string -> result StoreError unit;
}.

(** Only a read of durable data claims that the data is wrong. *)
Definition integrity_error (e : StoreError) : bool :=
  match e with Verification _ => true | _ => false end.

(** What the ports promise to the journal. *)
Class KeyProviderOk (K : Type) `{KeyProvider K} : Prop := {
  active_key_known : forall k id key, active_key k = Ok (id, key) -> key_by_id k id = Ok key;
  store_anchor_load : forall a k k', store_anchor a k = Ok k' -> load_anchor k' = Ok (Some a);
  store_anchor_keys : forall a k k' id, store_anchor a k = Ok k' ->
    payload_protection k' = payload_protection k /\ key_by_id k' id = key_by_id k id;
  active_key_error : forall k e, active_key k = Err e -> integrity_error e = false;
  store_anchor_error : forall a k e, store_anchor a k = Err e -> integrity_error e = false;
}.
Class CheckpointSignerOk (S : Type) `{CheckpointSigner S} : Prop := {
  sign_verify : forall s m sig, sign s m = Ok sig -> verify_signature s m sig = Ok tt;
  sign_error : forall s m e, sign s m = Err e -> integrity_error e = false;
}.

(** [PlaintextKeyProvider]. *)
Inductive PlaintextKeyProvider := PlaintextKeys.
#[export] Instance plaintext_key_provider : KeyProvider PlaintextKeyProvider := {
  payload_protection _ := PlaintextProtection;
  active_key _ := Err (KeyUnavailable "plaintext journal has no encryption key");
  key_by_id _ _ := Err (KeyUnavailable "plaintext journal has no encryption key");
  store_anchor _ _ := Err (StoreAdapter "plaintext journal does not support secure anchors");
  load_anchor _ := Ok None;
}.
#[export] Instance plaintext_key_provider_ok : KeyProviderOk PlaintextKeyProvider.
Proof. constructor; naive_solver. Qed.

(** [StaticKeyProvider], and [rotate]. *)
Record StaticKeyProvider := mkStaticKeyProvider {
  sk_active_id : string;
  sk_keys : gmap string string;
  sk_anchor : option SecureAnchor;
}.
Definition static_new (id key : string) : StaticKeyProvider :=
  mkStaticKeyProvider id {[id := key]} None.
Definition rotate (id key : string) (k : StaticKeyProvider) : result StoreError StaticKeyProvider :=
  reject (is_some_and (sk_keys k !! id) (fun existing => negb (String.eqb existing key)))
    (StoreAdapter "a historical key identity cannot be assigned different key material") ;;
  Ok (mkStaticKeyProvider id (<[id := key]> (sk_keys k)) (sk_anchor k)).
Definition static_key (k : StaticKeyProvider) (id : string) : result StoreError string :=
  ok_or (sk_keys k !! id) (KeyUnavailable id).
#[export] Instance static_key_provider : KeyProvider StaticKeyProvider := {
  payload_protection _ := EncryptedProtection;
  active_key k := key ← static_key k (sk_active_id k); Ok (sk_active_id k, key);
  key_by_id := static_key;
  store_anchor a k := Ok (mkStaticKeyProvider (sk_active_id k) (sk_keys k) (Some a));
  load_anchor k := Ok (sk_anchor k);
}.
#[export] Instance static_key_provider_ok : KeyProviderOk StaticKeyProvider.
Proof.
  constructor; simpl.
  - intros k id key Hk. apply bind_Ok in Hk as (key' & Hk & Heq). by injection Heq as <- <-.
  - by intros a k k' [= <-].
  - by intros a k k' id [= <-].
  - intros k e Hk. unfold static_key in Hk. destruct (sk_keys k !! sk_active_id k); naive_solver.
  - done.
Qed.

(** [DisabledCheckpointSigner]. *)
Inductive DisabledCheckpointSigner := DisabledSigner.
#[export] Instance disabled_signer : CheckpointSigner DisabledCheckpointSigner := {
  signer_key_id _ := "none";
  sign _ _ := Err (StoreAdapter "checkpoint signing is disabled for plaintext storage");
  verify_signature _ _ _ := Err (Verification "plaintext storage cannot contain signed checkpoints");
}.
#[export] Instance disabled_signer_ok : CheckpointSignerOk DisabledCheckpointSigner.
Proof. constructor; naive_solver. Qed.

(** ** Payloads and record hashes *)

Section Payload.
Context `{Externals} `{JournalCodec} {K} `{KeyProvider K}.

Definition record_hash (e : EventEnvelope) : result StoreError string :=
  b ← adapter_error (hash_input_to_vec (record_hash_input e)); Ok (sha256_hex b).
Definition persisted_record_hash (p : PersistedEventEnvelope) : result StoreError string :=
  b ← adapter_error (persisted_hash_input_to_vec (persisted_record_hash_input p));
  Ok (sha256_hex b).

Definition is_plaintext (p : JournalPayloadProtection) : bool :=
  bool_decide (p = PlaintextProtection).

(** [encrypt_payload]; [nonce] is what [getrandom::fill] yields. *)
Definition encrypt_payload (protection : JournalPayloadProtection) (k : K)
    (nonce : result string string) (e : EventEnvelope) (plaintext : string)
    : result StoreError EncryptedPayload :=
  if is_plaintext protection then
    Ok (mkEncryptedPayload "none" PLAINTEXT_PAYLOAD_ALGORITHM "" (hex_encode plaintext)
          (sha256_hex plaintext))
  else
    '(key_id, key) ← active_key k;
    nonce ← adapter_error nonce;
    aad ← adapter_error (associated_to_vec (associated_data e));
    ciphertext ← adapter_error (aead_encrypt key nonce plaintext aad);
    Ok (mkEncryptedPayload key_id ENCRYPTED_PAYLOAD_ALGORITHM (hex_encode nonce)
          (hex_encode ciphertext) (sha256_hex plaintext)).

Definition decrypt_persisted (protection : JournalPayloadProtection) (k : K)
    (e : EventEnvelope) (p : PersistedEventEnvelope) : result StoreError string :=
  let payload := ev_payload e in
  if is_plaintext protection then
    reject (negb (String.eqb (pl_algorithm payload) PLAINTEXT_PAYLOAD_ALGORITHM)
            || negb (String.eqb (pl_key_id payload) "none") || negb (is_empty (pl_nonce payload)))
      (Verification ("event " ++s ev_event_id e
        ++s " payload does not match plaintext journal protection")) ;;
    ok_or (hex_decode (pl_ciphertext payload))
      (Verification ("event " ++s ev_event_id e ++s " plaintext payload encoding is invalid"))
  else
    reject (negb (String.eqb (pl_algorithm payload) ENCRYPTED_PAYLOAD_ALGORITHM))
      (Verification ("unsupported payload algorithm " ++s pl_algorithm payload)) ;;
    key ← key_by_id k (pl_key_id payload);
    nonce ← ok_or (hex_decode (pl_nonce payload)) (Verification "invalid XChaCha20 nonce encoding");
    reject (negb (slen nonce =? 24)%N) (Verification "invalid XChaCha20 nonce length") ;;
    ciphertext ← ok_or (hex_decode (pl_ciphertext payload))
      (Verification "invalid encrypted payload encoding");
    aad ← adapter_error (persisted_associated_to_vec (persisted_associated_data p));
    ok_or (aead_decrypt key nonce ciphertext aad)
      (Verification ("event " ++s ev_event_id e ++s " payload authentication failed")).

(** [load_persisted]: the event must be the stored one. *)
Definition load_persisted (t : Tables) (e : EventEnvelope)
    : result StoreError PersistedEventEnvelope :=
  bytes ← ok_or (t_events t !! ev_global_sequence e)
    (Verification ("event " ++s ev_event_id e ++s " is absent from the journal"));
  stored ← decode_journal_json (envelope_from_slice bytes);
  reject (negb (bool_decide (stored = e)))
    (Verification ("event " ++s ev_event_id e ++s " does not match its persisted envelope")) ;;
  decode_journal_json (persisted_from_slice bytes).

Definition verify_persisted_event (protection : JournalPayloadProtection) (k : K)
    (e : EventEnvelope) (p : PersistedEventEnvelope) : result StoreError value :=
  computed ← persisted_record_hash p;
  reject (negb (String.eqb computed (pe_record_hash p))
          || negb (String.eqb (ev_record_hash e) (pe_record_hash p)))
    (Verification ("event " ++s ev_event_id e ++s " record hash mismatch")) ;;
  plaintext ← decrypt_persisted protection k e p;
  reject (negb (String.eqb (sha256_hex plaintext) (pl_plaintext_hash (ev_payload e))))
    (Verification ("event " ++s ev_event_id e ++s " plaintext hash mismatch")) ;;
  decode_journal_json (value_from_slice plaintext).

End Payload.
