(* ===== verification/Journal.v ===== *)
(** * The redb journal: operations

    [crates/colossus-journal-redb/src/journal/]: [append.rs], [checkpoint.rs],
    [verification.rs], [streams.rs], [event_journal.rs].  A read is a function of the
    tables; an operation of the [EventJournal] port takes the journal to its answer and the
    next journal, because a failed verification quarantines it.  Fresh identifiers, the
    clock and the nonces are inputs. *)

From S2P Require Import Prelude Json Contracts Boundary Platform JournalStore.

Open Scope string_scope.

(** [VerificationReport] ([colossus-ports/src/control.rs]). *)
Record VerificationReport := mkVerificationReport {
  vr_event_count : N;
  vr_last_sequence : N;
  vr_last_hash : string;
  vr_checkpoint : option SignedCheckpoint;
}.

(** What one appended event takes from outside: [Uuid::now_v7], [utc_now] and the nonce. *)
Record Stamp := mkStamp {
  st_event_id : string;
  st_occurred_at : result string string;
  st_nonce : result string string;
}.

Record RedbEventJournal (K S : Type) := mkRedbEventJournal {
  rj_tables : Tables;
  rj_payload_protection : JournalPayloadProtection;
  rj_keys : K;
  rj_signer : S;
  rj_recovery_mode : bool;
  rj_recovery_reason : option string;
}.
Arguments mkRedbEventJournal {K S}.
Arguments rj_tables {K S}.
Arguments rj_payload_protection {K S}.
Arguments rj_keys {K S}.
Arguments rj_signer {K S}.
Arguments rj_recovery_mode {K S}.
Arguments rj_recovery_reason {K S}.

Definition set_tables {K S} (t : Tables) (j : RedbEventJournal K S) : RedbEventJournal K S :=
  mkRedbEventJournal t (rj_payload_protection j) (rj_keys j) (rj_signer j)
    (rj_recovery_mode j) (rj_recovery_reason j).
Definition set_keys {K S} (k : K) (j : RedbEventJournal K S) : RedbEventJournal K S :=
  mkRedbEventJournal (rj_tables j) (rj_payload_protection j) k (rj_signer j)
    (rj_recovery_mode j) (rj_recovery_reason j).
Definition set_recovery {K S} (reason : string) (j : RedbEventJournal K S) : RedbEventJournal K S :=
  mkRedbEventJournal (rj_tables j) (rj_payload_protection j) (rj_keys j) (rj_signer j) true
    (Some reason).

Definition set_metadata (key bytes : string) (t : Tables) : Tables :=
  mkTables (t_events t) (t_stream_events t) (t_stream_versions t)
    (<[key := bytes]> (t_metadata t)) (t_outbox t) (t_positions t) (t_records t).

(** [Option<Result<..>>::transpose]. *)
Definition transpose {A} (o : option (result StoreError A)) : result StoreError (option A) :=
  match o with None => Ok None | Some r => a ← r; Ok (Some a) end.

Section Tables.
Context `{Externals} `{JournalCodec}.

(** ** Metadata *)

Definition last_sequence (t : Tables) : result StoreError N :=
  match t_metadata t !! "last_sequence" with
  | None => Ok 0%N
  | Some b => decode_journal_json (u64_from_slice b)
  end.
Definition last_hash (t : Tables) : result StoreError string :=
  match t_metadata t !! "last_hash" with
  | None => Ok ZERO_HASH
  | Some b => decode_journal_json (string_from_slice b)
  end.
Definition latest_checkpoint (t : Tables) : result StoreError (option SignedCheckpoint) :=
  transpose ((fun b => decode_journal_json (checkpoint_from_slice b))
    <$> t_metadata t !! "latest_checkpoint").
Definition checkpoint_sequence (t : Tables) : result StoreError N :=
  c ← latest_checkpoint t; Ok (default 0%N (cp_global_sequence <$> c)).
Definition stream_events_index_version (t : Tables) : result StoreError (option N) :=
  transpose ((fun b => decode_journal_json (u64_from_slice b))
    <$> t_metadata t !! STREAM_EVENTS_INDEX_KEY).

(** ** Outbox *)

Definition outbox_record (event_id : string) (sequence : N) : value :=
  Object [("event_id", Str event_id); ("global_sequence", Number (PosInt sequence));
          ("status", Str "pending")].

(** [queued.get("event_id") .. queued.get("global_sequence")] of the record of [e]. *)
Definition outbox_targets (queued : value) (e : EventEnvelope) : bool :=
  bool_decide (get_str "event_id" queued = Some (ev_event_id e))
  && bool_decide (get "global_sequence" queued ≫= as_u64 = Some (ev_global_sequence e)).

Definition check_outbox (t : Tables) (sequence : N) (e : EventEnvelope) : result StoreError unit :=
  bytes ← ok_or (t_outbox t !! sequence)
    (Verification ("projection outbox record " ++s pretty sequence ++s " is absent"));
  queued ← decode_journal_json (value_from_slice bytes);
  reject (negb (outbox_targets queued e))
    (Verification ("projection outbox record " ++s pretty sequence
      ++s " targets a different event")).

(** ** [streams.rs] *)

(** One index entry, followed to its event. *)
Definition indexed_event (t : Tables) (stream_id : string) (entry : N * N)
    : result StoreError EventEnvelope :=
  let '(version, sequence) := entry in
  bytes ← ok_or (t_events t !! sequence)
    (Verification ("stream event index references absent event " ++s pretty sequence));
  event ← decode_journal_json (envelope_from_slice bytes);
  reject (negb (ev_global_sequence event =? sequence)%N
          || negb (String.eqb (ev_stream_id event) stream_id)
          || negb (ev_stream_version event =? version)%N)
    (Verification ("stream event index entry " ++s stream_id ++s "/" ++s pretty version
      ++s " is invalid")) ;;
  Ok event.

Definition require_index (t : Tables) : result StoreError unit :=
  version ← stream_events_index_version t;
  reject (negb (bool_decide (version = Some STREAM_EVENTS_INDEX_VERSION)))
    (Verification "stream event index is unavailable").

Definition stream_version (t : Tables) (stream_id : string) : N :=
  default 0%N (t_stream_versions t !! stream_id).

(** The versions continue one by one. *)
Definition check_next_version (stream_id : string) (expected : N) (e : EventEnvelope)
    : result StoreError N :=
  reject (negb (ev_stream_version e =? expected)%N)
    (Verification ("stream " ++s stream_id ++s " index has a version gap at " ++s pretty expected)) ;;
  Ok (saturating_add expected 1).

Definition limited {A} (limit : option N) (l : list A) : list A :=
  match limit with Some n => take (N.to_nat n) l | None => l end.

Definition read_indexed_stream (t : Tables) (stream_id : string) (after_version : N)
    (limit : option N) : result StoreError (list EventEnvelope) :=
  if bool_decide (limit = Some 0%N) || (after_version =? u64_max)%N then Ok []
  else
    let start := saturating_add after_version 1 in
    require_index t ;;
    events ← try_map (indexed_event t stream_id)
      (limited limit (stream_range stream_id start u64_max (t_stream_events t)));
    try_fold (check_next_version stream_id) events start ;;
    let durable := stream_version t stream_id in
    let reached := match last events with
                   | Some e => ev_stream_version e
                   | None => N.min after_version durable
                   end in
    reject (is_none_or limit (fun limit => count events <? limit)%N && negb (reached =? durable)%N)
      (Verification ("stream " ++s stream_id ++s " index does not reach durable version "
        ++s pretty durable)) ;;
    Ok events.

Definition MAX_STREAM_READ_BATCH : N := 1024.
Definition MAX_STREAM_LIST_BATCH : N := 1024.

(** [events.windows(2)]: every version is one above the next. *)
Fixpoint descending (l : list EventEnvelope) : bool :=
  match l with
  | a :: (b :: _) as l' =>
      (ev_stream_version a =? saturating_add (ev_stream_version b) 1)%N && descending l'
  | _ => true
  end.

Definition read_indexed_stream_backwards (t : Tables) (stream_id : string)
    (before_version : option N) (limit : N) : result StoreError (list EventEnvelope) :=
  let limit := N.min limit MAX_STREAM_READ_BATCH in
  if (limit =? 0)%N || is_some_and before_version (fun v => v <=? 1)%N then Ok []
  else
    let last_version := match before_version with
                        | Some v => saturating_sub v 1
                        | None => u64_max
                        end in
    require_index t ;;
    events ← try_map (indexed_event t stream_id)
      (take (N.to_nat limit) (rev (stream_range stream_id 1 last_version (t_stream_events t))));
    let durable := stream_version t stream_id in
    let expected_first := match before_version with
                          | Some v => N.min (saturating_sub v 1) durable
                          | None => durable
                          end in
    reject (negb (bool_decide (ev_stream_version <$> head events
              = if (0 <? expected_first)%N then Some expected_first else None)))
      (Verification ("stream " ++s stream_id ++s " reverse index does not begin at version "
        ++s pretty expected_first)) ;;
    reject ((count events <? limit)%N && (0 <? expected_first)%N
            && negb (bool_decide (ev_stream_version <$> last events = Some 1%N)))
      (Verification ("stream " ++s stream_id ++s " reverse index does not reach version 1")) ;;
    reject (negb (descending events))
      (Verification ("stream " ++s stream_id ++s " reverse index has a version gap")) ;;
    Ok events.

(** One event of the rebuilt index. *)
Definition index_event (index : gmap (string * N) N) (entry : N * string)
    : result StoreError (gmap (string * N) N) :=
  let '(sequence, bytes) := entry in
  event ← decode_journal_json (envelope_from_slice bytes);
  reject (negb (ev_global_sequence event =? sequence)%N)
    (Verification ("event " ++s ev_event_id event ++s " global sequence does not match its key")) ;;
  reject (is_some (index !! (ev_stream_id event, ev_stream_version event)))
    (Verification ("stream " ++s ev_stream_id event ++s " has duplicate version "
      ++s pretty (ev_stream_version event))) ;;
  Ok (<[(ev_stream_id event, ev_stream_version event) := sequence]> index).

(** [ensure_stream_events_index]: whether the index was built, and the committed tables. *)
Definition ensure_stream_events_index (t : Tables) : result StoreError (bool * Tables) :=
  version ← stream_events_index_version t;
  if bool_decide (version = Some STREAM_EVENTS_INDEX_VERSION) then Ok (false, t)
  else
    reject (is_some version) (Verification "stream event index version is unsupported") ;;
    reject (negb (bool_decide (t_stream_events t = ∅)))
      (Verification "unversioned stream event index is not empty") ;;
    index ← try_fold index_event (table_entries (t_events t)) ∅;
    bytes ← adapter_error (u64_to_vec STREAM_EVENTS_INDEX_VERSION);
    Ok (true, set_metadata STREAM_EVENTS_INDEX_KEY bytes
      (mkTables (t_events t) index (t_stream_versions t) (t_metadata t) (t_outbox t)
        (t_positions t) (t_records t))).

(** ** [event_journal.rs]: global reads *)

Definition has_nul (s : string) : bool := contains_byte "000" s.

(** The loop of [list_stream_ids] over [streams.range(start..)]. *)
Fixpoint page_ids (prefix : string) (after : option string) (limit : nat)
    (l : list (string * N)) : list string :=
  match l, limit with
  | [], _ | _, O => []
  | (id, _) :: l', S n =>
      if bool_decide (after = Some id) then page_ids prefix after limit l'
      else if starts_with id prefix then id :: page_ids prefix after n l'
      else []
  end.

Definition list_stream_ids (t : Tables) (prefix : string) (after : option string) (limit : N)
    : result StoreError (list string) :=
  reject (has_nul prefix || is_some_and after (fun c => has_nul c || negb (starts_with c prefix)))
    (StoreAdapter "stream prefix and cursor must contain no NUL and share one prefix") ;;
  let limit := N.min limit MAX_STREAM_LIST_BATCH in
  let start := default prefix after in
  Ok (page_ids prefix after (N.to_nat limit)
    (List.filter (fun kv => str_leb start kv.1) (sorted_entries (t_stream_versions t)))).

(** A scan of consecutive keys, bounded by [limit]: the items and the next expected key. *)
Fixpoint scan {A} (item : N -> N -> string -> result StoreError A) (limit : nat) (expected : N)
    (l : list (N * string)) : result StoreError (list A * N) :=
  match l, limit with
  | [], _ | _, O => Ok ([], expected)
  | (key, bytes) :: l', S n =>
      a ← item expected key bytes;
      '(items, next) ← scan item n (saturating_add expected 1) l';
      Ok (a :: items, next)
  end.

Definition scan_table {A} (t : Tables) (table : gmap N string)
    (item : N -> N -> string -> result StoreError A) (gap : N -> string) (from limit : N)
    : result StoreError (list A) :=
  head ← last_sequence t;
  let start := N.max from 1 in
  '(items, expected) ← scan item (N.to_nat limit) start (range_from start table);
  reject ((0 <? limit)%N && (count items <? limit)%N && (expected <=? head)%N)
    (Verification (gap expected)) ;;
  Ok items.

Definition global_gap (expected : N) : string :=
  "global journal read expected sequence " ++s pretty expected.
Definition global_item (expected key : N) (bytes : string) : result StoreError EventEnvelope :=
  event ← decode_journal_json (envelope_from_slice bytes);
  reject (negb (key =? expected)%N || negb (ev_global_sequence event =? expected)%N)
    (Verification (global_gap expected)) ;;
  Ok event.
Definition read_global (t : Tables) (from limit : N) : result StoreError (list EventEnvelope) :=
  scan_table t (t_events t) global_item global_gap from limit.

Definition outbox_gap (expected : N) : string :=
  "projection outbox expected sequence " ++s pretty expected.
Definition outbox_item (expected key : N) (bytes : string) : result StoreError ProjectionWorkItem :=
  reject (negb (key =? expected)%N) (Verification (outbox_gap expected)) ;;
  record ← decode_journal_json (value_from_slice bytes);
  event_id ← ok_or (get_str "event_id" record)
    (Verification ("projection outbox record " ++s pretty key ++s " has no event_id"));
  reject (negb (bool_decide (get "global_sequence" record ≫= as_u64 = Some key)))
    (Verification ("projection outbox record " ++s pretty key ++s " has a mismatched sequence")) ;;
  Ok (mkProjectionWorkItem key event_id).
Definition read_projection_work (t : Tables) (from limit : N)
    : result StoreError (list ProjectionWorkItem) :=
  scan_table t (t_outbox t) outbox_item outbox_gap from limit.

Definition head_of (t : Tables) : result StoreError (N * string) :=
  sequence ← last_sequence t; hash ← last_hash t; Ok (sequence, hash).

End Tables.

(** ** [append.rs] *)

Section Append.
Context `{Externals} `{JournalCodec} {K} `{KeyProvider K}.

(** The locals of the transaction. *)
Record AppendState := mkAppendState {
  as_tables : Tables;
  as_sequence : N;
  as_previous_hash : string;
  as_batch_versions : gmap string N;
  as_persisted : list EventEnvelope;
}.

(** The envelope before its payload and hash are computed. *)
Definition draft_envelope (event : NewEvent) (stamp : Stamp) (sequence version : N)
    (occurred_at previous_hash : string) : EventEnvelope :=
  mkEventEnvelope 1 (ne_event_version event) (st_event_id stamp) sequence (ne_stream_id event)
    version (ne_classification event) (ne_event_type event) (ne_actor event) (ne_context event)
    occurred_at (mkEncryptedPayload "" "" "" "" "") previous_hash "".
Definition set_payload (p : EncryptedPayload) (e : EventEnvelope) : EventEnvelope :=
  mkEventEnvelope (ev_schema_version e) (ev_event_version e) (ev_event_id e)
    (ev_global_sequence e) (ev_stream_id e) (ev_stream_version e) (ev_classification e)
    (ev_event_type e) (ev_actor e) (ev_context e) (ev_occurred_at e) p (ev_previous_hash e)
    (ev_record_hash e).
Definition set_hash (h : string) (e : EventEnvelope) : EventEnvelope :=
  mkEventEnvelope (ev_schema_version e) (ev_event_version e) (ev_event_id e)
    (ev_global_sequence e) (ev_stream_id e) (ev_stream_version e) (ev_classification e)
    (ev_event_type e) (ev_actor e) (ev_context e) (ev_occurred_at e) (ev_payload e)
    (ev_previous_hash e) h.

(** Sealing: payload protection and the record's hash. *)
Definition seal (protection : JournalPayloadProtection) (k : K) (nonce : result string string)
    (draft : EventEnvelope) (payload : value) : result StoreError EventEnvelope :=
  plaintext ← adapter_error (to_vec_value payload);
  protected ← encrypt_payload protection k nonce draft plaintext;
  let e := set_payload protected draft in
  hash ← record_hash e;
  Ok (set_hash hash e).

(** The rows one event inserts. *)
Definition insert_event (e : EventEnvelope) (encoded outbox : string) (t : Tables) : Tables :=
  let q := ev_global_sequence e in
  mkTables (<[q := encoded]> (t_events t))
    (<[(ev_stream_id e, ev_stream_version e) := q]> (t_stream_events t))
    (<[ev_stream_id e := ev_stream_version e]> (t_stream_versions t)) (t_metadata t)
    (<[q := outbox]> (t_outbox t)) (t_positions t) (t_records t).

Definition append_event (protection : JournalPayloadProtection) (k : K) (s : AppendState)
    (es : NewEvent * Stamp) : result StoreError AppendState :=
  let '(event, stamp) := es in
  let durable := match as_batch_versions s !! ne_stream_id event with
                 | Some v => v
                 | None => stream_version (as_tables s) (ne_stream_id event)
                 end in
  reject (negb (ne_expected_stream_version event =? durable)%N)
    (Conflict (ne_stream_id event) (ne_expected_stream_version event) durable) ;;
  sequence ← ok_or (checked_add (as_sequence s) 1) (Verification "journal sequence is exhausted");
  version ← ok_or (checked_add durable 1) (Verification "stream version is exhausted");
  occurred_at ← adapter_error (st_occurred_at stamp);
  e ← seal protection k (st_nonce stamp)
        (draft_envelope event stamp sequence version occurred_at (as_previous_hash s))
        (ne_payload event);
  encoded ← adapter_error (envelope_to_vec e);
  reject (is_some (t_stream_events (as_tables s) !! (ev_stream_id e, version)))
    (Verification ("stream " ++s ev_stream_id e ++s " version " ++s pretty version
      ++s " is already indexed")) ;;
  outbox ← adapter_error (to_vec_value (outbox_record (ev_event_id e) sequence));
  Ok (mkAppendState (insert_event e encoded outbox (as_tables s)) sequence (ev_record_hash e)
        (<[ev_stream_id e := version]> (as_batch_versions s)) (as_persisted s ++ [e])%list).

(** [append_locked]: the committed tables and the persisted envelopes, or the error that
    aborted the transaction. *)
Definition append_locked (recovery_mode : bool) (protection : JournalPayloadProtection) (k : K)
    (events : list (NewEvent * Stamp)) (t : Tables)
    : result StoreError (Tables * list EventEnvelope) :=
  reject recovery_mode RecoveryMode ;;
  if bool_decide (length events = 0) then Ok (t, [])
  else
    sequence ← last_sequence t;
    previous_hash ← last_hash t;
    s ← try_fold (append_event protection k) events (mkAppendState t sequence previous_hash ∅ []);
    sequence_bytes ← adapter_error (u64_to_vec (as_sequence s));
    hash_bytes ← adapter_error (string_to_vec (as_previous_hash s));
    Ok (set_metadata "last_hash" hash_bytes
          (set_metadata "last_sequence" sequence_bytes (as_tables s)), as_persisted s).

End Append.

(** ** [checkpoint.rs] *)

Section Checkpoint.
Context `{Externals} `{JournalCodec} {K S} `{KeyProvider K} `{CheckpointSigner S}.

Definition newline : string := String "010" "".
Definition checkpoint_message (sequence : N) (hash : string) : string :=
  "colossus-checkpoint-v1" ++s newline ++s pretty sequence ++s newline ++s hash ++s newline.

Definition verify_checkpoint_signature (s : S) (c : SignedCheckpoint) : result StoreError unit :=
  reject (negb (String.eqb (cp_algorithm c) "Ed25519")
          || negb (String.eqb (cp_key_id c) (signer_key_id s)))
    (Verification "checkpoint signer identity or algorithm mismatch") ;;
  signature ← ok_or (hex_decode (cp_signature c))
    (Verification "invalid checkpoint signature encoding");
  verify_signature s (checkpoint_message (cp_global_sequence c) (cp_record_hash c)) signature.

Definition verify_checkpoint (s : S) (c : SignedCheckpoint) (event_hash : option string)
    : result StoreError unit :=
  reject (negb (bool_decide (event_hash = Some (cp_record_hash c))))
    (Verification "checkpoint does not match journal record") ;;
  verify_checkpoint_signature s c.

(** The [last_hash] row, which must exist below a non-empty head. *)
Definition head_hash_row (t : Tables) : result StoreError string :=
  bytes ← ok_or (t_metadata t !! "last_hash") (Verification "journal head hash is absent");
  decode_journal_json (string_from_slice bytes).

Definition checkpoint_anchor (sequence : N) (hash : string) : SecureAnchor :=
  mkSecureAnchor SECURE_ANCHOR_FORMAT_VERSION sequence hash
    (Some INCREMENTAL_VERIFICATION_PROFILE) Verified.

(** [checkpoint_inner].  The anchor is stored before the checkpoint row commits: an error
    after that keeps the new anchor. *)
Definition checkpoint_inner (now : result string string) (j : RedbEventJournal K S)
    : result StoreError (option SignedCheckpoint) * RedbEventJournal K S :=
  if is_plaintext (rj_payload_protection j) then (Ok None, j)
  else if rj_recovery_mode j then (Err RecoveryMode, j)
  else
    match (sequence ← last_sequence (rj_tables j);
           if (sequence =? 0)%N then Ok None
           else
             hash ← head_hash_row (rj_tables j);
             signature ← sign (rj_signer j) (checkpoint_message sequence hash);
             created_at ← adapter_error now;
             let anchor := checkpoint_anchor sequence hash in
             k ← store_anchor anchor (rj_keys j);
             Ok (Some (mkSignedCheckpoint sequence hash (signer_key_id (rj_signer j)) "Ed25519"
                         (hex_encode signature) created_at, k))) with
    | Err e => (Err e, j)
    | Ok None => (Ok None, j)
    | Ok (Some (checkpoint, k)) =>
        let j := set_keys k j in
        match adapter_error (checkpoint_to_vec checkpoint) with
        | Err e => (Err e, j)
        | Ok bytes =>
            (Ok (Some checkpoint),
             set_tables (set_metadata "latest_checkpoint" bytes (rj_tables j)) j)
        end
    end.

(** [quarantine_result]: a verification failure closes the journal for writing and marks
    the anchor. *)
Definition quarantine_anchor (k : K) : K :=
  match load_anchor k with
  | Ok (Some a) =>
      match store_anchor (mkSecureAnchor (an_format_version a) (an_sequence a) (an_hash a)
              (an_verification_profile a) Quarantined) k with
      | Ok k' => k'
      | Err _ => k
      end
  | _ => k
  end.
Definition quarantine_result {A} (r : result StoreError A) (j : RedbEventJournal K S)
    : result StoreError A * RedbEventJournal K S :=
  match r with
  | Err (Verification reason) => (r, set_keys (quarantine_anchor (rj_keys j)) (set_recovery reason j))
  | _ => (r, j)
  end.

Definition checkpoint (now : result string string) (j : RedbEventJournal K S)
    : result StoreError (option SignedCheckpoint) * RedbEventJournal K S :=
  let '(r, j) := checkpoint_inner now j in quarantine_result r j.

(** ** [event_journal.rs]: the port *)

(** [age_due]: whether the last checkpoint of this process is a minute old. *)
Definition append_batch (now : result string string) (age_due : bool)
    (events : list (NewEvent * Stamp)) (j : RedbEventJournal K S)
    : result StoreError (list EventEnvelope) * RedbEventJournal K S :=
  let appended := append_locked (rj_recovery_mode j) (rj_payload_protection j) (rj_keys j) events
                    (rj_tables j) in
  let j := match appended with Ok (t, _) => set_tables t j | Err _ => j end in
  let '(persisted, j) := quarantine_result (snd <$> appended) j in
  match persisted with
  | Err e => (Err e, j)
  | Ok persisted =>
      if is_plaintext (rj_payload_protection j) then (Ok persisted, j)
      else
        let '(sequence, j) :=
          match persisted with
          | [] => (Ok 0%N, j)
          | _ => quarantine_result (checkpoint_sequence (rj_tables j)) j
          end in
        match sequence with
        | Err e => (Err e, j)
        | Ok sequence =>
            let count_due := is_some_and (last persisted) (fun e =>
              CHECKPOINT_INTERVAL <=? saturating_sub (ev_global_sequence e) sequence)%N in
            if count_due || age_due then
              let '(c, j) := checkpoint now j in
              match c with Err e => (Err e, j) | Ok _ => (Ok persisted, j) end
            else (Ok persisted, j)
        end
  end.

Definition append (now : result string string) (age_due : bool) (event : NewEvent)
    (stamp : Stamp) (j : RedbEventJournal K S)
    : result StoreError EventEnvelope * RedbEventJournal K S :=
  let '(r, j) := append_batch now age_due [(event, stamp)] j in
  (events ← r; ok_or (last events) (StoreAdapter "append returned no event"), j).

(** The reads of the port, each quarantining what it finds broken. *)
Definition reads {A} (r : Tables -> result StoreError A) (j : RedbEventJournal K S)
    : result StoreError A * RedbEventJournal K S :=
  quarantine_result (r (rj_tables j)) j.
Definition port_read_stream (id : string) :=
  reads (fun t => read_indexed_stream t id 0 None).
Definition port_read_stream_from (id : string) (after limit : N) :=
  reads (fun t => read_indexed_stream t id after (Some (N.min limit MAX_STREAM_READ_BATCH))).
Definition port_read_stream_backwards (id : string) (before : option N) (limit : N) :=
  reads (fun t => read_indexed_stream_backwards t id before limit).
Definition port_list_stream_ids (prefix : string) (after : option string) (limit : N) :=
  reads (fun t => list_stream_ids t prefix after limit).
Definition port_read_global (from limit : N) := reads (fun t => read_global t from limit).
Definition port_read_projection_work (from limit : N) :=
  reads (fun t => read_projection_work t from limit).
Definition port_head := reads head_of.

Definition decrypt_payload (e : EventEnvelope) (j : RedbEventJournal K S)
    : result StoreError value * RedbEventJournal K S :=
  quarantine_result (p ← load_persisted (rj_tables j) e;
    verify_persisted_event (rj_payload_protection j) (rj_keys j) e p) j.

End Checkpoint.
