(* ===== verification/JournalVerify.v ===== *)
(** * The redb journal: verification and startup

    [verification.rs] ([verify_inner]), [startup.rs] and the opening of a journal in
    [journal.rs].  Every loop over a table is a fold over its entries in key order. *)

From S2P Require Import Prelude Json Contracts Boundary Platform CommandApproval.
From S2P Require Import JournalStore Journal.

Open Scope string_scope.

Section Verify.
Context `{Externals} `{JournalCodec} {K S} `{KeyProvider K} `{CheckpointSigner S}.

(** ** Keys of projection rows ([common.rs]) *)

Definition nul : string := String "000" "".
Definition invalid_projection_name {A} : result StoreError A :=
  Err (StoreAdapter "projection name must be nonempty and contain no NUL").
Definition projection_prefix (projection : string) : result StoreError string :=
  if is_empty projection || has_nul projection then invalid_projection_name
  else Ok (projection ++s nul).
Definition projection_record_key (projection key : string) : result StoreError string :=
  if is_empty projection || has_nul projection then invalid_projection_name
  else
    reject (is_empty key || has_nul key)
      (StoreAdapter "projection key must be nonempty and contain no NUL") ;;
    Ok (projection ++s nul ++s key).

Definition mismatch (e : EventEnvelope) : StoreError :=
  Verification ("event " ++s ev_event_id e ++s " sequence or previous hash mismatch").
Definition index_mismatch (e : EventEnvelope) : StoreError :=
  Verification ("stream " ++s ev_stream_id e ++s " version " ++s pretty (ev_stream_version e)
    ++s " index mismatch").

(** The index row of [e] points back at [sequence]. *)
Definition check_index (t : Tables) (sequence : N) (e : EventEnvelope) : result StoreError unit :=
  reject (negb (bool_decide (t_stream_events t !! (ev_stream_id e, ev_stream_version e)
                             = Some sequence))) (index_mismatch e).

(** ** [verify_inner] *)

Record VerifyState := mkVerifyState {
  vs_expected_sequence : N;
  vs_previous_hash : string;
  vs_stream_versions : gmap string N;
  vs_checkpoint_hash : option string;
  vs_anchor_hash : option string;
}.

Definition verify_entry (protection : JournalPayloadProtection) (k : K) (t : Tables)
    (verify_stream_index : bool) (checkpoint : option SignedCheckpoint)
    (anchor : option SecureAnchor) (v : VerifyState) (entry : N * string)
    : result StoreError VerifyState :=
  let '(sequence, bytes) := entry in
  reject (negb (sequence =? vs_expected_sequence v)%N)
    (Verification ("global sequence gap: expected " ++s pretty (vs_expected_sequence v)
      ++s ", got " ++s pretty sequence)) ;;
  persisted ← decode_journal_json (persisted_from_slice bytes);
  envelope ← decode_journal_json (envelope_from_slice bytes);
  reject (negb (ev_global_sequence envelope =? sequence)%N
          || negb (String.eqb (ev_previous_hash envelope) (vs_previous_hash v)))
    (mismatch envelope) ;;
  let expected_stream :=
    saturating_add (default 0%N (vs_stream_versions v !! ev_stream_id envelope)) 1 in
  reject (negb (ev_stream_version envelope =? expected_stream)%N)
    (Verification ("stream " ++s ev_stream_id envelope ++s " version mismatch")) ;;
  (if verify_stream_index then check_index t sequence envelope else Ok tt) ;;
  verify_persisted_event protection k envelope persisted ;;
  let seen (s : option N) (h : option string) :=
    if bool_decide (s = Some sequence) then Some (ev_record_hash envelope) else h in
  check_outbox t sequence envelope ;;
  Ok (mkVerifyState (saturating_add (vs_expected_sequence v) 1) (ev_record_hash envelope)
        (<[ev_stream_id envelope := ev_stream_version envelope]> (vs_stream_versions v))
        (seen (cp_global_sequence <$> checkpoint) (vs_checkpoint_hash v))
        (seen (an_sequence <$> anchor) (vs_anchor_hash v))).

(** Whether the stream index is checked. *)
Definition index_status (t : Tables) : result StoreError bool :=
  version ← stream_events_index_version t;
  match version with
  | None =>
      reject (negb (bool_decide (t_stream_events t = ∅)))
        (Verification "unversioned stream event index is not empty") ;;
      Ok false
  | Some v =>
      reject (negb (v =? STREAM_EVENTS_INDEX_VERSION)%N)
        (Verification "stream event index version is unsupported") ;;
      Ok true
  end.

Definition check_position (head : N) (entry : string * N) : result StoreError unit :=
  let '(projection, position) := entry in
  map_err (fun _ => Verification "stored projection name is invalid")
    (projection_prefix projection) ;;
  reject (head <? position)%N
    (Verification ("projection " ++s projection ++s " position " ++s pretty position
      ++s " is ahead of journal head " ++s pretty head)).

Definition check_record (entry : string * string) : result StoreError unit :=
  let '(key, bytes) := entry in
  '(projection, record_key) ← ok_or (split_once "000" key)
    (Verification "projection record key has no namespace delimiter");
  map_err (fun _ => Verification "stored projection record key is invalid")
    (projection_record_key projection record_key) ;;
  map_err (fun e => Verification ("projection record " ++s key ++s " is invalid JSON: " ++s e))
    (value_from_slice bytes) ;;
  Ok tt.

(** [verify_inner], over one snapshot of the tables and the anchor. *)
Definition verify_inner (protection : JournalPayloadProtection) (k : K) (s : S) (t : Tables)
    : result StoreError VerificationReport :=
  anchor ← load_anchor k;
  checkpoint ← latest_checkpoint t;
  verify_stream_index ← index_status t;
  v ← try_fold (verify_entry protection k t verify_stream_index checkpoint anchor)
        (table_entries (t_events t)) (mkVerifyState 1 ZERO_HASH ∅ None None);
  let last := saturating_sub (vs_expected_sequence v) 1 in
  metadata_sequence ← last_sequence t;
  metadata_hash ← last_hash t;
  reject (negb (metadata_sequence =? last)%N || negb (String.eqb metadata_hash (vs_previous_hash v)))
    (Verification "journal head metadata does not match event chain") ;;
  reject (negb (N.of_nat (size (t_outbox t)) =? last)%N)
    (Verification "projection outbox position does not match journal head") ;;
  reject (negb (bool_decide (t_stream_versions t = vs_stream_versions v)))
    (Verification "durable stream versions do not match journal replay") ;;
  try_for_each (check_position last) (sorted_entries (t_positions t)) ;;
  try_for_each check_record (sorted_entries (t_records t)) ;;
  reject (is_plaintext protection && is_some checkpoint)
    (Verification "plaintext journal contains a signed checkpoint") ;;
  match checkpoint with
  | Some c => verify_checkpoint s c (vs_checkpoint_hash v)
  | None => Ok tt
  end ;;
  reject (is_some_and anchor (fun a => negb (bool_decide (vs_anchor_hash v = Some (an_hash a)))))
    (Verification "secure anchor is missing or differs from journal") ;;
  reject (verify_stream_index && negb (N.of_nat (size (t_stream_events t)) =? last)%N)
    (Verification "stream event index position does not match journal head") ;;
  Ok (mkVerificationReport last last (vs_previous_hash v) checkpoint).

(** [EventJournal::verify]. *)
Definition port_verify (j : RedbEventJournal K S)
    : result StoreError VerificationReport * RedbEventJournal K S :=
  quarantine_result
    (verify_inner (rj_payload_protection j) (rj_keys j) (rj_signer j) (rj_tables j)) j.

(** ** [startup.rs] *)

Record StartupVerificationReport := mkStartupVerificationReport {
  sr_configured_mode : StartupVerificationMode;
  sr_path : string;
  sr_verified_from_sequence : option N;
  sr_verified_through_sequence : N;
  sr_verified_event_count : N;
  sr_anchor_format_version : option N;
}.

(** [verify_plaintext_incremental]: the head record and the sizes of the tables. *)
Definition verify_plaintext_incremental (protection : JournalPayloadProtection) (k : K)
    (t : Tables) : result StoreError StartupVerificationReport :=
  head ← last_sequence t;
  head_hash ← last_hash t;
  reject (is_some (t_metadata t !! "latest_checkpoint"))
    (Verification "plaintext journal contains a signed checkpoint") ;;
  version ← stream_events_index_version t;
  reject (negb (bool_decide (version = Some STREAM_EVENTS_INDEX_VERSION)))
    (Verification "plaintext journal stream index is unavailable") ;;
  reject (negb (N.of_nat (size (t_events t)) =? head)%N
          || negb (N.of_nat (size (t_outbox t)) =? head)%N
          || negb (N.of_nat (size (t_stream_events t)) =? head)%N)
    (Verification "plaintext journal local indexes do not match its head") ;;
  reject (is_some (t_events t !! 0%N) || is_some (t_outbox t !! 0%N)
          || negb (bool_decide (length (range_from (saturating_add head 1) (t_events t)) = 0))
          || negb (bool_decide (length (range_from (saturating_add head 1) (t_outbox t)) = 0)))
    (Verification "plaintext journal contains records outside its declared sequence range") ;;
  bytes ← ok_or (t_events t !! head) (Verification "plaintext journal head is absent");
  persisted ← decode_journal_json (persisted_from_slice bytes);
  envelope ← decode_journal_json (envelope_from_slice bytes);
  reject (negb (ev_global_sequence envelope =? head)%N
          || negb (String.eqb (ev_record_hash envelope) head_hash))
    (Verification "plaintext journal head metadata does not match its record") ;;
  verify_persisted_event protection k envelope persisted ;;
  reject (negb (bool_decide (t_stream_events t !! (ev_stream_id envelope, ev_stream_version envelope)
                             = Some head))
          || negb (bool_decide (t_stream_versions t !! ev_stream_id envelope
                                = Some (ev_stream_version envelope))))
    (Verification "plaintext journal head stream index is inconsistent") ;;
  queued ← ok_or (t_outbox t !! head) (Verification "plaintext journal head outbox is absent");
  queued ← decode_journal_json (value_from_slice queued);
  reject (negb (outbox_targets queued envelope))
    (Verification "plaintext journal head outbox targets a different event") ;;
  try_for_each (check_position head) (sorted_entries (t_positions t)) ;;
  Ok (mkStartupVerificationReport Incremental "local_integrity" (Some head) head 1 None).

(** The locals of the loop of [verify_incremental]. *)
Record TailState := mkTailState {
  ts_expected_sequence : N;
  ts_previous_hash : string;
  ts_inspected : N;
  ts_touched_streams : gmap string N;
}.

Definition tail_entry (protection : JournalPayloadProtection) (k : K) (t : Tables)
    (checkpoint : SignedCheckpoint) (v : TailState) (entry : N * string)
    : result StoreError TailState :=
  let '(sequence, bytes) := entry in
  if (ts_inspected v =? 0)%N && (sequence =? cp_global_sequence checkpoint)%N then
    persisted ← decode_journal_json (persisted_from_slice bytes);
    envelope ← decode_journal_json (envelope_from_slice bytes);
    reject (negb (ev_global_sequence envelope =? sequence)%N)
      (Verification "checkpoint event sequence does not match its journal key") ;;
    verify_persisted_event protection k envelope persisted ;;
    reject (negb (String.eqb (ev_record_hash envelope) (cp_record_hash checkpoint)))
      (Verification "checkpoint record is absent or has changed") ;;
    reject (negb (bool_decide (t_stream_events t !! (ev_stream_id envelope, ev_stream_version envelope)
                               = Some sequence)))
      (Verification ("stream " ++s ev_stream_id envelope ++s " version "
        ++s pretty (ev_stream_version envelope) ++s " checkpoint index mismatch")) ;;
    check_outbox t sequence envelope ;;
    Ok (mkTailState (ts_expected_sequence v) (ts_previous_hash v)
          (saturating_add (ts_inspected v) 1)
          (<[ev_stream_id envelope := ev_stream_version envelope]> (ts_touched_streams v)))
  else
    let expected := saturating_add (ts_expected_sequence v) 1 in
    reject (negb (sequence =? expected)%N)
      (Verification ("incremental journal sequence gap: expected " ++s pretty expected
        ++s ", got " ++s pretty sequence)) ;;
    persisted ← decode_journal_json (persisted_from_slice bytes);
    envelope ← decode_journal_json (envelope_from_slice bytes);
    reject (negb (ev_global_sequence envelope =? sequence)%N
            || negb (String.eqb (ev_previous_hash envelope) (ts_previous_hash v)))
      (mismatch envelope) ;;
    verify_persisted_event protection k envelope persisted ;;
    check_index t sequence envelope ;;
    check_outbox t sequence envelope ;;
    Ok (mkTailState expected (ev_record_hash envelope) (saturating_add (ts_inspected v) 1)
          (<[ev_stream_id envelope := ev_stream_version envelope]> (ts_touched_streams v))).

Definition check_touched (t : Tables) (entry : string * N) : result StoreError unit :=
  let '(stream_id, version) := entry in
  reject (negb (bool_decide (t_stream_versions t !! stream_id = Some version)))
    (Verification ("durable stream version for " ++s stream_id
      ++s " does not match the verified tail")).

(** [verify_incremental] up to the checkpoint it may take: the report and whether the head
    is past the checkpoint. *)
Definition verify_incremental (protection : JournalPayloadProtection) (k : K) (s : S)
    (anchor : SecureAnchor) (t : Tables) : result StoreError (StartupVerificationReport * bool) :=
  head ← last_sequence t;
  head_hash ← last_hash t;
  stored ← latest_checkpoint t;
  checkpoint ← ok_or stored (Verification "incremental startup requires a signed checkpoint");
  reject (negb (cp_global_sequence checkpoint =? an_sequence anchor)%N
          || negb (String.eqb (cp_record_hash checkpoint) (an_hash anchor))
          || (head <? cp_global_sequence checkpoint)%N)
    (Verification "secure anchor and signed checkpoint do not identify one journal boundary") ;;
  verify_checkpoint_signature s checkpoint ;;
  let boundary := N.max (cp_global_sequence checkpoint) 1 in
  v ← try_fold (tail_entry protection k t checkpoint) (range_from boundary (t_events t))
        (mkTailState (cp_global_sequence checkpoint) (cp_record_hash checkpoint) 0 ∅);
  reject (ts_inspected v =? 0)%N
    (Verification "checkpoint record is absent from the journal") ;;
  reject (negb (ts_expected_sequence v =? head)%N
          || negb (String.eqb (ts_previous_hash v) head_hash))
    (Verification "incremental verification did not reach the journal head") ;;
  try_for_each (check_touched t) (sorted_entries (ts_touched_streams v)) ;;
  try_for_each (check_position head) (sorted_entries (t_positions t)) ;;
  Ok (mkStartupVerificationReport Incremental "incremental" (Some boundary) head
        (ts_inspected v) (Some (an_format_version anchor)),
      (cp_global_sequence checkpoint <? head)%N).

(** [verify_incremental] with its final checkpoint. *)
Definition startup_incremental (now : result string string) (anchor : SecureAnchor)
    (j : RedbEventJournal K S) : result StoreError StartupVerificationReport * RedbEventJournal K S :=
  match verify_incremental (rj_payload_protection j) (rj_keys j) (rj_signer j) anchor (rj_tables j) with
  | Err e => (Err e, j)
  | Ok (report, behind) =>
      if behind : bool then
        let '(c, j) := checkpoint now j in (c ;; Ok report, j)
      else (Ok report, j)
  end.

Definition startup_index (j : RedbEventJournal K S) : result StoreError unit * RedbEventJournal K S :=
  match ensure_stream_events_index (rj_tables j) with
  | Err e => (Err e, j)
  | Ok (_, t) => (Ok tt, set_tables t j)
  end.

(** The full verification at the end of [verify_startup]. *)
Definition startup_full (now : result string string) (mode : StartupVerificationMode)
    (j : RedbEventJournal K S) : result StoreError StartupVerificationReport * RedbEventJournal K S :=
  match verify_inner (rj_payload_protection j) (rj_keys j) (rj_signer j) (rj_tables j) with
  | Err e => (Err e, j)
  | Ok report =>
      let '(indexed, j) := startup_index j in
      match indexed with
      | Err e => (Err e, j)
      | Ok _ =>
          let checkpointed := (0 <? vr_last_sequence report)%N
            && negb (is_plaintext (rj_payload_protection j)) in
          let '(c, j) := if checkpointed then checkpoint now j else (Ok None, j) in
          (c ;; Ok (mkStartupVerificationReport mode
                      (if bool_decide (mode = Full) then "full" else "bootstrap_full") (Some 1%N)
                      (vr_last_sequence report) (vr_event_count report)
                      (if checkpointed then Some SECURE_ANCHOR_FORMAT_VERSION else None)), j)
      end
  end.

Definition startup_anchor (j : RedbEventJournal K S) : result StoreError (option SecureAnchor) :=
  if is_plaintext (rj_payload_protection j) then Ok None else load_anchor (rj_keys j).

(** An anchor this version can resume from. *)
Definition trusted_anchor (a : SecureAnchor) : bool :=
  (an_format_version a =? SECURE_ANCHOR_FORMAT_VERSION)%N
  && bool_decide (an_verification_profile a = Some INCREMENTAL_VERIFICATION_PROFILE)
  && bool_decide (an_status a = Verified).

(** [verify_startup].  [self.head()] is the port's operation: it quarantines. *)
Definition verify_startup (now : result string string) (mode : StartupVerificationMode)
    (j : RedbEventJournal K S) : result StoreError StartupVerificationReport * RedbEventJournal K S :=
  match startup_anchor j with
  | Err e => (Err e, j)
  | Ok anchor =>
      let '(head, j) := reads head_of j in
      match head with
      | Err e => (Err e, j)
      | Ok (sequence, _) =>
          if (sequence =? 0)%N then
            if is_some_and anchor (fun a => negb (an_sequence a =? 0)%N)
            then (Err (Verification "secure anchor is ahead of an empty journal"), j)
            else
              let '(indexed, j) := startup_index j in
              (indexed ;; Ok (mkStartupVerificationReport mode "empty" None 0 0
                                (an_format_version <$> anchor)), j)
          else if is_plaintext (rj_payload_protection j) && bool_decide (mode = Incremental) then
            (verify_plaintext_incremental (rj_payload_protection j) (rj_keys j) (rj_tables j), j)
          else
            match anchor with
            | Some a =>
                if bool_decide (mode = Incremental) && trusted_anchor a then
                  match stream_events_index_version (rj_tables j) with
                  | Err e => (Err e, j)
                  | Ok version =>
                      if bool_decide (version = Some STREAM_EVENTS_INDEX_VERSION) then
                        let '(r, j) := startup_incremental now a j in
                        match r with
                        | Err (Verification _) => startup_full now mode j
                        | _ => (r, j)
                        end
                      else startup_full now mode j
                  end
                else startup_full now mode j
            | None => startup_full now mode j
            end
      end
  end.

(** ** [journal.rs]: opening a journal *)

(** [initialize_payload_protection]: the committed tables. *)
Definition initialize_payload_protection (configured : JournalPayloadProtection) (t : Tables)
    : result StoreError Tables :=
  marker ← transpose ((fun b => decode_journal_json (string_from_slice b))
    <$> t_metadata t !! PAYLOAD_PROTECTION_KEY);
  head ← last_sequence t;
  let nonempty := (0 <? head)%N || negb (bool_decide (t_events t = ∅)) in
  effective ← match marker with
    | Some "encrypted" => Ok EncryptedProtection
    | Some "plaintext" => Ok PlaintextProtection
    | Some _ => Err (Verification "journal payload-protection marker is unsupported")
    | None => Ok (if nonempty then EncryptedProtection else configured)
    end;
  reject (negb (bool_decide (effective = configured)))
    (Verification ("journal payload protection is " ++s protection_text effective
      ++s ", but configuration requests " ++s protection_text configured
      ++s "; use a fresh storage path because in-place protection changes are unsupported")) ;;
  if is_none marker then
    bytes ← adapter_error (string_to_vec (protection_text configured));
    Ok (set_metadata PAYLOAD_PROTECTION_KEY bytes t)
  else Ok t.

(** [open_database]: a failed verification opens the journal in recovery mode. *)
Definition open_database (now : result string string) (mode : StartupVerificationMode)
    (k : K) (s : S) (t : Tables)
    : result StoreError (RedbEventJournal K S * option StartupVerificationReport) :=
  t ← initialize_payload_protection (payload_protection k) t;
  let j := mkRedbEventJournal t (payload_protection k) k s false None in
  let '(r, j) := verify_startup now mode j in
  let '(r, j) := quarantine_result r j in
  match r with
  | Ok report => Ok (j, Some report)
  | Err e => Ok (set_recovery (store_error_text e) j, None)
  end.

End Verify.
