(* ===== verification/Store.v ===== *)
(** * Operations on the ports of storage

    The state and error monad of everything that works through the storage ports, and the
    event journal's port ([crates/colossus-ports/src/journal.rs], [EventJournal]) as its
    clients see it: the class [EventJournal], with the paging helper [collect_stream_ids].
    Fresh identifiers, the clock and the nonces of one call are its [Inputs]. *)

From S2P Require Import Prelude Json Contracts Boundary Platform JournalStore Journal.

Open Scope string_scope.

(** ** A state and error monad *)

Definition op (S A : Type) : Type := S -> result StoreError A * S.
Definition op_ret {S A} (a : A) : op S A := fun s => (Ok a, s).
Definition op_lift {S A} (r : result StoreError A) : op S A := fun s => (r, s).
Definition op_bind {S A B} (m : op S A) (f : A -> op S B) : op S B := fun s =>
  let '(r, s') := m s in
  match r with Ok a => f a s' | Err e => (Err e, s') end.
Declare Scope op_scope.
Delimit Scope op_scope with op.
Notation "x <~ m ;; k" := (op_bind m (fun x => k))
  (at level 100, m at next level, right associativity) : op_scope.
Open Scope op_scope.

(** A loop over a list whose body can return early. *)
Fixpoint op_fold {S A L} (f : L -> A -> op S L) (l : list A) (x : L) : op S L :=
  match l with
  | [] => op_ret x
  | a :: l' => x' <~ f x a;; op_fold f l' x'
  end.
(** [.map(..).collect::<Result<Vec<_>, _>>()]. *)
Fixpoint op_map {S A B} (f : A -> op S B) (l : list A) : op S (list B) :=
  match l with
  | [] => op_ret []
  | a :: l' => b <~ f a;; bs <~ op_map f l';; op_ret (b :: bs)
  end.

(** ** The event journal *)

(** What one call takes from outside: the clock, whether a checkpoint is due by age, and
    a stamp for each event of the batch. *)
Record Inputs := mkInputs {
  in_now : result string string;
  in_age_due : bool;
  in_stamp : nat -> Stamp;
}.
Definition stamped (inputs : Inputs) (events : list NewEvent) : list (NewEvent * Stamp) :=
  imap (fun i event => (event, in_stamp inputs i)) events.

Class EventJournal (J : Type) := {
  ej_append : Inputs -> NewEvent -> op J EventEnvelope;
  ej_append_batch : Inputs -> list NewEvent -> op J (list EventEnvelope);
  ej_read_stream : string -> op J (list EventEnvelope);
  ej_read_stream_from : string -> N -> N -> op J (list EventEnvelope);
  ej_read_stream_backwards : string -> option N -> N -> op J (list EventEnvelope);
  ej_list_stream_ids : string -> option string -> N -> op J (list string);
  ej_decrypt_payload : EventEnvelope -> op J value;
}.

(** The order check of one page of [collect_stream_ids]. *)
Fixpoint ordered_page (prefix : string) (previous : option string) (page : list string) : bool :=
  match page with
  | [] => true
  | id :: page =>
      starts_with id prefix && is_none_or previous (fun p => str_ltb p id)
      && ordered_page prefix (Some id) page
  end.

(** The loop of [collect_stream_ids]; [FUEL_EXHAUSTED] is never its answer. *)
Definition FUEL_EXHAUSTED : StoreError := StoreAdapter "fuel exhausted".
Fixpoint collect_pages `{EventJournal J} (fuel : nat) (prefix : string) (after : option string)
    (streams : list string) : op J (list string) :=
  match fuel with
  | O => op_lift (Err FUEL_EXHAUSTED)
  | S fuel =>
      page <~ ej_list_stream_ids prefix after MAX_STREAM_LIST_BATCH;;
      _ <~ op_lift (reject (MAX_STREAM_LIST_BATCH <? count page)%N
        (Verification "journal stream discovery exceeded its page bound"));;
      if bool_decide (page = []) then op_ret streams
      else
        _ <~ op_lift (reject (negb (ordered_page prefix after page))
          (Verification "journal stream discovery returned an invalid ordered page"));;
        collect_pages fuel prefix (last page) (streams ++ page)%list
  end.
Definition collect_stream_ids `{EventJournal J} (fuel : nat) (prefix : string)
    : op J (list string) := collect_pages fuel prefix None [].

(** The redb journal. *)
#[export] Instance redb_event_journal `{Externals} `{JournalCodec} {K S} `{KeyProvider K}
    `{CheckpointSigner S} : EventJournal (RedbEventJournal K S) := {|
  ej_append inputs event :=
    append (in_now inputs) (in_age_due inputs) event (in_stamp inputs 0);
  ej_append_batch inputs events :=
    append_batch (in_now inputs) (in_age_due inputs) (stamped inputs events);
  ej_read_stream := port_read_stream;
  ej_read_stream_from := port_read_stream_from;
  ej_read_stream_backwards := port_read_stream_backwards;
  ej_list_stream_ids := port_list_stream_ids;
  ej_decrypt_payload := decrypt_payload;
|}.

(** ** Steps of an operation *)

Lemma op_bind_run {S A B} (m : op S A) (f : A -> op S B) s a s' :
  m s = (Ok a, s') -> op_bind m f s = f a s'.
Proof. unfold op_bind. by intros ->. Qed.
Lemma op_lift_run {S A} (r : result StoreError A) (s : S) : op_lift r s = (r, s).
Proof. done. Qed.
Lemma op_bind_lift {S A B} (r : result StoreError A) (f : A -> op S B) s :
  op_bind (op_lift r) f s = match r with Ok a => f a s | Err e => (Err e, s) end.
Proof. by destruct r. Qed.
Lemma op_bind_Ok {S A B} (m : op S A) (f : A -> op S B) j b j' :
  op_bind m f j = (Ok b, j') <-> exists a j1, m j = (Ok a, j1) /\ f a j1 = (Ok b, j').
Proof.
  unfold op_bind. destruct (m j) as [[a|e] j1]; split.
  - eauto.
  - by intros (a' & j1' & [= <- <-] & Hf).
  - done.
  - by intros (a' & j1' & [=] & _).
Qed.
