(* ===== verification/SessionContracts.v ===== *)
(** * Session contracts

    [crates/colossus-contracts/src/session.rs] and the parts of [agent.rs] and
    [communication.rs] it is made of: model messages, the pending tool turn and the
    records of a session, with the two validators every transcript passes. *)

From S2P Require Import Prelude Json Contracts.
From stdpp Require Import gmap.

Open Scope string_scope.

Definition MAX_MODEL_TOOL_CALL_ID_BYTES : N := 128.
Definition MAX_MODEL_TOOL_CALLS_PER_TURN : N := 128.

(** ** Messages *)

Inductive ModelMessageRole := MR_System | MR_User | MR_Assistant | MR_Tool | MR_ToolObservation.
#[export] Instance ModelMessageRole_eq_dec : EqDecision ModelMessageRole.
Proof. solve_decision. Defined.

(** [ModelImageDetail] has the one value [Auto]. *)
Record ModelImageReference := mkModelImageReference {
  im_artifact_id : string;
  im_file_name : string;
  im_media_type : string;
  im_size_bytes : N;
  im_sha256 : string;
  im_width_pixels : N;
  im_height_pixels : N;
}.
#[export] Instance ModelImageReference_eq_dec : EqDecision ModelImageReference.
Proof. solve_decision. Defined.

Inductive ModelContentPart :=
| PartText (text : string)
| PartImage (image : ModelImageReference).
#[export] Instance ModelContentPart_eq_dec : EqDecision ModelContentPart.
Proof. solve_decision. Defined.

Inductive ModelContent :=
| Text (text : string)
| Parts (parts : list ModelContentPart).
#[export] Instance ModelContent_eq_dec : EqDecision ModelContent.
Proof. solve_decision. Defined.

Record ModelToolCall := mkModelToolCall {
  tc_call_id : string;
  tc_name : string;
  tc_arguments : value;
}.
#[export] Instance ModelToolCall_eq_dec : EqDecision ModelToolCall.
Proof. solve_decision. Defined.

Inductive AgentMessageSender :=
| Participant (participant_id : string)
| ApplicationSender (application_id : string).
Record AgentMessageOrigin := mkAgentMessageOrigin {
  ao_message_id : string;
  ao_sender : AgentMessageSender;
  ao_recipient_id : string;
}.
#[export] Instance AgentMessageOrigin_eq_dec : EqDecision AgentMessageOrigin.
Proof.
  assert (EqDecision AgentMessageSender) by solve_decision. solve_decision.
Defined.

Record ModelMessage := mkModelMessage {
  mm_agent_message_origin : option AgentMessageOrigin;
  mm_role : ModelMessageRole;
  mm_content : ModelContent;
  mm_tool_call_id : option string;
  mm_tool_calls : list ModelToolCall;
}.
#[export] Instance ModelMessage_eq_dec : EqDecision ModelMessage.
Proof. solve_decision. Defined.

(** [ModelContent::plain_text] and [images]. *)
Definition plain_text (c : ModelContent) : string :=
  match c with
  | Text text => text
  | Parts parts => String.concat (String "010" "")
      (omap (fun part => match part with PartText text => Some text | PartImage _ => None end) parts)
  end.
Definition images (c : ModelContent) : list ModelImageReference :=
  match c with
  | Text _ => []
  | Parts parts =>
      omap (fun part => match part with PartImage image => Some image | PartText _ => None end) parts
  end.
Definition begins_user_turn (m : ModelMessage) : bool :=
  bool_decide (mm_role m = MR_User) && is_none (mm_agent_message_origin m).
Definition call_ids (m : ModelMessage) : list string := tc_call_id <$> mm_tool_calls m.

(** ** The records of a session *)

Record SessionMessageAppend := mkSessionMessageAppend {
  sa_message : ModelMessage;
  sa_actor : Actor;
}.
Record PendingSessionToolTurn := mkPendingSessionToolTurn {
  pt_run_id : string;
  pt_turn : N;
  pt_call_ids : list string;
}.
#[export] Instance PendingSessionToolTurn_eq_dec : EqDecision PendingSessionToolTurn.
Proof. solve_decision. Defined.
Record SessionLifecycle := mkSessionLifecycle {
  sl_session_id : string;
  sl_archived : bool;
  sl_revision : N;
}.
Record SessionSummary := mkSessionSummary {
  ss_id : string;
  ss_title : option string;
  ss_created_at : string;
  ss_updated_at : string;
  ss_message_count : N;
  ss_last_run_id : option string;
  ss_last_user_preview : option string;
}.
Record SessionMessage := mkSessionMessage {
  sm_session_id : string;
  sm_run_id : string;
  sm_sequence : N;
  sm_message : ModelMessage;
  sm_created_at : string;
}.

(** ** Message content *)

Definition image_role (r : ModelMessageRole) : bool :=
  match r with MR_User | MR_Tool | MR_ToolObservation => true | _ => false end.
Definition invalid_image (image : ModelImageReference) : bool :=
  is_empty (im_artifact_id image) || is_empty (im_file_name image)
  || (im_size_bytes image =? 0)%N || (im_width_pixels image =? 0)%N
  || (im_height_pixels image =? 0)%N || negb (slen (im_sha256 image) =? 64)%N
  || negb (all_bytes (fun b => is_ascii_digit b || in_range 97 102 b) (im_sha256 image))
  || negb (is_one_of (im_media_type image) ["image/png"; "image/jpeg"; "image/webp"]).

(** [ModelContentError] is its detail. *)
Definition validate_part (role : ModelMessageRole) (part : ModelContentPart) : result string unit :=
  match part with
  | PartText _ => Ok tt
  | PartImage image =>
      reject (negb (image_role role)) "image parts require user or released tool provenance" ;;
      reject (invalid_image image) "image reference metadata is invalid"
  end.
Definition validate_model_message_content (m : ModelMessage) : result string unit :=
  match mm_content m with
  | Text _ => Ok tt
  | Parts parts =>
      reject (bool_decide (parts = [])) "multipart content must contain at least one part" ;;
      try_for_each (validate_part (mm_role m)) parts
  end.

(** ** Transcripts *)

Record ModelTranscriptIntegrityError := mkModelTranscriptIntegrityError {
  te_message_index : N;
  te_detail : string;
}.
Definition transcript_error_text (e : ModelTranscriptIntegrityError) : string :=
  "message " ++s pretty (te_message_index e) ++s " violates tool transcript integrity: "
  ++s te_detail e.

Definition validate_model_tool_call_count (message_index n : N)
    : result ModelTranscriptIntegrityError unit :=
  reject (MAX_MODEL_TOOL_CALLS_PER_TURN <? n)%N
    (mkModelTranscriptIntegrityError message_index ("assistant emitted " ++s pretty n
      ++s " tool calls, exceeding the per-turn limit of " ++s pretty MAX_MODEL_TOOL_CALLS_PER_TURN)).
Definition is_ascii_graphic (c : ascii) : bool := in_range 33 126 c.
Definition validate_model_tool_call_id (message_index : N) (call_id : string)
    : result ModelTranscriptIntegrityError unit :=
  reject (is_empty call_id) (mkModelTranscriptIntegrityError message_index
    "assistant emitted a tool call without a call id") ;;
  reject (MAX_MODEL_TOOL_CALL_ID_BYTES <? slen call_id)%N
    (mkModelTranscriptIntegrityError message_index
      ("assistant emitted a tool call id exceeding " ++s pretty MAX_MODEL_TOOL_CALL_ID_BYTES
       ++s " bytes")) ;;
  reject (negb (all_bytes is_ascii_graphic call_id)) (mkModelTranscriptIntegrityError message_index
    "assistant emitted a tool call id containing non-printable or non-ASCII bytes").

Definition unsettled_error (message_index : N) (pending : gset string)
    : ModelTranscriptIntegrityError :=
  mkModelTranscriptIntegrityError message_index
    ("message arrived before tool calls ["
     ++s String.concat ", " (sort_strings (elements pending)) ++s "] were settled").

Record TranscriptState := mkTranscriptState {
  tr_pending : gset string;
  tr_seen : gset string;
  tr_settled : gset string;
  tr_observed : gset string;
}.

Definition assistant_call (message_index : N) (s : gset string * gset string) (call : ModelToolCall)
    : result ModelTranscriptIntegrityError (gset string * gset string) :=
  let '(pending, seen) := s in
  validate_model_tool_call_id message_index (tc_call_id call) ;;
  reject (bool_decide (tc_call_id call ∈ seen)) (mkModelTranscriptIntegrityError message_index
    ("assistant reused tool call id " ++s tc_call_id call)) ;;
  Ok ({[tc_call_id call]} ∪ pending, {[tc_call_id call]} ∪ seen).

(** The body of the loop of [validate_model_transcript]. *)
Definition transcript_step (s : TranscriptState) (im : N * ModelMessage)
    : result ModelTranscriptIntegrityError TranscriptState :=
  let '(message_index, message) := im in
  let error detail := mkModelTranscriptIntegrityError message_index detail in
  let '(mkTranscriptState pending seen settled observed) := s in
  let unsettled := reject (negb (bool_decide (pending = ∅))) (unsettled_error message_index pending) in
  map_err (fun e => error ("model content is invalid: " ++s e))
    (validate_model_message_content message) ;;
  match mm_role message with
  | MR_Tool =>
      call_id ← ok_or (mm_tool_call_id message) (error "tool result has no call id");
      reject (negb (bool_decide (call_id ∈ pending)))
        (error ("tool result references non-pending call " ++s call_id)) ;;
      Ok (mkTranscriptState (pending ∖ {[call_id]}) seen ({[call_id]} ∪ settled) observed)
  | MR_ToolObservation =>
      unsettled ;;
      call_id ← ok_or (mm_tool_call_id message) (error "tool image observation has no call id");
      reject (negb (bool_decide (call_id ∈ settled)) || bool_decide (call_id ∈ observed)
              || negb (bool_decide (mm_tool_calls message = []))
              || is_some (mm_agent_message_origin message)
              || negb (Nat.eqb (length (images (mm_content message))) 1))
        (error "tool image observation must follow its settled result exactly once") ;;
      Ok (mkTranscriptState pending seen settled ({[call_id]} ∪ observed))
  | MR_Assistant =>
      unsettled ;;
      validate_model_tool_call_count message_index (count (mm_tool_calls message)) ;;
      '(pending, seen) ← try_fold (assistant_call message_index) (mm_tool_calls message) (pending, seen);
      Ok (mkTranscriptState pending seen ∅ observed)
  | MR_System => unsettled ;; Ok s
  | MR_User => unsettled ;; Ok (mkTranscriptState pending seen ∅ observed)
  end.

Definition enumerate {A} (l : list A) : list (N * A) := imap (fun i a => (N.of_nat i, a)) l.
Definition validate_model_transcript (messages : list ModelMessage)
    : result ModelTranscriptIntegrityError unit :=
  s ← try_fold transcript_step (enumerate messages) (mkTranscriptState ∅ ∅ ∅ ∅);
  reject (negb (bool_decide (tr_pending s = ∅))) (unsettled_error (count messages) (tr_pending s)).

(** [validate_assistant_tool_call_turn]. *)
Definition turn_call (message_index : N) (seen : gset string) (call : ModelToolCall)
    : result ModelTranscriptIntegrityError (gset string) :=
  validate_model_tool_call_id message_index (tc_call_id call) ;;
  reject (bool_decide (tc_call_id call ∈ seen)) (mkModelTranscriptIntegrityError message_index
    ("assistant reused tool call id " ++s tc_call_id call)) ;;
  Ok ({[tc_call_id call]} ∪ seen).
Definition validate_assistant_tool_call_turn (messages : list ModelMessage) (assistant : ModelMessage)
    : result ModelTranscriptIntegrityError unit :=
  let message_index := count messages in
  let seen := list_to_set (messages ≫= call_ids) in
  validate_model_tool_call_count message_index (count (mm_tool_calls assistant)) ;;
  try_fold (turn_call message_index) (mm_tool_calls assistant) seen ;;
  Ok tt.
