(* ===== verification/Transcript.v ===== *)
(** * What a transcript is

    [validate_model_transcript] keeps four sets; what it accepts is a conversation: system
    and user messages, whole assistant turns - a message and one result for each of its
    calls, in any order, before anything else - and image observations, each after the
    result it belongs to and once. *)

From S2P Require Import Prelude Json Contracts SessionContracts.
From stdpp Require Import gmap.

Open Scope string_scope.

Definition requested (ms : list ModelMessage) : list string :=
  ms ≫= (fun m => if bool_decide (mm_role m = MR_Assistant) then call_ids m else []).
Definition observed (ms : list ModelMessage) : list string :=
  omap (fun m => if bool_decide (mm_role m = MR_ToolObservation) then mm_tool_call_id m else None) ms.
Definition call_id_ok (id : string) : Prop :=
  id <> "" /\ (slen id <= MAX_MODEL_TOOL_CALL_ID_BYTES)%N /\ all_bytes is_ascii_graphic id = true.
Definition content_ok (m : ModelMessage) : Prop := validate_model_message_content m = Ok tt.

(** [conversation ms settled]: the calls settled by the turn an observation may refer to. *)
Inductive conversation : list ModelMessage -> list string -> Prop :=
| conversation_start : conversation [] []
| conversation_system ms settled m :
    conversation ms settled -> content_ok m -> mm_role m = MR_System ->
    conversation (ms ++ [m]) settled
| conversation_user ms settled m :
    conversation ms settled -> content_ok m -> mm_role m = MR_User ->
    conversation (ms ++ [m]) []
| conversation_turn ms settled m results :
    conversation ms settled -> content_ok m -> mm_role m = MR_Assistant ->
    (count (call_ids m) <= MAX_MODEL_TOOL_CALLS_PER_TURN)%N ->
    Forall call_id_ok (call_ids m) -> NoDup (requested ms ++ call_ids m) ->
    Forall (fun r => mm_role r = MR_Tool /\ content_ok r) results ->
    mm_tool_call_id <$> results ≡ₚ Some <$> call_ids m ->
    conversation (ms ++ m :: results) (call_ids m)
| conversation_observation ms settled m id :
    conversation ms settled -> content_ok m -> mm_role m = MR_ToolObservation ->
    mm_tool_call_id m = Some id -> id ∈ settled -> id ∉ observed ms ->
    mm_tool_calls m = [] -> mm_agent_message_origin m = None ->
    length (images (mm_content m)) = 1 ->
    conversation (ms ++ [m]) settled.

(** ** The scan *)

Lemma call_id_ok_iff i id : validate_model_tool_call_id i id = Ok tt <-> call_id_ok id.
Proof.
  unfold validate_model_tool_call_id, call_id_ok. destruct (is_empty id) eqn:He.
  { split; [done|]. intros [Hne _]. by destruct id. }
  assert (id <> "") by (by destruct id). cbn [reject mbind result_bind].
  destruct (N.ltb_spec MAX_MODEL_TOOL_CALL_ID_BYTES (slen id)); cbn [reject mbind result_bind];
    [split; [done|intros (_ & ? & _); lia]|].
  destruct (all_bytes is_ascii_graphic id); split; try done. by intros (_ & _ & ?).
Qed.

Lemma assistant_calls_iff i calls (p s p' s' : gset string) :
  try_fold (assistant_call i) calls (p, s) = Ok (p', s') <->
  Forall call_id_ok (tc_call_id <$> calls) /\ NoDup (tc_call_id <$> calls) /\
  (forall id, id ∈ (tc_call_id <$> calls) -> id ∉ s) /\
  p' = list_to_set (tc_call_id <$> calls) ∪ p /\ s' = list_to_set (tc_call_id <$> calls) ∪ s.
Proof.
  revert p s. induction calls as [|call calls IH]; intros p s.
  { cbn [try_fold fmap list_fmap]. split; [intros [= <- <-]; split_and!; try constructor; set_solver|].
    intros (_ & _ & _ & -> & ->). do 2 f_equal; set_solver. }
  cbn [try_fold]. rewrite fmap_cons, bind_Ok. setoid_rewrite bind_Ok. split.
  - intros ([p1 s1] & ([] & Hid%call_id_ok_iff & Hs) & Hr).
    apply bind_Ok in Hs as ([] & Hs%reject_Ok & [= <- <-]). apply bool_decide_eq_false in Hs.
    apply IH in Hr as (Hf & Hnd & Hnew & -> & ->). split_and!.
    + by constructor.
    + constructor; [|done]. intros Hin%Hnew. set_solver.
    + intros id [->|Hin]%elem_of_cons; [done|]. apply Hnew in Hin. set_solver.
    + set_solver.
    + set_solver.
  - intros ([Hid Hf]%Forall_cons & [Hni Hnd]%NoDup_cons & Hnew & -> & ->).
    eexists (_, _). split.
    + exists tt. split; [by apply call_id_ok_iff|].
      rewrite (bool_decide_false _ (Hnew _ (list_elem_of_here _ _))). reflexivity.
    + apply IH. split_and!; [done|done| |set_solver|set_solver].
      intros id Hin. assert (id <> tc_call_id call) by (by intros ->).
      pose proof (Hnew id). set_solver.
Qed.

Definition scan (ms : list ModelMessage) : result ModelTranscriptIntegrityError TranscriptState :=
  try_fold transcript_step (enumerate ms) (mkTranscriptState ∅ ∅ ∅ ∅).
Lemma enumerate_app {A} (l l' : list A) :
  exists il, enumerate (l ++ l') = (enumerate l ++ il)%list /\ il.*2 = l'.
Proof.
  eexists. split; [apply imap_app|]. apply list_eq. intros i.
  rewrite list_lookup_fmap, list_lookup_imap. by destruct (l' !! i).
Qed.
Lemma scan_snoc ms m : scan (ms ++ [m]) = st ← scan ms; transcript_step st (count ms, m).
Proof.
  unfold scan, enumerate. rewrite imap_app, try_fold_app. cbn [imap].
  destruct (try_fold _ _ _) as [st|e]; [|done]. cbn [mbind result_bind try_fold compose].
  rewrite Nat.add_0_r. unfold count. by destruct (transcript_step st _).
Qed.

(** ** Accepted transcripts are conversations *)

Definition turn_open (ms : list ModelMessage) (answered remaining : list string) : Prop :=
  exists ms0 settled m results, ms = (ms0 ++ m :: results)%list /\ conversation ms0 settled /\
    content_ok m /\ mm_role m = MR_Assistant /\
    (count (call_ids m) <= MAX_MODEL_TOOL_CALLS_PER_TURN)%N /\
    Forall call_id_ok (call_ids m) /\ NoDup (requested ms0 ++ call_ids m) /\
    Forall (fun r => mm_role r = MR_Tool /\ content_ok r) results /\
    mm_tool_call_id <$> results = Some <$> answered /\ answered ++ remaining ≡ₚ call_ids m.
Definition scanned (ms : list ModelMessage) (st : TranscriptState) : Prop :=
  tr_seen st = list_to_set (requested ms) /\ NoDup (requested ms) /\
  tr_observed st = list_to_set (observed ms) /\
  ((tr_pending st = ∅ /\ exists settled, conversation ms settled /\ tr_settled st = list_to_set settled) \/
   exists answered remaining, turn_open ms answered remaining /\ remaining <> [] /\
     tr_pending st = list_to_set remaining /\ tr_settled st = list_to_set answered).

Lemma requested_app ms ms' : requested (ms ++ ms') = (requested ms ++ requested ms')%list.
Proof. apply bind_app. Qed.
Lemma observed_app ms ms' : observed (ms ++ ms') = (observed ms ++ observed ms')%list.
Proof. apply omap_app. Qed.
Lemma requested_one m :
  requested [m] = if bool_decide (mm_role m = MR_Assistant) then call_ids m else [].
Proof. unfold requested. cbn [mbind list_bind]. apply app_nil_r. Qed.

(** A turn whose last call has been answered is closed. *)
Lemma turn_closed ms answered :
  turn_open ms answered [] -> exists settled, conversation ms settled /\ answered ≡ₚ settled.
Proof.
  intros (ms0 & settled & m & results & -> & Hc & Hm & Hr & Hn & Hid & Hnd & Hres & Hans & Hp).
  rewrite app_nil_r in Hp. exists (call_ids m). split; [|done].
  eapply conversation_turn; try done. rewrite Hans. by rewrite Hp.
Qed.
Lemma scanned_closed ms st :
  scanned ms st -> tr_pending st = ∅ ->
  exists settled, conversation ms settled /\ tr_settled st = list_to_set settled.
Proof.
  intros (_ & _ & _ & [[_ Hc]|(answered & remaining & _ & Hne & Hp & _)]) He; [done|].
  rewrite He in Hp. destruct remaining as [|id remaining]; [done|]. set_solver.
Qed.

(** A result settles one call of the open turn. *)
Lemma turn_result ms m id answered remaining :
  turn_open ms answered remaining -> content_ok m -> mm_role m = MR_Tool ->
  mm_tool_call_id m = Some id -> id ∈ remaining ->
  exists rest, remaining ≡ₚ id :: rest /\ NoDup (id :: rest) /\ turn_open (ms ++ [m]) (answered ++ [id]) rest.
Proof.
  intros (ms0 & settled & a & results & -> & Hc & Hm & Hr & Hn & Hid & Hnd & Hres & Hans & Hp) Hcm Hrole Hi Hin.
  apply elem_of_Permutation in Hin as [rest Hrest]. exists rest.
  assert (NoDup remaining) as Hndr.
  { apply NoDup_app in Hnd as (_ & _ & Hnd). rewrite <- Hp in Hnd. by apply NoDup_app in Hnd as (_ & _ & ?). }
  rewrite Hrest in Hndr. split; [done|]. split; [done|].
  exists ms0, settled, a, (results ++ [m])%list. rewrite <- app_assoc. split_and!; try done.
  - apply Forall_app. split; [done|]. by apply Forall_singleton.
  - rewrite !fmap_app, Hans. cbn. by rewrite Hi.
  - rewrite <- Hp, Hrest, <- app_assoc. done.
Qed.

Lemma scan_tool ms st i m st' :
  scanned ms st -> content_ok m -> mm_role m = MR_Tool -> transcript_step st (i, m) = Ok st' ->
  scanned (ms ++ [m]) st'.
Proof.
  destruct st as [pending seen settled obs]. intros (Hs & Hnd & Ho & Hcase) Hcm Hrole Hstep.
  unfold transcript_step in Hstep. rewrite Hcm, Hrole in Hstep. cbn [map_err mbind result_bind] in Hstep.
  destruct (mm_tool_call_id m) as [id|] eqn:Hid; [|done]. cbn [ok_or mbind result_bind] in Hstep.
  apply bind_Ok in Hstep as ([] & Hin%reject_Ok & [= <-]).
  apply negb_false_iff, bool_decide_eq_true in Hin. cbn [tr_seen tr_observed tr_pending tr_settled] in *.
  assert (requested (ms ++ [m]) = requested ms) as Hq.
  { rewrite requested_app, requested_one, Hrole, app_nil_r. done. }
  assert (observed (ms ++ [m]) = observed ms) as Hob.
  { rewrite observed_app. unfold observed at 2. cbn [omap list_omap]. rewrite Hrole, app_nil_r. done. }
  unfold scanned. cbn [tr_seen tr_observed tr_pending tr_settled]. rewrite Hq, Hob. split_and!; try done.
  destruct Hcase as [[-> _]|(answered & remaining & Hopen & Hne & Hp & Hset)]; [set_solver|].
  rewrite Hp, elem_of_list_to_set in Hin.
  destruct (turn_result _ _ _ _ _ Hopen Hcm Hrole Hid Hin) as (rest & Hrest & Hndr & Hopen').
  assert (pending ∖ {[id]} = list_to_set rest) as Hpr.
  { rewrite Hp, Hrest. apply NoDup_cons in Hndr as [Hni _]. cbn. set_solver. }
  assert ({[id]} ∪ settled = list_to_set (answered ++ [id])) as Hsr.
  { rewrite Hset, list_to_set_app_L. cbn. set_solver. }
  destruct rest as [|id' rest].
  - left. split; [done|]. destruct (turn_closed _ _ Hopen') as (s' & Hc & Hperm). exists s'.
    split; [done|]. by rewrite Hsr, Hperm.
  - right. by exists (answered ++ [id])%list, (id' :: rest).
Qed.

Lemma scan_assistant ms st i m st' :
  scanned ms st -> content_ok m -> mm_role m = MR_Assistant -> transcript_step st (i, m) = Ok st' ->
  scanned (ms ++ [m]) st'.
Proof.
  destruct st as [pending seen settled obs]. intros Hscan Hcm Hrole Hstep.
  unfold transcript_step in Hstep. rewrite Hcm, Hrole in Hstep. cbn [map_err mbind result_bind] in Hstep.
  apply bind_Ok in Hstep as ([] & Hun%reject_Ok & Hstep).
  apply negb_false_iff, bool_decide_eq_true in Hun.
  destruct (scanned_closed _ _ Hscan Hun) as (s0 & Hc & _).
  destruct Hscan as (Hs & Hnd & Ho & _). cbn [tr_seen tr_observed] in *. subst pending seen obs.
  apply bind_Ok in Hstep as ([] & Hn%reject_Ok & Hstep). apply N.ltb_ge in Hn.
  apply bind_Ok in Hstep as ([p s] & Hcalls & [= <-]).
  apply assistant_calls_iff in Hcalls as (Hf & Hndc & Hnew & -> & ->). fold (call_ids m) in *.
  assert (NoDup (requested ms ++ call_ids m)) as Hnd'.
  { apply NoDup_app. split_and!; try done. intros id H1 H2. apply (Hnew id H2). by apply elem_of_list_to_set. }
  assert (count (call_ids m) = count (mm_tool_calls m)) as Hcount by (unfold count, call_ids; by rewrite length_fmap).
  assert (turn_open (ms ++ [m]) [] (call_ids m)) as Hopen.
  { exists ms, s0, m, []. split_and!; try done. by rewrite Hcount. }
  unfold scanned. cbn [tr_seen tr_observed tr_pending tr_settled].
  rewrite requested_app, requested_one, Hrole, observed_app. unfold observed at 3. cbn [omap list_omap].
  rewrite Hrole. rewrite bool_decide_true by done. rewrite bool_decide_false by done.
  rewrite app_nil_r, list_to_set_app_L. split_and!; [set_solver|done|done|].
  destruct (call_ids m) as [|id ids] eqn:Hids.
  - left. split; [set_solver|]. destruct (turn_closed _ _ Hopen) as (s' & Hc' & Hperm%Permutation_nil_l).
    exists s'. split; [done|]. by rewrite <- Hperm.
  - right. exists [], (id :: ids). split_and!; try done. set_solver.
Qed.

Lemma scan_other ms st i m st' :
  scanned ms st -> content_ok m -> mm_role m <> MR_Tool -> mm_role m <> MR_Assistant ->
  transcript_step st (i, m) = Ok st' -> scanned (ms ++ [m]) st'.
Proof.
  destruct st as [pending seen settled obs]. intros Hscan Hcm Hnt Hna Hstep.
  unfold transcript_step in Hstep. rewrite Hcm in Hstep. cbn [map_err mbind result_bind] in Hstep.
  assert (pending = ∅) as Hun.
  { destruct (mm_role m); try done; apply bind_Ok in Hstep as ([] & Hun%reject_Ok & _);
      by apply negb_false_iff, bool_decide_eq_true in Hun. }
  destruct (scanned_closed _ _ Hscan Hun) as (s0 & Hc & Hs0).
  destruct Hscan as (Hs & Hnd & Ho & _). cbn [tr_seen tr_observed tr_settled] in *. subst pending.
  rewrite bool_decide_true in Hstep by done. cbn [negb reject mbind result_bind] in Hstep.
  unfold scanned. rewrite requested_app, requested_one, observed_app, (bool_decide_false _ Hna), app_nil_r.
  unfold observed at 2. cbn [omap list_omap].
  destruct (mm_role m) eqn:Hrole; try done.
  - injection Hstep as <-. cbn. rewrite app_nil_r. split_and!; try done.
    left. split; [done|]. exists s0. split; [|done]. by apply conversation_system.
  - injection Hstep as <-. cbn. rewrite app_nil_r. split_and!; try done.
    left. split; [done|]. exists []. split; [|done]. by eapply conversation_user.
  - destruct (mm_tool_call_id m) as [id|] eqn:Hid; [|done]. cbn [ok_or mbind result_bind] in Hstep.
    apply bind_Ok in Hstep as ([] & Hchecks%reject_Ok & [= <-]).
    apply orb_false_iff in Hchecks as [Hchecks Himg%negb_false_iff%Nat.eqb_eq].
    apply orb_false_iff in Hchecks as [Hchecks Horigin].
    apply orb_false_iff in Hchecks as [Hchecks Hcalls%negb_false_iff%bool_decide_eq_true].
    apply orb_false_iff in Hchecks as [Hset%negb_false_iff%bool_decide_eq_true Hobs%bool_decide_eq_false].
    cbn. split_and!; [done|done|rewrite list_to_set_app_L, Ho; cbn; set_solver|].
    left. split; [done|]. exists s0. split; [|done].
    rewrite Hs0 in Hset. rewrite Ho in Hobs. rewrite elem_of_list_to_set in Hset, Hobs.
    eapply conversation_observation; try done. by destruct (mm_agent_message_origin m).
Qed.

Lemma step_content st i m st' : transcript_step st (i, m) = Ok st' -> content_ok m.
Proof.
  destruct st. unfold transcript_step. intros Hs. apply bind_Ok in Hs as ([] & Hc & _).
  by apply map_err_Ok in Hc.
Qed.
Lemma scan_scanned ms st : scan ms = Ok st -> scanned ms st.
Proof.
  revert st. induction ms as [|m ms IH] using rev_ind; intros st.
  { intros [= <-]. split_and!; try done; [constructor|]. left. split; [done|]. exists []. split; [constructor|done]. }
  rewrite scan_snoc. intros Hs. apply bind_Ok in Hs as (st0 & Hst & Hstep). apply IH in Hst.
  pose proof (step_content _ _ _ _ Hstep) as Hcm.
  destruct (decide (mm_role m = MR_Tool)); [by eapply scan_tool|].
  destruct (decide (mm_role m = MR_Assistant)); [by eapply scan_assistant|]. by eapply scan_other.
Qed.

(** ** Conversations are accepted *)

Lemma results_scan results p s t o ids :
  Forall (fun r => mm_role r.2 = MR_Tool /\ content_ok r.2) results ->
  mm_tool_call_id <$> results.*2 ≡ₚ Some <$> ids -> NoDup ids -> p = list_to_set ids ->
  try_fold transcript_step results (mkTranscriptState p s t o)
  = Ok (mkTranscriptState ∅ s (list_to_set ids ∪ t) o).
Proof.
  intros Hf. revert p t ids. induction Hf as [|[i r] results [Hrole Hc] _ IH]; intros p t ids Hids Hnd ->.
  { cbn in Hids. apply Permutation_nil_l in Hids. destruct ids; [|done]. cbn. do 2 f_equal. set_solver. }
  rewrite !fmap_cons in Hids. cbn [fst snd] in Hids, Hrole, Hc.
  assert (mm_tool_call_id r ∈ Some <$> ids) as Hin by (rewrite <- Hids; left).
  apply list_elem_of_fmap in Hin as (id & Hid & Hin).
  pose proof (elem_of_Permutation ids id) as [Hrest _]. destruct (Hrest Hin) as [rest Hperm].
  rewrite Hperm, fmap_cons, Hid in Hids. apply Permutation_cons_inv in Hids.
  rewrite Hperm in Hnd. apply NoDup_cons in Hnd as [Hni Hnd].
  cbn [try_fold]. unfold transcript_step at 2. rewrite Hc, Hrole, Hid. cbn [map_err mbind result_bind ok_or].
  rewrite bool_decide_true by (by apply elem_of_list_to_set). cbn [negb reject mbind result_bind].
  rewrite (IH _ _ rest Hids Hnd).
  - do 2 f_equal. rewrite Hperm. cbn. set_solver.
  - rewrite Hperm. cbn. assert (id ∉@{gset string} list_to_set rest) by (by rewrite elem_of_list_to_set).
    set_solver.
Qed.

Lemma turn_step i m s o ids :
  content_ok m -> mm_role m = MR_Assistant ->
  (count (call_ids m) <= MAX_MODEL_TOOL_CALLS_PER_TURN)%N -> Forall call_id_ok (call_ids m) ->
  NoDup (ids ++ call_ids m) ->
  transcript_step (mkTranscriptState ∅ (list_to_set ids) s o) (i, m)
  = Ok (mkTranscriptState (list_to_set (call_ids m)) (list_to_set (call_ids m) ∪ list_to_set ids) ∅ o).
Proof.
  intros Hc Hr Hn Hid (_ & Hdis & Hnd)%NoDup_app. unfold transcript_step. rewrite Hc, Hr.
  cbn [map_err mbind result_bind]. rewrite bool_decide_true by done. cbn [negb reject mbind result_bind].
  assert (count (mm_tool_calls m) <= MAX_MODEL_TOOL_CALLS_PER_TURN)%N as Hn'.
  { unfold count, call_ids in *. by rewrite length_fmap in Hn. }
  unfold validate_model_tool_call_count. rewrite (proj2 (N.ltb_ge _ _) Hn'). cbn [reject mbind result_bind].
  assert (forall id, id ∈ call_ids m -> id ∉@{gset string} list_to_set ids) as Hnew.
  { intros id Hin Hs%elem_of_list_to_set. by apply (Hdis id). }
  rewrite (proj2 (assistant_calls_iff _ _ _ _ _ _)
    (conj Hid (conj Hnd (conj Hnew (conj eq_refl eq_refl))))).
  cbn [mbind result_bind]. do 2 f_equal. fold (call_ids m). set_solver.
Qed.
Lemma turn_observed m results : mm_role m = MR_Assistant ->
  Forall (fun r => mm_role r = MR_Tool /\ content_ok r) results -> observed (m :: results) = [].
Proof.
  intros Hr Hres. unfold observed. cbn [omap list_omap]. rewrite Hr. cbn.
  induction Hres as [|r results [Hrr _] _ IH]; [done|]. cbn [omap list_omap]. by rewrite Hrr.
Qed.
Lemma turn_requested m results : mm_role m = MR_Assistant ->
  Forall (fun r => mm_role r = MR_Tool /\ content_ok r) results -> requested (m :: results) = call_ids m.
Proof.
  intros Hr Hres. unfold requested. cbn [mbind list_bind]. rewrite Hr. cbn.
  rewrite <- (app_nil_r (call_ids m)) at 2. f_equal.
  induction Hres as [|r results [Hrr _] _ IH]; [done|]. cbn [mbind list_bind]. by rewrite Hrr.
Qed.

Lemma conversation_scan ms settled :
  conversation ms settled ->
  scan ms = Ok (mkTranscriptState ∅ (list_to_set (requested ms)) (list_to_set settled)
                  (list_to_set (observed ms))).
Proof.
  induction 1 as [|ms s m _ IH Hc Hr|ms s m _ IH Hc Hr|ms s m results _ IH Hc Hr Hn Hid Hnd Hres Hans
    |ms s m id _ IH Hc Hr Hid Hin Hno Hcalls Horigin Himg].
  - done.
  - rewrite scan_snoc, IH, requested_app, requested_one, observed_app. cbn [mbind result_bind].
    unfold transcript_step, observed at 4. rewrite Hc, Hr. cbn. by rewrite !Hr, !app_nil_r.
  - rewrite scan_snoc, IH, requested_app, requested_one, observed_app. cbn [mbind result_bind].
    unfold transcript_step, observed at 4. rewrite Hc, Hr. cbn. by rewrite !Hr, !app_nil_r.
  - change (m :: results) with ([m] ++ results)%list. rewrite app_assoc. unfold scan.
    destruct (enumerate_app (ms ++ [m]) results) as (il & -> & Hil). rewrite try_fold_app.
    fold (scan (ms ++ [m])). rewrite scan_snoc, IH. cbn [mbind result_bind].
    rewrite (turn_step _ _ _ _ (requested ms)) by done. cbn [mbind result_bind].
    rewrite <- app_assoc. change ([m] ++ results)%list with (m :: results).
    rewrite requested_app, observed_app, (turn_observed m results Hr Hres), app_nil_r.
    rewrite (turn_requested m results Hr Hres).
    apply NoDup_app in Hnd as (_ & _ & Hnd).
    rewrite (results_scan il _ _ _ _ (call_ids m)); [|by rewrite <- Hil, Forall_fmap in Hres|by rewrite Hil|done|set_solver].
    do 2 f_equal; [rewrite list_to_set_app_L; set_solver|set_solver].
  - rewrite scan_snoc, IH, requested_app, requested_one, observed_app. cbn [mbind result_bind].
    unfold transcript_step. rewrite Hc, Hr, Hid. cbn [map_err mbind result_bind ok_or].
    rewrite (bool_decide_true (id ∈ list_to_set s)) by (by apply elem_of_list_to_set).
    rewrite (bool_decide_false (id ∈ list_to_set (observed ms))) by (by rewrite elem_of_list_to_set).
    rewrite Hcalls, Horigin, Himg, !bool_decide_true by done. cbn [negb orb is_some reject mbind result_bind Nat.eqb].
    assert (observed [m] = [id]) as -> by (unfold observed; cbn [omap list_omap]; by rewrite Hr, Hid).
    rewrite bool_decide_false by done. rewrite app_nil_r, list_to_set_app_L, (union_comm_L {[id]}). cbn.
    by rewrite (right_id_L ∅ _).
Qed.

Lemma transcript_valid ms :
  validate_model_transcript ms = Ok tt <-> exists settled, conversation ms settled.
Proof.
  unfold validate_model_transcript. fold (scan ms). split.
  - intros Hv. apply bind_Ok in Hv as (st & Hs & Hp%reject_Ok).
    apply negb_false_iff, bool_decide_eq_true in Hp.
    destruct (scanned_closed _ _ (scan_scanned _ _ Hs) Hp) as (settled & Hc & _). by exists settled.
  - intros (settled & Hc). by rewrite (conversation_scan _ _ Hc).
Qed.

(** A transcript that opens with an assistant message opens with its whole turn. *)
Lemma opening_turn ms settled m rest :
  conversation ms settled -> ms = m :: rest -> mm_role m = MR_Assistant ->
  exists results rest', rest = (results ++ rest')%list /\
    Forall (fun r => mm_role r = MR_Tool) results /\ mm_tool_call_id <$> results ≡ₚ Some <$> call_ids m.
Proof.
  intros Hc. revert rest. induction Hc as [|ms s m' _ IH Hc Hr|ms s m' _ IH Hc Hr
    |ms s m' results' _ IH Hc Hr Hn Hid Hnd Hres Hans|ms s m' id _ IH Hc Hr Hid Hin Hno Hcalls Horigin Himg];
    intros rest He Hm; [done| | | |].
  3:{ destruct ms as [|m0 ms]; injection He as -> <-.
      - exists results', []. rewrite app_nil_r. split_and!; try done.
        eapply Forall_impl; [exact Hres|]. by intros r [? _].
      - destruct (IH ms eq_refl Hm) as (results & rest' & -> & Hf & Hp).
        exists results, (rest' ++ m' :: results')%list. by rewrite app_assoc. }
  all: destruct ms as [|m0 ms]; injection He as -> <-; [by rewrite Hm in Hr|];
    destruct (IH ms eq_refl Hm) as (results & rest' & -> & Hf & Hp);
    exists results, (rest' ++ [m'])%list; by rewrite app_assoc.
Qed.

(** C31. [validate_model_transcript] accepts exactly the
    conversations: sequences of system and user messages, of assistant turns - an assistant
    message with at most 128 calls, each id printable, within 128 bytes and never used
    before, followed at once by one result for each call in some order - and of image
    observations of a call the last turn settled, one per call in the whole transcript,
    every message's content valid. *)
Theorem transcripts_are_conversations ms :
  validate_model_transcript ms = Ok tt <-> exists settled, conversation ms settled.
Proof. apply transcript_valid. Qed.
