(* ===== verification/ProjectionStore.v ===== *)
(** * Projection rows of the redb journal

    [crates/colossus-journal-redb/src/journal/projections.rs]: the [ProjectionStore] port
    over the [projection_positions] and [projection_records] tables.  A batch is encoded
    before the transaction starts, and all batches of one call commit together. *)

From S2P Require Import Prelude Json Contracts Boundary Platform JournalStore Journal JournalVerify.

Open Scope string_scope.

Section ProjectionStore.
Context `{Externals} `{JournalCodec}.

Record EncodedProjectionBatch := mkEncodedProjectionBatch {
  eb_projection : string;
  eb_expected_position : N;
  eb_through_sequence : N;
  eb_mutations : list (string * option string);
}.

Definition encode_mutation (projection : string) (m : ProjectionMutation)
    : result StoreError (string * option string) :=
  match m with
  | Upsert key v =>
      row ← projection_record_key projection key;
      bytes ← adapter_error (to_vec_value v);
      Ok (row, Some bytes)
  | Delete key => row ← projection_record_key projection key; Ok (row, None)
  end.

Definition encode_projection_batch (b : ProjectionBatch)
    : result StoreError EncodedProjectionBatch :=
  projection_prefix (pb_projection b) ;;
  reject (pb_through_sequence b <=? pb_expected_position b)%N
    (StoreAdapter "projection position must advance") ;;
  mutations ← try_map (encode_mutation (pb_projection b)) (pb_mutations b);
  Ok (mkEncodedProjectionBatch (pb_projection b) (pb_expected_position b)
        (pb_through_sequence b) mutations).

Definition set_rows (positions : gmap string N) (records : gmap string string) (t : Tables)
    : Tables :=
  mkTables (t_events t) (t_stream_events t) (t_stream_versions t) (t_metadata t) (t_outbox t)
    positions records.

Definition position (t : Tables) (projection : string) : result StoreError N :=
  projection_prefix projection ;;
  Ok (default 0%N (t_positions t !! projection)).

Definition get_record (t : Tables) (projection key : string) : result StoreError (option value) :=
  row ← projection_record_key projection key;
  transpose ((fun bytes => adapter_error (value_from_slice bytes)) <$> t_records t !! row).

(** The loop of [list_after] over the rows from the seek position on. *)
Fixpoint list_rows (namespace key_prefix : string) (rows : list (string * string))
    : result StoreError (list (string * value)) :=
  match rows with
  | [] => Ok []
  | (stored, bytes) :: rows' =>
      match strip_prefix namespace stored with
      | None => Ok []
      | Some key =>
          if negb (starts_with key key_prefix) then Ok []
          else
            v ← adapter_error (value_from_slice bytes);
            l ← list_rows namespace key_prefix rows';
            Ok ((key, v) :: l)
      end
  end.

Definition list_after (t : Tables) (projection key_prefix : string) (after_key : option string)
    (limit : N) : result StoreError (list (string * value)) :=
  namespace ← projection_prefix projection;
  reject (has_nul key_prefix || is_some_and after_key has_nul)
    (StoreAdapter "projection key cursors may not contain NUL") ;;
  if (limit =? 0)%N then Ok []
  else
    let '(start, exclusive) :=
      match after_key with
      | Some cursor => if str_leb key_prefix cursor then (namespace ++s cursor, true)
                       else (namespace ++s key_prefix, false)
      | None => (namespace ++s key_prefix, false)
      end in
    let above kv := if exclusive : bool then str_ltb start (kv : string * string).1
                    else str_leb start kv.1 in
    list_rows namespace key_prefix
      (take (N.to_nat limit) (List.filter above (sorted_entries (t_records t)))).
Definition list_records (t : Tables) (projection key_prefix : string) (limit : N)
    : result StoreError (list (string * value)) :=
  list_after t projection key_prefix None limit.

(** The rows of one encoded batch. *)
Definition write_row (records : gmap string string) (m : string * option string)
    : gmap string string :=
  match m.2 with Some bytes => <[m.1 := bytes]> records | None => delete m.1 records end.
Definition apply_encoded (t : Tables) (b : EncodedProjectionBatch) : result StoreError Tables :=
  let actual := default 0%N (t_positions t !! eb_projection b) in
  reject (negb (actual =? eb_expected_position b)%N)
    (Conflict ("projection:" ++s eb_projection b) (eb_expected_position b) actual) ;;
  Ok (set_rows (<[eb_projection b := eb_through_sequence b]> (t_positions t))
        (foldl write_row (t_records t) (eb_mutations b)) t).

(** [apply_all] and [apply]: the committed tables, or the error that left them alone. *)
Definition apply_all (batches : list ProjectionBatch) (t : Tables) : result StoreError Tables :=
  encoded ← try_map encode_projection_batch batches;
  try_fold apply_encoded encoded t.
Definition apply (batch : ProjectionBatch) (t : Tables) : result StoreError Tables :=
  apply_all [batch] t.

(** The loop of [reset]: the keys below the namespace. *)
Fixpoint namespace_keys (namespace : string) (rows : list (string * string)) : list string :=
  match rows with
  | [] => []
  | (key, _) :: rows' =>
      if starts_with key namespace then key :: namespace_keys namespace rows' else []
  end.
Definition reset (projection : string) (t : Tables) : result StoreError Tables :=
  namespace ← projection_prefix projection;
  let keys := namespace_keys namespace
    (List.filter (fun kv => str_leb namespace kv.1) (sorted_entries (t_records t))) in
  Ok (set_rows (delete projection (t_positions t)) (foldl (fun m k => delete k m) (t_records t) keys)
        t).

End ProjectionStore.
