(* ===== verification/ExternalWork.v ===== *)
(** * The external-work queue

    [crates/colossus-projection/src/external_work.rs]: durable checkpoints of consumers
    outside the process over the journal's outbox, and their retry state, both kept as
    projections.  An operation is a function of the state [S] of the two ports it is
    composed from ([Arc<dyn EventJournal>], [Arc<dyn ProjectionStore>]), which the class
    [WorkPorts] names; the redb journal implements both.  The clock's text format ([time])
    and the serde form of the retry state are the class [RetryCodec]. *)

From S2P Require Import Prelude Json Contracts Boundary Platform JournalStore Journal.
From S2P Require Import Store ProjectionStore.

Open Scope string_scope.
Open Scope op_scope.

Definition EXTERNAL_WORK_PREFIX : string := "external-work:".
Definition EXTERNAL_WORK_RETRY_PREFIX : string := "external-work-retry:".
Definition EXTERNAL_WORK_RETRY_KEY : string := "state".
Definition MAX_EXTERNAL_WORK_BATCH : N := 4096.
Definition MAX_RETRY_STATE_ATTEMPTS : nat := 8.
Definition MAX_RETRY_ERROR_BYTES : N := 2048.
Definition MAX_RETRY_BACKOFF_SECONDS : Z := 300.

(** [ExternalWorkRetryState] ([colossus-contracts/src/journal.rs]). *)
Record ExternalWorkRetryState := mkExternalWorkRetryState {
  rs_consumer : string;
  rs_global_sequence : N;
  rs_event_id : option string;
  rs_attempts : N;
  rs_retryable : bool;
  rs_first_failed_at : string;
  rs_last_failed_at : string;
  rs_next_retry_at : option string;
  rs_error_code : string;
  rs_error : string;
}.

(** [time::OffsetDateTime]: the instant in nanoseconds, and whether the offset is UTC. *)
Record Timestamp := mkTimestamp { ts_instant : Z; ts_utc : bool }.

Class RetryCodec := {
  parse_rfc3339 : string -> option Timestamp;
  format_rfc3339 : Timestamp -> result string string;
  retry_to_value : ExternalWorkRetryState -> result string value;
  retry_from_value : value -> result string ExternalWorkRetryState;
}.

(** The two ports. *)
Class WorkPorts (S : Type) := {
  wp_read_projection_work : N -> N -> S -> result StoreError (list ProjectionWorkItem) * S;
  wp_position : string -> S -> result StoreError N * S;
  wp_get : string -> string -> S -> result StoreError (option value) * S;
  wp_apply : ProjectionBatch -> S -> result StoreError unit * S;
  wp_reset : string -> S -> result StoreError unit * S;
}.

(** ** Names, timestamps and backoff *)

Definition code_byte (c : ascii) : bool :=
  is_ascii_alphanumeric c || ascii_eqb c "." || ascii_eqb c "_" || ascii_eqb c "-".
Definition invalid_code (s : string) : bool :=
  is_empty s || (128 <? slen s)%N || negb (all_bytes code_byte s).

Definition external_work_projection (consumer : string) : result StoreError string :=
  reject (invalid_code consumer)
    (StoreAdapter "external-work consumer must be 1-128 ASCII letters, digits, '.', '_', or '-'") ;;
  Ok (EXTERNAL_WORK_PREFIX ++s consumer).
Definition external_work_retry_projection (consumer : string) : result StoreError string :=
  external_work_projection consumer ;;
  Ok (EXTERNAL_WORK_RETRY_PREFIX ++s consumer).

Definition retry_backoff (attempts : N) : Z :=
  let exponent := N.min (saturating_sub attempts 1) 9 in
  Z.min (if (exponent <? 64)%N then Z.shiftl 1 (Z.of_N exponent) else MAX_RETRY_BACKOFF_SECONDS)
    MAX_RETRY_BACKOFF_SECONDS.
Definition add_seconds (t : Timestamp) (seconds : Z) : Timestamp :=
  mkTimestamp (ts_instant t + seconds * 1000000000) (ts_utc t).

Section Queue.
Context `{RetryCodec} {S : Type} `{WorkPorts S}.

Definition retry_state_from_value (v : value) : result StoreError ExternalWorkRetryState :=
  map_err (fun e => Verification ("external-work retry state is invalid: " ++s e))
    (retry_from_value v).
Definition retry_timestamp (s : string) : result StoreError Timestamp :=
  t ← ok_or (parse_rfc3339 s) (StoreAdapter "external-work failure timestamp must be UTC RFC3339");
  reject (negb (ts_utc t)) (StoreAdapter "external-work failure timestamp must be UTC RFC3339") ;;
  Ok t.

(** ** Checkpoints *)

Definition verify_item (item : ProjectionWorkItem) : op S unit :=
  durable <~ wp_read_projection_work (pw_global_sequence item) 1;;
  op_lift (
    durable ← ok_or (head durable) (Verification ("external-work outbox sequence "
      ++s pretty (pw_global_sequence item) ++s " is missing"));
    reject (negb (bool_decide (durable = item))) (Verification ("external-work outbox sequence "
      ++s pretty (pw_global_sequence item) ++s " does not match its durable item"))).

Definition queue_position (consumer : string) : op S N :=
  projection <~ op_lift (external_work_projection consumer);; wp_position projection.

Definition pending_item (consumer : string) (expected : N) (item : ProjectionWorkItem) : op S N :=
  _ <~ op_lift (reject (negb (pw_global_sequence item =? expected)%N)
         (Verification ("external-work consumer " ++s consumer ++s " expected sequence "
            ++s pretty expected ++s ", got " ++s pretty (pw_global_sequence item))));;
  _ <~ verify_item item;;
  op_ret (saturating_add expected 1).

Definition pending (consumer : string) (limit : N) : op S (list ProjectionWorkItem) :=
  _ <~ op_lift (reject ((limit =? 0)%N || (MAX_EXTERNAL_WORK_BATCH <? limit)%N)
         (StoreAdapter ("external-work batch limit must be between 1 and "
            ++s pretty MAX_EXTERNAL_WORK_BATCH)));;
  position <~ queue_position consumer;;
  work <~ wp_read_projection_work (saturating_add position 1) limit;;
  _ <~ op_fold (pending_item consumer) work (saturating_add position 1);;
  op_ret work.

Definition acknowledged_item (next : N) (item : ProjectionWorkItem) : op S N :=
  _ <~ op_lift (reject (negb (pw_global_sequence item =? next)%N)
         (StoreAdapter ("external-work acknowledgment expected sequence " ++s pretty next
            ++s ", got " ++s pretty (pw_global_sequence item))));;
  _ <~ verify_item item;;
  op_ret (saturating_add next 1).

Definition acknowledge_batch (consumer : string) (expected_position : N)
    (items : list ProjectionWorkItem) : op S N :=
  _ <~ op_lift (reject (bool_decide (length items = 0) || (MAX_EXTERNAL_WORK_BATCH <? count items)%N)
         (StoreAdapter ("external-work acknowledgment batch must contain 1-"
            ++s pretty MAX_EXTERNAL_WORK_BATCH ++s " items")));;
  projection <~ op_lift (external_work_projection consumer);;
  _ <~ op_fold acknowledged_item items (saturating_add expected_position 1);;
  through_sequence <~ op_lift (ok_or (pw_global_sequence <$> last items)
    (StoreAdapter "external-work batch is empty"));;
  _ <~ wp_apply (mkProjectionBatch projection expected_position through_sequence []);;
  op_ret through_sequence.

Definition reset_consumer (consumer : string) : op S unit :=
  projection <~ op_lift (external_work_projection consumer);;
  _ <~ wp_reset projection;;
  retry <~ op_lift (external_work_retry_projection consumer);;
  wp_reset retry.

(** ** Retry state *)

(** The timestamps of a stored state, and their order. *)
Definition timestamps_valid (st : ExternalWorkRetryState) : bool :=
  let next := match rs_next_retry_at st with
              | None => Some None
              | Some text => Some <$> parse_rfc3339 text
              end in
  match parse_rfc3339 (rs_first_failed_at st), parse_rfc3339 (rs_last_failed_at st), next with
  | Some first, Some last, Some next =>
      ts_utc first && ts_utc last && is_none_or next ts_utc && (ts_instant first <=? ts_instant last)%Z
  | _, _, _ => false
  end.
Definition retry_state_invalid (consumer : string) (st : ExternalWorkRetryState) : bool :=
  negb (String.eqb (rs_consumer st) consumer)
  || (rs_global_sequence st =? 0)%N
  || (rs_attempts st =? 0)%N
  || is_some_and (rs_event_id st) is_empty
  || negb (Bool.eqb (rs_retryable st) (is_some (rs_next_retry_at st)))
  || invalid_code (rs_error_code st)
  || is_empty (rs_error st) || (MAX_RETRY_ERROR_BYTES <? slen (rs_error st))%N
  || negb (timestamps_valid st).

Definition retry_state (consumer : string) : op S (option ExternalWorkRetryState) :=
  position <~ queue_position consumer;;
  projection <~ op_lift (external_work_retry_projection consumer);;
  stored <~ wp_get projection EXTERNAL_WORK_RETRY_KEY;;
  match stored with
  | None => op_ret None
  | Some v =>
      state <~ op_lift (retry_state_from_value v);;
      _ <~ op_lift (reject (retry_state_invalid consumer state)
             (Verification "external-work retry state failed semantic validation"));;
      op_ret (if (position <? rs_global_sequence state)%N then Some state else None)
  end.

(** The state one failure leaves behind. *)
Definition failed_state (consumer : string) (global_sequence : N) (event_id : option string)
    (failed_at : string) (failed_at_value : Timestamp) (retryable : bool)
    (error_code error : string) (existing : option ExternalWorkRetryState)
    : result StoreError ExternalWorkRetryState :=
  let same_work := is_some_and existing (fun st => rs_global_sequence st =? global_sequence)%N in
  let attempts := if same_work
                  then default 1%N ((fun st => N.min u32_max (rs_attempts st + 1)) <$> existing)
                  else 1%N in
  let first_failed_at := if same_work then default failed_at (rs_first_failed_at <$> existing)
                         else failed_at in
  next_retry_at ← (if retryable
    then Some <$> adapter_error (format_rfc3339 (add_seconds failed_at_value (retry_backoff attempts)))
    else Ok None);
  Ok (mkExternalWorkRetryState consumer global_sequence event_id attempts retryable
        first_failed_at failed_at next_retry_at error_code error).

(** The optimistic loop around one write of the retry projection. *)
Fixpoint contended {A} (attempts : nat) (body : op S (option A)) : op S A :=
  match attempts with
  | O => op_lift (Err (StoreAdapter "external-work retry state remained contended"))
  | Datatypes.S n => r <~ body;; match r with Some a => op_ret a | None => contended n body end
  end.
(** [Ok(()) => return Ok(a)], [Err(Conflict) => continue], [Err(e) => return Err(e)]. *)
Definition applied {A} (batch : ProjectionBatch) (a : A) : op S (option A) := fun s =>
  let '(r, s') := wp_apply batch s in
  match r with
  | Ok _ => (Ok (Some a), s')
  | Err (Conflict _ _ _) => (Ok None, s')
  | Err e => (Err e, s')
  end.

Definition record_failure (consumer : string) (item : option ProjectionWorkItem)
    (failed_at : string) (retryable : bool) (error_code error : string)
    : op S ExternalWorkRetryState :=
  failed_at_value <~ op_lift (retry_timestamp failed_at);;
  _ <~ op_lift (reject (invalid_code error_code || is_empty error
                        || (MAX_RETRY_ERROR_BYTES <? slen error)%N)
         (StoreAdapter "external-work failure code or redacted diagnostic is invalid"));;
  work_position <~ queue_position consumer;;
  _ <~ match item with
       | Some item =>
           _ <~ op_lift (reject (negb (pw_global_sequence item =? saturating_add work_position 1)%N)
                  (StoreAdapter "external-work failure must refer to the next pending item"));;
           verify_item item
       | None => op_ret tt
       end;;
  let global_sequence := default (saturating_add work_position 1) (pw_global_sequence <$> item) in
  _ <~ op_lift (reject (global_sequence <=? work_position)%N
         (StoreAdapter "external-work failure must refer to pending work"));;
  projection <~ op_lift (external_work_retry_projection consumer);;
  contended MAX_RETRY_STATE_ATTEMPTS (
    retry_position <~ wp_position projection;;
    stored <~ wp_get projection EXTERNAL_WORK_RETRY_KEY;;
    existing <~ op_lift (transpose (retry_state_from_value <$> stored));;
    state <~ op_lift (failed_state consumer global_sequence (pw_event_id <$> item) failed_at
               failed_at_value retryable error_code error existing);;
    v <~ op_lift (adapter_error (retry_to_value state));;
    applied (mkProjectionBatch projection retry_position (saturating_add retry_position 1)
               [Upsert EXTERNAL_WORK_RETRY_KEY v]) state).

Definition clear_failure (consumer : string) : op S unit :=
  projection <~ op_lift (external_work_retry_projection consumer);;
  contended MAX_RETRY_STATE_ATTEMPTS (
    retry_position <~ wp_position projection;;
    stored <~ wp_get projection EXTERNAL_WORK_RETRY_KEY;;
    match stored with
    | None => op_ret (Some tt)
    | Some _ =>
        applied (mkProjectionBatch projection retry_position (saturating_add retry_position 1)
                   [Delete EXTERNAL_WORK_RETRY_KEY]) tt
    end).

End Queue.

(** ** The redb journal's ports *)

#[export] Instance redb_ports `{Externals} `{JournalCodec} {K Sg} `{KeyProvider K}
    `{CheckpointSigner Sg} : WorkPorts (RedbEventJournal K Sg) := {
  wp_read_projection_work := port_read_projection_work;
  wp_position p j := (position (rj_tables j) p, j);
  wp_get p key j := (get_record (rj_tables j) p key, j);
  wp_apply b j :=
    match apply b (rj_tables j) with
    | Ok t => (Ok tt, set_tables t j)
    | Err e => (Err e, j)
    end;
  wp_reset p j :=
    match reset p (rj_tables j) with
    | Ok t => (Ok tt, set_tables t j)
    | Err e => (Err e, j)
    end;
}.
