(* ===== verification/ProjectionWorker.v ===== *)
(** * The projection worker

    [crates/colossus-projection/src/worker.rs] and [worker/overlay.rs]: replaying the
    journal's outbox through pure reducers.  One round reads a page of events per
    projection, reduces them against an overlay of the store, and commits what every
    projection changed in one [apply_all].  The operation gate (a mutex) serialises
    rounds, so a round is one function of the journal. *)

From S2P Require Import Prelude Json Contracts Boundary Platform JournalStore Journal.
From S2P Require Import ProjectionStore Store ExternalWork.

Open Scope string_scope.
Open Scope op_scope.

(** ** Readers and the overlay ([overlay.rs]) *)

(** What a reducer may call of a [&dyn ProjectionStore]. *)
Record ProjectionReader := mkProjectionReader {
  rd_position : string -> result StoreError N;
  rd_get : string -> string -> result StoreError (option value);
  rd_list_after : string -> string -> option string -> N ->
    result StoreError (list (string * value));
}.

Definition store_reader `{Externals} `{JournalCodec} (t : Tables) : ProjectionReader :=
  mkProjectionReader (position t) (get_record t) (list_after t).

Record PendingProjection := mkPendingProjection {
  pp_expected_position : N;
  pp_through_sequence : N;
  pp_records : gmap string (option value);
}.
Abbreviation overlay := (gmap string PendingProjection).

Definition stage_mutation (records : gmap string (option value)) (m : ProjectionMutation)
    : gmap string (option value) :=
  match m with
  | Upsert key v => <[key := Some v]> records
  | Delete key => <[key := None]> records
  end.
Definition stage (projection : string) (expected_position through_sequence : N)
    (mutations : list ProjectionMutation) (o : overlay) : overlay :=
  let pending := default (mkPendingProjection expected_position through_sequence ∅)
                   (o !! projection) in
  <[projection := mkPendingProjection (pp_expected_position pending) through_sequence
      (foldl stage_mutation (pp_records pending) mutations)]> o.

Definition pending_mutation (kv : string * option value) : ProjectionMutation :=
  match kv.2 with Some v => Upsert kv.1 v | None => Delete kv.1 end.
Definition take_batch (projection : string) (o : overlay) : option ProjectionBatch * overlay :=
  ((fun p => mkProjectionBatch projection (pp_expected_position p) (pp_through_sequence p)
      (pending_mutation <$> sorted_entries (pp_records p))) <$> o !! projection,
   delete projection o).

Definition in_page (key_prefix : string) (after_key : option string) (key : string) : bool :=
  starts_with key key_prefix && is_none_or after_key (fun cursor => str_ltb cursor key).
(** One staged record over the durable page. *)
Definition overlay_record (key_prefix : string) (after_key : option string)
    (records : gmap string value) (kv : string * option value) : gmap string value :=
  if in_page key_prefix after_key kv.1 then
    match kv.2 with Some v => <[kv.1 := v]> records | None => delete kv.1 records end
  else records.

Definition overlay_list_after (base : ProjectionReader) (o : overlay) (projection key_prefix : string)
    (after_key : option string) (limit : N) : result StoreError (list (string * value)) :=
  match o !! projection with
  | None => rd_list_after base projection key_prefix after_key limit
  | Some pending =>
      if (limit =? 0)%N then rd_list_after base projection key_prefix after_key 0
      else
        let changed := count (List.filter (fun kv : string * option value =>
          in_page key_prefix after_key kv.1) (sorted_entries (pp_records pending))) in
        page ← rd_list_after base projection key_prefix after_key (saturating_add limit changed);
        let records := foldl (overlay_record key_prefix after_key)
          (foldl (fun m kv => <[(kv : string * value).1 := kv.2]> m) ∅ page)
          (sorted_entries (pp_records pending)) in
        Ok (take (N.to_nat limit) (sorted_entries records))
  end.

Definition overlay_reader (base : ProjectionReader) (o : overlay) : ProjectionReader :=
  mkProjectionReader
    (fun projection => match o !! projection with
                       | Some p => Ok (pp_through_sequence p)
                       | None => rd_position base projection
                       end)
    (fun projection key => match o !! projection ≫= (fun p => pp_records p !! key) with
                           | Some v => Ok v
                           | None => rd_get base projection key
                           end)
    (overlay_list_after base o).

(** ** Handlers *)

Record ProjectionHandler := mkProjectionHandler {
  h_name : string;
  h_applies_to : EventEnvelope -> bool;
  h_requires_payload : bool;
  h_project : ProjectionReader -> EventEnvelope -> value ->
    result StoreError (list ProjectionMutation);
}.

(** [ProjectionStatus] ([colossus-contracts/src/journal.rs]). *)
Record ProjectionStatus := mkProjectionStatus {
  st_projection : string;
  st_position : N;
  st_journal_head : N;
  st_lag : N;
  st_ready : bool;
}.
Record ProjectionRunReport := mkProjectionRunReport {
  rr_applied : N;
  rr_projections : list ProjectionStatus;
}.

Section Worker.
Context `{Externals} `{JournalCodec} {K S} `{KeyProvider K} `{CheckpointSigner S}.
Abbreviation J := (RedbEventJournal K S).

(** [ProjectionWorker::new]: handler names must differ. *)
Definition worker_new (handlers : list ProjectionHandler)
    : result StoreError (list ProjectionHandler) :=
  reject (negb (bool_decide (NoDup (h_name <$> handlers))))
    (StoreAdapter "projection handler names must be unique") ;;
  Ok handlers.

(** ** One page *)

Definition outbox_expected (projection : string) (expected : N) (item : ProjectionWorkItem)
    : result StoreError N :=
  reject (negb (pw_global_sequence item =? expected)%N)
    (Verification ("projection " ++s projection ++s " expected outbox sequence "
      ++s pretty expected ++s ", got " ++s pretty (pw_global_sequence item))) ;;
  Ok (saturating_add expected 1).
Definition matched (pair : ProjectionWorkItem * EventEnvelope)
    : result StoreError (ProjectionWorkItem * EventEnvelope) :=
  let '(item, event) := pair in
  reject (negb (ev_global_sequence event =? pw_global_sequence item)%N
          || negb (String.eqb (ev_event_id event) (pw_event_id item)))
    (Verification ("projection outbox sequence " ++s pretty (pw_global_sequence item)
      ++s " does not match its journal event")) ;;
  Ok (item, event).

Definition read_page (projection : string) (from_sequence limit : N)
    : op J (list (ProjectionWorkItem * EventEnvelope)) :=
  work <~ port_read_projection_work from_sequence limit;;
  expected_sequence <~ op_lift (try_fold (outbox_expected projection) work from_sequence);;
  events <~ port_read_global from_sequence (count work);;
  _ <~ op_lift (reject (negb (bool_decide (length events = length work)))
    (Verification ("projection outbox sequence "
      ++s pretty (default expected_sequence (pw_global_sequence <$> work !! length events))
      ++s " has no journal event")));;
  op_lift (try_map matched (zip work events)).

(** ** One round *)

Definition reduce_event (h : ProjectionHandler) (position : N) (o : overlay)
    (event : EventEnvelope) : op J overlay :=
  mutations <~
    (if h_applies_to h event then
       payload <~ (if h_requires_payload h then decrypt_payload event else op_ret Null);;
       fun j => (h_project h (overlay_reader (store_reader (rj_tables j)) o) event payload, j)
     else op_ret []);;
  op_ret (stage (h_name h) position (ev_global_sequence event) mutations o).

Record RoundState := mkRoundState {
  ro_applied : N;
  ro_pending : overlay;
  ro_pages : gmap N (list (ProjectionWorkItem * EventEnvelope));
}.

Definition run_handler (limit_per_projection : N) (s : RoundState) (h : ProjectionHandler)
    : op J RoundState :=
  position <~ (fun j => (position (rj_tables j) (h_name h), j));;
  match checked_add position 1 with
  | None => op_ret s
  | Some from_sequence =>
      page <~ match ro_pages s !! from_sequence with
              | Some page => op_ret page
              | None => read_page (h_name h) from_sequence limit_per_projection
              end;;
      let pages := <[from_sequence := page]> (ro_pages s) in
      match last page with
      | None => op_ret (mkRoundState (ro_applied s) (ro_pending s) pages)
      | Some (_, last_event) =>
          let through_sequence := ev_global_sequence last_event in
          pending <~ op_fold (reduce_event h position) page.*2 (ro_pending s);;
          op_ret (mkRoundState
            (saturating_add (ro_applied s) (saturating_sub through_sequence position)) pending pages)
      end
  end.

(** [filter_map(|handler| pending.take_batch(handler.name()))]. *)
Fixpoint take_batches (handlers : list ProjectionHandler) (o : overlay) : list ProjectionBatch :=
  match handlers with
  | [] => []
  | h :: handlers' =>
      let '(batch, o) := take_batch (h_name h) o in
      match batch with
      | Some b => b :: take_batches handlers' o
      | None => take_batches handlers' o
      end
  end.

Definition commit (batches : list ProjectionBatch) : op J unit := fun j =>
  match apply_all batches (rj_tables j) with
  | Ok t => (Ok tt, set_tables t j)
  | Err e => (Err e, j)
  end.

Definition handler_status (head : N) (h : ProjectionHandler) : op J ProjectionStatus := fun j =>
  (position ← position (rj_tables j) (h_name h);
   Ok (mkProjectionStatus (h_name h) position head (saturating_sub head position)
        (negb (rj_recovery_mode j) && (position =? head)%N)), j).
Definition status (handlers : list ProjectionHandler) : op J (list ProjectionStatus) :=
  head <~ port_head;; op_map (handler_status head.1) handlers.

Definition run_once (limit_per_projection : N) (handlers : list ProjectionHandler)
    : op J ProjectionRunReport :=
  s <~ op_fold (run_handler limit_per_projection) handlers (mkRoundState 0 ∅ ∅);;
  let batches := take_batches handlers (ro_pending s) in
  _ <~ (if bool_decide (length batches = 0) then op_ret tt else commit batches);;
  projections <~ status handlers;;
  op_ret (mkProjectionRunReport (ro_applied s) projections).

(** ** Draining and rebuilding *)

(** The rounds of [drain_inner] and the report after the last one. *)
Fixpoint drain_rounds (rounds : nat) (batch_limit : N) (handlers : list ProjectionHandler)
    (applied : N) : op J ProjectionRunReport :=
  match rounds with
  | O => projections <~ status handlers;; op_ret (mkProjectionRunReport applied projections)
  | Datatypes.S rounds =>
      report <~ run_once batch_limit handlers;;
      let applied := saturating_add applied (rr_applied report) in
      if forallb st_ready (rr_projections report)
      then op_ret (mkProjectionRunReport applied (rr_projections report))
      else if (rr_applied report =? 0)%N
      then projections <~ status handlers;; op_ret (mkProjectionRunReport applied projections)
      else drain_rounds rounds batch_limit handlers applied
  end.
Definition drain (batch_limit max_rounds : N) (handlers : list ProjectionHandler)
    : op J ProjectionRunReport :=
  _ <~ op_lift (reject ((batch_limit =? 0)%N || (max_rounds =? 0)%N)
    (StoreAdapter "projection drain bounds must be greater than zero"));;
  drain_rounds (N.to_nat max_rounds) batch_limit handlers 0.

Definition reset_projection (name : string) : op J unit := fun j =>
  match reset name (rj_tables j) with
  | Ok t => (Ok tt, set_tables t j)
  | Err e => (Err e, j)
  end.
Definition rebuild (name : string) (handlers : list ProjectionHandler)
    : op J ProjectionRunReport :=
  _ <~ op_lift (reject (negb (existsb (fun h => String.eqb (h_name h) name) handlers))
    (NotFound ("projection " ++s name)));;
  _ <~ reset_projection name;;
  drain 256 16384 handlers.
Definition rebuild_all (handlers : list ProjectionHandler) : op J ProjectionRunReport :=
  _ <~ op_fold (fun _ h => reset_projection (h_name h)) handlers tt;;
  drain 256 16384 handlers.

End Worker.
