(* ===== verification/ProjectionHandlers.v ===== *)
(** * The built-in projections

    [crates/colossus-projection/src/handlers.rs] and [repositories.rs]: the reducers of
    sessions, work records, memories, workflow runs and pending effects, and the readers
    over them.  Objects are [serde_json]'s maps (in key order).  [value["key"] = v] on a
    value that is neither an object nor [null] panics: the round is unwound with nothing
    committed, which is modelled as the error [PANIC].  The serde form of [PendingEffect]
    is the class [EffectCodec]. *)

From S2P Require Import Prelude Json Contracts Boundary Platform JournalStore.
From S2P Require Import ProjectionWorker.

Open Scope string_scope.

(** ** [serde_json::Map] *)

Abbreviation fields := (list (string * value)).
(** [Map::insert]. *)
Fixpoint map_insert (k : string) (v : value) (fs : fields) : fields :=
  match fs with
  | [] => [(k, v)]
  | (k', v') :: fs' =>
      if String.eqb k k' then (k, v) :: fs'
      else if str_ltb k k' then (k, v) :: fs
      else (k', v') :: map_insert k v fs'
  end.
(** [Map::extend]. *)
Definition map_extend (fs new : fields) : fields :=
  foldl (fun fs kv => map_insert kv.1 kv.2 fs) fs new.

(** [value[key] = v]: [IndexMut], which panics on anything but an object or [null]; the panic
    is the error [PANIC] here (that it poisons the lock of the worker is not modelled). *)
Definition PANIC : StoreError := StoreAdapter "panic: cannot access key in JSON value".
Definition index_set (k : string) (v current : value) : result StoreError value :=
  match current with
  | Null => Ok (Object [(k, v)])
  | Object fs => Ok (Object (map_insert k v fs))
  | _ => Err PANIC
  end.

Definition upsert (key : string) (v : value) : list ProjectionMutation := [Upsert key v].
Definition object (v : value) : fields := default [] (as_object v).
Definition json_n (n : N) : value := Number (PosInt n).

(** The prefix of [n] characters: [chars().take(n).collect()]. *)
Fixpoint take_chars (n : nat) (l : list ascii) : list ascii :=
  match l with
  | [] => []
  | c :: l' =>
      if is_continuation c then c :: take_chars n l'
      else match n with O => [] | S n => c :: take_chars n l' end
  end.
Definition preview (content : string) : string := of_bytes (take_chars 160 (bytes content)).

(** What every reducer records of the event. *)
Definition set_identity (id : string) (event : EventEnvelope) (fs : fields) : fields :=
  map_insert "updated_at" (Str (ev_occurred_at event))
    (map_insert "last_event_type" (Str (ev_event_type event))
      (map_insert "stream_version" (json_n (ev_stream_version event))
        (map_insert "stream_id" (Str (ev_stream_id event)) (map_insert "id" (Str id) fs)))).

Definition merge_event (store : ProjectionReader) (projection key : string) (event : EventEnvelope)
    (payload : value) : result StoreError value :=
  current ← rd_get store projection key;
  let current := default [] (object <$> current) in
  let current := match as_object payload with
                 | Some fs => map_extend current fs
                 | None => map_insert "payload" payload current
                 end in
  Ok (Object (set_identity key event current)).

(** [payload.get(key).cloned().unwrap_or(Value::Null)]. *)
Definition field_or_null (key : string) (payload : value) : value := default Null (get key payload).

(** ** [SessionProjection] *)

Definition session_fields (event : EventEnvelope) (payload : value) (current : fields) : fields :=
  let type := ev_event_type event in
  if String.eqb type "session.created.v1" then
    map_insert "last_user_preview" Null
      (map_insert "last_run_id" Null
        (map_insert "message_count" (json_n 0)
          (map_insert "created_at" (Str (ev_occurred_at event))
            (map_insert "title" (field_or_null "title" payload) current))))
  else if String.eqb type "session.title.set.v1" then
    map_insert "title" (field_or_null "title" payload) current
  else if String.eqb type "session.message.appended.v1" then
    let message_count :=
      saturating_add (default 0%N (field "message_count" current ≫= as_u64)) 1 in
    let current := map_insert "last_run_id" (field_or_null "run_id" payload)
      (map_insert "message_count" (json_n message_count) current) in
    if bool_decide ((pointer payload "/message/role" ≫= as_str) = Some "user") then
      map_insert "last_user_preview"
        (match pointer payload "/message/content" ≫= as_str with
         | Some content => Str (preview content)
         | None => Null
         end) current
    else current
  else current.

Definition SessionProjection : ProjectionHandler := {|
  h_name := "sessions-v1";
  h_applies_to event := starts_with (ev_stream_id event) "session:";
  h_requires_payload := true;
  h_project store event payload :=
    match strip_prefix "session:" (ev_stream_id event) with
    | None => Ok []
    | Some id =>
        current ← rd_get store "sessions-v1" id;
        let current := default [] (object <$> current) in
        Ok (upsert id (Object (set_identity id event (session_fields event payload current))))
    end;
|}.

(** ** [WorkProjection] *)

Definition work_stream (event : EventEnvelope) : bool :=
  existsb (starts_with (ev_stream_id event)) ["task:"; "decision:"; "plan:"; "goal:"].
Definition WorkProjection : ProjectionHandler := {|
  h_name := "work-v1";
  h_applies_to := work_stream;
  h_requires_payload := true;
  h_project store event payload :=
    if negb (work_stream event) then Ok []
    else
      match get "record" payload with
      | Some record =>
          Ok (upsert (ev_stream_id event) (Object
            (map_insert "last_event_type" (Str (ev_event_type event))
              (map_insert "stream_version" (json_n (ev_stream_version event))
                (map_insert "stream_id" (Str (ev_stream_id event)) (object record))))))
      | None =>
          merged ← merge_event store "work-v1" (ev_stream_id event) event payload;
          Ok (upsert (ev_stream_id event) merged)
      end;
|}.

(** ** [MemoryProjection] *)

(** [if let Some(v) = payload.get(from) { current[to] = v.clone() }]. *)
Definition copy_field (from to : string) (payload current : value) : result StoreError value :=
  match get from payload with Some v => index_set to v current | None => Ok current end.

Definition MemoryProjection : ProjectionHandler := {|
  h_name := "memory-v1";
  h_applies_to event := starts_with (ev_stream_id event) "memory:";
  h_requires_payload := true;
  h_project store event payload :=
    match strip_prefix "memory:" (ev_stream_id event) with
    | None => Ok []
    | Some id =>
        let type := ev_event_type event in
        if String.eqb type "memory.created.v1" || String.eqb type "memory.updated.v1" then
          record ← ok_or (get "record" payload) (Verification "memory record is absent");
          Ok (upsert id record)
        else if String.eqb type "memory.archived.v1" || String.eqb type "memory.superseded.v1" then
          stored ← rd_get store "memory-v1" id;
          current ← ok_or stored (Verification ("memory " ++s id ++s " was not created"));
          let status := if String.eqb type "memory.archived.v1" then "archived" else "superseded" in
          current ← index_set "status" (Str status) current;
          current ← copy_field "updated_at" "updated_at" payload current;
          current ← copy_field "replacement_id" "superseded_by" payload current;
          Ok (upsert id current)
        else Ok []
    end;
|}.

(** ** [WorkflowProjection] *)

Definition started_run (run_id : string) (payload : value) : value :=
  Object [("completed_steps", json_n 0); ("inputs", field_or_null "inputs" payload);
    ("outputs", Null); ("run_id", Str run_id); ("status", Str "running");
    ("workflow_hash", field_or_null "workflow_hash" payload);
    ("workflow_name", field_or_null "workflow_name" payload);
    ("workflow_version", field_or_null "workflow_version" payload)].

(** The run after one event; [None] when the event is not one of the run's. *)
Definition run_event (run_id : string) (event : EventEnvelope) (payload run : value)
    : result StoreError (option value) :=
  let set_status s := run ← index_set "status" (Str s) run; Ok (Some run) in
  let type := ev_event_type event in
  if String.eqb type "workflow.run.started.v1" then Ok (Some (started_run run_id payload))
  else if String.eqb type "workflow.step.completed.v1" then
    let completed := match get "root_index" payload ≫= as_u64 with
                     | Some index => saturating_add index 1
                     | None => 0%N
                     end in
    run ← index_set "completed_steps" (json_n completed) run; Ok (Some run)
  else if String.eqb type "workflow.run.waiting.v1" then set_status "waiting"
  else if String.eqb type "workflow.run.resumed.v1" then set_status "running"
  else if String.eqb type "workflow.run.completed.v1" then
    run ← index_set "status" (Str "completed") run;
    run ← index_set "outputs" (field_or_null "outputs" payload) run; Ok (Some run)
  else if String.eqb type "workflow.run.failed.v1" then set_status "failed"
  else if String.eqb type "workflow.run.cancelled.v1" then set_status "cancelled"
  else if String.eqb type "workflow.run.interrupted.v1" then set_status "interrupted"
  else Ok None.

Definition WorkflowProjection : ProjectionHandler := {|
  h_name := "workflows-v1";
  h_applies_to event := starts_with (ev_stream_id event) "workflow-definition:"
    || starts_with (ev_stream_id event) "workflow-run:";
  h_requires_payload := true;
  h_project store event payload :=
    match strip_prefix "workflow-definition:" (ev_stream_id event) with
    | Some id =>
        merged ← merge_event store "workflows-v1" ("definition:" ++s id) event payload;
        Ok (upsert ("definition:" ++s id) merged)
    | None =>
        match strip_prefix "workflow-run:" (ev_stream_id event) with
        | None => Ok []
        | Some run_id =>
            stored ← rd_get store "workflows-v1" ("run:" ++s run_id);
            run ← run_event run_id event payload (default (Object []) stored);
            match run with
            | None => Ok []
            | Some run =>
                run ← index_set "stream_version" (json_n (ev_stream_version event)) run;
                run ← index_set "updated_at" (Str (ev_occurred_at event)) run;
                Ok (upsert ("run:" ++s run_id) run)
            end
        end
    end;
|}.

(** ** [EffectRecoveryProjection] *)

Definition EFFECT_RECOVERY_PROJECTION : string := "effects-recovery-v1".
Record PendingEffect := mkPendingEffect {
  pe_stream : string;
  pe_started_stream_version : N;
  pe_latest_stream_version : N;
  pe_started_event_id : string;
}.
Class EffectCodec := {
  effect_to_value : PendingEffect -> result string value;
  effect_from_value : value -> result string PendingEffect;
}.

(** The lifecycle events that end an effect. *)
Definition terminal_effect (type : string) : bool :=
  String.eqb type "effect.completed.v1" || String.eqb type "effect.failed.v1"
  || String.eqb type "effect.outcome_unknown.v1".

Section Effects.
Context `{EffectCodec}.

Definition stored_effect (key : string) (v : value) : result StoreError PendingEffect :=
  map_err (fun e => Verification ("pending effect projection record " ++s key ++s " is invalid: "
    ++s e)) (effect_from_value v).

Definition effect_mutations (store : ProjectionReader) (event : EventEnvelope)
    : result StoreError (list ProjectionMutation) :=
  let id := ev_stream_id event in
  if String.eqb (ev_event_type event) "effect.started.v1" then
    v ← adapter_error (effect_to_value (mkPendingEffect id (ev_stream_version event)
          (ev_stream_version event) (ev_event_id event)));
    Ok (upsert id v)
  else if terminal_effect (ev_event_type event) then Ok [Delete id]
  else
    stored ← rd_get store EFFECT_RECOVERY_PROJECTION id;
    match stored with
    | None => Ok []
    | Some v =>
        effect ← stored_effect id v;
        v ← adapter_error (effect_to_value (mkPendingEffect (pe_stream effect)
              (pe_started_stream_version effect) (ev_stream_version event)
              (pe_started_event_id effect)));
        Ok (upsert id v)
    end.
Definition EffectRecoveryProjection : ProjectionHandler := {|
  h_name := EFFECT_RECOVERY_PROJECTION;
  h_applies_to event := starts_with (ev_stream_id event) "effect:";
  h_requires_payload := true;
  h_project store event _ := effect_mutations store event;
|}.

(** [pending_effects]. *)
Definition pending_effect_row (row : string * value) : result StoreError PendingEffect :=
  effect ← stored_effect row.1 row.2;
  reject (negb (String.eqb (pe_stream effect) row.1))
    (Verification ("pending effect projection key " ++s row.1 ++s " does not match its stream")) ;;
  Ok effect.
Definition pending_effects (store : ProjectionReader) (limit : N)
    : result StoreError (list PendingEffect) :=
  rows ← rd_list_after store EFFECT_RECOVERY_PROJECTION "effect:" None limit;
  try_map pending_effect_row rows.

(** [default_handlers], in the code's order; the session activity timeline
    ([SessionActivityProjection], activity.rs) is not modelled and is an argument. *)
Definition default_handlers (SessionActivityProjection : ProjectionHandler)
    : list ProjectionHandler :=
  [SessionProjection; WorkProjection; MemoryProjection; WorkflowProjection;
   EffectRecoveryProjection; SessionActivityProjection].

End Effects.

(** ** Repositories ([repositories.rs]) *)

Definition session_get (store : ProjectionReader) (id : string)
    : result StoreError (option value) := rd_get store "sessions-v1" id.
Definition memory_get (store : ProjectionReader) (id : string)
    : result StoreError (option value) := rd_get store "memory-v1" id.
Definition list_values (store : ProjectionReader) (projection : string) (limit : N)
    : result StoreError (list value) :=
  rows ← rd_list_after store projection "" None limit; Ok rows.*2.
Definition session_list (store : ProjectionReader) := list_values store "sessions-v1".
Definition work_list (store : ProjectionReader) := list_values store "work-v1".
Definition memory_list (store : ProjectionReader) := list_values store "memory-v1".

Fixpoint first_record (store : ProjectionReader) (id : string) (prefixes : list string)
    : result StoreError (option value) :=
  match prefixes with
  | [] => Ok None
  | prefix :: prefixes' =>
      record ← rd_get store "work-v1" (prefix ++s id);
      match record with Some _ => Ok record | None => first_record store id prefixes' end
  end.
Definition work_get (store : ProjectionReader) (id : string) : result StoreError (option value) :=
  if contains_byte ":" id then rd_get store "work-v1" id
  else first_record store id ["task:"; "decision:"; "plan:"; "goal:"].
