(* ===== verification/WorkContracts.v ===== *)
(** * Work contracts

    [crates/colossus-contracts/src/work.rs] and [decisions.rs]: the records of tasks, key
    decisions, plans, goals and child-agent jobs. *)

From S2P Require Import Prelude.

Open Scope string_scope.

(** ** Tasks *)

Inductive TaskStatus := TS_Pending | TS_InProgress | TS_Completed | TS_Blocked | TS_Cancelled.
#[export] Instance TaskStatus_eq_dec : EqDecision TaskStatus.
Proof. solve_decision. Defined.

Record TaskRecord := mkTaskRecord {
  tk_id : string;
  tk_session_id : string;
  tk_title : string;
  tk_description : string;
  tk_status : TaskStatus;
  tk_created_at : string;
  tk_updated_at : string;
}.

(** ** Key decisions *)

Inductive DecisionSource := DSrc_User | DSrc_Agent.
#[export] Instance DecisionSource_eq_dec : EqDecision DecisionSource.
Proof. solve_decision. Defined.
Inductive DecisionStatus := DS_Active | DS_Archived | DS_Superseded.
#[export] Instance DecisionStatus_eq_dec : EqDecision DecisionStatus.
Proof. solve_decision. Defined.
Inductive DecisionPriority := DP_Critical | DP_High | DP_Normal.
#[export] Instance DecisionPriority_eq_dec : EqDecision DecisionPriority.
Proof. solve_decision. Defined.

Record KeyDecision := mkKeyDecision {
  kd_id : string;
  kd_session_id : string;
  kd_goal_id : option string;
  kd_plan_id : option string;
  kd_source : DecisionSource;
  kd_status : DecisionStatus;
  kd_priority : DecisionPriority;
  kd_title : string;
  kd_decision : string;
  kd_intent : string;
  kd_applies_when : string;
  kd_rationale : string;
  kd_source_excerpt : string;
  kd_supersedes : option string;
  kd_created_at : string;
  kd_updated_at : string;
}.

(** ** Plans *)

Inductive PlanStatus := PS_Draft | PS_Approved | PS_Executed | PS_Discarded.
#[export] Instance PlanStatus_eq_dec : EqDecision PlanStatus.
Proof. solve_decision. Defined.

Record PlanStep := mkPlanStep {
  ps_index : N;
  ps_title : string;
  ps_detail : string;
  ps_requires_mutation : bool;
}.
#[export] Instance PlanStep_eq_dec : EqDecision PlanStep.
Proof. solve_decision. Defined.

Record PlanRecord := mkPlanRecord {
  pn_id : string;
  pn_session_id : string;
  pn_prompt : string;
  pn_status : PlanStatus;
  pn_revision : N;
  pn_content : string;
  pn_steps : list PlanStep;
  pn_created_at : string;
  pn_updated_at : string;
  pn_approved_at : option string;
  pn_executed_run_id : option string;
}.

(** ** Goals *)

Inductive GoalStatus := GS_Active | GS_Complete | GS_Blocked.
#[export] Instance GoalStatus_eq_dec : EqDecision GoalStatus.
Proof. solve_decision. Defined.

Record GoalRecord := mkGoalRecord {
  gl_id : string;
  gl_session_id : string;
  gl_objective : string;
  gl_source_plan_id : option string;
  gl_status : GoalStatus;
  gl_summary : string;
  gl_blocked_reason : string;
  gl_iteration_budget : N;
  gl_iterations_completed : N;
  gl_created_at : string;
  gl_updated_at : string;
}.

(** ** Child-agent jobs *)

Inductive SubagentStatus :=
| SJ_Queued | SJ_Running | SJ_Completed | SJ_Failed | SJ_Cancelled | SJ_Interrupted.
#[export] Instance SubagentStatus_eq_dec : EqDecision SubagentStatus.
Proof. solve_decision. Defined.

Record SubagentJob := mkSubagentJob {
  sj_id : string;
  sj_session_id : string;
  sj_parent_run_id : string;
  sj_parent_call_id : string;
  sj_task : string;
  sj_role : string;
  sj_allowed_tools : option (list string);
  sj_status : SubagentStatus;
  sj_child_session_id : string;
  sj_child_run_id : option string;
  sj_final_output : string;
  sj_error : string;
  sj_created_at : string;
  sj_updated_at : string;
  sj_started_at : option string;
  sj_completed_at : option string;
}.
