(* ===== verification/Session.v ===== *)
(** * Sessions

    [crates/colossus-session/src/]: canonical sessions as event streams.  An operation
    reads the session's stream, checks what it is about to append against it, and appends
    one batch at the version it read.  The serde forms of messages, pending tool turns and
    lifecycle records, and the parser of RFC 3339, are the class [SessionCodec]. *)

From S2P Require Import Prelude Json Contracts Boundary Platform JournalStore Journal Store.
From S2P Require Import SessionContracts ProjectionHandlers.

Open Scope string_scope.
Open Scope op_scope.

Definition SESSION_EVENT : string := "session.created.v1".
Definition TITLE_EVENT : string := "session.title.set.v1".
Definition TITLE_INDEX_EVENT : string := "session.title.indexed.v1".
Definition ARCHIVED_EVENT : string := "session.archived.v1".
Definition RESTORED_EVENT : string := "session.restored.v1".
Definition MESSAGE_EVENT : string := "session.message.appended.v1".
Definition TOOL_TURN_PENDING_EVENT : string := "session.tool_turn.pending.v1".
Definition TOOL_TURN_COMPLETED_EVENT : string := "session.tool_turn.completed.v1".
Definition MAX_TITLE_BYTES : N := 200.
Definition MAX_MESSAGE_BYTES : N := 1048576.
Definition LIST_LIMIT_MAX : N := 100.

Class SessionCodec := {
  message_to_value : ModelMessage -> value;
  message_from_value : value -> result string ModelMessage;
  message_to_vec : ModelMessage -> result string string;
  pending_to_value : PendingSessionToolTurn -> result string value;
  pending_from_value : value -> result string PendingSessionToolTurn;
  lifecycle_to_value : SessionLifecycle -> result string value;
  lifecycle_from_value : value -> result string SessionLifecycle;
  (** The instant of an RFC 3339 timestamp. *)
  instant : string -> option Z;
}.

(** ** Validation ([reconstruction.rs]) *)

Definition session_id_byte (c : ascii) : bool :=
  is_ascii_alphanumeric c || ascii_eqb c "-" || ascii_eqb c "_" || ascii_eqb c ".".
Definition validate_session_id (id : string) : result StoreError unit :=
  reject (is_empty id || (128 <? slen id)%N || negb (all_bytes session_id_byte id))
    (StoreAdapter "session id must be 1..=128 URL-safe characters").

Definition is_tool_role (r : ModelMessageRole) : bool :=
  match r with MR_Tool | MR_ToolObservation => true | _ => false end.
Definition validate_message `{SessionCodec} (m : ModelMessage) : result StoreError unit :=
  map_err StoreAdapter (validate_model_message_content m) ;;
  reject (bool_decide (mm_role m = MR_System))
    (StoreAdapter "system instructions are not persisted as conversation messages") ;;
  encoded ← map_err StoreAdapter (message_to_vec m);
  reject ((MAX_MESSAGE_BYTES <? slen encoded)%N || (128 <? count (mm_tool_calls m))%N)
    (StoreAdapter ("session message exceeds " ++s pretty MAX_MESSAGE_BYTES
      ++s " bytes or 128 tool calls")) ;;
  reject (is_tool_role (mm_role m) && is_none_or (mm_tool_call_id m) is_empty)
    (StoreAdapter "tool result messages require a call id") ;;
  reject (bool_decide (mm_role m = MR_User) && negb (bool_decide (mm_tool_calls m = [])))
    (StoreAdapter "user messages cannot contain assistant tool calls") ;;
  reject ((bool_decide (mm_role m = MR_User) || bool_decide (mm_role m = MR_Assistant))
          && is_some (mm_tool_call_id m))
    (StoreAdapter "only tool result messages can contain a tool_call_id") ;;
  reject (is_tool_role (mm_role m) && negb (bool_decide (mm_tool_calls m = [])))
    (StoreAdapter "tool result messages cannot request tools") ;;
  reject (existsb (fun call => is_empty (tc_call_id call) || is_empty (tc_name call)
                               || negb (is_object (tc_arguments call))) (mm_tool_calls m))
    (StoreAdapter "assistant tool calls require ids, names, and object arguments").

Definition validate_pending_tool_turn (p : PendingSessionToolTurn) : result StoreError unit :=
  reject (is_empty (pt_run_id p) || (pt_turn p =? 0)%N || bool_decide (pt_call_ids p = [])
          || (128 <? count (pt_call_ids p))%N || existsb is_empty (pt_call_ids p)
          || has_duplicate (pt_call_ids p))
    (StoreAdapter "pending tool turns require a run, turn, and 1..=128 unique call ids").

Definition unsafe_title_character (c : N) : bool :=
  (c <? 32)%N || ((127 <=? c) && (c <=? 159))%N || (c =? 1564)%N || (c =? 8206)%N
  || (c =? 8207)%N || ((8234 <=? c) && (c <=? 8238))%N || ((8294 <=? c) && (c <=? 8297))%N.

Section Session.
Context `{SessionCodec} {J} `{EventJournal J}.

(** ** Reconstruction ([reconstruction.rs]) *)

Definition of_type (event_type : string) (events : list EventEnvelope) : list EventEnvelope :=
  List.filter (fun e => String.eqb (ev_event_type e) event_type) events.

Definition message_from_event (session_id : string) (event : EventEnvelope) : op J SessionMessage :=
  payload <~ ej_decrypt_payload event;;
  op_lift (
    run_id ← ok_or (get_str "run_id" payload) (Verification "session message has no run_id");
    sequence ← ok_or (get "sequence" payload ≫= as_u64)
      (Verification "session message has no sequence");
    value ← ok_or (get "message" payload) (Verification "session message payload is absent");
    message ← map_err Verification (message_from_value value);
    Ok (mkSessionMessage session_id run_id sequence message (ev_occurred_at event))).

Definition retitle (title : option string) (event : EventEnvelope) : op J (option string) :=
  payload <~ ej_decrypt_payload event;;
  updated <~ op_lift (ok_or (get_str "title" payload)
    (Verification "session title event has no title"));;
  op_ret (Some updated).

(** The locals of [reconstruct_summary]: count, last run, last user preview. *)
Definition summarise (session_id : string) (s : N * option string * option string)
    (event : EventEnvelope) : op J (N * option string * option string) :=
  let '(message_count, _, last_user_preview) := s in
  record <~ message_from_event session_id event;;
  op_ret (saturating_add message_count 1, Some (sm_run_id record),
    if begins_user_turn (sm_message record)
    then Some (preview (plain_text (mm_content (sm_message record)))) else last_user_preview).

Definition created_event (id : string) (events : list EventEnvelope)
    : result StoreError EventEnvelope :=
  match events with
  | event :: _ =>
      if String.eqb (ev_event_type event) SESSION_EVENT then Ok event
      else Err (Verification ("session " ++s id ++s " has no creation event"))
  | [] => Err (Verification ("session " ++s id ++s " has no creation event"))
  end.
Definition reconstruct_summary (id : string) (events : list EventEnvelope) : op J SessionSummary :=
  created <~ op_lift (created_event id events);;
  created_payload <~ ej_decrypt_payload created;;
  title <~ op_fold retitle (of_type TITLE_EVENT events) (get_str "title" created_payload);;
  s <~ op_fold (summarise id) (of_type MESSAGE_EVENT events) (0%N, None, None);;
  let '(message_count, last_run_id, last_user_preview) := s in
  op_ret (mkSessionSummary id title (ev_occurred_at created)
    (match last events with Some e => ev_occurred_at e | None => ev_occurred_at created end)
    message_count last_run_id last_user_preview).

Definition is_tool_turn_event (e : EventEnvelope) : bool :=
  is_one_of (ev_event_type e) [TOOL_TURN_PENDING_EVENT; TOOL_TURN_COMPLETED_EVENT].
Definition tool_turn_step (pending : option PendingSessionToolTurn) (event : EventEnvelope)
    : op J (option PendingSessionToolTurn) :=
  payload <~ ej_decrypt_payload event;;
  op_lift (
    record ← map_err Verification (pending_from_value payload);
    map_err (fun e => Verification (store_error_text e)) (validate_pending_tool_turn record) ;;
    if String.eqb (ev_event_type event) TOOL_TURN_PENDING_EVENT then
      reject (is_some pending)
        (Verification "session contains overlapping pending tool turns") ;;
      Ok (Some record)
    else
      reject (negb (bool_decide (pending = Some record)))
        (Verification "session tool-turn completion does not match its pending marker") ;;
      Ok None).
Definition pending_tool_turn_from_events (events : list EventEnvelope)
    : op J (option PendingSessionToolTurn) :=
  op_fold tool_turn_step (List.filter is_tool_turn_event events) None.

(** ** Events *)

Definition session_stream (id : string) : string := "session:" ++s id.
Definition title_stream (id : string) : string := "session-title:" ++s id.
Definition lifecycle_stream (id : string) : string := "session-lifecycle:" ++s id.

(** [ExecutionContext { correlation_id, session_id, run_id, ..default() }]. *)
Definition session_context (correlation_id session_id : string) (run_id : option string)
    : ExecutionContext :=
  mkExecutionContext None correlation_id None (Some session_id) run_id None None None None None
    [] [] [] None None None None.
Definition session_event (stream_id : string) (expected : N) (event_type : string) (actor : Actor)
    (context : ExecutionContext) (payload : value) : NewEvent :=
  mkNewEvent 1 stream_id expected EC_Domain event_type actor context payload.

Definition title_payload (title : option string) : value :=
  Object [("title", match title with Some t => Str t | None => Null end)].
Definition message_payload (run_id : string) (sequence : N) (m : ModelMessage) : value :=
  Object [("message", message_to_value m); ("run_id", Str run_id); ("sequence", json_n sequence)].
(** The message events of a batch. *)
Definition message_events (session_id run_id : string) (first_sequence first_stream_version : N)
    (messages : list SessionMessageAppend) : list NewEvent :=
  imap (fun index append =>
    let offset := N.of_nat index in
    session_event (session_stream session_id) (saturating_add first_stream_version offset)
      MESSAGE_EVENT (sa_actor append) (session_context run_id session_id (Some run_id))
      (message_payload run_id (saturating_add first_sequence offset) (sa_message append))) messages.
(** What the caller gets for them. *)
Definition appended_messages (session_id run_id : string) (first_sequence : N)
    (messages : list SessionMessageAppend) (envelopes : list EventEnvelope) : list SessionMessage :=
  imap (fun index (pair : SessionMessageAppend * EventEnvelope) =>
    mkSessionMessage session_id run_id (saturating_add first_sequence (N.of_nat index))
      (sa_message pair.1) (ev_occurred_at pair.2)) (zip messages envelopes).

(** The checks every operation on an existing session starts with. *)
Definition existing_session (id : string) (events : list EventEnvelope) : result StoreError unit :=
  reject (is_none_or (head events) (fun e => negb (String.eqb (ev_event_type e) SESSION_EVENT)))
    (NotFound ("session " ++s id)).
Definition stream_head (events : list EventEnvelope) : N :=
  match last events with Some e => ev_stream_version e | None => 0%N end.
Definition next_sequence (events : list EventEnvelope) : N :=
  saturating_add (count (of_type MESSAGE_EVENT events)) 1.

(** ** The repository ([repository.rs]) *)

Definition get_session (id : string) : op J (option SessionSummary) :=
  _ <~ op_lift (validate_session_id id);;
  events <~ ej_read_stream (session_stream id);;
  if bool_decide (events = []) then op_ret None
  else summary <~ reconstruct_summary id events;; op_ret (Some summary).

Definition create_session (inputs : Inputs) (id : string) (title : option string) (actor : Actor)
    : op J SessionSummary :=
  _ <~ op_lift (validate_session_id id);;
  let title := match trim <$> title with
               | Some t => if is_empty t then None else Some t
               | None => None
               end in
  _ <~ op_lift (reject (is_some_and title (fun t => MAX_TITLE_BYTES <? slen t)%N)
    (StoreAdapter ("session title exceeds " ++s pretty MAX_TITLE_BYTES ++s " bytes")));;
  envelope <~ ej_append inputs (session_event (session_stream id) 0 SESSION_EVENT actor
    (session_context id id None) (title_payload title));;
  op_ret (mkSessionSummary id title (ev_occurred_at envelope) (ev_occurred_at envelope) 0 None None).

Definition last_version (stream_id : string) : op J N :=
  events <~ ej_read_stream_backwards stream_id None 1;;
  op_ret (match head events with Some e => ev_stream_version e | None => 0%N end).
Definition set_title (inputs : Inputs) (id title : string) (actor : Actor) : op J SessionSummary :=
  _ <~ op_lift (validate_session_id id);;
  let title := trim title in
  _ <~ op_lift (reject (is_empty title || (MAX_TITLE_BYTES <? slen title)%N
                        || existsb unsafe_title_character (chars title))
    (StoreAdapter ("session title must be 1..=" ++s pretty MAX_TITLE_BYTES
      ++s " bytes without unsafe formatting")));;
  created <~ ej_read_stream_from (session_stream id) 0 1;;
  _ <~ op_lift (existing_session id created);;
  version <~ last_version (session_stream id);;
  index_version <~ last_version (title_stream id);;
  let context := session_context id id None in
  _ <~ ej_append_batch inputs
    [session_event (session_stream id) version TITLE_EVENT actor context (title_payload (Some title));
     session_event (title_stream id) index_version TITLE_INDEX_EVENT actor context
       (title_payload (Some title))];;
  summary <~ get_session id;;
  op_lift (ok_or summary (NotFound ("session " ++s id))).

Definition append_messages_with_events (inputs : Inputs) (session_id run_id : string)
    (messages : list SessionMessageAppend) (additional_events : list NewEvent)
    : op J (list SessionMessage) :=
  _ <~ op_lift (validate_session_id session_id);;
  _ <~ op_lift (reject (is_empty run_id) (StoreAdapter "message run id is required"));;
  _ <~ op_lift (try_for_each (fun append => validate_message (sa_message append)) messages);;
  if Nat.eqb (length messages) 0 then op_ret []
  else
    events <~ ej_read_stream (session_stream session_id);;
    _ <~ op_lift (existing_session session_id events);;
    pending <~ pending_tool_turn_from_events events;;
    _ <~ op_lift (reject (is_some pending)
      (StoreAdapter "session has an unsettled provider tool turn"));;
    let first_sequence := next_sequence events in
    let batch := message_events session_id run_id first_sequence (stream_head events) messages in
    envelopes <~ ej_append_batch inputs (batch ++ additional_events)%list;;
    _ <~ op_lift (reject (negb (Nat.eqb (length envelopes)
                            (length messages + length additional_events)))
      (StoreAdapter "session batch append returned an unexpected event count"));;
    op_ret (appended_messages session_id run_id first_sequence messages envelopes).
Definition append_messages (inputs : Inputs) (session_id run_id : string)
    (messages : list SessionMessageAppend) : op J (list SessionMessage) :=
  append_messages_with_events inputs session_id run_id messages [].

Definition pending_tool_turn (session_id : string) : op J (option PendingSessionToolTurn) :=
  _ <~ op_lift (validate_session_id session_id);;
  events <~ ej_read_stream (session_stream session_id);;
  _ <~ op_lift (existing_session session_id events);;
  pending_tool_turn_from_events events.

Definition begin_tool_turn_with_events (inputs : Inputs) (session_id : string)
    (pending : PendingSessionToolTurn) (actor : Actor) (additional_events : list NewEvent)
    : op J unit :=
  _ <~ op_lift (validate_session_id session_id);;
  _ <~ op_lift (validate_pending_tool_turn pending);;
  events <~ ej_read_stream (session_stream session_id);;
  _ <~ op_lift (existing_session session_id events);;
  current <~ pending_tool_turn_from_events events;;
  _ <~ op_lift (reject (is_some current)
    (StoreAdapter "session already has an unsettled provider tool turn"));;
  payload <~ op_lift (map_err StoreAdapter (pending_to_value pending));;
  _ <~ ej_append_batch inputs
    (session_event (session_stream session_id) (stream_head events) TOOL_TURN_PENDING_EVENT actor
       (session_context (pt_run_id pending) session_id (Some (pt_run_id pending))) payload
     :: additional_events);;
  op_ret tt.
Definition begin_tool_turn (inputs : Inputs) (session_id : string)
    (pending : PendingSessionToolTurn) (actor : Actor) : op J unit :=
  begin_tool_turn_with_events inputs session_id pending actor [].

(** The call ids the transcript opens with. *)
Definition opening_calls (transcript : list ModelMessage) : list string :=
  match transcript with
  | m :: _ => if bool_decide (mm_role m = MR_Assistant) then call_ids m else []
  | [] => []
  end.
Definition complete_tool_turn_with_events (inputs : Inputs) (session_id : string)
    (pending : PendingSessionToolTurn) (messages : list SessionMessageAppend) (actor : Actor)
    (additional_events : list NewEvent) : op J (list SessionMessage) :=
  _ <~ op_lift (validate_session_id session_id);;
  _ <~ op_lift (validate_pending_tool_turn pending);;
  _ <~ op_lift (try_for_each (fun append => validate_message (sa_message append)) messages);;
  let transcript := sa_message <$> messages in
  _ <~ op_lift (map_err (fun e => StoreAdapter (transcript_error_text e))
    (validate_model_transcript transcript));;
  _ <~ op_lift (reject (negb (bool_decide (opening_calls transcript = pt_call_ids pending)))
    (StoreAdapter "tool-turn messages do not match the pending call ids"));;
  events <~ ej_read_stream (session_stream session_id);;
  _ <~ op_lift (existing_session session_id events);;
  current <~ pending_tool_turn_from_events events;;
  _ <~ op_lift (reject (negb (bool_decide (current = Some pending)))
    (StoreAdapter "session pending tool turn changed before completion"));;
  let first_sequence := next_sequence events in
  let first_stream_version := stream_head events in
  payload <~ op_lift (map_err StoreAdapter (pending_to_value pending));;
  let completion := session_event (session_stream session_id)
    (saturating_add first_stream_version (count messages)) TOOL_TURN_COMPLETED_EVENT actor
    (session_context (pt_run_id pending) session_id (Some (pt_run_id pending))) payload in
  let batch := (message_events session_id (pt_run_id pending) first_sequence first_stream_version
                  messages ++ [completion])%list in
  envelopes <~ ej_append_batch inputs (batch ++ additional_events)%list;;
  completion <~ op_lift (ok_or (envelopes !! length messages)
    (StoreAdapter "tool-turn append returned no completion marker"));;
  _ <~ op_lift (reject (negb (String.eqb (ev_event_type completion) TOOL_TURN_COMPLETED_EVENT)
      || negb (Nat.eqb (length envelopes) (length batch + length additional_events)))
    (StoreAdapter "tool-turn append returned an unexpected event batch"));;
  op_ret (appended_messages session_id (pt_run_id pending) first_sequence messages envelopes).
Definition complete_tool_turn (inputs : Inputs) (session_id : string)
    (pending : PendingSessionToolTurn) (messages : list SessionMessageAppend) (actor : Actor)
    : op J (list SessionMessage) :=
  complete_tool_turn_with_events inputs session_id pending messages actor [].

Definition list_messages (session_id : string) : op J (list SessionMessage) :=
  _ <~ op_lift (validate_session_id session_id);;
  events <~ ej_read_stream (session_stream session_id);;
  _ <~ op_lift (reject (bool_decide (events = [])) (NotFound ("session " ++s session_id)));;
  op_map (message_from_event session_id) (of_type MESSAGE_EVENT events).

(** ** Archiving ([lifecycle.rs]) *)

Definition lifecycle_for_existing (id : string) : op J SessionLifecycle :=
  events <~ ej_read_stream_backwards (lifecycle_stream id) None 1;;
  match head events with
  | None => op_ret (mkSessionLifecycle id false 0)
  | Some event =>
      archived <~ op_lift (
        if String.eqb (ev_event_type event) ARCHIVED_EVENT then Ok true
        else if String.eqb (ev_event_type event) RESTORED_EVENT then Ok false
        else Err (Verification "unrecognized session lifecycle event"));;
      payload <~ ej_decrypt_payload event;;
      op_lift (
        state ← map_err (fun _ => Verification "invalid session lifecycle payload")
          (lifecycle_from_value payload);
        reject (negb (ev_event_version event =? 1)%N
                || negb (bool_decide (ctx_session_id (ev_context event) = Some id))
                || negb (String.eqb (sl_session_id state) id)
                || negb (Bool.eqb (sl_archived state) archived)
                || negb (sl_revision state =? ev_stream_version event)%N)
          (Verification "session lifecycle identity or revision mismatch") ;;
        Ok state)
  end.

Definition read_lifecycle (id : string) : op J (option SessionLifecycle) :=
  _ <~ op_lift (validate_session_id id);;
  created <~ ej_read_stream_from (session_stream id) 0 1;;
  match head created with
  | None => op_ret None
  | Some created =>
      _ <~ op_lift (reject (negb (String.eqb (ev_event_type created) SESSION_EVENT))
        (Verification ("session " ++s id ++s " has no creation event")));;
      state <~ lifecycle_for_existing id;;
      op_ret (Some state)
  end.

Definition write_lifecycle (inputs : Inputs) (id : string) (archived : bool)
    (expected_revision : N) (actor : Actor) : op J SessionLifecycle :=
  current <~ read_lifecycle id;;
  current <~ op_lift (ok_or current (NotFound ("session " ++s id)));;
  _ <~ op_lift (reject (negb (sl_revision current =? expected_revision)%N)
    (Conflict (lifecycle_stream id) expected_revision (sl_revision current)));;
  if Bool.eqb (sl_archived current) archived then op_ret current
  else
    _ <~ (if archived then
            pending <~ pending_tool_turn id;;
            op_lift (reject (is_some pending)
              (StoreAdapter "session has an unsettled tool turn; settle it before archiving"))
          else op_ret tt);;
    revision <~ op_lift (ok_or (checked_add (sl_revision current) 1)
      (Verification "session lifecycle revision overflow"));;
    let state := mkSessionLifecycle id archived revision in
    payload <~ op_lift (map_err StoreAdapter (lifecycle_to_value state));;
    _ <~ ej_append inputs (session_event (lifecycle_stream id) expected_revision
      (if archived then ARCHIVED_EVENT else RESTORED_EVENT) actor (session_context id id None)
      payload);;
    op_ret state.

(** ** Listing ([lifecycle.rs], [ordering.rs]) *)

Definition newer_first (a b : Z * SessionSummary) : Prop :=
  (b.1 < a.1)%Z \/ a.1 = b.1 /\ String.le (ss_id b.2) (ss_id a.2).
#[export] Instance newer_first_dec a b : Decision (newer_first a b).
Proof. unfold newer_first. apply _. Defined.
Definition recent_sessions (sessions : list SessionSummary) (limit : N)
    : result StoreError (list SessionSummary) :=
  timed ← try_map (fun session =>
    timestamp ← ok_or (instant (ss_updated_at session))
      (Verification "session update timestamp is invalid");
    Ok (timestamp, session)) sessions;
  Ok ((take (N.to_nat limit) (merge_sort newer_first timed)).*2).

Definition catalog_entry (archived : bool) (sessions : list SessionSummary) (stream_id : string)
    : op J (list SessionSummary) :=
  id <~ op_lift (ok_or (strip_prefix "session:" stream_id)
    (Verification ("indexed stream " ++s stream_id ++s " is not a session stream")));;
  summary <~ get_session id;;
  match summary with
  | None => op_ret sessions
  | Some summary =>
      state <~ lifecycle_for_existing id;;
      op_ret (if Bool.eqb (sl_archived state) archived then sessions ++ [summary] else sessions)%list
  end.
Definition list_catalog (fuel : nat) (archived : bool) (limit : N) : op J (list SessionSummary) :=
  stream_ids <~ collect_stream_ids fuel "session:";;
  sessions <~ op_fold (catalog_entry archived) stream_ids [];;
  op_lift (recent_sessions sessions (N.max 1 (N.min limit LIST_LIMIT_MAX))).
Definition list_sessions (fuel : nat) (limit : N) := list_catalog fuel false limit.
Definition list_archived_sessions (fuel : nat) (limit : N) := list_catalog fuel true limit.

End Session.
