(* ===== verification/Work.v ===== *)
(** * Work items

    [crates/colossus-work/src/validation.rs], [repository.rs] and [subagent_recovery.rs]:
    tasks, key decisions, plans, goals and child-agent jobs, each a stream of the journal
    whose events carry the whole record after the change.  The serde forms of the records
    are the class [RecordCodec]; the clock ([now]) is an argument of the operations that
    read it. *)

From S2P Require Import Prelude Json Contracts Boundary Platform JournalStore Journal Store.
From S2P Require Import SessionContracts WorkContracts Session.

Open Scope string_scope.
Open Scope op_scope.

(** ** Validation ([validation.rs]) *)

Definition TASK_CREATED : string := "task.created.v1".
Definition TASK_UPDATED : string := "task.updated.v1".
Definition DECISION_CREATED : string := "decision.created.v1".
Definition DECISION_UPDATED : string := "decision.updated.v1".
Definition DECISION_ARCHIVED : string := "decision.archived.v1".
Definition DECISION_SUPERSEDED : string := "decision.superseded.v1".
Definition PLAN_CREATED : string := "plan.created.v1".
Definition PLAN_UPDATED : string := "plan.updated.v1".
Definition PLAN_APPROVED : string := "plan.approved.v1".
Definition PLAN_EXECUTED : string := "plan.executed.v1".
Definition PLAN_DISCARDED : string := "plan.discarded.v1".
Definition GOAL_CREATED : string := "goal.created.v1".
Definition GOAL_UPDATED : string := "goal.updated.v1".
Definition SUBAGENT_CREATED : string := "subagent.queued.v1".
Definition SUBAGENT_UPDATED : string := "subagent.status_changed.v1".
Definition WORK_TITLE_BYTES : N := 512.
Definition MAX_TEXT_BYTES : N := 65536.
Definition MAX_PLAN_BYTES : N := 262144.
Definition MAX_LIST : N := 1000.

Definition valid_id (id : string) : bool :=
  negb (is_empty id) && (slen id <=? 128)%N && all_bytes session_id_byte id.

Definition require_plan_revision (plan : PlanRecord) (expected_revision : N)
    : result StoreError unit :=
  reject (negb (pn_revision plan =? expected_revision)%N)
    (Conflict ("plan:" ++s pn_id plan) expected_revision (pn_revision plan)).

Definition validate_task (t : TaskRecord) : result StoreError unit :=
  reject (negb (valid_id (tk_id t)) || negb (valid_id (tk_session_id t))
          || is_empty (trim (tk_title t)) || (WORK_TITLE_BYTES <? slen (tk_title t))%N
          || (MAX_TEXT_BYTES <? slen (tk_description t))%N
          || is_empty (tk_created_at t) || is_empty (tk_updated_at t))
    (StoreAdapter "invalid task identity, title, description, or timestamp").

Definition validate_key_decision (d : KeyDecision) : result StoreError unit :=
  let bounded := [kd_decision d; kd_intent d; kd_applies_when d; kd_rationale d; kd_source_excerpt d] in
  reject (negb (valid_id (kd_id d)) || negb (valid_id (kd_session_id d))
          || is_empty (trim (kd_title d)) || (WORK_TITLE_BYTES <? slen (kd_title d))%N
          || is_empty (trim (kd_decision d))
          || existsb (fun value => MAX_TEXT_BYTES <? slen value)%N bounded
          || is_empty (kd_created_at d) || is_empty (kd_updated_at d))
    (StoreAdapter "invalid key-decision identity, content, or timestamp").

Definition step_ordered (index : nat) (step : PlanStep) : bool :=
  let position := (N.of_nat index + 1)%N in
  (ps_index step =? (if position <=? u32_max then position else u32_max))%N
  && negb (is_empty (trim (ps_title step))) && (slen (ps_title step) <=? WORK_TITLE_BYTES)%N
  && (slen (ps_detail step) <=? MAX_TEXT_BYTES)%N.
Definition plan_lifecycle_valid (p : PlanRecord) : bool :=
  match pn_status p with
  | PS_Draft => is_none (pn_approved_at p) && is_none (pn_executed_run_id p)
  | PS_Approved => is_some (pn_approved_at p) && is_none (pn_executed_run_id p)
  | PS_Executed => is_some (pn_approved_at p) && is_some (pn_executed_run_id p)
  | PS_Discarded => is_none (pn_executed_run_id p)
  end.
Definition plan_bytes (p : PlanRecord) : N :=
  foldl (fun total step => saturating_add (saturating_add total (slen (ps_title step)))
                             (slen (ps_detail step)))
    (saturating_add (slen (pn_prompt p)) (slen (pn_content p))) (pn_steps p).
Definition validate_plan (p : PlanRecord) : result StoreError unit :=
  let ordered := negb (bool_decide (pn_steps p = [])) && (count (pn_steps p) <=? 100)%N
                 && forallb id (imap step_ordered (pn_steps p)) in
  reject (negb (valid_id (pn_id p)) || negb (valid_id (pn_session_id p))
          || is_empty (trim (pn_prompt p)) || (MAX_TEXT_BYTES <? slen (pn_prompt p))%N
          || (MAX_TEXT_BYTES <? slen (pn_content p))%N || (MAX_PLAN_BYTES <? plan_bytes p)%N
          || is_empty (pn_created_at p) || is_empty (pn_updated_at p)
          || negb ordered || negb (plan_lifecycle_valid p))
    (StoreAdapter "invalid plan identity, content, steps, lifecycle, or timestamp").

Definition goal_terminal_valid (g : GoalRecord) : bool :=
  match gl_status g with
  | GS_Active => is_empty (gl_blocked_reason g)
  | GS_Complete => negb (is_empty (trim (gl_summary g))) && is_empty (gl_blocked_reason g)
  | GS_Blocked => negb (is_empty (trim (gl_blocked_reason g)))
  end.
Definition validate_goal (g : GoalRecord) : result StoreError unit :=
  reject (negb (valid_id (gl_id g)) || negb (valid_id (gl_session_id g))
          || is_empty (trim (gl_objective g)) || (MAX_TEXT_BYTES <? slen (gl_objective g))%N
          || (MAX_TEXT_BYTES <? slen (gl_summary g))%N
          || (MAX_TEXT_BYTES <? slen (gl_blocked_reason g))%N
          || negb ((1 <=? gl_iteration_budget g) && (gl_iteration_budget g <=? 50))%N
          || (gl_iteration_budget g <? gl_iterations_completed g)%N
          || is_empty (gl_created_at g) || is_empty (gl_updated_at g)
          || negb (goal_terminal_valid g))
    (StoreAdapter "invalid goal identity, objective, budget, lifecycle, or timestamp").

(** [char::is_control]. *)
Definition is_control (c : N) : bool := (c <? 32)%N || ((127 <=? c) && (c <=? 159))%N.
Definition tools_valid (tools : list string) : bool :=
  (count tools <=? 512)%N
  && forallb (fun tool => negb (is_empty tool) && (slen tool <=? 128)%N && String.eqb (trim tool) tool
                          && negb (existsb is_control (chars tool))) tools
  && negb (has_duplicate tools).
Definition subagent_lifecycle_valid (j : SubagentJob) : bool :=
  match sj_status j with
  | SJ_Queued => is_none (sj_child_run_id j) && is_none (sj_started_at j)
                 && is_none (sj_completed_at j) && is_empty (sj_final_output j) && is_empty (sj_error j)
  | SJ_Running => is_some (sj_started_at j) && is_none (sj_completed_at j)
  | SJ_Completed => is_some (sj_started_at j) && is_some (sj_completed_at j)
                    && is_some (sj_child_run_id j) && is_empty (sj_error j)
  | SJ_Failed | SJ_Cancelled | SJ_Interrupted =>
      is_some (sj_completed_at j) && negb (is_empty (trim (sj_error j)))
  end.
Definition validate_subagent (j : SubagentJob) : result StoreError unit :=
  reject (negb (valid_id (sj_id j)) || negb (valid_id (sj_session_id j))
          || negb (valid_id (sj_parent_run_id j)) || negb (valid_id (sj_parent_call_id j))
          || negb (valid_id (sj_child_session_id j))
          || is_empty (trim (sj_task j)) || (MAX_TEXT_BYTES <? slen (sj_task j))%N
          || is_empty (trim (sj_role j)) || (128 <? slen (sj_role j))%N
          || (MAX_TEXT_BYTES <? slen (sj_final_output j))%N || (MAX_TEXT_BYTES <? slen (sj_error j))%N
          || is_empty (sj_created_at j) || is_empty (sj_updated_at j)
          || negb (is_none_or (sj_allowed_tools j) tools_valid)
          || negb (subagent_lifecycle_valid j))
    (StoreAdapter "invalid subagent identity, task, result, lifecycle, or timestamp").

(** ** The records of a stream *)

Class RecordCodec (A : Type) := {
  record_to_value : A -> value;
  record_from_value : value -> result string A;
}.
(** What the listings compare. *)
Class WorkRecord (A : Type) := {
  wr_id : A -> string;
  wr_session_id : A -> string;
  wr_updated_at : A -> string;
}.
#[export] Instance task_work : WorkRecord TaskRecord :=
  {| wr_id := tk_id; wr_session_id := tk_session_id; wr_updated_at := tk_updated_at |}.
#[export] Instance decision_work : WorkRecord KeyDecision :=
  {| wr_id := kd_id; wr_session_id := kd_session_id; wr_updated_at := kd_updated_at |}.
#[export] Instance plan_work : WorkRecord PlanRecord :=
  {| wr_id := pn_id; wr_session_id := pn_session_id; wr_updated_at := pn_updated_at |}.
#[export] Instance goal_work : WorkRecord GoalRecord :=
  {| wr_id := gl_id; wr_session_id := gl_session_id; wr_updated_at := gl_updated_at |}.
#[export] Instance subagent_work : WorkRecord SubagentJob :=
  {| wr_id := sj_id; wr_session_id := sj_session_id; wr_updated_at := sj_updated_at |}.

Definition task_stream (id : string) : string := "task:" ++s id.
Definition decision_stream (id : string) : string := "decision:" ++s id.
Definition plan_stream (id : string) : string := "plan:" ++s id.
Definition goal_stream (id : string) : string := "goal:" ++s id.
Definition subagent_stream (id : string) : string := "subagent:" ++s id.

(** [Self::event]. *)
Definition work_event (stream_id : string) (expected : N) (event_type : string) (actor : Actor)
    (session_id : string) (payload : value) : NewEvent :=
  mkNewEvent 1 stream_id expected EC_Domain event_type actor
    (session_context stream_id session_id None) payload.
Definition record_payload {A} `{RecordCodec A} (record : A) : value :=
  Object [("record", record_to_value record)].

(** Newest first, then by descending identifier. *)
Definition newest_first {A} `{WorkRecord A} (a b : A) : Prop :=
  str_ltb (wr_updated_at b) (wr_updated_at a) = true \/
  wr_updated_at a = wr_updated_at b /\ str_leb (wr_id b) (wr_id a) = true.
#[export] Instance newest_first_dec {A} `{WorkRecord A} (a b : A) : Decision (newest_first a b).
Proof. unfold newest_first. apply _. Defined.
Definition clamp_limit (limit : N) : N := N.max 1 (N.min limit MAX_LIST).

Definition invalid_snapshot_id (id : string) : bool :=
  negb (slen id =? 64)%N
  || negb (all_bytes (fun b => is_ascii_digit b || in_range 97 102 b) id).

(** ** The repository ([repository.rs]) *)

Section Work.
Context {J} `{EventJournal J}.
Context `{RecordCodec TaskRecord, RecordCodec KeyDecision, RecordCodec PlanRecord,
  RecordCodec GoalRecord, RecordCodec SubagentJob}.

(** [strip_prefix] of every discovered stream. *)
Definition ids (fuel : nat) (prefix : string) : op J (list string) :=
  streams <~ collect_stream_ids fuel prefix;;
  op_lift (try_map (fun stream_id => ok_or (strip_prefix prefix stream_id)
    (Verification ("indexed stream " ++s stream_id ++s " does not match prefix " ++s prefix))) streams).

Definition record_with_version {A} `{RecordCodec A} (stream_id expected_created_event : string)
    : op J (option (A * N)) :=
  events <~ ej_read_stream stream_id;;
  match head events, last events with
  | Some first, Some last =>
      _ <~ op_lift (reject (negb (String.eqb (ev_event_type first) expected_created_event))
        (Verification ("work stream " ++s stream_id ++s " has no valid creation event")));;
      payload <~ ej_decrypt_payload last;;
      op_lift (
        value ← ok_or (get "record" payload) (Verification "work record is absent");
        record ← map_err Verification (record_from_value value);
        Ok (Some (record, count events)))
  | _, _ => op_ret None
  end.
Definition record {A} `{RecordCodec A} (stream_id expected_created_event : string)
    : op J (option A) :=
  r <~ record_with_version stream_id expected_created_event;; op_ret (fst <$> r).

(** [u64::try_from(self.journal.read_stream(&stream)?.len())], read anew before the append. *)
Definition stream_length (stream_id : string) : op J N :=
  events <~ ej_read_stream stream_id;; op_ret (count events).
(** The last steps of the operations on tasks and decisions: the version, and the append. *)
Definition append_next {A} `{RecordCodec A, WorkRecord A} (inputs : Inputs)
    (stream_id event_type : string) (actor : Actor) (a : A) : op J A :=
  expected <~ stream_length stream_id;;
  _ <~ ej_append inputs (work_event stream_id expected event_type actor (wr_session_id a)
    (record_payload a));;
  op_ret a.

(** The listings: every stream's record, the ones asked for, newest first. *)
Definition list_records {A} `{WorkRecord A} (fuel : nat) (prefix : string)
    (get_record : string -> op J (option A)) (session_id : option string) (keep : A -> bool)
    (limit : N) : op J (list A) :=
  ids <~ ids fuel prefix;;
  records <~ op_map get_record ids;;
  op_ret (take (N.to_nat (clamp_limit limit)) (merge_sort newest_first
    (List.filter (fun r => is_none_or session_id (String.eqb (wr_session_id r)) && keep r)
      (omap id records)))).

(** *** Tasks *)

Definition create_task (inputs : Inputs) (task : TaskRecord) (actor : Actor) : op J TaskRecord :=
  _ <~ op_lift (validate_task task);;
  _ <~ ej_append inputs (work_event (task_stream (tk_id task)) 0 TASK_CREATED actor
    (tk_session_id task) (record_payload task));;
  op_ret task.
Definition get_task (id : string) : op J (option TaskRecord) := record (task_stream id) TASK_CREATED.
(** What [update_task] checks before it reads the version. *)
Definition check_task_update (task : TaskRecord) : op J unit :=
  _ <~ op_lift (validate_task task);;
  current <~ get_task (tk_id task);;
  current <~ op_lift (ok_or current (NotFound ("task " ++s tk_id task)));;
  op_lift (reject (negb (String.eqb (tk_session_id current) (tk_session_id task))
                   || negb (String.eqb (tk_created_at current) (tk_created_at task)))
    (StoreAdapter "task session and creation timestamp are immutable")).
Definition update_task (inputs : Inputs) (task : TaskRecord) (actor : Actor) : op J TaskRecord :=
  _ <~ check_task_update task;;
  append_next inputs (task_stream (tk_id task)) TASK_UPDATED actor task.
Definition list_tasks (fuel : nat) (session_id : option string) (status : option TaskStatus)
    (limit : N) : op J (list TaskRecord) :=
  list_records fuel "task:" get_task session_id
    (fun r => is_none_or status (fun s => bool_decide (tk_status r = s))) limit.

(** *** Key decisions *)

Definition create_decision (inputs : Inputs) (decision : KeyDecision) (actor : Actor)
    : op J KeyDecision :=
  _ <~ op_lift (validate_key_decision decision);;
  _ <~ op_lift (reject (negb (bool_decide (kd_status decision = DS_Active)))
    (StoreAdapter "new key decisions must be active"));;
  _ <~ ej_append inputs (work_event (decision_stream (kd_id decision)) 0 DECISION_CREATED actor
    (kd_session_id decision) (record_payload decision));;
  op_ret decision.
Definition get_decision (id : string) : op J (option KeyDecision) :=
  record (decision_stream id) DECISION_CREATED.
Definition check_decision_update (decision : KeyDecision) : op J unit :=
  _ <~ op_lift (validate_key_decision decision);;
  current <~ get_decision (kd_id decision);;
  current <~ op_lift (ok_or current (NotFound ("decision " ++s kd_id decision)));;
  op_lift (reject (negb (bool_decide (kd_status current = DS_Active))
                   || negb (bool_decide (kd_status decision = DS_Active))
                   || negb (String.eqb (kd_session_id current) (kd_session_id decision))
                   || negb (String.eqb (kd_created_at current) (kd_created_at decision))
                   || negb (bool_decide (kd_source current = kd_source decision))
                   || negb (bool_decide (kd_supersedes current = kd_supersedes decision)))
    (StoreAdapter "only active decision content may be updated; provenance is immutable")).
Definition update_decision (inputs : Inputs) (decision : KeyDecision) (actor : Actor)
    : op J KeyDecision :=
  _ <~ check_decision_update decision;;
  append_next inputs (decision_stream (kd_id decision)) DECISION_UPDATED actor decision.
Definition list_decisions (fuel : nat) (session_id : option string)
    (status : option DecisionStatus) (limit : N) : op J (list KeyDecision) :=
  list_records fuel "decision:" get_decision session_id
    (fun r => is_none_or status (fun s => bool_decide (kd_status r = s))) limit.

Definition with_decision_status (status : DecisionStatus) (now : string) (d : KeyDecision)
    : KeyDecision :=
  mkKeyDecision (kd_id d) (kd_session_id d) (kd_goal_id d) (kd_plan_id d) (kd_source d) status
    (kd_priority d) (kd_title d) (kd_decision d) (kd_intent d) (kd_applies_when d) (kd_rationale d)
    (kd_source_excerpt d) (kd_supersedes d) (kd_created_at d) now.
Definition check_archive (now : result StoreError string) (id : string) : op J KeyDecision :=
  decision <~ get_decision id;;
  decision <~ op_lift (ok_or decision (NotFound ("decision " ++s id)));;
  _ <~ op_lift (reject (negb (bool_decide (kd_status decision = DS_Active)))
    (StoreAdapter "only active decisions can be archived"));;
  now <~ op_lift now;;
  op_ret (with_decision_status DS_Archived now decision).
Definition archive_decision (inputs : Inputs) (now : result StoreError string) (id : string)
    (actor : Actor) : op J KeyDecision :=
  decision <~ check_archive now id;;
  append_next inputs (decision_stream id) DECISION_ARCHIVED actor decision.

Definition check_supersede (now : result StoreError string) (id : string)
    (replacement : KeyDecision) : op J KeyDecision :=
  old <~ get_decision id;;
  old <~ op_lift (ok_or old (NotFound ("decision " ++s id)));;
  _ <~ op_lift (validate_key_decision replacement);;
  let error := StoreAdapter ("decision supersession requires an active same-session replacement "
                             ++s "linked to the old id") in
  _ <~ op_lift (reject (negb (bool_decide (kd_status old = DS_Active))
                        || negb (bool_decide (kd_status replacement = DS_Active))
                        || String.eqb (kd_id replacement) (kd_id old)
                        || negb (String.eqb (kd_session_id replacement) (kd_session_id old))
                        || negb (bool_decide (kd_supersedes replacement = Some id))) error);;
  existing <~ get_decision (kd_id replacement);;
  _ <~ op_lift (reject (is_some existing) error);;
  now <~ op_lift now;;
  op_ret (with_decision_status DS_Superseded now old).
(** Its last steps: the version, read anew, and the batch. *)
Definition append_superseded (inputs : Inputs) (id : string) (old replacement : KeyDecision)
    (actor : Actor) : op J (KeyDecision * KeyDecision) :=
  expected <~ stream_length (decision_stream id);;
  _ <~ ej_append_batch inputs
    [work_event (decision_stream id) expected DECISION_SUPERSEDED actor (kd_session_id old)
       (Object [("record", record_to_value old); ("replacement_id", Str (kd_id replacement))]);
     work_event (decision_stream (kd_id replacement)) 0 DECISION_CREATED actor
       (kd_session_id replacement) (record_payload replacement)];;
  op_ret (old, replacement).
Definition supersede_decision (inputs : Inputs) (now : result StoreError string) (id : string)
    (replacement : KeyDecision) (actor : Actor) : op J (KeyDecision * KeyDecision) :=
  old <~ check_supersede now id replacement;;
  append_superseded inputs id old replacement actor.

(** *** Plans *)

Definition with_revision (revision : N) (p : PlanRecord) : PlanRecord :=
  mkPlanRecord (pn_id p) (pn_session_id p) (pn_prompt p) (pn_status p) revision (pn_content p)
    (pn_steps p) (pn_created_at p) (pn_updated_at p) (pn_approved_at p) (pn_executed_run_id p).
Definition next_revision (p : PlanRecord) : result StoreError PlanRecord :=
  revision ← ok_or (checked_add (pn_revision p) 1) (StoreAdapter "plan revision overflow");
  Ok (with_revision revision p).

Definition create_plan (inputs : Inputs) (plan : PlanRecord) (actor : Actor) : op J PlanRecord :=
  _ <~ op_lift (validate_plan plan);;
  _ <~ op_lift (reject (negb (bool_decide (pn_status plan = PS_Draft)) || negb (pn_revision plan =? 1)%N)
    (StoreAdapter "new plans must be drafts at revision one"));;
  _ <~ ej_append inputs (work_event (plan_stream (pn_id plan)) 0 PLAN_CREATED actor
    (pn_session_id plan) (record_payload plan));;
  op_ret plan.
Definition get_plan (id : string) : op J (option PlanRecord) := record (plan_stream id) PLAN_CREATED.

Definition status_name (s : PlanStatus) : string :=
  match s with
  | PS_Draft => "Draft" | PS_Approved => "Approved" | PS_Executed => "Executed"
  | PS_Discarded => "Discarded"
  end.
Definition plan_transition (from to : PlanStatus) : result StoreError string :=
  match from, to with
  | PS_Draft, PS_Draft => Ok PLAN_UPDATED
  | PS_Draft, PS_Approved => Ok PLAN_APPROVED
  | PS_Approved, PS_Executed => Ok PLAN_EXECUTED
  | PS_Draft, PS_Discarded | PS_Approved, PS_Discarded => Ok PLAN_DISCARDED
  | _, _ => Err (StoreAdapter ("invalid plan transition from " ++s status_name from ++s " to "
                               ++s status_name to))
  end.
Definition approval_lineage_valid (current plan : PlanRecord) : bool :=
  match pn_status current, pn_status plan with
  | PS_Draft, PS_Draft | PS_Draft, PS_Discarded => is_none (pn_approved_at plan)
  | PS_Draft, PS_Approved => is_some (pn_approved_at plan)
  | PS_Approved, PS_Executed | PS_Approved, PS_Discarded =>
      bool_decide (pn_approved_at plan = pn_approved_at current)
  | _, _ => false
  end.
(** The checks of [update_plan] against the current record: the event and the next record. *)
Definition plan_update (current plan : PlanRecord) : result StoreError (string * PlanRecord) :=
  require_plan_revision current (pn_revision plan) ;;
  reject (negb (String.eqb (pn_session_id current) (pn_session_id plan))
          || negb (String.eqb (pn_created_at current) (pn_created_at plan))
          || negb (String.eqb (pn_prompt current) (pn_prompt plan)))
    (StoreAdapter "plan session, objective, and creation timestamp are immutable") ;;
  event_type ← plan_transition (pn_status current) (pn_status plan);
  reject (negb (approval_lineage_valid current plan))
    (StoreAdapter "plan approval lineage is immutable") ;;
  reject ((negb (bool_decide (pn_status current = PS_Draft)) || negb (bool_decide (pn_status plan = PS_Draft)))
          && (negb (String.eqb (pn_content current) (pn_content plan))
              || negb (bool_decide (pn_steps current = pn_steps plan))))
    (StoreAdapter "plan content is immutable during lifecycle transitions") ;;
  plan ← next_revision plan;
  Ok (event_type, plan).
Definition update_plan (inputs : Inputs) (plan : PlanRecord) (actor : Actor) : op J PlanRecord :=
  _ <~ op_lift (validate_plan plan);;
  let stream := plan_stream (pn_id plan) in
  current <~ record_with_version stream PLAN_CREATED;;
  current <~ op_lift (ok_or current (NotFound ("plan " ++s pn_id plan)));;
  next <~ op_lift (plan_update current.1 plan);;
  _ <~ ej_append inputs (work_event stream current.2 next.1 actor (pn_session_id next.2)
    (record_payload next.2));;
  op_ret next.2.
Definition list_plans (fuel : nat) (session_id : option string) (status : option PlanStatus)
    (limit : N) : op J (list PlanRecord) :=
  list_records fuel "plan:" get_plan session_id
    (fun r => is_none_or status (fun s => bool_decide (pn_status r = s))) limit.

(** *** Goals *)

Definition create_goal (inputs : Inputs) (goal : GoalRecord) (actor : Actor) : op J GoalRecord :=
  _ <~ op_lift (validate_goal goal);;
  _ <~ op_lift (reject (negb (bool_decide (gl_status goal = GS_Active))
                        || negb (gl_iterations_completed goal =? 0)%N)
    (StoreAdapter "new goals must be active with zero completed iterations"));;
  _ <~ ej_append inputs (work_event (goal_stream (gl_id goal)) 0 GOAL_CREATED actor
    (gl_session_id goal) (record_payload goal));;
  op_ret goal.
Definition get_goal (id : string) : op J (option GoalRecord) := record (goal_stream id) GOAL_CREATED.

(** What consuming a plan into a goal requires of the three records. *)
Definition goal_consumes_plan (goal : GoalRecord) (current executed : PlanRecord) : bool :=
  bool_decide (gl_status goal = GS_Active) && (gl_iterations_completed goal =? 0)%N
  && bool_decide (pn_status current = PS_Approved) && String.eqb (pn_id executed) (pn_id current)
  && String.eqb (pn_session_id executed) (gl_session_id goal)
  && bool_decide (pn_status executed = PS_Executed)
  && String.eqb (pn_prompt executed) (pn_prompt current)
  && String.eqb (pn_content executed) (pn_content current)
  && bool_decide (pn_steps executed = pn_steps current)
  && String.eqb (pn_created_at executed) (pn_created_at current)
  && bool_decide (pn_approved_at executed = pn_approved_at current)
  && bool_decide (pn_executed_run_id executed = Some (gl_id goal)).
Definition create_goal_from_plan (inputs : Inputs) (goal : GoalRecord) (executed_plan : PlanRecord)
    (actor : Actor) : op J (GoalRecord * PlanRecord) :=
  _ <~ op_lift (validate_goal goal);;
  _ <~ op_lift (validate_plan executed_plan);;
  plan_id <~ op_lift (ok_or (gl_source_plan_id goal) (StoreAdapter "goal plan lineage is absent"));;
  let stream := plan_stream plan_id in
  current <~ record_with_version stream PLAN_CREATED;;
  current <~ op_lift (ok_or current (NotFound ("plan " ++s plan_id)));;
  _ <~ op_lift (require_plan_revision current.1 (pn_revision executed_plan));;
  _ <~ op_lift (reject (negb (goal_consumes_plan goal current.1 executed_plan))
    (StoreAdapter ("goal creation requires one unchanged approved same-session plan consumed "
                   ++s "by the goal id")));;
  existing <~ get_goal (gl_id goal);;
  _ <~ op_lift (reject (is_some existing) (Conflict (goal_stream (gl_id goal)) 0 1));;
  executed_plan <~ op_lift (next_revision executed_plan);;
  _ <~ ej_append_batch inputs
    [work_event stream current.2 PLAN_EXECUTED actor (pn_session_id executed_plan)
       (record_payload executed_plan);
     work_event (goal_stream (gl_id goal)) 0 GOAL_CREATED actor (gl_session_id goal)
       (record_payload goal)];;
  op_ret (goal, executed_plan).

Definition goal_update_valid (current goal : GoalRecord) : bool :=
  (bool_decide (gl_status current = GS_Active)
   || (bool_decide (gl_status goal = gl_status current)
       && String.eqb (gl_summary goal) (gl_summary current)
       && String.eqb (gl_blocked_reason goal) (gl_blocked_reason current)))
  && String.eqb (gl_session_id current) (gl_session_id goal)
  && String.eqb (gl_objective current) (gl_objective goal)
  && bool_decide (gl_source_plan_id current = gl_source_plan_id goal)
  && (gl_iteration_budget current =? gl_iteration_budget goal)%N
  && String.eqb (gl_created_at current) (gl_created_at goal)
  && (gl_iterations_completed goal =? gl_iterations_completed current)%N.
Definition update_goal (inputs : Inputs) (goal : GoalRecord) (actor : Actor) : op J GoalRecord :=
  _ <~ op_lift (validate_goal goal);;
  let stream := goal_stream (gl_id goal) in
  current <~ record_with_version stream GOAL_CREATED;;
  current <~ op_lift (ok_or current (NotFound ("goal " ++s gl_id goal)));;
  _ <~ op_lift (reject (negb (goal_update_valid current.1 goal))
    (StoreAdapter ("goal provenance, budget, terminal state, and iteration count are immutable "
                   ++s "during status updates")));;
  _ <~ ej_append inputs (work_event stream current.2 GOAL_UPDATED actor (gl_session_id goal)
    (record_payload goal));;
  op_ret goal.

Definition u16_checked_add (a b : N) : option N := if (a + b <=? 65535)%N then Some (a + b)%N else None.
Definition goal_iteration_valid (current goal : GoalRecord) (expected next : N) : bool :=
  (expected <? gl_iteration_budget current)%N && (gl_iterations_completed goal =? next)%N
  && String.eqb (gl_session_id current) (gl_session_id goal)
  && String.eqb (gl_objective current) (gl_objective goal)
  && bool_decide (gl_source_plan_id current = gl_source_plan_id goal)
  && bool_decide (gl_status current = gl_status goal)
  && String.eqb (gl_summary current) (gl_summary goal)
  && String.eqb (gl_blocked_reason current) (gl_blocked_reason goal)
  && (gl_iteration_budget current =? gl_iteration_budget goal)%N
  && String.eqb (gl_created_at current) (gl_created_at goal).
Definition record_goal_iteration (inputs : Inputs) (goal : GoalRecord)
    (expected_iterations_completed : N) (actor : Actor) : op J GoalRecord :=
  _ <~ op_lift (validate_goal goal);;
  let stream := goal_stream (gl_id goal) in
  current <~ record_with_version stream GOAL_CREATED;;
  current <~ op_lift (ok_or current (NotFound ("goal " ++s gl_id goal)));;
  _ <~ op_lift (reject (negb (gl_iterations_completed current.1 =? expected_iterations_completed)%N)
    (Conflict stream expected_iterations_completed (gl_iterations_completed current.1)));;
  next <~ op_lift (ok_or (u16_checked_add expected_iterations_completed 1)
    (StoreAdapter "goal iteration count overflow"));;
  _ <~ op_lift (reject (negb (goal_iteration_valid current.1 goal expected_iterations_completed next))
    (StoreAdapter ("goal iteration reservation requires one unchanged canonical goal with "
                   ++s "remaining budget")));;
  _ <~ ej_append inputs (work_event stream current.2 GOAL_UPDATED actor (gl_session_id goal)
    (record_payload goal));;
  op_ret goal.
Definition list_goals (fuel : nat) (session_id : option string) (status : option GoalStatus)
    (limit : N) : op J (list GoalRecord) :=
  list_records fuel "goal:" get_goal session_id
    (fun r => is_none_or status (fun s => bool_decide (gl_status r = s))) limit.

(** *** Child-agent jobs *)

Definition create_subagent_with_events (inputs : Inputs) (job : SubagentJob)
    (instruction_snapshot_id : option string) (actor : Actor) (events : list NewEvent)
    : op J SubagentJob :=
  _ <~ op_lift (validate_subagent job);;
  _ <~ op_lift (reject (negb (bool_decide (sj_status job = SJ_Queued)))
    (StoreAdapter "new subagents must be queued"));;
  _ <~ ej_append_batch inputs (events ++
    [work_event (subagent_stream (sj_id job)) 0 SUBAGENT_CREATED actor (sj_session_id job)
       (Object [("instruction_snapshot_id", match instruction_snapshot_id with
                                            | Some id => Str id | None => Null end);
                ("record", record_to_value job)])])%list;;
  op_ret job.
Definition create_subagent_with_instruction_snapshot (inputs : Inputs) (job : SubagentJob)
    (instruction_snapshot_id : option string) (actor : Actor) : op J SubagentJob :=
  create_subagent_with_events inputs job instruction_snapshot_id actor [].
Definition create_subagent (inputs : Inputs) (job : SubagentJob) (actor : Actor)
    : op J SubagentJob :=
  create_subagent_with_instruction_snapshot inputs job None actor.

Definition subagent_transition_valid (from to : SubagentStatus) : bool :=
  match from, to with
  | SJ_Queued, (SJ_Running | SJ_Cancelled) => true
  | SJ_Running, (SJ_Completed | SJ_Failed | SJ_Cancelled | SJ_Interrupted) => true
  | (SJ_Failed | SJ_Cancelled | SJ_Interrupted), SJ_Queued => true
  | _, _ => false
  end.
Definition subagent_update_valid (current job : SubagentJob) : bool :=
  subagent_transition_valid (sj_status current) (sj_status job)
  && String.eqb (sj_session_id current) (sj_session_id job)
  && String.eqb (sj_parent_run_id current) (sj_parent_run_id job)
  && String.eqb (sj_parent_call_id current) (sj_parent_call_id job)
  && String.eqb (sj_task current) (sj_task job)
  && String.eqb (sj_role current) (sj_role job)
  && bool_decide (sj_allowed_tools current = sj_allowed_tools job)
  && String.eqb (sj_child_session_id current) (sj_child_session_id job)
  && String.eqb (sj_created_at current) (sj_created_at job).
Definition update_subagent_with_events (inputs : Inputs) (job : SubagentJob) (actor : Actor)
    (events : list NewEvent) : op J SubagentJob :=
  _ <~ op_lift (validate_subagent job);;
  let stream := subagent_stream (sj_id job) in
  current <~ record_with_version stream SUBAGENT_CREATED;;
  current <~ op_lift (ok_or current (NotFound ("subagent " ++s sj_id job)));;
  _ <~ op_lift (reject (negb (subagent_update_valid current.1 job))
    (StoreAdapter "invalid subagent transition or changed immutable provenance"));;
  _ <~ ej_append_batch inputs (events ++
    [work_event stream current.2 SUBAGENT_UPDATED actor (sj_session_id job)
       (record_payload job)])%list;;
  op_ret job.
Definition update_subagent (inputs : Inputs) (job : SubagentJob) (actor : Actor) : op J SubagentJob :=
  update_subagent_with_events inputs job actor [].
Definition get_subagent (id : string) : op J (option SubagentJob) :=
  record (subagent_stream id) SUBAGENT_CREATED.

Definition subagent_instruction_snapshot_id (id : string) : op J (option string) :=
  let stream_id := subagent_stream id in
  events <~ ej_read_stream stream_id;;
  match head events with
  | None => op_ret None
  | Some created =>
      _ <~ op_lift (reject (negb (String.eqb (ev_event_type created) SUBAGENT_CREATED))
        (Verification ("work stream " ++s stream_id ++s " has no valid creation event")));;
      payload <~ ej_decrypt_payload created;;
      let reference := get_str "instruction_snapshot_id" payload in
      _ <~ op_lift (reject (negb (is_none_or reference (fun id => negb (invalid_snapshot_id id))))
        (Verification "subagent instruction snapshot reference is invalid"));;
      op_ret reference
  end.
Definition list_subagents (fuel : nat) (session_id : option string)
    (status : option SubagentStatus) (limit : N) : op J (list SubagentJob) :=
  list_records fuel "subagent:" get_subagent session_id
    (fun r => is_none_or status (fun s => bool_decide (sj_status r = s))) limit.

(** ** Recovery pages ([subagent_recovery.rs]) *)

(** What [serde] says of a reference that is neither absent, null nor a string. *)
Variable reference_error : value -> string.
Definition reference_from_value (v : value) : result string (option string) :=
  match v with
  | Null => Ok None
  | Str s => Ok (Some s)
  | v => Err (reference_error v)
  end.

(** The checks of one stream's identity; [previous] is the stream before it. *)
Definition recovery_stream (previous : option string) (stream : string)
    : result StoreError string :=
  id ← ok_or (strip_prefix "subagent:" stream ≫= fun id => if valid_id id then Some id else None)
    (Verification "invalid subagent recovery stream");
  reject (negb (is_none_or previous (fun previous => negb (str_leb stream previous))))
    (Verification "subagent recovery page is not ordered") ;;
  Ok id.
Definition recovery_entry (previous : option string) (stream : string)
    : op J (SubagentJob * option string) :=
  id <~ op_lift (recovery_stream previous stream);;
  created <~ ej_read_stream_from stream 0 1;;
  latest <~ ej_read_stream_backwards stream None 1;;
  created <~ op_lift (ok_or (head created ≫= fun event =>
      if String.eqb (ev_stream_id event) stream && (ev_stream_version event =? 1)%N
         && String.eqb (ev_event_type event) SUBAGENT_CREATED then Some event else None)
    (Verification "subagent creation is absent"));;
  latest <~ op_lift (ok_or (head latest ≫= fun event =>
      if String.eqb (ev_stream_id event) stream
         && (String.eqb (ev_event_type event) SUBAGENT_CREATED
             || String.eqb (ev_event_type event) SUBAGENT_UPDATED) then Some event else None)
    (Verification "subagent lifecycle is absent"));;
  payload <~ ej_decrypt_payload latest;;
  job <~ op_lift (
    value ← ok_or (get "record" payload) (Verification "subagent record is absent");
    map_err StoreAdapter (record_from_value value));;
  _ <~ op_lift (validate_subagent job);;
  _ <~ op_lift (reject (negb (String.eqb (sj_id job) id)) (Verification "subagent identity changed"));;
  payload <~ ej_decrypt_payload created;;
  reference <~ op_lift (map_err StoreAdapter
    (reference_from_value (default Null (get "instruction_snapshot_id" payload))));;
  _ <~ op_lift (reject (negb (is_none_or reference (fun id => negb (invalid_snapshot_id id))))
    (Verification "subagent instruction snapshot reference is invalid"));;
  op_ret (job, reference).
Fixpoint recovery_entries (previous : option string) (streams : list string)
    : op J (list (SubagentJob * option string)) :=
  match streams with
  | [] => op_ret []
  | stream :: streams =>
      entry <~ recovery_entry previous stream;;
      entries <~ recovery_entries (Some stream) streams;;
      op_ret (entry :: entries)
  end.
Definition page (after_id : option string) (limit : N) : op J (list (SubagentJob * option string)) :=
  _ <~ op_lift (reject (negb (is_none_or after_id valid_id))
    (StoreAdapter "invalid subagent recovery cursor"));;
  let limit := N.min limit MAX_LIST in
  if (limit =? 0)%N then op_ret []
  else
    let after := (fun id => "subagent:" ++s id) <$> after_id in
    streams <~ ej_list_stream_ids "subagent:" after limit;;
    _ <~ op_lift (reject (limit <? count streams)%N
      (Verification "subagent recovery page exceeds its bound"));;
    recovery_entries after streams.
End Work.
