(* ===== verification/WorkService.v ===== *)
(** * The work service

    [crates/colossus-work/src/service.rs]: the operations of the command line, the tools and
    embedded callers, over the work and session repositories.  The clock and the fresh
    identifiers of a call are its arguments; the attached [ChildCommunication] port is a
    record of operations; each of the eight attempts of a job transition has inputs of its
    own. *)

From S2P Require Import Prelude Json Contracts Boundary Platform JournalStore Journal Store.
From S2P Require Import SessionContracts Session WorkContracts Work.

Open Scope string_scope.
Open Scope op_scope.

(** [crates/colossus-contracts/src/communication.rs]. *)
Inductive AgentMessageFailure :=
| MF_Completed | MF_Cancelled | MF_Failed | MF_Interrupted | MF_BudgetExhausted | MF_Superseded.

(** [crates/colossus-ports/src/communication.rs]. *)
Record ChildCommunication (J : Type) := mkChildCommunication {
  cc_register_child : SubagentJob -> op J (list NewEvent);
  cc_close_child : SubagentJob -> AgentMessageFailure -> op J (list NewEvent);
  cc_child_committed : SubagentJob -> J -> J;
}.
Arguments cc_register_child {J} c job.
Arguments cc_close_child {J} c job reason.
Arguments cc_child_committed {J} c job.

Record CreateSubagentRequest := mkCreateSubagentRequest {
  rq_session_id : string;
  rq_parent_run_id : string;
  rq_parent_call_id : string;
  rq_task : string;
  rq_role : string;
  rq_allowed_tools : option (list string);
  rq_instruction_snapshot_id : option string;
}.

(** The fields of a new decision that the caller gives. *)
Record DecisionContent := mkDecisionContent {
  dc_title : string; dc_decision : string; dc_source : DecisionSource; dc_priority : DecisionPriority;
  dc_intent : string; dc_applies_when : string; dc_rationale : string; dc_source_excerpt : string;
}.
(** What a call takes from outside besides the journal's inputs. *)
Record Minted := mkMinted { fr_now : result StoreError string; fr_uuid : string }.

Section WorkService.
Context `{SessionCodec} {J} `{EventJournal J}.
Context `{RecordCodec TaskRecord, RecordCodec KeyDecision, RecordCodec PlanRecord,
  RecordCodec GoalRecord, RecordCodec SubagentJob}.
Context (communication : option (ChildCommunication J)).

Definition require_session (session_id : string) : op J unit :=
  session <~ get_session session_id;;
  _ <~ op_lift (ok_or session (NotFound ("session " ++s session_id)));;
  op_ret tt.
(** [.get_..(id)?.ok_or_else(|| NotFound)?]. *)
Definition require_record {A} (get_record : string -> op J (option A)) (kind id : string) : op J A :=
  r <~ get_record id;; op_lift (ok_or r (NotFound (kind ++s " " ++s id))).
Definition given {A} (value : option A) (current : A) : A := default current value.

(** ** Tasks *)

Definition service_create_task (inputs : Inputs) (fresh : Minted) (session_id title description : string)
    (status : TaskStatus) (actor : Actor) : op J TaskRecord :=
  _ <~ require_session session_id;;
  timestamp <~ op_lift (fr_now fresh);;
  create_task inputs (mkTaskRecord ("task-" ++s fr_uuid fresh) session_id (trim title) description
    status timestamp timestamp) actor.
Definition service_update_task (inputs : Inputs) (fresh : Minted) (id : string)
    (title description : option string) (status : option TaskStatus) (actor : Actor)
    : op J TaskRecord :=
  task <~ require_record get_task "task" id;;
  timestamp <~ op_lift (fr_now fresh);;
  update_task inputs (mkTaskRecord (tk_id task) (tk_session_id task)
    (given (trim <$> title) (tk_title task)) (given description (tk_description task))
    (given status (tk_status task)) (tk_created_at task) timestamp) actor.

(** ** Key decisions *)

Definition new_decision (fresh_id session_id timestamp : string) (c : DecisionContent)
    (goal_id plan_id supersedes : option string) : KeyDecision :=
  mkKeyDecision ("kd_" ++s fresh_id) session_id goal_id plan_id (dc_source c) DS_Active (dc_priority c)
    (trim (dc_title c)) (trim (dc_decision c)) (dc_intent c) (dc_applies_when c) (dc_rationale c)
    (dc_source_excerpt c) supersedes timestamp timestamp.
Definition service_create_decision (inputs : Inputs) (fresh : Minted) (session_id : string)
    (c : DecisionContent) (goal_id plan_id supersedes : option string) (actor : Actor)
    : op J KeyDecision :=
  _ <~ require_session session_id;;
  timestamp <~ op_lift (fr_now fresh);;
  create_decision inputs (new_decision (fr_uuid fresh) session_id timestamp c goal_id plan_id supersedes)
    actor.
Definition service_update_decision (inputs : Inputs) (fresh : Minted) (id : string)
    (title decision : option string) (priority : option DecisionPriority)
    (intent applies_when rationale source_excerpt : option string) (actor : Actor)
    : op J KeyDecision :=
  record <~ require_record get_decision "decision" id;;
  timestamp <~ op_lift (fr_now fresh);;
  update_decision inputs (mkKeyDecision (kd_id record) (kd_session_id record) (kd_goal_id record)
    (kd_plan_id record) (kd_source record) (kd_status record) (given priority (kd_priority record))
    (given (trim <$> title) (kd_title record)) (given (trim <$> decision) (kd_decision record))
    (given intent (kd_intent record)) (given applies_when (kd_applies_when record))
    (given rationale (kd_rationale record)) (given source_excerpt (kd_source_excerpt record))
    (kd_supersedes record) (kd_created_at record) timestamp) actor.
(** [now] is the clock of the repository's own step. *)
Definition service_supersede_decision (inputs : Inputs) (fresh : Minted) (now : result StoreError string)
    (id : string) (c : DecisionContent) (actor : Actor) : op J (KeyDecision * KeyDecision) :=
  old <~ require_record get_decision "decision" id;;
  timestamp <~ op_lift (fr_now fresh);;
  supersede_decision inputs now id (new_decision (fr_uuid fresh) (kd_session_id old) timestamp c
    (kd_goal_id old) (kd_plan_id old) (Some (kd_id old))) actor.

(** ** Plans *)

Definition service_create_plan (inputs : Inputs) (fresh : Minted) (session_id prompt content : string)
    (steps : list PlanStep) (actor : Actor) : op J PlanRecord :=
  _ <~ require_session session_id;;
  timestamp <~ op_lift (fr_now fresh);;
  create_plan inputs (mkPlanRecord ("plan-" ++s fr_uuid fresh) session_id (trim prompt) PS_Draft 1
    content steps timestamp timestamp None None) actor.
(** The plan at the revision the caller has seen. *)
Definition plan_at_revision (id : string) (expected_revision : N) (allowed : PlanRecord -> bool)
    (refusal : string) : op J PlanRecord :=
  plan <~ require_record get_plan "plan" id;;
  _ <~ op_lift (require_plan_revision plan expected_revision);;
  _ <~ op_lift (reject (negb (allowed plan)) (StoreAdapter refusal));;
  op_ret plan.
Definition update_draft_plan (inputs : Inputs) (fresh : Minted) (id : string) (expected_revision : N)
    (content : string) (steps : list PlanStep) (actor : Actor) : op J PlanRecord :=
  plan <~ plan_at_revision id expected_revision (fun p => bool_decide (pn_status p = PS_Draft))
    "only draft plans can be edited";;
  timestamp <~ op_lift (fr_now fresh);;
  update_plan inputs (mkPlanRecord (pn_id plan) (pn_session_id plan) (pn_prompt plan) (pn_status plan)
    (pn_revision plan) content steps (pn_created_at plan) timestamp (pn_approved_at plan)
    (pn_executed_run_id plan)) actor.
(** A plan with its lifecycle fields replaced. *)
Definition with_lifecycle (status : PlanStatus) (updated_at : string)
    (approved_at executed_run_id : option string) (p : PlanRecord) : PlanRecord :=
  mkPlanRecord (pn_id p) (pn_session_id p) (pn_prompt p) status (pn_revision p) (pn_content p)
    (pn_steps p) (pn_created_at p) updated_at approved_at executed_run_id.
Definition approve_plan_at_revision (inputs : Inputs) (fresh : Minted) (id : string)
    (expected_revision : N) (actor : Actor) : op J PlanRecord :=
  plan <~ plan_at_revision id expected_revision (fun p => bool_decide (pn_status p = PS_Draft))
    "only draft plans can be approved";;
  timestamp <~ op_lift (fr_now fresh);;
  update_plan inputs (with_lifecycle PS_Approved timestamp (Some timestamp) (pn_executed_run_id plan) plan)
    actor.
Definition approve_plan (inputs : Inputs) (fresh : Minted) (id : string) (actor : Actor)
    : op J PlanRecord :=
  plan <~ require_record get_plan "plan" id;;
  approve_plan_at_revision inputs fresh id (pn_revision plan) actor.
Definition execute_plan_at_revision (inputs : Inputs) (fresh : Minted) (id : string)
    (expected_revision : N) (run_id : string) (actor : Actor) : op J PlanRecord :=
  plan <~ plan_at_revision id expected_revision
    (fun p => bool_decide (pn_status p = PS_Approved) && valid_id run_id)
    "plan execution requires one approved plan and a valid run id";;
  timestamp <~ op_lift (fr_now fresh);;
  update_plan inputs (with_lifecycle PS_Executed timestamp (pn_approved_at plan) (Some run_id) plan) actor.
Definition execute_plan (inputs : Inputs) (fresh : Minted) (id run_id : string) (actor : Actor)
    : op J PlanRecord :=
  plan <~ require_record get_plan "plan" id;;
  execute_plan_at_revision inputs fresh id (pn_revision plan) run_id actor.
Definition discard_plan_at_revision (inputs : Inputs) (fresh : Minted) (id : string)
    (expected_revision : N) (actor : Actor) : op J PlanRecord :=
  plan <~ plan_at_revision id expected_revision
    (fun p => bool_decide (pn_status p = PS_Draft) || bool_decide (pn_status p = PS_Approved))
    "only draft or approved plans can be discarded";;
  timestamp <~ op_lift (fr_now fresh);;
  update_plan inputs (with_lifecycle PS_Discarded timestamp (pn_approved_at plan)
    (pn_executed_run_id plan) plan) actor.
Definition discard_plan (inputs : Inputs) (fresh : Minted) (id : string) (actor : Actor)
    : op J PlanRecord :=
  plan <~ require_record get_plan "plan" id;;
  discard_plan_at_revision inputs fresh id (pn_revision plan) actor.

(** ** Goals *)

(** [.map(..).transpose()?]. *)
Definition source_revision (source_plan_id : option string) : op J (option N) :=
  match source_plan_id with
  | None => op_ret None
  | Some plan_id => plan <~ require_record get_plan "plan" plan_id;; op_ret (Some (pn_revision plan))
  end.
(** [now] is read again when the plan is consumed. *)
Definition create_goal_with_plan_at_revision (inputs : Inputs) (fresh : Minted)
    (now : result StoreError string) (session_id objective : string) (iteration_budget : N)
    (source_plan_id : option string) (source_plan_revision : option N) (actor : Actor)
    : op J (GoalRecord * option PlanRecord) :=
  _ <~ require_session session_id;;
  _ <~ op_lift (reject (negb (Bool.eqb (is_some source_plan_id) (is_some source_plan_revision)))
    (StoreAdapter "goal plan lineage requires both a plan id and revision"));;
  timestamp <~ op_lift (fr_now fresh);;
  let goal := mkGoalRecord ("goal-" ++s fr_uuid fresh) session_id (trim objective) source_plan_id
    GS_Active "" "" iteration_budget 0 timestamp timestamp in
  match source_plan_id with
  | None => goal <~ create_goal inputs goal actor;; op_ret (goal, None)
  | Some plan_id =>
      plan <~ require_record get_plan "plan" plan_id;;
      _ <~ op_lift (require_plan_revision plan (default 0%N source_plan_revision));;
      _ <~ op_lift (reject (negb (String.eqb (pn_session_id plan) session_id)
                            || negb (bool_decide (pn_status plan = PS_Approved)))
        (StoreAdapter "goal plan lineage requires an approved same-session plan"));;
      consumed_at <~ op_lift now;;
      r <~ create_goal_from_plan inputs goal
        (with_lifecycle PS_Executed consumed_at (pn_approved_at plan) (Some (gl_id goal)) plan) actor;;
      op_ret (r.1, Some r.2)
  end.
Definition create_goal_at_plan_revision (inputs : Inputs) (fresh : Minted)
    (now : result StoreError string) (session_id objective : string) (iteration_budget : N)
    (source_plan_id : option string) (source_plan_revision : option N) (actor : Actor)
    : op J GoalRecord :=
  r <~ create_goal_with_plan_at_revision inputs fresh now session_id objective iteration_budget
    source_plan_id source_plan_revision actor;;
  op_ret r.1.
Definition service_create_goal (inputs : Inputs) (fresh : Minted) (now : result StoreError string)
    (session_id objective : string) (iteration_budget : N) (source_plan_id : option string)
    (actor : Actor) : op J GoalRecord :=
  source_plan_revision <~ source_revision source_plan_id;;
  create_goal_at_plan_revision inputs fresh now session_id objective iteration_budget source_plan_id
    source_plan_revision actor.

Definition u16_saturating_add (a b : N) : N := N.min (a + b) 65535.
Definition service_record_goal_iteration (inputs : Inputs) (fresh : Minted) (id : string)
    (actor : Actor) : op J GoalRecord :=
  goal <~ require_record get_goal "goal" id;;
  _ <~ op_lift (reject (gl_iteration_budget goal <=? gl_iterations_completed goal)%N
    (StoreAdapter "only a goal with remaining budget can record an iteration"));;
  timestamp <~ op_lift (fr_now fresh);;
  record_goal_iteration inputs (mkGoalRecord (gl_id goal) (gl_session_id goal) (gl_objective goal)
    (gl_source_plan_id goal) (gl_status goal) (gl_summary goal) (gl_blocked_reason goal)
    (gl_iteration_budget goal) (u16_saturating_add (gl_iterations_completed goal) 1)
    (gl_created_at goal) timestamp) (gl_iterations_completed goal) actor.
Definition update_goal_status (inputs : Inputs) (fresh : Minted) (id : string) (status : GoalStatus)
    (summary blocked_reason : string) (actor : Actor) : op J GoalRecord :=
  goal <~ require_record get_goal "goal" id;;
  _ <~ op_lift (reject (negb (bool_decide (gl_status goal = GS_Active)))
    (StoreAdapter "terminal goals cannot be updated"));;
  timestamp <~ op_lift (fr_now fresh);;
  update_goal inputs (mkGoalRecord (gl_id goal) (gl_session_id goal) (gl_objective goal)
    (gl_source_plan_id goal) status summary
    (if bool_decide (status = GS_Blocked) then blocked_reason else "") (gl_iteration_budget goal)
    (gl_iterations_completed goal) (gl_created_at goal) timestamp) actor.

(** ** Child-agent jobs *)

(** Eight attempts; only a version conflict is tried again.  Attempt [n] has the inputs
    [inputs n], and stages its own events. *)
Definition is_conflict (e : StoreError) : bool := match e with Conflict _ _ _ => true | _ => false end.
Definition notify_committed (job : SubagentJob) (j : J) : J :=
  match communication with Some c => cc_child_committed c job j | None => j end.
Fixpoint commit_attempts (attempts : nat) (n : nat) (events : op J (list NewEvent))
    (write : nat -> list NewEvent -> op J SubagentJob) (contended : string) : op J SubagentJob :=
  match attempts with
  | O => op_lift (Err (StoreAdapter contended))
  | S attempts =>
      staged <~ events;;
      fun j =>
        match write n staged j with
        | (Ok job, j') => (Ok job, notify_committed job j')
        | (Err e, j') =>
            if is_conflict e then commit_attempts attempts (S n) events write contended j'
            else (Err e, j')
        end
  end.
Definition close_reason (status : SubagentStatus) : AgentMessageFailure :=
  match status with
  | SJ_Cancelled => MF_Cancelled
  | SJ_Interrupted => MF_Interrupted
  | SJ_Completed => MF_Completed
  | _ => MF_Failed
  end.
Definition staged_events (job : SubagentJob) : op J (list NewEvent) :=
  match communication with
  | None => op_ret []
  | Some c =>
      match sj_status job with
      | SJ_Queued => cc_register_child c job
      | SJ_Running => op_ret []
      | status => cc_close_child c job (close_reason status)
      end
  end.
Definition commit_subagent (inputs : nat -> Inputs) (job : SubagentJob) (actor : Actor)
    : op J SubagentJob :=
  commit_attempts 8 0 (staged_events job)
    (fun n events => update_subagent_with_events (inputs n) job actor events)
    "child communication transition remained contended".

(** The child's session is created before the job; [inputs 0] are the inputs of that, and
    [child_id] its identifier. *)
Definition service_create_subagent (inputs : nat -> Inputs) (fresh : Minted) (child_session_id : string)
    (request : CreateSubagentRequest) (actor : Actor) : op J SubagentJob :=
  _ <~ require_session (rq_session_id request);;
  _ <~ op_lift (reject (negb (is_none_or (rq_instruction_snapshot_id request)
                                (fun id => negb (invalid_snapshot_id id))))
    (StoreAdapter "invalid subagent instruction snapshot reference"));;
  let id := "agent-" ++s fr_uuid fresh in
  _ <~ create_session (inputs 0) child_session_id (Some ("subagent " ++s id)) actor;;
  timestamp <~ op_lift (fr_now fresh);;
  let job := mkSubagentJob id (rq_session_id request) (rq_parent_run_id request)
    (rq_parent_call_id request) (trim (rq_task request)) (rq_role request) (rq_allowed_tools request)
    SJ_Queued child_session_id None "" "" timestamp timestamp None None in
  commit_attempts 8 1
    (match communication with Some c => cc_register_child c job | None => op_ret [] end)
    (fun n events => create_subagent_with_events (inputs n) job
       (rq_instruction_snapshot_id request) actor events)
    "child registration remained contended".

Definition require_subagent (id : string) : op J SubagentJob := require_record get_subagent "subagent" id.
(** A job with its status and results replaced. *)
Definition with_progress (status : SubagentStatus) (child_run_id : option string)
    (final_output error updated_at : string) (started_at completed_at : option string)
    (j : SubagentJob) : SubagentJob :=
  mkSubagentJob (sj_id j) (sj_session_id j) (sj_parent_run_id j) (sj_parent_call_id j) (sj_task j)
    (sj_role j) (sj_allowed_tools j) status (sj_child_session_id j) child_run_id final_output error
    (sj_created_at j) updated_at started_at completed_at.
Definition start_subagent (inputs : nat -> Inputs) (fresh : Minted) (id : string) (actor : Actor)
    : op J SubagentJob :=
  job <~ require_subagent id;;
  _ <~ op_lift (reject (negb (bool_decide (sj_status job = SJ_Queued)))
    (StoreAdapter "only queued subagents can start"));;
  timestamp <~ op_lift (fr_now fresh);;
  commit_subagent inputs (with_progress SJ_Running (sj_child_run_id job) (sj_final_output job)
    (sj_error job) timestamp (Some timestamp) (sj_completed_at job) job) actor.
Definition complete_subagent (inputs : nat -> Inputs) (fresh : Minted) (id child_run_id output : string)
    (actor : Actor) : op J SubagentJob :=
  job <~ require_subagent id;;
  _ <~ op_lift (reject (negb (bool_decide (sj_status job = SJ_Running)))
    (StoreAdapter "only running subagents can complete"));;
  timestamp <~ op_lift (fr_now fresh);;
  commit_subagent inputs (with_progress SJ_Completed (Some child_run_id) output "" timestamp
    (sj_started_at job) (Some timestamp) job) actor.
Definition stop_allowed (from to : SubagentStatus) : bool :=
  match to with
  | SJ_Cancelled => bool_decide (from = SJ_Queued) || bool_decide (from = SJ_Running)
  | SJ_Failed | SJ_Interrupted => bool_decide (from = SJ_Running)
  | _ => false
  end.
Definition stop_subagent (inputs : nat -> Inputs) (fresh : Minted) (id : string)
    (status : SubagentStatus) (error : string) (actor : Actor) : op J SubagentJob :=
  job <~ require_subagent id;;
  _ <~ op_lift (reject (negb (stop_allowed (sj_status job) status))
    (StoreAdapter "invalid subagent terminal transition"));;
  timestamp <~ op_lift (fr_now fresh);;
  commit_subagent inputs (with_progress status (sj_child_run_id job) (sj_final_output job) error
    timestamp (sj_started_at job) (Some timestamp) job) actor.
Definition requeue_subagent (inputs : nat -> Inputs) (fresh : Minted) (id : string) (actor : Actor)
    : op J SubagentJob :=
  job <~ require_subagent id;;
  _ <~ op_lift (reject (negb (bool_decide (sj_status job = SJ_Failed)
                              || bool_decide (sj_status job = SJ_Cancelled)
                              || bool_decide (sj_status job = SJ_Interrupted)))
    (StoreAdapter "only failed, cancelled, or interrupted subagents can be requeued"));;
  timestamp <~ op_lift (fr_now fresh);;
  commit_subagent inputs (with_progress SJ_Queued None "" "" timestamp None None job) actor.
End WorkService.
