(* ===== verification/Communication.v ===== *)
(** * Agent communication

    [crates/colossus-communication/src/]: the durable inboxes of executions, in the order
    of [repository.rs], [participants.rs], [inbox.rs] and [service.rs].  Each attempt of an
    execution is a participant; a root execution and its children form a scope; messages
    are admitted to a participant's inbox, included in a turn of its session, or closed
    with it.  The state is the journal, the live controls of the process and a supply of
    clock readings and identifiers. *)

From S2P Require Import Prelude Json Contracts Boundary Platform JournalStore Journal Store.
From S2P Require Import SessionContracts Session WorkContracts Work WorkService.
From stdpp Require Import pretty.

Open Scope string_scope.
Open Scope op_scope.

(** ** Contracts ([colossus-contracts/src/communication.rs]) *)

#[export] Instance AgentMessageFailure_eq_dec : EqDecision AgentMessageFailure.
Proof. solve_decision. Defined.
#[export] Instance AgentMessageSender_eq_dec : EqDecision AgentMessageSender.
Proof. solve_decision. Defined.
Definition MAX_AGENT_MESSAGE_BYTES : N := 16 * 1024.
Definition MAX_AGENT_INBOX_MESSAGES : N := 64.
Definition MAX_AGENT_INBOX_BYTES : N := 256 * 1024.

Record AgentParticipant := mkAgentParticipant {
  ap_id : string;
  ap_root_run_id : string;
  ap_owner : Actor;
  ap_session_id : string;
  ap_run_id : option string;
  ap_parent_id : option string;
  ap_subagent_id : option string;
  ap_generation : N;
  ap_open : bool;
  ap_closed_reason : option AgentMessageFailure;
  ap_pending_messages : N;
  ap_pending_bytes : N;
  ap_created_at : string;
}.
Inductive AgentMessageReceipt :=
| Accepted
| IncludedInTurn (run_id : string) (turn : N) (request_hash : string)
| NotDelivered (reason : AgentMessageFailure).
#[export] Instance AgentMessageReceipt_eq_dec : EqDecision AgentMessageReceipt.
Proof. solve_decision. Defined.
Record AgentMessage := mkAgentMessage {
  am_id : string;
  am_root_run_id : string;
  am_sender : AgentMessageSender;
  am_recipient_id : string;
  am_sequence : N;
  am_text : string;
  am_reply_to : option string;
  am_accepted_at : string;
  am_receipt : AgentMessageReceipt;
}.
#[export] Instance AgentMessage_eq_dec : EqDecision AgentMessage.
Proof. solve_decision. Defined.
Record SendAgentMessage := mkSendAgentMessage {
  sr_recipient_id : string;
  sr_text : string;
  sr_idempotency_key : string;
  sr_reply_to : option string;
}.
Record AgentMessagePage := mkAgentMessagePage {
  pg_messages : list AgentMessage;
  pg_next_sequence : N;
  pg_has_more : bool;
}.
Record AgentCommunicationUpdate := mkAgentCommunicationUpdate {
  cu_sequence : N;
  cu_message : AgentMessage;
}.
(** [colossus-ports/src/communication.rs]. *)
Record AgentInboxBatch := mkAgentInboxBatch {
  ib_participant_id : string;
  ib_version : N;
  ib_messages : list AgentMessage;
}.

(** ** Records ([repository.rs]) *)

Record PendingInput := mkPendingInput { pi_id : string; pi_bytes : N }.
Record ParticipantState := mkParticipantState {
  pt_participant : AgentParticipant;
  pt_pending : list PendingInput;
  pt_accepted : N;
  pt_initial_origin : option AgentMessageOrigin;
}.
Record ScopeState := mkScopeState {
  sc_root_run_id : string;
  sc_owner : Actor;
  sc_participants : list string;
  sc_accepted : N;
  sc_pending_bytes : N;
}.
Record AttemptIndex := mkAttemptIndex { ai_participant_id : string; ai_generation : N }.
Record MessageClaim := mkMessageClaim { mc_fingerprint : string; mc_message_id : string }.

(** What the service does with [serde_json::to_vec]. *)
Class CommunicationCodec := {
  sender_to_vec : Actor -> AgentMessageSender -> result string string;
  claim_to_vec : string -> string -> result string string;
  request_to_vec : SendAgentMessage -> result string string;
}.

(** A shared cancellation flag, by its identity. *)
Definition RunControl := N.
(** [CommunicationService], with what its process holds: the live controls, the flags that
    have been set, the wake generation, and the clock readings and identifiers it will
    take. *)
Record CommunicationService (J : Type) := mkCommunicationService {
  cs_journal : J;
  cs_controls : gmap string RunControl;
  cs_cancelled : gset RunControl;
  cs_changed : N;
  cs_supply : nat -> Minted;
  cs_taken : nat;
}.
Arguments mkCommunicationService {J}.
Arguments cs_journal {J} c.
Arguments cs_controls {J} c.
Arguments cs_cancelled {J} c.
Arguments cs_changed {J} c.
Arguments cs_supply {J} c.
Arguments cs_taken {J} c.

Definition with_journal {J} (j : J) (s : CommunicationService J) : CommunicationService J :=
  mkCommunicationService j (cs_controls s) (cs_cancelled s) (cs_changed s) (cs_supply s) (cs_taken s).
Definition with_controls {J} (controls : gmap string RunControl) (s : CommunicationService J) :=
  mkCommunicationService (cs_journal s) controls (cs_cancelled s) (cs_changed s) (cs_supply s) (cs_taken s).
(** An operation of the journal. *)
Definition on_journal {J A} (m : op J A) : op (CommunicationService J) A := fun s =>
  let '(r, j) := m (cs_journal s) in (r, with_journal j s).
#[export] Instance communication_journal {J} `{EventJournal J} : EventJournal (CommunicationService J) := {|
  ej_append inputs event := on_journal (ej_append inputs event);
  ej_append_batch inputs events := on_journal (ej_append_batch inputs events);
  ej_read_stream id := on_journal (ej_read_stream id);
  ej_read_stream_from id after limit := on_journal (ej_read_stream_from id after limit);
  ej_read_stream_backwards id before limit := on_journal (ej_read_stream_backwards id before limit);
  ej_list_stream_ids prefix after limit := on_journal (ej_list_stream_ids prefix after limit);
  ej_decrypt_payload e := on_journal (ej_decrypt_payload e);
|}.

(** [CommunicationError]. *)
Inductive CommunicationError :=
| Forbidden | Invalid | Closed | Full | IdempotencyConflict | Store (e : StoreError).
Definition cop (S A : Type) : Type := S -> result CommunicationError A * S.
Definition cop_ret {S A} (a : A) : cop S A := fun s => (Ok a, s).
Definition cop_lift {S A} (r : result CommunicationError A) : cop S A := fun s => (r, s).
Definition cop_bind {S A B} (m : cop S A) (f : A -> cop S B) : cop S B := fun s =>
  let '(r, s') := m s in match r with Ok a => f a s' | Err e => (Err e, s') end.
(** [?] on a [StoreError]. *)
Definition stored {S A} (m : op S A) : cop S A := fun s =>
  let '(r, s') := m s in (map_err Store r, s').
Declare Scope cop_scope.
Delimit Scope cop_scope with cop.
Notation "x <- m ;; k" := (cop_bind m (fun x => k))
  (at level 100, m at next level, right associativity) : cop_scope.

(** [b"-_: .".contains(&byte)], and no space. *)
Definition token_byte (c : ascii) : bool :=
  is_ascii_alphanumeric c || ascii_eqb c "-" || ascii_eqb c "_" || ascii_eqb c ":" || ascii_eqb c " "
  || ascii_eqb c ".".
Definition valid_token (s : string) : bool :=
  negb (is_empty s) && (slen s <=? 128)%N && all_bytes token_byte s && negb (contains_byte " " s).
Definition is_ascii_hexdigit (c : ascii) : bool :=
  is_ascii_digit c || in_range 65 70 c || in_range 97 102 c.
(** [checked_sub]. *)
Definition checked_sub (a b : N) : option N := if (b <=? a)%N then Some (a - b)%N else None.

Section Communication.
Context `{Externals, SessionCodec, CommunicationCodec}.
Context `{RecordCodec ParticipantState, RecordCodec ScopeState, RecordCodec AttemptIndex,
  RecordCodec MessageClaim, RecordCodec AgentMessage}.
Context {J} `{EventJournal J}.
#[local] Abbreviation C := (CommunicationService J).

(** ** Storage ([repository.rs]) *)

Definition root_stream (id : string) : string := "agent-scope:" ++s sha256_hex id.
Definition participant_stream (id : string) : string := "agent-participant:" ++s id.
Definition message_stream (id : string) : string := "agent-message:" ++s id.
Definition inbox_stream (id : string) : string := "agent-inbox:" ++s id.
Definition run_stream (id : string) : string := "agent-run:" ++s sha256_hex id.
Definition job_stream (id : string) : string := "agent-job:" ++s sha256_hex id.
Definition feed_stream (id : string) : string := "agent-feed:" ++s sha256_hex id.

(** The next clock reading and identifier. *)
Definition mint : op C Minted := fun s =>
  (Ok (cs_supply s (cs_taken s)),
   mkCommunicationService (cs_journal s) (cs_controls s) (cs_cancelled s) (cs_changed s) (cs_supply s)
     (S (cs_taken s))).
Definition minted_at (minted : Minted) : result StoreError string :=
  map_err (fun _ => StoreAdapter "communication timestamp unavailable") (fr_now minted).
(** [wrapping_add]. *)
Definition wake : op C unit := fun s =>
  (Ok tt, mkCommunicationService (cs_journal s) (cs_controls s) (cs_cancelled s)
            ((cs_changed s + 1) mod 18446744073709551616) (cs_supply s) (cs_taken s)).

Definition event_of (stream : string) (version : N) (kind : string) (owner : Actor)
    (context : ExecutionContext) (payload : value) : NewEvent :=
  mkNewEvent 1 stream version EC_Domain ("agent.communication." ++s kind ++s ".v1") owner context payload.
Definition event {A} `{RecordCodec A} (stream : string) (version : N) (kind : string) (owner : Actor)
    (context : ExecutionContext) (record : A) : NewEvent :=
  event_of stream version kind owner context (record_to_value record).

Definition load {A} `{RecordCodec A} (stream : string) : op C (option (A * N)) :=
  envelopes <~ ej_read_stream_backwards stream None 1;;
  match head envelopes with
  | None => op_ret None
  | Some envelope =>
      _ <~ op_lift (reject (negb (ev_event_version envelope =? 1)%N
                            || negb (starts_with (ev_event_type envelope) "agent.communication."))
        (Verification "invalid communication event"));;
      v <~ ej_decrypt_payload envelope;;
      record <~ op_lift (map_err (fun _ => Verification "invalid communication record") (record_from_value v));;
      op_ret (Some (record, ev_stream_version envelope))
  end.
Definition participant (id : string) : op C (ParticipantState * N) :=
  r <~ load (participant_stream id);; op_lift (ok_or r (NotFound "agent participant")).
Definition participant_for_run (id : string) : op C (option (ParticipantState * N)) :=
  index <~ load (A:=AttemptIndex) (run_stream id);;
  match index with
  | None => op_ret None
  | Some (index, _) => r <~ participant (ai_participant_id index);; op_ret (Some r)
  end.
Definition scope (id : string) : op C (ScopeState * N) :=
  r <~ load (root_stream id);; op_lift (ok_or r (NotFound "agent communication scope")).
Definition version (stream : string) : op C N :=
  envelopes <~ ej_read_stream_backwards stream None 1;;
  op_ret (match head envelopes with Some e => ev_stream_version e | None => 0%N end).

(** ** Participants ([participants.rs]) *)

Definition MAX_SCOPE_PARTICIPANTS : N := 128.

(** A new participant, open and with nothing pending. *)
Definition new_participant (id root_run_id : string) (owner : Actor) (session_id : string)
    (parent_id subagent_id : option string) (generation : N) (created_at : string) : AgentParticipant :=
  mkAgentParticipant id root_run_id owner session_id None parent_id subagent_id generation true None 0 0
    created_at.
Definition with_run_id (run_id : string) (s : ParticipantState) : ParticipantState :=
  let p := pt_participant s in
  mkParticipantState (mkAgentParticipant (ap_id p) (ap_root_run_id p) (ap_owner p) (ap_session_id p)
      (Some run_id) (ap_parent_id p) (ap_subagent_id p) (ap_generation p) (ap_open p)
      (ap_closed_reason p) (ap_pending_messages p) (ap_pending_bytes p) (ap_created_at p))
    (pt_pending s) (pt_accepted s) (pt_initial_origin s).

Definition stage_root_with_peer_input (context : ExecutionContext) (owner : Actor)
    (peer_message_id : option string) : op C (list NewEvent) :=
  run_id <~ op_lift (ok_or (ctx_run_id context) (StoreAdapter "communication requires an execution"));;
  session_id <~ op_lift (ok_or (ctx_session_id context) (StoreAdapter "communication requires a session"));;
  minted <~ mint;;
  let id := fr_uuid minted in
  let initial_origin := (fun message_id =>
    mkAgentMessageOrigin message_id (ApplicationSender (actor_id owner)) id) <$> peer_message_id in
  created_at <~ op_lift (minted_at minted);;
  let participant := new_participant id run_id owner session_id None None 1 created_at in
  op_ret [event (root_stream run_id) 0 "scope" owner context (mkScopeState run_id owner [id] 0 0);
          event (participant_stream id) 0 "participant" owner context
            (mkParticipantState participant [] 0 initial_origin);
          event (run_stream run_id) 0 "run" owner context (mkAttemptIndex id 1)].
Definition stage_root (context : ExecutionContext) (owner : Actor) : op C (list NewEvent) :=
  stage_root_with_peer_input context owner None.

(** The attempt cannot be bound by this context. *)
Definition unavailable (state : ParticipantState) (context : ExecutionContext) (owner : Actor) : bool :=
  negb (bool_decide (ap_owner (pt_participant state) = owner))
  || negb (String.eqb (ap_session_id (pt_participant state)) (default "" (ctx_session_id context)))
  || negb (ap_open (pt_participant state)) || is_some (ap_run_id (pt_participant state)).
Definition register_root (allocate bind : Inputs) (context : ExecutionContext) (owner : Actor)
    : op C unit :=
  run_id <~ op_lift (ok_or (ctx_run_id context) (StoreAdapter "communication requires an execution"));;
  existing <~ participant_for_run run_id;;
  _ <~ (if is_none existing then
          events <~ stage_root context owner;; _ <~ ej_append_batch allocate events;; op_ret tt
        else op_ret tt);;
  registered <~ participant_for_run run_id;;
  registered <~ op_lift (ok_or registered (Verification "root inbox missing"));;
  _ <~ op_lift (reject (unavailable registered.1 context owner)
    (StoreAdapter "root communication attempt is unavailable"));;
  let state := with_run_id run_id registered.1 in
  _ <~ ej_append bind (event (participant_stream (ap_id (pt_participant state))) registered.2 "bound" owner
         context state);;
  wake.

(** ** Inboxes ([inbox.rs]) *)

Definition with_receipt (receipt : AgentMessageReceipt) (m : AgentMessage) : AgentMessage :=
  mkAgentMessage (am_id m) (am_root_run_id m) (am_sender m) (am_recipient_id m) (am_sequence m) (am_text m)
    (am_reply_to m) (am_accepted_at m) receipt.
(** The two events of a receipt: the message, and the scope's feed. *)
Definition receipt_events (scope : ScopeState) (context : ExecutionContext) (message : AgentMessage)
    (message_version feed_version : N) : list NewEvent :=
  [event (message_stream (am_id message)) message_version "receipt" (sc_owner scope) context message;
   event (feed_stream (sc_root_run_id scope)) feed_version "update" (sc_owner scope) context message].
(** [(feed_start..).zip(&state.pending)]. *)
Fixpoint close_messages (scope : ScopeState) (context : ExecutionContext) (reason : AgentMessageFailure)
    (feed_version : N) (pending : list PendingInput) : op C (list NewEvent) :=
  match pending with
  | [] => op_ret []
  | input :: pending =>
      r <~ load (message_stream (pi_id input));;
      r <~ op_lift (ok_or r (Verification "missing pending agent message"));;
      let message := with_receipt (NotDelivered reason) r.1 in
      events <~ close_messages scope context reason (feed_version + 1) pending;;
      op_ret (receipt_events scope context message r.2 feed_version ++ events)%list
  end.
Definition with_pending_bytes (bytes : N) (s : ScopeState) : ScopeState :=
  mkScopeState (sc_root_run_id s) (sc_owner s) (sc_participants s) (sc_accepted s) bytes.
Definition closed (reason : AgentMessageFailure) (s : ParticipantState) : ParticipantState :=
  let p := pt_participant s in
  mkParticipantState (mkAgentParticipant (ap_id p) (ap_root_run_id p) (ap_owner p) (ap_session_id p)
      (ap_run_id p) (ap_parent_id p) (ap_subagent_id p) (ap_generation p) false (Some reason) 0 0
      (ap_created_at p)) [] (pt_accepted s) (pt_initial_origin s).
Definition close_events (id : string) (reason : AgentMessageFailure) : op C (list NewEvent) :=
  loaded <~ participant id;;
  let '(state, version_read) := loaded in
  if negb (ap_open (pt_participant state)) then op_ret []
  else
    let p := pt_participant state in
    scoped <~ scope (ap_root_run_id p);;
    let '(scope, scope_version) := scoped in
    let context := mkExecutionContext None (ap_root_run_id p) None (Some (ap_session_id p)) (ap_run_id p)
      None None None None (ap_subagent_id p) [] [] [] None None None None in
    feed_start <~ version (feed_stream (sc_root_run_id scope));;
    events <~ close_messages scope context reason feed_start (pt_pending state);;
    bytes <~ op_lift (ok_or (checked_sub (sc_pending_bytes scope) (ap_pending_bytes p))
      (Verification "invalid communication byte accounting"));;
    op_ret (events ++
      [event (participant_stream id) version_read "closed" (sc_owner scope) context (closed reason state);
       event (root_stream (sc_root_run_id scope)) scope_version "scope" (sc_owner scope) context
         (with_pending_bytes bytes scope)])%list.

Definition initial_origin (context : ExecutionContext) : op C (option AgentMessageOrigin) :=
  match ctx_run_id context with
  | None => op_ret None
  | Some id => r <~ participant_for_run id;; op_ret (r ≫= fun x => pt_initial_origin x.1)
  end.
Definition MAX_LIVE_EXECUTIONS : nat := 1024.
Definition insert_control (run_id : string) (control : RunControl) : op C unit := fun s =>
  if (MAX_LIVE_EXECUTIONS <=? size (cs_controls s))%nat
  then (Err (StoreAdapter "communication live execution limit reached"), s)
  else wake (with_controls (<[run_id := control]> (cs_controls s)) s).
Definition begin_run (allocate bind : Inputs) (context : ExecutionContext) (owner : Actor)
    (control : RunControl) : op C unit :=
  run_id <~ op_lift (ok_or (ctx_run_id context) (StoreAdapter "communication execution absent"));;
  match ctx_subagent_id context with
  | Some job =>
      index <~ load (A:=AttemptIndex) (job_stream job);;
      match index with
      | None => op_ret tt
      | Some (index, _) =>
          loaded <~ participant (ai_participant_id index);;
          _ <~ op_lift (reject (unavailable loaded.1 context owner)
            (StoreAdapter "child communication attempt is unavailable"));;
          let state := with_run_id run_id loaded.1 in
          _ <~ ej_append_batch bind
            [event (participant_stream (ap_id (pt_participant state))) loaded.2 "bound" owner context state;
             event (run_stream run_id) 0 "run" owner context index];;
          insert_control run_id control
      end
  | None => _ <~ register_root allocate bind context owner;; insert_control run_id control
  end.

(** The loop of [prepare]: at most [limit] messages, within 32 KiB. *)
Fixpoint prepare_messages (pending : list PendingInput) (bytes : N) : op C (list AgentMessage) :=
  match pending with
  | [] => op_ret []
  | input :: pending =>
      if (32 * 1024 <? bytes + pi_bytes input)%N then op_ret []
      else
        r <~ load (message_stream (pi_id input));;
        r <~ op_lift (ok_or r (Verification "missing pending agent message"));;
        _ <~ op_lift (reject (negb (bool_decide (am_receipt r.1 = Accepted)))
          (Verification "invalid pending agent receipt"));;
        messages <~ prepare_messages pending (bytes + pi_bytes input);;
        op_ret (r.1 :: messages)
  end.
Definition prepare (context : ExecutionContext) : op C (option AgentInboxBatch) :=
  found <~ match ctx_run_id context with
           | None => op_ret None
           | Some id => participant_for_run id
           end;;
  match found with
  | None => op_ret None
  | Some (state, version) =>
      if negb (ap_open (pt_participant state)) || bool_decide (length (pt_pending state) = 0) then op_ret None
      else
        messages <~ prepare_messages (take 8 (pt_pending state)) 0;;
        op_ret (Some (mkAgentInboxBatch (ap_id (pt_participant state)) version messages))
  end.

Definition sender_id (sender : AgentMessageSender) : string :=
  match sender with Participant id | ApplicationSender id => id end.
Definition agent_input_message (m : AgentMessage) : ModelMessage :=
  mkModelMessage (Some (mkAgentMessageOrigin (am_id m) (am_sender m) (am_recipient_id m))) MR_User
    (Text ("[Peer input; message " ++s am_id m ++s "; sender " ++s sender_id (am_sender m)
           ++s "; recipient " ++s am_recipient_id m ++s "]" ++s String "010" (am_text m))) None [].
Definition agent_input_messages (batch : AgentInboxBatch) : list ModelMessage :=
  agent_input_message <$> ib_messages batch.

Definition valid_inclusion (state : ParticipantState) (batch : AgentInboxBatch) (context : ExecutionContext)
    (run_id : string) (turn : N) (request_hash : string) : bool :=
  ap_open (pt_participant state)
  && bool_decide (ap_run_id (pt_participant state) = Some run_id)
  && bool_decide (ctx_session_id context = Some (ap_session_id (pt_participant state)))
  && negb (turn =? 0)%N
  && (slen request_hash =? 64)%N && all_bytes is_ascii_hexdigit request_hash
  && negb (bool_decide (length (ib_messages batch) = 0)) && (count (ib_messages batch) <=? 8)%N
  && (count (ib_messages batch) <=? count (pt_pending state))%N
  && forallb id (zip_with (fun pending message => String.eqb (pi_id pending) (am_id message))
                  (pt_pending state) (ib_messages batch)).
(** The events of the messages, and their bytes. *)
Fixpoint include_messages (scope : ScopeState) (context : ExecutionContext) (receipt : AgentMessageReceipt)
    (feed_version : N) (accepted : list AgentMessage) : op C (list NewEvent * N) :=
  match accepted with
  | [] => op_ret ([], 0%N)
  | m :: accepted =>
      r <~ load (message_stream (am_id m));;
      r <~ op_lift (ok_or r (Verification "missing included agent message"));;
      _ <~ op_lift (reject (negb (bool_decide (r.1 = m)) || negb (bool_decide (am_receipt r.1 = Accepted)))
        (Verification "agent input changed before inclusion"));;
      rest <~ include_messages scope context receipt (feed_version + 1) accepted;;
      op_ret ((receipt_events scope context (with_receipt receipt r.1) r.2 feed_version ++ rest.1)%list,
              (slen (am_text r.1) + rest.2)%N)
  end.
Definition consumed (n : nat) (bytes : N) (s : ParticipantState) : ParticipantState :=
  let p := pt_participant s in
  mkParticipantState (mkAgentParticipant (ap_id p) (ap_root_run_id p) (ap_owner p) (ap_session_id p)
      (ap_run_id p) (ap_parent_id p) (ap_subagent_id p) (ap_generation p) (ap_open p)
      (ap_closed_reason p) (count (drop n (pt_pending s))) bytes (ap_created_at p))
    (drop n (pt_pending s)) (pt_accepted s) (pt_initial_origin s).
Definition include (inputs : Inputs) (batch : AgentInboxBatch) (context : ExecutionContext) (turn : N)
    (request_hash : string) : op C unit :=
  run_id <~ op_lift (ok_or (ctx_run_id context) (StoreAdapter "communication execution absent"));;
  loaded <~ participant (ib_participant_id batch);;
  let '(state, version_read) := loaded in
  _ <~ op_lift (reject (negb (version_read =? ib_version batch)%N)
    (Conflict (participant_stream (ib_participant_id batch)) (ib_version batch) version_read));;
  _ <~ op_lift (reject (negb (valid_inclusion state batch context run_id turn request_hash))
    (StoreAdapter "invalid communication input batch"));;
  scoped <~ scope (ap_root_run_id (pt_participant state));;
  let '(scope, scope_version) := scoped in
  feed_start <~ version (feed_stream (sc_root_run_id scope));;
  included <~ include_messages scope context (IncludedInTurn run_id turn request_hash) feed_start
    (ib_messages batch);;
  bytes <~ op_lift (ok_or (checked_sub (ap_pending_bytes (pt_participant state)) included.2)
    (Verification "invalid inbox byte accounting"));;
  scope_bytes <~ op_lift (ok_or (checked_sub (sc_pending_bytes scope) included.2)
    (Verification "invalid scope byte accounting"));;
  let events := (included.1 ++
    [event (participant_stream (ap_id (pt_participant state))) version_read "included" (sc_owner scope)
       context (consumed (length (ib_messages batch)) bytes state);
     event (root_stream (sc_root_run_id scope)) scope_version "scope" (sc_owner scope) context
       (with_pending_bytes scope_bytes scope)])%list in
  _ <~ append_messages_with_events inputs (ap_session_id (pt_participant state)) run_id
    ((fun m => mkSessionMessageAppend m (sc_owner scope)) <$> agent_input_messages batch) events;;
  wake.

(** [for _ in 0..8] of [try_complete]; attempt [n] has the inputs [inputs n]. *)
Fixpoint complete_attempts (attempts n : nat) (inputs : nat -> Inputs) (run_id : string) : op C bool :=
  match attempts with
  | O => op_ret false
  | S attempts =>
      found <~ participant_for_run run_id;;
      match found with
      | None => op_ret true
      | Some (state, version) =>
          if negb (ap_open (pt_participant state)) then op_ret true
          else if negb (bool_decide (length (pt_pending state) = 0)) then op_ret false
          else
            events <~ close_events (ap_id (pt_participant state)) MF_Completed;;
            if existsb (fun e => String.eqb (ne_stream_id e) (participant_stream (ap_id (pt_participant state)))
                                 && negb (ne_expected_stream_version e =? version)%N) events
            then complete_attempts attempts (S n) inputs run_id
            else fun s =>
              match ej_append_batch (inputs n) events s with
              | (Ok _, s') => (_ <~ wake;; op_ret true) s'
              | (Err e, s') =>
                  if is_conflict e then complete_attempts attempts (S n) inputs run_id s' else (Err e, s')
              end
      end
  end.
Definition try_complete (inputs : nat -> Inputs) (context : ExecutionContext) : op C bool :=
  match ctx_run_id context with
  | None => op_ret true
  | Some run_id => complete_attempts 8 0 inputs run_id
  end.
Definition remove_control (run_id : string) : op C unit := fun s =>
  (Ok tt, with_controls (delete run_id (cs_controls s)) s).
Fixpoint close_attempts (attempts n : nat) (inputs : nat -> Inputs) (run_id : string)
    (reason : AgentMessageFailure) : op C unit :=
  match attempts with
  | O => op_lift (Err (StoreAdapter "communication closure remained contended"))
  | S attempts =>
      found <~ participant_for_run run_id;;
      match found with
      | None => op_ret tt
      | Some (state, _) =>
          events <~ close_events (ap_id (pt_participant state)) reason;;
          fun s =>
            match ej_append_batch (inputs n) events s with
            | (Ok _, s') => (_ <~ remove_control run_id;; wake) s'
            | (Err e, s') =>
                if is_conflict e then close_attempts attempts (S n) inputs run_id reason s' else (Err e, s')
            end
      end
  end.
Definition close_run (inputs : nat -> Inputs) (run_id : string) (reason : AgentMessageFailure) : op C unit :=
  close_attempts 8 0 inputs run_id reason.

(** [recover] ([participants.rs]): [inputs k] are the inputs of the [k]th closure. *)
Fixpoint recover_page (inputs : nat -> nat -> Inputs) (page : list string) (recovered : nat) : op C nat :=
  match page with
  | [] => op_ret recovered
  | stream :: page =>
      r <~ load (A:=ParticipantState) stream;;
      r <~ op_lift (ok_or r (Verification "missing communication participant"));;
      match ap_open (pt_participant r.1), ap_run_id (pt_participant r.1) with
      | true, Some run_id =>
          _ <~ close_run (inputs recovered) run_id MF_Interrupted;;
          _ <~ op_lift (reject (1024 <? S recovered)%nat
            (StoreAdapter "communication recovery bound exceeded"));;
          recover_page inputs page (S recovered)
      | _, _ => recover_page inputs page recovered
      end
  end.
Fixpoint recover_pages (fuel : nat) (inputs : nat -> nat -> Inputs) (after : option string)
    (recovered : nat) : op C nat :=
  match fuel with
  | O => op_lift (Err FUEL_EXHAUSTED)
  | S fuel =>
      page <~ ej_list_stream_ids "agent-participant:" after 128;;
      match page with
      | [] => op_ret recovered
      | _ =>
          recovered <~ recover_page inputs page recovered;;
          recover_pages fuel inputs (last page) recovered
      end
  end.
Definition recover (fuel : nat) (inputs : nat -> nat -> Inputs) : op C nat := recover_pages fuel inputs None 0.

(** *** The port of the work service *)

Definition register_child (job : SubagentJob) : op C (list NewEvent) :=
  found <~ participant_for_run (sj_parent_run_id job);;
  match found with
  | None => op_ret []
  | Some (parent, _) =>
      let parent := pt_participant parent in
      previous <~ load (A:=AttemptIndex) (job_stream (sj_id job));;
      _ <~ op_lift (reject ((negb (ap_open parent) && is_none previous) || is_some (ap_subagent_id parent)
                            || negb (String.eqb (ap_session_id parent) (sj_session_id job))
                            || negb (bool_decide (sj_status job = SJ_Queued)))
        (StoreAdapter "invalid child communication lineage"));;
      scoped <~ scope (ap_root_run_id parent);;
      let '(scope, scope_version) := scoped in
      _ <~ op_lift (reject (MAX_SCOPE_PARTICIPANTS <=? count (sc_participants scope))%N
        (StoreAdapter "communication participant limit reached"));;
      _ <~ match previous with
           | Some (index, _) =>
               last <~ participant (ai_participant_id index);;
               op_lift (reject (ap_open (pt_participant last.1))
                 (StoreAdapter "previous child inbox must be closed before requeue"))
           | None => op_ret tt
           end;;
      let generation := match previous with Some (index, _) => (ai_generation index + 1)%N | None => 1%N end in
      let job_version := match previous with Some (_, version) => version | None => 0%N end in
      minted <~ mint;;
      let id := fr_uuid minted in
      created_at <~ op_lift (minted_at minted);;
      let participant := new_participant id (ap_root_run_id parent) (ap_owner parent)
        (sj_child_session_id job) (Some (ap_id parent)) (Some (sj_id job)) generation created_at in
      let scope := mkScopeState (sc_root_run_id scope) (sc_owner scope) (sc_participants scope ++ [id])
        (sc_accepted scope) (sc_pending_bytes scope) in
      let context := mkExecutionContext None (sc_root_run_id scope) None (Some (sj_session_id job))
        (Some (sj_parent_run_id job)) None None None None (Some (sj_id job)) [] [] [] None None None None in
      op_ret [event (root_stream (sc_root_run_id scope)) scope_version "scope" (ap_owner parent) context scope;
              event (participant_stream id) 0 "participant" (ap_owner parent) context
                (mkParticipantState participant [] 0
                   (Some (mkAgentMessageOrigin ("delegation:" ++s sj_id job ++s ":" ++s pretty generation)
                            (Participant (ap_id parent)) id)));
              event (job_stream (sj_id job)) job_version "attempt" (ap_owner parent) context
                (mkAttemptIndex id generation)]
  end.
Definition close_child (job : SubagentJob) (reason : AgentMessageFailure) : op C (list NewEvent) :=
  index <~ load (A:=AttemptIndex) (job_stream (sj_id job));;
  match index with
  | None => op_ret []
  | Some (index, _) => close_events (ai_participant_id index) reason
  end.
(** Every failure is ignored. *)
Definition child_committed (job : SubagentJob) (s : C) : C :=
  let s := (wake s).2 in
  if bool_decide (sj_status job = SJ_Cancelled) || bool_decide (sj_status job = SJ_Interrupted) then
    match load (A:=AttemptIndex) (job_stream (sj_id job)) s with
    | (Ok (Some (index, _)), s) =>
        match participant (ai_participant_id index) s with
        | (Ok (state, _), s) =>
            match ap_run_id (pt_participant state) ≫= fun run_id => cs_controls s !! run_id with
            | Some control =>
                mkCommunicationService (cs_journal s) (cs_controls s) ({[control]} ∪ cs_cancelled s)
                  (cs_changed s) (cs_supply s) (cs_taken s)
            | None => s
            end
        | (Err _, s) => s
        end
    | (_, s) => s
    end
  else s.
Definition child_communication : ChildCommunication C := {|
  cc_register_child := register_child;
  cc_close_child := close_child;
  cc_child_committed := child_committed;
|}.

(** ** Messages ([service.rs]) *)

Definition MAX_SCOPE_MESSAGES : N := 4096.
Definition MAX_SCOPE_PENDING_BYTES : N := 1024 * 1024.
Definition COMMIT_ATTEMPTS : nat := 8.

Open Scope cop_scope.
Definition refuse {S} (b : bool) (e : CommunicationError) : cop S unit := cop_lift (reject b e).

(** The loop of [list_participants]. *)
Fixpoint load_participants (ids : list string) : cop C (list AgentParticipant) :=
  match ids with
  | [] => cop_ret []
  | id :: ids =>
      r <- stored (participant id);;
      participants <- load_participants ids;;
      cop_ret (pt_participant r.1 :: participants)
  end.
Definition list_participants (owner : Actor) (root_run_id : string) : cop C (list AgentParticipant) :=
  r <- stored (scope root_run_id);;
  _ <- refuse (negb (bool_decide (sc_owner r.1 = owner))) Forbidden;;
  load_participants (sc_participants r.1).
(** The participant of the execution a context names. *)
Definition participant_of_context (context : ExecutionContext) : cop C ParticipantState :=
  run_id <- cop_lift (ok_or (ctx_run_id context) Forbidden);;
  found <- stored (participant_for_run run_id);;
  found <- cop_lift (ok_or found Forbidden);;
  _ <- refuse (negb (bool_decide (ctx_session_id context = Some (ap_session_id (pt_participant found.1)))))
    Forbidden;;
  cop_ret found.1.
Definition list_for_run (context : ExecutionContext) : cop C (list AgentParticipant) :=
  state <- participant_of_context context;;
  let p := pt_participant state in
  participants <- list_participants (ap_owner p) (ap_root_run_id p);;
  cop_ret (match ap_parent_id p with
           | Some parent => List.filter (fun q => String.eqb (ap_id q) (ap_id p) || String.eqb (ap_id q) parent)
                              participants
           | None => participants
           end).

Definition get_message (owner : Actor) (id : string) : cop C AgentMessage :=
  _ <- refuse (negb (valid_token id)) Invalid;;
  r <- stored (load (message_stream id));;
  message <- cop_lift (ok_or r (Store (NotFound "agent message")));;
  scoped <- stored (scope (am_root_run_id message.1));;
  _ <- refuse (negb (bool_decide (sc_owner scoped.1 = owner))) Forbidden;;
  cop_ret message.1.

Definition invalid_request (request : SendAgentMessage) : bool :=
  is_empty (sr_text request) || (MAX_AGENT_MESSAGE_BYTES <? slen (sr_text request))%N
  || negb (valid_token (sr_recipient_id request)) || negb (valid_token (sr_idempotency_key request))
  || is_some_and (sr_reply_to request) (fun id => negb (valid_token id)).
Definition serialised {A} (r : result string A) : result CommunicationError A := map_err (fun _ => Invalid) r.

(** The sender as a participant: of the same owner and scope, a child or the parent. *)
Definition send_source (owner : Actor) (sender : AgentMessageSender) (recipient : ParticipantState)
    : cop C (option ParticipantState) :=
  match sender with
  | Participant participant_id =>
      r <- stored (participant participant_id);;
      let source := pt_participant r.1 in
      _ <- refuse (negb (bool_decide (ap_owner source = owner))
                   || negb (String.eqb (ap_root_run_id source) (ap_root_run_id (pt_participant recipient)))
                   || negb (bool_decide (ap_parent_id (pt_participant recipient) = Some participant_id)
                            || bool_decide (ap_parent_id source = Some (ap_id (pt_participant recipient)))))
        Forbidden;;
      cop_ret (Some r.1)
  | ApplicationSender _ => cop_ret None
  end.
Definition inbox_full (recipient : ParticipantState) (scope : ScopeState) (text : string) : bool :=
  (MAX_AGENT_INBOX_MESSAGES <=? count (pt_pending recipient))%N
  || (MAX_AGENT_INBOX_BYTES <? saturating_add (ap_pending_bytes (pt_participant recipient)) (slen text))%N
  || (MAX_SCOPE_MESSAGES <=? sc_accepted scope)%N
  || (MAX_SCOPE_PENDING_BYTES <? saturating_add (sc_pending_bytes scope) (slen text))%N.
(** The recipient and its scope with a message admitted. *)
Definition admitted (message : AgentMessage) (s : ParticipantState) : ParticipantState :=
  let p := pt_participant s in
  let pending := (pt_pending s ++ [mkPendingInput (am_id message) (slen (am_text message))])%list in
  mkParticipantState (mkAgentParticipant (ap_id p) (ap_root_run_id p) (ap_owner p) (ap_session_id p)
      (ap_run_id p) (ap_parent_id p) (ap_subagent_id p) (ap_generation p) (ap_open p)
      (ap_closed_reason p) (count pending) (ap_pending_bytes p + slen (am_text message)) (ap_created_at p))
    pending (pt_accepted s + 1) (pt_initial_origin s).
Definition scope_admitted (message : AgentMessage) (s : ScopeState) : ScopeState :=
  mkScopeState (sc_root_run_id s) (sc_owner s) (sc_participants s) (sc_accepted s + 1)
    (sc_pending_bytes s + slen (am_text message)).
(** The events of an admission, but for the caller's. *)
Definition admission_events (owner : Actor) (claim_stream fingerprint : string) (recipient : ParticipantState)
    (recipient_version : N) (scope : ScopeState) (scope_version feed_version : N) (message : AgentMessage)
    : list NewEvent :=
  let p := pt_participant recipient in
  let context := mkExecutionContext None (am_root_run_id message) None (Some (ap_session_id p)) (ap_run_id p)
    None None None None None [] [] [] None None None None in
  [event (participant_stream (am_recipient_id message)) recipient_version "inbox" owner context
     (admitted message recipient);
   event (root_stream (am_root_run_id message)) scope_version "scope" owner context
     (scope_admitted message scope);
   event (message_stream (am_id message)) 0 "accepted" owner context message;
   event_of (inbox_stream (am_recipient_id message)) (am_sequence message - 1) "indexed" owner context
     (Str (am_id message));
   event claim_stream 0 "idempotency" owner context (mkMessageClaim fingerprint (am_id message));
   event (feed_stream (am_root_run_id message)) feed_version "update" owner context message].

(** One attempt: [None] is a version conflict. *)
Definition send_attempt (inputs : Inputs) (owner : Actor) (sender : AgentMessageSender)
    (request : SendAgentMessage) (additional : AgentMessage -> op C (list NewEvent))
    (claim_stream fingerprint : string) : cop C (option AgentMessage) :=
  loaded <- stored (participant (sr_recipient_id request));;
  let '(recipient, recipient_version) := loaded in
  _ <- refuse (negb (bool_decide (ap_owner (pt_participant recipient) = owner))) Forbidden;;
  source <- send_source owner sender recipient;;
  claim <- stored (load (A:=MessageClaim) claim_stream);;
  match claim with
  | Some (claim, _) =>
      _ <- refuse (negb (String.eqb (mc_fingerprint claim) fingerprint)) IdempotencyConflict;;
      message <- get_message owner (mc_message_id claim);;
      cop_ret (Some message)
  | None =>
      _ <- refuse (negb (ap_open (pt_participant recipient))
                   || is_some_and source (fun s => negb (ap_open (pt_participant s)))) Closed;;
      scoped <- stored (scope (ap_root_run_id (pt_participant recipient)));;
      let '(scope, scope_version) := scoped in
      _ <- refuse (inbox_full recipient scope (sr_text request)) Full;;
      _ <- match sr_reply_to request with
           | Some reply =>
               referenced <- get_message owner reply;;
               refuse (negb (String.eqb (am_root_run_id referenced)
                              (ap_root_run_id (pt_participant recipient)))) Forbidden
           | None => cop_ret tt
           end;;
      minted <- stored mint;;
      accepted_at <- cop_lift (map_err Store (minted_at minted));;
      let message := mkAgentMessage (fr_uuid minted) (ap_root_run_id (pt_participant recipient)) sender
        (ap_id (pt_participant recipient)) (pt_accepted recipient + 1) (sr_text request) (sr_reply_to request)
        accepted_at Accepted in
      feed_version <- stored (version (feed_stream (am_root_run_id message)));;
      more <- stored (additional message);;
      fun s =>
        match ej_append_batch inputs (admission_events owner claim_stream fingerprint recipient
                recipient_version scope scope_version feed_version message ++ more)%list s with
        | (Ok _, s') => (_ <- stored wake;; cop_ret (Some message)) s'
        | (Err e, s') => if is_conflict e then (Ok None, s') else (Err (Store e), s')
        end
  end.
Fixpoint send_attempts (attempts n : nat) (inputs : nat -> Inputs) (owner : Actor)
    (sender : AgentMessageSender) (request : SendAgentMessage)
    (additional : AgentMessage -> op C (list NewEvent)) (claim_stream fingerprint : string)
    : cop C AgentMessage :=
  match attempts with
  | O => cop_lift (Err Full)
  | S attempts =>
      sent <- send_attempt (inputs n) owner sender request additional claim_stream fingerprint;;
      match sent with
      | Some message => cop_ret message
      | None => send_attempts attempts (S n) inputs owner sender request additional claim_stream fingerprint
      end
  end.
Definition claim_stream_of (owner : Actor) (sender : AgentMessageSender) (key : string)
    : result CommunicationError string :=
  sender_bytes ← serialised (sender_to_vec owner sender);
  claim ← serialised (claim_to_vec sender_bytes key);
  Ok ("agent-message-key:" ++s sha256_hex claim).
Definition send (inputs : nat -> Inputs) (owner : Actor) (sender : AgentMessageSender)
    (request : SendAgentMessage) (additional : AgentMessage -> op C (list NewEvent)) : cop C AgentMessage :=
  _ <- refuse (invalid_request request) Invalid;;
  claim_stream <- cop_lift (claim_stream_of owner sender (sr_idempotency_key request));;
  fingerprint <- cop_lift (r ← serialised (request_to_vec request); Ok (sha256_hex r));;
  send_attempts COMMIT_ATTEMPTS 0 inputs owner sender request additional claim_stream fingerprint.
Definition send_from_run (inputs : nat -> Inputs) (context : ExecutionContext) (request : SendAgentMessage)
    : cop C AgentMessage :=
  state <- participant_of_context context;;
  send inputs (ap_owner (pt_participant state)) (Participant (ap_id (pt_participant state))) request
    (fun _ => op_ret []).
Definition send_from_application_with_events (inputs : nat -> Inputs) (owner : Actor)
    (request : SendAgentMessage) (additional : AgentMessage -> op C (list NewEvent)) : cop C AgentMessage :=
  _ <- refuse (negb (bool_decide (actor_type owner = Application))) Forbidden;;
  send inputs owner (ApplicationSender (actor_id owner)) request additional.
Definition send_from_application (inputs : nat -> Inputs) (owner : Actor) (request : SendAgentMessage)
    : cop C AgentMessage :=
  send_from_application_with_events inputs owner request (fun _ => op_ret []).

(** The messages of a page, and the sequence reached. *)
Fixpoint page_messages (owner : Actor) (events : list EventEnvelope) (next_sequence : N)
    : cop C (list AgentMessage * N) :=
  match events with
  | [] => cop_ret ([], next_sequence)
  | envelope :: events =>
      v <- stored (ej_decrypt_payload envelope);;
      id <- cop_lift (match v with Str id => Ok id | _ => Err (Store (Verification "invalid inbox index")) end);;
      message <- get_message owner id;;
      rest <- page_messages owner events (ev_stream_version envelope);;
      cop_ret (message :: rest.1, rest.2)
  end.
Definition list_messages (owner : Actor) (participant_id : string) (after limit : N)
    : cop C AgentMessagePage :=
  _ <- refuse (negb (valid_token participant_id)) Invalid;;
  r <- stored (participant participant_id);;
  _ <- refuse (negb (bool_decide (ap_owner (pt_participant r.1) = owner))) Forbidden;;
  _ <- refuse (pt_accepted r.1 <? after)%N Invalid;;
  events <- stored (ej_read_stream_from (inbox_stream participant_id) after (N.min (N.max limit 1) 16));;
  page <- page_messages owner events after;;
  cop_ret (mkAgentMessagePage page.1 page.2 (page.2 <? pt_accepted r.1)%N).

Fixpoint read_updates (events : list EventEnvelope) : cop C (list AgentCommunicationUpdate) :=
  match events with
  | [] => cop_ret []
  | envelope :: events =>
      v <- stored (ej_decrypt_payload envelope);;
      message <- cop_lift (map_err (fun _ => Store (Verification "invalid communication feed"))
        (record_from_value v));;
      rest <- read_updates events;;
      cop_ret (mkAgentCommunicationUpdate (ev_stream_version envelope) message :: rest)
  end.
Definition updates (owner : Actor) (root_run_id : string) (after : N) : cop C (list AgentCommunicationUpdate) :=
  scoped <- stored (scope root_run_id);;
  _ <- refuse (negb (bool_decide (sc_owner scoped.1 = owner))) Forbidden;;
  reached <- stored (version (feed_stream root_run_id));;
  _ <- refuse (reached <? after)%N Invalid;;
  events <- stored (ej_read_stream_from (feed_stream root_run_id) after 16);;
  read_updates events.
End Communication.
