(* ===== verification/JournalModel.v ===== *)
(** * The abstract journal

    What a journal holds, without its tables: a list of envelopes that form a chain.  The
    sections give the chain's laws, the maps and slices the tables are compared with, and
    the lemmas on ordered tables. *)

From S2P Require Import Prelude Json Contracts Boundary Platform JournalStore Journal.

Open Scope string_scope.

(** ** Ordered tables *)

#[export] Instance seq_le_trans {V} : Transitive (@seq_le V).
Proof. intros a b c. unfold seq_le. lia. Qed.
#[export] Instance seq_le_total {V} : Total (@seq_le V).
Proof. intros a b. unfold seq_le. lia. Qed.

Lemma strictly_sorted {V} (l : list (N * V)) :
  StronglySorted seq_le l -> NoDup l.*1 -> StronglySorted N.lt l.*1.
Proof.
  induction 1 as [|a l Hs IH Hall]; simpl; [constructor|]. intros [Hn Hd]%NoDup_cons.
  constructor; [auto|]. apply Forall_fmap, Forall_forall. intros b Hb. simpl.
  rewrite Forall_forall in Hall. specialize (Hall b Hb). unfold seq_le in Hall.
  assert (a.1 <> b.1) by (intros Heq; apply Hn; rewrite Heq; by apply list_elem_of_fmap_2).
  lia.
Qed.

Lemma table_entries_sorted {V} (m : gmap N V) : StronglySorted N.lt (table_entries m).*1.
Proof.
  unfold table_entries. apply strictly_sorted; [apply StronglySorted_merge_sort; apply _|].
  rewrite (merge_sort_Permutation seq_le (map_to_list m)). apply NoDup_fst_map_to_list.
Qed.

Lemma table_entries_elem {V} (m : gmap N V) q v :
  (q, v) ∈ table_entries m <-> m !! q = Some v.
Proof.
  unfold table_entries. rewrite (merge_sort_Permutation seq_le (map_to_list m)).
  apply elem_of_map_to_list.
Qed.

Lemma sorted_ext (l l' : list N) :
  StronglySorted N.lt l -> StronglySorted N.lt l' -> (forall x, x ∈ l <-> x ∈ l') -> l = l'.
Proof.
  intros Hl. revert l'. induction Hl as [|a l Hl IH Ha]; intros l' Hl' Heq.
  - destruct l' as [|b l']; [done|]. exfalso. apply (not_elem_of_nil b), Heq. left.
  - destruct Hl' as [|b l' Hl' Hb]; [exfalso; apply (not_elem_of_nil a), Heq; left|].
    rewrite Forall_forall in Ha, Hb.
    assert (a = b) as <-.
    { assert (a ∈ b :: l') as [->|Hin]%elem_of_cons by (apply Heq; left); [done|].
      assert (b ∈ a :: l) as [->|Hin']%elem_of_cons by (apply Heq; left); [done|].
      specialize (Ha _ Hin'). specialize (Hb _ Hin). lia. }
    f_equal. apply IH; [done|]. intros x. split; intros Hx.
    + assert (x ∈ a :: l') as [->|?]%elem_of_cons by (apply Heq; by right); [|done].
      specialize (Ha _ Hx). lia.
    + assert (x ∈ a :: l) as [->|?]%elem_of_cons by (apply Heq; by right); [|done].
      specialize (Hb _ Hx). lia.
Qed.

(** [from, from + 1, .., from + n - 1]. *)
Definition seqN (from : N) (n : nat) : list N := (fun i => from + N.of_nat i)%N <$> seq 0 n.

Lemma seqN_S from n : seqN from (S n) = from :: seqN (from + 1) n.
Proof.
  unfold seqN. simpl. f_equal; [lia|]. rewrite <- seq_shift, <- list_fmap_compose.
  apply list_fmap_ext. intros ? ? _. simpl. lia.
Qed.
Lemma seqN_elem from n x : x ∈ seqN from n <-> (from <= x < from + N.of_nat n)%N.
Proof.
  unfold seqN. rewrite list_elem_of_fmap. split.
  - intros (i & -> & Hi%elem_of_seq). lia.
  - intros Hx. exists (N.to_nat (x - from)). split; [lia|]. apply elem_of_seq. lia.
Qed.
Lemma seqN_sorted from n : StronglySorted N.lt (seqN from n).
Proof.
  revert from. induction n as [|n IH]; intros from; [constructor|]. rewrite seqN_S.
  constructor; [apply IH|]. apply Forall_forall. intros x Hx%seqN_elem. lia.
Qed.
Lemma seqN_length from n : length (seqN from n) = n.
Proof. unfold seqN. by rewrite length_fmap, length_seq. Qed.

(** A table whose keys are exactly [1 .. n]. *)
Definition contiguous {V} (m : gmap N V) (n : N) : Prop :=
  forall q, is_Some (m !! q) <-> (1 <= q <= n)%N.

Lemma contiguous_keys {V} (m : gmap N V) n :
  contiguous m n -> (table_entries m).*1 = seqN 1 (N.to_nat n).
Proof.
  intros Hc. apply sorted_ext; [apply table_entries_sorted|apply seqN_sorted|].
  intros q. rewrite seqN_elem, list_elem_of_fmap. split.
  - intros ([q' v] & -> & Hin%table_entries_elem). simpl.
    assert (is_Some (m !! q')) as ?%Hc by eauto. lia.
  - intros Hq. destruct (proj2 (Hc q)) as [v Hv]; [lia|]. exists (q, v). split; [done|].
    by apply table_entries_elem.
Qed.

Lemma contiguous_range {V} (m : gmap N V) n from :
  contiguous m n -> (1 <= from)%N ->
  (range_from from m).*1 = seqN from (N.to_nat (n + 1 - from)).
Proof.
  intros Hc Hfrom. apply sorted_ext; [|apply seqN_sorted|].
  - unfold range_from. generalize (table_entries_sorted m). generalize (table_entries m).
    intros l. induction l as [|[q v] l IH]; simpl; [constructor|]. intros Hs.
    inversion Hs as [|? ? Hs' Ha]; subst. destruct (from <=? q)%N; simpl; [|by apply IH].
    constructor; [by apply IH|]. apply Forall_forall. intros x Hx.
    rewrite Forall_forall in Ha. apply Ha. revert Hx. rewrite !list_elem_of_fmap.
    intros (kv & -> & Hin). exists kv. split; [done|].
    apply list_elem_of_In in Hin. apply filter_In in Hin as [Hin _]. by apply list_elem_of_In.
  - intros q. rewrite seqN_elem, list_elem_of_fmap. unfold range_from. split.
    + intros ([q' v] & -> & Hin). apply list_elem_of_In, filter_In in Hin as [Hin Hle].
      apply list_elem_of_In, table_entries_elem in Hin. simpl in *.
      assert (is_Some (m !! q')) as ?%Hc by eauto. apply N.leb_le in Hle. lia.
    + intros Hq. destruct (proj2 (Hc q)) as [v Hv]; [lia|]. exists (q, v). split; [done|].
      apply list_elem_of_In, filter_In. split;
        [by apply list_elem_of_In, table_entries_elem|apply N.leb_le; simpl; lia].
Qed.

Lemma contiguous_size {V} (m : gmap N V) n : contiguous m n -> N.of_nat (size m) = n.
Proof.
  intros Hc. assert (length (table_entries m) = N.to_nat n) as Hl.
  { rewrite <- (length_fmap fst), (contiguous_keys _ _ Hc). apply seqN_length. }
  unfold table_entries in Hl. rewrite (merge_sort_Permutation seq_le (map_to_list m)) in Hl.
  rewrite length_map_to_list in Hl. lia.
Qed.

Lemma set_eq_of_size `{Countable A} (X Y : gset A) : X ⊆ Y -> size Y = size X -> X = Y.
Proof.
  intros Hsub Hsize. apply set_eq. intros x. split; [apply Hsub|]. intros Hx.
  destruct (decide (x ∈ X)) as [|Hn]; [done|]. exfalso.
  assert (size ({[x]} ∪ X) <= size Y)%nat as Hle by (apply subseteq_size; set_solver).
  rewrite size_union, size_singleton in Hle by set_solver. lia.
Qed.

Lemma map_eq_of_size `{Countable A} {V} (m m' : gmap A V) :
  m ⊆ m' -> size m' = size m -> m = m'.
Proof.
  intros Hsub Hsize. assert (dom m = dom m') as Hd.
  { apply set_eq_of_size; [by apply subseteq_dom|by rewrite !size_dom]. }
  apply map_eq. intros k. destruct (m !! k) as [v|] eqn:Hk.
  - symmetry. by eapply lookup_weaken.
  - symmetry. apply not_elem_of_dom. rewrite <- Hd. by apply not_elem_of_dom.
Qed.

(** Having the keys [1 .. n] and no more than [n] rows. *)
Lemma contiguous_of_size {V} (m : gmap N V) n :
  (forall q, (1 <= q <= n)%N -> is_Some (m !! q)) -> N.of_nat (size m) = n -> contiguous m n.
Proof.
  intros Hall Hsize.
  set (keys := list_to_set (C:=gset N) (seqN 1 (N.to_nat n))).
  assert (size keys = N.to_nat n) as Hk.
  { unfold keys. rewrite size_list_to_set, seqN_length; [done|].
    clear. generalize (seqN_sorted 1 (N.to_nat n)). generalize (seqN 1 (N.to_nat n)).
    induction 1 as [|a l Hs IH Ha]; constructor; [|done]. intros Hin.
    rewrite Forall_forall in Ha. specialize (Ha _ Hin). lia. }
  assert (keys = dom m) as Hd.
  { apply set_eq_of_size.
    - intros q Hq. unfold keys in Hq. rewrite elem_of_list_to_set, seqN_elem in Hq.
      apply elem_of_dom, Hall. lia.
    - rewrite size_dom. lia. }
  intros q. rewrite <- elem_of_dom, <- Hd. unfold keys.
  rewrite elem_of_list_to_set, seqN_elem. lia.
Qed.

(** ** Chains *)

Definition stream_of (s : string) (l : list EventEnvelope) : list EventEnvelope :=
  List.filter (fun e => String.eqb (ev_stream_id e) s) l.
Definition version_of (s : string) (l : list EventEnvelope) : N := count (stream_of s l).
Definition head_hash (l : list EventEnvelope) : string :=
  match last l with Some e => ev_record_hash e | None => ZERO_HASH end.

(** Each event continues the global sequence, the hash chain and its own stream. *)
Inductive chain : list EventEnvelope -> Prop :=
| chain_nil : chain []
| chain_snoc l e :
    chain l ->
    ev_global_sequence e = (count l + 1)%N ->
    ev_previous_hash e = head_hash l ->
    ev_stream_version e = (version_of (ev_stream_id e) l + 1)%N ->
    chain (l ++ [e]).

Lemma stream_of_app s l l' : stream_of s (l ++ l') = (stream_of s l ++ stream_of s l')%list.
Proof. apply List.filter_app. Qed.
Lemma version_of_snoc s l e :
  version_of s (l ++ [e])
  = (version_of s l + if String.eqb (ev_stream_id e) s then 1 else 0)%N.
Proof.
  unfold version_of, count. rewrite stream_of_app, length_app. simpl.
  destruct (String.eqb (ev_stream_id e) s); simpl; lia.
Qed.
Lemma head_hash_snoc l e : head_hash (l ++ [e]) = ev_record_hash e.
Proof. unfold head_hash. by rewrite last_snoc. Qed.
Lemma chain_app_inv l l' : chain (l ++ l') -> chain l.
Proof.
  induction l' as [|e l' IH] using rev_ind; [by rewrite app_nil_r|].
  rewrite app_assoc. intros Hc. inversion Hc as [Hn|l0 e0 Hc0 H1 H2 H3 Heq].
  - symmetry in Hn. by apply app_nil in Hn as [_ [=]].
  - apply app_inj_tail in Heq as [-> ->]. auto.
Qed.

Lemma chain_snoc_inv l e :
  chain (l ++ [e]) -> chain l /\ ev_global_sequence e = (count l + 1)%N /\
    ev_previous_hash e = head_hash l /\
    ev_stream_version e = (version_of (ev_stream_id e) l + 1)%N.
Proof.
  intros Hc. inversion Hc as [Hn|l0 e0 Hc0 H1 H2 H3 Heq].
  - symmetry in Hn. by apply app_nil in Hn as [_ [=]].
  - apply app_inj_tail in Heq as [-> ->]. auto.
Qed.

Lemma chain_lookup l i e :
  chain l -> l !! i = Some e ->
  ev_global_sequence e = (N.of_nat i + 1)%N /\ ev_previous_hash e = head_hash (take i l) /\
  ev_stream_version e = (version_of (ev_stream_id e) (take i l) + 1)%N.
Proof.
  intros Hc Hi. assert (chain (take i l ++ [e])) as Hs.
  { rewrite <- (take_S_r _ _ _ Hi). rewrite <- (take_drop (S i) l) in Hc.
    by apply chain_app_inv in Hc. }
  apply chain_snoc_inv in Hs as (_ & H1 & H2 & H3). split_and!; [|done|done].
  rewrite H1. unfold count. apply lookup_lt_Some in Hi. rewrite length_take. lia.
Qed.

(** No event is ahead of its stream. *)
Lemma version_of_take s i l : (version_of s (take i l) <= version_of s l)%N.
Proof.
  rewrite <- (take_drop i l) at 2. unfold version_of, count.
  rewrite stream_of_app, length_app. lia.
Qed.
Lemma chain_version_le l i e :
  chain l -> l !! i = Some e -> (1 <= ev_stream_version e <= version_of (ev_stream_id e) l)%N.
Proof.
  intros Hc Hi. destruct (chain_lookup _ _ _ Hc Hi) as (_ & _ & Hv). split; [lia|].
  pose proof (version_of_take (ev_stream_id e) (S i) l) as Hle.
  rewrite (take_S_r _ _ _ Hi), version_of_snoc, String.eqb_refl in Hle. lia.
Qed.

(** A stream's own events are numbered from one. *)
Lemma chain_stream_lookup s l i e :
  chain l -> stream_of s l !! i = Some e ->
  ev_stream_id e = s /\ ev_stream_version e = (N.of_nat i + 1)%N.
Proof.
  intros Hc. revert i. induction Hc as [|l e' Hc IH Hg Hp Hv]; intros i; [done|].
  rewrite stream_of_app. simpl. destruct (String.eqb_spec (ev_stream_id e') s) as [<-|Hne];
    [|rewrite app_nil_r; auto].
  rewrite lookup_app. destruct (stream_of (ev_stream_id e') l !! i) as [e0|] eqn:He;
    [intros [= <-]; auto|].
  apply lookup_ge_None in He. intros Hi. apply list_lookup_singleton_Some in Hi as [Hi <-].
  split; [done|]. rewrite Hv. unfold version_of, count. lia.
Qed.

(** ** The maps the tables must be *)

Definition versions_map (l : list EventEnvelope) : gmap string N :=
  foldl (fun m e => <[ev_stream_id e := ev_stream_version e]> m) ∅ l.
Definition index_map (l : list EventEnvelope) : gmap (string * N) N :=
  foldl (fun m e => <[(ev_stream_id e, ev_stream_version e) := ev_global_sequence e]> m) ∅ l.

Lemma versions_map_snoc l e :
  versions_map (l ++ [e]) = <[ev_stream_id e := ev_stream_version e]> (versions_map l).
Proof. unfold versions_map. by rewrite foldl_app. Qed.
Lemma index_map_snoc l e :
  index_map (l ++ [e])
  = <[(ev_stream_id e, ev_stream_version e) := ev_global_sequence e]> (index_map l).
Proof. unfold index_map. by rewrite foldl_app. Qed.

Lemma versions_map_lookup s l :
  chain l ->
  versions_map l !! s = if (version_of s l =? 0)%N then None else Some (version_of s l).
Proof.
  induction 1 as [|l e Hc IH Hg Hp Hv]; [done|].
  rewrite versions_map_snoc, version_of_snoc.
  destruct (String.eqb_spec (ev_stream_id e) s) as [<-|Hne].
  - rewrite lookup_insert_eq. destruct (N.eqb_spec (version_of (ev_stream_id e) l + 1) 0); [lia|].
    by rewrite Hv.
  - rewrite lookup_insert_ne by done. by rewrite N.add_0_r.
Qed.
Lemma versions_map_default s l : chain l -> default 0%N (versions_map l !! s) = version_of s l.
Proof.
  intros Hc. rewrite versions_map_lookup by done. by destruct (N.eqb_spec (version_of s l) 0).
Qed.

Lemma index_map_lookup l s v q :
  chain l ->
  index_map l !! (s, v) = Some q <->
  exists e, l !! (N.to_nat (q - 1)) = Some e /\ (1 <= q)%N /\ ev_stream_id e = s /\
    ev_stream_version e = v.
Proof.
  intros Hc. revert s v q. induction Hc as [|l e Hc IH Hg Hp Hv]; intros s v q.
  - unfold index_map. simpl. rewrite lookup_empty. split; [done|by intros (? & ? & _)].
  - rewrite index_map_snoc.
    assert (forall q', ev_stream_id e = s -> ev_stream_version e = v ->
      index_map l !! (s, v) = Some q' -> False) as Hfresh.
    { intros q' <- <- Hq. apply IH in Hq as (e' & Hl & _ & Hs & Hvv).
      destruct (chain_version_le _ _ _ Hc Hl) as [_ Hle]. rewrite Hs in Hle. lia. }
    destruct (decide ((ev_stream_id e, ev_stream_version e) = (s, v))) as [Heq|Hne].
    + injection Heq as Hs Hvv. rewrite <- Hs, <- Hvv at 1. rewrite lookup_insert_eq. split.
      * intros [= <-]. exists e. rewrite Hg. split_and!; [|lia|done|done].
        unfold count. rewrite lookup_app_r by lia.
        by replace (N.to_nat (N.of_nat (length l) + 1 - 1) - length l) with 0 by lia.
      * intros (e' & Hl & Hq & Hs' & Hv'). f_equal.
        destruct (decide (N.to_nat (q - 1) < length l)) as [Hlt|Hge].
        -- rewrite lookup_app_l in Hl by done. exfalso. eapply (Hfresh q); [done|done|].
           apply IH. eauto.
        -- assert (N.to_nat (q - 1) = length l) as Hql.
           { apply lookup_lt_Some in Hl. rewrite length_app in Hl. simpl in Hl. lia. }
           rewrite Hg. unfold count. lia.
    + rewrite lookup_insert_ne by done. rewrite IH. split.
      * intros (e' & Hl & Hq & ?). exists e'. split; [|done]. by apply lookup_app_l_Some.
      * intros (e' & Hl & Hq & Hs' & Hv'). exists e'. split_and!; try done.
        rewrite lookup_app in Hl. case_match; [done|].
        apply list_lookup_singleton_Some in Hl as [_ <-]. congruence.
Qed.

Lemma index_map_size l : chain l -> N.of_nat (size (index_map l)) = count l.
Proof.
  induction 1 as [|l e Hc IH Hg Hp Hv]; [done|].
  rewrite index_map_snoc, map_size_insert_None, count_app.
  - unfold count at 2. simpl. lia.
  - apply eq_None_not_Some. intros [q Hq].
    apply (index_map_lookup _ _ _ _ Hc) in Hq as (e' & Hl & _ & Hs & Hvv).
    destruct (chain_version_le _ _ _ Hc Hl) as [_ Hle]. rewrite Hs in Hle. lia.
Qed.
