(* ===== verification/JournalCorrect.v ===== *)
(** * The redb journal implements the abstract journal

    [journal_inv] relates the tables to the chain they hold.  Verification accepts exactly
    the tables that hold a chain; the lemmas on appending and reading are in
    [JournalAppend] and [JournalReads]. *)

From S2P Require Import Prelude Json Contracts Boundary Platform CommandApproval.
From S2P Require Import JournalStore Journal JournalVerify JournalModel.

Open Scope string_scope.

Section Correct.
Context `{Externals} `{JournalCodec} {K Sg} `{KeyProvider K} `{CheckpointSigner Sg}.
Context (protection : JournalPayloadProtection) (k : K).

(** ** The invariant *)

(** The stored bytes [b] decode to [e], whose hash and payload verify. *)
Definition event_ok (b : string) (e : EventEnvelope) : Prop :=
  envelope_from_slice b = Ok e /\
  exists p v, persisted_from_slice b = Ok p /\ verify_persisted_event protection k e p = Ok v.

Definition row_ok (t : Tables) (e : EventEnvelope) : Prop :=
  (exists b, t_events t !! ev_global_sequence e = Some b /\ event_ok b e) /\
  check_outbox t (ev_global_sequence e) e = Ok tt.

Record journal_inv (t : Tables) (l : list EventEnvelope) : Prop := {
  ji_chain : chain l;
  ji_rows : Forall (row_ok t) l;
  ji_events : contiguous (t_events t) (count l);
  ji_outbox : contiguous (t_outbox t) (count l);
  ji_index : t_stream_events t = index_map l;
  ji_versions : t_stream_versions t = versions_map l;
  ji_sequence : last_sequence t = Ok (count l);
  ji_hash : last_hash t = Ok (head_hash l);
  ji_index_version : stream_events_index_version t = Ok (Some STREAM_EVENTS_INDEX_VERSION);
  ji_positions : forall p n, t_positions t !! p = Some n -> check_position (count l) (p, n) = Ok tt;
  ji_records : forall key b, t_records t !! key = Some b -> check_record (key, b) = Ok tt;
}.

(** The hash of the record at a sequence. *)
Definition hash_at (l : list EventEnvelope) (q : N) : option string :=
  if (q =? 0)%N then None else ev_record_hash <$> l !! N.to_nat (q - 1).

(** The signed checkpoint, if any, names a record of the chain. *)
Definition checkpoint_ok (s : Sg) (l : list EventEnvelope) (c : option SignedCheckpoint) : Prop :=
  match c with
  | None => True
  | Some c => is_plaintext protection = false /\
      verify_checkpoint s c (hash_at l (cp_global_sequence c)) = Ok tt
  end.
Definition anchor_ok (l : list EventEnvelope) (a : option SecureAnchor) : Prop :=
  match a with None => True | Some a => hash_at l (an_sequence a) = Some (an_hash a) end.

Lemma hash_at_snoc l e q :
  ev_global_sequence e = (count l + 1)%N ->
  hash_at (l ++ [e]) q
  = if (q =? ev_global_sequence e)%N then Some (ev_record_hash e) else hash_at l q.
Proof.
  intros Hg. unfold hash_at. destruct (N.eqb_spec q (ev_global_sequence e)) as [->|Hne].
  - destruct (N.eqb_spec (ev_global_sequence e) 0); [lia|].
    rewrite Hg. unfold count. rewrite lookup_app_r by lia.
    by replace (N.to_nat (N.of_nat (length l) + 1 - 1) - length l) with 0 by lia.
  - destruct (N.eqb_spec q 0); [done|]. f_equal. unfold count in Hg.
    destruct (decide (N.to_nat (q - 1) < length l)) as [Hlt|Hge].
    + by rewrite lookup_app_l.
    + rewrite !lookup_ge_None_2; [done|lia|rewrite length_app; simpl; lia].
Qed.

(** ** The loop of [verify_inner] *)

Section Loop.
Context (t : Tables) (c : option SignedCheckpoint) (a : option SecureAnchor).

(** The locals after the prefix [l]. *)
Definition verified_prefix (l : list EventEnvelope) : VerifyState :=
  mkVerifyState (count l + 1) (head_hash l) (versions_map l)
    ((cp_global_sequence <$> c) ≫= hash_at l) ((an_sequence <$> a) ≫= hash_at l).

Lemma seen_hash l e (o : option N) :
  ev_global_sequence e = (count l + 1)%N ->
  (if bool_decide (o = Some (ev_global_sequence e)) then Some (ev_record_hash e)
   else o ≫= hash_at l) = (o ≫= hash_at (l ++ [e])).
Proof.
  intros Hg. destruct o as [q|]; simpl; [|done]. rewrite hash_at_snoc by done.
  destruct (N.eqb_spec q (ev_global_sequence e)) as [->|Hne]; [by rewrite bool_decide_true|].
  rewrite bool_decide_false by congruence. done.
Qed.

(** One iteration accepts exactly a row that continues the chain. *)
Lemma verify_entry_exact l q b v' :
  chain l -> (count l + 1 < u64_max)%N ->
  verify_entry protection k t true c a (verified_prefix l) (q, b) = Ok v' <->
  exists e, v' = verified_prefix (l ++ [e]) /\ chain (l ++ [e]) /\ q = ev_global_sequence e /\
    event_ok b e /\ check_index t q e = Ok tt /\ check_outbox t q e = Ok tt.
Proof.
  intros Hc Hb. unfold verify_entry.
  assert (forall s, saturating_add (version_of s l) 1 = version_of s l + 1)%N as Hsat.
  { intros s'. unfold saturating_add. assert (version_of s' l <= count l)%N; [|lia].
    unfold version_of, count, stream_of.
    assert (length (List.filter (fun e => String.eqb (ev_stream_id e) s') l) <= length l)%nat; [|lia].
    apply List.filter_length_le. }
  rewrite bind_Ok. cbn [verified_prefix vs_expected_sequence vs_previous_hash
    vs_stream_versions vs_checkpoint_hash vs_anchor_hash]. split.
  - intros ([] & Hq & Hr). apply reject_Ok in Hq. apply negb_false_iff, N.eqb_eq in Hq as ->.
    apply bind_Ok in Hr as (p & Hp & Hr). apply bind_Ok in Hr as (e & He & Hr).
    unfold decode_journal_json in Hp, He. apply map_err_Ok in Hp, He.
    apply bind_Ok in Hr as ([] & Hm & Hr). apply reject_Ok, orb_false_iff in Hm as [Hg Hh].
    apply negb_false_iff, N.eqb_eq in Hg. apply negb_false_iff, String.eqb_eq in Hh.
    apply bind_Ok in Hr as ([] & Hv & Hr). apply reject_Ok, negb_false_iff, N.eqb_eq in Hv.
    rewrite versions_map_default, Hsat in Hv by done.
    apply bind_Ok in Hr as ([] & Hi & Hr). apply bind_Ok in Hr as (v & Hpe & Hr).
    apply bind_Ok in Hr as ([] & Ho & Hr). injection Hr as <-.
    exists e. rewrite <- Hg in *. unfold verified_prefix.
    rewrite !seen_hash by congruence. rewrite versions_map_snoc, head_hash_snoc, count_snoc.
    split.
    { f_equal. unfold saturating_add. lia. }
    split; [by constructor|]. split; [done|]. split; [|done].
    split; [done|]. by exists p, v.
  - intros (e & -> & Hch & -> & [He (p & v & Hp & Hpe)] & Hi & Ho).
    apply chain_snoc_inv in Hch as (_ & Hg & Hh & Hv).
    exists tt. split; [apply reject_Ok, negb_false_iff, N.eqb_eq; lia|].
    unfold decode_journal_json. rewrite Hp. simpl. rewrite He. simpl.
    rewrite N.eqb_refl, Hh, String.eqb_refl. simpl.
    rewrite versions_map_default, Hsat, Hv, N.eqb_refl by done. simpl.
    rewrite Hi. simpl. rewrite Hpe. simpl. rewrite Ho. simpl. f_equal.
    unfold verified_prefix. rewrite !seen_hash by done.
    rewrite versions_map_snoc, head_hash_snoc, count_snoc. f_equal.
    + unfold saturating_add. lia.
    + by rewrite Hv.
Qed.

(** A row and the event it holds. *)
Definition entry_ok (entry : N * string) (e : EventEnvelope) : Prop :=
  entry.1 = ev_global_sequence e /\ event_ok entry.2 e /\
  check_index t entry.1 e = Ok tt /\ check_outbox t entry.1 e = Ok tt.

Lemma verify_loop_exact entries l v' :
  chain l -> (count l + count entries < u64_max)%N ->
  try_fold (verify_entry protection k t true c a) entries (verified_prefix l) = Ok v' <->
  exists l', v' = verified_prefix (l ++ l') /\ chain (l ++ l') /\ Forall2 entry_ok entries l'.
Proof.
  revert l. induction entries as [|[q b] entries IH]; intros l Hc Hb.
  - simpl. split.
    + intros [= <-]. exists []. rewrite app_nil_r. by repeat constructor.
    + intros (l' & -> & _ & Hf). inversion Hf; subst. by rewrite app_nil_r.
  - assert (count ((q, b) :: entries) = count entries + 1)%N as Hcnt
      by (unfold count; simpl; lia).
    cbn [try_fold]. rewrite bind_Ok. split.
    + intros (v & Hv & Hr). apply verify_entry_exact in Hv as (e & -> & Hc' & Hq & ? & ? & ?);
        [|done|lia].
      apply IH in Hr as (l' & -> & Hc'' & Hf); [|done|rewrite count_snoc; lia].
      exists (e :: l'). rewrite <- app_assoc in *. split; [done|]. split; [done|].
      constructor; [|done]. by split_and!.
    + intros (l' & -> & Hc' & Hf). inversion Hf as [|? e ? l'' (Hq & He & Hi & Ho) Hf']; subst.
      simpl in Hq, He, Hi, Ho. assert (chain (l ++ [e])) as Hce.
      { apply (chain_app_inv _ l''). by rewrite <- app_assoc. }
      exists (verified_prefix (l ++ [e])). split.
      * apply verify_entry_exact; [done|lia|]. exists e. by split_and!.
      * apply IH; [done|rewrite count_snoc; lia|]. exists l''. rewrite <- app_assoc. by split_and!.
Qed.

End Loop.

(** ** From rows to the invariant and back *)

Lemma sorted_entries_elem {V} (m : gmap string V) key v :
  (key, v) ∈ sorted_entries m <-> m !! key = Some v.
Proof.
  unfold sorted_entries. rewrite (merge_sort_Permutation key_le (map_to_list m)).
  apply elem_of_map_to_list.
Qed.
Lemma for_each_entry {V} (f : string * V -> result StoreError unit) m :
  try_for_each f (sorted_entries m) = Ok tt <->
  forall key v, m !! key = Some v -> f (key, v) = Ok tt.
Proof.
  rewrite try_for_each_Ok, Forall_forall. split.
  - intros Hf key v Hm. by apply Hf, sorted_entries_elem.
  - intros Hf [key v] Hin. by apply Hf, sorted_entries_elem.
Qed.

(** Rows in key order that form a chain are the whole of a contiguous table. *)
Lemma entries_of_chain t l entries :
  chain l -> Forall2 (entry_ok t) entries l -> entries.*1 = seqN 1 (length l).
Proof.
  intros Hc Hf. apply list_eq. intros i. rewrite list_lookup_fmap. unfold seqN.
  rewrite list_lookup_fmap.
  destruct (l !! i) as [e|] eqn:He.
  - destruct (Forall2_lookup_r _ _ _ _ _ Hf He) as ([q b] & -> & Hq & _). simpl in *.
    rewrite lookup_seq_lt by (by eapply lookup_lt_Some). simpl. f_equal.
    rewrite Hq. destruct (chain_lookup _ _ _ Hc He) as (-> & _). lia.
  - assert (entries !! i = None) as ->.
    { apply lookup_ge_None. rewrite (Forall2_length _ _ _ Hf). by apply lookup_ge_None. }
    apply lookup_ge_None in He. by rewrite lookup_seq_ge.
Qed.

Lemma contiguous_of_keys {V} (m : gmap N V) n :
  (table_entries m).*1 = seqN 1 n -> contiguous m (N.of_nat n).
Proof.
  intros Hk q. transitivity (q ∈ (table_entries m).*1).
  - rewrite list_elem_of_fmap. split.
    + intros [v Hv]. exists (q, v). split; [done|]. by apply table_entries_elem.
    + intros ([q' v] & -> & Hin%table_entries_elem). by eexists.
  - rewrite Hk, seqN_elem. lia.
Qed.

(** The rows of the invariant, in table order. *)
Lemma inv_entries t l :
  journal_inv t l -> Forall2 (entry_ok t) (table_entries (t_events t)) l.
Proof.
  intros Hi. pose proof (contiguous_keys _ _ (ji_events _ _ Hi)) as Hk.
  assert (length (table_entries (t_events t)) = length l) as Hl.
  { rewrite <- (length_fmap fst), Hk, seqN_length. unfold count. lia. }
  apply Forall2_same_length_lookup_2; [done|]. intros i [q b] e Hq He.
  destruct (chain_lookup _ _ _ (ji_chain _ _ Hi) He) as (Hg & _).
  assert (q = ev_global_sequence e) as ->.
  { assert ((table_entries (t_events t)).*1 !! i = Some q) as Hqi
      by (by rewrite list_lookup_fmap, Hq).
    rewrite Hk in Hqi. unfold seqN in Hqi. rewrite list_lookup_fmap in Hqi.
    apply fmap_Some in Hqi as (j & Hj & ->). apply lookup_seq in Hj as [-> _]. lia. }
  pose proof (Forall_lookup_1 _ _ _ _ (ji_rows _ _ Hi) He) as [(b' & Hb' & Hok) Ho].
  assert (b' = b) as ->.
  { apply list_elem_of_lookup_2 in Hq. apply table_entries_elem in Hq. congruence. }
  split_and!; try done. simpl. unfold check_index. apply reject_Ok.
  rewrite bool_decide_true; [done|]. rewrite (ji_index _ _ Hi).
  apply index_map_lookup; [apply (ji_chain _ _ Hi)|]. exists e. split_and!; try done; [|lia].
  rewrite Hg. by replace (N.to_nat (N.of_nat i + 1 - 1)) with i by lia.
Qed.

(** What verification has checked, row by row, is the index of the chain. *)
Lemma checked_index t l entries :
  chain l -> Forall2 (entry_ok t) entries l -> N.of_nat (size (t_stream_events t)) = count l ->
  t_stream_events t = index_map l.
Proof.
  intros Hc Hf Hsize. symmetry. apply map_eq_of_size.
  - apply map_subseteq_spec. intros [s v] q Hq.
    apply index_map_lookup in Hq as (e & He & Hle & <- & <-); [|done].
    destruct (Forall2_lookup_r _ _ _ _ _ Hf He) as ([q' b] & _ & Hq' & _ & Hi & _). simpl in *.
    unfold check_index in Hi. apply reject_Ok, negb_false_iff, bool_decide_eq_true in Hi.
    rewrite Hi. f_equal. rewrite Hq'. destruct (chain_lookup _ _ _ Hc He) as (-> & _). lia.
  - apply index_map_size in Hc. lia.
Qed.

(** ** Verification *)

Lemma outbox_rows t l entries :
  chain l -> Forall2 (entry_ok t) entries l -> N.of_nat (size (t_outbox t)) = count l ->
  contiguous (t_outbox t) (count l).
Proof.
  intros Hc Hf Hsize. apply contiguous_of_size; [|done]. intros q Hq.
  destruct (lookup_lt_is_Some_2 l (N.to_nat (q - 1))) as [e He]; [unfold count in Hq; lia|].
  destruct (Forall2_lookup_r _ _ _ _ _ Hf He) as ([q' b] & _ & Hq' & _ & _ & Ho). simpl in *.
  destruct (chain_lookup _ _ _ Hc He) as (Hg & _).
  assert (q' = q) as -> by lia. unfold check_outbox in Ho.
  apply bind_Ok in Ho as (bytes & Ho & _). apply ok_or_Ok in Ho. by eexists.
Qed.

Lemma rows_of_entries t l :
  chain l -> Forall2 (entry_ok t) (table_entries (t_events t)) l -> Forall (row_ok t) l.
Proof.
  intros Hc Hf. apply Forall_lookup_2. intros i e He.
  destruct (Forall2_lookup_r _ _ _ _ _ Hf He) as ([q b] & Hq & Hq' & Hok & _ & Ho). simpl in *.
  subst q. split; [|done]. exists b. split; [|done].
  by apply table_entries_elem, list_elem_of_lookup_2 in Hq || (apply table_entries_elem; eapply list_elem_of_lookup_2; done).
Qed.

Lemma verified_nothing c a : verified_prefix c a [] = mkVerifyState 1 ZERO_HASH ∅ None None.
Proof.
  assert (forall q, hash_at [] q = None) as Hn.
  { intros q. unfold hash_at. by destruct (q =? 0)%N. }
  unfold verified_prefix. destruct c, a; simpl; by rewrite ?Hn.
Qed.

(** Both directions of [verify_inner]. *)
Lemma verify_inner_exact (s : Sg) t report :
  (N.of_nat (size (t_events t)) + 1 < u64_max)%N ->
  stream_events_index_version t = Ok (Some STREAM_EVENTS_INDEX_VERSION) ->
  verify_inner protection k s t = Ok report <->
  exists l a c, load_anchor k = Ok a /\ latest_checkpoint t = Ok c /\ journal_inv t l /\
    checkpoint_ok s l c /\ anchor_ok l a /\
    report = mkVerificationReport (count l) (count l) (head_hash l) c.
Proof.
  intros Hb Hindex. unfold verify_inner, index_status. rewrite Hindex.
  assert (count (table_entries (t_events t)) = N.of_nat (size (t_events t))) as Hcount.
  { unfold count, table_entries. rewrite (merge_sort_Permutation seq_le (map_to_list _)).
    by rewrite length_map_to_list. }
  split.
  - intros Hv. apply bind_Ok in Hv as (a & Ha & Hv). apply bind_Ok in Hv as (c & Hck & Hv).
    cbn [mbind result_bind] in Hv. rewrite N.eqb_refl in Hv. cbn in Hv.
    apply bind_Ok in Hv as (v & Hloop & Hv).
    rewrite <- (verified_nothing c a) in Hloop.
    apply verify_loop_exact in Hloop as (l & -> & Hc & Hf);
      [|constructor|unfold count at 1; simpl; lia].
    cbn [app] in Hc, Hf. change ([] ++ l)%list with l in Hv.
    cbn [verified_prefix vs_expected_sequence vs_previous_hash vs_stream_versions
      vs_checkpoint_hash vs_anchor_hash] in Hv.
    replace (saturating_sub (count l + 1) 1) with (count l) in Hv by (unfold saturating_sub; lia).
    apply bind_Ok in Hv as (q & Hq & Hv). apply bind_Ok in Hv as (h & Hh & Hv).
    apply bind_Ok in Hv as ([] & E1 & Hv). apply bind_Ok in Hv as ([] & E2 & Hv).
    apply bind_Ok in Hv as ([] & E3 & Hv). apply bind_Ok in Hv as ([] & E4 & Hv).
    apply bind_Ok in Hv as ([] & E5 & Hv). apply bind_Ok in Hv as ([] & E6 & Hv).
    apply bind_Ok in Hv as ([] & E7 & Hv). apply bind_Ok in Hv as ([] & E8 & Hv).
    apply bind_Ok in Hv as ([] & E9 & Hv). injection Hv as <-.
    apply reject_Ok in E1, E2, E3, E6, E8, E9. rewrite for_each_entry in E4. rewrite for_each_entry in E5.
    apply orb_false_iff in E1 as [E1 E1']. apply negb_false_iff in E1, E1', E2, E3, E9.
    apply N.eqb_eq in E1, E2, E9. apply String.eqb_eq in E1'. apply bool_decide_eq_true in E3.
    subst q h. exists l, a, c. do 2 (split; [done|]). split; [|split; [|split; [|done]]].
    + constructor; try done.
      * by apply rows_of_entries.
      * unfold count. apply contiguous_of_keys. by apply entries_of_chain with t.
      * by eapply outbox_rows.
      * by eapply checked_index.
    + destruct c as [c|]; [|done]. simpl in E6. rewrite andb_true_r in E6. by split.
    + destruct a as [a|]; [|done]. simpl in *. by apply negb_false_iff, bool_decide_eq_true in E8.
  - intros (l & a & c & Ha & Hck & Hi & Hc & Han & ->). rewrite Ha, Hck. cbn [mbind result_bind].
    rewrite N.eqb_refl. cbn [negb reject mbind result_bind].
    pose proof (ji_chain _ _ Hi) as Hch.
    assert (try_fold (verify_entry protection k t true c a) (table_entries (t_events t))
      (mkVerifyState 1 ZERO_HASH ∅ None None) = Ok (verified_prefix c a l)) as ->.
    { rewrite <- (verified_nothing c a). apply verify_loop_exact;
        [constructor|unfold count at 1; simpl; lia|].
      exists l. split; [done|]. split; [done|]. by apply inv_entries. }
    cbn [verified_prefix vs_expected_sequence vs_previous_hash vs_stream_versions
      vs_checkpoint_hash vs_anchor_hash mbind result_bind].
    replace (saturating_sub (count l + 1) 1) with (count l) by (unfold saturating_sub; lia).
    rewrite (ji_sequence _ _ Hi), (ji_hash _ _ Hi). cbn [mbind result_bind].
    rewrite N.eqb_refl, String.eqb_refl, (contiguous_size _ _ (ji_outbox _ _ Hi)), N.eqb_refl.
    rewrite (ji_versions _ _ Hi), bool_decide_true by done. cbn [negb orb reject mbind result_bind].
    rewrite (proj2 (for_each_entry _ _) (ji_positions _ _ Hi)).
    rewrite (proj2 (for_each_entry _ _) (ji_records _ _ Hi)). cbn [mbind result_bind].
    rewrite (ji_index _ _ Hi), index_map_size, N.eqb_refl by done.
    destruct c as [c|]; [destruct Hc as [Hpl Hc]; rewrite Hpl|rewrite andb_false_r]; simpl;
      [simpl in Hc; rewrite Hc; simpl|];
      (destruct a as [a|]; simpl; [simpl in Han; rewrite Han, bool_decide_true by done; simpl|]).
    all: by rewrite ?andb_false_r.
Qed.

End Correct.
