(* ===== verification/JournalTest.v ===== *)
(** * A concrete codec for the journal

    Serialisers that satisfy every law of [JournalCodecOk], and a signer: the instances
    the witnesses of the journal's theorems use.  Text is the base-256 numeral of stdpp's
    encodings; hashing and hex are the identity; decryption checks the key. *)

From S2P Require Import Prelude Json Contracts Boundary Platform JournalStore Journal.
From stdpp Require Import countable.

Open Scope string_scope.

(** ** Text of countable types *)

Definition pop (p : positive) : option (bool * positive) :=
  match p with xO p => Some (false, p) | xI p => Some (true, p) | xH => None end.
Definition push (b : bool) (p : positive) : positive := if b then xI p else xO p.
(** Eight digits a character. *)
Definition pop8 (p : positive) : option (ascii * positive) :=
  '(b0, p) ← pop p; '(b1, p) ← pop p; '(b2, p) ← pop p; '(b3, p) ← pop p;
  '(b4, p) ← pop p; '(b5, p) ← pop p; '(b6, p) ← pop p; '(b7, p) ← pop p;
  Some (Ascii b0 b1 b2 b3 b4 b5 b6 b7, p).
Definition push8 (c : ascii) (p : positive) : positive :=
  let '(Ascii b0 b1 b2 b3 b4 b5 b6 b7) := c in
  push b0 (push b1 (push b2 (push b3 (push b4 (push b5 (push b6 (push b7 p))))))).
Lemma pop_Some p b q : pop p = Some (b, q) -> p = push b q /\ Pos.size_nat q < Pos.size_nat p.
Proof. destruct p; intros [= <- <-]; simpl; (split; [done|lia]). Qed.
Lemma pop8_Some p c q : pop8 p = Some (c, q) -> p = push8 c q /\ Pos.size_nat q < Pos.size_nat p.
Proof.
  unfold pop8. intros Hp.
  do 8 (apply bind_Some in Hp as ([? ?] & [-> ?]%pop_Some & Hp)).
  injection Hp as <- <-. split; [done|lia].
Qed.
Lemma pop8_None p : pop8 p = None -> N_of_ascii (ascii_of_N (Npos p)) = Npos p.
Proof.
  intros Hp. apply N_ascii_embedding. revert Hp.
  do 8 (destruct p as [p|p|]; [| |intros _; lia]). all: done.
Qed.

(** The fuel is the number of digits. *)
Fixpoint numeral_of (fuel : nat) (p : positive) : string :=
  match fuel with
  | 0 => ""
  | S fuel => match pop8 p with
              | Some (c, q) => String c (numeral_of fuel q)
              | None => String (ascii_of_N (Npos p)) ""
              end
  end.
Definition numeral (p : positive) : string := numeral_of (Pos.size_nat p) p.
Fixpoint of_numeral (s : string) : option positive :=
  match s with
  | "" => None
  | String c "" => match N_of_ascii c with Npos p => Some p | N0 => None end
  | String c s => push8 c <$> of_numeral s
  end.
Lemma of_numeral_of fuel p : Pos.size_nat p <= fuel -> of_numeral (numeral_of fuel p) = Some p.
Proof.
  revert p. induction fuel as [|fuel IH]; intros p Hp; [destruct p; simpl in Hp; lia|].
  cbn [numeral_of]. destruct (pop8 p) as [[c q]|] eqn:Hpop.
  - apply pop8_Some in Hpop as [-> Hlt]. pose proof (IH q ltac:(lia)) as Hq.
    destruct (numeral_of fuel q) as [|c' s]; [done|]. cbn [of_numeral] in Hq |- *. by rewrite Hq.
  - cbn [of_numeral]. by rewrite pop8_None.
Qed.
Lemma of_numeral_numeral p : of_numeral (numeral p) = Some p.
Proof. by apply of_numeral_of. Qed.

Definition text {A} `{Countable A} (a : A) : string := numeral (encode a).
Definition of_text {A} `{Countable A} (s : string) : option A := of_numeral s ≫= decode.
Lemma of_text_text {A} `{Countable A} (a : A) : of_text (text a) = Some a.
Proof. unfold of_text, text. rewrite of_numeral_numeral. simpl. apply decode_encode. Qed.

Definition read {A} `{Countable A} (s : string) : result string A :=
  ok_or (of_text s) "expected value".
Lemma read_text {A} `{Countable A} (a : A) : read (text a) = Ok a.
Proof. unfold read. by rewrite of_text_text. Qed.

(** ** The records *)

#[export] Instance ActorType_countable : Countable ActorType.
Proof.
  refine (inj_countable'
    (fun a => match a with User => 0 | Application => 1 | Model => 2 | WorkflowActor => 3
              | Subagent => 4 | System => 5 end)%nat
    (fun n => match n with 0 => User | 1 => Application | 2 => Model | 3 => WorkflowActor
              | 4 => Subagent | _ => System end) _).
  by intros [].
Defined.
#[export] Instance EventClassification_countable : Countable EventClassification.
Proof.
  refine (inj_countable'
    (fun a => match a with EC_Domain => 0 | EC_Effect => 1 | EC_Policy => 2 | EC_Approval => 3
              | EC_Workflow => 4 | EC_System => 5 end)%nat
    (fun n => match n with 0 => EC_Domain | 1 => EC_Effect | 2 => EC_Policy | 3 => EC_Approval
              | 4 => EC_Workflow | _ => EC_System end) _).
  by intros [].
Defined.
#[export] Instance Actor_countable : Countable Actor.
Proof.
  refine (inj_countable' (fun a => (actor_type a, actor_id a))
    (fun '(t, i) => mkActor t i) _). by intros [].
Defined.
#[export] Instance ImageInputBudget_countable : Countable ImageInputBudget.
Proof.
  refine (inj_countable' (fun a => (remaining_count a, remaining_bytes a))
    (fun '(c, b) => mkImageInputBudget c b) _). by intros [].
Defined.
#[export] Instance EncryptedPayload_countable : Countable EncryptedPayload.
Proof.
  refine (inj_countable (fun p => [encode (pl_key_id p); encode (pl_algorithm p);
    encode (pl_nonce p); encode (pl_ciphertext p); encode (pl_plaintext_hash p)])
    (fun l => match l with [x0; x1; x2; x3; x4] => x0 ← decode x0; x1 ← decode x1;
      x2 ← decode x2; x3 ← decode x3; x4 ← decode x4; Some (mkEncryptedPayload x0 x1 x2 x3 x4) |
      _ => None end) _).
  intros []. by rewrite !decode_encode.
Defined.
#[export] Instance ExecutionContext_countable : Countable ExecutionContext.
Proof.
  refine (inj_countable (fun c => [encode (ctx_image_input_budget c);
    encode (ctx_correlation_id c); encode (ctx_causation_id c); encode (ctx_session_id c);
    encode (ctx_run_id c); encode (ctx_goal_id c); encode (ctx_plan_id c);
    encode (ctx_draft_plan_id c); encode (ctx_draft_plan_revision c);
    encode (ctx_subagent_id c); encode (ctx_skill_ids c); encode (ctx_plugin_digests c);
    encode (ctx_offered_tools c); encode (ctx_workflow_id c); encode (ctx_workflow_hash c);
    encode (ctx_step_id c); encode (ctx_attempt c)])
    (fun l => match l with [x0; x1; x2; x3; x4; x5; x6; x7; x8; x9; x10; x11; x12; x13; x14;
      x15; x16] => x0 ← decode x0; x1 ← decode x1; x2 ← decode x2; x3 ← decode x3;
      x4 ← decode x4; x5 ← decode x5; x6 ← decode x6; x7 ← decode x7; x8 ← decode x8;
      x9 ← decode x9; x10 ← decode x10; x11 ← decode x11; x12 ← decode x12; x13 ← decode x13;
      x14 ← decode x14; x15 ← decode x15; x16 ← decode x16; Some (mkExecutionContext x0 x1 x2 x3
      x4 x5 x6 x7 x8 x9 x10 x11 x12 x13 x14 x15 x16) | _ => None end) _).
  intros []. by rewrite !decode_encode.
Defined.
#[export] Instance EventEnvelope_countable : Countable EventEnvelope.
Proof.
  refine (inj_countable (fun e => [encode (ev_schema_version e); encode (ev_event_version e);
    encode (ev_event_id e); encode (ev_global_sequence e); encode (ev_stream_id e);
    encode (ev_stream_version e); encode (ev_classification e); encode (ev_event_type e);
    encode (ev_actor e); encode (ev_context e); encode (ev_occurred_at e);
    encode (ev_payload e); encode (ev_previous_hash e); encode (ev_record_hash e)])
    (fun l => match l with [x0; x1; x2; x3; x4; x5; x6; x7; x8; x9; x10; x11; x12; x13] =>
      x0 ← decode x0; x1 ← decode x1; x2 ← decode x2; x3 ← decode x3; x4 ← decode x4;
      x5 ← decode x5; x6 ← decode x6; x7 ← decode x7; x8 ← decode x8; x9 ← decode x9;
      x10 ← decode x10; x11 ← decode x11; x12 ← decode x12; x13 ← decode x13; Some
      (mkEventEnvelope x0 x1 x2 x3 x4 x5 x6 x7 x8 x9 x10 x11 x12 x13) | _ => None end) _).
  intros []. by rewrite !decode_encode.
Defined.
#[export] Instance SignedCheckpoint_countable : Countable SignedCheckpoint.
Proof.
  refine (inj_countable (fun c => [encode (cp_global_sequence c); encode (cp_record_hash c);
    encode (cp_key_id c); encode (cp_algorithm c); encode (cp_signature c);
    encode (cp_created_at c)])
    (fun l => match l with [x0; x1; x2; x3; x4; x5] => x0 ← decode x0; x1 ← decode x1;
      x2 ← decode x2; x3 ← decode x3; x4 ← decode x4; x5 ← decode x5; Some (mkSignedCheckpoint
      x0 x1 x2 x3 x4 x5) | _ => None end) _).
  intros []. by rewrite !decode_encode.
Defined.

(** ** Values *)

(** The tree of a value; a float is written as [null]. *)
Fixpoint value_tree (v : value) : gen_tree (string + Z) :=
  match v with
  | Null | Number (Float _) => GenNode 0 []
  | Bool false => GenNode 1 []
  | Bool true => GenNode 2 []
  | Number (PosInt n) => GenNode 3 [GenLeaf (inr (Z.of_N n))]
  | Number (NegInt z) => GenNode 4 [GenLeaf (inr z)]
  | Str s => GenLeaf (inl s)
  | Array l => GenNode 5 (map value_tree l)
  | Object fs => GenNode 6 (map (fun kv => GenNode 7 [GenLeaf (inl kv.1); value_tree kv.2]) fs)
  end.
Definition leaf_key (t : gen_tree (string + Z)) : string :=
  match t with GenLeaf (inl s) => s | _ => "" end.
Definition leaf_int (t : gen_tree (string + Z)) : Z :=
  match t with GenLeaf (inr z) => z | _ => 0%Z end.
Fixpoint tree_value (t : gen_tree (string + Z)) : value :=
  match t with
  | GenLeaf (inl s) => Str s
  | GenNode 1 _ => Bool false
  | GenNode 2 _ => Bool true
  | GenNode 3 (t :: _) => Number (PosInt (Z.to_N (leaf_int t)))
  | GenNode 4 (t :: _) => Number (NegInt (leaf_int t))
  | GenNode 5 l => Array (map tree_value l)
  | GenNode 6 l => Object (map (fun t =>
      match t with GenNode _ [k; v] => (leaf_key k, tree_value v) | _ => ("", Null) end) l)
  | _ => Null
  end.

Lemma tree_value_tree v : exact_json v = true -> tree_value (value_tree v) = v.
Proof.
  induction v as [|b|n|s|l IH|fs IH] using value_rec_full; simpl; try done.
  - by destruct b.
  - destruct n; simpl; [|done|done]. intros _. by rewrite N2Z.id.
  - intros Hl. f_equal. induction IH as [|v l Hv _ IHl]; [done|]. simpl in *.
    apply andb_true_iff in Hl as [Hx Hl]. by rewrite Hv, IHl.
  - intros [_ Hl]%andb_true_iff. f_equal. induction IH as [|[k v] fs Hv _ IHl]; [done|].
    simpl in *. apply andb_true_iff in Hl as [Hx Hl]. by rewrite Hv, IHl.
Qed.

(** Parsing with [serde_json]'s nesting limit. *)
Definition parse_value (s : string) : result string value :=
  t ← read s;
  let v := tree_value t in
  reject (negb (Nat.leb (json_depth v) MAX_PARSED_DEPTH)) "recursion limit exceeded" ;;
  Ok v.

Lemma json_depth_tree v : json_depth (tree_value (value_tree v)) = json_depth v.
Proof.
  induction v as [|b|n|s|l IH|fs IH] using value_rec_full; simpl; try done.
  - by destruct b.
  - by destruct n.
  - f_equal. induction IH as [|v l Hv _ IHl]; [done|]. simpl. by rewrite Hv, IHl.
  - f_equal. induction IH as [|[k v] fs Hv _ IHl]; [done|]. simpl in *. by rewrite Hv, IHl.
Qed.

(** ** The instances *)

Definition journal_externals : Externals := {|
  to_vec_value v := Ok (text (value_tree v));
  to_vec_request := @to_vec_request test_externals;
  to_vec_obligations := @to_vec_obligations test_externals;
  to_vec_claims := @to_vec_claims test_externals;
  sha256_hex s := s;
  hmac_sha256 := @hmac_sha256 test_externals;
  url_parse := @url_parse test_externals;
  base64_encode s := s;
|}.

Definition hashed (previous ciphertext : string) : string := previous ++s "|" ++s ciphertext.
Definition test_persisted (e : EventEnvelope) : PersistedEventEnvelope :=
  mkPersistedEventEnvelope (ev_schema_version e) (ev_event_version e) (ev_event_id e)
    (ev_global_sequence e) (ev_stream_id e) (ev_stream_version e) (ev_classification e)
    (ev_event_type e) (text (ev_actor e)) (text (ev_context e)) (ev_occurred_at e)
    (pl_ciphertext (ev_payload e)) (ev_previous_hash e) (ev_record_hash e).
Definition test_codec : JournalCodec := {|
  envelope_to_vec e := Ok (text (durable_envelope e));
  envelope_from_slice := read;
  persisted_from_slice s := e ← read s; Ok (test_persisted e);
  associated_to_vec a := Ok (ad_event_id a);
  hash_input_to_vec h := Ok (hashed (rh_previous_hash h) (pl_ciphertext (rh_payload h)));
  persisted_associated_to_vec a := Ok (pa_event_id a);
  persisted_hash_input_to_vec h := Ok (hashed (ph_previous_hash h) (ph_payload h));
  value_from_slice := parse_value;
  u64_to_vec n := Ok (text n);
  u64_from_slice := read;
  string_to_vec s := Ok (text s);
  string_from_slice := read;
  checkpoint_to_vec c := Ok (text c);
  checkpoint_from_slice := read;
  hex_encode s := s;
  hex_decode s := Some s;
  aead_encrypt k n m a := Ok (text (k, n, m, a));
  aead_decrypt k n c a :=
    match of_text (A := string * string * string * string) c with
    | Some (k', n', m, a') =>
        if bool_decide ((k', n', a') = (k, n, a)) then Some m else None
    | None => None
    end;
|}.

Lemma test_codec_ok : @JournalCodecOk journal_externals test_codec.
Proof.
  constructor.
  - intros e b [= <-]. cbn [envelope_from_slice persisted_from_slice test_codec].
    rewrite read_text. split; [done|]. exists (test_persisted (durable_envelope e)).
    by split_and!.
  - intros v b Hv [= <-]. cbn [value_from_slice test_codec]. unfold parse_value.
    rewrite read_text. cbn [mbind result_bind]. rewrite json_depth_tree.
    rewrite (proj2 (Nat.leb_le _ _) Hv). by eexists.
  - intros v b Hv Hx [= <-]. cbn [value_from_slice test_codec]. unfold parse_value.
    rewrite read_text. cbn [mbind result_bind]. rewrite json_depth_tree.
    rewrite (proj2 (Nat.leb_le _ _) Hv). cbn. by rewrite tree_value_tree.
  - intros n _. exists (text n). split; [done|]. apply read_text.
  - intros s. exists (text s). split; [done|]. apply read_text.
  - intros c b [= <-]. apply read_text.
  - done.
  - intros k n m a c [= <-]. cbn [aead_decrypt test_codec]. rewrite of_text_text.
    by rewrite bool_decide_true.
Qed.

(** A signer whose signature is the message. *)
Inductive TestSigner := TestSignerKey.
#[export] Instance test_signer : CheckpointSigner TestSigner := {
  signer_key_id _ := "signer";
  sign _ m := Ok m;
  verify_signature _ m sig :=
    if String.eqb m sig then Ok tt else Err (Verification "invalid checkpoint signature");
}.
#[export] Instance test_signer_ok : CheckpointSignerOk TestSigner.
Proof.
  constructor; simpl.
  - intros _ m sig [= <-]. by rewrite String.eqb_refl.
  - done.
Qed.

(** ** An empty journal and an event *)

Definition test_key : string := "key-material".
Definition test_nonce : string := "abcdefghijklmnopqrstuvwx".
Definition test_journal : RedbEventJournal StaticKeyProvider TestSigner :=
  mkRedbEventJournal (set_metadata STREAM_EVENTS_INDEX_KEY (text 1%N) no_tables)
    EncryptedProtection (static_new "key-1" test_key) TestSignerKey false None.
Definition test_event (stream : string) (expected : N) (payload : value) : NewEvent :=
  mkNewEvent 1 stream expected EC_Domain "example.recorded.v1" (mkActor User "alice")
    default_context payload.
Definition test_stamp (id : string) : Stamp :=
  mkStamp id (Ok "2026-01-01T00:00:00Z") (Ok test_nonce).
Definition test_batch : list (NewEvent * Stamp) :=
  [(test_event "session:1" 0 (Str "first"), test_stamp "e1");
   (test_event "session:1" 1 (Object [("text", Str "second")]), test_stamp "e2")].

(** An event whose context has a field that is not stored, and one nested too deeply. *)
Definition test_context : ExecutionContext :=
  mkExecutionContext None "" None None None None None None None None [] [] ["workspace.read"]
    None None None None.
Definition test_offering : NewEvent * Stamp :=
  (mkNewEvent 1 "session:1" 0 EC_Domain "example.recorded.v1" (mkActor User "alice") test_context
     (Str "first"), test_stamp "e1").
Definition deep_value : value := Nat.iter 128 (fun v => Array [v]) Null.
Definition test_deep : NewEvent * Stamp := (test_event "session:1" 0 deep_value, test_stamp "e1").
