(* ===== verification/JournalAppend.v ===== *)
(** * Appending refines the abstract journal

    What [append.rs] does, against the chain of [JournalModel]: a batch whose expected
    versions match extends the chain by one envelope per event; the first one that does
    not is the [Conflict] that is answered; and a well-formed journal is never closed by
    an append. *)

From S2P Require Import Prelude Json Contracts Boundary Platform CommandApproval.
From S2P Require Import JournalStore Journal JournalVerify JournalModel JournalCorrect.

Open Scope string_scope.

(** ** The abstract append *)

(** The first event of a batch whose expected version is not its stream's, with the
    version the stream has by then. *)
Fixpoint first_conflict (version : string -> N) (events : list NewEvent)
    : option (string * N * N) :=
  match events with
  | [] => None
  | event :: events' =>
      let id := ne_stream_id event in
      if (ne_expected_stream_version event =? version id)%N
      then first_conflict (fun s => if String.eqb id s then (version s + 1)%N else version s)
             events'
      else Some (id, ne_expected_stream_version event, version id)
  end.

(** The envelope [e] records the event and its stamp. *)
Record records (es : NewEvent * Stamp) (e : EventEnvelope) : Prop := {
  rec_event_version : ev_event_version e = ne_event_version es.1;
  rec_stream : ev_stream_id e = ne_stream_id es.1;
  rec_version : ev_stream_version e = (ne_expected_stream_version es.1 + 1)%N;
  rec_classification : ev_classification e = ne_classification es.1;
  rec_type : ev_event_type e = ne_event_type es.1;
  rec_actor : ev_actor e = ne_actor es.1;
  rec_context : ev_context e = ne_context es.1;
  rec_event_id : ev_event_id e = st_event_id es.2;
  rec_occurred_at : st_occurred_at es.2 = Ok (ev_occurred_at e);
}.

(** What the code takes for granted of one event: a 24-byte nonce and a payload that can
    be parsed back. *)
Definition event_wf (es : NewEvent * Stamp) : Prop :=
  parseable (ne_payload es.1) /\ forall nonce, st_nonce es.2 = Ok nonce -> slen nonce = 24%N.

Section Append.
Context `{Externals} `{JournalCodec} `{!JournalCodecOk}.
Context {K Sg} `{KeyProvider K} `{!KeyProviderOk K} `{CheckpointSigner Sg}.
Context (protection : JournalPayloadProtection) (k : K).

(** An error of something outside the journal's own logic, while it records [events]. *)
Inductive external_failure (events : list (NewEvent * Stamp)) (e : StoreError) : Prop :=
| ef_keys : is_plaintext protection = false -> active_key k = Err e -> external_failure events e
| ef_clock es : es ∈ events -> adapter_error (st_occurred_at es.2) = Err e ->
    external_failure events e
| ef_nonce es : is_plaintext protection = false -> es ∈ events ->
    adapter_error (st_nonce es.2) = Err e -> external_failure events e
| ef_value v : adapter_error (to_vec_value v) = Err e -> external_failure events e
| ef_associated a : adapter_error (associated_to_vec a) = Err e -> external_failure events e
| ef_hash h : adapter_error (hash_input_to_vec h) = Err e -> external_failure events e
| ef_envelope x : adapter_error (envelope_to_vec x) = Err e -> external_failure events e
| ef_encrypt key nonce m a : adapter_error (aead_encrypt key nonce m a) = Err e ->
    external_failure events e.

Lemma external_failure_mono events events' e :
  (forall es, es ∈ events -> es ∈ events') ->
  external_failure events e -> external_failure events' e.
Proof.
  intros Hsub []; [by apply ef_keys|by eapply ef_clock; [apply Hsub|]|
    by eapply ef_nonce; [|apply Hsub|]|by eapply ef_value|by eapply ef_associated|
    by eapply ef_hash|by eapply ef_envelope|by eapply ef_encrypt].
Qed.

(** ** Sealing *)

(** The stored bytes decode to [e], whose verified payload is [v]. *)
Definition decodes (b : string) (e : EventEnvelope) (v : value) : Prop :=
  envelope_from_slice b = Ok e /\
  exists p, persisted_from_slice b = Ok p /\ verify_persisted_event protection k e p = Ok v.

Lemma decodes_event_ok b e v : decodes b e v -> event_ok protection k b e.
Proof. intros [He (p & Hp & Hv)]. split; eauto. Qed.

Lemma seal_cases nonce draft payload e :
  seal protection k nonce draft payload = Ok e ->
  exists plaintext p h, to_vec_value payload = Ok plaintext /\
    encrypt_payload protection k nonce draft plaintext = Ok p /\
    record_hash e = Ok h /\ e = set_hash h (set_payload p draft).
Proof.
  unfold seal. intros Hs. apply bind_Ok in Hs as (plaintext & Hv & Hs).
  apply bind_Ok in Hs as (p & Hp & Hs). apply bind_Ok in Hs as (h & Hh & [= <-]).
  apply map_err_Ok in Hv. exists plaintext, p, h. by split_and!.
Qed.

Lemma seal_error es draft e :
  seal protection k (st_nonce es.2) draft (ne_payload es.1) = Err e -> external_failure [es] e.
Proof.
  unfold seal, encrypt_payload, record_hash. intros Hs.
  destruct (is_plaintext protection) eqn:Hpl; inv_err; 
    first [by apply ef_keys|by eapply ef_value|by eapply ef_associated|by eapply ef_hash
      |by eapply ef_encrypt|by eapply ef_nonce; [|left|]].
Qed.

(** Decryption undoes encryption. *)
Lemma decrypt_encrypted nonce draft plaintext p h pe :
  (forall n, nonce = Ok n -> slen n = 24%N) ->
  encrypt_payload protection k nonce draft plaintext = Ok p ->
  persisted_associated_to_vec (persisted_associated_data pe)
    = associated_to_vec (associated_data draft) ->
  decrypt_persisted protection k (durable_envelope (set_hash h (set_payload p draft))) pe
    = Ok plaintext /\ pl_plaintext_hash p = sha256_hex plaintext.
Proof.
  intros Hn He Hpe. unfold encrypt_payload in He. unfold decrypt_persisted.
  destruct (is_plaintext protection) eqn:Hpl.
  - injection He as <-. cbn. by rewrite hex_roundtrip.
  - apply bind_Ok in He as ([id key] & Hk & He). unfold adapter_error in He. inv_ok.
    cbn [ev_payload durable_envelope set_hash set_payload pl_algorithm pl_key_id pl_nonce
      pl_ciphertext pl_plaintext_hash].
    rewrite String.eqb_refl. cbn [negb reject mbind result_bind].
    rewrite (active_key_known _ _ _ Hk). cbn [mbind result_bind].
    rewrite !hex_roundtrip. cbn [ok_or mbind result_bind].
    rewrite (Hn _ E), N.eqb_refl. cbn [negb reject mbind result_bind].
    rewrite Hpe, E0. cbn [adapter_error map_err mbind result_bind].
    split; [|done]. by rewrite (aead_roundtrip _ _ _ _ _ E1).
Qed.

(** What is stored for a sealed event verifies and holds its payload. *)
Lemma sealed_decodes nonce draft payload e b :
  (forall n, nonce = Ok n -> slen n = 24%N) -> parseable payload ->
  seal protection k nonce draft payload = Ok e -> envelope_to_vec e = Ok b ->
  exists v, decodes b (durable_envelope e) v /\ (exact_json payload = true -> v = payload).
Proof.
  intros Hn Hp Hs Hb. apply seal_cases in Hs as (plaintext & p & h & Hv & Henc & Hh & ->).
  destruct (envelope_roundtrip _ _ Hb) as (Hd & pe & Hpe & Hrh & Had & Hhi).
  destruct (decrypt_encrypted _ _ _ _ h pe Hn Henc Had) as [Hdec Hpt].
  destruct (value_parses _ _ Hp Hv) as [v Hval]. exists v. split.
  - split; [done|]. exists pe. split; [done|]. unfold verify_persisted_event.
    unfold persisted_record_hash. unfold record_hash in Hh. rewrite Hhi, bind_Ok.
    apply bind_Ok in Hh as (text & Ht & [= Hh]). exists h. rewrite Ht. cbn [mbind result_bind].
    rewrite Hh. split; [done|]. rewrite Hrh.
    cbn [ev_record_hash durable_envelope set_hash]. rewrite String.eqb_refl.
    cbn [negb orb reject mbind result_bind]. rewrite Hdec. cbn [mbind result_bind].
    cbn [ev_payload durable_envelope set_hash set_payload]. rewrite Hpt, String.eqb_refl.
    cbn [negb reject mbind result_bind]. by rewrite Hval.
  - intros Hx. pose proof (value_roundtrip _ _ Hp Hx Hv). congruence.
Qed.

(** ** The rows of a chain *)

(** [journal_inv] without the rows an append writes last. *)
Record rows_inv (t : Tables) (l : list EventEnvelope) : Prop := {
  ri_chain : chain l;
  ri_rows : Forall (row_ok protection k t) l;
  ri_events : contiguous (t_events t) (count l);
  ri_outbox : contiguous (t_outbox t) (count l);
  ri_index : t_stream_events t = index_map l;
  ri_versions : t_stream_versions t = versions_map l;
}.

Lemma journal_inv_rows t l : journal_inv protection k t l -> rows_inv t l.
Proof. intros []. by constructor. Qed.

Lemma rows_version t l s : rows_inv t l -> stream_version t s = version_of s l.
Proof.
  intros Hr. unfold stream_version. rewrite (ri_versions _ _ Hr).
  apply versions_map_default, Hr.
Qed.

Lemma contiguous_insert {V} (m : gmap N V) n v :
  contiguous m n -> contiguous (<[(n + 1)%N := v]> m) (n + 1).
Proof.
  intros Hc q. destruct (decide (q = n + 1)%N) as [->|Hne].
  - rewrite lookup_insert_eq. split; [lia|by eexists].
  - rewrite lookup_insert_ne by done. rewrite (Hc q). lia.
Qed.

(** The rows of one event keep the rows of the events before it. *)
Lemma row_ok_insert t e b outbox e' :
  ev_global_sequence e' <> ev_global_sequence e -> row_ok protection k t e' ->
  row_ok protection k (insert_event e b outbox t) e'.
Proof.
  intros Hne [Hb Ho]. unfold row_ok, insert_event, check_outbox in *. cbn [t_events t_outbox].
  by rewrite !lookup_insert_ne by done.
Qed.

Lemma rows_inv_extend t l e b outbox queued :
  rows_inv t l -> chain (l ++ [e]) -> event_ok protection k b e ->
  value_from_slice outbox = Ok queued -> outbox_targets queued e = true ->
  rows_inv (insert_event e b outbox t) (l ++ [e]).
Proof.
  intros Hr Hc Hok Hq Ht. pose proof (chain_snoc_inv _ _ Hc) as (_ & Hg & _ & _).
  constructor; rewrite ?count_snoc; cbn [insert_event t_events t_outbox t_stream_events
    t_stream_versions]; rewrite <- ?Hg.
  - done.
  - apply Forall_app. split.
    + apply Forall_lookup_2. intros i e' He'. apply row_ok_insert.
      * destruct (chain_lookup _ _ _ (ri_chain _ _ Hr) He') as (-> & _).
        apply lookup_lt_Some in He'. unfold count in Hg. lia.
      * by apply (Forall_lookup_1 _ _ _ _ (ri_rows _ _ Hr) He').
    + apply Forall_singleton. split.
      * exists b. split; [|done]. cbn [insert_event t_events]. by rewrite lookup_insert_eq.
      * unfold check_outbox. cbn [insert_event t_outbox]. rewrite lookup_insert_eq.
        cbn [ok_or mbind result_bind]. rewrite Hq. cbn [decode_journal_json map_err mbind result_bind].
        by rewrite Ht.
  - rewrite Hg. apply contiguous_insert, Hr.
  - rewrite Hg. apply contiguous_insert, Hr.
  - rewrite index_map_snoc. by rewrite (ri_index _ _ Hr).
  - rewrite versions_map_snoc. by rewrite (ri_versions _ _ Hr).
Qed.

(** The stream's next version is not indexed yet. *)
Lemma rows_next_fresh t l s :
  rows_inv t l -> t_stream_events t !! (s, (version_of s l + 1)%N) = None.
Proof.
  intros Hr. rewrite (ri_index _ _ Hr). apply eq_None_not_Some. intros [q Hq].
  apply index_map_lookup in Hq as (e & He & _ & Hs & Hv); [|apply Hr].
  destruct (chain_version_le _ _ _ (ri_chain _ _ Hr) He) as [_ Hle]. rewrite Hs in Hle. lia.
Qed.

Lemma outbox_record_exact id q : (q <= u64_max)%N -> exact_json (outbox_record id q) = true.
Proof. intros Hq. cbn. by apply N.leb_le in Hq as ->. Qed.
Lemma outbox_record_targets e :
  outbox_targets (outbox_record (ev_event_id e) (ev_global_sequence e)) e = true.
Proof. unfold outbox_targets. by rewrite !bool_decide_true. Qed.

(** ** One event *)

(** The stored row of [e] holds the event's payload. *)
Definition held (t : Tables) (es : NewEvent * Stamp) (e : EventEnvelope) : Prop :=
  records es e /\
  exists b v, t_events t !! ev_global_sequence e = Some b /\ decodes b (durable_envelope e) v /\
    (exact_json (ne_payload es.1) = true -> v = ne_payload es.1).

(** The chain the transaction has built from [l0]. *)
Definition appended (l0 : list EventEnvelope) (s : AppendState) : list EventEnvelope :=
  (l0 ++ (durable_envelope <$> as_persisted s))%list.

(** The locals of the transaction after the events [prior]. *)
Record append_inv (t0 : Tables) (l0 : list EventEnvelope) (prior : list (NewEvent * Stamp))
    (s : AppendState) : Prop := {
  ai_rows : rows_inv (as_tables s) (appended l0 s);
  ai_sequence : as_sequence s = count (appended l0 s);
  ai_hash : as_previous_hash s = head_hash (appended l0 s);
  ai_versions : forall id v, as_batch_versions s !! id = Some v ->
    v = version_of id (appended l0 s);
  ai_held : Forall2 (held (as_tables s)) prior (as_persisted s);
  ai_metadata : t_metadata (as_tables s) = t_metadata t0;
  ai_positions : t_positions (as_tables s) = t_positions t0;
  ai_records : t_records (as_tables s) = t_records t0;
}.

Lemma append_inv_start t l :
  rows_inv t l -> append_inv t l [] (mkAppendState t (count l) (head_hash l) ∅ []).
Proof.
  intros Hr. constructor; unfold appended; simpl; rewrite ?app_nil_r; try done.
Qed.

Lemma held_insert t es e e' b outbox :
  ev_global_sequence e <> ev_global_sequence e' -> held t es e ->
  held (insert_event e' b outbox t) es e.
Proof.
  intros Hne (Hr & b' & v & Hb & Hv). split; [done|]. exists b', v.
  cbn [insert_event t_events]. by rewrite lookup_insert_ne by done.
Qed.

(** The sequences already handed out are below the next one. *)
Lemma appended_sequence t0 l0 prior s e :
  append_inv t0 l0 prior s -> e ∈ as_persisted s ->
  (ev_global_sequence e <= count (appended l0 s))%N.
Proof.
  intros Hi [i He]%list_elem_of_lookup_1.
  assert (appended l0 s !! (length l0 + i) = Some (durable_envelope e)) as Ha.
  { unfold appended. rewrite lookup_app_r by lia.
    replace (length l0 + i - length l0) with i by lia. by rewrite list_lookup_fmap, He. }
  destruct (chain_lookup _ _ _ (ri_chain _ _ (ai_rows _ _ _ _ Hi)) Ha) as (Hg & _).
  apply lookup_lt_Some in Ha. cbn in Hg. unfold count. lia.
Qed.

(** The state after the event whose envelope is [e]. *)
Lemma append_inv_extend t0 l0 prior s es e b outbox :
  append_inv t0 l0 prior s -> event_wf es -> (count (appended l0 s) < u64_max)%N ->
  ne_expected_stream_version es.1 = version_of (ne_stream_id es.1) (appended l0 s) ->
  seal protection k (st_nonce es.2) (draft_envelope es.1 es.2 (as_sequence s + 1)
    (ne_expected_stream_version es.1 + 1) (ev_occurred_at e) (as_previous_hash s))
    (ne_payload es.1) = Ok e ->
  st_occurred_at es.2 = Ok (ev_occurred_at e) ->
  envelope_to_vec e = Ok b ->
  to_vec_value (outbox_record (ev_event_id e) (as_sequence s + 1)) = Ok outbox ->
  append_inv t0 l0 (prior ++ [es])
    (mkAppendState (insert_event e b outbox (as_tables s)) (as_sequence s + 1) (ev_record_hash e)
      (<[ev_stream_id e := (ne_expected_stream_version es.1 + 1)%N]> (as_batch_versions s))
      (as_persisted s ++ [e])).
Proof.
  intros Hi [Hp Hn] Hmax Hver Hs Hat Hb Hob.
  destruct (sealed_decodes _ _ _ _ _ Hn Hp Hs Hb) as (v & Hdec & Hexact).
  assert (exists p h, e = set_hash h (set_payload p (draft_envelope es.1 es.2 (as_sequence s + 1)
    (ne_expected_stream_version es.1 + 1) (ev_occurred_at e) (as_previous_hash s)))) as (p & h & He).
  { apply seal_cases in Hs as (? & p & h & _ & _ & _ & He). eauto. }
  assert (ev_global_sequence e = count (appended l0 s) + 1)%N as Hg.
  { rewrite He. cbn. by rewrite (ai_sequence _ _ _ _ Hi). }
  assert (chain (appended l0 s ++ [durable_envelope e])) as Hc.
  { constructor; [apply (ai_rows _ _ _ _ Hi)|done| |]; rewrite He; cbn.
    - apply (ai_hash _ _ _ _ Hi).
    - by rewrite Hver. }
  assert (forall x, appended l0 (mkAppendState x (as_sequence s + 1) (ev_record_hash e)
    (<[ev_stream_id e := (ne_expected_stream_version es.1 + 1)%N]> (as_batch_versions s))
    (as_persisted s ++ [e])) = (appended l0 s ++ [durable_envelope e])%list) as Happ.
  { intros x. unfold appended. simpl. by rewrite fmap_app, app_assoc. }
  assert (as_sequence s + 1 = ev_global_sequence e)%N as Hseq
    by (rewrite Hg; by rewrite (ai_sequence _ _ _ _ Hi)).
  constructor; rewrite ?Happ; cbn [as_tables as_sequence as_previous_hash as_batch_versions
    as_persisted].
  - rewrite Hseq in Hob.
    apply (rows_inv_extend _ _ (durable_envelope e) _ _
      (outbox_record (ev_event_id e) (ev_global_sequence e))); [apply Hi|done| | |].
    + by apply decodes_event_ok with v.
    + apply value_roundtrip in Hob; [done| |apply outbox_record_exact; lia].
      unfold parseable, MAX_PARSED_DEPTH. cbn. lia.
    + apply (outbox_record_targets (durable_envelope e)).
  - by rewrite count_snoc, Hseq.
  - by rewrite head_hash_snoc.
  - intros id w. rewrite version_of_snoc.
    assert (ev_stream_id e = ne_stream_id es.1) as Hid by (by rewrite He).
    cbn [durable_envelope ev_stream_id]. rewrite Hid.
    destruct (String.eqb_spec (ne_stream_id es.1) id) as [<-|Hne].
    + rewrite lookup_insert_eq. intros [= <-]. lia.
    + rewrite lookup_insert_ne by done. intros Hw. rewrite N.add_0_r.
      by apply (ai_versions _ _ _ _ Hi).
  - apply Forall2_app.
    + apply Forall2_same_length_lookup_2; [by eapply Forall2_length, Hi|].
      intros i es' e' Hes' He'. pose proof (Forall2_lookup_lr _ _ _ _ _ _ (ai_held _ _ _ _ Hi) Hes' He') as Hh.
      apply list_elem_of_lookup_2 in He'. apply held_insert; [|done].
      pose proof (appended_sequence _ _ _ _ _ Hi He'). lia.
    + constructor; [|constructor]. split.
      * constructor; by rewrite He || done.
      * exists b, v. cbn [insert_event t_events]. by rewrite lookup_insert_eq.
  - apply Hi.
  - apply Hi.
  - apply Hi.
Qed.

Lemma version_of_le id l : (version_of id l <= count l)%N.
Proof.
  unfold version_of, count, stream_of.
  assert (length (List.filter (fun e => String.eqb (ev_stream_id e) id) l) <= length l)%nat; [|lia].
  apply List.filter_length_le.
Qed.

Lemma durable_version t0 l0 prior s id :
  append_inv t0 l0 prior s ->
  match as_batch_versions s !! id with
  | Some v => v
  | None => stream_version (as_tables s) id
  end = version_of id (appended l0 s).
Proof.
  intros Hi. destruct (as_batch_versions s !! id) as [v|] eqn:Hv.
  - by apply (ai_versions _ _ _ _ Hi).
  - apply rows_version, Hi.
Qed.

(** One event: its conflict, its place in the chain, or a failure outside. *)
Lemma append_event_spec t0 l0 prior s es :
  append_inv t0 l0 prior s -> event_wf es -> (count (appended l0 s) < u64_max)%N ->
  match append_event protection k s es with
  | Ok s' =>
      ne_expected_stream_version es.1 = version_of (ne_stream_id es.1) (appended l0 s) /\
      append_inv t0 l0 (prior ++ [es]) s' /\
      exists e, appended l0 s' = (appended l0 s ++ [e])%list /\ ev_stream_id e = ne_stream_id es.1
  | Err x =>
      let actual := version_of (ne_stream_id es.1) (appended l0 s) in
      (ne_expected_stream_version es.1 <> actual /\
       x = Conflict (ne_stream_id es.1) (ne_expected_stream_version es.1) actual) \/
      (ne_expected_stream_version es.1 = actual /\ external_failure [es] x)
  end.
Proof.
  intros Hi Hwf Hmax. destruct es as [event stamp]. unfold append_event. simpl.
  rewrite (durable_version _ _ _ _ _ Hi).
  destruct (N.eqb_spec (ne_expected_stream_version event)
    (version_of (ne_stream_id event) (appended l0 s))) as [Hver|Hne]; [|by left].
  pose proof (version_of_le (ne_stream_id event) (appended l0 s)) as Hle. unfold checked_add.
  rewrite (ai_sequence _ _ _ _ Hi).
  rewrite (proj2 (N.leb_le (count (appended l0 s) + 1) u64_max)) by lia.
  rewrite (proj2 (N.leb_le (version_of (ne_stream_id event) (appended l0 s) + 1) u64_max)) by lia.
  cbn [negb reject ok_or mbind result_bind].
  destruct (adapter_error (st_occurred_at stamp)) as [at_|x] eqn:Hat; cbn [mbind result_bind];
    [|right; split; [done|]; by eapply ef_clock; [left|]].
  destruct (seal _ _ _ _ _) as [e|x] eqn:Hs; cbn [mbind result_bind];
    [|right; split; [done|]; by eapply (seal_error (event, stamp))].
  destruct (adapter_error (envelope_to_vec e)) as [b|x] eqn:Hb; cbn [mbind result_bind];
    [|right; split; [done|]; by eapply ef_envelope].
  assert (exists p h, e = set_hash h (set_payload p (draft_envelope event stamp
    (count (appended l0 s) + 1) (version_of (ne_stream_id event) (appended l0 s) + 1) at_
    (as_previous_hash s)))) as (p & h & He).
  { apply seal_cases in Hs as (? & p & h & _ & _ & _ & He). eauto. }
  assert (ev_stream_id e = ne_stream_id event /\ ev_occurred_at e = at_) as [Hid Hoc]
    by (by rewrite He).
  rewrite Hid, (rows_next_fresh _ _ _ (ai_rows _ _ _ _ Hi)).
  cbn [is_some is_some_and reject mbind result_bind].
  destruct (adapter_error (to_vec_value _)) as [ob|x] eqn:Hob; cbn [mbind result_bind];
    [|right; split; [done|]; by eapply ef_value].
  unfold adapter_error in Hat, Hb, Hob. apply map_err_Ok in Hat, Hb, Hob.
  split; [done|]. split.
  - pose proof (append_inv_extend t0 l0 prior s (event, stamp) e b ob Hi Hwf Hmax Hver) as Hext.
    simpl in Hext. rewrite Hver, Hoc, (ai_sequence _ _ _ _ Hi), Hid in Hext. by apply Hext.
  - exists (durable_envelope e). split; [|done]. unfold appended. simpl.
    by rewrite fmap_app, app_assoc.
Qed.

Lemma first_conflict_ext f g events :
  (forall id, f id = g id) -> first_conflict f events = first_conflict g events.
Proof.
  revert f g. induction events as [|event events IH]; intros f g Hfg; [done|]. simpl.
  rewrite Hfg. destruct (_ =? _)%N; [|done]. apply IH. intros id. by rewrite !Hfg.
Qed.

(** The loop. *)
Lemma append_events_spec t0 l0 prior s events :
  append_inv t0 l0 prior s -> Forall event_wf events ->
  (count (appended l0 s) + count events <= u64_max)%N ->
  let conflict := first_conflict (fun id => version_of id (appended l0 s)) events.*1 in
  match try_fold (append_event protection k) events s with
  | Ok s' => conflict = None /\ append_inv t0 l0 (prior ++ events) s'
  | Err x =>
      (exists id expected actual, conflict = Some (id, expected, actual) /\
         x = Conflict id expected actual) \/ external_failure events x
  end.
Proof.
  revert prior s. induction events as [|es events IH]; intros prior s Hi Hwf Hmax.
  { simpl. by rewrite app_nil_r. }
  apply Forall_cons in Hwf as [Hes Hwf].
  assert (count (es :: events) = count events + 1)%N as Hcnt by (unfold count; simpl; lia).
  pose proof (append_event_spec _ _ _ _ es Hi Hes ltac:(lia)) as Hstep. cbn [try_fold].
  destruct es as [event stamp]. cbn [fst] in Hstep.
  destruct (append_event protection k s (event, stamp)) as [s'|x]; cbn [mbind result_bind].
  - destruct Hstep as (Hver & Hi' & e & Happ & Hid).
    specialize (IH _ _ Hi' Hwf). rewrite Happ, count_snoc in IH. specialize (IH ltac:(lia)).
    cbn. rewrite Hver, N.eqb_refl. rewrite <- app_assoc in IH. cbn [app] in IH.
    rewrite (first_conflict_ext _ (fun id => version_of id (appended l0 s ++ [e])%list)).
    { destruct (try_fold _ _ _); [done|]. destruct IH as [IH|IH]; [by left|right].
      eapply external_failure_mono, IH. intros es Hin. by right. }
    intros id. rewrite version_of_snoc, Hid. by destruct (String.eqb _ _); rewrite ?N.add_0_r.
  - cbn. destruct Hstep as [[Hne ->]|[_ Hx]];
      [|right; eapply external_failure_mono, Hx; intros es ->%list_elem_of_singleton; left].
    left. do 3 eexists. split; [|done]. by rewrite (proj2 (N.eqb_neq _ _) Hne).
Qed.

(** ** The transaction *)

Lemma check_position_mono n m entry :
  (n <= m)%N -> check_position n entry = Ok tt -> check_position m entry = Ok tt.
Proof.
  intros Hnm. destruct entry as [p v]. unfold check_position. rewrite !bind_Ok.
  intros (a & Ha & Hr). exists a. split; [done|]. apply reject_Ok, N.ltb_ge in Hr.
  apply reject_Ok, N.ltb_ge. lia.
Qed.

(** The head rows written last make the transaction's tables the journal of its chain. *)
Lemma commit_inv t0 l0 events s sequence_bytes hash_bytes :
  journal_inv protection k t0 l0 -> append_inv t0 l0 events s ->
  u64_from_slice sequence_bytes = Ok (as_sequence s) ->
  string_from_slice hash_bytes = Ok (as_previous_hash s) ->
  let t' := set_metadata "last_hash" hash_bytes
              (set_metadata "last_sequence" sequence_bytes (as_tables s)) in
  journal_inv protection k t' (appended l0 s) /\ latest_checkpoint t' = latest_checkpoint t0.
Proof.
  intros Hj Hi Hsq Hhs t'. split.
  - pose proof (ai_rows _ _ _ _ Hi) as Hr.
    constructor; try apply Hr.
    + unfold last_sequence. cbn [t' set_metadata t_metadata].
      rewrite lookup_insert_ne, lookup_insert_eq by done. rewrite Hsq.
      by rewrite (ai_sequence _ _ _ _ Hi).
    + unfold last_hash. cbn [t' set_metadata t_metadata]. rewrite lookup_insert_eq, Hhs.
      by rewrite (ai_hash _ _ _ _ Hi).
    + unfold stream_events_index_version. cbn [t' set_metadata t_metadata].
      rewrite !lookup_insert_ne by done. rewrite (ai_metadata _ _ _ _ Hi). apply Hj.
    + intros p n Hp. cbn [t' set_metadata t_positions] in Hp.
      rewrite (ai_positions _ _ _ _ Hi) in Hp. apply (ji_positions _ _ _ _ Hj) in Hp.
      eapply check_position_mono, Hp. unfold appended. rewrite count_app. lia.
    + intros key b Hb. cbn [t' set_metadata t_records] in Hb.
      rewrite (ai_records _ _ _ _ Hi) in Hb. by eapply (ji_records _ _ _ _ Hj).
  - unfold latest_checkpoint. cbn [t' set_metadata t_metadata].
    rewrite !lookup_insert_ne by done. by rewrite (ai_metadata _ _ _ _ Hi).
Qed.

Lemma append_locked_spec t l events :
  journal_inv protection k t l -> Forall event_wf events ->
  (count l + count events <= u64_max)%N ->
  let conflict := first_conflict (fun id => version_of id l) events.*1 in
  match append_locked false protection k events t with
  | Ok (t', es) =>
      conflict = None /\ journal_inv protection k t' (l ++ (durable_envelope <$> es)) /\
      Forall2 (held t') events es /\ latest_checkpoint t' = latest_checkpoint t /\
      (events = [] /\ t' = t \/ is_Some (t_metadata t' !! "last_hash"))
  | Err x =>
      (exists id expected actual, conflict = Some (id, expected, actual) /\
         x = Conflict id expected actual) \/ external_failure events x
  end.
Proof.
  intros Hj Hwf Hmax conflict. unfold append_locked. cbn [reject mbind result_bind].
  destruct events as [|es events]; [rewrite bool_decide_true by done; simpl;
    rewrite app_nil_r; by split_and!; [..|left]|].
  rewrite bool_decide_false by done.
  rewrite (ji_sequence _ _ _ _ Hj), (ji_hash _ _ _ _ Hj). cbn [mbind result_bind].
  assert (appended l (mkAppendState t (count l) (head_hash l) ∅ []) = l) as Happ
    by apply app_nil_r.
  pose proof (append_events_spec t l [] _ (es :: events)
    (append_inv_start t l (journal_inv_rows _ _ Hj)) Hwf) as Hloop.
  rewrite Happ in Hloop. specialize (Hloop Hmax). fold conflict in Hloop.
  destruct (try_fold _ _ _) as [s|x]; cbn [mbind result_bind]; [|done].
  destruct Hloop as [Hnone Hi]. cbn [app] in Hi.
  assert (as_sequence s <= u64_max)%N as Hle.
  { rewrite (ai_sequence _ _ _ _ Hi). unfold appended. rewrite count_app.
    unfold count at 2. rewrite length_fmap, <- (Forall2_length _ _ _ (ai_held _ _ _ _ Hi)).
    exact Hmax. }
  destruct (u64_roundtrip _ Hle) as (sb & Hsb & Hsq). rewrite Hsb.
  destruct (string_roundtrip (as_previous_hash s)) as (hb & Hhb & Hhs). rewrite Hhb.
  cbn [adapter_error map_err mbind result_bind].
  destruct (commit_inv _ _ _ _ _ _ Hj Hi Hsq Hhs) as [Hj' Hcp].
  split; [done|]. split; [done|]. split; [|split; [done|]].
  - apply (Forall2_impl _ _ _ _ (ai_held _ _ _ _ Hi)). done.
  - right. cbn [set_metadata t_metadata]. rewrite lookup_insert_eq. by eexists.
Qed.

End Append.
