(* ===== verification/StoreSpec.v ===== *)
(** * What the event journal promises

    The contract of the [EventJournal] port, against which the repositories over it are
    verified: a journal holds a history, a chain of events with their payloads; an append
    extends it by the batch or leaves it alone; reads answer with slices of it.
    [JournalHolds] discharges it for the redb journal. *)

From S2P Require Import Prelude Json Contracts Boundary Platform JournalStore Journal Store.
From S2P Require Import JournalModel JournalAppend.

Open Scope string_scope.

(** ** Histories *)

Abbreviation history := (list (EventEnvelope * value)).

Definition stream_entries (id : string) (h : history) : history :=
  List.filter (fun ev => String.eqb (ev_stream_id ev.1) id) h.
Definition stream_ids (h : history) : list string := sort_dedup (ev_stream_id <$> h.*1).
(** The entries of a recorded batch. *)
Definition entries (events : list NewEvent) (es : list EventEnvelope) : history :=
  zip (durable_envelope <$> es) (ne_payload <$> events).

(** An event a client may append: its payload is read back exactly. *)
Definition recordable (event : NewEvent) : Prop :=
  parseable (ne_payload event) /\ exact_json (ne_payload event) = true.
Definition inputs_ok (inputs : Inputs) : Prop :=
  forall i nonce, st_nonce (in_stamp inputs i) = Ok nonce -> slen nonce = 24%N.

(** The page of stream identifiers after a cursor. *)
Definition ids_after (prefix : string) (after : option string) (h : history) : list string :=
  List.filter (fun id => starts_with id prefix && is_none_or after (fun c => str_ltb c id))
    (stream_ids h).

(** The envelopes record the batch, and every event expected its stream's version. *)
Definition batch_committed (h : history) (inputs : Inputs) (events : list NewEvent)
    (es : list EventEnvelope) : Prop :=
  Forall2 records (stamped inputs events) es /\
  first_conflict (fun id => version_of id h.*1) events = None.

Class EventJournalOk (J : Type) `{EventJournal J} := {
  holds : J -> history -> Prop;
  (** Everything the journal takes from outside answers. *)
  available : J -> Inputs -> list NewEvent -> Prop;
  holds_chain : forall j h, holds j h -> chain h.*1;
  holds_unique : forall j h h', holds j h -> holds j h' -> h = h';
  ej_append_batch_ok : forall j h inputs events,
    holds j h -> Forall recordable events -> inputs_ok inputs ->
    (count h + count events + 1 < u64_max)%N ->
    let '(r, j') := ej_append_batch inputs events j in
    match r with
    | Ok es => batch_committed h inputs events es /\ holds j' (h ++ entries events es)
    | Err _ => holds j' h \/
        exists es, batch_committed h inputs events es /\ holds j' (h ++ entries events es)
    end;
  ej_append_ok : forall inputs event j,
    ej_append inputs event j
    = (es <~ ej_append_batch inputs [event];;
       op_lift (ok_or (last es) (StoreAdapter "append returned no event")))%op j;
  ej_append_available : forall j h inputs events,
    holds j h -> Forall recordable events -> inputs_ok inputs ->
    (count h + count events + 1 < u64_max)%N -> available j inputs events ->
    match first_conflict (fun id => version_of id h.*1) events with
    | None => exists es, (ej_append_batch inputs events j).1 = Ok es
    | Some (id, expected, actual) =>
        ej_append_batch inputs events j = (Err (Conflict id expected actual), j)
    end;
  ej_read_stream_ok : forall j h id, holds j h -> (count h + 1 < u64_max)%N ->
    ej_read_stream id j = (Ok (stream_entries id h).*1, j);
  ej_read_stream_from_ok : forall j h id after limit, holds j h -> (count h + 1 < u64_max)%N ->
    ej_read_stream_from id after limit j
    = (Ok (take (N.to_nat (N.min limit MAX_STREAM_READ_BATCH))
         (drop (N.to_nat after) (stream_entries id h).*1)), j);
  ej_read_stream_backwards_ok : forall j h id before limit, holds j h -> (count h + 1 < u64_max)%N ->
    ej_read_stream_backwards id before limit j
    = (Ok (take (N.to_nat (N.min limit MAX_STREAM_READ_BATCH))
         (rev match before with
              | Some v => take (N.to_nat (v - 1)) (stream_entries id h).*1
              | None => (stream_entries id h).*1
              end)), j);
  ej_list_stream_ids_ok : forall j h prefix after limit, holds j h ->
    has_nul prefix = false ->
    (forall c, after = Some c -> has_nul c = false /\ starts_with c prefix = true) ->
    ej_list_stream_ids prefix after limit j
    = (Ok (take (N.to_nat (N.min limit MAX_STREAM_LIST_BATCH)) (ids_after prefix after h)), j);
  ej_decrypt_payload_ok : forall j h e v, holds j h -> (e, v) ∈ h ->
    ej_decrypt_payload e j = (Ok v, j);
}.
