(* ===== verification/JournalPort.v ===== *)
(** * The journal port: checkpoints, appends and verification

    [journal_ok] is what every operation of the [EventJournal] port keeps of a journal:
    its tables hold a chain, the checkpoint and the secure anchor name records of it, and
    it is open for writing. *)

From S2P Require Import Prelude Json Contracts Boundary Platform CommandApproval.
From S2P Require Import JournalStore Journal JournalVerify JournalModel JournalCorrect.
From S2P Require Import JournalAppend JournalTest.

Open Scope string_scope.

Section Port.
Context `{Externals} `{JournalCodec} `{!JournalCodecOk}.
Context {K Sg} `{KeyProvider K} `{!KeyProviderOk K} `{CheckpointSigner Sg} `{!CheckpointSignerOk Sg}.
Abbreviation journal := (RedbEventJournal K Sg).

Record journal_ok (j : journal) (l : list EventEnvelope) : Prop := {
  jo_inv : journal_inv (rj_payload_protection j) (rj_keys j) (rj_tables j) l;
  jo_head : l <> [] -> is_Some (t_metadata (rj_tables j) !! "last_hash");
  jo_writable : rj_recovery_mode j = false;
  jo_checkpoint : exists c, latest_checkpoint (rj_tables j) = Ok c /\
    checkpoint_ok (rj_payload_protection j) (rj_signer j) l c;
  jo_anchor : exists a, load_anchor (rj_keys j) = Ok a /\ anchor_ok l a;
}.

(** ** What survives a longer chain and other keys *)

Lemma hash_at_Some l q h : hash_at l q = Some h -> (1 <= q <= count l)%N.
Proof.
  unfold hash_at. destruct (N.eqb_spec q 0); [done|]. intros Hl.
  apply fmap_Some in Hl as (e & He & _). apply lookup_lt_Some in He. unfold count. lia.
Qed.
Lemma hash_at_app l l' q h : hash_at l q = Some h -> hash_at (l ++ l') q = Some h.
Proof.
  intros Hh. pose proof (hash_at_Some _ _ _ Hh) as Hq. unfold hash_at in *.
  destruct (q =? 0)%N; [done|]. unfold count in Hq. by rewrite lookup_app_l by lia.
Qed.
Lemma hash_at_head l : l <> [] -> hash_at l (count l) = Some (head_hash l).
Proof.
  intros Hne. unfold hash_at, head_hash. destruct l as [|e l] using rev_ind; [done|].
  rewrite count_snoc, last_snoc. destruct (N.eqb_spec (count l + 1) 0); [lia|].
  unfold count. rewrite lookup_app_r by lia.
  by replace (N.to_nat (N.of_nat (length l) + 1 - 1) - length l) with 0 by lia.
Qed.

Lemma checkpoint_ok_app protection s l l' c :
  checkpoint_ok protection s l c -> checkpoint_ok protection s (l ++ l') c.
Proof.
  destruct c as [c|]; [|done]. intros [Hp Hv]. split; [done|]. revert Hv.
  unfold verify_checkpoint. rewrite !bind_Ok. intros ([] & Hr & Hs). exists tt.
  split; [|done]. apply reject_Ok, negb_false_iff, bool_decide_eq_true in Hr.
  apply reject_Ok, negb_false_iff, bool_decide_eq_true. by apply hash_at_app.
Qed.
Lemma anchor_ok_app l l' a : anchor_ok l a -> anchor_ok (l ++ l') a.
Proof. destruct a; [|done]. apply hash_at_app. Qed.

(** Keys that know the same identities. *)
Definition same_keys (k k' : K) : Prop := forall id, key_by_id k' id = key_by_id k id.

Lemma verify_event_keys protection k k' e p :
  same_keys k k' ->
  verify_persisted_event protection k' e p = verify_persisted_event protection k e p.
Proof. intros Hk. unfold verify_persisted_event, decrypt_persisted. by rewrite Hk. Qed.
Lemma journal_inv_keys protection k k' t l :
  same_keys k k' -> journal_inv protection k t l -> journal_inv protection k' t l.
Proof.
  intros Hk []. constructor; try done. eapply Forall_impl; [done|].
  intros e [(b & Hb & He & p & v & Hp & Hv) Ho]. split; [|done].
  exists b. split; [done|]. split; [done|]. exists p, v. by rewrite (verify_event_keys _ _ _ _ _ Hk).
Qed.
Lemma held_keys protection k k' t es e :
  same_keys k k' -> held protection k t es e -> held protection k' t es e.
Proof.
  intros Hk (Hr & b & v & Hb & (He & p & Hp & Hv) & Hx). split; [done|]. exists b, v.
  split; [done|]. split; [|done]. split; [done|]. exists p.
  by rewrite (verify_event_keys _ _ _ _ _ Hk).
Qed.

(** Metadata rows other than the ones verification reads. *)
Lemma journal_inv_metadata protection k t l key b :
  key <> "last_sequence" -> key <> "last_hash" -> key <> STREAM_EVENTS_INDEX_KEY ->
  journal_inv protection k t l -> journal_inv protection k (set_metadata key b t) l.
Proof.
  intros H1' H2' H3' []. constructor; try done;
    unfold last_sequence, last_hash, stream_events_index_version;
    cbn [set_metadata t_metadata]; by rewrite lookup_insert_ne.
Qed.

(** ** Quarantine *)

Lemma quarantine_keeps {A} (r : result StoreError A) (j : journal) :
  (forall e, r = Err e -> integrity_error e = false) -> quarantine_result r j = (r, j).
Proof.
  intros Hr. destruct r as [a|e]; [done|]. specialize (Hr e eq_refl). by destruct e.
Qed.
Lemma quarantine_ok {A} (a : A) (j : journal) : quarantine_result (Ok a) j = (Ok a, j).
Proof. done. Qed.

Lemma adapter_error_integrity {A} (r : result string A) e :
  adapter_error r = Err e -> integrity_error e = false.
Proof. destruct r; [done|]. by intros [= <-]. Qed.
Lemma external_failure_integrity protection (k : K) events e :
  external_failure protection k events e -> integrity_error e = false.
Proof. intros []; [by eapply active_key_error|by eapply adapter_error_integrity..]. Qed.

(** ** Checkpoints *)

Lemma head_hash_row_ok j l :
  journal_ok j l -> l <> [] -> head_hash_row (rj_tables j) = Ok (head_hash l).
Proof.
  intros Hj Hne. destruct (jo_head _ _ Hj Hne) as [b Hb]. unfold head_hash_row. rewrite Hb.
  cbn [ok_or mbind result_bind]. pose proof (ji_hash _ _ _ _ (jo_inv _ _ Hj)) as Hh.
  unfold last_hash in Hh. by rewrite Hb in Hh.
Qed.

(** The head's own checkpoint verifies. *)
Lemma signed_head_ok (s : Sg) l signature created :
  l <> [] -> sign s (checkpoint_message (count l) (head_hash l)) = Ok signature ->
  verify_checkpoint s (mkSignedCheckpoint (count l) (head_hash l) (signer_key_id s) "Ed25519"
    (hex_encode signature) created) (hash_at l (count l)) = Ok tt.
Proof.
  intros Hne Hs. unfold verify_checkpoint, verify_checkpoint_signature. simpl.
  rewrite (hash_at_head _ Hne), bool_decide_true, String.eqb_refl, hex_roundtrip by done.
  simpl. by apply sign_verify.
Qed.

(** A journal after its anchor moved to the head. *)
Lemma journal_ok_anchor j l k' :
  journal_ok j l -> l <> [] ->
  store_anchor (checkpoint_anchor (count l) (head_hash l)) (rj_keys j) = Ok k' ->
  journal_ok (set_keys k' j) l.
Proof.
  intros Hj Hne Hk. constructor; try apply Hj.
  - eapply journal_inv_keys, Hj. intros id. by eapply store_anchor_keys.
  - exists (Some (checkpoint_anchor (count l) (head_hash l))).
    split; [by eapply store_anchor_load|]. by apply hash_at_head.
Qed.

(** A checkpoint names the head, and a failed one leaves the journal as sound as it was,
    even when the anchor had already moved. *)
Lemma checkpoint_spec now j l :
  journal_ok j l ->
  let '(r, j') := checkpoint now j in
  journal_ok j' l /\ same_keys (rj_keys j) (rj_keys j') /\
  rj_payload_protection j' = rj_payload_protection j /\
  t_events (rj_tables j') = t_events (rj_tables j) /\
  match r with
  | Ok (Some c) => cp_global_sequence c = count l /\ cp_record_hash c = head_hash l /\
      latest_checkpoint (rj_tables j') = Ok (Some c) /\
      load_anchor (rj_keys j') = Ok (Some (checkpoint_anchor (count l) (head_hash l)))
  | Ok None => is_plaintext (rj_payload_protection j) = true \/ l = []
  | Err e => integrity_error e = false
  end.
Proof.
  intros Hj. unfold checkpoint, checkpoint_inner.
  destruct (is_plaintext (rj_payload_protection j)) eqn:Hpl; [by (rewrite quarantine_ok; split_and!; try done; left)|].
  rewrite (jo_writable _ _ Hj), (ji_sequence _ _ _ _ (jo_inv _ _ Hj)). cbn [mbind result_bind].
  destruct (N.eqb_spec (count l) 0) as [H0'|Hne'].
  { rewrite quarantine_ok. split_and!; try done. right. by destruct l. }
  assert (l <> []) as Hne by (by intros ->).
  rewrite (head_hash_row_ok _ _ Hj Hne). cbn [mbind result_bind].
  assert (forall e, integrity_error e = false ->
    quarantine_result (A:=option SignedCheckpoint) (Err e) j = (Err e, j)) as Hfail.
  { intros e He. apply quarantine_keeps. naive_solver. }
  destruct (sign _ _) as [signature|e] eqn:Hs; cbn [mbind result_bind];
    [|rewrite Hfail; [split_and!; try done|]; by eapply sign_error].
  destruct (adapter_error now) as [created|e] eqn:Hn; cbn [mbind result_bind];
    [|rewrite Hfail; [split_and!; try done|]; by eapply adapter_error_integrity].
  destruct (store_anchor _ _) as [k'|e] eqn:Hk; cbn [mbind result_bind];
    [|rewrite Hfail; [split_and!; try done|]; by eapply store_anchor_error].
  pose proof (journal_ok_anchor _ _ _ Hj Hne Hk) as Hj'.
  assert (same_keys (rj_keys j) k') as Hsame by (intros id; by eapply store_anchor_keys).
  destruct (adapter_error (checkpoint_to_vec _)) as [b|e] eqn:Hb.
  - rewrite quarantine_ok. unfold adapter_error in Hb. apply map_err_Ok in Hb.
    assert (latest_checkpoint (set_metadata "latest_checkpoint" b (rj_tables j))
      = Ok (Some (mkSignedCheckpoint (count l) (head_hash l) (signer_key_id (rj_signer j))
          "Ed25519" (hex_encode signature) created))) as Hlc.
    { unfold latest_checkpoint. cbn [set_metadata t_metadata]. rewrite lookup_insert_eq. simpl.
      by rewrite (checkpoint_roundtrip _ _ Hb). }
    split; [|split_and!; try done; by eapply store_anchor_load].
    constructor; try apply Hj'.
    + apply journal_inv_metadata; [done..|]. apply (jo_inv _ _ Hj').
    + intros _. cbn. destruct (jo_head _ _ Hj Hne) as [h Hh]. exists h.
      by rewrite lookup_insert_ne.
    + eexists. split; [exact Hlc|]. split; [done|]. by apply signed_head_ok.
  - rewrite quarantine_keeps by (intros ? [= <-]; by eapply adapter_error_integrity).
    split; [done|]. split_and!; try done. by eapply adapter_error_integrity.
Qed.

(** ** Appends *)

(** The journal after a committed batch. *)
Lemma journal_ok_append j l events t' es :
  journal_ok j l -> Forall event_wf events -> (count l + count events <= u64_max)%N ->
  append_locked false (rj_payload_protection j) (rj_keys j) events (rj_tables j) = Ok (t', es) ->
  journal_ok (set_tables t' j) (l ++ (durable_envelope <$> es)) /\
  first_conflict (fun id => version_of id l) events.*1 = None /\
  Forall2 (held (rj_payload_protection j) (rj_keys j) t') events es.
Proof.
  intros Hj Hwf Hmax Ha. pose proof (append_locked_spec _ _ _ _ _ (jo_inv _ _ Hj) Hwf Hmax) as Hs.
  rewrite Ha in Hs. destruct Hs as (Hnone & Hinv & Hheld & Hcp & Hhead). split; [|done].
  constructor; cbn [set_tables rj_tables rj_keys rj_payload_protection rj_signer rj_recovery_mode];
    try done.
  - intros Hne. destruct Hhead as [[-> ->]|?]; [|done]. apply Forall2_nil_inv_l in Hheld as ->.
    rewrite app_nil_r in Hne. by apply Hj.
  - apply Hj.
  - destruct (jo_checkpoint _ _ Hj) as (c & Hc & Hok). exists c. rewrite Hcp. split; [done|].
    by apply checkpoint_ok_app.
  - destruct (jo_anchor _ _ Hj) as (a & Hl & Hok). exists a. split; [done|].
    by apply anchor_ok_app.
Qed.

(** The batch is in the journal. *)
Definition batch_recorded (events : list (NewEvent * Stamp)) (l : list EventEnvelope)
    (es : list EventEnvelope) (j' : journal) : Prop :=
  journal_ok j' (l ++ (durable_envelope <$> es)) /\
  first_conflict (fun id => version_of id l) events.*1 = None /\
  Forall2 (held (rj_payload_protection j') (rj_keys j') (rj_tables j')) events es.

(** A checkpoint taken after a batch keeps it. *)
Lemma checkpoint_keeps_batch now events l es j :
  batch_recorded events l es j ->
  let '(r, j') := checkpoint now j in
  batch_recorded events l es j' /\
  match r with Ok _ => True | Err e => integrity_error e = false end.
Proof.
  intros (Hj & Hc & Hh). pose proof (checkpoint_spec now _ _ Hj) as Hs.
  destruct (checkpoint now j) as [r j']. destruct Hs as (Hj' & Hk & Hp & Ht & Hr).
  split; [|by destruct r]. split; [done|]. split; [done|]. rewrite Hp.
  apply (Forall2_impl _ _ _ _ Hh). intros ev e He. apply (held_keys _ _ _ _ _ _ Hk) in He.
  destruct He as (Hrec & b & v & Hb & Hd). split; [done|]. exists b, v. by rewrite Ht.
Qed.

(** How an append can fail without an effect. *)
Definition append_failure (j : journal) (events : list (NewEvent * Stamp)) (l : list EventEnvelope)
    (e : StoreError) : Prop :=
  (exists id expected actual,
     first_conflict (fun id => version_of id l) events.*1 = Some (id, expected, actual) /\
     e = Conflict id expected actual)
  \/ external_failure (rj_payload_protection j) (rj_keys j) events e.

(** The checkpoint that may follow a batch. *)
Lemma due_checkpoint_keeps_batch now (due : bool) events l es j :
  batch_recorded events l es j ->
  let '(r, j') :=
    if due then
      let '(c, j) := checkpoint now j in
      match c with Err e => (Err e, j) | Ok _ => (Ok es, j) end
    else (Ok es, j) in
  batch_recorded events l es j' /\
  match r with Ok es' => es' = es | Err e => integrity_error e = false end.
Proof.
  intros Hb. destruct due; [|done]. pose proof (checkpoint_keeps_batch now _ _ _ _ Hb) as Hc.
  destruct (checkpoint now j) as [[c|e] j']; by destruct Hc.
Qed.

(** Reading the last checkpoint of a sound journal does not fail. *)
Lemma due_sequence j l (es : list EventEnvelope) :
  journal_ok j l ->
  exists q, match es with
    | [] => (Ok 0%N, j)
    | _ => quarantine_result (checkpoint_sequence (rj_tables j)) j
    end = (Ok q, j).
Proof.
  intros Hj. destruct (jo_checkpoint _ _ Hj) as (c & Hcp & _). unfold checkpoint_sequence.
  rewrite Hcp. destruct es; by eexists.
Qed.

(** The answers of [append_batch] and what they leave. *)
Lemma append_batch_cases now age_due events j l :
  journal_ok j l -> Forall event_wf events -> (count l + count events <= u64_max)%N ->
  let '(r, j') := append_batch now age_due events j in
  match r with
  | Ok es => batch_recorded events l es j'
  | Err e => integrity_error e = false /\
      (j' = j /\ append_failure j events l e \/
       is_plaintext (rj_payload_protection j) = false /\
         exists es, batch_recorded events l es j')
  end.
Proof.
  intros Hj Hwf Hmax. unfold append_batch. rewrite (jo_writable _ _ Hj).
  destruct (append_locked _ _ _ _ _) as [[t' es]|e] eqn:Ha.
  - pose proof (journal_ok_append _ _ _ _ _ Hj Hwf Hmax Ha) as (Hj' & Hc & Hh).
    assert (batch_recorded events l es (set_tables t' j)) as Hb by done.
    cbn [fmap result_fmap snd]. rewrite quarantine_ok.
    cbn [set_tables rj_payload_protection].
    destruct (is_plaintext (rj_payload_protection j)) eqn:Hpl; [done|].
    destruct (due_sequence _ _ es Hj') as [q Hq].
    cbn [set_tables] in Hq. rewrite Hq.
    pose proof (due_checkpoint_keeps_batch now (is_some_and (last es) (fun e =>
      CHECKPOINT_INTERVAL <=? saturating_sub (ev_global_sequence e) q)%N || age_due) _ _ _ _ Hb) as Hd.
    cbn [set_tables] in Hd.
    match type of Hd with (let '(_, _) := ?x in _) => destruct x as [[es'|e] j'] end.
    + by destruct Hd as [Hd ->].
    + destruct Hd as [Hd He]. split; [done|]. right. eauto.
  - pose proof (append_locked_spec _ _ _ _ _ (jo_inv _ _ Hj) Hwf Hmax) as Hs. rewrite Ha in Hs.
    assert (integrity_error e = false) as He.
    { destruct Hs as [(id & x & y & _ & ->)|Hs]; [done|]. by eapply external_failure_integrity. }
    cbn [fmap result_fmap]. rewrite quarantine_keeps by (by intros ? [= <-]).
    split; [done|]. by left.
Qed.

(** What is left of the journal, whatever was answered. *)
Lemma append_batch_sound now age_due events j l :
  journal_ok j l -> Forall event_wf events -> (count l + count events <= u64_max)%N ->
  (append_batch now age_due events j).2 = j \/
  exists es, journal_ok (append_batch now age_due events j).2 (l ++ (durable_envelope <$> es)) /\
    length es = length events.
Proof.
  intros Hj Hwf Hmax. pose proof (append_batch_cases now age_due events j l Hj Hwf Hmax) as Hc.
  destruct (append_batch now age_due events j) as [[es|e] j'].
  - right. exists es. destruct Hc as (Hj' & _ & Hh). split; [done|]. symmetry. by eapply Forall2_length.
  - destruct Hc as [_ [[-> _]|[_ (es & Hj' & _ & Hh)]]]; [by left|]. right. exists es.
    split; [done|]. symmetry. by eapply Forall2_length.
Qed.

(** C4. Appending refines the abstract journal: on a journal that holds the
    chain [l], a batch is answered with one envelope per event, extending [l], each on disk
    with its event's payload, and no event was in conflict; or the journal is untouched and
    the answer is the batch's first version conflict or a failure outside; or the batch was
    committed and the checkpoint that was due then failed.  It is never closed for an
    integrity failure. *)
Theorem append_refines now age_due events j l :
  journal_ok j l -> Forall event_wf events -> (count l + count events <= u64_max)%N ->
  let '(r, j') := append_batch now age_due events j in
  match r with
  | Ok es => batch_recorded events l es j'
  | Err e => integrity_error e = false /\
      (j' = j /\ append_failure j events l e \/
       is_plaintext (rj_payload_protection j) = false /\
         exists es, batch_recorded events l es j')
  end.
Proof. apply append_batch_cases. Qed.

(** Everything outside answers. *)
Record ports_available (now : result string string) (events : list (NewEvent * Stamp))
    (j : journal) : Prop := {
  av_value : forall v, exists b, to_vec_value v = Ok b;
  av_envelope : forall e, exists b, envelope_to_vec e = Ok b;
  av_associated : forall a, exists b, associated_to_vec a = Ok b;
  av_hash : forall h, exists b, hash_input_to_vec h = Ok b;
  av_encrypt : forall key nonce m a, exists c, aead_encrypt key nonce m a = Ok c;
  av_checkpoint : forall c, exists b, checkpoint_to_vec c = Ok b;
  av_clock : forall es, es ∈ events -> exists at_, st_occurred_at es.2 = Ok at_;
  av_nonce : forall es, es ∈ events -> exists n, st_nonce es.2 = Ok n;
  av_now : exists at_, now = Ok at_;
  av_keys : is_plaintext (rj_payload_protection j) = false ->
    exists kv, active_key (rj_keys j) = Ok kv;
  av_sign : is_plaintext (rj_payload_protection j) = false ->
    forall m, exists sig, sign (rj_signer j) m = Ok sig;
  av_anchor : is_plaintext (rj_payload_protection j) = false ->
    forall a, exists k', store_anchor a (rj_keys j) = Ok k';
}.

Lemma available_no_failure now events j e :
  ports_available now events j ->
  external_failure (rj_payload_protection j) (rj_keys j) events e -> False.
Proof.
  intros Hav [Hp Hk|es Hin Hc|es Hp Hin Hc|v Hv|a Ha|h Hh|x Hx|key nonce m a Ha].
  - destruct (av_keys _ _ _ Hav Hp) as [? Heq]. congruence.
  - destruct (av_clock _ _ _ Hav _ Hin) as [? Heq]. by rewrite Heq in Hc.
  - destruct (av_nonce _ _ _ Hav _ Hin) as [? Heq]. by rewrite Heq in Hc.
  - destruct (av_value _ _ _ Hav v) as [? Heq]. by rewrite Heq in Hv.
  - destruct (av_associated _ _ _ Hav a) as [? Heq]. by rewrite Heq in Ha.
  - destruct (av_hash _ _ _ Hav h) as [? Heq]. by rewrite Heq in Hh.
  - destruct (av_envelope _ _ _ Hav x) as [? Heq]. by rewrite Heq in Hx.
  - destruct (av_encrypt _ _ _ Hav key nonce m a) as [? Heq]. by rewrite Heq in Ha.
Qed.

Lemma available_checkpoint now events j j0 l :
  ports_available now events j0 -> rj_payload_protection j = rj_payload_protection j0 ->
  rj_keys j = rj_keys j0 -> rj_signer j = rj_signer j0 ->
  journal_ok j l -> exists c, (checkpoint now j).1 = Ok c.
Proof.
  intros Hav Hp Hk Hs Hj. unfold checkpoint, checkpoint_inner. rewrite Hp, Hk, Hs.
  destruct (is_plaintext (rj_payload_protection j0)) eqn:Hpl; [by eexists|].
  rewrite (jo_writable _ _ Hj), (ji_sequence _ _ _ _ (jo_inv _ _ Hj)). cbn [mbind result_bind].
  destruct (N.eqb_spec (count l) 0) as [_|Hne]; [by eexists|].
  rewrite (head_hash_row_ok j l Hj) by (by intros ->). cbn [mbind result_bind].
  destruct (av_sign _ _ _ Hav Hpl (checkpoint_message (count l) (head_hash l))) as [sig ->].
  destruct (av_now _ _ _ Hav) as [at_ ->]. cbn [adapter_error map_err mbind result_bind].
  destruct (av_anchor _ _ _ Hav Hpl (checkpoint_anchor (count l) (head_hash l))) as [k' ->].
  cbn [mbind result_bind].
  match goal with |- context [checkpoint_to_vec ?c] =>
    destruct (av_checkpoint _ _ _ Hav c) as [b ->] end.
  by eexists.
Qed.

Lemma append_batch_decides now age_due events j l :
  journal_ok j l -> Forall event_wf events -> (count l + count events <= u64_max)%N ->
  ports_available now events j ->
  match first_conflict (fun id => version_of id l) events.*1 with
  | None => exists es j', append_batch now age_due events j = (Ok es, j') /\
      batch_recorded events l es j'
  | Some (id, expected, actual) =>
      append_batch now age_due events j = (Err (Conflict id expected actual), j)
  end.
Proof.
  intros Hj Hwf Hmax Hav. unfold append_batch. rewrite (jo_writable _ _ Hj).
  pose proof (append_locked_spec _ _ _ _ _ (jo_inv _ _ Hj) Hwf Hmax) as Hs.
  destruct (append_locked _ _ _ _ _) as [[t' es]|e] eqn:Ha; cbn zeta in Hs.
  - pose proof (journal_ok_append _ _ _ _ _ Hj Hwf Hmax Ha) as (Hj' & Hc & Hh).
    rewrite Hc. assert (batch_recorded events l es (set_tables t' j)) as Hb by done.
    cbn [fmap result_fmap snd]. rewrite quarantine_ok. cbn [set_tables rj_payload_protection].
    destruct (is_plaintext (rj_payload_protection j)) eqn:Hpl; [eauto|].
    destruct (due_sequence _ _ es Hj') as [q Hq].
    cbn [set_tables] in Hq. rewrite Hq. destruct (_ || _); [|eauto].
    pose proof (checkpoint_keeps_batch now _ _ _ _ Hb) as Hk.
    destruct (available_checkpoint now events (set_tables t' j) j
      (l ++ (durable_envelope <$> es)) Hav) as [c' Hc']; [done..|]. cbn [set_tables] in Hk, Hc'.
    destruct (checkpoint _ _) as [r j']. simpl in Hc'. subst r. destruct Hk. eauto.
  - destruct Hs as [(id & x & y & -> & ->)|Hs]; [done|].
    by destruct (available_no_failure _ _ _ _ Hav Hs).
Qed.

(** When everything outside answers, the expected versions alone decide
    an append: without a conflict the batch is recorded, and otherwise the first conflict
    is answered and nothing changed. *)
Lemma append_decides now age_due events j l :
  journal_ok j l -> Forall event_wf events -> (count l + count events <= u64_max)%N ->
  ports_available now events j ->
  match first_conflict (fun id => version_of id l) events.*1 with
  | None => exists es j', append_batch now age_due events j = (Ok es, j') /\
      batch_recorded events l es j'
  | Some (id, expected, actual) =>
      append_batch now age_due events j = (Err (Conflict id expected actual), j)
  end.
Proof. apply append_batch_decides. Qed.

End Port.

(** ** The test journal *)

Section Test.
#[local] Existing Instances journal_externals test_codec test_codec_ok.

Lemma test_journal_ok : journal_ok test_journal [].
Proof.
  constructor; [|done|done|by exists None|by exists None].
  assert (forall V, contiguous (∅ : gmap N V) 0) as He.
  { intros V q. split; [by intros [? Hq%lookup_empty_Some]|lia]. }
  constructor; first [apply chain_nil|apply He|by constructor|done].
Qed.
Lemma test_batch_wf : Forall event_wf test_batch.
Proof.
  repeat constructor; cbn; try (unfold parseable, MAX_PARSED_DEPTH; cbn; lia);
    by intros nonce [= <-].
Qed.
Lemma test_available now events :
  is_ok_and now (fun _ => true) = true ->
  Forall (fun es => is_ok_and (st_occurred_at es.2) (fun _ => true) = true /\
    is_ok_and (st_nonce es.2) (fun _ => true) = true) events ->
  ports_available now events test_journal.
Proof.
  intros Hnow Hev. rewrite Forall_forall in Hev. constructor; intros; try by eexists.
  all: try (destruct (Hev es) as [H1 H2]; [done|]; apply is_ok_and_true in H1 as (? & ? & _);
    apply is_ok_and_true in H2 as (? & ? & _); eauto).
  apply is_ok_and_true in Hnow as (? & ? & _). eauto.
Qed.

(** A journal of two events. *)
Definition test_two : RedbEventJournal StaticKeyProvider TestSigner :=
  (append_batch (Ok "now") true test_batch test_journal).2.
Lemma test_two_recorded : exists es, batch_recorded test_batch [] es test_two /\ length es = 2.
Proof.
  destruct (append_batch_decides (Ok "now") true test_batch test_journal [] test_journal_ok
    test_batch_wf) as (es & j & Ha & Hb); [by cbn|apply test_available; [done|by repeat constructor]|].
  exists es. unfold test_two. rewrite Ha. split; [done|].
  destruct Hb as (_ & _ & Hh). symmetry. by eapply (Forall2_length _ test_batch).
Qed.
Lemma test_journal_two :
  exists j es, batch_recorded test_batch [] es j /\ length es = 2.
Proof. destruct test_two_recorded as (es & Hes). by exists test_two, es. Qed.

Lemma append_refines_witness :
  exists r j', append_batch (Ok "now") false test_batch test_journal = (r, j') /\
  match r with
  | Ok es => batch_recorded test_batch [] es j'
  | Err e => integrity_error e = false /\
      (j' = test_journal /\ append_failure test_journal test_batch [] e \/
       is_plaintext (rj_payload_protection test_journal) = false /\
         exists es, batch_recorded test_batch [] es j')
  end.
Proof.
  pose proof (append_refines (Ok "now") false test_batch test_journal [] test_journal_ok
    test_batch_wf ltac:(by cbn)) as Hw.
  destruct (append_batch (Ok "now") false test_batch test_journal) as [r j'].
  exists r, j'. by split.
Defined.

Lemma append_decides_witness :
  (exists es j', append_batch (Ok "now") true test_batch test_journal = (Ok es, j') /\
     batch_recorded test_batch [] es j') /\
  append_batch (Ok "now") true [(test_event "session:1" 4 Null, test_stamp "e1")] test_journal
    = (Err (Conflict "session:1" 4 0), test_journal).
Proof.
  split.
  - apply (append_decides (Ok "now") true test_batch test_journal [] test_journal_ok
      test_batch_wf); [by cbn|]. apply test_available; [done|]. by repeat constructor.
  - apply (append_decides (Ok "now") true [(test_event "session:1" 4 Null, test_stamp "e1")]
      test_journal [] test_journal_ok); [|by cbn|].
    + apply Forall_singleton. split; [unfold parseable, MAX_PARSED_DEPTH; cbn; lia|by intros nonce [= <-]].
    + apply test_available; [done|]. by repeat constructor.
Defined.

End Test.
