(* ===== verification/JournalReads.v ===== *)
(** * Reads of a well-formed journal

    What the reads of the port return when the tables hold the chain [l]: slices of [l]
    and of its streams, never an integrity failure. *)

From S2P Require Import Prelude Json Contracts Boundary Platform CommandApproval.
From S2P Require Import JournalStore Journal JournalVerify JournalModel JournalCorrect.
From S2P Require Import JournalTest JournalPort.

Open Scope string_scope.

Lemma NoDup_omap {A B} (f : A -> option B) l :
  NoDup l -> (forall x y z, f x = Some z -> f y = Some z -> x = y) -> NoDup (omap f l).
Proof.
  intros Hl Hf. induction Hl as [|a l Hn Hl IH]; [constructor|]. simpl.
  destruct (f a) as [b|] eqn:Ha; [|done]. constructor; [|done].
  intros (a' & Hin & Ha')%list_elem_of_omap. by rewrite (Hf _ _ _ Ha Ha') in Hn.
Qed.

Lemma strict_NoDup (l : list N) : StronglySorted N.lt l -> NoDup l.
Proof.
  induction 1 as [|a l Hs IH Ha]; constructor; [|done]. intros Hin.
  rewrite Forall_forall in Ha. specialize (Ha _ Hin). lia.
Qed.

Lemma strict_seq_le {V} (rows : list (N * V)) :
  StronglySorted N.lt rows.*1 -> StronglySorted seq_le rows.
Proof.
  induction rows as [|a rows IH]; [constructor|]. rewrite fmap_cons. intros Hs.
  inversion Hs as [|? ? Hs' Ha]; subst. constructor; [auto|]. rewrite Forall_fmap in Ha.
  eapply Forall_impl; [exact Ha|]. intros x Hx. unfold seq_le. simpl in Hx. lia.
Qed.

Lemma last_drop_lt {A} n (l : list A) : n < length l -> last (drop n l) = last l.
Proof. intros Hn. rewrite !last_lookup, lookup_drop, length_drop. f_equal. lia. Qed.

Lemma rev_reverse {A} (l : list A) : rev l = reverse l.
Proof. apply rev_alt. Qed.

(** ** Slices of a stream *)

(** The events of a stream with versions from [lo] to [hi]. *)
Definition versions_between (lo hi : N) (es : list EventEnvelope) : list EventEnvelope :=
  take (N.to_nat (hi + 1 - lo)) (drop (N.to_nat (lo - 1)) es).
Definition index_row (e : EventEnvelope) : N * N := (ev_stream_version e, ev_global_sequence e).

Section Chain.
Context (l : list EventEnvelope) (Hl : chain l).

Lemma stream_of_elem id e : e ∈ stream_of id l <-> e ∈ l /\ ev_stream_id e = id.
Proof.
  unfold stream_of. rewrite !list_elem_of_In, filter_In, String.eqb_eq. done.
Qed.

Lemma between_lookup id lo hi i e :
  (1 <= lo)%N -> versions_between lo hi (stream_of id l) !! i = Some e ->
  ev_stream_version e = (lo + N.of_nat i)%N /\ (ev_stream_version e <= hi)%N /\
  ev_stream_id e = id /\ e ∈ l.
Proof.
  intros Hlo Hi. unfold versions_between in Hi. apply lookup_take_Some in Hi as [Hi Hlt].
  rewrite lookup_drop in Hi. pose proof (chain_stream_lookup _ _ _ _ Hl Hi) as [Hid Hv].
  apply list_elem_of_lookup_2, stream_of_elem in Hi as [Hin _].
  split_and!; [lia|lia|done|done].
Qed.

Lemma between_elem id lo hi e :
  (1 <= lo)%N ->
  e ∈ versions_between lo hi (stream_of id l) <->
  e ∈ l /\ ev_stream_id e = id /\ (lo <= ev_stream_version e <= hi)%N.
Proof.
  intros Hlo. split.
  - intros [i Hi]%list_elem_of_lookup_1. apply between_lookup in Hi as (Hv & Hle & Hid & Hin); [|done].
    split_and!; [done|done|lia|done].
  - intros (Hin & Hid & Hv1 & Hv2). assert (e ∈ stream_of id l) as [i Hi]%list_elem_of_lookup_1
      by by apply stream_of_elem.
    destruct (chain_stream_lookup _ _ _ _ Hl Hi) as [_ Hv].
    apply list_elem_of_lookup. exists (N.to_nat (ev_stream_version e - lo)).
    unfold versions_between. apply lookup_take_Some. split; [|lia].
    rewrite lookup_drop. rewrite <- Hi. f_equal. lia.
Qed.

Lemma between_sorted id lo hi :
  (1 <= lo)%N ->
  StronglySorted N.lt (index_row <$> versions_between lo hi (stream_of id l)).*1.
Proof.
  intros Hlo. assert ((index_row <$> versions_between lo hi (stream_of id l)).*1
    = seqN lo (length (versions_between lo hi (stream_of id l)))) as ->; [|apply seqN_sorted].
  apply list_eq. intros i. rewrite !list_lookup_fmap. unfold seqN. rewrite list_lookup_fmap.
  destruct (versions_between lo hi (stream_of id l) !! i) as [e|] eqn:He.
  - rewrite lookup_seq_lt by (by eapply lookup_lt_Some). simpl. f_equal.
    by apply between_lookup in He as (Hv & _).
  - apply lookup_ge_None in He. by rewrite lookup_seq_ge.
Qed.

(** The index rows of an event. *)
Lemma index_map_row id v q :
  index_map l !! (id, v) = Some q <-> exists e, e ∈ l /\ ev_stream_id e = id /\ index_row e = (v, q).
Proof.
  rewrite index_map_lookup by done. split.
  - intros (e & He & Hq & Hid & Hv). exists e. split; [by eapply list_elem_of_lookup_2|].
    split; [done|]. unfold index_row. rewrite Hv. f_equal.
    destruct (chain_lookup _ _ _ Hl He) as (-> & _). lia.
  - intros (e & [i He]%list_elem_of_lookup_1 & Hid & [= Hv Hq]). exists e.
    destruct (chain_lookup _ _ _ Hl He) as (Hg & _).
    split_and!; [|lia|done|done]. rewrite <- Hq, Hg, <- He. f_equal. lia.
Qed.

Definition range_item (id : string) (lo hi : N) (kv : string * N * N) : option (N * N) :=
  if String.eqb kv.1.1 id && (lo <=? kv.1.2)%N && (kv.1.2 <=? hi)%N
  then Some (kv.1.2, kv.2) else None.
Lemma range_item_Some id lo hi kv v q :
  range_item id lo hi kv = Some (v, q) <-> kv = (id, v, q) /\ (lo <= v <= hi)%N.
Proof.
  unfold range_item. destruct kv as [[s v'] q']. simpl.
  destruct (String.eqb_spec s id) as [->|Hne]; simpl; [|naive_solver].
  destruct (N.leb_spec lo v'), (N.leb_spec v' hi); simpl;
    (split; [by intros [= <- <-]|intros [[= <- <-] ?]; first [done|lia]]).
Qed.

(** The index rows of a range of versions are the events of that range. *)
Lemma stream_range_index id lo hi :
  (1 <= lo)%N ->
  stream_range id lo hi (index_map l)
  = index_row <$> versions_between lo hi (stream_of id l).
Proof.
  intros Hlo. pose proof (between_sorted id lo hi Hlo) as Hsorted.
  set (rows := index_row <$> versions_between lo hi (stream_of id l)) in *.
  assert (forall v q, (v, q) ∈ rows <-> index_map l !! (id, v) = Some q /\ (lo <= v <= hi)%N) as Hrows.
  { intros v q. unfold rows. rewrite list_elem_of_fmap, index_map_row. split.
    - intros (e & [= -> ->] & He). apply between_elem in He as (Hin & Hid & Hv); [|done].
      split; [by exists e|done].
    - intros [(e & Hin & Hid & Heq) Hv]. exists e. split; [done|]. apply between_elem; [done|].
      injection Heq as <- _. done. }
  assert (NoDup rows.*1) as Hnd by by apply strict_NoDup.
  unfold stream_range. fold (range_item id lo hi).
  apply (StronglySorted_unique_strong seq_le).
  - intros [v q] [v' q'] H1 H2%Hrows Hle Hge. unfold seq_le in Hle, Hge. simpl in *.
    rewrite (merge_sort_Permutation seq_le) in H1. apply list_elem_of_omap in H1 as (kv & Hin & Hkv).
    apply range_item_Some in Hkv as [-> _]. apply elem_of_map_to_list in Hin.
    destruct H2 as [H2 _]. assert (v = v') as <- by lia. congruence.
  - apply StronglySorted_merge_sort; apply _.
  - by apply strict_seq_le.
  - rewrite (merge_sort_Permutation seq_le). apply NoDup_Permutation.
    + apply NoDup_omap; [apply NoDup_map_to_list|]. intros x y [v q] Hx Hy.
      apply range_item_Some in Hx as [-> _]. by apply range_item_Some in Hy as [-> _].
    + by apply NoDup_fmap_1 in Hnd.
    + intros [v q]. rewrite Hrows, list_elem_of_omap. split.
      * intros (kv & Hin & Hkv). apply range_item_Some in Hkv as [-> Hr].
        by apply elem_of_map_to_list in Hin.
      * intros [Hi Hr]. exists (id, v, q). split; [by apply elem_of_map_to_list|].
        by apply range_item_Some.
Qed.

End Chain.

(** ** Reads *)

Section Reads.
Context `{Externals} `{JournalCodec} {K} `{KeyProvider K}.
Context (protection : JournalPayloadProtection) (k : K) (t : Tables) (l : list EventEnvelope).
Context (Hi : journal_inv protection k t l) (Hmax : (count l < u64_max)%N).

Lemma event_row e : e ∈ l ->
  exists b, t_events t !! ev_global_sequence e = Some b /\ envelope_from_slice b = Ok e.
Proof.
  intros He. pose proof (ji_rows _ _ _ _ Hi) as Hr. rewrite Forall_forall in Hr.
  destruct (Hr _ He) as [(b & Hb & Hok & _) _]. eauto.
Qed.

Lemma indexed_event_row id e :
  e ∈ l -> ev_stream_id e = id -> indexed_event t id (index_row e) = Ok e.
Proof.
  intros He Hid. destruct (event_row e He) as (b & Hb & Hd). unfold indexed_event, index_row.
  rewrite Hb. cbn [ok_or mbind result_bind]. rewrite Hd. cbn.
  by rewrite Hid, !N.eqb_refl, String.eqb_refl.
Qed.
Lemma indexed_events id es :
  (forall e, e ∈ es -> e ∈ l /\ ev_stream_id e = id) ->
  try_map (indexed_event t id) (index_row <$> es) = Ok es.
Proof.
  induction es as [|e es IH]; [done|]. intros Hes. rewrite fmap_cons. cbn [try_map].
  destruct (Hes e) as [He Hid]; [by left|]. rewrite indexed_event_row by done.
  cbn [mbind result_bind]. rewrite IH; [done|]. intros e' He'. apply Hes. by right.
Qed.

Lemma index_available : require_index t = Ok tt.
Proof. unfold require_index. by rewrite (ji_index_version _ _ _ _ Hi). Qed.

Lemma next_version_ok id start e :
  ev_stream_version e = start -> (start < u64_max)%N ->
  check_next_version id start e = Ok (start + 1)%N.
Proof.
  intros Hv Hb. unfold check_next_version. rewrite Hv, N.eqb_refl. cbn. f_equal.
  unfold saturating_add. lia.
Qed.
Lemma next_versions id es start :
  (forall i e, es !! i = Some e -> ev_stream_version e = start + N.of_nat i)%N ->
  (start + count es <= u64_max)%N ->
  try_fold (check_next_version id) es start = Ok (start + count es)%N.
Proof.
  revert start. induction es as [|e es IH]; intros start Hv Hb.
  { simpl. f_equal. unfold count. simpl. lia. }
  assert (count (e :: es) = count es + 1)%N as Hc by (unfold count; simpl; lia).
  cbn [try_fold]. rewrite next_version_ok by (rewrite ?(Hv 0 e eq_refl); lia).
  cbn [mbind result_bind]. rewrite IH; [f_equal; lia| |lia].
  intros i e' He'. rewrite (Hv (S i) e' He'). lia.
Qed.

Lemma stream_length id : N.of_nat (length (stream_of id l)) = version_of id l.
Proof. done. Qed.
Lemma stream_bound id : (version_of id l <= count l)%N.
Proof.
  unfold version_of, count, stream_of.
  pose proof (List.filter_length_le (fun e => String.eqb (ev_stream_id e) id) l). lia.
Qed.

Lemma durable_stream_version id : stream_version t id = version_of id l.
Proof.
  unfold stream_version. rewrite (ji_versions _ _ _ _ Hi). apply versions_map_default, Hi.
Qed.

Lemma stream_last id e :
  last (stream_of id l) = Some e -> ev_stream_version e = version_of id l.
Proof.
  intros He. rewrite last_lookup in He. pose proof He as Hs. apply (chain_stream_lookup _ _ _ _ (ji_chain _ _ _ _ Hi))
    in He as [_ Hv]. apply lookup_lt_Some in Hs. rewrite Hv. unfold version_of, count. lia.
Qed.

(** The events a forward read finds. *)
Lemma forward_rows id after :
  (after < u64_max)%N ->
  stream_range id (after + 1) u64_max (t_stream_events t)
  = index_row <$> drop (N.to_nat after) (stream_of id l).
Proof.
  intros Ha. rewrite (ji_index _ _ _ _ Hi).
  rewrite (stream_range_index l (ji_chain _ _ _ _ Hi)) by lia.
  f_equal. unfold versions_between. replace (after + 1 - 1)%N with after by lia.
  apply take_ge. rewrite length_drop. pose proof (stream_length id). pose proof (stream_bound id). lia.
Qed.

Lemma forward_prefix id after limit :
  (after < u64_max)%N ->
  limited limit (stream_range id (after + 1) u64_max (t_stream_events t))
  = index_row <$> limited limit (drop (N.to_nat after) (stream_of id l)).
Proof.
  intros Ha. rewrite forward_rows by done. destruct limit; simpl; [|done]. by rewrite fmap_take.
Qed.

Lemma limited_lookup {A} limit (es : list A) i e :
  limited limit es !! i = Some e -> es !! i = Some e.
Proof. destruct limit; [|done]. by intros [? _]%lookup_take_Some. Qed.

Lemma stream_slice_elem id n i e :
  drop n (stream_of id l) !! i = Some e ->
  e ∈ l /\ ev_stream_id e = id /\ ev_stream_version e = (N.of_nat n + 1 + N.of_nat i)%N.
Proof.
  rewrite lookup_drop. intros He.
  pose proof (chain_stream_lookup _ _ _ _ (ji_chain _ _ _ _ Hi) He) as [Hid Hv].
  apply list_elem_of_lookup_2, stream_of_elem in He as [Hin _]. split_and!; [done|done|lia].
Qed.

(** A forward read of a stream returns its events after the given
    version, in order and at most [limit] of them. *)
Lemma read_stream_slice_ok id after limit :
  read_indexed_stream t id after limit
  = Ok (limited limit (drop (N.to_nat after) (stream_of id l))).
Proof.
  unfold read_indexed_stream. destruct (bool_decide_reflect (limit = Some 0%N)) as [->|Hlim];
    [done|]. simpl.
  pose proof (stream_length id) as Hlen. pose proof (stream_bound id) as Hle.
  destruct (N.eqb_spec after u64_max) as [->|Hne].
  { rewrite drop_ge by lia. by destruct limit; simpl; rewrite ?take_nil. }
  rewrite index_available. cbn [mbind result_bind].
  destruct (N.lt_ge_cases after u64_max) as [Hlt|Hge].
  2:{ replace (saturating_add after 1) with u64_max by (unfold saturating_add; lia).
      rewrite drop_ge by lia.
      assert (stream_range id u64_max u64_max (t_stream_events t) = []) as ->.
      { rewrite (ji_index _ _ _ _ Hi), (stream_range_index l (ji_chain _ _ _ _ Hi)) by done.
        unfold versions_between. rewrite (drop_ge (stream_of id l)) by lia. by rewrite take_nil. }
      assert (limited limit ([] : list (N * N)) = []) as -> by (by destruct limit; simpl; rewrite ?take_nil).
      assert (limited limit ([] : list EventEnvelope) = []) as -> by (by destruct limit; simpl; rewrite ?take_nil).
      cbn. rewrite durable_stream_version, N.min_r, N.eqb_refl, andb_false_r by lia. done. }
  replace (saturating_add after 1) with (after + 1)%N by (unfold saturating_add; lia).
  rewrite forward_prefix by done. set (es := limited limit (drop (N.to_nat after) (stream_of id l))).
  assert (forall i e, es !! i = Some e ->
    e ∈ l /\ ev_stream_id e = id /\ ev_stream_version e = (after + 1 + N.of_nat i)%N) as Hes.
  { intros i e He. apply limited_lookup, stream_slice_elem in He as (? & ? & Hv).
    split_and!; [done|done|]. rewrite Hv. lia. }
  rewrite indexed_events by (intros e [i He]%list_elem_of_lookup_1; by apply Hes in He as (? & ? & _)).
  cbn [mbind result_bind].
  assert (count es <= version_of id l - after)%N as Hcnt.
  { unfold es, count. destruct limit; simpl; rewrite ?length_take, length_drop; lia. }
  rewrite next_versions; [|intros i e He; by apply Hes|lia].
  cbn [mbind result_bind]. rewrite durable_stream_version.
  rewrite (proj2 (reject_Ok _ _)); [done|]. apply andb_false_iff.
  destruct (is_none_or limit (fun limit => count es <? limit)%N) eqn:Hfull; [right|by left].
  apply negb_false_iff, N.eqb_eq.
  assert (es = drop (N.to_nat after) (stream_of id l)) as Heq.
  { unfold es, count in *. destruct limit as [n|]; [|done]. simpl in *.
    apply N.ltb_lt in Hfull. rewrite length_take in Hfull. apply take_ge. lia. }
  rewrite Heq. destruct (N.le_gt_cases (version_of id l) after) as [Hpast|Hbefore].
  - rewrite drop_ge by lia. simpl. lia.
  - rewrite last_drop_lt by lia. destruct (last (stream_of id l)) as [e|] eqn:Hlast.
    + by apply stream_last.
    + apply last_None in Hlast. rewrite Hlast in Hlen. simpl in Hlen. lia.
Qed.

(** *** Backwards *)

Lemma backward_rows id last_version :
  rev (stream_range id 1 last_version (t_stream_events t))
  = index_row <$> rev (take (N.to_nat last_version) (stream_of id l)).
Proof.
  rewrite (ji_index _ _ _ _ Hi), (stream_range_index l (ji_chain _ _ _ _ Hi)) by done.
  rewrite !rev_reverse, <- fmap_reverse. do 2 f_equal. unfold versions_between.
  replace (last_version + 1 - 1)%N with last_version by lia. done.
Qed.

(** The slice [xs] a backward read reverses: versions [1 .. length xs]. *)
Lemma prefix_versions id n i e :
  take n (stream_of id l) !! i = Some e ->
  e ∈ l /\ ev_stream_id e = id /\ ev_stream_version e = (N.of_nat i + 1)%N.
Proof.
  intros [He _]%lookup_take_Some.
  pose proof (chain_stream_lookup _ _ _ _ (ji_chain _ _ _ _ Hi) He) as [Hid Hv].
  apply list_elem_of_lookup_2, stream_of_elem in He as [Hin _]. by split_and!.
Qed.

Lemma rev_lookup_version xs i e :
  (forall i e, xs !! i = Some e -> ev_stream_version e = N.of_nat i + 1)%N ->
  rev xs !! i = Some e -> (ev_stream_version e + N.of_nat i = count xs)%N.
Proof.
  intros Hxs He. assert (i < length xs) as Hlt.
  { apply lookup_lt_Some in He. by rewrite length_rev in He. }
  rewrite rev_reverse, (reverse_lookup xs i) in He by done. apply Hxs in He. unfold count. lia.
Qed.

Lemma descending_versions es m :
  (forall i e, es !! i = Some e -> ev_stream_version e + N.of_nat i = m)%N ->
  (m <= u64_max)%N -> descending es = true.
Proof.
  revert m. induction es as [|a [|b es] IH]; intros m Hv Hm; [done|done|].
  cbn [descending]. pose proof (Hv 0 a eq_refl) as Ha. pose proof (Hv 1 b eq_refl) as Hb.
  apply andb_true_iff. split.
  - apply N.eqb_eq. unfold saturating_add. lia.
  - apply (IH (m - 1)%N); [|lia]. intros i e He. specialize (Hv (S i) e He). lia.
Qed.

(** A backward read returns the events below the given version, last first. *)
Lemma read_stream_backwards_ok id before limit :
  read_indexed_stream_backwards t id before limit
  = Ok (take (N.to_nat (N.min limit MAX_STREAM_READ_BATCH)) (rev
      match before with
      | Some v => take (N.to_nat (v - 1)) (stream_of id l)
      | None => stream_of id l
      end)).
Proof.
  unfold read_indexed_stream_backwards. set (lim := N.min limit MAX_STREAM_READ_BATCH).
  set (last_version := match before with Some v => saturating_sub v 1 | None => u64_max end).
  set (xs := take (N.to_nat last_version) (stream_of id l)).
  pose proof (stream_length id) as Hlen. pose proof (stream_bound id) as Hle.
  assert (match before with Some v => take (N.to_nat (v - 1)) (stream_of id l)
    | None => stream_of id l end = xs) as ->.
  { unfold xs, last_version, saturating_sub. destruct before; [done|]. by rewrite take_ge by lia. }
  destruct (N.eqb_spec lim 0) as [->|Hlim]; [done|]. simpl.
  destruct (is_some_and before (fun v => v <=? 1)%N) eqn:Hb.
  { apply is_some_and_true in Hb as (v & -> & Hv%N.leb_le). unfold xs, last_version, saturating_sub.
    replace (N.to_nat (v - 1)) with 0 by lia. simpl. by rewrite take_nil. }
  rewrite index_available. cbn [mbind result_bind]. rewrite backward_rows, <- fmap_take. fold xs.
  set (es := take (N.to_nat lim) (rev xs)).
  assert (forall i e, xs !! i = Some e ->
    e ∈ l /\ ev_stream_id e = id /\ ev_stream_version e = (N.of_nat i + 1)%N) as Hxs
    by (intros i e; apply prefix_versions).
  rewrite indexed_events.
  2:{ intros e [i [He _]%lookup_take_Some]%list_elem_of_lookup_1.
      apply list_elem_of_lookup_2 in He. rewrite rev_reverse, elem_of_reverse in He.
      apply list_elem_of_lookup_1 in He as [j He]. by apply Hxs in He as (? & ? & _). }
  cbn [mbind result_bind]. rewrite durable_stream_version.
  assert (match before with Some v => N.min (saturating_sub v 1) (version_of id l)
    | None => version_of id l end = count xs) as ->.
  { unfold xs, last_version, count. rewrite length_take. destruct before; lia. }
  assert (forall i e, es !! i = Some e -> (ev_stream_version e + N.of_nat i = count xs)%N) as Hes.
  { intros i e [He _]%lookup_take_Some. eapply rev_lookup_version; [|done].
    intros i' e' He'. by apply Hxs in He' as (_ & _ & ?). }
  assert (count es = N.min lim (count xs)) as Hcnt.
  { unfold es, count. rewrite length_take, length_rev. lia. }
  assert (count xs <= count l)%N as Hxl.
  { unfold xs, count at 1. rewrite length_take. lia. }
  apply bind_Ok. exists tt. split.
  { apply reject_Ok, negb_false_iff, bool_decide_eq_true. destruct es as [|e es'] eqn:He.
      - unfold count in *. simpl in Hcnt. destruct (N.ltb_spec 0 (N.of_nat (length xs))); [lia|done].
      - pose proof (Hes 0 e eq_refl). simpl. destruct (N.ltb_spec 0 (count xs)).
        + f_equal. lia.
        + unfold count in *. simpl in Hcnt. lia. }
  apply bind_Ok. exists tt. split.
  { apply reject_Ok. destruct (N.ltb_spec (count es) lim) as [Hlt|]; [|done].
      destruct (N.ltb_spec 0 (count xs)) as [Hpos|]; [|done]. simpl.
      apply negb_false_iff, bool_decide_eq_true. destruct (last es) as [e|] eqn:Hl.
      - simpl. f_equal. rewrite last_lookup in Hl. apply Hes in Hl. unfold count in *. lia.
      - apply last_None in Hl. rewrite Hl in Hcnt. unfold count in *. simpl in Hcnt. lia. }
  cbn [mbind result_bind]. rewrite (descending_versions es (count xs)); [done|exact Hes|lia].
Qed.

(** *** The whole journal *)

(** A scan of rows whose items are [items]. *)
Lemma scan_ok {A} (item : N -> N -> string -> result StoreError A) limit start rows items :
  rows.*1 = seqN start (length rows) ->
  Forall2 (fun kv a => item kv.1 kv.1 kv.2 = Ok a) rows items ->
  (start + count rows <= u64_max)%N ->
  scan item limit start rows
  = Ok (take limit items, start + N.of_nat (Nat.min limit (length rows)))%N.
Proof.
  intros Hk Hf. revert limit start Hk. induction Hf as [|[q b] a rows items Ha Hf IH];
    intros limit start Hk Hb.
  - destruct limit; simpl; do 2 f_equal; lia.
  - destruct limit as [|limit]; [simpl; do 2 f_equal; lia|].
    rewrite fmap_cons in Hk. cbn [length] in Hk. rewrite seqN_S in Hk. injection Hk as Hq Hk.
    simpl in Hq, Ha. subst q. assert (count ((start, b) :: rows) = count rows + 1)%N as Hc
      by (unfold count; simpl; lia).
    cbn [scan]. rewrite Ha. cbn [mbind result_bind].
    replace (saturating_add start 1) with (start + 1)%N by (unfold saturating_add; lia).
    rewrite IH by (done || lia). cbn. do 2 f_equal. lia.
Qed.

Lemma scan_table_ok {A} table (item : N -> N -> string -> result StoreError A) gap from limit items :
  contiguous table (count l) ->
  Forall2 (fun kv a => item kv.1 kv.1 kv.2 = Ok a) (range_from (N.max from 1) table) items ->
  (from < u64_max)%N ->
  scan_table t table item gap from limit = Ok (take (N.to_nat limit) items).
Proof.
  intros Hc Hf Hfrom. unfold scan_table. rewrite (ji_sequence _ _ _ _ Hi). cbn [mbind result_bind].
  pose proof (contiguous_range _ _ (N.max from 1) Hc ltac:(lia)) as Hk.
  assert (length (range_from (N.max from 1) table) = N.to_nat (count l + 1 - N.max from 1)) as Hlen
    by (rewrite <- (length_fmap fst), Hk; apply seqN_length).
  rewrite <- Hlen in Hk. rewrite (scan_ok _ _ _ _ items Hk Hf) by (unfold count in *; lia).
  cbn [mbind result_bind]. rewrite (proj2 (reject_Ok _ _)); [done|].
  pose proof (Forall2_length _ _ _ Hf) as Hfl. unfold count in *. rewrite length_take.
  destruct (N.ltb_spec (N.of_nat (Nat.min (N.to_nat limit) (length items))) limit) as [Hlt|];
    [|by rewrite andb_false_r].
  rewrite andb_true_r. apply andb_false_iff. right. apply N.leb_gt. lia.
Qed.

(** The rows from a sequence on are the events from it on. *)
Lemma range_events {V} (m : gmap N V) from (P : N * V -> EventEnvelope -> Prop) :
  contiguous m (count l) ->
  (forall e v, e ∈ l -> m !! ev_global_sequence e = Some v -> P (ev_global_sequence e, v) e) ->
  Forall2 P (range_from (N.max from 1) m) (drop (N.to_nat (N.max from 1 - 1)) l).
Proof.
  intros Hc HP. pose proof (contiguous_range _ _ (N.max from 1) Hc ltac:(lia)) as Hk.
  assert (length (range_from (N.max from 1) m) = N.to_nat (count l + 1 - N.max from 1)) as Hlen
    by (rewrite <- (length_fmap fst), Hk; apply seqN_length).
  apply Forall2_same_length_lookup_2; [rewrite length_drop; unfold count in *; lia|].
  intros i [q v] e Hq He. rewrite lookup_drop in He.
  destruct (chain_lookup _ _ _ (ji_chain _ _ _ _ Hi) He) as (Hg & _).
  assert ((range_from (N.max from 1) m).*1 !! i = Some q) as Hqi
    by (by rewrite list_lookup_fmap, Hq).
  rewrite Hk in Hqi. unfold seqN in Hqi. rewrite list_lookup_fmap in Hqi.
  apply fmap_Some in Hqi as (j & [-> _]%lookup_seq & ->).
  assert (ev_global_sequence e = N.max from 1 + N.of_nat (0 + i))%N as Heq by lia.
  rewrite <- Heq in *. apply HP; [by eapply list_elem_of_lookup_2|].
  apply list_elem_of_lookup_2 in Hq. unfold range_from in Hq.
  apply list_elem_of_In, filter_In in Hq as [Hq _].
  by apply list_elem_of_In, table_entries_elem in Hq.
Qed.

Lemma read_global_ok from limit :
  (from < u64_max)%N ->
  read_global t from limit
  = Ok (take (N.to_nat limit) (drop (N.to_nat (N.max from 1 - 1)) l)).
Proof.
  intros Hfrom. apply scan_table_ok; [apply Hi| |done].
  apply range_events; [apply Hi|]. intros e b He Hb. simpl. unfold global_item.
  destruct (event_row e He) as (b' & Hb' & Hd). assert (b' = b) as -> by congruence.
  rewrite Hd. cbn. by rewrite !N.eqb_refl.
Qed.

(** The outbox item of an event. *)
Definition work_item (e : EventEnvelope) : ProjectionWorkItem :=
  mkProjectionWorkItem (ev_global_sequence e) (ev_event_id e).

Lemma read_projection_work_ok from limit :
  (from < u64_max)%N ->
  read_projection_work t from limit
  = Ok (take (N.to_nat limit) (work_item <$> drop (N.to_nat (N.max from 1 - 1)) l)).
Proof.
  intros Hfrom. apply scan_table_ok; [apply Hi| |done].
  apply Forall2_fmap_r, range_events; [apply Hi|]. intros e b He Hb. simpl.
  pose proof (ji_rows _ _ _ _ Hi) as Hr. rewrite Forall_forall in Hr.
  destruct (Hr _ He) as [_ Ho]. unfold check_outbox in Ho. rewrite Hb in Ho. cbn in Ho.
  apply bind_Ok in Ho as (queued & Hq & Ho). apply reject_Ok, negb_false_iff in Ho.
  unfold outbox_targets in Ho. inv_bool.
  unfold outbox_item. rewrite N.eqb_refl. cbn [negb reject mbind result_bind]. rewrite Hq.
  cbn [mbind result_bind]. rewrite H2. cbn [ok_or mbind result_bind]. rewrite H3.
  by rewrite bool_decide_true.
Qed.

End Reads.

(** ** The port's reads *)

Section PortReads.
Context `{Externals} `{JournalCodec} {K Sg} `{KeyProvider K} `{CheckpointSigner Sg}.

(** On a journal that holds the chain [l] every read of the port
    answers with the slice of [l], or of the stream, that was asked for, and leaves the
    journal as it was. *)
Lemma reads_are_slices (j : RedbEventJournal K Sg) l id after before from limit :
  journal_ok j l -> (count l < u64_max)%N -> (from < u64_max)%N ->
  port_read_stream id j = (Ok (stream_of id l), j) /\
  port_read_stream_from id after limit j
    = (Ok (take (N.to_nat (N.min limit MAX_STREAM_READ_BATCH))
             (drop (N.to_nat after) (stream_of id l))), j) /\
  port_read_stream_backwards id before limit j
    = (Ok (take (N.to_nat (N.min limit MAX_STREAM_READ_BATCH)) (rev
         match before with
         | Some v => take (N.to_nat (v - 1)) (stream_of id l)
         | None => stream_of id l
         end)), j) /\
  port_read_global from limit j
    = (Ok (take (N.to_nat limit) (drop (N.to_nat (N.max from 1 - 1)) l)), j) /\
  port_read_projection_work from limit j
    = (Ok (take (N.to_nat limit) (work_item <$> drop (N.to_nat (N.max from 1 - 1)) l)), j) /\
  port_head j = (Ok (count l, head_hash l), j).
Proof.
  intros Hj Hmax Hfrom. pose proof (jo_inv _ _ Hj) as Hi.
  unfold port_read_stream, port_read_stream_from, port_read_stream_backwards, port_read_global,
    port_read_projection_work, port_head, reads, head_of.
  rewrite !(read_stream_slice_ok _ _ _ _ Hi Hmax), (read_stream_backwards_ok _ _ _ _ Hi Hmax),
    (read_global_ok _ _ _ _ Hi Hmax _ _ Hfrom), (read_projection_work_ok _ _ _ _ Hi Hmax _ _ Hfrom),
    (ji_sequence _ _ _ _ Hi), (ji_hash _ _ _ _ Hi).
  by split_and!.
Qed.

End PortReads.

(** A two-event journal, read back from its second event. *)
Lemma reads_are_slices_witness :
  exists (j : RedbEventJournal StaticKeyProvider TestSigner) l,
    count l = 2%N /\
    (port_read_global (H0 := test_codec) 2 10 j).1 = Ok (take 10 (drop 1 l)).
Proof.
  destruct test_journal_two as (j & es & Hb & Hes). exists j, (durable_envelope <$> es).
  assert (count (durable_envelope <$> es) = 2%N) as Hc by (unfold count; by rewrite length_fmap, Hes).
  split; [done|]. destruct Hb as (Hj & _). rewrite app_nil_l in Hj.
  destruct (reads_are_slices (H := journal_externals) (H0 := test_codec) j _ "session:1" 0 None 2 10
    Hj) as (_ & _ & _ & -> & _); [by rewrite Hc|done|done].
Defined.
