(* ===== verification/ProjectionCorrect.v ===== *)
(** * Projection rows: correctness

    The [ProjectionStore] port against its contract: a batch moves one projection's
    position and writes its records, all batches of a call together; other projections
    keep theirs; a reset forgets one projection; and a journal stays sound as long as no
    position passes its head. *)

From S2P Require Import Prelude Json Contracts Boundary Platform CommandApproval.
From S2P Require Import JournalStore Journal JournalVerify ProjectionStore.
From S2P Require Import JournalModel JournalCorrect JournalTest JournalPort.

Open Scope string_scope.

(** ** Strings *)


(** In order, the strings below a prefix are consecutive. *)
Lemma past_prefix p a b :
  str_leb p a = true -> starts_with a p = false -> str_leb a b = true -> starts_with b p = false.
Proof.
  unfold str_leb, starts_with, String.leb. revert a b.
  induction p as [|c p IH]; intros a b Hpa Hna Hab; [by destruct a|].
  destruct a as [|d a]; [done|]. destruct b as [|e b]; [done|]. simpl in *.
  destruct (ascii_dec c e) as [<-|]; [|done].
  unfold Ascii.compare in *.
  destruct (N.compare_spec (N_of_ascii c) (N_of_ascii d)) as [Heq|Hlt|Hgt]; [| |done].
  - assert (c = d) as <-.
    { rewrite <- (ascii_N_embedding c), <- (ascii_N_embedding d). by rewrite Heq. }
    rewrite N.compare_refl in Hab. destruct (ascii_dec c c); [|done]. eauto.
  - destruct (N.compare_spec (N_of_ascii d) (N_of_ascii c)); [lia|lia|done].
Qed.

(** [split_once] at the first separator. *)
Lemma split_once_bytes_app c l m cur :
  existsb (ascii_eqb c) l = false ->
  split_once_bytes c (l ++ c :: m) cur = Some (of_bytes (rev cur ++ l), of_bytes m).
Proof.
  revert cur. induction l as [|b l IH]; intros cur; simpl.
  - intros _. unfold ascii_eqb. rewrite Ascii.eqb_refl. by rewrite app_nil_r.
  - intros [Hb Hl]%orb_false_iff. unfold ascii_eqb in *. rewrite Ascii.eqb_sym in Hb.
    rewrite Hb, IH by done. simpl. by rewrite <- app_assoc.
Qed.
Lemma split_once_row p k :
  has_nul p = false -> split_once "000" (p ++s nul ++s k) = Some (p, k).
Proof.
  intros Hp. unfold split_once. rewrite !bytes_append.
  change (bytes nul ++ bytes k)%list with ("000"%char :: bytes k).
  rewrite split_once_bytes_app by exact Hp. cbn [rev app]. by rewrite !of_bytes_bytes.
Qed.

(** ** Keys of rows *)

Definition valid_name (p : string) : bool := negb (is_empty p || has_nul p).

Lemma record_key_valid p k :
  valid_name p = true -> valid_name k = true -> projection_record_key p k = Ok (p ++s nul ++s k).
Proof.
  unfold valid_name, projection_record_key. intros Hp%negb_true_iff Hk%negb_true_iff.
  by rewrite Hp, Hk.
Qed.
Lemma record_key_Ok p k row :
  projection_record_key p k = Ok row ->
  valid_name p = true /\ valid_name k = true /\ row = (p ++s nul ++s k).
Proof.
  unfold valid_name, projection_record_key, invalid_projection_name.
  destruct (is_empty p || has_nul p); [done|]. destruct (is_empty k || has_nul k); [done|].
  by intros [= <-].
Qed.
Lemma valid_name_nul p : valid_name p = true -> has_nul p = false.
Proof. unfold valid_name. intros Hp%negb_true_iff. by apply orb_false_iff in Hp as [_ ?]. Qed.

Lemma row_inj p k p' k' :
  valid_name p = true -> valid_name p' = true ->
  (p ++s nul ++s k) = (p' ++s nul ++s k') -> p = p' /\ k = k'.
Proof.
  intros Hp%valid_name_nul Hp'%valid_name_nul Heq.
  pose proof (split_once_row p k Hp) as H1. rewrite Heq, split_once_row in H1 by done.
  by injection H1.
Qed.

(** ** The abstract store *)

(** What one mutation, and one batch, make of the record [k] of the projection [p]. *)
Definition mutate (k : string) (current : option value) (m : ProjectionMutation)
    : option value :=
  match m with
  | Upsert key v => if String.eqb key k then Some v else current
  | Delete key => if String.eqb key k then None else current
  end.
Definition mutate_batch (p k : string) (current : option value) (b : ProjectionBatch)
    : option value :=
  if String.eqb (pb_projection b) p then foldl (mutate k) current (pb_mutations b) else current.
Definition advance (p : string) (position : N) (b : ProjectionBatch) : N :=
  if String.eqb (pb_projection b) p then pb_through_sequence b else position.

(** The values of a batch are read back as they were written. *)
Definition storable_mutation (m : ProjectionMutation) : Prop :=
  match m with Upsert _ v => parseable v /\ exact_json v = true | Delete _ => True end.
Definition storable (b : ProjectionBatch) : Prop := Forall storable_mutation (pb_mutations b).

Section Store.
Context `{Externals} `{JournalCodec} `{!JournalCodecOk}.

Definition decode_row (o : option string) : result StoreError (option value) :=
  transpose ((fun bytes => adapter_error (value_from_slice bytes)) <$> o).

Lemma get_record_row t p k :
  valid_name p = true -> valid_name k = true ->
  get_record t p k = decode_row (t_records t !! (p ++s nul ++s k)).
Proof. intros Hp Hk. unfold get_record. by rewrite record_key_valid. Qed.

Lemma encode_mutation_Ok p m e :
  encode_mutation p m = Ok e ->
  valid_name p = true /\
  match m with
  | Upsert key v => valid_name key = true /\ exists b, to_vec_value v = Ok b /\
      e = (p ++s nul ++s key, Some b)
  | Delete key => valid_name key = true /\ e = (p ++s nul ++s key, None)
  end.
Proof.
  destruct m as [key v|key]; unfold encode_mutation, adapter_error; intros He; inv_ok;
    match goal with Hk : projection_record_key _ _ = Ok _ |- _ =>
      apply record_key_Ok in Hk as (? & ? & ->) end; eauto 10.
Qed.

(** Mutations of the projection itself, and of another one. *)
Lemma write_mutations p k ms es records current :
  try_map (encode_mutation p) ms = Ok es -> Forall storable_mutation ms ->
  valid_name p = true -> valid_name k = true ->
  decode_row (records !! (p ++s nul ++s k)) = Ok current ->
  decode_row (foldl write_row records es !! (p ++s nul ++s k)) = Ok (foldl (mutate k) current ms).
Proof.
  revert es records current. induction ms as [|m ms IH]; intros es records current He Hs Hp Hk Hd.
  { by injection He as <-. }
  cbn [try_map] in He. inv_ok. apply Forall_cons in Hs as [Hm Hs]. simpl.
  apply encode_mutation_Ok in E as [_ Em]. eapply IH; [done|done|done|done|].
  destruct m as [key v|key].
  - destruct Em as (Hkey & b & Hb & ->). unfold write_row. simpl.
    destruct (String.eqb_spec key k) as [->|Hne].
    + rewrite lookup_insert_eq. unfold decode_row. simpl. destruct Hm as [Hpa Hex].
      by rewrite (value_roundtrip _ _ Hpa Hex Hb).
    + rewrite lookup_insert_ne; [done|]. intros Heq.
      apply row_inj in Heq as [_ Heq]; [by destruct Hne|done|done].
  - destruct Em as (Hkey & ->). unfold write_row. simpl.
    destruct (String.eqb_spec key k) as [->|Hne].
    + by rewrite lookup_delete_eq.
    + rewrite lookup_delete_ne; [done|]. intros Heq.
      apply row_inj in Heq as [_ Heq]; [by destruct Hne|done|done].
Qed.

Lemma write_other p q k ms es records :
  try_map (encode_mutation q) ms = Ok es -> q <> p -> valid_name p = true ->
  foldl write_row records es !! (p ++s nul ++s k) = records !! (p ++s nul ++s k).
Proof.
  revert es records. induction ms as [|m ms IH]; intros es records He Hne Hp.
  { by injection He as <-. }
  cbn [try_map] in He. inv_ok. simpl. rewrite (IH _ _ E0 Hne Hp).
  apply encode_mutation_Ok in E as [Hq Em]. unfold write_row.
  destruct m as [key v|key]; [destruct Em as (_ & b & _ & ->)|destruct Em as (_ & ->)]; simpl.
  - rewrite lookup_insert_ne; [done|]. intros Heq. by apply row_inj in Heq as [? _].
  - rewrite lookup_delete_ne; [done|]. intros Heq. by apply row_inj in Heq as [? _].
Qed.

(** ** Batches *)

Lemma encode_batch_Ok b e :
  encode_projection_batch b = Ok e ->
  valid_name (pb_projection b) = true /\ (pb_expected_position b < pb_through_sequence b)%N /\
  try_map (encode_mutation (pb_projection b)) (pb_mutations b) = Ok (eb_mutations e) /\
  eb_projection e = pb_projection b /\ eb_expected_position e = pb_expected_position b /\
  eb_through_sequence e = pb_through_sequence b.
Proof.
  unfold encode_projection_batch, projection_prefix, valid_name, invalid_projection_name.
  destruct (is_empty _ || has_nul _); [done|]. intros He. cbn [mbind result_bind] in He. inv_ok.
  apply N.leb_gt in E. split_and!; try done.
Qed.

(** One committed batch. *)
Lemma apply_encoded_Ok t b e t' p k current :
  encode_projection_batch b = Ok e -> apply_encoded t e = Ok t' -> storable b ->
  valid_name p = true -> valid_name k = true -> get_record t p k = Ok current ->
  get_record t' p k = Ok (mutate_batch p k current b).
Proof.
  intros He Ha Hs Hp Hk Hg. apply encode_batch_Ok in He as (Hv & _ & Hm & Hpr & Hex & Hth).
  unfold apply_encoded in Ha. inv_ok. rewrite get_record_row in * by done.
  cbn [set_rows t_records]. unfold mutate_batch.
  destruct (String.eqb_spec (pb_projection b) p) as [<-|Hne].
  - by eapply write_mutations.
  - by rewrite (write_other _ _ _ _ _ _ Hm).
Qed.

Lemma apply_encoded_position t b e t' p :
  encode_projection_batch b = Ok e -> apply_encoded t e = Ok t' ->
  default 0%N (t_positions t' !! p) = advance p (default 0%N (t_positions t !! p)) b /\
  default 0%N (t_positions t !! pb_projection b) = pb_expected_position b.
Proof.
  intros He Ha. apply encode_batch_Ok in He as (Hv & _ & _ & Hpr & Hex & Hth).
  unfold apply_encoded in Ha. inv_ok. apply negb_false_iff, N.eqb_eq in E.
  cbn [set_rows t_positions]. unfold advance. rewrite Hpr, Hth in *. split; [|congruence].
  destruct (String.eqb_spec (pb_projection b) p) as [<-|Hne].
  - by rewrite lookup_insert_eq.
  - by rewrite lookup_insert_ne.
Qed.

Lemma apply_all_Ok_ind (P : list ProjectionBatch -> Tables -> Tables -> Prop) :
  (forall t, P [] t t) ->
  (forall b e t t1 bs t', encode_projection_batch b = Ok e -> apply_encoded t e = Ok t1 ->
     P bs t1 t' -> P (b :: bs) t t') ->
  forall bs t t', apply_all bs t = Ok t' -> P bs t t'.
Proof.
  intros Hnil Hcons. unfold apply_all. induction bs as [|b bs IH]; intros t t' Ha; simpl in Ha.
  - by injection Ha as <-.
  - inv_ok. cbn [try_fold] in Ha. inv_ok. eapply Hcons; [done|done|]. apply IH.
    by rewrite E1.
Qed.

Lemma valid_name_prefix p : valid_name p = true -> projection_prefix p = Ok (p ++s nul).
Proof. unfold valid_name, projection_prefix. intros Hp%negb_true_iff. by rewrite Hp. Qed.

(** The batches of one [apply_all] are applied together and in order:
    afterwards every record of every projection is what its batch's mutations make of it,
    a projection's position is its last batch's, and projections without a batch keep
    both. *)
Lemma projection_apply bs t t' p k current :
  apply_all bs t = Ok t' -> Forall storable bs -> valid_name p = true -> valid_name k = true ->
  get_record t p k = Ok current ->
  get_record t' p k = Ok (foldl (mutate_batch p k) current bs) /\
  position t' p = Ok (foldl (advance p) (default 0%N (t_positions t !! p)) bs).
Proof.
  intros Ha Hs Hp Hk Hg. unfold position. rewrite (valid_name_prefix p Hp).
  cbn [mbind result_bind]. revert current Hs Hg. pattern bs, t, t'.
  revert bs t t' Ha. apply apply_all_Ok_ind; [done|].
  intros b e t t1 bs t' He Ha IH current Hs Hg. apply Forall_cons in Hs as [Hb Hs].
  pose proof (apply_encoded_Ok _ _ _ _ _ _ _ He Ha Hb Hp Hk Hg) as Hg'.
  destruct (apply_encoded_position _ _ _ _ p He Ha) as [Hpos _].
  destruct (IH _ Hs Hg') as [-> IHp]. split; [done|]. by rewrite IHp, Hpos.
Qed.

(** A batch is applied at most once: applying it again, to the
    tables it left or to any later ones its projection did not rewind, is a conflict that
    names the position reached. *)
Lemma projection_applied_once b t t' t'' :
  apply b t = Ok t' ->
  (pb_through_sequence b <= default 0%N (t_positions t'' !! pb_projection b))%N ->
  default 0%N (t_positions t' !! pb_projection b) = pb_through_sequence b /\
  apply b t'' = Err (Conflict ("projection:" ++s pb_projection b) (pb_expected_position b)
    (default 0%N (t_positions t'' !! pb_projection b))).
Proof.
  unfold apply, apply_all. simpl. intros Ha Hle.
  destruct (encode_projection_batch b) as [x|] eqn:E; [|done]. cbn in Ha.
  destruct (apply_encoded t x) as [t1|] eqn:E0; [|done]. injection Ha as ->.
  destruct (apply_encoded_position _ _ _ _ (pb_projection b) E E0) as [Hpos _].
  pose proof (encode_batch_Ok _ _ E) as (_ & Hlt & _ & Hpr & Hex & _).
  unfold advance in Hpos. rewrite String.eqb_refl in Hpos. split; [done|].
  cbn. unfold apply_encoded. rewrite Hpr, Hex.
  destruct (N.eqb_spec (default 0%N (t_positions t'' !! pb_projection b))
    (pb_expected_position b)); [lia|]. done.
Qed.

(** ** Reset *)

Lemma key_le_iff {V} (a b : string * V) : key_le a b <-> str_leb a.1 b.1 = true.
Proof. unfold key_le, String.le, str_leb. by rewrite Is_true_true. Qed.

(** The loop of [reset] finds every key below the namespace. *)
Lemma namespace_keys_elem ns rows x :
  StronglySorted key_le rows -> Forall (fun kv => str_leb ns kv.1 = true) rows ->
  x ∈ namespace_keys ns rows <-> x ∈ rows.*1 /\ starts_with x ns = true.
Proof.
  induction rows as [|[key v] rows IH]; intros Hs Hf; simpl.
  - rewrite elem_of_nil. naive_solver.
  - inversion Hs as [|? ? Hs' Hle]; subst. apply Forall_cons in Hf as [Hk Hf]. simpl in Hk.
    destruct (starts_with key ns) eqn:Hst.
    + rewrite !elem_of_cons, IH by done. naive_solver.
    + rewrite elem_of_nil, elem_of_cons. split; [done|]. intros [[->|Hin] Hx]; [congruence|].
      apply list_elem_of_fmap in Hin as (kv & -> & Hin).
      rewrite Forall_forall in Hle. apply Hle, key_le_iff in Hin. simpl in Hin.
      by rewrite (past_prefix ns key kv.1 Hk Hst Hin) in Hx.
Qed.

Lemma leb_append_r ns r : str_leb ns (ns ++s r) = true.
Proof.
  unfold str_leb, String.leb. induction ns as [|c ns IH]; [by destruct r|].
  rewrite append_cons. simpl. unfold Ascii.compare. by rewrite N.compare_refl.
Qed.

Lemma StronglySorted_filter {A} (R : A -> A -> Prop) f l :
  StronglySorted R l -> StronglySorted R (List.filter f l).
Proof.
  induction 1 as [|a l Hs IH Ha]; simpl; [constructor|]. destruct (f a); [|done].
  constructor; [done|]. rewrite Forall_forall in *. intros x Hx. apply Ha.
  apply list_elem_of_In in Hx. apply filter_In in Hx as [Hx _]. by apply list_elem_of_In.
Qed.

Lemma sorted_entries_sorted {V} (m : gmap string V) : StronglySorted key_le (sorted_entries m).
Proof.
  apply StronglySorted_merge_sort.
  - intros a b c. unfold key_le. apply (transitivity (R:=String.le)).
  - intros a b. unfold key_le. apply total. apply _.
Qed.

Definition reset_keys (ns : string) (m : gmap string string) : list string :=
  namespace_keys ns (List.filter (fun kv => str_leb ns kv.1) (sorted_entries m)).

Lemma reset_keys_elem ns m key :
  key ∈ reset_keys ns m <-> is_Some (m !! key) /\ starts_with key ns = true.
Proof.
  unfold reset_keys. rewrite namespace_keys_elem.
  - split; intros [Hin Hst]; (split; [|done]).
    + apply list_elem_of_fmap in Hin as ([key' v] & -> & Hin).
      apply list_elem_of_In, filter_In in Hin as [Hin _].
      apply list_elem_of_In, sorted_entries_elem in Hin. by eexists.
    + destruct Hin as [v Hv]. apply list_elem_of_fmap. exists (key, v). split; [done|].
      apply list_elem_of_In, filter_In. split; [by apply list_elem_of_In, sorted_entries_elem|].
      apply starts_with_spec in Hst as [r ->]. apply leb_append_r.
  - apply StronglySorted_filter, sorted_entries_sorted.
  - apply Forall_forall. intros kv Hin. apply list_elem_of_In, filter_In in Hin. tauto.
Qed.

Lemma foldl_delete_lookup (ks : list string) (m : gmap string string) key :
  foldl (fun m k => delete k m) m ks !! key = if decide (key ∈ ks) then None else m !! key.
Proof.
  revert m. induction ks as [|k ks IH]; intros m; cbn [foldl].
  - by rewrite decide_False by apply not_elem_of_nil.
  - rewrite IH. destruct (decide (key ∈ ks)) as [Hin|Hn].
    + by rewrite decide_True by (by right).
    + destruct (decide (key = k)) as [->|Hne].
      * rewrite decide_True by left. apply lookup_delete_eq.
      * rewrite decide_False by (by intros [?|?]%elem_of_cons). by apply lookup_delete_ne.
Qed.

(** Resetting a projection forgets its position and all of its
    records, and touches no other projection's. *)
Lemma projection_reset p t t' q k :
  reset p t = Ok t' -> valid_name q = true -> valid_name k = true ->
  (p = q -> position t' q = Ok 0%N /\ get_record t' q k = Ok None) /\
  (p <> q -> position t' q = position t q /\ get_record t' q k = get_record t q k).
Proof.
  unfold reset, projection_prefix, position. intros Hr Hq Hk. rewrite !(valid_name_prefix q Hq).
  destruct (is_empty p || has_nul p) eqn:Hp; [done|]. cbn [mbind result_bind] in Hr.
  injection Hr as <-. fold (reset_keys (p ++s nul) (t_records t)).
  assert (valid_name p = true) as Hpv by (unfold valid_name; by rewrite Hp).
  rewrite !get_record_row by done. cbn [set_rows t_positions t_records mbind result_bind].
  rewrite foldl_delete_lookup. split; intros Hpq.
  - subst q. rewrite lookup_delete_eq. split; [done|].
    destruct (t_records t !! (p ++s nul ++s k)) as [b|] eqn:Hb;
      [|by destruct (decide _)].
    rewrite decide_True; [done|]. apply reset_keys_elem. split; [by eexists|].
    apply starts_with_spec. exists k. by rewrite append_assoc.
  - rewrite lookup_delete_ne by done. split; [done|].
    rewrite decide_False; [done|]. intros [_ Hst]%reset_keys_elem.
    apply starts_with_spec in Hst as [r Hr]. rewrite append_assoc in Hr.
    by apply row_inj in Hr as [? _].
Qed.

End Store.

(** ** Projections and the journal *)

Definition parseable_mutation (m : ProjectionMutation) : Prop :=
  match m with Upsert _ v => parseable v | Delete _ => True end.

(** A batch the journal's verification tolerates: it does not pass the head. *)
Definition within_head (head : N) (b : ProjectionBatch) : Prop :=
  (pb_through_sequence b <= head)%N /\ Forall parseable_mutation (pb_mutations b).

Section Inv.
Context `{Externals} `{JournalCodec} `{!JournalCodecOk}.
Context {K Sg} `{KeyProvider K} `{!KeyProviderOk K} `{CheckpointSigner Sg} `{!CheckpointSignerOk Sg}.

Definition rows_ok (records : gmap string string) : Prop :=
  forall key b, records !! key = Some b -> check_record (key, b) = Ok tt.

Lemma check_record_row p k b v :
  valid_name p = true -> valid_name k = true -> value_from_slice b = Ok v ->
  check_record (p ++s nul ++s k, b) = Ok tt.
Proof.
  intros Hp Hk Hb. unfold check_record. rewrite split_once_row by (by apply valid_name_nul).
  cbn [ok_or mbind result_bind]. rewrite record_key_valid by done. cbn. by rewrite Hb.
Qed.

Lemma write_rows_ok p ms es records :
  try_map (encode_mutation p) ms = Ok es -> Forall parseable_mutation ms -> rows_ok records ->
  rows_ok (foldl write_row records es).
Proof.
  revert es records. induction ms as [|m ms IH]; intros es records He Hf Hr.
  { by injection He as <-. }
  cbn [try_map] in He. inv_ok. apply Forall_cons in Hf as [Hm Hf]. cbn [foldl].
  apply (IH _ _ E0 Hf). apply encode_mutation_Ok in E as [Hp Em]. intros key b.
  unfold write_row. destruct m as [k v|k]; [destruct Em as (Hk & b' & Hb' & ->)
    |destruct Em as (Hk & ->)]; simpl.
  - destruct (decide (key = p ++s nul ++s k)) as [->|Hne].
    + rewrite lookup_insert_eq. intros [= <-].
      destruct (value_parses _ _ Hm Hb') as [v' Hv']. by eapply check_record_row.
    + rewrite lookup_insert_ne by done. apply Hr.
  - intros [_ Hl]%lookup_delete_Some. by apply Hr.
Qed.

(** Only the projection tables change. *)
Lemma journal_ok_rows (j : RedbEventJournal K Sg) l positions records :
  journal_ok j l ->
  (forall p n, positions !! p = Some n -> check_position (count l) (p, n) = Ok tt) ->
  rows_ok records ->
  journal_ok (set_tables (set_rows positions records (rj_tables j)) j) l.
Proof.
  intros [[] Hh Hw Hc Ha] Hp Hr. by constructor.
Qed.

Lemma check_position_valid head p n :
  valid_name p = true -> (n <= head)%N -> check_position head (p, n) = Ok tt.
Proof.
  intros Hp Hn. unfold check_position. rewrite (valid_name_prefix p Hp).
  cbn [map_err mbind result_bind]. apply reject_Ok, N.ltb_ge. lia.
Qed.

Lemma journal_ok_apply (j : RedbEventJournal K Sg) l bs t' :
  journal_ok j l -> Forall (within_head (count l)) bs ->
  apply_all bs (rj_tables j) = Ok t' -> journal_ok (set_tables t' j) l.
Proof.
  intros Hj Hb Ha. remember (rj_tables j) as t eqn:Ht.
  assert (journal_ok (set_tables t j) l) as Hj'.
  { subst t. by destruct j. }
  clear Hj Ht. revert Hb Hj'. pattern bs, t, t'. revert bs t t' Ha. apply apply_all_Ok_ind; [done|].
  intros b e t t1 bs t' He Ha IH Hb Hj. apply Forall_cons in Hb as [[Hle Hp] Hb]. apply (IH Hb).
  apply encode_batch_Ok in He as (Hv & _ & Hm & Hpr & _ & Hth). unfold apply_encoded in Ha. inv_ok.
  apply (journal_ok_rows (set_tables t j) l); [done| |].
  - intros p n. rewrite Hpr, Hth. destruct (decide (p = pb_projection b)) as [->|Hne].
    + rewrite lookup_insert_eq. intros [= <-]. by apply check_position_valid.
    + rewrite lookup_insert_ne by done. apply (ji_positions _ _ _ _ (jo_inv _ _ Hj)).
  - eapply write_rows_ok; [done|done|]. intros key x. apply (ji_records _ _ _ _ (jo_inv _ _ Hj)).
Qed.

Lemma journal_ok_reset (j : RedbEventJournal K Sg) l p t' :
  journal_ok j l -> reset p (rj_tables j) = Ok t' -> journal_ok (set_tables t' j) l.
Proof.
  unfold reset. intros Hj Hr. inv_ok.
  match goal with |- context [foldl _ _ ?ks] => set (keys := ks) end.
  apply journal_ok_rows; [done| |].
  - intros q n [_ Hq]%lookup_delete_Some. by apply (ji_positions _ _ _ _ (jo_inv _ _ Hj)).
  - intros key b. rewrite foldl_delete_lookup. destruct (decide _); [done|].
    apply (ji_records _ _ _ _ (jo_inv _ _ Hj)).
Qed.

(** A position past the head is an integrity failure to every later verification. *)
Lemma position_past_head (j : RedbEventJournal K Sg) p n :
  (N.of_nat (size (t_events (rj_tables j))) + 1 < u64_max)%N ->
  stream_events_index_version (rj_tables j) = Ok (Some STREAM_EVENTS_INDEX_VERSION) ->
  last_sequence (rj_tables j) = Ok n -> is_Some (t_positions (rj_tables j) !! p) ->
  (forall q, t_positions (rj_tables j) !! p = Some q -> n < q)%N ->
  forall report, (port_verify j).1 <> Ok report.
Proof.
  intros Hsize Hindex Hn [q Hq] Hlt report Hv.
  assert (verify_inner (rj_payload_protection j) (rj_keys j) (rj_signer j) (rj_tables j)
    = Ok report) as Hok.
  { unfold port_verify in Hv. destruct (verify_inner _ _ _ _) as [r|[]]; simpl in Hv; congruence. }
  apply (verify_inner_exact _ _ _ _ report Hsize Hindex) in Hok as (l & a & c & _ & _ & Hi & _).
  pose proof (ji_sequence _ _ _ _ Hi) as Hl. rewrite Hl in Hn. injection Hn as <-.
  pose proof (ji_positions _ _ _ _ Hi _ _ Hq) as Hp. unfold check_position in Hp.
  apply bind_Ok in Hp as (? & _ & Hp). apply reject_Ok, N.ltb_ge in Hp.
  specialize (Hlt _ Hq). lia.
Qed.

End Inv.

(** ** Two batches of two projections *)

Section Test.
#[local] Existing Instances journal_externals test_codec test_codec_ok.

Definition test_batches : list ProjectionBatch :=
  [mkProjectionBatch "sessions-v1" 0 3 [Upsert "s1" (Str "open"); Upsert "s2" (Str "open")];
   mkProjectionBatch "work-v1" 0 3 [Upsert "s1" (Str "task")];
   mkProjectionBatch "sessions-v1" 3 4 [Upsert "s1" (Str "closed"); Delete "s2"]].
Definition tables_after : Tables :=
  match apply_all test_batches no_tables with Ok t => t | Err _ => no_tables end.
Lemma tables_after_ok : apply_all test_batches no_tables = Ok tables_after.
Proof. reflexivity. Qed.
Lemma test_batches_storable : Forall storable test_batches.
Proof.
  repeat (apply Forall_cons; split); try apply Forall_nil; try done;
    repeat (apply Forall_cons; split); try apply Forall_nil; try done;
    (split; [unfold parseable, MAX_PARSED_DEPTH; cbn; lia|done]).
Qed.

Lemma projection_apply_witness :
  get_record tables_after "sessions-v1" "s1" = Ok (Some (Str "closed")) /\
  get_record tables_after "sessions-v1" "s2" = Ok None /\
  get_record tables_after "work-v1" "s1" = Ok (Some (Str "task")) /\
  position tables_after "sessions-v1" = Ok 4%N.
Proof.
  split_and!.
  - by apply (projection_apply test_batches no_tables tables_after "sessions-v1" "s1" None
      tables_after_ok test_batches_storable).
  - by apply (projection_apply test_batches no_tables tables_after "sessions-v1" "s2" None
      tables_after_ok test_batches_storable).
  - by apply (projection_apply test_batches no_tables tables_after "work-v1" "s1" None
      tables_after_ok test_batches_storable).
  - by apply (projection_apply test_batches no_tables tables_after "sessions-v1" "s1" None
      tables_after_ok test_batches_storable).
Defined.

Definition work_at_three : Tables := set_rows {["work-v1" := 3%N]} ∅ no_tables.
Lemma projection_applied_once_witness :
  apply (mkProjectionBatch "work-v1" 0 3 []) no_tables = Ok work_at_three /\
  apply (mkProjectionBatch "work-v1" 0 3 []) work_at_three
  = Err (Conflict "projection:work-v1" 0 3).
Proof.
  split; [reflexivity|].
  destruct (projection_applied_once (mkProjectionBatch "work-v1" 0 3 []) no_tables work_at_three
    work_at_three eq_refl) as [_ ->]; done.
Defined.

Lemma projection_reset_witness :
  exists t, reset "sessions-v1" tables_after = Ok t /\
    get_record t "sessions-v1" "s1" = Ok None /\ position t "sessions-v1" = Ok 0%N /\
    get_record t "work-v1" "s1" = get_record tables_after "work-v1" "s1".
Proof.
  eexists. split; [reflexivity|]. split_and!.
  - by apply (projection_reset "sessions-v1" tables_after _ "sessions-v1" "s1" eq_refl).
  - by apply (projection_reset "sessions-v1" tables_after _ "sessions-v1" "s1" eq_refl).
  - by apply (projection_reset "sessions-v1" tables_after _ "work-v1" "s1" eq_refl).
Defined.

End Test.
