(* ===== verification/JournalSafety.v ===== *)
(** * What holds of every journal

    Opening, verifying and the safety of every sequence of operations: a journal opened
    fresh, whatever is done to it through its ports, holds a chain that only grows and
    passes its own verification, within the limits of [journal_step]; with the two ways
    out that the code has. *)

From S2P Require Import Prelude Json Contracts Boundary Platform CommandApproval.
From S2P Require Import JournalStore Journal JournalVerify ProjectionStore.
From S2P Require Import JournalModel JournalCorrect JournalAppend JournalTest JournalPort.
From S2P Require Import ProjectionCorrect.

Open Scope string_scope.

Section Safety.
Context `{Externals} `{JournalCodec} `{!JournalCodecOk}.
Context {K Sg} `{KeyProvider K} `{!KeyProviderOk K} `{CheckpointSigner Sg} `{!CheckpointSignerOk Sg}.
Abbreviation journal := (RedbEventJournal K Sg).

(** The number of events a journal holds. *)
Definition event_count (j : journal) : N := N.of_nat (size (t_events (rj_tables j))).
Lemma event_count_ok j l : journal_ok j l -> event_count j = count l.
Proof. intros Hj. apply contiguous_size, (jo_inv _ _ Hj). Qed.

(** ** Verification *)

(** C3. Verification decides exactly whether the tables are those of a
    journal: it reports success when they hold a chain whose every record hashes,
    decrypts and is indexed, with head metadata, outbox, projections, signed checkpoint
    and secure anchor consistent with it, and only then. *)
Theorem verification_exact (j : journal) report :
  (event_count j + 1 < u64_max)%N ->
  stream_events_index_version (rj_tables j) = Ok (Some STREAM_EVENTS_INDEX_VERSION) ->
  (port_verify j).1 = Ok report <->
  exists l a c, load_anchor (rj_keys j) = Ok a /\ latest_checkpoint (rj_tables j) = Ok c /\
    journal_inv (rj_payload_protection j) (rj_keys j) (rj_tables j) l /\
    checkpoint_ok (rj_payload_protection j) (rj_signer j) l c /\ anchor_ok l a /\
    report = mkVerificationReport (count l) (count l) (head_hash l) c.
Proof.
  intros Hb Hx. rewrite <- (verify_inner_exact _ _ (rj_signer j) _ report Hb Hx).
  unfold port_verify. by destruct (verify_inner _ _ _ _) as [r|[]].
Qed.

Lemma sound_verifies j l :
  journal_ok j l -> (count l + 1 < u64_max)%N ->
  exists c, latest_checkpoint (rj_tables j) = Ok c /\
    port_verify j = (Ok (mkVerificationReport (count l) (count l) (head_hash l) c), j).
Proof.
  intros Hj Hb. destruct (jo_checkpoint _ _ Hj) as (c & Hc & Hcok).
  destruct (jo_anchor _ _ Hj) as (a & Ha & Haok). exists c. split; [done|].
  unfold port_verify.
  assert (verify_inner (rj_payload_protection j) (rj_keys j) (rj_signer j) (rj_tables j)
    = Ok (mkVerificationReport (count l) (count l) (head_hash l) c)) as ->; [|done].
  apply verify_inner_exact.
  - fold (event_count j). by rewrite (event_count_ok _ _ Hj).
  - apply (jo_inv _ _ Hj).
  - exists l, a, c. split_and!; try done. apply Hj.
Qed.

(** ** Sequences of operations *)

(** One operation through the ports, within the limits the caller keeps: nonces of 24
    bytes, payloads and projection values that can be parsed back, projections that do not
    pass the head, and fewer than [2^64] events. *)
Inductive journal_step (j : journal) : journal -> Prop :=
| step_append now age_due events :
    Forall event_wf events -> (event_count j + count events + 1 < u64_max)%N ->
    journal_step j (append_batch now age_due events j).2
| step_checkpoint now : journal_step j (checkpoint now j).2
| step_apply batches t' :
    Forall (within_head (event_count j)) batches ->
    apply_all batches (rj_tables j) = Ok t' -> journal_step j (set_tables t' j)
| step_reset projection t' :
    reset projection (rj_tables j) = Ok t' -> journal_step j (set_tables t' j)
| step_verify : journal_step j (port_verify j).2
| step_read {A} (read : Tables -> result StoreError A) :
    (forall e, read (rj_tables j) = Err e -> integrity_error e = false) ->
    journal_step j (reads read j).2.

Lemma step_sound j j' l :
  journal_ok j l -> (count l + 1 < u64_max)%N -> journal_step j j' ->
  exists es, journal_ok j' (l ++ es) /\ (count (l ++ es) + 1 < u64_max)%N.
Proof.
  intros Hj Hb Hstep.
  assert (forall j1, journal_ok j1 l -> exists es, journal_ok j1 (l ++ es) /\
    (count (l ++ es) + 1 < u64_max)%N) as Hsame by (intros j1 ?; exists []; by rewrite app_nil_r).
  destruct Hstep as [now due events Hwf Hn|now|bs t' Hw Ha|p t' Hr| |A read Hr].
  - rewrite (event_count_ok _ _ Hj) in Hn.
    pose proof (append_batch_sound now due events j l Hj Hwf ltac:(lia)) as Hs.
    destruct Hs as [->|(es & Hes & Hlen)]; [auto|]. exists (durable_envelope <$> es).
    split; [done|]. rewrite count_app. unfold count at 2. rewrite length_fmap, Hlen.
    unfold count in *. lia.
  - pose proof (checkpoint_spec now j l Hj) as Hs. destruct (checkpoint now j). apply Hsame, Hs.
  - apply Hsame. rewrite (event_count_ok _ _ Hj) in Hw. by eapply journal_ok_apply.
  - apply Hsame. by eapply journal_ok_reset.
  - destruct (sound_verifies j l Hj Hb) as (c & _ & ->). auto.
  - apply Hsame. unfold reads. by rewrite quarantine_keeps.
Qed.

(** C10. Whatever is done to a sound journal through its ports within the limits of
    [journal_step] - nonces of 24 bytes, payloads and projection values that can be parsed
    back, projections that do not pass the head, reads that find no integrity failure, fewer
    than [2^64] events - its chain is only ever extended, it stays open for writing, and
    its verification succeeds with that chain's head. *)
Theorem journal_append_only j j' l :
  journal_ok j l -> (count l + 1 < u64_max)%N -> rtc journal_step j j' ->
  exists es c, journal_ok j' (l ++ es) /\ rj_recovery_mode j' = false /\
    port_verify j'
    = (Ok (mkVerificationReport (count (l ++ es)) (count (l ++ es)) (head_hash (l ++ es)) c), j').
Proof.
  intros Hj Hb Hsteps. revert l Hj Hb. induction Hsteps as [j|j j1 j' Hstep _ IH]; intros l Hj Hb.
  - destruct (sound_verifies j l Hj Hb) as (c & _ & Hv). exists [], c.
    rewrite app_nil_r. split_and!; [done|apply Hj|done].
  - destruct (step_sound _ _ _ Hj Hb Hstep) as (es & Hj1 & Hb1).
    destruct (IH _ Hj1 Hb1) as (es' & c & Hj' & Hw & Hv).
    exists (es ++ es')%list, c. rewrite app_assoc. by split_and!.
Qed.

(** ** Payloads *)

Lemma recorded_row events l es j es' e :
  batch_recorded events l es j -> (es', e) ∈ zip events es ->
  held (rj_payload_protection j) (rj_keys j) (rj_tables j) es' e.
Proof.
  intros (_ & _ & Hh) [i Hi]%list_elem_of_lookup_1.
  apply lookup_zip_with_Some in Hi as (x & y & [= <- <-] & Hx & Hy).
  by eapply Forall2_lookup_lr.
Qed.

Lemma load_persisted_row (t : Tables) e b p :
  t_events t !! ev_global_sequence e = Some b -> envelope_from_slice b = Ok (durable_envelope e) ->
  persisted_from_slice b = Ok p ->
  load_persisted t (durable_envelope e) = Ok p /\
  (durable_envelope e <> e -> exists reason, load_persisted t e = Err (Verification reason)).
Proof.
  intros Hb He Hp. unfold load_persisted. cbn [durable_envelope ev_global_sequence].
  rewrite Hb. cbn [ok_or mbind result_bind]. rewrite He. cbn [decode_journal_json map_err mbind result_bind].
  rewrite bool_decide_true by done. cbn [negb reject mbind result_bind]. rewrite Hp.
  split; [done|]. intros Hne. rewrite bool_decide_false by done. by eexists.
Qed.

Lemma recorded_payload events l es j es' e :
  batch_recorded events l es j -> (es', e) ∈ zip events es ->
  exact_json (ne_payload es'.1) = true ->
  decrypt_payload (durable_envelope e) j = (Ok (ne_payload es'.1), j).
Proof.
  intros Hb Hin Hx. destruct (recorded_row _ _ _ _ _ _ Hb Hin) as (_ & b & v & Hrow & Hd & Hv).
  destruct Hd as (He & p & Hp & Hver). unfold decrypt_payload.
  destruct (load_persisted_row _ _ _ _ Hrow He Hp) as [-> _]. cbn [mbind result_bind].
  by rewrite Hver, Hv.
Qed.

(** An envelope as [append] returned it whose context
    has a field that serialisation skips is not the stored one: decrypting its payload is
    reported as an integrity failure and closes the journal for writing. *)
Lemma undurable_envelope_quarantines events l es j es' e :
  batch_recorded events l es j -> (es', e) ∈ zip events es -> durable_envelope e <> e ->
  exists reason, (decrypt_payload e j).1 = Err (Verification reason) /\
    rj_recovery_mode (decrypt_payload e j).2 = true /\
    forall now age_due es0,
      es0 <> [] -> (append_batch now age_due es0 (decrypt_payload e j).2).1 = Err RecoveryMode.
Proof.
  intros Hb Hin Hne. destruct (recorded_row _ _ _ _ _ _ Hb Hin) as (_ & b & v & Hrow & Hd & _).
  destruct Hd as (He & p & Hp & _).
  destruct (load_persisted_row _ _ _ _ Hrow He Hp) as [_ [reason Hl]]; [done|].
  exists reason. unfold decrypt_payload. rewrite Hl. by split_and!.
Qed.

(** ** Opening *)

(** A journal opened on an empty database is open for writing and
    holds the empty chain. *)
Lemma fresh_journal_sound now mode (k : K) (s : Sg) :
  load_anchor k = Ok None ->
  exists j report, open_database now mode k s no_tables = Ok (j, Some report) /\
    journal_ok j [] /\ rj_keys j = k /\ rj_signer j = s.
Proof.
  intros Ha. destruct (string_roundtrip (protection_text (payload_protection k))) as (pb & Hpb & _).
  destruct (u64_roundtrip STREAM_EVENTS_INDEX_VERSION) as (vb & Hvb & Hv); [done|].
  unfold open_database, initialize_payload_protection. cbn [no_tables t_metadata].
  rewrite lookup_empty. cbn [fmap option_fmap option_map transpose mbind result_bind].
  unfold last_sequence at 1. cbn [no_tables t_metadata]. rewrite lookup_empty.
  cbn [mbind result_bind]. rewrite !bool_decide_true by (done || (by destruct (payload_protection k))).
  cbn [negb orb N.ltb N.compare reject mbind result_bind is_none is_some is_some_and].
  rewrite Hpb. cbn [adapter_error map_err mbind result_bind].
  set (t := set_metadata PAYLOAD_PROTECTION_KEY pb no_tables).
  set (j := mkRedbEventJournal t (payload_protection k) k s false None).
  assert (startup_anchor j = Ok None) as Hanchor.
  { unfold startup_anchor. cbn. by destruct (is_plaintext _). }
  unfold verify_startup. rewrite Hanchor.
  assert (reads head_of j = (Ok (0%N, ZERO_HASH), j)) as ->.
  { unfold reads, head_of, last_sequence, last_hash. cbn [j t rj_tables set_metadata t_metadata].
    by rewrite !lookup_insert_ne. }
  cbn [is_some_and N.eqb]. unfold startup_index, ensure_stream_events_index.
  assert (stream_events_index_version (rj_tables j) = Ok None) as ->.
  { unfold stream_events_index_version. cbn [j t rj_tables set_metadata t_metadata].
    by rewrite lookup_insert_ne. }
  cbn [mbind result_bind]. rewrite bool_decide_false by done.
  cbn [is_some is_some_and reject mbind result_bind].
  change (t_stream_events (rj_tables j)) with (∅ : gmap (string * N) N).
  change (table_entries (t_events (rj_tables j))) with ([] : list (N * string)).
  rewrite bool_decide_true by done. cbn [negb reject mbind result_bind try_fold].
  rewrite Hvb. cbn [adapter_error map_err mbind result_bind quarantine_result].
  do 2 eexists. split; [reflexivity|]. split; [|done].
  assert (forall V, contiguous (∅ : gmap N V) 0) as He.
  { intros V q. split; [by intros [? Hq%lookup_empty_Some]|lia]. }
  constructor; cbn [set_tables rj_tables rj_payload_protection rj_keys rj_signer rj_recovery_mode].
  - constructor; first [apply chain_nil|apply He|by constructor|done|idtac].
    unfold stream_events_index_version. cbn [set_metadata t_metadata j t rj_tables].
    rewrite lookup_insert_eq. simpl. by rewrite Hv.
  - done.
  - done.
  - exists None. split; [|done]. unfold latest_checkpoint.
    cbn [set_metadata t_metadata j t rj_tables]. by rewrite !lookup_insert_ne.
  - by exists None.
Qed.

(** ** Payloads that cannot be parsed back *)

(** What a single-event append leaves, whatever its payload is. *)
Lemma append_one_row (j : journal) l es t' es' :
  journal_inv (rj_payload_protection j) (rj_keys j) (rj_tables j) l ->
  (forall nonce, st_nonce es.2 = Ok nonce -> slen nonce = 24%N) -> (count l < u64_max)%N ->
  append_locked false (rj_payload_protection j) (rj_keys j) [es] (rj_tables j) = Ok (t', es') ->
  exists e b p plaintext,
    t_events t' !! (count l + 1)%N = Some b /\ envelope_from_slice b = Ok (durable_envelope e) /\
    persisted_from_slice b = Ok p /\ to_vec_value (ne_payload es.1) = Ok plaintext /\
    decrypt_persisted (rj_payload_protection j) (rj_keys j) (durable_envelope e) p = Ok plaintext /\
    last_sequence t' = Ok (count l + 1)%N /\
    stream_events_index_version t' = Ok (Some STREAM_EVENTS_INDEX_VERSION) /\
    size (t_events t') = S (size (t_events (rj_tables j))).
Proof.
  intros Hi Hn Hmax Ha. destruct es as [event stamp]. unfold append_locked in Ha.
  cbn [reject mbind result_bind] in Ha. change (bool_decide (length [(event, stamp)] = 0)) with false in Ha. cbn iota in Ha.
  rewrite (ji_sequence _ _ _ _ Hi), (ji_hash _ _ _ _ Hi) in Ha. cbn [mbind result_bind try_fold] in Ha.
  destruct (append_event _ _ _ _) as [s|] eqn:Hs; [|done]. cbn [mbind result_bind] in Ha.
  unfold append_event in Hs. cbn [as_batch_versions as_tables as_sequence as_previous_hash] in Hs.
  rewrite lookup_empty in Hs. unfold adapter_error in Hs. inv_ok. cbn [as_sequence as_previous_hash] in *.
  unfold checked_add in E2. destruct (N.leb_spec (count l + 1) u64_max); [|done].
  injection E2 as <-. unfold adapter_error in E, E0. apply map_err_Ok in E, E0.
  destruct (u64_roundtrip (count l + 1)) as (sb & Hsb & Hsq); [lia|].
  destruct (seal_cases _ _ _ _ _ _ E5) as (plaintext & payload & h & Hpt & Henc & _ & He).
  destruct (envelope_roundtrip _ _ E6) as (Hd & p & Hp & _ & Had & _).
  assert (ev_global_sequence x5 = count l + 1)%N as Hg by (by rewrite He).
  exists x5, x6, p, plaintext. cbn [set_metadata insert_event t_events as_tables]. rewrite Hg.
  split_and!; [apply lookup_insert_eq|done|done|done| | | |].
  - assert (associated_data x5 = associated_data (draft_envelope event stamp (count l + 1) x3 x4
      (head_hash l))) as Heq by (by rewrite He).
    rewrite Heq in Had. rewrite He. by apply (decrypt_encrypted _ _ _ _ _ _ h p Hn Henc Had).
  - unfold last_sequence. cbn [set_metadata t_metadata].
    rewrite lookup_insert_ne, lookup_insert_eq by done.
    assert (sb = x) as -> by congruence. by rewrite Hsq.
  - unfold stream_events_index_version. cbn [set_metadata t_metadata insert_event as_tables].
    rewrite !lookup_insert_ne by done. apply (ji_index_version _ _ _ _ Hi).
  - apply map_size_insert_None, eq_None_not_Some. intros Hs%(ji_events _ _ _ _ Hi). lia.
Qed.

(** An append does not check that its payload can be parsed
    back: an event whose payload's text the parser refuses (one nested deeper than it
    allows) is committed, and from then on no verification of the journal succeeds. *)
Lemma deep_payload_closes_journal (j : journal) l es t' es' :
  journal_ok j l -> (count l + 2 < u64_max)%N ->
  (forall nonce, st_nonce es.2 = Ok nonce -> slen nonce = 24%N) ->
  append_locked false (rj_payload_protection j) (rj_keys j) [es] (rj_tables j) = Ok (t', es') ->
  (forall plaintext, to_vec_value (ne_payload es.1) = Ok plaintext ->
     exists m, value_from_slice plaintext = Err m) ->
  forall report, (port_verify (set_tables t' j)).1 <> Ok report.
Proof.
  intros Hj Hb Hn Ha Hdeep report Hv.
  destruct (append_one_row j l es t' es' (jo_inv _ _ Hj) Hn ltac:(lia) Ha)
    as (e & b & p & plaintext & Hrow & He & Hp & Hpt & Hdec & Hseq & Hidx & Hsize).
  destruct (Hdeep _ Hpt) as [m Hm].
  assert (verify_inner (rj_payload_protection j) (rj_keys j) (rj_signer j) t' = Ok report) as Hok.
  { unfold port_verify in Hv. cbn in Hv. destruct (verify_inner _ _ _ _) as [r|[]]; simpl in Hv; congruence. }
  apply verify_inner_exact in Hok as (l' & a & c & _ & _ & Hi & _);
    [|rewrite Hsize; pose proof (event_count_ok j l Hj) as Hc; unfold event_count in Hc; lia|done].
  pose proof (ji_sequence _ _ _ _ Hi) as Hl. rewrite Hseq in Hl. injection Hl as Hl.
  destruct (lookup_lt_is_Some_2 l' (N.to_nat (count l))) as [e' He']; [unfold count in *; lia|].
  destruct (chain_lookup _ _ _ (ji_chain _ _ _ _ Hi) He') as (Hg & _).
  destruct (Forall_lookup_1 _ _ _ _ (ji_rows _ _ _ _ Hi) He')
    as [(b' & Hb' & Hd & p' & v & Hp' & Hver) _].
  rewrite N2Nat.id in Hg. rewrite Hg, Hrow in Hb'. injection Hb' as <-.
  rewrite Hp in Hp'. injection Hp' as <-. rewrite He in Hd. injection Hd as <-.
  unfold verify_persisted_event in Hver. inv_ok. unfold decode_journal_json in Hver. inv_ok. congruence.
Qed.

End Safety.

(** ** The test journal *)

Section Test.
#[local] Existing Instances journal_externals test_codec test_codec_ok.
Abbreviation test_store := (RedbEventJournal StaticKeyProvider TestSigner).

Lemma verification_exact_witness :
  (event_count test_journal + 1 < u64_max)%N /\
  (port_verify test_journal).1 = Ok (mkVerificationReport 0 0 ZERO_HASH None).
Proof.
  split; [done|]. apply (verification_exact test_journal); [done|done|].
  exists [], None, None. split_and!; try done. apply test_journal_ok.
Defined.

Lemma journal_append_only_witness :
  exists (j : test_store) es c, journal_ok j es /\ rj_recovery_mode j = false /\
    port_verify j = (Ok (mkVerificationReport (count es) (count es) (head_hash es) c), j).
Proof.
  set (j := (append_batch (Ok "now") true test_batch test_journal).2).
  destruct (journal_append_only test_journal j [] test_journal_ok) as (es & c & Hj & Hw & Hv);
    [done|apply rtc_once, step_append; [apply test_batch_wf|by cbn]|].
  rewrite app_nil_l in *. exists j, es, c. by split_and!.
Defined.

Lemma undurable_envelope_quarantines_witness :
  exists (j : test_store) e reason, rj_recovery_mode j = false /\
    (decrypt_payload e j).1 = Err (Verification reason) /\
    rj_recovery_mode (decrypt_payload e j).2 = true.
Proof.
  destruct (append_batch_decides (Ok "now") true [test_offering] test_journal [] test_journal_ok)
    as (es & j & _ & Hb); [|by cbn|apply test_available; [done|by repeat constructor]|].
  { apply Forall_singleton. split; [unfold parseable, MAX_PARSED_DEPTH; cbn; lia|by intros ? [= <-]]. }
  pose proof Hb as (Hj & _ & Hh).
  apply Forall2_cons_inv_l in Hh as (e & es' & [Hrec _] & _ & ->).
  destruct (undurable_envelope_quarantines [test_offering] [] (e :: es') j test_offering e Hb)
    as (reason & Hd & Hq & _).
  - left.
  - intros Heq. pose proof (rec_context _ _ Hrec) as Hc. rewrite <- Heq in Hc. discriminate Hc.
  - exists j, e, reason. split_and!; [apply Hj|done|done].
Defined.

Lemma fresh_journal_sound_witness :
  exists (j : test_store) report,
    open_database (Ok "now") Incremental (static_new "key-1" test_key) TestSignerKey no_tables
    = Ok (j, Some report) /\ journal_ok j [].
Proof.
  destruct (fresh_journal_sound (Ok "now") Incremental (static_new "key-1" test_key) TestSignerKey)
    as (j & report & Ho & Hj & _); [done|]. by exists j, report.
Defined.

Lemma deep_payload_closes_journal_witness :
  exists t' es', append_locked false EncryptedProtection (static_new "key-1" test_key) [test_deep]
      (rj_tables test_journal) = Ok (t', es') /\
    forall report, (port_verify (set_tables t' test_journal)).1 <> Ok report.
Proof.
  eexists _, _. split; [reflexivity|].
  eapply (deep_payload_closes_journal test_journal [] test_deep);
    [apply test_journal_ok|done|by intros ? [= <-]|reflexivity|].
  intros plaintext [= <-]. exists "recursion limit exceeded". cbn [value_from_slice test_codec].
  unfold parse_value. rewrite read_text. reflexivity.
Defined.

End Test.
