(* ===== verification/ExternalWorkCorrect.v ===== *)
(** * The external-work queue over the redb journal

    A consumer is handed the journal's events in order, each once, and its checkpoint
    moves exactly past what it acknowledged; its retry state counts failures with a
    bounded backoff.  The retry state's own position is not tied to the journal's head,
    which is what the last theorem is about. *)

From S2P Require Import Prelude Json Contracts Boundary Platform CommandApproval.
From S2P Require Import JournalStore Journal JournalVerify ProjectionStore.
From S2P Require Import JournalModel JournalCorrect JournalTest JournalPort ProjectionCorrect.
From S2P Require Import JournalReads Store ExternalWork.

Open Scope string_scope.
Open Scope op_scope.

(** The backoff starts at one second, doubles with every failure
    up to the ninth and never exceeds five minutes. *)
Lemma retry_backoff_bounds attempts :
  (1 <= retry_backoff attempts <= 300)%Z /\
  (retry_backoff attempts <= retry_backoff (attempts + 1))%Z /\
  ((1 <= attempts <= 8)%N -> retry_backoff (attempts + 1) = 2 * retry_backoff attempts)%Z.
Proof.
  assert (forall n, retry_backoff n = Z.min (2 ^ Z.of_N (N.min (n - 1) 9)) 300) as Hb.
  { intros n. unfold retry_backoff, saturating_sub. rewrite Z.shiftl_1_l.
    destruct (N.ltb_spec (N.min (n - 1) 9) 64); [done|lia]. }
  assert (forall m n, (m <= n)%N -> (2 ^ Z.of_N (N.min (m - 1) 9) <= 2 ^ Z.of_N (N.min (n - 1) 9))%Z)
    as Hmono by (intros m n Hmn; apply Z.pow_le_mono_r; lia).
  rewrite !Hb. split_and!.
  - pose proof (Z.pow_pos_nonneg 2 (Z.of_N (N.min (attempts - 1) 9))). lia.
  - lia.
  - specialize (Hmono attempts (attempts + 1)%N ltac:(lia)). lia.
  - intros Ha. replace (Z.of_N (N.min (attempts + 1 - 1) 9))
      with (Z.succ (Z.of_N (N.min (attempts - 1) 9))) by lia.
    rewrite Z.pow_succ_r by lia.
    assert (2 ^ Z.of_N (N.min (attempts - 1) 9) <= 2 ^ 7)%Z by (apply Z.pow_le_mono_r; lia). lia.
Qed.

Lemma slice_prefix (l : list EventEnvelope) n from :
  work_item <$> take n (drop from l)
  = work_item <$> take (length (work_item <$> take n (drop from l))) (drop from l).
Proof.
  rewrite length_fmap, length_take. f_equal. apply list_eq. intros i.
  destruct (decide (i < n)) as [Hi|Hi].
  - rewrite lookup_take_lt by done. destruct (decide (i < length (drop from l))) as [Hl|Hl].
    + rewrite lookup_take_lt by lia. done.
    + rewrite !lookup_ge_None_2; [done|rewrite length_take; lia|lia].
  - rewrite !lookup_ge_None_2; [done|rewrite length_take; lia..].
Qed.

Section Queue.
Context `{Externals} `{JournalCodec} `{!JournalCodecOk} `{RetryCodec}.
Context {K Sg} `{KeyProvider K} `{!KeyProviderOk K} `{CheckpointSigner Sg} `{!CheckpointSignerOk Sg}.
Abbreviation journal := (RedbEventJournal K Sg).

(** ** Names *)

Lemma contains_none (f g : ascii -> bool) s :
  all_bytes f s = true -> (forall c, f c = true -> g c = false) -> existsb g (bytes s) = false.
Proof.
  unfold all_bytes. intros Hf Hg. induction (bytes s) as [|c l IH]; [done|]. simpl in *.
  apply andb_true_iff in Hf as [Hc Hl]. rewrite (Hg c Hc). by apply IH.
Qed.
Lemma code_byte_nul c : code_byte c = true -> ascii_eqb "000" c = false.
Proof. intros Hc. destruct (Ascii.eqb_spec "000" c) as [<-|]; [done|by apply Ascii.eqb_neq]. Qed.

Lemma prefixed_name prefix consumer :
  has_nul prefix = false -> is_empty prefix = false -> invalid_code consumer = false ->
  valid_name (prefix ++s consumer) = true.
Proof.
  intros Hp He Hc. unfold invalid_code in Hc. inv_bool.
  unfold valid_name, has_nul, contains_byte in *. rewrite bytes_append, existsb_app, Hp.
  assert (existsb (ascii_eqb "000") (bytes consumer) = false) as ->.
  { eapply contains_none; [done|]. apply code_byte_nul. }
  rewrite orb_false_r. apply negb_true_iff. unfold is_empty in *.
  destruct prefix; [done|]. done.
Qed.

Definition work_projection (consumer : string) : string := EXTERNAL_WORK_PREFIX ++s consumer.
Definition retry_projection (consumer : string) : string :=
  EXTERNAL_WORK_RETRY_PREFIX ++s consumer.

Lemma work_projection_valid consumer :
  invalid_code consumer = false -> valid_name (work_projection consumer) = true.
Proof. by apply prefixed_name. Qed.
Lemma retry_projection_valid consumer :
  invalid_code consumer = false -> valid_name (retry_projection consumer) = true.
Proof. by apply prefixed_name. Qed.

Lemma external_work_projection_ok consumer :
  invalid_code consumer = false ->
  external_work_projection consumer = Ok (work_projection consumer) /\
  external_work_retry_projection consumer = Ok (retry_projection consumer).
Proof.
  intros Hc. unfold external_work_retry_projection, external_work_projection. by rewrite Hc.
Qed.

(** The position of a projection. *)
Definition position_of (j : journal) (p : string) : N := default 0%N (t_positions (rj_tables j) !! p).
Lemma wp_position_ok j p :
  valid_name p = true -> wp_position p j = (Ok (position_of j p), j).
Proof.
  intros Hp. cbn. unfold position. by rewrite (valid_name_prefix p Hp).
Qed.
Lemma queue_position_ok j consumer :
  invalid_code consumer = false ->
  queue_position consumer j = (Ok (position_of j (work_projection consumer)), j).
Proof.
  intros Hc. unfold queue_position. destruct (external_work_projection_ok _ Hc) as [-> _].
  erewrite op_bind_run by apply op_lift_run. apply wp_position_ok. by apply work_projection_valid.
Qed.

(** ** Work items *)

Section Sound.
Context (j : journal) (l : list EventEnvelope) (Hj : journal_ok j l).
Context (Hmax : (count l + 1 < u64_max)%N).

Lemma read_work from limit :
  (1 <= from < u64_max)%N ->
  wp_read_projection_work from limit j
  = (Ok (take (N.to_nat limit) (work_item <$> drop (N.to_nat (from - 1)) l)), j).
Proof.
  intros Hf. cbn. unfold port_read_projection_work, reads.
  rewrite (read_projection_work_ok _ _ _ _ (jo_inv _ _ Hj)) by lia.
  replace (N.max from 1) with from by lia. done.
Qed.

Lemma verify_item_ok i e :
  l !! i = Some e -> verify_item (work_item e) j = (Ok tt, j).
Proof.
  intros He. destruct (chain_lookup _ _ _ (ji_chain _ _ _ _ (jo_inv _ _ Hj)) He) as (Hg & _).
  pose proof (lookup_lt_Some _ _ _ He) as Hlt. unfold count in Hmax. unfold verify_item.
  erewrite op_bind_run by (apply read_work; cbn; lia). unfold op_lift. cbn [pw_global_sequence work_item].
  replace (N.to_nat (ev_global_sequence e - 1)) with i by lia.
  rewrite (drop_S _ _ _ He), fmap_cons. change (N.to_nat 1) with 1.
  cbn [take head ok_or mbind result_bind]. by rewrite bool_decide_true.
Qed.

(** The fold of [pending] and of [acknowledge_batch] over consecutive items. *)
Lemma fold_items (f : N -> ProjectionWorkItem -> op journal N) items expected from :
  (forall next i e, l !! i = Some e -> next = (N.of_nat i + 1)%N ->
     f next (work_item e) j = (Ok (saturating_add next 1), j)) ->
  items = work_item <$> take (length items) (drop from l) -> expected = (N.of_nat from + 1)%N ->
  exists next, op_fold f items expected j = (Ok next, j).
Proof.
  intros Hf. revert expected from. induction items as [|item items IH]; intros expected from Hitems He.
  { by eexists. }
  cbn [length] in Hitems. destruct (drop from l) as [|e rest] eqn:Hd; [done|].
  cbn [take] in Hitems. rewrite fmap_cons in Hitems. injection Hitems as -> Hitems.
  assert (l !! from = Some e) as Hl.
  { rewrite <- (Nat.add_0_r from), <- lookup_drop, Hd. done. }
  cbn [op_fold]. erewrite op_bind_run by (by eapply Hf).
  assert (rest = drop (S from) l) as Hrest by (rewrite (drop_S _ _ _ Hl) in Hd; by injection Hd).
  rewrite Hrest in Hitems. apply (IH _ (S from)); [done|].
  apply lookup_lt_Some in Hl. unfold count in Hmax. unfold saturating_add. lia.
Qed.

(** What is pending for a consumer. *)
Lemma pending_ok consumer limit :
  invalid_code consumer = false -> (1 <= limit <= MAX_EXTERNAL_WORK_BATCH)%N ->
  (position_of j (work_projection consumer) <= count l)%N ->
  pending consumer limit j
  = (Ok (work_item <$> take (N.to_nat limit)
           (drop (N.to_nat (position_of j (work_projection consumer))) l)), j).
Proof.
  intros Hc Hlim Hpos. set (pos := position_of j (work_projection consumer)) in *. unfold pending.
  assert ((limit =? 0)%N || (MAX_EXTERNAL_WORK_BATCH <? limit)%N = false) as ->.
  { apply orb_false_iff. split; [apply N.eqb_neq; lia|apply N.ltb_ge; lia]. }
  erewrite op_bind_run by apply op_lift_run.
  erewrite op_bind_run by by apply queue_position_ok. fold pos.
  assert (saturating_add pos 1 = pos + 1)%N as Hs by (unfold saturating_add; lia). rewrite Hs.
  erewrite op_bind_run by (apply read_work; lia).
  replace (pos + 1 - 1)%N with pos by lia. rewrite <- fmap_take.
  destruct (fold_items (pending_item consumer)
    (work_item <$> take (N.to_nat limit) (drop (N.to_nat pos) l)) (pos + 1) (N.to_nat pos))
    as [next Hfold].
  - intros next i e He ->. unfold pending_item. cbn [pw_global_sequence work_item].
    destruct (chain_lookup _ _ _ (ji_chain _ _ _ _ (jo_inv _ _ Hj)) He) as (-> & _).
    rewrite N.eqb_refl. erewrite op_bind_run by apply op_lift_run.
    erewrite op_bind_run by by eapply verify_item_ok. done.
  - apply slice_prefix.
  - lia.
  - by erewrite op_bind_run by exact Hfold.
Qed.

End Sound.

(** ** Acknowledgment *)

Lemma apply_checkpoint (j : journal) p expected through :
  valid_name p = true -> (expected < through)%N ->
  wp_apply (mkProjectionBatch p expected through []) j
  = if (position_of j p =? expected)%N
    then (Ok tt, set_tables (set_rows (<[p := through]> (t_positions (rj_tables j)))
                               (t_records (rj_tables j)) (rj_tables j)) j)
    else (Err (Conflict ("projection:" ++s p) expected (position_of j p)), j).
Proof.
  intros Hp Hlt. cbn. unfold apply, apply_all. cbn [try_map]. unfold encode_projection_batch.
  cbn [pb_projection pb_through_sequence pb_expected_position pb_mutations try_map].
  rewrite (valid_name_prefix p Hp). cbn [mbind result_bind].
  rewrite (proj2 (N.leb_gt _ _)) by done. cbn [reject mbind result_bind try_fold].
  unfold apply_encoded. cbn [eb_projection eb_expected_position eb_through_sequence eb_mutations].
  fold (position_of j p). destruct (position_of j p =? expected)%N; done.
Qed.

Lemma ack_items (j : journal) l n from :
  journal_ok j l -> (count l + 1 < u64_max)%N -> (N.of_nat from < count l)%N -> 1 <= n ->
  let items := work_item <$> take n (drop from l) in
  exists next e, op_fold acknowledged_item items (saturating_add (N.of_nat from) 1) j = (Ok next, j) /\
    last items = Some (work_item e) /\
    ev_global_sequence e = (N.of_nat from + count items)%N /\ (1 <= count items)%N /\
    (N.of_nat from + count items <= count l)%N.
Proof.
  intros Hj Hmax Hfrom Hn items.
  assert (length items = Nat.min n (length l - from)) as Hlen.
  { unfold items. by rewrite length_fmap, length_take, length_drop. }
  assert (N.of_nat from + N.of_nat (length items) <= count l)%N as Hle by (unfold count in *; lia).
  assert (from + length items <= length l /\ 1 <= length items) as [Hle' Hpos] by (unfold count in *; lia).
  destruct (fold_items j l Hmax acknowledged_item items (saturating_add (N.of_nat from) 1) from)
    as [next Hfold].
  - intros next i e He ->. unfold acknowledged_item. cbn [pw_global_sequence work_item].
    destruct (chain_lookup _ _ _ (ji_chain _ _ _ _ (jo_inv _ _ Hj)) He) as (-> & _).
    rewrite N.eqb_refl. erewrite op_bind_run by apply op_lift_run.
    erewrite op_bind_run by exact (verify_item_ok j l Hj Hmax i e He). done.
  - apply slice_prefix.
  - unfold saturating_add. lia.
  - destruct (lookup_lt_is_Some_2 l (from + (length items - 1))) as [e He]; [lia|].
    exists next, e. split; [done|]. split.
    + rewrite last_lookup.
      transitivity ((work_item <$> take n (drop from l)) !! pred (length items)); [done|].
      rewrite list_lookup_fmap, lookup_take_lt by lia.
      rewrite lookup_drop. replace (from + pred (length items)) with (from + (length items - 1)) by lia.
      by rewrite He.
    + destruct (chain_lookup _ _ _ (ji_chain _ _ _ _ (jo_inv _ _ Hj)) He) as (-> & _).
      unfold count in *. lia.
Qed.

(** Acknowledging consecutive items is one write of the checkpoint. *)
Lemma acknowledge_run consumer expected items (j1 : journal) next e :
  invalid_code consumer = false -> length items <> 0 ->
  (count items <= MAX_EXTERNAL_WORK_BATCH)%N ->
  op_fold acknowledged_item items (saturating_add expected 1) j1 = (Ok next, j1) ->
  last items = Some (work_item e) ->
  acknowledge_batch consumer expected items j1
  = let '(r, s) := wp_apply (mkProjectionBatch (work_projection consumer) expected
      (ev_global_sequence e) []) j1 in
    match r with Ok _ => (Ok (ev_global_sequence e), s) | Err x => (Err x, s) end.
Proof.
  intros Hc Hne Hcount Hf Hlast. unfold acknowledge_batch.
  rewrite bool_decide_false by done. rewrite (proj2 (N.ltb_ge _ _)) by done.
  erewrite op_bind_run by apply op_lift_run.
  destruct (external_work_projection_ok _ Hc) as [-> _]. erewrite op_bind_run by apply op_lift_run.
  erewrite op_bind_run by exact Hf. rewrite Hlast. by erewrite op_bind_run by apply op_lift_run.
Qed.

(** A consumer is handed the journal's events in order: what is
    pending is what follows its checkpoint; acknowledging the first [n] of it moves the
    checkpoint exactly past them, so that the next event is pending next; and
    acknowledging them a second time is a conflict that moves nothing. *)
Lemma acknowledged_in_order consumer n limit (j : journal) l :
  journal_ok j l -> (count l + 1 < u64_max)%N -> invalid_code consumer = false ->
  (position_of j (work_projection consumer) < count l)%N ->
  1 <= n -> (N.of_nat n <= MAX_EXTERNAL_WORK_BATCH)%N -> (1 <= limit <= MAX_EXTERNAL_WORK_BATCH)%N ->
  let position := position_of j (work_projection consumer) in
  let items := work_item <$> take n (drop (N.to_nat position) l) in
  pending consumer (N.of_nat n) j = (Ok items, j) /\
  exists j', acknowledge_batch consumer position items j = (Ok (position + count items)%N, j') /\
    journal_ok j' l /\
    pending consumer limit j'
    = (Ok (work_item <$> take (N.to_nat limit) (drop (N.to_nat position + length items) l)), j') /\
    acknowledge_batch consumer position items j'
    = (Err (Conflict ("projection:" ++s work_projection consumer) position (position + count items)), j').
Proof.
  intros Hj Hmax Hc Hpos Hn Hbatch Hlim position items. subst position.
  set (pos := position_of j (work_projection consumer)) in *. split.
  { unfold items. rewrite <- (Nat2N.id n) at 2. apply pending_ok; [done|done|done|lia|]. fold pos. lia. }
  assert (N.of_nat (N.to_nat pos) = pos) as Hid by lia.
  set (t' := set_rows (<[work_projection consumer := (pos + count items)%N]> (t_positions (rj_tables j)))
    (t_records (rj_tables j)) (rj_tables j)).
  destruct (ack_items j l n (N.to_nat pos) Hj Hmax) as (next & e & Hfold & Hlast & Hg & H1' & Hle);
    [lia|done|]. fold items in Hfold, Hlast, Hg, H1', Hle. rewrite Hid in Hfold, Hg, Hle.
  assert (length items <> 0 /\ (count items <= MAX_EXTERNAL_WORK_BATCH)%N) as [Hne Hcount].
  { unfold items, count in *. rewrite length_fmap, length_take in *. lia. }
  pose proof (work_projection_valid _ Hc) as Hvalid.
  assert (journal_ok (set_tables t' j) l) as Hj'.
  { apply journal_ok_rows; [done| |intros key b; apply (ji_records _ _ _ _ (jo_inv _ _ Hj))].
    intros p q. destruct (decide (p = work_projection consumer)) as [->|Hp].
    - rewrite lookup_insert_eq. intros [= <-]. by apply check_position_valid.
    - rewrite lookup_insert_ne by done. apply (ji_positions _ _ _ _ (jo_inv _ _ Hj)). }
  assert (position_of (set_tables t' j) (work_projection consumer) = pos + count items)%N as Hpos'.
  { unfold position_of. cbn. by rewrite lookup_insert_eq. }
  exists (set_tables t' j). rewrite (acknowledge_run _ _ _ _ _ _ Hc Hne Hcount Hfold Hlast), Hg.
  rewrite apply_checkpoint by (done || lia).
  rewrite (proj2 (N.eqb_eq _ _)) by done. split; [done|]. split; [done|]. split.
  - rewrite (pending_ok _ l Hj' Hmax _ _ Hc Hlim); [|lia]. rewrite Hpos'.
    unfold count. do 5 f_equal. lia.
  - destruct (ack_items (set_tables t' j) l n (N.to_nat pos) Hj' Hmax) as (next' & e' & Hf' & _);
      [lia|done|]. fold items in Hf'. rewrite Hid in Hf'.
    rewrite (acknowledge_run _ _ _ _ _ _ Hc Hne Hcount Hf' Hlast), Hg.
    rewrite apply_checkpoint by (done || lia). rewrite Hpos'.
    by rewrite (proj2 (N.eqb_neq _ _)) by lia.
Qed.

(** ** Failures *)

Lemma op_lift_Ok {A} (r : result StoreError A) (j : journal) a j' :
  op_lift r j = (Ok a, j') <-> r = Ok a /\ j' = j.
Proof. unfold op_lift. split; [by intros [= -> <-]|by intros [-> ->]]. Qed.

Lemma reads_keep {A} (r : Tables -> result StoreError A) (j : journal) a j' :
  reads r j = (Ok a, j') -> j' = j.
Proof. unfold reads. destruct (r (rj_tables j)) as [x|[]]; simpl; congruence. Qed.
Lemma verify_item_keeps item (j : journal) j' : verify_item item j = (Ok tt, j') -> j' = j.
Proof.
  unfold verify_item. intros Hv. apply op_bind_Ok in Hv as (w & j1 & Hw & Hv).
  apply (reads_keep (fun t => read_projection_work t (pw_global_sequence item) 1)) in Hw as ->.
  by apply op_lift_Ok in Hv as [_ ->].
Qed.
Lemma queue_position_keeps consumer (j : journal) p j' :
  queue_position consumer j = (Ok p, j') -> j' = j /\ invalid_code consumer = false.
Proof.
  unfold queue_position. intros Hq. apply op_bind_Ok in Hq as (w & j1 & Hw & Hq).
  apply op_lift_Ok in Hw as [Hw ->]. cbn in Hq. injection Hq as _ <-. split; [done|].
  unfold external_work_projection in Hw. apply bind_Ok in Hw as ([] & Hr & _). by apply reject_Ok in Hr.
Qed.

(** The retry loop ends with its body's success. *)
Lemma contended_Ok {A} n (body : op journal (option A)) j a j' :
  (forall j1, body j = (Ok None, j1) -> j1 = j) ->
  contended n body j = (Ok a, j') -> body j = (Ok (Some a), j').
Proof.
  intros Hnone. induction n as [|n IH]; [done|]. cbn [contended]. intros Hc.
  apply op_bind_Ok in Hc as (r & j1 & Hb & Hc). destruct r as [a'|].
  - by injection Hc as -> <-.
  - rewrite (Hnone _ Hb) in *. auto.
Qed.

(** What a successful write of a projection leaves of the journal. *)
Definition advanced (j j' : journal) (p : string) (n : N) : Prop :=
  t_events (rj_tables j') = t_events (rj_tables j) /\
  t_metadata (rj_tables j') = t_metadata (rj_tables j) /\
  t_positions (rj_tables j') !! p = Some n.

Lemma applied_cases {A} b (a : A) (j : journal) r j' :
  applied b a j = (Ok r, j') ->
  (r = None /\ j' = j) \/
  (r = Some a /\ (pb_expected_position b < pb_through_sequence b)%N /\
   advanced j j' (pb_projection b) (pb_through_sequence b)).
Proof.
  unfold applied. cbn. unfold apply, apply_all. cbn [try_map].
  destruct (encode_projection_batch b) as [e|x] eqn:He; cbn [mbind result_bind try_fold].
  2:{ destruct x; intros [= <- <-]; by left. }
  destruct (apply_encoded (rj_tables j) e) as [t|x] eqn:Ha; cbn [mbind result_bind].
  2:{ destruct x; intros [= <- <-]; by left. }
  intros [= <- <-]. right. apply encode_batch_Ok in He as (_ & Hlt & _ & Hp & _ & Ht).
  unfold apply_encoded in Ha. inv_ok. rewrite Hp, Ht. split; [done|]. split; [done|].
  split_and!; [done|done|]. cbn. apply lookup_insert_eq.
Qed.

(** Every recorded failure moves the position of the consumer's retry projection by one. *)
Lemma record_failure_advances consumer item failed_at retryable code error (j : journal) st j' :
  record_failure consumer item failed_at retryable code error j = (Ok st, j') ->
  advanced j j' (retry_projection consumer) (position_of j (retry_projection consumer) + 1).
Proof.
  unfold record_failure. intros Hr.
  apply op_bind_Ok in Hr as (at_ & j1 & H1' & Hr). apply op_lift_Ok in H1' as [_ ->].
  apply op_bind_Ok in Hr as ([] & j1 & H1' & Hr). apply op_lift_Ok in H1' as [_ ->].
  apply op_bind_Ok in Hr as (pos & j1 & H1' & Hr). apply queue_position_keeps in H1' as [-> Hc].
  apply op_bind_Ok in Hr as ([] & j1 & Hitem & Hr).
  assert (j1 = j) as ->.
  { destruct item as [item|]; [|by injection Hitem as <-].
    apply op_bind_Ok in Hitem as ([] & j2 & H2' & Hitem). apply op_lift_Ok in H2' as [_ ->].
    by apply verify_item_keeps in Hitem. }
  apply op_bind_Ok in Hr as ([] & j1 & H1' & Hr). apply op_lift_Ok in H1' as [_ ->].
  destruct (external_work_projection_ok _ Hc) as [_ Hproj].
  apply op_bind_Ok in Hr as (p & j1 & H1' & Hr). rewrite Hproj in H1'.
  apply op_lift_Ok in H1' as [[= <-] ->].
  assert (forall r j2, op_bind (wp_position (retry_projection consumer)) (fun retry_position =>
      stored <~ wp_get (retry_projection consumer) EXTERNAL_WORK_RETRY_KEY;;
      existing <~ op_lift (transpose (retry_state_from_value <$> stored));;
      state <~ op_lift (failed_state consumer
        (default (saturating_add pos 1) (pw_global_sequence <$> item)) (pw_event_id <$> item) failed_at
        at_ retryable code error existing);;
      v <~ op_lift (adapter_error (retry_to_value state));;
      applied (mkProjectionBatch (retry_projection consumer) retry_position
        (saturating_add retry_position 1) [Upsert EXTERNAL_WORK_RETRY_KEY v]) state) j
    = (Ok r, j2) -> (r = None /\ j2 = j) \/ (r <> None /\ advanced j j2 (retry_projection consumer)
        (position_of j (retry_projection consumer) + 1))) as Hbody.
  { intros r j2 Hb. apply op_bind_Ok in Hb as (rp & j3 & Hp & Hb).
    rewrite wp_position_ok in Hp by by apply retry_projection_valid. injection Hp as <- <-.
    apply op_bind_Ok in Hb as (stored & j3 & Hg & Hb). cbn in Hg. injection Hg as _ <-.
    apply op_bind_Ok in Hb as (existing & j3 & Hg & Hb). apply op_lift_Ok in Hg as [_ ->].
    apply op_bind_Ok in Hb as (state & j3 & Hg & Hb). apply op_lift_Ok in Hg as [_ ->].
    apply op_bind_Ok in Hb as (v & j3 & Hg & Hb). apply op_lift_Ok in Hg as [_ ->].
    apply applied_cases in Hb as [?|(-> & Hlt & Ha)]; [by left|right]. cbn in Hlt, Ha. split; [done|].
    replace (saturating_add (position_of j (retry_projection consumer)) 1)
      with (position_of j (retry_projection consumer) + 1)%N in Ha; [done|].
    unfold saturating_add in *. lia. }
  apply contended_Ok in Hr; [|by intros j1 Hn; apply Hbody in Hn as [[_ ?]|[? _]]].
  by apply Hbody in Hr as [[? _]|[_ ?]].
Qed.

(** One recorded failure of a consumer. *)
Definition failed_once (consumer : string) (j j' : journal) : Prop :=
  exists item failed_at retryable code error st,
    record_failure consumer item failed_at retryable code error j = (Ok st, j').

Lemma failures_advance consumer n (j j' : journal) :
  nsteps (failed_once consumer) (S n) j j' ->
  advanced j j' (retry_projection consumer)
    (position_of j (retry_projection consumer) + N.of_nat (S n)).
Proof.
  revert j. induction n as [|n IH]; intros j Hs;
    inversion Hs as [|? ? j1 ? (item & at_ & r & code & err & st & Hf) Hrest]; subst;
    apply record_failure_advances in Hf as Ha.
  - inversion Hrest; subst. done.
  - apply IH in Hrest as (He' & Hm' & Hp'). destruct Ha as (He & Hm & Hp).
    split_and!; [congruence|congruence|]. rewrite Hp'. f_equal.
    assert (position_of j1 (retry_projection consumer)
      = position_of j (retry_projection consumer) + 1)%N as -> by (unfold position_of at 1; by rewrite Hp).
    lia.
Qed.

(** The position of a consumer's retry projection counts its
    failures and is not bounded by the journal's head: once a sound journal's consumer has
    failed more often than the journal has events, no verification of it succeeds. *)
Lemma failures_close_journal consumer n (j j' : journal) l :
  journal_ok j l -> (count l + 1 < u64_max)%N ->
  nsteps (failed_once consumer) (S n) j j' ->
  (count l < position_of j (retry_projection consumer) + N.of_nat (S n))%N ->
  forall report, (port_verify j').1 <> Ok report.
Proof.
  intros Hj Hmax Hs Hlt. apply failures_advance in Hs as (He & Hm & Hp).
  pose proof (jo_inv _ _ Hj) as Hi.
  apply (position_past_head j' (retry_projection consumer) (count l)).
  - rewrite He, (contiguous_size _ _ (ji_events _ _ _ _ Hi)). done.
  - unfold stream_events_index_version. rewrite Hm. apply (ji_index_version _ _ _ _ Hi).
  - unfold last_sequence. rewrite Hm. apply (ji_sequence _ _ _ _ Hi).
  - rewrite Hp. by eexists.
  - intros q. rewrite Hp. by intros [= <-].
Qed.

End Queue.

(** ** The test journal *)

Section Test.
#[local] Existing Instances journal_externals test_codec test_codec_ok.

(** Timestamps that are all the same instant, and a state stored by its consumer. *)
#[local] Instance test_retry_codec : RetryCodec := {|
  parse_rfc3339 _ := Some (mkTimestamp 0 true);
  format_rfc3339 _ := Ok "2026-01-01T00:00:01Z";
  retry_to_value st := Ok (Str (rs_consumer st));
  retry_from_value v := Err "not stored";
|}.

Lemma failures_close_journal_witness :
  exists st j', record_failure "memory" None "2026-01-01T00:00:00Z" true "timeout" "failed" test_journal
      = (Ok st, j') /\ forall report, (port_verify j').1 <> Ok report.
Proof.
  assert (is_ok_and (record_failure "memory" None "2026-01-01T00:00:00Z" true "timeout" "failed"
    test_journal).1 (fun _ => true) = true) as Hok by reflexivity.
  destruct (record_failure _ _ _ _ _ _ test_journal) as [r j'] eqn:Hr.
  apply is_ok_and_true in Hok as (st & Hst & _). simpl in Hst. subst r. exists st, j'.
  split; [done|]. eapply (failures_close_journal "memory" 0 test_journal _ [] test_journal_ok);
    [done| |done].
  eapply nsteps_once. by do 6 eexists.
Defined.

Lemma acknowledged_in_order_witness :
  exists (j : RedbEventJournal StaticKeyProvider TestSigner) l j',
    count l = 2%N /\
    acknowledge_batch "memory" 0 (work_item <$> take 1 l) j = (Ok 1%N, j') /\
    pending "memory" 16 j' = (Ok (work_item <$> drop 1 l), j').
Proof.
  destruct test_journal_two as (j & es & (Hj & _) & Hes). rewrite app_nil_l in Hj.
  assert (count (durable_envelope <$> es) = 2%N) as Hc by (unfold count; by rewrite length_fmap, Hes).
  assert (journal_ok (set_tables (set_rows ∅ ∅ (rj_tables j)) j) (durable_envelope <$> es)) as Hj'
    by (by apply journal_ok_rows; [|intros ? ? Hp; rewrite lookup_empty in Hp..]).
  destruct (acknowledged_in_order "memory" 1 16 _ _ Hj') as (_ & j' & Ha & _ & Hp & _);
    [by rewrite Hc|done|by rewrite Hc|done|done|done|].
  destruct es as [|e [|e' [|? ?]]]; try done.
  exists (set_tables (set_rows ∅ ∅ (rj_tables j)) j), (durable_envelope <$> [e; e']), j'.
  split; [done|]. split; [exact Ha|]. exact Hp.
Defined.

End Test.
