(* ===== verification/ProjectionView.v ===== *)
(** * Views of the projection tables

    What the rows of one projection hold, as a map from keys to values ([view]), and the
    reads of the store as reads of that map: [get] looks a key up and [list_after] is a
    page of its ordered entries.  The first part is about ordered maps of strings. *)

From S2P Require Import Prelude Json Contracts Boundary Platform CommandApproval.
From S2P Require Import JournalStore Journal JournalVerify ProjectionStore.
From S2P Require Import JournalModel JournalCorrect JournalPort ProjectionCorrect.
From S2P Require Import Store ExternalWork ProjectionWorker.

Open Scope string_scope.

(** ** The order of strings *)

Lemma compare_append p a b : String.compare (p ++s a) (p ++s b) = String.compare a b.
Proof.
  induction p as [|c p IH]; [done|]. rewrite !append_cons. simpl. unfold Ascii.compare.
  by rewrite N.compare_refl.
Qed.
Lemma leb_append p a b : str_leb (p ++s a) (p ++s b) = str_leb a b.
Proof. unfold str_leb, String.leb. by rewrite compare_append. Qed.
Lemma ltb_append p a b : str_ltb (p ++s a) (p ++s b) = str_ltb a b.
Proof. unfold str_ltb, String.ltb. by rewrite compare_append. Qed.
Lemma ltb_leb a b : str_ltb a b = negb (str_leb b a).
Proof.
  unfold str_ltb, str_leb, String.ltb, String.leb. rewrite (String.compare_antisym a b).
  by destruct (String.compare b a).
Qed.
Lemma leb_le a b : str_leb a b = true <-> String.le a b.
Proof. by rewrite <- (key_le_iff (a, tt) (b, tt)). Qed.
Lemma leb_trans a b c : str_leb a b = true -> str_leb b c = true -> str_leb a c = true.
Proof. rewrite !leb_le. apply transitivity. Qed.
Lemma leb_total a b : str_leb a b = true \/ str_leb b a = true.
Proof. rewrite !leb_le. apply total. apply _. Qed.
Lemma leb_antisym a b : str_leb a b = true -> str_leb b a = true -> a = b.
Proof. rewrite !leb_le. apply (anti_symm String.le). Qed.
Lemma ltb_irrefl a : str_ltb a a = false.
Proof. rewrite ltb_leb. by destruct (leb_total a a) as [->| ->]. Qed.
Lemma ltb_trans a b c : str_ltb a b = true -> str_ltb b c = true -> str_ltb a c = true.
Proof.
  rewrite !ltb_leb, !negb_true_iff. intros Hab Hbc. apply not_true_iff_false. intros Hca.
  destruct (leb_total b a) as [Hba|Hle]; [congruence|].
  apply not_true_iff_false in Hbc. apply Hbc. by eapply leb_trans.
Qed.


Lemma split_once_bytes_Some c l cur a b :
  split_once_bytes c l cur = Some (a, b) -> (rev cur ++ l = bytes a ++ c :: bytes b)%list.
Proof.
  revert cur. induction l as [|d l IH]; intros cur; simpl; [done|].
  destruct (ascii_eqb d c) eqn:Hd.
  - apply Ascii.eqb_eq in Hd as ->. intros [= <- <-]. by rewrite !bytes_of_bytes.
  - intros Hs%IH. rewrite <- Hs. simpl. by rewrite <- app_assoc.
Qed.
Lemma split_once_Some s p k : split_once "000" s = Some (p, k) -> s = (p ++s nul ++s k).
Proof.
  unfold split_once. intros Hs%split_once_bytes_Some. cbn [rev app] in Hs.
  rewrite <- (of_bytes_bytes s), Hs, <- (of_bytes_bytes (p ++s nul ++s k)).
  by rewrite !bytes_append.
Qed.

(** ** Ordered entries *)

Lemma sorted_entries_NoDup {V} (m : gmap string V) : NoDup (sorted_entries m).*1.
Proof.
  unfold sorted_entries. rewrite (merge_sort_Permutation key_le (map_to_list m)).
  apply NoDup_fst_map_to_list.
Qed.

(** A list is the ordered entries of a map when it is ordered and has its entries. *)
Lemma sorted_entries_unique {V} (l : list (string * V)) m :
  StronglySorted key_le l -> NoDup l.*1 -> (forall k v, (k, v) ∈ l <-> m !! k = Some v) ->
  l = sorted_entries m.
Proof.
  intros Hs Hd He. apply (StronglySorted_unique_strong key_le).
  - intros [k1 v1] [k2 v2] H1 H2 Hle1%key_le_iff Hle2%key_le_iff. simpl in *.
    pose proof (leb_antisym _ _ Hle1 Hle2) as <-. apply He in H1. apply sorted_entries_elem in H2.
    congruence.
  - done.
  - apply sorted_entries_sorted.
  - apply NoDup_Permutation.
    + by apply NoDup_fmap_1 in Hd.
    + apply (NoDup_fmap_1 fst), sorted_entries_NoDup.
    + intros [k v]. by rewrite He, sorted_entries_elem.
Qed.

Lemma filter_elem {A} (f : A -> bool) l x : x ∈ List.filter f l <-> x ∈ l /\ f x = true.
Proof. by rewrite !list_elem_of_In, filter_In. Qed.
Lemma filter_NoDup_fst {V} f (l : list (string * V)) : NoDup l.*1 -> NoDup (List.filter f l).*1.
Proof.
  induction l as [|a l IH]; [done|]. simpl. intros [Hn Hd]%NoDup_cons.
  destruct (f a); [|auto]. simpl. apply NoDup_cons. split; [|auto].
  intros (b & Hb & Hin)%list_elem_of_fmap. apply filter_elem in Hin as [Hin _].
  apply Hn. rewrite Hb. by apply list_elem_of_fmap_2.
Qed.

(** The part of a map whose keys satisfy a test. *)
Definition part {V} (f : string -> bool) (m : gmap string V) : gmap string V :=
  filter (fun kv => f kv.1 = true) m.

Lemma part_lookup {V} f (m : gmap string V) k :
  part f m !! k = if f k then m !! k else None.
Proof.
  unfold part. destruct (m !! k) as [v|] eqn:Hm.
  - destruct (f k) eqn:Hf.
    + by apply map_lookup_filter_Some_2.
    + apply map_lookup_filter_None_2. right. intros v' _. simpl. by rewrite Hf.
  - destruct (f k); apply map_lookup_filter_None_2; by left.
Qed.
Lemma sorted_entries_part {V} f (m : gmap string V) :
  List.filter (fun kv => f kv.1) (sorted_entries m) = sorted_entries (part f m).
Proof.
  apply sorted_entries_unique.
  - apply StronglySorted_filter, sorted_entries_sorted.
  - apply filter_NoDup_fst, sorted_entries_NoDup.
  - intros k v. rewrite filter_elem, sorted_entries_elem, part_lookup. simpl.
    destruct (f k); naive_solver.
Qed.
Lemma sorted_entries_length {V} (m : gmap string V) : length (sorted_entries m) = size m.
Proof.
  unfold sorted_entries. rewrite (merge_sort_Permutation key_le (map_to_list m)).
  apply length_map_to_list.
Qed.

(** The entries up to a bound come first. *)
Lemma sorted_entries_split {V} (m : gmap string V) b :
  sorted_entries m
  = (sorted_entries (part (fun k => str_leb k b) m)
     ++ sorted_entries (part (fun k => str_ltb b k) m))%list.
Proof.
  symmetry. apply sorted_entries_unique.
  - apply StronglySorted_app_2; [|apply sorted_entries_sorted..].
    intros [k1 v1] [k2 v2] H1%sorted_entries_elem H2%sorted_entries_elem.
    rewrite part_lookup in H1, H2. apply key_le_iff. simpl.
    destruct (str_leb k1 b) eqn:E1; [|done]. destruct (str_ltb b k2) eqn:E2; [|done].
    rewrite ltb_leb in E2. apply negb_true_iff in E2.
    destruct (leb_total k2 b) as [?|?]; [congruence|]. by eapply leb_trans.
  - rewrite fmap_app. apply NoDup_app. split_and!; [apply sorted_entries_NoDup| |apply sorted_entries_NoDup].
    intros k ([k1 v1] & -> & H1)%list_elem_of_fmap ([k2 v2] & Heq & H2)%list_elem_of_fmap.
    simpl in Heq. subst k2. apply sorted_entries_elem in H1, H2. rewrite part_lookup in H1, H2.
    rewrite ltb_leb in H2. simpl in *. by destruct (str_leb k1 b).
  - intros k v. rewrite elem_of_app, !sorted_entries_elem, !part_lookup, ltb_leb.
    destruct (str_leb k b); naive_solver.
Qed.
Lemma take_sorted_agree {V} (m m' : gmap string V) b n :
  part (fun k => str_leb k b) m = part (fun k => str_leb k b) m' ->
  n <= size (part (fun k => str_leb k b) m) ->
  take n (sorted_entries m) = take n (sorted_entries m').
Proof.
  intros Heq Hn. rewrite (sorted_entries_split m b), (sorted_entries_split m' b), <- Heq.
  by rewrite !take_app_le by (rewrite sorted_entries_length; lia).
Qed.

(** ** The records of one projection *)

Definition view_entry `{JournalCodec} (namespace : string) (row : string * string)
    : option (string * value) :=
  match strip_prefix namespace row.1, value_from_slice row.2 with
  | Some key, Ok v => Some (key, v)
  | _, _ => None
  end.
Definition view `{JournalCodec} (p : string) (t : Tables) : gmap string value :=
  list_to_map (omap (view_entry (p ++s nul)) (map_to_list (t_records t))).

(** A page of a view. *)
Definition page_of (key_prefix : string) (after_key : option string) (limit : N)
    (m : gmap string value) : list (string * value) :=
  take (N.to_nat limit) (sorted_entries (part (in_page key_prefix after_key) m)).

Section View.
Context `{Externals} `{JournalCodec}.

Definition row (p k : string) : string := p ++s nul ++s k.
Lemma row_append p k : row p k = ((p ++s nul) ++s k).
Proof. unfold row. by rewrite append_assoc. Qed.

Lemma view_entry_Some p key b k v :
  view_entry (p ++s nul) (key, b) = Some (k, v) <-> key = row p k /\ value_from_slice b = Ok v.
Proof.
  unfold view_entry. simpl. destruct (strip_prefix (p ++s nul) key) as [k'|] eqn:Hs.
  - apply strip_prefix_Some in Hs as ->. rewrite row_append.
    destruct (value_from_slice b); [|naive_solver]. split; [naive_solver|].
    intros [->%append_inj [= ->]]. done.
  - split; [done|]. intros [-> _]. by rewrite row_append, strip_prefix_append in Hs.
Qed.

Lemma view_lookup p t k v :
  view p t !! k = Some v <-> exists b, t_records t !! row p k = Some b /\ value_from_slice b = Ok v.
Proof.
  unfold view. split.
  - intros Hk. apply elem_of_list_to_map_2 in Hk.
    apply list_elem_of_omap in Hk as ([key b] & Hin & [-> Hb]%view_entry_Some).
    apply elem_of_map_to_list in Hin. by exists b.
  - intros (b & Hrow & Hb). apply elem_of_list_to_map_1'.
    + intros v' ([key b'] & Hin & [-> Hb']%view_entry_Some)%list_elem_of_omap.
      apply elem_of_map_to_list in Hin. congruence.
    + apply list_elem_of_omap. exists (row p k, b).
      split; [by apply elem_of_map_to_list|]. by apply view_entry_Some.
Qed.

(** ** Reads of a store whose rows are well formed *)

Lemma rows_ok_row (records : gmap string string) p k b :
  rows_ok records -> valid_name p = true -> records !! row p k = Some b ->
  valid_name k = true /\ exists v, value_from_slice b = Ok v.
Proof.
  intros Hr Hp Hb. specialize (Hr _ _ Hb). unfold check_record, row in Hr.
  rewrite split_once_row in Hr by (by apply valid_name_nul). cbn [ok_or mbind result_bind] in Hr.
  unfold adapter_error in Hr. inv_ok.
  match goal with Hk : projection_record_key _ _ = Ok _ |- _ =>
    apply record_key_Ok in Hk as (_ & Hk & _) end. eauto.
Qed.

Lemma get_view t p k :
  rows_ok (t_records t) -> valid_name p = true -> valid_name k = true ->
  get_record t p k = Ok (view p t !! k).
Proof.
  intros Hr Hp Hk. rewrite get_record_row by done. fold (row p k). unfold decode_row.
  destruct (t_records t !! row p k) as [b|] eqn:Hb.
  - destruct (rows_ok_row _ _ _ _ Hr Hp Hb) as (_ & v & Hv). simpl. rewrite Hv. simpl.
    repeat f_equal. symmetry. apply view_lookup. eauto.
  - simpl. f_equal. symmetry. apply eq_None_not_Some. intros [v (b & Hb' & _)%view_lookup]. congruence.
Qed.

(** The rows of a seek: those below the prefix come first. *)
Lemma prefix_block {V} p (rows : list (string * V)) :
  StronglySorted key_le rows -> Forall (fun kv => str_leb p kv.1 = true) rows ->
  exists rest, rows = (List.filter (fun kv => starts_with kv.1 p) rows ++ rest)%list /\
    Forall (fun kv => starts_with kv.1 p = false) rest.
Proof.
  induction rows as [|[k v] rows IH]; intros Hs Hf; [by exists []|].
  inversion Hs as [|? ? Hs' Hle]; subst. apply Forall_cons in Hf as [Hk Hf]. simpl in *.
  destruct (starts_with k p) eqn:Hst.
  - destruct (IH Hs' Hf) as (rest & Heq & Hrest). exists rest. split; [|done].
    simpl. by rewrite <- Heq.
  - exists ((k, v) :: rows). assert (Forall (fun kv => starts_with kv.1 p = false) rows) as Hall.
    { eapply Forall_impl; [exact Hle|]. intros kv Hkv%key_le_iff. by eapply past_prefix. }
    split; [|by apply Forall_cons].
    replace (List.filter (fun kv => starts_with kv.1 p) rows) with (@nil (string * V)); [done|].
    symmetry. clear -Hall. induction Hall as [|a rows Ha _ IH]; [done|]. simpl. by rewrite Ha.
Qed.

Definition decodes_to (namespace key_prefix : string) (r : string * string) (e : string * value)
    : Prop :=
  r.1 = (namespace ++s e.1) /\ starts_with e.1 key_prefix = true /\ value_from_slice r.2 = Ok e.2.

Lemma starts_with_append ns k p : starts_with (ns ++s k) (ns ++s p) = starts_with k p.
Proof.
  apply eq_true_iff_eq. rewrite !starts_with_spec. split.
  - intros [r Hr]. rewrite append_assoc in Hr. apply append_inj in Hr. eauto.
  - intros [r ->]. exists r. by rewrite append_assoc.
Qed.
Lemma list_rows_block ns pre block rest entries :
  Forall2 (decodes_to ns pre) block entries ->
  Forall (fun kv => starts_with kv.1 (ns ++s pre) = false) rest ->
  list_rows ns pre (block ++ rest) = Ok entries.
Proof.
  induction 1 as [|[key b] [k v] block entries (Hk & Hpre & Hv) _ IH]; intros Hrest; simpl in *.
  - destruct rest as [|[key b] rest]; [done|]. apply Forall_cons in Hrest as [Hst _]. simpl in *.
    destruct (strip_prefix ns key) as [k|] eqn:Hk; [|done]. apply strip_prefix_Some in Hk as ->.
    by rewrite starts_with_append in Hst; rewrite Hst.
  - subst key. rewrite strip_prefix_append, Hpre. simpl. rewrite Hv. simpl. by rewrite IH.
Qed.

(** Well-formed rows of a projection decode. *)
Lemma decode_block t p pre (block : list (string * string)) :
  rows_ok (t_records t) -> valid_name p = true ->
  Forall (fun kv => t_records t !! kv.1 = Some kv.2 /\
    starts_with kv.1 ((p ++s nul) ++s pre) = true) block ->
  exists entries, Forall2 (decodes_to (p ++s nul) pre) block entries.
Proof.
  intros Hr Hp. induction 1 as [|[key b] block [Hb Hst] _ [entries IH]]; [by exists []|].
  simpl in *. apply starts_with_spec in Hst as [r ->]. rewrite append_assoc in Hb.
  destruct (rows_ok_row _ p (pre ++s r) b Hr Hp) as (_ & v & Hv); [by rewrite row_append|].
  exists ((pre ++s r, v) :: entries). constructor; [|done]. split_and!; simpl.
  - by rewrite append_assoc.
  - apply starts_with_spec. by exists r.
  - done.
Qed.
Lemma decoded_entries ns pre block entries :
  Forall2 (decodes_to ns pre) block entries ->
  (StronglySorted key_le block -> StronglySorted key_le entries) /\
  block.*1 = String.append ns <$> entries.*1 /\
  forall k v, (k, v) ∈ entries <->
    starts_with k pre = true /\ exists b, (ns ++s k, b) ∈ block /\ value_from_slice b = Ok v.
Proof.
  induction 1 as [|[key b] [k v] block entries (Hk & Hpre & Hv) Hall (IHs & IHf & IHe)]; simpl in *.
  { split_and!; [constructor|done|]. intros k v. rewrite elem_of_nil. setoid_rewrite elem_of_nil. naive_solver. }
  subst key. split_and!.
  - intros Hs. inversion Hs as [|? ? Hs' Hle]; subst. constructor; [auto|].
    apply Forall_forall. intros [k' v'] (Hst & b' & Hin & _)%IHe. rewrite Forall_forall in Hle.
    specialize (Hle _ Hin). apply key_le_iff in Hle. apply key_le_iff. simpl in *.
    by rewrite leb_append in Hle.
  - f_equal. exact IHf.
  - intros k' v'. rewrite elem_of_cons, IHe. setoid_rewrite elem_of_cons. split.
    + intros [[= -> ->]|(Hst & b' & Hin & Hb')]; eauto 10.
    + intros (Hst & b' & [[= Heq%append_inj ->]|Hin] & Hb'); [left; congruence|eauto 10].
Qed.

Lemma list_rows_view t p pre after (f : string -> bool) n :
  rows_ok (t_records t) -> valid_name p = true ->
  (forall key, f key = true -> str_leb ((p ++s nul) ++s pre) key = true) ->
  (forall k, starts_with k pre = true -> f ((p ++s nul) ++s k)
     = is_none_or after (fun cursor => str_ltb cursor k)) ->
  list_rows (p ++s nul) pre (take n (List.filter (fun kv => f kv.1) (sorted_entries (t_records t))))
  = Ok (take n (sorted_entries (part (in_page pre after) (view p t)))).
Proof.
  intros Hr Hp Hf Hpage. set (rows := List.filter (fun kv => f kv.1) (sorted_entries (t_records t))).
  assert (StronglySorted key_le rows) as Hs by apply StronglySorted_filter, sorted_entries_sorted.
  assert (Forall (fun kv => str_leb ((p ++s nul) ++s pre) kv.1 = true) rows) as Hle.
  { apply Forall_forall. intros kv [_ Hkv]%filter_elem. auto. }
  destruct (prefix_block _ _ Hs Hle) as (rest & Heq & Hrest).
  set (block := List.filter (fun kv => starts_with kv.1 ((p ++s nul) ++s pre)) rows) in *.
  assert (forall key b, (key, b) ∈ block <-> t_records t !! key = Some b /\ f key = true /\
    starts_with key ((p ++s nul) ++s pre) = true) as Hblock.
  { intros key b. unfold block, rows. rewrite !filter_elem, sorted_entries_elem. simpl. tauto. }
  destruct (decode_block t p pre block Hr Hp) as [entries Hdec].
  { apply Forall_forall. intros [key b] Hin%Hblock. naive_solver. }
  destruct (decoded_entries _ _ _ _ Hdec) as (Hsort & Hfst & Hin).
  assert (entries = sorted_entries (part (in_page pre after) (view p t))) as <-.
  { apply sorted_entries_unique.
    - by apply Hsort, StronglySorted_filter.
    - apply (NoDup_fmap_1 (String.append (p ++s nul))). rewrite <- Hfst.
      apply filter_NoDup_fst, filter_NoDup_fst, sorted_entries_NoDup.
    - intros k v. rewrite Hin, part_lookup. unfold in_page. setoid_rewrite Hblock.
      rewrite starts_with_append. destruct (starts_with k pre) eqn:Hst; [|naive_solver]. simpl.
      rewrite (Hpage k Hst). destruct (is_none_or after _); [|naive_solver].
      rewrite view_lookup, row_append. naive_solver. }
  rewrite Heq, take_app. apply list_rows_block; [by apply Forall2_take|by apply Forall_take].
Qed.

Lemma list_after_view t p pre after limit :
  rows_ok (t_records t) -> valid_name p = true ->
  list_after t p pre after limit
  = if has_nul pre || is_some_and after has_nul
    then Err (StoreAdapter "projection key cursors may not contain NUL")
    else Ok (page_of pre after limit (view p t)).
Proof.
  intros Hr Hp. unfold list_after, page_of. rewrite (valid_name_prefix p Hp).
  cbn [mbind result_bind]. destruct (has_nul pre || is_some_and after has_nul); [done|].
  cbn [reject mbind result_bind]. destruct (N.eqb_spec limit 0) as [->|_]; [done|].
  destruct after as [c|]; [destruct (str_leb pre c) eqn:Hc|].
  - apply (list_rows_view t p pre (Some c) (str_ltb ((p ++s nul) ++s c))); [done|done| |].
    + intros key Hkey. rewrite ltb_leb in Hkey. apply negb_true_iff in Hkey.
      destruct (leb_total key ((p ++s nul) ++s c)) as [?|Hle]; [congruence|].
      apply (leb_trans _ ((p ++s nul) ++s c)); [by rewrite leb_append|done].
    + intros k _. apply ltb_append.
  - apply (list_rows_view t p pre (Some c) (str_leb ((p ++s nul) ++s pre))); [done|done|done|].
    intros k (r & ->)%starts_with_spec. rewrite leb_append, leb_append_r. simpl.
    symmetry. rewrite ltb_leb. apply negb_true_iff. destruct (str_leb (pre ++s r) c) eqn:Hle; [|done].
    rewrite (leb_trans pre (pre ++s r) c (leb_append_r pre r) Hle) in Hc. done.
  - apply (list_rows_view t p pre None (str_leb ((p ++s nul) ++s pre))); [done|done|done|].
    intros k (r & ->)%starts_with_spec. by rewrite leb_append, leb_append_r.
Qed.

Lemma view_size p t : size (view p t) <= size (t_records t).
Proof.
  assert (row p <$> (map_to_list (view p t)).*1 ⊆+ (map_to_list (t_records t)).*1) as Hsub.
  { apply NoDup_submseteq.
    - apply NoDup_fmap_2; [|apply NoDup_fst_map_to_list]. intros a b. rewrite !row_append. apply append_inj.
    - intros key (k & -> & ([k' v] & -> & Hin)%list_elem_of_fmap)%list_elem_of_fmap.
      apply elem_of_map_to_list, view_lookup in Hin as (b & Hb & _). simpl.
      apply elem_of_map_to_list in Hb. by apply (list_elem_of_fmap_2 fst) in Hb. }
  apply submseteq_length in Hsub. by rewrite !length_fmap, !length_map_to_list in Hsub.
Qed.

(** ** Names that no row can have *)

Lemma invalid_prefix p : valid_name p = false -> projection_prefix p = invalid_projection_name.
Proof. unfold valid_name, projection_prefix. intros Hp%negb_false_iff. by rewrite Hp. Qed.
Lemma get_record_invalid t p k :
  valid_name p = false -> get_record t p k = invalid_projection_name.
Proof.
  unfold valid_name, get_record, projection_record_key. intros Hp%negb_false_iff. by rewrite Hp.
Qed.
Lemma get_record_invalid_key t t' p k :
  valid_name p = true -> valid_name k = false -> get_record t p k = get_record t' p k.
Proof.
  unfold valid_name, get_record, projection_record_key. intros Hp%negb_true_iff Hk%negb_false_iff.
  by rewrite Hp, Hk.
Qed.
Lemma list_after_invalid t p pre after limit :
  valid_name p = false -> list_after t p pre after limit = invalid_projection_name.
Proof. intros Hp. unfold list_after. by rewrite invalid_prefix. Qed.

End View.
