(* ===== verification/JournalHolds.v ===== *)
(** * The redb journal keeps its promise

    [RedbEventJournal] as an [EventJournal]: the history it holds is its chain with the
    payloads its rows decrypt to.  Appending adds rows and leaves the old ones, checkpoints
    leave them all, so what was recorded once is read back from then on. *)

From S2P Require Import Prelude Json Contracts Boundary Platform CommandApproval.
From S2P Require Import JournalStore Journal JournalVerify Store ProjectionStore.
From S2P Require Import JournalModel JournalCorrect JournalAppend JournalTest JournalPort JournalReads.
From S2P Require Import ProjectionCorrect ProjectionView StoreSpec JournalSafety.

Open Scope string_scope.

Section Holds.
Context `{Externals} `{JournalCodec} `{!JournalCodecOk}.
Context {K Sg} `{KeyProvider K} `{!KeyProviderOk K} `{CheckpointSigner Sg} `{!CheckpointSignerOk Sg}.
Abbreviation journal := (RedbEventJournal K Sg).

(** ** What an append leaves alone *)

(** The rows up to a sequence, and the projections. *)
Definition same_rows (n : N) (t t' : Tables) : Prop :=
  (forall q, (q <= n)%N -> t_events t' !! q = t_events t !! q) /\
  t_positions t' = t_positions t /\ t_records t' = t_records t.
Lemma same_rows_refl n t : same_rows n t t.
Proof. by split_and!. Qed.
Lemma same_rows_trans n t t' t'' : same_rows n t t' -> same_rows n t' t'' -> same_rows n t t''.
Proof.
  intros (He & Hp & Hr) (He' & Hp' & Hr'). split_and!; [|congruence..].
  intros q Hq. by rewrite He', He.
Qed.

Lemma append_event_rows protection k s es s' :
  append_event protection k s es = Ok s' ->
  same_rows (as_sequence s) (as_tables s) (as_tables s') /\ (as_sequence s <= as_sequence s')%N.
Proof.
  destruct es as [event stamp]. unfold append_event. intros Hs. inv_ok.
  match goal with Hc : checked_add (as_sequence s) 1 = Some ?q, Hs : seal _ _ _ _ _ = Ok ?e |- _ =>
    unfold checked_add in Hc; destruct (_ <=? u64_max)%N in Hc; [|done]; injection Hc as <-;
    apply seal_cases in Hs as (? & p & h & _ & _ & _ & ->) end.
  cbn [as_tables as_sequence]. split; [|lia]. split_and!; [|done|done].
  intros q Hq. cbn. rewrite lookup_insert_ne by lia. done.
Qed.
Lemma append_events_rows protection k events s s' :
  try_fold (append_event protection k) events s = Ok s' ->
  same_rows (as_sequence s) (as_tables s) (as_tables s').
Proof.
  assert (forall n, (n <= as_sequence s)%N -> try_fold (append_event protection k) events s = Ok s' ->
    same_rows n (as_tables s) (as_tables s')) as Hall; [|by apply Hall].
  intros n. revert s. induction events as [|es events IH]; intros s Hn; cbn [try_fold].
  { intros [= <-]. apply same_rows_refl. }
  intros (s1 & Hone & Hs')%bind_Ok. apply append_event_rows in Hone as [(He & Hp & Hr) Hle].
  eapply same_rows_trans; [|apply (IH s1); [lia|done]]. split_and!; [|done|done].
  intros q Hq. apply He. lia.
Qed.
Lemma append_locked_rows protection k events t t' es l :
  journal_inv protection k t l -> append_locked false protection k events t = Ok (t', es) ->
  same_rows (count l) t t'.
Proof.
  intros Hi. unfold append_locked. cbn [reject mbind result_bind].
  destruct (bool_decide _); [intros [= <- <-]; apply same_rows_refl|].
  rewrite (ji_sequence _ _ _ _ Hi). intros Ha. inv_ok.
  match goal with Hf : try_fold _ _ _ = Ok _ |- _ => apply append_events_rows in Hf; exact Hf end.
Qed.

(** ** What every operation leaves of the journal *)

Record kept (n : N) (j j' : journal) : Prop := {
  kp_protection : rj_payload_protection j' = rj_payload_protection j;
  kp_keys : same_keys (rj_keys j) (rj_keys j');
  kp_rows : same_rows n (rj_tables j) (rj_tables j');
}.
Lemma kept_refl n j : kept n j j.
Proof. split; [done|by intros id|apply same_rows_refl]. Qed.
Lemma kept_trans n j j' j'' : kept n j j' -> kept n j' j'' -> kept n j j''.
Proof.
  intros [Hp Hk Hr] [Hp' Hk' Hr']. split; [congruence| |by eapply same_rows_trans].
  intros id. by rewrite Hk'.
Qed.

(** The rows and the keys, which projections do not concern. *)
Record events_kept (n : N) (j j' : journal) : Prop := {
  ek_protection : rj_payload_protection j' = rj_payload_protection j;
  ek_keys : same_keys (rj_keys j) (rj_keys j');
  ek_rows : forall q, (q <= n)%N -> t_events (rj_tables j') !! q = t_events (rj_tables j) !! q;
}.
Lemma kept_events n j j' : kept n j j' -> events_kept n j j'.
Proof. intros [Hp Hk (Hr & _)]. by split. Qed.
Lemma checkpoint_kept n now j l : journal_ok j l -> kept n j (checkpoint now j).2.
Proof.
  intros Hj. pose proof (checkpoint_spec now j l Hj) as Hs.
  assert (t_positions (rj_tables (checkpoint now j).2) = t_positions (rj_tables j) /\
          t_records (rj_tables (checkpoint now j).2) = t_records (rj_tables j)) as [Hp Hr].
  { clear. unfold checkpoint, checkpoint_inner.
    destruct (is_plaintext _); [done|]. destruct (rj_recovery_mode j); [done|].
    destruct (last_sequence (rj_tables j) ≫= _) as [[[c k]|]|[]]; try done.
    by destruct (checkpoint_to_vec c). }
  destruct (checkpoint now j) as [r j']. destruct Hs as (_ & Hk & Hprot & He & _).
  split; [done|done|]. split_and!; [|done|done]. intros q _. cbn. by rewrite He.
Qed.
Lemma append_batch_kept now age_due events j l :
  journal_ok j l -> Forall event_wf events -> (count l + count events <= u64_max)%N ->
  kept (count l) j (append_batch now age_due events j).2.
Proof.
  intros Hj Hwf Hmax. unfold append_batch. rewrite (jo_writable _ _ Hj).
  destruct (append_locked _ _ _ _ _) as [[t' es]|e] eqn:Ha.
  - pose proof (append_locked_rows _ _ _ _ _ _ _ (jo_inv _ _ Hj) Ha) as Hrows.
    pose proof (journal_ok_append _ _ _ _ _ Hj Hwf Hmax Ha) as (Hj' & _).
    assert (kept (count l) j (set_tables t' j)) as Hk by (split; [done|by intros id|done]).
    cbn [fmap result_fmap snd]. rewrite quarantine_ok. cbn [set_tables rj_payload_protection].
    destruct (is_plaintext _); [done|]. destruct (due_sequence _ _ es Hj') as [q Hq].
    cbn [set_tables] in Hq. rewrite Hq. destruct (_ || _); [|done].
    pose proof (checkpoint_kept (count l) now _ _ Hj') as Hc. cbn [set_tables] in Hc.
    destruct (checkpoint now _) as [[c|e] j']; by eapply kept_trans.
  - pose proof (append_locked_spec _ _ _ _ _ (jo_inv _ _ Hj) Hwf Hmax) as Hs. rewrite Ha in Hs.
    assert (integrity_error e = false) as He.
    { destruct Hs as [(id & x & y & _ & ->)|Hs]; [done|]. by eapply external_failure_integrity. }
    cbn [fmap result_fmap]. rewrite quarantine_keeps by (intros ? [= <-]; done). apply kept_refl.
Qed.

(** ** Payloads *)

Lemma durable_idem e : durable_envelope (durable_envelope e) = durable_envelope e.
Proof. by destruct e as [? ? ? ? ? ? ? ? ? []]. Qed.
(** The row of [e] decrypts to [v]. *)
Definition reads_as (j : journal) (e : EventEnvelope) (v : value) : Prop :=
  exists b, t_events (rj_tables j) !! ev_global_sequence e = Some b /\
    decodes (rj_payload_protection j) (rj_keys j) b e v /\ durable_envelope e = e.

Lemma reads_as_decrypts j e v : reads_as j e v -> decrypt_payload e j = (Ok v, j).
Proof.
  intros (b & Hb & (He & p & Hp & Hv) & Hd). unfold decrypt_payload.
  rewrite <- Hd in He. destruct (load_persisted_row _ _ _ _ Hb He Hp) as [Hl _].
  rewrite Hd in Hl. rewrite Hl. cbn [mbind result_bind]. by rewrite Hv.
Qed.
Lemma reads_as_events n j j' e v :
  events_kept n j j' -> (ev_global_sequence e <= n)%N -> reads_as j e v -> reads_as j' e v.
Proof.
  intros [Hp Hk Hr] Hn (b & Hb & (He & p & Hpb & Hv) & Hd).
  exists b. rewrite Hr by done. split; [done|]. split; [|done]. split; [done|]. exists p.
  split; [done|]. by rewrite Hp, (verify_event_keys _ _ _ _ _ Hk).
Qed.
Lemma reads_as_kept n j j' e v :
  kept n j j' -> (ev_global_sequence e <= n)%N -> reads_as j e v -> reads_as j' e v.
Proof. intros Hk. by apply reads_as_events, kept_events. Qed.

(** ** Listing streams *)

Lemma key_block (prefix start : string) (l : list (string * N)) :
  StronglySorted key_le l -> NoDup l.*1 -> Forall (fun kv => str_leb start kv.1 = true) l ->
  forall after n, default prefix after = start -> starts_with start prefix = true ->
  page_ids prefix after n l
  = take n (List.filter (fun id => starts_with id prefix && is_none_or after (fun c => str_ltb c id)) l.*1).
Proof.
  intros Hs. induction Hs as [|[id v] l Hs IH Hle]; intros Hd Hf after n Hst Hpre; [by destruct n|].
  rewrite fmap_cons in Hd. apply NoDup_cons in Hd as [Hn Hd]. apply Forall_cons in Hf as [Hid Hf].
  simpl in Hn, Hid. cbn [page_ids fmap list_fmap List.filter fst].
  destruct n as [|n]; [done|]. case_bool_decide as Haft.
  - subst after. simpl in Hst. subst id. simpl. rewrite ltb_leb, Hid. simpl. rewrite andb_false_r.
    by rewrite IH.
  - assert (is_none_or after (fun c => str_ltb c id) = true) as ->.
    { destruct after as [c|]; [|done]. simpl in Hst |- *. subst c. rewrite ltb_leb.
      apply negb_true_iff, not_true_iff_false. intros Hge. apply Haft. f_equal.
      by apply leb_antisym. }
    rewrite andb_true_r. destruct (starts_with id prefix) eqn:Hp; [simpl; by rewrite IH|].
    assert (str_leb prefix id = true) as Hlow.
    { eapply leb_trans; [|exact Hid]. apply starts_with_spec in Hpre as [r ->]. apply leb_append_r. }
    replace (List.filter _ l.*1) with (@nil string); [done|].
    symmetry. clear -Hle Hp Hlow. induction Hle as [|[id' v'] l Hid' _ IH]; [done|].
    apply key_le_iff in Hid'. simpl in *. by rewrite (past_prefix prefix id id').
Qed.

Lemma filter_keys {V} (f g : string -> bool) (l : list (string * V)) :
  (forall k, g k = true -> f k = true) ->
  List.filter g (List.filter (fun kv => f kv.1) l).*1 = List.filter g l.*1.
Proof.
  intros Hgf. induction l as [|[k v] l IH]; [done|]. cbn [List.filter fst fmap list_fmap] in *.
  destruct (f k) eqn:Hf; cbn [List.filter fst fmap list_fmap].
  - destruct (g k); by rewrite IH.
  - destruct (g k) eqn:Hg; [|done]. apply Hgf in Hg. congruence.
Qed.
Lemma page_from_entries (m : gmap string N) prefix after n :
  (forall c, after = Some c -> starts_with c prefix = true) ->
  page_ids prefix after n (List.filter (fun kv => str_leb (default prefix after) kv.1) (sorted_entries m))
  = take n (List.filter (fun id => starts_with id prefix && is_none_or after (fun c => str_ltb c id))
      (sorted_entries m).*1).
Proof.
  intros Hc. set (start := default prefix after).
  assert (starts_with start prefix = true) as Hpre.
  { unfold start. destruct after as [c|]; simpl; [by apply Hc|].
    clear. unfold starts_with. induction prefix as [|a p IH]; [done|]. simpl. by destruct (ascii_dec a a). }
  rewrite (key_block prefix start) with (after := after).
  - f_equal. apply filter_keys. intros id [Hid Hcur]%andb_true_iff. unfold start.
    destruct after as [c|]; simpl in *.
    + rewrite ltb_leb in Hcur. destruct (leb_total c id) as [|Hle]; [done|]. by rewrite Hle in Hcur.
    + apply starts_with_spec in Hid as [r ->]. apply leb_append_r.
  - apply StronglySorted_filter, sorted_entries_sorted.
  - apply filter_NoDup_fst, sorted_entries_NoDup.
  - apply Forall_forall. intros kv Hin. by apply filter_elem in Hin as [_ ?].
  - done.
  - done.
Qed.

Lemma stream_keys (h : history) : chain h.*1 -> (sorted_entries (versions_map h.*1)).*1 = stream_ids h.
Proof.
  intros Hc. apply (StronglySorted_unique String.le).
  - pose proof (sorted_entries_sorted (versions_map h.*1)) as Hs.
    induction Hs as [|kv l Hs IH Hle]; simpl; constructor; [done|]. by apply Forall_fmap.
  - apply sort_dedup_sorted.
  - apply NoDup_Permutation; [apply sorted_entries_NoDup|apply sort_dedup_NoDup|].
    intros id. unfold stream_ids. rewrite sort_dedup_elem. rewrite !list_elem_of_fmap. split.
    + intros ([id' v] & -> & Hin%sorted_entries_elem). simpl.
      rewrite versions_map_lookup in Hin by done. destruct (N.eqb_spec (version_of id' h.*1) 0) as [|Hne]; [done|].
      unfold version_of in Hne. destruct (stream_of id' h.*1) as [|e es] eqn:He; [done|].
      assert (e ∈ stream_of id' h.*1) as [Hin' Hid]%stream_of_elem by (rewrite He; left).
      by exists e.
    + intros (e & -> & Hin). exists (ev_stream_id e, version_of (ev_stream_id e) h.*1). split; [done|].
      apply sorted_entries_elem. rewrite versions_map_lookup by done.
      destruct (N.eqb_spec (version_of (ev_stream_id e) h.*1) 0) as [Hz|]; [|done].
      assert (e ∈ stream_of (ev_stream_id e) h.*1) as Hin' by (by apply stream_of_elem).
      unfold version_of, count in Hz. destruct (stream_of (ev_stream_id e) h.*1); [|done].
      by apply not_elem_of_nil in Hin'.
Qed.

(** ** A payload stays *)



(** ** The contract *)

Definition redb_holds (j : journal) (h : history) : Prop :=
  journal_ok j h.*1 /\ Forall (fun ev => reads_as j ev.1 ev.2) h.

Lemma entries_events events es :
  length events = length es -> (entries events es).*1 = durable_envelope <$> es.
Proof. intros Hl. unfold entries. apply fst_zip. rewrite !length_fmap. lia. Qed.
Lemma stamped_events inputs events : (stamped inputs events).*1 = events.
Proof.
  unfold stamped. rewrite fmap_imap. apply list_eq. intros i. rewrite list_lookup_imap.
  by destruct (events !! i).
Qed.
Lemma count_stamped inputs events : count (stamped inputs events) = count events.
Proof. unfold count, stamped. by rewrite length_imap. Qed.
Lemma stamped_wf inputs events :
  Forall recordable events -> inputs_ok inputs -> Forall event_wf (stamped inputs events).
Proof.
  intros He Hi. apply Forall_lookup. intros i [event stamp] Hl. unfold stamped in Hl.
  rewrite list_lookup_imap in Hl. destruct (events !! i) as [ev|] eqn:Hev; [|done].
  injection Hl as <- <-. rewrite Forall_lookup in He. destruct (He i ev Hev). split; [done|].
  intros nonce. apply Hi.
Qed.

(** A committed batch extends the history. *)
Lemma redb_holds_append (j j' : journal) (h : history) inputs events es :
  redb_holds j h -> Forall recordable events -> kept (count h) j j' ->
  batch_recorded (stamped inputs events) h.*1 es j' ->
  batch_committed h inputs events es /\ redb_holds j' (h ++ entries events es).
Proof.
  intros [Hj Hr] Hx Hk (Hj' & Hconf & Hheld). rewrite stamped_events in Hconf.
  assert (length events = length es) as Hlen.
  { apply Forall2_length in Hheld. unfold stamped in Hheld. by rewrite length_imap in Hheld. }
  split; [by split; [eapply Forall2_impl; [exact Hheld|intros ? ? []]|]|].
  split; [by rewrite fmap_app, entries_events|]. apply Forall_app. split.
  - apply Forall_lookup. intros i ev Hev. eapply reads_as_kept; [exact Hk| |].
    + assert (h.*1 !! i = Some ev.1) as Hi by (by rewrite list_lookup_fmap, Hev).
      destruct (chain_lookup _ _ _ (ji_chain _ _ _ _ (jo_inv _ _ Hj)) Hi) as (-> & _).
      apply lookup_lt_Some in Hev. unfold count. lia.
    + rewrite Forall_lookup in Hr. by eapply Hr.
  - apply Forall_lookup. intros i ev Hev. unfold entries in Hev.
    apply lookup_zip_with_Some in Hev as (e & v & -> & He & Hv).
    apply list_lookup_fmap_Some in He as (e' & -> & Hes).
    apply list_lookup_fmap_Some in Hv as (event & -> & Hevent).
    assert (stamped inputs events !! i = Some (event, in_stamp inputs i)) as Hst
      by (unfold stamped; by rewrite list_lookup_imap, Hevent).
    destruct (Forall2_lookup_lr _ _ _ _ _ _ Hheld Hst Hes) as (_ & b & v & Hb & Hd & Hv).
    rewrite Forall_lookup in Hx. destruct (Hx _ _ Hevent) as [_ Hexact].
    exists b. cbn [fst snd durable_envelope ev_global_sequence]. split; [done|].
    specialize (Hv Hexact). cbn [fst] in Hv. rewrite <- Hv. split; [done|apply durable_idem].
Qed.

Lemma redb_append_batch (j : journal) (h : history) inputs events :
  redb_holds j h -> Forall recordable events -> inputs_ok inputs ->
  (count h + count events + 1 < u64_max)%N ->
  let '(r, j') := ej_append_batch inputs events j in
  match r with
  | Ok es => batch_committed h inputs events es /\ redb_holds j' (h ++ entries events es)
  | Err _ => redb_holds j' h \/
      exists es, batch_committed h inputs events es /\ redb_holds j' (h ++ entries events es)
  end.
Proof.
  intros Hh Hx Hin Hmax. pose proof (stamped_wf inputs events Hx Hin) as Hwf.
  assert (count h.*1 = count h) as Hc by (unfold count; by rewrite length_fmap).
  assert (count h.*1 + count (stamped inputs events) <= u64_max)%N as Hle
    by (rewrite Hc, count_stamped; lia).
  pose proof (append_batch_cases (in_now inputs) (in_age_due inputs) _ j _ (proj1 Hh) Hwf Hle) as Hcases.
  pose proof (append_batch_kept (in_now inputs) (in_age_due inputs) _ j _ (proj1 Hh) Hwf Hle) as Hk.
  rewrite Hc in Hk. cbn [ej_append_batch redb_event_journal].
  destruct (append_batch _ _ _ j) as [[es|e] j']; cbn [snd] in Hk.
  - by apply (redb_holds_append j).
  - destruct Hcases as [_ [[-> _]|[_ [es Hb]]]]; [by left|right]. exists es.
    by apply (redb_holds_append j).
Qed.

Lemma stream_entries_events id (h : history) : (stream_entries id h).*1 = stream_of id h.*1.
Proof.
  unfold stream_entries, stream_of. induction h as [|ev h IH]; [done|].
  rewrite fmap_cons. cbn [List.filter].
  destruct (String.eqb (ev_stream_id ev.1) id); by rewrite ?fmap_cons, IH.
Qed.

Lemma redb_holds_unique (j : journal) (h h' : history) : redb_holds j h -> redb_holds j h' -> h = h'.
Proof.
  intros [Hj Hr] [Hj' Hr']. pose proof (jo_inv _ _ Hj) as Hi. pose proof (jo_inv _ _ Hj') as Hi'.
  assert (length h = length h') as Hlen.
  { pose proof (ji_sequence _ _ _ _ Hi) as Hs. rewrite (ji_sequence _ _ _ _ Hi') in Hs.
    injection Hs as Hs. unfold count in Hs. rewrite !length_fmap in Hs. lia. }
  apply list_eq_same_length with (n := length h); [done|done|].
  intros i [e v] [e' v'] _ Hl Hl'.
  assert (ev_global_sequence e = ev_global_sequence e') as Hseq.
  { destruct (chain_lookup h.*1 i e) as [-> _]; [apply Hi|by rewrite list_lookup_fmap, Hl|].
    destruct (chain_lookup h'.*1 i e') as [-> _]; [apply Hi'|by rewrite list_lookup_fmap, Hl'|done]. }
  rewrite Forall_lookup in Hr, Hr'.
  destruct (Hr _ _ Hl) as (b & Hb & (He & p & Hp & Hv) & _).
  destruct (Hr' _ _ Hl') as (b' & Hb' & (He' & p' & Hp' & Hv') & _). cbn [fst snd] in *.
  rewrite Hseq, Hb' in Hb. injection Hb as ->. rewrite He in He'. injection He' as ->.
  rewrite Hp in Hp'. injection Hp' as ->. rewrite Hv in Hv'. by injection Hv' as ->.
Qed.

#[export] Instance redb_event_journal_ok : EventJournalOk journal.
Proof.
  refine {| holds := redb_holds;
            available j inputs events :=
              ports_available (in_now inputs) (stamped inputs events) j |}.
  - intros j h [Hj _]. apply (ji_chain _ _ _ _ (jo_inv _ _ Hj)).
  - apply redb_holds_unique.
  - apply redb_append_batch.
  - intros inputs event j. cbn [ej_append ej_append_batch redb_event_journal]. unfold append, op_bind.
    change (stamped inputs [event]) with [(event, in_stamp inputs 0)]. by destruct (append_batch _ _ _ j) as [[es|e] j'].
  - intros j h inputs events [Hj _] Hx Hin Hmax Hav.
    pose proof (append_batch_decides (in_now inputs) (in_age_due inputs) (stamped inputs events) j h.*1 Hj
      (stamped_wf inputs events Hx Hin)) as Hd. rewrite stamped_events in Hd.
    cbn [ej_append_batch redb_event_journal].
    destruct (first_conflict _ events) as [[[id x] y]|]; [apply Hd; [|done]|].
    + rewrite count_stamped. unfold count in *. rewrite length_fmap. lia.
    + destruct Hd as (es & j' & -> & _); [|done|by exists es].
      rewrite count_stamped. unfold count in *. rewrite length_fmap. lia.
  - intros j h id [Hj _] Hmax. cbn [ej_read_stream redb_event_journal]. unfold port_read_stream, reads.
    rewrite (read_stream_slice_ok _ _ _ _ (jo_inv _ _ Hj)) by (unfold count in *; rewrite length_fmap; lia).
    by rewrite stream_entries_events.
  - intros j h id after limit [Hj _] Hmax. cbn [ej_read_stream_from redb_event_journal].
    unfold port_read_stream_from, reads.
    rewrite (read_stream_slice_ok _ _ _ _ (jo_inv _ _ Hj)) by (unfold count in *; rewrite length_fmap; lia).
    by rewrite stream_entries_events.
  - intros j h id before limit [Hj _] Hmax. cbn [ej_read_stream_backwards redb_event_journal].
    unfold port_read_stream_backwards, reads.
    rewrite (read_stream_backwards_ok _ _ _ _ (jo_inv _ _ Hj)) by (unfold count in *; rewrite length_fmap; lia).
    by rewrite stream_entries_events.
  - intros j h prefix after limit [Hj _] Hp Hc. cbn [ej_list_stream_ids redb_event_journal].
    unfold port_list_stream_ids, reads, list_stream_ids. rewrite Hp. simpl.
    assert (is_some_and after (fun c => has_nul c || negb (starts_with c prefix)) = false) as ->.
    { destruct after as [c|]; [|done]. simpl. by destruct (Hc c eq_refl) as [-> ->]. }
    cbn [reject mbind result_bind]. rewrite page_from_entries by (intros c Ha; by apply Hc).
    rewrite (ji_versions _ _ _ _ (jo_inv _ _ Hj)), stream_keys by apply (jo_inv _ _ Hj). done.
  - intros j h e v [_ Hr] Hin. rewrite Forall_forall in Hr. by apply reads_as_decrypts, (Hr (e, v)).
Defined.
End Holds.

(** ** The test journal *)

Section Test.
#[local] Existing Instances journal_externals test_codec test_codec_ok.
#[local] Abbreviation taken := (append_batch (Ok "now") true test_batch test_journal).

#[local] Abbreviation test_store := (RedbEventJournal StaticKeyProvider TestSigner).
#[local] Abbreviation later j := (checkpoint (Ok "later") (append_batch (Ok "now") true test_batch j).2).2.
End Test.
