(* ===== verification/StoreCorrect.v ===== *)
(** * Working with a journal that keeps its promise

    What follows from [EventJournalOk] for every client: discovering the streams below a
    prefix, and the histories of streams. *)

From S2P Require Import Prelude Json Contracts Boundary Platform JournalStore Journal Store.
From S2P Require Import SessionContracts Session JournalModel JournalAppend StoreSpec ProjectionCorrect ProjectionView.

Open Scope string_scope.
Open Scope op_scope.

(** ** Strictly ordered lists of names *)

Abbreviation ascending := (StronglySorted (fun a b => str_ltb a b = true)).

Lemma sort_dedup_ascending l : ascending (sort_dedup l).
Proof.
  pose proof (sort_dedup_sorted l) as Hs. pose proof (sort_dedup_NoDup l) as Hd.
  induction Hs as [|a ids Hs IH Hle]; [constructor|]. apply NoDup_cons in Hd as [Hn Hd].
  constructor; [by apply IH|]. rewrite Forall_forall in Hle |- *. intros b Hb.
  rewrite ltb_leb. apply negb_true_iff, not_true_iff_false. intros Hba. apply Hn.
  rewrite (leb_antisym a b); [done| |done]. apply leb_le, Hle, Hb.
Qed.
(** Ascending lists of the same names are the same. *)
Lemma ascending_ext l l' : ascending l -> ascending l' -> (forall x, x ∈ l <-> x ∈ l') -> l = l'.
Proof.
  assert (forall a b, str_ltb a b = true -> str_ltb b a = true -> False) as Hanti.
  { intros a b Hab Hba. pose proof (ltb_trans _ _ _ Hab Hba) as Haa. by rewrite ltb_irrefl in Haa. }
  intros Hl. revert l'. induction Hl as [|a l Hl IH Ha]; intros l' Hl' Heq.
  - destruct l' as [|b l']; [done|]. exfalso. apply (not_elem_of_nil b), Heq. left.
  - destruct Hl' as [|b l' Hl' Hb]; [exfalso; apply (not_elem_of_nil a), Heq; left|].
    rewrite Forall_forall in Ha, Hb. assert (a = b) as <-.
    { assert (a ∈ b :: l') as Hin by (apply Heq; left). assert (b ∈ a :: l) as Hin' by (apply Heq; left).
      apply elem_of_cons in Hin as [|Hin], Hin' as [|Hin']; try done. exfalso. by apply (Hanti a b); auto. }
    f_equal. apply IH; [done|]. intros x. split; intros Hx.
    + assert (x ∈ a :: l') as Hin by (apply Heq; by right). apply elem_of_cons in Hin as [->|]; [|done].
      exfalso. specialize (Ha a Hx). by rewrite ltb_irrefl in Ha.
    + assert (x ∈ a :: l) as Hin by (apply Heq; by right). apply elem_of_cons in Hin as [->|]; [|done].
      exfalso. specialize (Hb a Hx). by rewrite ltb_irrefl in Hb.
Qed.
Lemma filter_ascending f ids : ascending ids -> ascending (List.filter f ids).
Proof. apply StronglySorted_filter. Qed.

Lemma filter_and {A} (f g : A -> bool) l :
  List.filter f (List.filter g l) = List.filter (fun a => g a && f a) l.
Proof.
  induction l as [|a l IH]; [done|]. simpl. destruct (g a); simpl; [|done].
  destruct (f a); by rewrite IH.
Qed.
Lemma after_last acc rest c :
  ascending (acc ++ rest) -> last acc = Some c ->
  List.filter (fun id => str_ltb c id) (acc ++ rest) = rest.
Proof.
  intros Hs Hc. apply last_Some in Hc as [front ->]. rewrite <- app_assoc in Hs. simpl in Hs.
  rewrite <- app_assoc. simpl.
  assert (forall l, Forall (fun id => str_ltb c id = true) l -> List.filter (fun id => str_ltb c id) l = l) as Hall.
  { induction 1 as [|id l Hid _ IH]; [done|]. simpl. by rewrite Hid, IH. }
  induction front as [|a front IH]; simpl.
  - inversion Hs as [|? ? _ Hle]; subst. by rewrite ltb_irrefl, Hall.
  - inversion Hs as [|? ? Hs' Hle]; subst. rewrite Forall_forall in Hle.
    assert (str_ltb a c = true) as Hac by (apply Hle, elem_of_app; right; left).
    assert (str_ltb c a = false) as ->; [|by apply IH]. apply not_true_iff_false. intros Hca.
    pose proof (ltb_trans _ _ _ Hac Hca) as Haa. by rewrite ltb_irrefl in Haa.
Qed.
Lemma ordered_page_ok prefix after page :
  ascending page -> Forall (fun id => starts_with id prefix = true) page ->
  (forall c, after = Some c -> Forall (fun id => str_ltb c id = true) page) ->
  ordered_page prefix after page = true.
Proof.
  intros Hs. revert after. induction Hs as [|id page Hs IH Hle]; intros after Hp Ha; [done|].
  apply Forall_cons in Hp as [Hid Hp]. simpl. rewrite Hid. simpl.
  assert (is_none_or after (fun p => str_ltb p id) = true) as ->.
  { destruct after as [c|]; [|done]. simpl. by apply (Forall_inv (Ha c eq_refl)). }
  apply IH; [done|]. by intros c [= <-].
Qed.

Section Client.
Context {J} `{EventJournalOk J}.

(** The cursor of a loop that has collected [acc]. *)
Lemma ids_after_last prefix h acc rest :
  ids_after prefix None h = (acc ++ rest)%list -> ids_after prefix (last acc) h = rest.
Proof.
  intros Hall. destruct (last acc) as [c|] eqn:Hc.
  - assert (ascending (acc ++ rest)) as Hs
      by (rewrite <- Hall; apply filter_ascending, sort_dedup_ascending).
    rewrite <- (after_last _ _ _ Hs Hc), <- Hall. unfold ids_after.
    rewrite filter_and. apply filter_ext. intros id. simpl. by rewrite andb_true_r.
  - apply last_None in Hc. by subst acc.
Qed.

Lemma collect_pages_ok fuel prefix h acc rest j :
  holds j h -> has_nul prefix = false ->
  Forall (fun id => has_nul id = false) (ids_after prefix None h) ->
  ids_after prefix None h = (acc ++ rest)%list -> length rest < fuel ->
  collect_pages fuel prefix (last acc) acc j = (Ok (ids_after prefix None h), j).
Proof.
  intros Hh Hp Hnul. revert acc rest. induction fuel as [|fuel IH]; intros acc rest Hall Hlen; [lia|].
  cbn [collect_pages]. unfold op_bind at 1.
  assert (forall id, id ∈ ids_after prefix None h -> starts_with id prefix = true) as Hpre.
  { intros id Hid. by apply filter_elem in Hid as [_ [? _]%andb_true_iff]. }
  rewrite (ej_list_stream_ids_ok _ h) by
    (done || (intros c Hc; rewrite Forall_forall in Hnul;
       assert (c ∈ ids_after prefix None h) as Hin
         by (rewrite Hall; apply elem_of_app; left; by apply last_Some_elem_of);
       split; [by apply Hnul|by apply Hpre])).
  rewrite (ids_after_last _ _ _ _ Hall), N.min_id. set (page := take _ rest).
  unfold op_bind at 1, op_lift at 1.
  assert ((MAX_STREAM_LIST_BATCH <? count page)%N = false) as ->.
  { apply N.ltb_ge. unfold count, page. rewrite length_take. lia. }
  cbn [reject]. case_bool_decide as Hempty.
  { assert (rest = []) as ->.
    { destruct rest as [|id rest]; [done|]. unfold page in Hempty.
      by destruct (N.to_nat MAX_STREAM_LIST_BATCH) eqn:Hz. }
    by rewrite Hall, app_nil_r. }
  assert ((acc ++ rest) = ((acc ++ page) ++ drop (N.to_nat MAX_STREAM_LIST_BATCH) rest))%list as Hsplit
    by (rewrite <- app_assoc; unfold page; by rewrite take_drop).
  assert (ascending (acc ++ page ++ drop (N.to_nat MAX_STREAM_LIST_BATCH) rest)) as Hs.
  { rewrite app_assoc, <- Hsplit, <- Hall. apply filter_ascending, sort_dedup_ascending. }
  unfold op_bind, op_lift. rewrite ordered_page_ok.
  - cbn [negb reject]. replace (last page) with (last (acc ++ page)).
    + apply (IH _ (drop (N.to_nat MAX_STREAM_LIST_BATCH) rest)); [by rewrite Hall|].
      rewrite length_drop. assert (length rest <> 0) as Hne.
      { intros Hz. apply Hempty. unfold page. apply nil_length_inv in Hz as ->. by rewrite take_nil. }
      change (N.to_nat MAX_STREAM_LIST_BATCH) with 1024. lia.
    + rewrite last_app. destruct (last page) eqn:Hl; [done|]. by apply last_None in Hl.
  - apply StronglySorted_app in Hs as (_ & _ & Hs). apply StronglySorted_app in Hs as (_ & Hs & _). done.
  - apply Forall_forall. intros id Hid. apply Hpre. rewrite Hall. apply elem_of_app. right.
    unfold page in Hid. rewrite <- (take_drop (N.to_nat MAX_STREAM_LIST_BATCH) rest). apply elem_of_app. by left.
  - intros c Hc. apply last_Some in Hc as [front ->]. apply Forall_forall. intros id Hid.
    apply StronglySorted_app in Hs as (Hle & _ & _). apply Hle; [|apply elem_of_app; by left].
    apply elem_of_app; right; left.
Qed.

(** Discovery finds every stream below the prefix, in order, and ends: a page more than
    there are streams is fuel enough. *)
Lemma collect_stream_ids_ok fuel prefix h j :
  holds j h -> has_nul prefix = false ->
  Forall (fun id => has_nul id = false) (ids_after prefix None h) ->
  length (ids_after prefix None h) < fuel ->
  collect_stream_ids fuel prefix j = (Ok (ids_after prefix None h), j).
Proof. intros Hh Hp Hn Hlen. exact (collect_pages_ok fuel prefix h [] _ j Hh Hp Hn eq_refl Hlen). Qed.
End Client.

(** * Histories and batches

    The lemmas every client of the [EventJournal] contract shares: what a committed batch
    adds to a stream, the version check as "the stream did not move", and the steps of an
    operation that checks, reads and appends. *)

(** ** Lists and strings *)

Lemma starts_with_self p s : starts_with (p ++s s) p = true.
Proof.
  unfold starts_with. induction p as [|c p IH]; [by destruct s|].
  change (String c p ++s s) with (String c (p ++s s)). cbn [String.prefix].
  destruct (ascii_dec c c) as [_|Hc]; [exact IH|by destruct Hc].
Qed.

Lemma try_map_Forall2 {E A B} (f : A -> result E B) l l' :
  Forall2 (fun a b => f a = Ok b) l l' -> try_map f l = Ok l'.
Proof. induction 1 as [|a b l l' Hab _ IH]; simpl; [done|]. by rewrite Hab, IH. Qed.
Lemma try_map_app {E A B} (f : A -> result E B) l l' r r' :
  try_map f l = Ok r -> try_map f l' = Ok r' -> try_map f (l ++ l') = Ok (r ++ r')%list.
Proof.
  revert r. induction l as [|a l IH]; intros r; simpl; [by intros [= <-]|].
  intros Hl Hl'. apply bind_Ok in Hl as (b & -> & Hl). apply bind_Ok in Hl as (bs & Hbs & [= <-]).
  cbn [mbind result_bind]. by rewrite (IH _ Hbs Hl').
Qed.
Lemma try_map_length {E A B} (f : A -> result E B) l l' : try_map f l = Ok l' -> length l' = length l.
Proof.
  revert l'. induction l as [|a l IH]; intros l'; simpl; [by intros [= <-]|].
  intros Hl. apply bind_Ok in Hl as (b & _ & Hl). apply bind_Ok in Hl as (bs & Hbs & [= <-]).
  simpl. by rewrite (IH _ Hbs).
Qed.
Lemma filter_none {A} (f : A -> bool) l : Forall (fun a => f a = false) l -> List.filter f l = [].
Proof. induction 1 as [|a l Ha _ IH]; simpl; [done|]. by rewrite Ha. Qed.
Lemma filter_all {A} (f : A -> bool) l : Forall (fun a => f a = true) l -> List.filter f l = l.
Proof. induction 1 as [|a l Ha _ IH]; simpl; [done|]. by rewrite Ha, IH. Qed.
Lemma filter_fst {A B} (f : A -> bool) (l : list (A * B)) :
  List.filter f l.*1 = (List.filter (fun ab => f ab.1) l).*1.
Proof.
  induction l as [|a l IH]; [done|]. rewrite fmap_cons. cbn [List.filter].
  destruct (f a.1); by rewrite ?fmap_cons, IH.
Qed.

(** ** Histories and batches *)

Lemma stream_entries_app s (h g : history) :
  stream_entries s (h ++ g) = (stream_entries s h ++ stream_entries s g)%list.
Proof. apply List.filter_app. Qed.
Lemma entries_app events events' es :
  length es = length (events ++ events') ->
  entries (events ++ events') es
  = (entries events (take (length events) es) ++ entries events' (drop (length events) es))%list.
Proof.
  intros Hl. unfold entries. rewrite length_app in Hl.
  rewrite <- (take_drop (length events) es) at 1. rewrite !fmap_app. apply zip_with_app.
  rewrite !length_fmap, length_take. lia.
Qed.
Lemma entries_concat events events' es es' :
  length events = length es ->
  entries (events ++ events') (es ++ es') = (entries events es ++ entries events' es')%list.
Proof. intros Hl. unfold entries. rewrite !fmap_app. apply zip_with_app. by rewrite !length_fmap. Qed.
Lemma stream_entries_fst s (h : history) : (stream_entries s h).*1 = stream_of s h.*1.
Proof.
  unfold stream_entries, stream_of. symmetry. exact (filter_fst (fun e => String.eqb (ev_stream_id e) s) h).
Qed.
Lemma stream_entries_length s (h : history) : count (stream_entries s h) = version_of s h.*1.
Proof. unfold version_of. rewrite <- stream_entries_fst. unfold count. by rewrite length_fmap. Qed.

(** The version at the head of a stream. *)
Lemma stream_head_version s (h : history) :
  chain h.*1 -> stream_head (stream_entries s h).*1 = version_of s h.*1.
Proof.
  intros Hc. rewrite stream_entries_fst. unfold stream_head, version_of.
  destruct (last (stream_of s h.*1)) as [e|] eqn:Hl.
  - apply last_Some in Hl as [front Hf].
    destruct (chain_stream_lookup s h.*1 (length front) e Hc) as [_ ->].
    + by rewrite Hf, lookup_app_r, Nat.sub_diag.
    + rewrite Hf, count_snoc. unfold count. lia.
  - apply last_None in Hl. by rewrite Hl.
Qed.
(** A stream whose version did not move is the stream it was. *)
Lemma same_version_same_stream s (h g : history) :
  version_of s (h ++ g)%list.*1 = version_of s h.*1 -> stream_entries s (h ++ g) = stream_entries s h.
Proof.
  rewrite <- !stream_entries_length, stream_entries_app, count_app. unfold count.
  intros Hv. destruct (stream_entries s g); [by rewrite app_nil_r|]. simpl in Hv. lia.
Qed.

(** ** What a recorded batch adds to a stream *)

Definition recorded_as (event : NewEvent) (e : EventEnvelope) : Prop :=
  exists stamp, records (event, stamp) e.
Lemma recorded_all inputs events es :
  Forall2 records (stamped inputs events) es -> Forall2 recorded_as events es.
Proof.
  intros Hr. pose proof (Forall2_length _ _ _ Hr) as Hl. unfold stamped in Hl. rewrite length_imap in Hl.
  apply Forall2_same_length_lookup_2; [done|]. intros i event e Hev He. exists (in_stamp inputs i).
  eapply Forall2_lookup_lr; [exact Hr| |exact He]. unfold stamped. by rewrite list_lookup_imap, Hev.
Qed.
Lemma entries_Forall (Q : EventEnvelope * value -> Prop) events es :
  Forall2 recorded_as events es ->
  (forall event e, event ∈ events -> recorded_as event e -> Q (durable_envelope e, ne_payload event)) ->
  Forall Q (entries events es).
Proof.
  intros Hr HQ. induction Hr as [|event e events es He _ IH]; [constructor|].
  constructor; [apply HQ; [left|done]|]. apply IH. intros event' e' Hin. apply HQ. by right.
Qed.
Lemma recorded_stream event e : recorded_as event e -> ev_stream_id (durable_envelope e) = ne_stream_id event.
Proof. intros [stamp Hr]. exact (rec_stream _ _ Hr). Qed.
Lemma recorded_type event e : recorded_as event e -> ev_event_type (durable_envelope e) = ne_event_type event.
Proof. intros [stamp Hr]. exact (rec_type _ _ Hr). Qed.

Lemma recorded_types t events es :
  Forall2 recorded_as events es -> Forall (fun event => ne_event_type event = t) events ->
  Forall (fun e => ev_event_type e = t) (durable_envelope <$> es).
Proof.
  induction 1 as [|event e events es He _ IH]; [constructor|]. intros [Ht Hts]%Forall_cons.
  rewrite fmap_cons. constructor; [|by apply IH]. rewrite <- Ht. by apply recorded_type.
Qed.
Lemma recorded_one event es :
  Forall2 recorded_as [event] es -> exists e, es = [e] /\ recorded_as event e /\
    ev_event_type (durable_envelope e) = ne_event_type event /\
    entries [event] es = [(durable_envelope e, ne_payload event)].
Proof.
  intros Hr. apply Forall2_cons_inv_l in Hr as (e & es' & He & Hr & ->).
  apply Forall2_nil_inv_l in Hr as ->. exists e. split_and!; [done|done| |done]. by apply recorded_type.
Qed.
Lemma entries_on s events es :
  Forall2 recorded_as events es -> Forall (fun event => ne_stream_id event = s) events ->
  stream_entries s (entries events es) = entries events es.
Proof.
  intros Hr Hs. apply filter_all. apply entries_Forall; [done|]. intros event e Hin He. cbn [fst].
  rewrite (recorded_stream _ _ He). rewrite Forall_forall in Hs. by apply String.eqb_eq, Hs.
Qed.
Lemma entries_off s events es :
  Forall2 recorded_as events es -> Forall (fun event => ne_stream_id event <> s) events ->
  stream_entries s (entries events es) = [].
Proof.
  intros Hr Hs. apply filter_none. apply entries_Forall; [done|]. intros event e Hin He. cbn [fst].
  rewrite (recorded_stream _ _ He). rewrite Forall_forall in Hs. by apply String.eqb_neq, Hs.
Qed.
(** A batch of events on one stream and events off it. *)
Lemma entries_split s own add es :
  Forall2 recorded_as (own ++ add) es ->
  Forall (fun event => ne_stream_id event = s) own ->
  Forall (fun event => ne_stream_id event <> s) add ->
  exists es1 es2, es = (es1 ++ es2)%list /\ Forall2 recorded_as own es1 /\
    stream_entries s (entries (own ++ add) es) = entries own es1.
Proof.
  intros Hr Hown Hadd. apply Forall2_app_inv_l in Hr as (es1 & es2 & H1 & H2 & ->).
  exists es1, es2. split; [done|]. split; [done|].
  assert (length own = length es1) as Hl by (by eapply Forall2_length).
  by rewrite entries_concat, stream_entries_app, entries_on, entries_off, app_nil_r.
Qed.

Lemma committed_length h inputs batch es : batch_committed h inputs batch es -> length es = length batch.
Proof. intros [Hr%recorded_all _]. symmetry. by eapply Forall2_length. Qed.

(** The version check of the first event. *)
Lemma no_conflict_head version event events :
  first_conflict version (event :: events) = None ->
  ne_expected_stream_version event = version (ne_stream_id event).
Proof. simpl. destruct (N.eqb_spec (ne_expected_stream_version event) (version (ne_stream_id event))); done. Qed.
(** A batch that expects the head it read finds the stream it read. *)
Lemma unmoved_stream inputs s (h g : history) event events es :
  chain h.*1 -> batch_committed (h ++ g) inputs (event :: events) es ->
  ne_stream_id event = s -> ne_expected_stream_version event = version_of s h.*1 ->
  stream_entries s (h ++ g) = stream_entries s h.
Proof.
  intros Hc [_ Hn] Hs Hv. apply no_conflict_head in Hn. apply same_version_same_stream.
  by rewrite <- Hv, Hn, Hs.
Qed.

(** ** Batches around a caller's events *)

(** The events of the batch that are not the writer's own are the caller's, in order. *)
Section Around.
Context (own : string -> bool).
Definition not_own (e : NewEvent) : bool := negb (own (ne_stream_id e)).
Definition around (additional batch : list NewEvent) : Prop :=
  List.filter not_own batch = List.filter not_own additional.
Definition owned (l : list NewEvent) : Prop := Forall (fun e => own (ne_stream_id e) = true) l.

Lemma owned_none l : owned l -> List.filter not_own l = [].
Proof. intros Hl. apply filter_none. eapply Forall_impl; [exact Hl|]. intros e He. unfold not_own. by rewrite He. Qed.
Lemma around_refl l : around l l.
Proof. done. Qed.
Lemma around_nil l : owned l -> around [] l.
Proof. intros Hl. by apply owned_none. Qed.
Lemma around_before l add batch : owned l -> around add batch -> around add (l ++ batch).
Proof. intros Hl Hb. unfold around. by rewrite List.filter_app, owned_none. Qed.
Lemma around_after l add batch : owned l -> around add batch -> around add (batch ++ l).
Proof. intros Hl Hb. unfold around. by rewrite List.filter_app, (owned_none l), app_nil_r. Qed.
Lemma around_elem add batch e : around add batch -> e ∈ batch -> own (ne_stream_id e) = true \/ e ∈ add.
Proof.
  intros Hb Hin. destruct (own (ne_stream_id e)) eqn:Ho; [by left|right].
  assert (e ∈ List.filter not_own batch) as He by (apply filter_elem; split; [done|unfold not_own; by rewrite Ho]).
  rewrite Hb in He. by apply filter_elem in He as [? _].
Qed.
(** What others see of the batch. *)
Lemma around_filter (f : NewEvent -> bool) add batch :
  (forall e, f e = true -> own (ne_stream_id e) = false) -> around add batch ->
  List.filter f batch = List.filter f add.
Proof.
  intros Hf Hb.
  assert (forall l, List.filter f l = List.filter f (List.filter not_own l)) as Heq.
  { intros l. induction l as [|e l IH]; [done|]. simpl. unfold not_own at 1.
    destruct (own (ne_stream_id e)) eqn:Ho; simpl.
    - destruct (f e) eqn:Hfe; [|done]. by rewrite (Hf e Hfe) in Ho.
    - by rewrite IH. }
  by rewrite (Heq batch), (Heq add), Hb.
Qed.
End Around.

(** ** Steps of an operation *)

(** One check of an operation whose result is named by [H]. *)
Ltac op_check H name :=
  rewrite op_bind_lift in H;
  match type of H with
  | _ = match ?r with Ok _ => _ | Err _ => _ end => destruct r as [[]|?] eqn:name; [|left; eauto]
  end.

(** ** Appending one event *)

Section Append.
Context {J} `{EventJournalOk J} (j : J) (h : history) (Hh : holds j h) (inputs : Inputs).

(** [append] is a batch of one. *)
Lemma append_one {B} event (f : EventEnvelope -> op J B) :
  op_bind (ej_append inputs event) f j
  = match ej_append_batch inputs [event] j with
    | (Ok es, j') => match last es with
                     | Some e => f e j'
                     | None => (Err (StoreAdapter "append returned no event"), j')
                     end
    | (Err e, j') => (Err e, j')
    end.
Proof.
  unfold op_bind at 1. rewrite ej_append_ok. unfold op_bind.
  destruct (ej_append_batch inputs [event] j) as [[es|e] j']; [|done]. simpl. by destruct (last es).
Qed.
Lemma one_event event :
  recordable event -> inputs_ok inputs -> (count h + 2 < u64_max)%N ->
  forall es, (ej_append_batch inputs [event] j).1 = Ok es -> exists e, es = [e].
Proof.
  intros Hrec Hin Hle es Hes. pose proof (ej_append_batch_ok j h inputs [event] Hh) as Ha.
  specialize (Ha ltac:(by apply Forall_singleton) Hin ltac:(unfold count in *; simpl; lia)).
  destruct (ej_append_batch inputs [event] j) as [r j']. simpl in Hes. subst r.
  destruct Ha as [Hb _]. apply committed_length in Hb. destruct es as [|e []]; [done| |done]. by exists e.
Qed.
End Append.
