(* ===== verification/Interleaving.v ===== *)
(** * Many writers on one journal

    A repository operation reads the journal, prepares a batch and commits it; between the
    two any number of other batches may be committed, and a prepared batch may be tried
    again.  The system of [journal_step] has these as separate steps; a step may also change
    what else the state holds, and not the events.  A class of batches
    whose commits keep an invariant, however late they come, keeps it in every run. *)

From S2P Require Import Prelude Json Contracts Boundary Platform JournalStore Journal Store.
From S2P Require Import JournalModel JournalAppend StoreSpec StoreCorrect.
From stdpp Require Import relations.

Open Scope string_scope.
Open Scope op_scope.

Section Interleaving.
Context {J} `{EventJournalOk J}.
(** What an operation may append after it has read a history. *)
Context (prepared : history -> list NewEvent -> Prop).

(** The journal and the batches that have been prepared. *)
Inductive journal_step : J * list (list NewEvent) -> J * list (list NewEvent) -> Prop :=
| step_prepare j h batches batch :
    holds j h -> (count h + 1 < u64_max)%N -> prepared h batch -> Forall recordable batch ->
    journal_step (j, batches) (j, batch :: batches)
| step_commit j h batches batch inputs :
    holds j h -> (count h + count batch + 1 < u64_max)%N -> batch ∈ batches -> inputs_ok inputs ->
    journal_step (j, batches) ((ej_append_batch inputs batch j).2, batches)
| step_private j j' batches :
    (forall h, holds j h -> holds j' h) -> journal_step (j, batches) (j', batches).

(** An operation alone: it leaves the journal, or prepares one batch and commits it. *)
Definition one_batch (j : J) (h : history) (inputs : Inputs) (size : N) (j' : J) : Prop :=
  j' = j \/ exists batch, prepared h batch /\ Forall recordable batch /\
    (count batch <= size)%N /\ j' = (ej_append_batch inputs batch j).2.
Lemma one_batch_refines j h inputs size j' batches :
  holds j h -> inputs_ok inputs -> (count h + size + 1 < u64_max)%N ->
  one_batch j h inputs size j' -> exists batches', rtc journal_step (j, batches) (j', batches').
Proof.
  intros Hh Hi Hle [->|(batch & Hp & Hr & Hc & ->)]; [by exists batches|].
  exists (batch :: batches). eapply rtc_l; [eapply step_prepare; try done; lia|].
  apply rtc_once. eapply step_commit; try done; [lia|by left].
Qed.

End Interleaving.

Lemma one_batch_mono {J} `{EventJournal J} (P Q : history -> list NewEvent -> Prop) j h inputs size j' :
  (forall batch, P h batch -> Q h batch) ->
  one_batch P j h inputs size j' -> one_batch Q j h inputs size j'.
Proof.
  intros HPQ [->|(batch & Hp & Hr & Hc & ->)]; [by left|right]. exists batch. split_and!; [by apply HPQ|done..].
Qed.

(** ** An invariant of every run *)

Section Invariant.
Context {J} `{EventJournalOk J}.
Context (prepared : history -> list NewEvent -> Prop).

Context (ok : history -> Prop).
Context (prepared_keeps : forall inputs h g batch es,
  chain h.*1 -> (count h < u64_max)%N -> prepared h batch -> ok (h ++ g) ->
  batch_committed (h ++ g) inputs batch es -> ok ((h ++ g) ++ entries batch es)).

(** Every prepared batch was prepared at a prefix of the history. *)
Definition pending_ok (h : history) (batches : list (list NewEvent)) : Prop :=
  Forall (fun batch => Forall recordable batch /\
    exists h0 g0, h = (h0 ++ g0)%list /\ (count h0 < u64_max)%N /\ prepared h0 batch) batches.
Definition system_ok (h : history) (s : J * list (list NewEvent)) : Prop :=
  exists g, holds s.1 (h ++ g) /\ ok (h ++ g) /\ pending_ok (h ++ g) s.2.

Lemma chain_prefix (h g : history) : chain (h ++ g)%list.*1 -> chain h.*1.
Proof. rewrite fmap_app. intros Hc. by eapply chain_app_inv. Qed.
Lemma pending_grows h batches k : pending_ok h batches -> pending_ok (h ++ k) batches.
Proof.
  intros Hf. eapply Forall_impl; [exact Hf|]. intros batch (Hr & h0 & g0 & -> & Hm & Hp). split; [done|].
  exists h0, (g0 ++ k)%list. by rewrite app_assoc.
Qed.
Lemma commit_keeps inputs j h batch es :
  holds j h -> (count h < u64_max)%N -> prepared h batch -> ok h ->
  batch_committed h inputs batch es -> ok (h ++ entries batch es).
Proof.
  intros Hh Hm Hp Hok Hb. pose proof (prepared_keeps inputs h [] batch es) as Hpo.
  rewrite app_nil_r in Hpo. apply Hpo; try done. by eapply holds_chain.
Qed.

Lemma journal_step_keeps h s s' : journal_step prepared s s' -> system_ok h s -> system_ok h s'.
Proof.
  intros Hs (g & Hh & Hok & Hf).
  destruct Hs as [j k batches batch Hk Hm Hb Hr|j k batches batch inputs Hk Hroom Hin Hi|j j' batches Hp];
    simpl in *; [pose proof (holds_unique _ _ _ Hk Hh) as ->..|exists g; by split_and!; [apply Hp| |]].
  - exists g. split_and!; [done|done|]. constructor; [|done]. split; [done|].
    exists (h ++ g)%list, []. rewrite app_nil_r. split_and!; [done|lia|done].
  - pose proof (proj1 (Forall_forall _ _) Hf _ Hin) as (Hr & h0 & g0 & He & Hm & Hp).
    assert (forall es, batch_committed (h ++ g) inputs batch es -> holds (ej_append_batch inputs batch j).2
      ((h ++ g) ++ entries batch es) -> system_ok h ((ej_append_batch inputs batch j).2, batches)) as Hgo.
    { intros es Hb Hh'. exists (g ++ entries batch es)%list. rewrite app_assoc. split_and!; [done| |].
      - rewrite He in Hok, Hb |- *. apply (prepared_keeps inputs); try done.
        apply (chain_prefix h0 g0). rewrite <- He. by eapply holds_chain.
      - by apply pending_grows. }
    pose proof (ej_append_batch_ok j _ inputs batch Hh Hr Hi Hroom) as Ha.
    destruct (ej_append_batch inputs batch j) as [[es|e] j']; simpl in *.
    + destruct Ha as [Hb Hh']. by apply (Hgo es).
    + destruct Ha as [Hh'|(es & Hb & Hh')]; [by exists g|by apply (Hgo es)].
Qed.

Lemma interleaved_ok j j' h batches :
  holds j h -> ok h -> rtc (journal_step prepared) (j, []) (j', batches) ->
  exists g, holds j' (h ++ g) /\ ok (h ++ g).
Proof.
  intros Hh Hok Hr.
  assert (system_ok h (j', batches)) as (g & Hg & Hs & _); [|by exists g].
  assert (system_ok h (j, [])) as H0' by (exists []; rewrite app_nil_r; split_and!; [done|done|apply Forall_nil_2]).
  revert Hr H0'. generalize (j, @nil (list NewEvent)) (j', batches). intros s s' Hr.
  induction Hr as [|s s1 s' Hs _ IH]; [done|]. intros Hk. by eapply IH, journal_step_keeps.
Qed.

(** One batch committed: the history it leaves, and the invariant. *)
Lemma one_batch_keeps j h inputs size j' :
  holds j h -> ok h -> inputs_ok inputs -> (count h + size + 1 < u64_max)%N ->
  one_batch prepared j h inputs size j' ->
  exists h', holds j' h' /\ ok h' /\ (count h' <= count h + size)%N.
Proof.
  intros Hh Hok Hi Hle [->|(batch & Hp & Hr & Hc & ->)]; [exists h; by split_and!; [| |lia]|].
  assert (forall es, batch_committed h inputs batch es -> ok (h ++ entries batch es) /\
    (count (h ++ entries batch es)%list <= count h + size)%N) as Hgo.
  { intros es Hb. split; [eapply commit_keeps; try done; lia|].
    pose proof (committed_length _ _ _ _ Hb) as Hlen. unfold count, entries in *.
    rewrite length_app, length_zip_with, !length_fmap. lia. }
  pose proof (ej_append_batch_ok j h inputs batch Hh Hr Hi ltac:(lia)) as Ha.
  destruct (ej_append_batch inputs batch j) as [[es|e] j']; cbn [snd].
  - destruct Ha as [Hb Hh']. exists (h ++ entries batch es)%list. split; [done|by apply Hgo].
  - destruct Ha as [Hh'|(es & Hb & Hh')]; [exists h; by split_and!; [| |lia]|].
    exists (h ++ entries batch es)%list. split; [done|by apply Hgo].
Qed.

(** *** An operation of several steps *)

(** A run of the system to [j'], which appends at most [size] events. *)
Definition moves (size : N) (j : J) (h : history) (j' : J) : Prop :=
  (forall batches, exists batches', rtc (journal_step prepared) (j, batches) (j', batches')) /\
  exists g, holds j' (h ++ g) /\ ok (h ++ g) /\ (count g <= size)%N.
Lemma moves_mono size size' j h j' : moves size j h j' -> (size <= size')%N -> moves size' j h j'.
Proof. intros [Hr (g & Hh & Hok & Hle)] Hs. split; [done|]. exists g. split_and!; [done..|lia]. Qed.
Lemma moves_private size j h j' : holds j h -> ok h -> holds j' h -> moves size j h j'.
Proof.
  intros Hh Hok Hh'. split; [|exists []; rewrite app_nil_r; split_and!; [done..|unfold count; simpl; lia]].
  intros batches. exists batches. apply rtc_once, step_private. intros h' Hj.
  by rewrite (holds_unique _ _ _ Hj Hh).
Qed.
Lemma moves_trans size size' j h j1 j2 :
  moves size j h j1 ->
  (forall g, holds j1 (h ++ g) -> ok (h ++ g) -> (count g <= size)%N -> moves size' j1 (h ++ g) j2) ->
  moves (size + size') j h j2.
Proof.
  intros [Hr (g & Hh & Hok & Hle)] Hk. destruct (Hk g Hh Hok Hle) as [Hr' (g' & Hh' & Hok' & Hle')]. split.
  - intros batches. destruct (Hr batches) as [b1 H1]. destruct (Hr' b1) as [b2 H2]. exists b2. by etransitivity.
  - exists (g ++ g')%list. rewrite app_assoc. split_and!; [done|done|]. unfold count in *. rewrite length_app. lia.
Qed.
Lemma moves_one inputs size j h j' :
  holds j h -> ok h -> inputs_ok inputs -> (count h + size + 1 < u64_max)%N ->
  one_batch prepared j h inputs size j' -> moves size j h j'.
Proof.
  intros Hh Hok Hi Hle Hone. split; [intros batches; by eapply one_batch_refines|].
  destruct Hone as [->|(batch & Hp & Hr & Hc & ->)];
    [exists []; rewrite app_nil_r; split_and!; [done..|unfold count; simpl; lia]|].
  assert (forall es, batch_committed h inputs batch es -> ok (h ++ entries batch es) /\
    (count (entries batch es) <= size)%N) as Hgo.
  { intros es Hb. split; [eapply commit_keeps; try done; lia|].
    pose proof (committed_length _ _ _ _ Hb) as Hlen. unfold count, entries in *.
    rewrite length_zip_with, !length_fmap. lia. }
  pose proof (ej_append_batch_ok j h inputs batch Hh Hr Hi ltac:(lia)) as Ha.
  destruct (ej_append_batch inputs batch j) as [[es|e] j']; cbn [snd].
  - destruct Ha as [Hb Hh']. exists (entries batch es). split_and!; [done|by apply Hgo..].
  - destruct Ha as [Hh'|(es & Hb & Hh')].
    + exists []. rewrite app_nil_r. split_and!; [done..|unfold count; simpl; lia].
    + exists (entries batch es). split_and!; [done|by apply Hgo..].
Qed.
Lemma op_bind_assoc {S A B D} (m : op S A) (f : A -> op S B) (g : B -> op S D) s :
  op_bind (op_bind m f) g s = op_bind m (fun a => op_bind (f a) g) s.
Proof. unfold op_bind. by destruct (m s) as [[a|e] s']. Qed.
(** A bind of an operation that reads, or takes from what else the state holds. *)
Lemma moves_bind {A B} size size' j h (m : op J A) (k : A -> op J B) :
  moves size j h (m j).2 ->
  (forall a g, (m j).1 = Ok a -> holds (m j).2 (h ++ g) -> ok (h ++ g) -> (count g <= size)%N ->
    moves size' (m j).2 (h ++ g) (k a (m j).2).2) ->
  moves (size + size') j h (op_bind m k j).2.
Proof.
  intros Hm Hk. unfold op_bind. destruct (m j) as [[a|e] j'] eqn:Hr; cbn [fst snd] in *.
  - eapply moves_trans; [exact Hm|]. intros g Hh Hok Hle. by apply Hk.
  - eapply moves_mono; [exact Hm|lia].
Qed.
Lemma moves_after {A B} size j h (m : op J A) (k : A -> op J B) :
  holds j h -> ok h -> holds (m j).2 h ->
  (forall a, (m j).1 = Ok a -> moves size (m j).2 h (k a (m j).2).2) ->
  moves size j h (op_bind m k j).2.
Proof.
  intros Hh Hok Hm Hk. unfold op_bind. destruct (m j) as [[a|e] j'] eqn:Hr; cbn [fst snd] in *.
  - eapply (moves_mono (0 + size)); [|lia]. eapply moves_trans; [by apply moves_private|].
    intros g Hg _ _. rewrite (holds_unique _ _ _ Hg Hm). by apply Hk.
  - by apply moves_private.
Qed.
End Invariant.
