(* ===== verification/SessionModel.v ===== *)
(** * What a session's stream means

    [session_trace id evs st]: the events [evs] of a session's stream, written by the
    operations of [Session], hold the conversation [st].  The readers of [Session] are
    folds over entries ([message_of], [tool_turn_of], ..), and on a trace they return
    its state. *)

From S2P Require Import Prelude Json Contracts Boundary Platform JournalStore Journal Store.
From S2P Require Import JournalModel JournalAppend StoreSpec SessionContracts ProjectionHandlers Session.

Open Scope string_scope.

(** What [serde] does with the records of a session. *)
Definition u16_max : N := 65535.
Class SessionCodecOk `{SessionCodec} := {
  message_roundtrip : forall m, message_from_value (message_to_value m) = Ok m;
  pending_roundtrip : forall p v, (pt_turn p <= u16_max)%N -> pending_to_value p = Ok v ->
    pending_from_value v = Ok p;
  pending_storable : forall p v, pending_to_value p = Ok v -> parseable v /\ exact_json v = true;
  lifecycle_roundtrip : forall s v, (sl_revision s <= u64_max)%N -> lifecycle_to_value s = Ok v ->
    lifecycle_from_value v = Ok s;
  lifecycle_storable : forall s v, (sl_revision s <= u64_max)%N -> lifecycle_to_value s = Ok v ->
    parseable v /\ exact_json v = true;
}.

Record SessionState := mkSessionState {
  se_title : option string;
  se_messages : list SessionMessage;
  se_pending : option PendingSessionToolTurn;
  se_created_at : string;
  se_updated_at : string;
}.

Section Model.
Context `{SessionCodec}.

(** ** Traces *)

(** The payloads of a run's messages, numbered from [first]. *)
Definition message_values (run_id : string) (first : N) (messages : list ModelMessage) : list value :=
  imap (fun i m => message_payload run_id (saturating_add first (N.of_nat i)) m) messages.
Definition recorded_messages (id run_id : string) (first : N) (messages : list ModelMessage)
    (es : list EventEnvelope) : list SessionMessage :=
  imap (fun i me => mkSessionMessage id run_id (saturating_add first (N.of_nat i)) (fst me)
    (ev_occurred_at (snd me))) (zip messages es).
Definition next_message (st : SessionState) : N := saturating_add (count (se_messages st)) 1.
Definition with_messages (id run_id : string) (messages : list ModelMessage)
    (es : list EventEnvelope) (st : SessionState) : SessionState :=
  mkSessionState (se_title st)
    (se_messages st ++ recorded_messages id run_id (next_message st) messages es) (se_pending st)
    (se_created_at st) (default (se_updated_at st) (ev_occurred_at <$> last es)).
Definition with_pending (pending : option PendingSessionToolTurn) (e : EventEnvelope)
    (st : SessionState) : SessionState :=
  mkSessionState (se_title st) (se_messages st) pending (se_created_at st) (ev_occurred_at e).

Definition message_block (run_id : string) (first : N) (messages : list ModelMessage)
    (es : list EventEnvelope) : history := zip es (message_values run_id first messages).

Inductive session_trace (id : string) : history -> SessionState -> Prop :=
| trace_created e title :
    ev_event_type e = SESSION_EVENT ->
    session_trace id [(e, title_payload title)]
      (mkSessionState title [] None (ev_occurred_at e) (ev_occurred_at e))
| trace_title evs st e title :
    session_trace id evs st -> ev_event_type e = TITLE_EVENT ->
    session_trace id (evs ++ [(e, title_payload (Some title))])
      (mkSessionState (Some title) (se_messages st) (se_pending st) (se_created_at st)
         (ev_occurred_at e))
| trace_messages evs st run_id messages es :
    session_trace id evs st -> se_pending st = None ->
    Forall (fun m => validate_message m = Ok tt) messages ->
    Forall (fun e => ev_event_type e = MESSAGE_EVENT) es -> length messages = length es ->
    session_trace id (evs ++ message_block run_id (next_message st) messages es)
      (with_messages id run_id messages es st)
| trace_begin evs st e pending v :
    session_trace id evs st -> se_pending st = None -> ev_event_type e = TOOL_TURN_PENDING_EVENT ->
    validate_pending_tool_turn pending = Ok tt -> (pt_turn pending <= u16_max)%N ->
    pending_to_value pending = Ok v ->
    session_trace id (evs ++ [(e, v)]) (with_pending (Some pending) e st)
| trace_complete evs st e pending v messages es :
    session_trace id evs st -> se_pending st = Some pending ->
    Forall (fun m => validate_message m = Ok tt) messages ->
    validate_model_transcript messages = Ok tt -> opening_calls messages = pt_call_ids pending ->
    Forall (fun e => ev_event_type e = MESSAGE_EVENT) es -> length messages = length es ->
    ev_event_type e = TOOL_TURN_COMPLETED_EVENT -> pending_to_value pending = Ok v ->
    session_trace id (evs ++ message_block (pt_run_id pending) (next_message st) messages es ++ [(e, v)])
      (with_pending None e (with_messages id (pt_run_id pending) messages es st)).

(** Archiving and restoring take turns; every event says what it made of the session. *)
Inductive lifecycle_trace (id : string) : history -> bool -> Prop :=
| trace_active : lifecycle_trace id [] false
| trace_flip evs archived e v :
    lifecycle_trace id evs archived ->
    ev_event_type e = (if archived then RESTORED_EVENT else ARCHIVED_EVENT) ->
    ev_event_version e = 1%N -> ctx_session_id (ev_context e) = Some id ->
    lifecycle_to_value (mkSessionLifecycle id (negb archived) (count evs + 1)) = Ok v ->
    lifecycle_trace id (evs ++ [(e, v)]) (negb archived).

(** ** What the operations append *)

Definition batch_messages (messages : list SessionMessageAppend) : list ModelMessage :=
  sa_message <$> messages.
(** An event that other components write. *)
Definition foreign (event : NewEvent) : Prop :=
  starts_with (ne_stream_id event) "session:" = false /\
  starts_with (ne_stream_id event) "session-lifecycle:" = false.

(** What an operation appends after it has read [h]. *)
Inductive prepared (h : history) : list NewEvent -> Prop :=
| prepared_created id title actor :
    validate_session_id id = Ok tt ->
    prepared h [session_event (session_stream id) 0 SESSION_EVENT actor (session_context id id None)
                  (title_payload title)]
| prepared_title id st title actor index_version :
    session_trace id (stream_entries (session_stream id) h) st ->
    prepared h [session_event (session_stream id) (stream_head (stream_entries (session_stream id) h).*1)
                  TITLE_EVENT actor (session_context id id None) (title_payload (Some title));
                session_event (title_stream id) index_version TITLE_INDEX_EVENT actor
                  (session_context id id None) (title_payload (Some title))]
| prepared_messages id st run_id messages additional :
    session_trace id (stream_entries (session_stream id) h) st -> se_pending st = None ->
    messages <> [] ->
    Forall (fun m => validate_message m = Ok tt) (batch_messages messages) ->
    Forall foreign additional ->
    prepared h (message_events id run_id (next_message st)
      (stream_head (stream_entries (session_stream id) h).*1) messages ++ additional)
| prepared_begin id st pending v actor additional :
    session_trace id (stream_entries (session_stream id) h) st -> se_pending st = None ->
    validate_pending_tool_turn pending = Ok tt -> (pt_turn pending <= u16_max)%N ->
    pending_to_value pending = Ok v -> Forall foreign additional ->
    prepared h (session_event (session_stream id) (stream_head (stream_entries (session_stream id) h).*1)
      TOOL_TURN_PENDING_EVENT actor
      (session_context (pt_run_id pending) id (Some (pt_run_id pending))) v :: additional)
| prepared_complete id st pending v actor messages additional :
    session_trace id (stream_entries (session_stream id) h) st -> se_pending st = Some pending ->
    Forall (fun m => validate_message m = Ok tt) (batch_messages messages) ->
    validate_model_transcript (batch_messages messages) = Ok tt ->
    opening_calls (batch_messages messages) = pt_call_ids pending ->
    pending_to_value pending = Ok v -> Forall foreign additional ->
    prepared h ((message_events id (pt_run_id pending) (next_message st)
        (stream_head (stream_entries (session_stream id) h).*1) messages ++
      [session_event (session_stream id)
        (saturating_add (stream_head (stream_entries (session_stream id) h).*1) (count messages))
        TOOL_TURN_COMPLETED_EVENT actor
        (session_context (pt_run_id pending) id (Some (pt_run_id pending))) v]) ++ additional)
| prepared_lifecycle id archived v actor :
    lifecycle_trace id (stream_entries (lifecycle_stream id) h) archived ->
    lifecycle_to_value (mkSessionLifecycle id (negb archived)
      (count (stream_entries (lifecycle_stream id) h) + 1)) = Ok v ->
    prepared h [session_event (lifecycle_stream id) (count (stream_entries (lifecycle_stream id) h))
      (if archived then RESTORED_EVENT else ARCHIVED_EVENT) actor (session_context id id None) v]
| prepared_foreign events : Forall foreign events -> prepared h events.

(** Every session's streams were written by the operations. *)
Definition sessions_ok (h : history) : Prop := forall id,
  (stream_entries (session_stream id) h = [] \/
   exists st, session_trace id (stream_entries (session_stream id) h) st) /\
  exists archived, lifecycle_trace id (stream_entries (lifecycle_stream id) h) archived.

(** ** Readers as folds over entries *)

Definition message_of (id : string) (ev : EventEnvelope * value) : result StoreError SessionMessage :=
  run_id ← ok_or (get_str "run_id" ev.2) (Verification "session message has no run_id");
  sequence ← ok_or (get "sequence" ev.2 ≫= as_u64) (Verification "session message has no sequence");
  value ← ok_or (get "message" ev.2) (Verification "session message payload is absent");
  message ← map_err Verification (message_from_value value);
  Ok (mkSessionMessage id run_id sequence message (ev_occurred_at ev.1)).
Definition tool_turn_of (pending : option PendingSessionToolTurn) (ev : EventEnvelope * value)
    : result StoreError (option PendingSessionToolTurn) :=
  record ← map_err Verification (pending_from_value ev.2);
  map_err (fun e => Verification (store_error_text e)) (validate_pending_tool_turn record) ;;
  if String.eqb (ev_event_type ev.1) TOOL_TURN_PENDING_EVENT then
    reject (is_some pending) (Verification "session contains overlapping pending tool turns") ;;
    Ok (Some record)
  else
    reject (negb (bool_decide (pending = Some record)))
      (Verification "session tool-turn completion does not match its pending marker") ;;
    Ok None.
Definition title_of (title : option string) (ev : EventEnvelope * value)
    : result StoreError (option string) :=
  updated ← ok_or (get_str "title" ev.2) (Verification "session title event has no title");
  Ok (Some updated).
Definition summary_of (id : string) (s : N * option string * option string)
    (ev : EventEnvelope * value) : result StoreError (N * option string * option string) :=
  record ← message_of id ev;
  Ok (saturating_add s.1.1 1, Some (sm_run_id record),
      if begins_user_turn (sm_message record)
      then Some (preview (plain_text (mm_content (sm_message record)))) else s.2).

Definition typed (event_type : string) (evs : history) : history :=
  List.filter (fun ev => String.eqb (ev_event_type ev.1) event_type) evs.
Definition tool_turns (evs : history) : history :=
  List.filter (fun ev => is_tool_turn_event ev.1) evs.

(** The summary of a conversation. *)
Definition summarised (s : N * option string * option string) (m : SessionMessage)
    : N * option string * option string :=
  (saturating_add s.1.1 1, Some (sm_run_id m),
   if begins_user_turn (sm_message m)
   then Some (preview (plain_text (mm_content (sm_message m)))) else s.2).
Definition session_summary (id : string) (st : SessionState) : SessionSummary :=
  let '(message_count, last_run_id, last_user_preview) :=
    foldl summarised (0%N, None, None) (se_messages st) in
  mkSessionSummary id (se_title st) (se_created_at st) (se_updated_at st) message_count last_run_id
    last_user_preview.
End Model.
