(* ===== verification/SessionTest.v ===== *)
(** * A concrete codec for sessions

    Serialisers of the records of a session that satisfy every law of [SessionCodecOk]:
    the instances the witnesses of the session theorems use, and a session to run them on. *)

From S2P Require Import Prelude Json Contracts Boundary Platform JournalStore Journal Store.
From S2P Require Import JournalModel JournalCorrect JournalAppend JournalTest StoreSpec SessionContracts.
From S2P Require Import ProjectionHandlers Session SessionModel.

Open Scope string_scope.

(** ** Records as arrays *)

Definition of_json_n (v : value) : option N :=
  match v with Number (PosInt n) => Some n | _ => None end.
Definition of_json_str (v : value) : option string := match v with Str s => Some s | _ => None end.
Definition of_array {A} (f : value -> option A) (v : value) : option (list A) :=
  match v with Array l => mapM f l | _ => None end.
Lemma of_array_map {A} (f : value -> option A) (g : A -> value) l :
  (forall a, f (g a) = Some a) -> of_array f (Array (map g l)) = Some l.
Proof. intros Hf. cbn. induction l as [|a l IH]; [done|]. simpl. by rewrite Hf, IH. Qed.

Definition image_value (i : ModelImageReference) : value :=
  Array [Str (im_artifact_id i); Str (im_file_name i); Str (im_media_type i); json_n (im_size_bytes i);
         Str (im_sha256 i); json_n (im_width_pixels i); json_n (im_height_pixels i)].
Definition part_value (p : ModelContentPart) : value :=
  match p with PartText text => Str text | PartImage i => image_value i end.
Definition of_part (v : value) : option ModelContentPart :=
  match v with
  | Str text => Some (PartText text)
  | Array [Str a; Str n; Str t; Number (PosInt s); Str h; Number (PosInt w); Number (PosInt g)] =>
      Some (PartImage (mkModelImageReference a n t s h w g))
  | _ => None
  end.
Definition content_value (c : ModelContent) : value :=
  match c with Text text => Str text | Parts ps => Array (map part_value ps) end.
Definition of_content (v : value) : option ModelContent :=
  match v with Str text => Some (Text text) | v => Parts <$> of_array of_part v end.
Definition call_value (c : ModelToolCall) : value :=
  Array [Str (tc_call_id c); Str (tc_name c); tc_arguments c].
Definition of_call (v : value) : option ModelToolCall :=
  match v with Array [Str i; Str n; a] => Some (mkModelToolCall i n a) | _ => None end.
Definition role_number (r : ModelMessageRole) : N :=
  match r with MR_System => 0 | MR_User => 1 | MR_Assistant => 2 | MR_Tool => 3 | MR_ToolObservation => 4 end.
Definition of_role (n : N) : ModelMessageRole :=
  match n with 0%N => MR_System | 1%N => MR_User | 2%N => MR_Assistant | 3%N => MR_Tool
  | _ => MR_ToolObservation end.
Definition origin_value (o : option AgentMessageOrigin) : value :=
  match o with
  | None => Null
  | Some (mkAgentMessageOrigin m (Participant p) r) => Array [Str m; Bool true; Str p; Str r]
  | Some (mkAgentMessageOrigin m (ApplicationSender p) r) => Array [Str m; Bool false; Str p; Str r]
  end.
Definition of_origin (v : value) : option AgentMessageOrigin :=
  match v with
  | Array [Str m; Bool b; Str p; Str r] =>
      Some (mkAgentMessageOrigin m (if b then Participant p else ApplicationSender p) r)
  | _ => None
  end.
Definition test_message_value (m : ModelMessage) : value :=
  Array [origin_value (mm_agent_message_origin m); json_n (role_number (mm_role m));
         content_value (mm_content m); match mm_tool_call_id m with Some i => Str i | None => Null end;
         Array (map call_value (mm_tool_calls m))].
Definition test_message_of (v : value) : option ModelMessage :=
  match v with
  | Array [o; Number (PosInt r); c; i; calls] =>
      content ← of_content c; tool_calls ← of_array of_call calls;
      Some (mkModelMessage (of_origin o) (of_role r) content (of_json_str i) tool_calls)
  | _ => None
  end.
Lemma test_message_of_value m : test_message_of (test_message_value m) = Some m.
Proof.
  destruct m as [o r c i calls]. unfold test_message_of, test_message_value.
  cbn [mm_agent_message_origin mm_role mm_content mm_tool_call_id mm_tool_calls json_n].
  assert (of_content (content_value c) = Some c) as ->.
  { destruct c as [t|ps]; [done|]. cbn [of_content content_value].
    by rewrite (of_array_map of_part part_value) by (by intros [|[]]). }
  cbn [mbind option_bind]. rewrite (of_array_map of_call call_value) by (by intros []).
  cbn [mbind option_bind]. do 2 f_equal; [by destruct o as [[? []]|]|by destruct r|by destruct i].
Qed.

Definition test_pending_value (p : PendingSessionToolTurn) : value :=
  Array [Str (pt_run_id p); json_n (pt_turn p); Array (map Str (pt_call_ids p))].
Definition test_pending_of (v : value) : option PendingSessionToolTurn :=
  match v with
  | Array [Str r; Number (PosInt n); calls] => mkPendingSessionToolTurn r n <$> of_array of_json_str calls
  | _ => None
  end.

#[export] Instance test_session_codec : SessionCodec := {
  message_to_value := test_message_value;
  message_from_value v := ok_or (test_message_of v) "expected a message";
  message_to_vec m := Ok (text (value_tree (test_message_value m)));
  pending_to_value p :=
    reject (u16_max <? pt_turn p)%N "turn out of range" ;; Ok (test_pending_value p);
  pending_from_value v := ok_or (test_pending_of v) "expected a tool turn";
  lifecycle_to_value s :=
    Ok (Array [Str (sl_session_id s); Bool (sl_archived s); json_n (sl_revision s)]);
  lifecycle_from_value v :=
    match v with
    | Array [Str i; Bool a; Number (PosInt r)] => Ok (mkSessionLifecycle i a r)
    | _ => Err "expected a lifecycle"
    end;
  instant s := Some (Z.of_N (slen s));
}.

Lemma strings_storable l :
  json_depth (Array (map Str l)) <= 2 /\ forallb exact_json (map Str l) = true.
Proof.
  split; [|by induction l]. cbn. apply le_n_S. induction l as [|s l IH]; [simpl; lia|]. simpl. lia.
Qed.
#[export] Instance test_session_codec_ok : SessionCodecOk.
Proof.
  constructor.
  - intros m. cbn [message_from_value message_to_value test_session_codec]. by rewrite test_message_of_value.
  - intros [r n calls] v _. cbn [pending_to_value pending_from_value test_session_codec].
    intros Hv. apply bind_Ok in Hv as ([] & _ & [= <-]).
    cbn [test_pending_of test_pending_value pt_run_id pt_turn pt_call_ids json_n].
    by rewrite (of_array_map of_json_str Str) by done.
  - intros [r n calls] v. cbn [pending_to_value test_session_codec]. intros Hv.
    apply bind_Ok in Hv as ([] & Hn%reject_Ok%N.ltb_ge & [= <-]). cbn in Hn.
    destruct (strings_storable calls) as [Hd Hx]. split.
    + unfold parseable, MAX_PARSED_DEPTH. simpl in Hd |- *. lia.
    + simpl. rewrite Hx. unfold u16_max in Hn. rewrite (proj2 (N.leb_le _ _)) by (unfold u64_max; lia). done.
  - intros [i a r] v _ [= <-]. done.
  - intros [i a r] v Hr [= <-]. split; [unfold parseable, MAX_PARSED_DEPTH; simpl; lia|].
    simpl in Hr |- *. by rewrite (proj2 (N.leb_le _ _) Hr).
Qed.

(** ** A session *)

Definition test_inputs : Inputs :=
  mkInputs (Ok "now") true (fun i => test_stamp (String (ascii_of_nat (65 + i)) "")).
Lemma test_inputs_ok : inputs_ok test_inputs.
Proof. by intros i nonce [= <-]. Qed.
Definition test_actor : Actor := mkActor User "alice".
Definition test_user (text : string) : ModelMessage := mkModelMessage None MR_User (Text text) None [].
Definition test_assistant (calls : list string) : ModelMessage :=
  mkModelMessage None MR_Assistant (Text "") None
    ((fun i => mkModelToolCall i "shell" (Object [])) <$> calls).
Definition test_result (call : string) : ModelMessage :=
  mkModelMessage None MR_Tool (Text "done") (Some call) [].
Definition test_appends (messages : list ModelMessage) : list SessionMessageAppend :=
  (fun m => mkSessionMessageAppend m test_actor) <$> messages.
Definition test_turn : PendingSessionToolTurn := mkPendingSessionToolTurn "run-1" 1 ["call-1"; "call-2"].
Definition test_turn_messages : list SessionMessageAppend :=
  test_appends [test_assistant ["call-1"; "call-2"]; test_result "call-2"; test_result "call-1"].
