(* ===== verification/SessionCorrect.v ===== *)
(** * Reading a session

    What the readers of [Session] return on a trace: its state. *)

From S2P Require Import Prelude Json Contracts Boundary Platform JournalStore Journal Store.
From S2P Require Import SessionContracts ProjectionHandlers Session JournalModel JournalAppend StoreSpec ProjectionCorrect ProjectionView.
From S2P Require Import StoreCorrect SessionModel.

Open Scope string_scope.

Section Reads.
Context `{SessionCodec} `{!SessionCodecOk}.

Lemma message_block_fst run_id first messages es :
  length messages = length es -> (message_block run_id first messages es).*1 = es.
Proof. intros Hl. apply fst_zip. unfold message_values. rewrite length_imap. lia. Qed.
Lemma message_block_read id run_id first messages es :
  length messages = length es ->
  try_map (message_of id) (message_block run_id first messages es)
  = Ok (recorded_messages id run_id first messages es).
Proof.
  intros Hl. apply try_map_Forall2, Forall2_same_length_lookup_2.
  { unfold message_block, recorded_messages. rewrite length_zip_with, length_imap, length_zip_with.
    unfold message_values. rewrite length_imap. lia. }
  intros i ev m Hev Hm. unfold message_block in Hev. unfold recorded_messages in Hm.
  apply lookup_zip_with_Some in Hev as (e & v & -> & He & Hv).
  unfold message_values in Hv. rewrite list_lookup_imap in Hv. rewrite list_lookup_imap in Hm.
  destruct (messages !! i) as [x|] eqn:Hx; [|done]. injection Hv as <-.
  rewrite (proj2 (lookup_zip_with_Some pair messages es i (x, e))) in Hm by eauto.
  injection Hm as <-. unfold message_of. simpl. rewrite message_roundtrip. done.
Qed.

(** ** Filters on blocks *)

Lemma block_typed run_id first messages es t :
  Forall (fun e => ev_event_type e = MESSAGE_EVENT) es -> length messages = length es ->
  typed t (message_block run_id first messages es)
  = if String.eqb MESSAGE_EVENT t then message_block run_id first messages es else [].
Proof.
  intros He Hl. unfold typed. destruct (String.eqb MESSAGE_EVENT t) eqn:Ht; [apply filter_all|apply filter_none];
    apply Forall_fmap in He || idtac; rewrite <- (message_block_fst run_id first messages es Hl) in He;
    apply Forall_fmap in He; (eapply Forall_impl; [exact He|]); simpl; by intros [e v] ->.
Qed.
Lemma block_tool_turns run_id first messages es :
  Forall (fun e => ev_event_type e = MESSAGE_EVENT) es -> length messages = length es ->
  tool_turns (message_block run_id first messages es) = [].
Proof.
  intros He Hl. apply filter_none. rewrite <- (message_block_fst run_id first messages es Hl) in He.
  apply Forall_fmap in He. eapply Forall_impl; [exact He|]. intros [e v]. simpl.
  unfold is_tool_turn_event. by intros ->.
Qed.
Lemma typed_app t evs evs' : typed t (evs ++ evs') = (typed t evs ++ typed t evs')%list.
Proof. apply List.filter_app. Qed.
Lemma tool_turns_app evs evs' : tool_turns (evs ++ evs') = (tool_turns evs ++ tool_turns evs')%list.
Proof. apply List.filter_app. Qed.
Lemma typed_one t e v : typed t [(e, v)] = if String.eqb (ev_event_type e) t then [(e, v)] else [].
Proof. done. Qed.
Lemma tool_turns_one e v : tool_turns [(e, v)] = if is_tool_turn_event e then [(e, v)] else [].
Proof. done. Qed.

(** ** The readers on a trace *)

Lemma trace_messages_read id evs st :
  session_trace id evs st -> try_map (message_of id) (typed MESSAGE_EVENT evs) = Ok (se_messages st).
Proof.
  induction 1 as [e title He|evs st e title Ht IH He|evs st run_id messages es Ht IH Hp Hm He Hl
    |evs st e pending v Ht IH Hp He Hv Hn Hpv
    |evs st e pending v messages es Ht IH Hp Hm Htr Ho Hes Hl He Hpv];
    rewrite ?typed_app, ?typed_one, ?He, ?block_typed by done; simpl; rewrite ?app_nil_r; try done.
  - apply try_map_app; [done|]. by apply message_block_read.
  - apply try_map_app; [done|]. by apply message_block_read.
Qed.
Lemma trace_pending_valid id evs st p :
  session_trace id evs st -> se_pending st = Some p ->
  validate_pending_tool_turn p = Ok tt /\ (pt_turn p <= u16_max)%N.
Proof.
  induction 1 as [e title He|evs st e title Ht IH He|evs st run_id messages es Ht IH Hp Hm He Hl
    |evs st e pending v Ht IH Hp He Hv Hn Hpv
    |evs st e pending v messages es Ht IH Hp Hm Htr Ho Hes Hl He Hpv]; simpl; auto; try done.
  by intros [= <-].
Qed.
Lemma trace_pending_read id evs st :
  session_trace id evs st -> try_fold tool_turn_of (tool_turns evs) None = Ok (se_pending st).
Proof.
  induction 1 as [e title He|evs st e title Ht IH He|evs st run_id messages es Ht IH Hp Hm He Hl
    |evs st e pending v Ht IH Hp He Hv Hn Hpv
    |evs st e pending v messages es Ht IH Hp Hm Htr Ho Hes Hl He Hpv];
    rewrite ?tool_turns_app, ?tool_turns_one, ?block_tool_turns by done; unfold is_tool_turn_event;
    rewrite ?He, ?app_nil_r; simpl; rewrite ?app_nil_r; try done.
  - rewrite try_fold_app, IH. simpl. unfold tool_turn_of. cbn [fst snd].
    rewrite (pending_roundtrip _ _ Hn Hpv). cbn [map_err mbind result_bind]. rewrite Hv.
    cbn [map_err mbind result_bind]. by rewrite He, Hp.
  - rewrite try_fold_app, IH. simpl. unfold tool_turn_of. cbn [fst snd].
    destruct (trace_pending_valid _ _ _ _ Ht Hp) as [Hv Hn].
    rewrite (pending_roundtrip _ _ Hn Hpv). cbn [map_err mbind result_bind]. rewrite Hv.
    cbn [map_err mbind result_bind]. rewrite He, Hp. simpl. by rewrite bool_decide_true.
Qed.
Lemma trace_title_read id evs st :
  session_trace id evs st -> exists e title rest, evs = (e, title_payload title) :: rest /\
    ev_event_type e = SESSION_EVENT /\ ev_occurred_at e = se_created_at st /\
    try_fold title_of (typed TITLE_EVENT evs) title = Ok (se_title st).
Proof.
  induction 1 as [e title He|evs st e title Ht IH He|evs st run_id messages es Ht IH Hp Hm He Hl
    |evs st e pending v Ht IH Hp He Hv Hn Hpv
    |evs st e pending v messages es Ht IH Hp Hm Htr Ho Hes Hl He Hpv];
    [exists e, title, []; by rewrite typed_one, He|..];
    destruct IH as (e0 & title0 & rest & -> & He0 & Hc0 & Hr);
    (exists e0, title0; eexists; split; [done|]; split; [done|]; split; [done|]);
    rewrite ?typed_app, ?typed_one, ?He, ?block_typed by done;
    rewrite ?app_nil_r; try done.
  rewrite try_fold_app, Hr. done.
Qed.
Lemma trace_updated id evs st :
  session_trace id evs st -> ev_occurred_at <$> last evs.*1 = Some (se_updated_at st).
Proof.
  induction 1 as [e title He|evs st e title Ht IH He|evs st run_id messages es Ht IH Hp Hm He Hl
    |evs st e pending v Ht IH Hp He Hv Hn Hpv
    |evs st e pending v messages es Ht IH Hp Hm Htr Ho Hes Hl He Hpv];
    rewrite ?fmap_app; simpl; rewrite ?last_snoc, ?app_assoc, ?last_snoc; try done.
  rewrite message_block_fst, last_app by done. by destruct (last es).
Qed.
Lemma try_fold_map {E A B T} (f : A -> result E B) (g : T -> B -> T) l l' t :
  try_map f l = Ok l' -> try_fold (fun t a => b ← f a; Ok (g t b)) l t = Ok (foldl g t l').
Proof.
  revert l' t. induction l as [|a l IH]; intros l' t; simpl; [by intros [= <-]|].
  intros Hl. apply bind_Ok in Hl as (b & -> & Hl). apply bind_Ok in Hl as (bs & Hbs & [= <-]).
  cbn [mbind result_bind foldl]. by apply IH.
Qed.
Lemma trace_summary_read id evs st :
  session_trace id evs st ->
  try_fold (summary_of id) (typed MESSAGE_EVENT evs) (0%N, None, None)
  = Ok (foldl summarised (0%N, None, None) (se_messages st)).
Proof.
  intros Ht%trace_messages_read. rewrite <- (try_fold_map (message_of id) summarised _ _ _ Ht). done.
Qed.

(** ** The repository's readers *)

Section Port.
Context {J} `{EventJournalOk J}.

(** What is read of entries of the journal is what the entries hold. *)
Definition held_entries (j : J) (evs : history) : Prop :=
  forall ev, ev ∈ evs -> ej_decrypt_payload ev.1 j = (Ok ev.2, j).
Lemma op_fold_entries {L} (f : L -> EventEnvelope -> op J L) (g : L -> EventEnvelope * value -> result StoreError L)
    j evs x :
  (forall x ev, ev ∈ evs -> f x ev.1 j = (g x ev, j)) ->
  op_fold f evs.*1 x j = (try_fold g evs x, j).
Proof.
  revert x. induction evs as [|ev evs IH]; intros x Hf; [done|]. rewrite fmap_cons. cbn [op_fold try_fold].
  unfold op_bind. rewrite (Hf x ev) by left. destruct (g x ev) as [x'|]; [|done].
  apply IH. intros y ev' Hev'. apply Hf. by right.
Qed.
Lemma op_map_entries {B} (f : EventEnvelope -> op J B) (g : EventEnvelope * value -> result StoreError B) j evs :
  (forall ev, ev ∈ evs -> f ev.1 j = (g ev, j)) -> op_map f evs.*1 j = (try_map g evs, j).
Proof.
  induction evs as [|ev evs IH]; intros Hf; [done|]. rewrite fmap_cons. cbn [op_map try_map].
  unfold op_bind. rewrite (Hf ev) by left. destruct (g ev) as [b|]; [|done]. cbn [mbind result_bind].
  rewrite IH by (intros; apply Hf; by right). by destruct (try_map g evs).
Qed.
Lemma of_type_typed t (evs : history) : of_type t evs.*1 = (typed t evs).*1.
Proof. exact (filter_fst (fun e => String.eqb (ev_event_type e) t) evs). Qed.
Lemma filter_tool_turns (evs : history) : List.filter is_tool_turn_event evs.*1 = (tool_turns evs).*1.
Proof. exact (filter_fst is_tool_turn_event evs). Qed.

Context (j : J) (evs : history) (Hheld : held_entries j evs).
Lemma typed_held t ev : ev ∈ typed t evs -> ej_decrypt_payload ev.1 j = (Ok ev.2, j).
Proof. intros [Hin _]%filter_elem. by apply Hheld. Qed.
Lemma message_from_event_held id ev :
  ev ∈ evs -> message_from_event id ev.1 j = (message_of id ev, j).
Proof. intros Hin. unfold message_from_event, op_bind. by rewrite Hheld. Qed.

Lemma list_messages_entries id :
  op_map (message_from_event id) (of_type MESSAGE_EVENT evs.*1) j
  = (try_map (message_of id) (typed MESSAGE_EVENT evs), j).
Proof.
  rewrite of_type_typed. apply op_map_entries. intros ev [Hin _]%filter_elem.
  by apply message_from_event_held.
Qed.
Lemma pending_entries :
  pending_tool_turn_from_events evs.*1 j = (try_fold tool_turn_of (tool_turns evs) None, j).
Proof.
  unfold pending_tool_turn_from_events. rewrite filter_tool_turns. apply op_fold_entries.
  intros p ev [Hin _]%filter_elem. unfold tool_turn_step, op_bind. by rewrite Hheld.
Qed.
Lemma reconstruct_entries id e title rest :
  evs = (e, title_payload title) :: rest -> ev_event_type e = SESSION_EVENT ->
  reconstruct_summary id evs.*1 j
  = (title ← try_fold title_of (typed TITLE_EVENT evs) title;
     s ← try_fold (summary_of id) (typed MESSAGE_EVENT evs) (0%N, None, None);
     let '(n, run, user) := s in
     Ok (mkSessionSummary id title (ev_occurred_at e)
       (match last evs.*1 with Some e => ev_occurred_at e | None => ev_occurred_at e end) n run user), j).
Proof.
  intros Hevs He. unfold reconstruct_summary, op_bind at 1, op_lift.
  assert (created_event id evs.*1 = Ok e) as -> by (rewrite Hevs; simpl; by rewrite He).
  cbv beta iota. unfold op_bind at 1.
  assert (ej_decrypt_payload e j = (Ok (title_payload title), j)) as ->
    by (apply (Hheld (e, title_payload title)); rewrite Hevs; left).
  assert (get_str "title" (title_payload title) = title) as -> by (by destruct title).
  cbv beta iota. unfold op_bind at 1. rewrite of_type_typed.
  rewrite (op_fold_entries retitle title_of).
  2:{ intros x ev Hev. unfold retitle, op_bind, op_lift. rewrite (typed_held _ _ Hev). unfold title_of.
      by destruct (get_str "title" ev.2). }
  destruct (try_fold title_of _ _) as [t|]; [|done]. cbn [mbind result_bind].
  unfold op_bind at 1. rewrite of_type_typed.
  rewrite (op_fold_entries (summarise id) (summary_of id)).
  2:{ intros [[n run] user] ev [Hev _]%filter_elem. unfold summarise, op_bind.
      rewrite message_from_event_held by done. unfold summary_of. by destruct (message_of id ev). }
  by destruct (try_fold (summary_of id) _ _) as [[[n run] user]|].
Qed.
End Port.
End Reads.

(** * Sessions stay well formed

    [prepared h batch] is what an operation appends after it has read the history [h].
    Whatever was appended in between, a prepared batch either conflicts or continues the
    session it was read from: the journal's version check is what makes the operations
    safe to run against each other. *)

(** ** Streams of different kinds *)

Definition elsewhere (event : NewEvent) : Prop :=
  (forall id, ne_stream_id event <> session_stream id) /\
  (forall id, ne_stream_id event <> lifecycle_stream id).
Lemma session_stream_inj id id' : session_stream id = session_stream id' -> id = id'.
Proof. apply append_inj. Qed.
Lemma lifecycle_stream_inj id id' : lifecycle_stream id = lifecycle_stream id' -> id = id'.
Proof. apply append_inj. Qed.
Lemma session_not_lifecycle id id' : session_stream id <> lifecycle_stream id'.
Proof. done. Qed.
Lemma foreign_elsewhere event : foreign event -> elsewhere event.
Proof.
  intros [Hs Hl]. split; intros id Heq; rewrite Heq in *.
  - assert (starts_with (session_stream id) "session:" = true) as Ht
      by (apply starts_with_spec; by exists id). congruence.
  - assert (starts_with (lifecycle_stream id) "session-lifecycle:" = true) as Ht
      by (apply starts_with_spec; by exists id). congruence.
Qed.
Lemma title_elsewhere id version actor context v :
  elsewhere (session_event (title_stream id) version TITLE_INDEX_EVENT actor context v).
Proof. by split. Qed.

Section Prepared.
Context `{SessionCodec} `{!SessionCodecOk}.

(** Nothing of a batch elsewhere touches a session. *)
Lemma elsewhere_ok (h : history) events es :
  sessions_ok h -> Forall2 recorded_as events es -> Forall elsewhere events ->
  sessions_ok (h ++ entries events es).
Proof.
  intros Hok Hr He id. rewrite !stream_entries_app, !(entries_off _ events es Hr), !app_nil_r.
  - apply Hok.
  - eapply Forall_impl; [exact He|]. by intros event [_ Hl].
  - eapply Forall_impl; [exact He|]. by intros event [Hs _].
Qed.

Section Extend.
Context (inputs : Inputs) (h g : history) (Hc : chain h.*1) (Hok : sessions_ok (h ++ g)).

Lemma extend_session id event own add es :
  batch_committed (h ++ g) inputs ((event :: own) ++ add) es ->
  Forall (fun event => ne_stream_id event = session_stream id) (event :: own) ->
  Forall elsewhere add ->
  ne_expected_stream_version event = version_of (session_stream id) h.*1 ->
  (forall es1, Forall2 recorded_as (event :: own) es1 -> exists st,
     session_trace id (stream_entries (session_stream id) h ++ entries (event :: own) es1) st) ->
  sessions_ok ((h ++ g) ++ entries ((event :: own) ++ add) es).
Proof.
  intros Hb Hown Hadd Hv Htrace. pose proof Hb as [Hr _]. apply recorded_all in Hr.
  assert (stream_entries (session_stream id) (h ++ g) = stream_entries (session_stream id) h) as Hsame.
  { apply Forall_cons in Hown as [Hown _].
    by apply (unmoved_stream inputs (session_stream id) h g event (own ++ add) es Hc Hb). }
  intros id'. split.
  - destruct (decide (id' = id)) as [->|Hne].
    + right. destruct (entries_split (session_stream id) (event :: own) add es Hr Hown)
        as (es1 & es2 & _ & H1 & Heq).
      { eapply Forall_impl; [exact Hadd|]. intros ev [Hs _]. apply Hs. }
      rewrite stream_entries_app, Hsame, Heq. by apply Htrace.
    + rewrite stream_entries_app, (entries_off _ ((event :: own) ++ add) es Hr), app_nil_r; [apply Hok|].
      apply Forall_app. split.
      * eapply Forall_impl; [exact Hown|]. intros ev -> Heq. by apply session_stream_inj in Heq.
      * eapply Forall_impl; [exact Hadd|]. intros ev [Hs _]. apply Hs.
  - rewrite stream_entries_app, (entries_off _ ((event :: own) ++ add) es Hr), app_nil_r; [apply Hok|].
    apply Forall_app. split.
    + eapply Forall_impl; [exact Hown|]. by intros ev ->.
    + eapply Forall_impl; [exact Hadd|]. intros ev [_ Hs]. apply Hs.
Qed.

Lemma extend_lifecycle id event es :
  batch_committed (h ++ g) inputs [event] es -> ne_stream_id event = lifecycle_stream id ->
  ne_expected_stream_version event = version_of (lifecycle_stream id) h.*1 ->
  (forall es1, Forall2 recorded_as [event] es1 -> exists archived,
     lifecycle_trace id (stream_entries (lifecycle_stream id) h ++ entries [event] es1) archived) ->
  sessions_ok ((h ++ g) ++ entries [event] es).
Proof.
  intros Hb Hs Hv Htrace. pose proof Hb as [Hr _]. apply recorded_all in Hr.
  pose proof (unmoved_stream inputs _ h g event [] es Hc Hb Hs Hv) as Hsame.
  intros id'. rewrite !(stream_entries_app _ (h ++ g)%list). split.
  - rewrite (entries_off (session_stream id') [event] es Hr), app_nil_r; [apply Hok|].
    apply Forall_singleton. by rewrite Hs.
  - destruct (decide (id' = id)) as [->|Hne].
    + rewrite Hsame, (entries_on _ [event] es Hr) by (by apply Forall_singleton). by apply Htrace.
    + rewrite (entries_off (lifecycle_stream id') [event] es Hr), app_nil_r; [apply Hok|].
      apply Forall_singleton. rewrite Hs. intros Heq. by apply lifecycle_stream_inj in Heq.
Qed.
End Extend.

(** ** Blocks of messages *)

Lemma message_events_payload id run_id first version messages :
  ne_payload <$> message_events id run_id first version messages
  = message_values run_id first (batch_messages messages).
Proof.
  apply list_eq. intros i. unfold message_events, message_values, batch_messages.
  rewrite list_lookup_fmap, !list_lookup_imap, list_lookup_fmap. by destruct (messages !! i).
Qed.
Lemma message_events_length id run_id first version messages :
  length (message_events id run_id first version messages) = length messages.
Proof. apply length_imap. Qed.
Lemma message_events_Forall (P : NewEvent -> Prop) id run_id first version messages :
  (forall i m, P (session_event (session_stream id) (saturating_add version (N.of_nat i)) MESSAGE_EVENT
     (sa_actor m) (session_context run_id id (Some run_id))
     (message_payload run_id (saturating_add first (N.of_nat i)) (sa_message m)))) ->
  Forall P (message_events id run_id first version messages).
Proof.
  intros HP. apply Forall_lookup. intros i event Hi. unfold message_events in Hi.
  rewrite list_lookup_imap in Hi. destruct (messages !! i) as [m|]; [|done]. injection Hi as <-. apply HP.
Qed.
Lemma message_events_cons id run_id first version m messages :
  exists event events, message_events id run_id first version (m :: messages) = event :: events /\
    ne_expected_stream_version event = saturating_add version 0 /\ ne_stream_id event = session_stream id.
Proof. by eexists _, _. Qed.
Lemma message_entries id run_id first version messages es :
  Forall2 recorded_as (message_events id run_id first version messages) es ->
  entries (message_events id run_id first version messages) es
    = message_block run_id first (batch_messages messages) (durable_envelope <$> es) /\
  Forall (fun e => ev_event_type e = MESSAGE_EVENT) (durable_envelope <$> es) /\
  length (batch_messages messages) = length (durable_envelope <$> es).
Proof.
  intros Hr. pose proof (Forall2_length _ _ _ Hr) as Hl. rewrite message_events_length in Hl.
  split_and!.
  - unfold entries, message_block. by rewrite message_events_payload.
  - apply (recorded_types MESSAGE_EVENT _ _ Hr). by apply message_events_Forall.
  - unfold batch_messages. rewrite !length_fmap. done.
Qed.

Lemma saturating_0 n : (n <= u64_max)%N -> saturating_add n 0 = n.
Proof. unfold saturating_add. lia. Qed.

(** ** The central lemma *)

(** A prepared batch that is committed, however much later, keeps every session well
    formed. *)
Lemma prepared_ok inputs h g batch es :
  chain h.*1 -> (count h < u64_max)%N -> prepared h batch -> sessions_ok (h ++ g) ->
  batch_committed (h ++ g) inputs batch es ->
  sessions_ok ((h ++ g) ++ entries batch es).
Proof.
  intros Hc Hmax Hp Hok Hb.
  assert (forall s, version_of s h.*1 <= u64_max)%N as Hver.
  { intros s. pose proof (version_of_le s h.*1) as Hle. unfold count in *. rewrite length_fmap in Hle. lia. }
  destruct Hp as [id title actor Hid|id st title actor iv Ht|id st run_id messages add Ht Hpn Hne Hm Hadd
    |id st pending v actor add Ht Hpn Hv Hn Hpv Hadd
    |id st pending v actor messages add Ht Hps Hm Htr Ho Hpv Hadd|id archived v actor Ht Hv|events Hf].
  - assert (stream_entries (session_stream id) (h ++ g) = []) as Hempty.
    { destruct Hb as [_ Hn]. apply no_conflict_head in Hn. cbn in Hn.
      rewrite <- stream_entries_length in Hn. unfold count in Hn.
      by destruct (stream_entries _ (h ++ g)). }
    rewrite stream_entries_app in Hempty. apply app_nil in Hempty as [Hempty _].
    apply (extend_session inputs h g Hc Hok id _ [] []);
      [done|by apply Forall_singleton|constructor| |].
    + by rewrite <- stream_entries_length, Hempty.
    + intros es1 (e & -> & _ & Ht & ->)%recorded_one. rewrite Hempty. eexists. by apply trace_created.
  - apply (extend_session inputs h g Hc Hok id _ [] [_]); [done|by apply Forall_singleton| | |].
    + apply Forall_singleton, title_elsewhere.
    + by apply stream_head_version.
    + intros es1 (e & -> & _ & He & ->)%recorded_one. eexists. by eapply trace_title.
  - destruct messages as [|m messages]; [done|].
    destruct (message_events_cons id run_id (next_message st)
      (stream_head (stream_entries (session_stream id) h).*1) m messages) as (event & own & Heq & Hexp & Hs).
    rewrite Heq in Hb |- *. apply (extend_session inputs h g Hc Hok id); [done| | | |].
    + rewrite <- Heq. by apply message_events_Forall.
    + eapply Forall_impl; [exact Hadd|]. apply foreign_elsewhere.
    + rewrite Hexp, stream_head_version, saturating_0; done.
    + intros es1. rewrite <- Heq. intros (-> & Htypes & Hlen)%message_entries. eexists.
      by apply trace_messages.
  - apply (extend_session inputs h g Hc Hok id _ [] add); [done|by apply Forall_singleton| | |].
    + eapply Forall_impl; [exact Hadd|]. apply foreign_elsewhere.
    + by apply stream_head_version.
    + intros es1 (e & -> & _ & He & ->)%recorded_one. eexists. by eapply trace_begin.
  - destruct messages as [|m messages].
    { destruct (trace_pending_valid _ _ _ _ Ht Hps) as [Hv _]. unfold validate_pending_tool_turn in Hv.
      apply reject_Ok in Hv. cbn in Ho. rewrite <- Ho in Hv. by rewrite !orb_true_r in Hv. }
    set (completion := session_event _ (saturating_add _ (count (m :: messages))) _ _ _ v) in *.
    destruct (message_events_cons id (pt_run_id pending) (next_message st)
      (stream_head (stream_entries (session_stream id) h).*1) m messages) as (event & own & Heq & Hexp & Hs).
    assert ((message_events id (pt_run_id pending) (next_message st)
      (stream_head (stream_entries (session_stream id) h).*1) (m :: messages) ++ [completion])%list
      = event :: (own ++ [completion])) as Hown by (by rewrite Heq).
    rewrite Hown in Hb |- *. apply (extend_session inputs h g Hc Hok id); [done| | | |].
    + rewrite <- Hown. apply Forall_app. split; [by apply message_events_Forall|by apply Forall_singleton].
    + eapply Forall_impl; [exact Hadd|]. apply foreign_elsewhere.
    + rewrite Hexp, stream_head_version, saturating_0; done.
    + intros es1. rewrite <- Hown. intros Hr. pose proof Hr as Hsplit.
      apply Forall2_app_inv_l in Hsplit as (es2 & es3 & Hr2 & Hr3 & ->).
      apply message_entries in Hr2 as Hblock. destruct Hblock as (Hblock & Htypes & Hlen).
      apply recorded_one in Hr3 as (e & -> & _ & He & Hone).
      assert (entries (message_events id (pt_run_id pending) (next_message st)
        (stream_head (stream_entries (session_stream id) h).*1) (m :: messages) ++ [completion]) (es2 ++ [e])
        = (message_block (pt_run_id pending) (next_message st) (batch_messages (m :: messages))
            (durable_envelope <$> es2) ++ [(durable_envelope e, v)])%list) as ->.
      { rewrite entries_concat by (by eapply Forall2_length). by rewrite Hblock, Hone. }
      eexists. by eapply trace_complete.
  - apply (extend_lifecycle inputs h g Hc Hok id); [done|done| |].
    + by rewrite <- stream_entries_length.
    + intros es1 (e & -> & [stamp Hrec] & He & ->)%recorded_one. eexists.
      apply trace_flip; [done|done| | |done].
      * exact (rec_event_version _ _ Hrec).
      * pose proof (rec_context _ _ Hrec) as Hctx. cbn in Hctx |- *. by rewrite Hctx.
  - apply elsewhere_ok; [done|by eapply recorded_all, Hb|]. eapply Forall_impl; [exact Hf|].
    apply foreign_elsewhere.
Qed.
End Prepared.
