(* ===== verification/SessionOps.v ===== *)
(** * The session repository, operation by operation

    Each operation of [Session] on a journal whose sessions are well formed: what it reads
    is the session's state, and what it appends is a prepared batch. *)

From S2P Require Import Prelude Json Contracts Boundary Platform JournalStore Journal Store.
From S2P Require Import JournalModel JournalAppend ProjectionCorrect ProjectionView StoreSpec SessionContracts.
From S2P Require Import ProjectionHandlers Session SessionModel StoreCorrect SessionCorrect.

Open Scope string_scope.
Open Scope op_scope.

Section Ops.
Context `{SessionCodec} `{!SessionCodecOk} {J} `{EventJournalOk J}.

(** A message that can be recorded: one level below the payload's limit. *)
Definition message_fit (m : ModelMessage) : Prop :=
  json_depth (message_to_value m) < MAX_PARSED_DEPTH /\ exact_json (message_to_value m) = true.

Section Reading.
Context (j : J) (h : history) (Hh : holds j h) (Hmax : (count h + 1 < u64_max)%N).
Context (id : string).
Abbreviation evs := (stream_entries (session_stream id) h).

Lemma stream_held s : held_entries j (stream_entries s h).
Proof. intros [e v] [Hin _]%filter_elem. by eapply ej_decrypt_payload_ok. Qed.
Lemma stream_read : ej_read_stream (session_stream id) j = (Ok evs.*1, j).
Proof. by apply ej_read_stream_ok. Qed.
Lemma session_bound st : session_trace id evs st -> (count (se_messages st) <= count h)%N.
Proof.
  intros Ht%trace_messages_read%try_map_length.
  unfold count. rewrite Ht.
  unfold typed, stream_entries. pose proof (filter_length_le (fun ev : EventEnvelope * value => String.eqb (ev_event_type ev.1) MESSAGE_EVENT)
    (List.filter (fun ev => String.eqb (ev_stream_id ev.1) (session_stream id)) h)).
  pose proof (filter_length_le (fun ev : EventEnvelope * value => String.eqb (ev_stream_id ev.1) (session_stream id)) h). lia.
Qed.

Lemma existing_trace st : session_trace id evs st -> existing_session id evs.*1 = Ok tt.
Proof.
  intros Ht. destruct (trace_title_read _ _ _ Ht) as (e & title & rest & -> & He & _).
  unfold existing_session. simpl. by rewrite He.
Qed.
Lemma pending_read st :
  session_trace id evs st -> pending_tool_turn_from_events evs.*1 j = (Ok (se_pending st), j).
Proof.
  intros Ht. rewrite (pending_entries j evs (stream_held _)). by rewrite (trace_pending_read _ _ _ Ht).
Qed.
Lemma next_sequence_read st : session_trace id evs st -> next_sequence evs.*1 = next_message st.
Proof.
  intros Ht%trace_messages_read%try_map_length. unfold next_sequence, next_message.
  rewrite of_type_typed. unfold count. by rewrite length_fmap, Ht.
Qed.

(** The readers of the repository. *)
Lemma list_messages_ok st :
  validate_session_id id = Ok tt -> session_trace id evs st ->
  list_messages id j = (Ok (se_messages st), j).
Proof.
  intros Hv Ht. unfold list_messages. rewrite op_bind_lift, Hv, (op_bind_run _ _ _ _ _ stream_read).
  rewrite op_bind_lift, bool_decide_false.
  - cbn [reject]. rewrite (list_messages_entries j evs (stream_held _)).
    by rewrite (trace_messages_read _ _ _ Ht).
  - by destruct (trace_title_read _ _ _ Ht) as (e & title & rest & -> & _).
Qed.
Lemma pending_tool_turn_ok st :
  validate_session_id id = Ok tt -> session_trace id evs st ->
  pending_tool_turn id j = (Ok (se_pending st), j).
Proof.
  intros Hv Ht. unfold pending_tool_turn. rewrite op_bind_lift, Hv, (op_bind_run _ _ _ _ _ stream_read).
  by rewrite op_bind_lift, (existing_trace st Ht), (pending_read st Ht).
Qed.
Lemma get_session_ok st :
  validate_session_id id = Ok tt -> session_trace id evs st ->
  get_session id j = (Ok (Some (session_summary id st)), j).
Proof.
  intros Hv Ht. unfold get_session. rewrite op_bind_lift, Hv, (op_bind_run _ _ _ _ _ stream_read).
  pose proof (trace_updated _ _ _ Ht) as Hu.
  destruct (trace_title_read _ _ _ Ht) as (e & title & rest & Hevs & He & Hc & Htitle).
  rewrite bool_decide_false by (by rewrite Hevs).
  pose proof (reconstruct_entries j evs (stream_held _) id e title rest Hevs He) as Hr.
  rewrite Htitle, (trace_summary_read _ _ _ Ht) in Hr. cbn [mbind result_bind] in Hr.
  unfold session_summary.
  destruct (foldl summarised (0%N, None, None) (se_messages st)) as [[n run] user].
  rewrite (op_bind_run _ _ _ _ _ Hr). unfold op_ret. repeat f_equal; [done|].
  destruct (last evs.*1); [|done]. by injection Hu.
Qed.
Lemma no_session :
  validate_session_id id = Ok tt -> evs = [] ->
  get_session id j = (Ok None, j) /\ list_messages id j = (Err (NotFound ("session " ++s id)), j) /\
  pending_tool_turn id j = (Err (NotFound ("session " ++s id)), j).
Proof.
  intros Hv He. pose proof stream_read as Hread. rewrite He in Hread.
  unfold get_session, list_messages, pending_tool_turn. rewrite !op_bind_lift, Hv.
  by rewrite !(op_bind_run _ _ _ _ _ Hread).
Qed.

(** ** Archiving *)

Lemma newest_read s :
  ej_read_stream_backwards s None 1 j
  = (Ok (match last (stream_entries s h).*1 with Some e => [e] | None => [] end), j).
Proof.
  rewrite (ej_read_stream_backwards_ok j h) by done. do 2 f_equal. change (N.to_nat (N.min 1 _)) with 1.
  destruct (last (stream_entries s h).*1) as [e|] eqn:Hl.
  - apply last_Some in Hl as [front ->]. by rewrite rev_app_distr.
  - by apply last_None in Hl as ->.
Qed.
Lemma last_version_read s :
  last_version s j = (Ok (stream_head (stream_entries s h).*1), j).
Proof.
  unfold last_version. rewrite (op_bind_run _ _ _ _ _ (newest_read s)). unfold stream_head, op_ret.
  by destruct (last _).
Qed.
Lemma oldest_read s :
  ej_read_stream_from s 0 1 j
  = (Ok (match (stream_entries s h).*1 with e :: _ => [e] | [] => [] end), j).
Proof.
  rewrite (ej_read_stream_from_ok j h) by done. by destruct (stream_entries s h).*1 as [|? []].
Qed.

Abbreviation levs := (stream_entries (lifecycle_stream id) h).
Lemma lifecycle_read archived :
  lifecycle_trace id levs archived ->
  lifecycle_for_existing id j = (Ok (mkSessionLifecycle id archived (count levs)), j).
Proof.
  intros Ht. unfold lifecycle_for_existing. rewrite (op_bind_run _ _ _ _ _ (newest_read _)).
  inversion Ht as [Hnil|evs archived' e v Hevs He Hev Hctx Hv Heq]; subst; [done|].
  assert ((e, v) ∈ levs) as Hin by (rewrite <- Heq; apply elem_of_app; right; left).
  assert (ev_stream_version e = count levs) as Hversion.
  { destruct (chain_stream_lookup (lifecycle_stream id) h.*1 (length evs) e) as [_ ->].
    - by eapply holds_chain.
    - rewrite <- stream_entries_fst, <- Heq, fmap_app, lookup_app_r by (by rewrite length_fmap).
      by rewrite length_fmap, Nat.sub_diag.
    - rewrite <- Heq, count_snoc. unfold count. lia. }
  assert (count levs <= u64_max)%N as Hle.
  { rewrite stream_entries_length. pose proof (version_of_le (lifecycle_stream id) h.*1) as Hle.
    unfold count in *. rewrite length_fmap in Hle. lia. }
  assert (count evs + 1 = count levs)%N as Hcount by (by rewrite <- Heq, count_snoc).
  rewrite Hcount in Hv. rewrite fmap_app. change [(e, v)].*1 with [e].
  rewrite last_snoc, Heq. cbn [head].
  rewrite op_bind_lift, He.
  pose proof (stream_held _ (e, v) Hin) as Hd. cbn [fst snd] in Hd.
  destruct archived'; simpl; rewrite (op_bind_run _ _ _ _ _ Hd); unfold op_lift;
    rewrite (lifecycle_roundtrip (mkSessionLifecycle id _ (count levs)) v Hle Hv); cbn [map_err mbind result_bind sl_session_id sl_archived sl_revision];
    rewrite Hev, (bool_decide_true _ Hctx), String.eqb_refl, Hversion, !N.eqb_refl; done.
Qed.
Lemma read_lifecycle_ok st archived :
  validate_session_id id = Ok tt -> session_trace id evs st -> lifecycle_trace id levs archived ->
  read_lifecycle id j = (Ok (Some (mkSessionLifecycle id archived (count levs))), j).
Proof.
  intros Hv Ht Hl. unfold read_lifecycle. rewrite op_bind_lift, Hv, (op_bind_run _ _ _ _ _ (oldest_read _)).
  destruct (trace_title_read _ _ _ Ht) as (e & title & rest & -> & He & _). cbn [fmap list_fmap head fst].
  rewrite op_bind_lift, He. cbn [String.eqb negb reject]. simpl.
  by rewrite (op_bind_run _ _ _ _ _ (lifecycle_read archived Hl)).
Qed.
End Reading.

(** ** Writers *)

Section Writing.
Context (j : J) (h : history) (Hh : holds j h) (Hmax : (count h + 1 < u64_max)%N) (Hok : sessions_ok h).
Context (inputs : Inputs).
Abbreviation evs id := (stream_entries (session_stream id) h).

(** The end of an operation that appends [batch] and answers with [k]. *)
Definition appends {A} (batch : list NewEvent) (k : list EventEnvelope -> A)
    (x : result StoreError A * J) : Prop :=
  let '(r, j') := ej_append_batch inputs batch j in
  x = (match r with Ok es => Ok (k es) | Err e => Err e end, j').

(** A session's stream is empty or holds a conversation. *)
Lemma session_cases id :
  evs id = [] \/ exists st, session_trace id (evs id) st.
Proof. apply (Hok id). Qed.
Lemma absent_session id : evs id = [] -> existing_session id (evs id).*1 = Err (NotFound ("session " ++s id)).
Proof. by intros ->. Qed.

Lemma message_recordable id run_id first version messages :
  Forall (fun m => message_fit (sa_message m)) messages -> (first + count messages <= u64_max)%N ->
  Forall recordable (message_events id run_id first version messages).
Proof.
  intros Hf Hle. apply Forall_lookup. intros i event Hi. unfold message_events in Hi.
  rewrite list_lookup_imap in Hi. destruct (messages !! i) as [m|] eqn:Hm; [|done]. injection Hi as <-.
  rewrite Forall_lookup in Hf. destruct (Hf _ _ Hm) as [Hd Hx].
  split; cbn [session_event ne_payload message_payload].
  - unfold parseable. simpl. unfold MAX_PARSED_DEPTH in *. lia.
  - simpl. rewrite Hx. simpl. apply andb_true_iff. split; [|done]. apply N.leb_le. unfold saturating_add. lia.
Qed.

Lemma append_messages_cases id run_id messages additional :
  Forall (fun m => message_fit (sa_message m)) messages -> Forall recordable additional ->
  inputs_ok inputs -> (count h + count messages + count additional + 1 < u64_max)%N ->
  (exists r, append_messages_with_events inputs id run_id messages additional j = (r, j) /\
     (r = Ok [] /\ messages = [] \/ exists e, r = Err e)) \/
  exists st,
    let batch := (message_events id run_id (next_message st) (stream_head (evs id).*1) messages ++ additional)%list in
    validate_session_id id = Ok tt /\ session_trace id (evs id) st /\ se_pending st = None /\ messages <> [] /\
    Forall (fun m => validate_message m = Ok tt) (batch_messages messages) /\
    Forall recordable batch /\ (count h + count batch + 1 < u64_max)%N /\
    appends batch (appended_messages id run_id (next_message st) messages)
      (append_messages_with_events inputs id run_id messages additional j).
Proof.
  intros Hfit Hadd Hin Hle.
  remember (append_messages_with_events inputs id run_id messages additional j) as x eqn:Hx.
  unfold append_messages_with_events in Hx.
  op_check Hx Hv. op_check Hx Hrun. op_check Hx Hm.
  destruct (Nat.eqb_spec (length messages) 0) as [Hz|Hne].
  { left. eexists. split; [done|]. left. split; [done|]. by apply nil_length_inv. }
  rewrite (op_bind_run _ _ _ _ _ (stream_read j h Hh Hmax id)) in Hx.
  destruct (session_cases id) as [He|[st Ht]]; [rewrite op_bind_lift, (absent_session _ He) in Hx; left; eauto|].
  rewrite op_bind_lift, (existing_trace h id st Ht), (op_bind_run _ _ _ _ _ (pending_read j h Hh id st Ht)) in Hx.
  op_check Hx Hp. destruct (se_pending st) as [p|] eqn:Hpend; [done|].
  right. exists st. rewrite (next_sequence_read h id st Ht) in Hx.
  set (batch := (_ ++ additional)%list) in Hx |- *.
  assert (count batch = count messages + count additional)%N as Hcount.
  { unfold batch, count. rewrite length_app, message_events_length. lia. }
  assert (Forall recordable batch) as Hrec.
  { apply Forall_app. split; [|done]. apply message_recordable; [done|].
    pose proof (session_bound h Hmax id st Ht). unfold next_message, saturating_add. lia. }
  split_and!; try done; [by intros ->| |lia|].
  - apply Forall_fmap. by apply (proj1 (try_for_each_Ok _ _) Hm).
  - unfold appends. rewrite Hx. unfold op_bind at 1.
    pose proof (ej_append_batch_ok j h inputs batch Hh Hrec Hin ltac:(lia)) as Ha.
    destruct (ej_append_batch inputs batch j) as [[es|e] j']; [|done]. destruct Ha as [Hb _].
    rewrite op_bind_lift. apply committed_length in Hb. unfold batch in Hb.
    rewrite length_app, message_events_length in Hb. by rewrite Hb, Nat.eqb_refl.
Qed.

(** One event on the session's stream and what the caller adds. *)
Lemma begin_tool_turn_cases id pending actor additional :
  (pt_turn pending <= u16_max)%N -> Forall recordable additional ->
  (exists e, begin_tool_turn_with_events inputs id pending actor additional j = (Err e, j)) \/
  exists st v,
    let batch := session_event (session_stream id) (stream_head (evs id).*1) TOOL_TURN_PENDING_EVENT actor
       (session_context (pt_run_id pending) id (Some (pt_run_id pending))) v :: additional in
    validate_session_id id = Ok tt /\ validate_pending_tool_turn pending = Ok tt /\
    session_trace id (evs id) st /\ se_pending st = None /\ pending_to_value pending = Ok v /\
    Forall recordable batch /\
    appends batch (fun _ => tt) (begin_tool_turn_with_events inputs id pending actor additional j).
Proof.
  intros Hturn Hadd. remember (begin_tool_turn_with_events inputs id pending actor additional j) as x eqn:Hx.
  unfold begin_tool_turn_with_events in Hx. op_check Hx Hv. op_check Hx Hp.
  rewrite (op_bind_run _ _ _ _ _ (stream_read j h Hh Hmax id)) in Hx.
  destruct (session_cases id) as [He|[st Ht]]; [rewrite op_bind_lift, (absent_session _ He) in Hx; left; eauto|].
  rewrite op_bind_lift, (existing_trace h id st Ht), (op_bind_run _ _ _ _ _ (pending_read j h Hh id st Ht)) in Hx.
  op_check Hx Hc. destruct (se_pending st) as [p|] eqn:Hpend; [done|].
  rewrite op_bind_lift in Hx. destruct (pending_to_value pending) as [v|e] eqn:Hpv; [|left; simpl in Hx; eauto].
  right. exists st, v. cbn zeta. destruct (pending_storable _ _ Hpv) as [Hdeep Hexact].
  split_and!; [done|done|done|done|done|by constructor|]. rewrite Hx. unfold appends, op_bind.
  cbn [map_err]. by destruct (ej_append_batch inputs _ j) as [[es|e] j'].
Qed.

Lemma complete_tool_turn_cases id pending messages actor additional :
  Forall (fun m => message_fit (sa_message m)) messages -> Forall recordable additional ->
  inputs_ok inputs -> (count h + count messages + count additional + 2 < u64_max)%N ->
  (exists e, complete_tool_turn_with_events inputs id pending messages actor additional j = (Err e, j)) \/
  exists st v,
    let batch := ((message_events id (pt_run_id pending) (next_message st) (stream_head (evs id).*1) messages ++
      [session_event (session_stream id) (saturating_add (stream_head (evs id).*1) (count messages))
        TOOL_TURN_COMPLETED_EVENT actor
        (session_context (pt_run_id pending) id (Some (pt_run_id pending))) v]) ++ additional)%list in
    validate_session_id id = Ok tt /\ session_trace id (evs id) st /\ se_pending st = Some pending /\
    Forall (fun m => validate_message m = Ok tt) (batch_messages messages) /\
    validate_model_transcript (batch_messages messages) = Ok tt /\
    opening_calls (batch_messages messages) = pt_call_ids pending /\ pending_to_value pending = Ok v /\
    Forall recordable batch /\ (count h + count batch + 1 < u64_max)%N /\
    appends batch (appended_messages id (pt_run_id pending) (next_message st) messages)
      (complete_tool_turn_with_events inputs id pending messages actor additional j).
Proof.
  intros Hfit Hadd Hin Hle.
  remember (complete_tool_turn_with_events inputs id pending messages actor additional j) as x eqn:Hx.
  unfold complete_tool_turn_with_events in Hx. op_check Hx Hv. op_check Hx Hvp. op_check Hx Hm.
  op_check Hx Htr. op_check Hx Hopen.
  rewrite (op_bind_run _ _ _ _ _ (stream_read j h Hh Hmax id)) in Hx.
  destruct (session_cases id) as [He|[st Ht]]; [rewrite op_bind_lift, (absent_session _ He) in Hx; left; eauto|].
  rewrite op_bind_lift, (existing_trace h id st Ht), (op_bind_run _ _ _ _ _ (pending_read j h Hh id st Ht)) in Hx.
  op_check Hx Hc. rewrite op_bind_lift in Hx.
  destruct (pending_to_value pending) as [v|e] eqn:Hpv; [|left; simpl in Hx; eauto]. cbn [map_err] in Hx.
  rewrite (next_sequence_read h id st Ht) in Hx. right. exists st, v.
  set (batch := (_ ++ additional)%list) in Hx |- *. cbn zeta. destruct (pending_storable _ _ Hpv) as [Hdeep Hexact].
  assert (count batch = count messages + 1 + count additional)%N as Hcount.
  { unfold batch, count. rewrite !length_app, message_events_length. simpl. lia. }
  assert (Forall recordable batch) as Hrec.
  { apply Forall_app. split; [|done]. apply Forall_app. split; [|by apply Forall_singleton].
    apply message_recordable; [done|].
    pose proof (session_bound h Hmax id st Ht). unfold next_message, saturating_add. lia. }
  apply reject_Ok, negb_false_iff, bool_decide_eq_true in Hopen.
  apply reject_Ok, negb_false_iff, bool_decide_eq_true in Hc.
  split_and!; try done; [| |lia|].
  - apply Forall_fmap. by apply (proj1 (try_for_each_Ok _ _) Hm).
  - apply map_err_Ok in Htr. exact Htr.
  - unfold appends. rewrite Hx. unfold op_bind at 1.
    pose proof (ej_append_batch_ok j h inputs batch Hh Hrec Hin ltac:(lia)) as Ha.
    destruct (ej_append_batch inputs batch j) as [[es|e] j']; [|done]. destruct Ha as [Hb _].
    pose proof Hb as [Hr _]. apply recorded_all in Hr. apply committed_length in Hb.
    assert (batch !! length messages = Some (session_event (session_stream id)
      (saturating_add (stream_head (evs id).*1) (count messages)) TOOL_TURN_COMPLETED_EVENT actor
        (session_context (pt_run_id pending) id (Some (pt_run_id pending))) v)) as Hl.
    { unfold batch. rewrite <- app_assoc, lookup_app_r by (by rewrite message_events_length).
      by rewrite message_events_length, Nat.sub_diag. }
    destruct (Forall2_lookup_l _ _ _ _ _ Hr Hl) as (c & Hlc & Hcr).
    rewrite op_bind_lift, Hlc. cbn [ok_or]. rewrite op_bind_lift.
    apply recorded_type in Hcr. cbn in Hcr. rewrite Hcr, String.eqb_refl. cbn [negb orb].
    unfold batch in Hb. rewrite length_app in Hb. by rewrite Hb, Nat.eqb_refl.
Qed.

Lemma title_recordable s version event_type actor context title :
  recordable (session_event s version event_type actor context (title_payload title)).
Proof. clear. split; [unfold parseable, MAX_PARSED_DEPTH|]; destruct title; simpl; (done || lia). Qed.

Definition batch_answer (batch : list NewEvent) (x : J) : Prop :=
  x = (ej_append_batch inputs batch j).2.

Lemma create_session_cases id title actor :
  inputs_ok inputs -> (count h + 2 < u64_max)%N ->
  (exists e, create_session inputs id title actor j = (Err e, j)) \/
  exists title', let batch := [session_event (session_stream id) 0 SESSION_EVENT actor
      (session_context id id None) (title_payload title')] in
    validate_session_id id = Ok tt /\ Forall recordable batch /\
    batch_answer batch (create_session inputs id title actor j).2 /\
    forall summary, (create_session inputs id title actor j).1 = Ok summary -> exists e,
      (ej_append_batch inputs batch j).1 = Ok [e] /\
      summary = mkSessionSummary id title' (ev_occurred_at e) (ev_occurred_at e) 0 None None.
Proof.
  intros Hin Hle. remember (create_session inputs id title actor j) as x eqn:Hx.
  unfold create_session in Hx. op_check Hx Hv.
  set (title' := match trim <$> title with Some t => _ | None => _ end) in Hx. op_check Hx Ht.
  right. exists title'. cbn zeta. set (event := session_event _ _ _ _ _ _) in Hx |- *.
  assert (recordable event) as Hrec by apply title_recordable.
  rewrite append_one in Hx. subst x. unfold batch_answer.
  pose proof (one_event j h Hh inputs event Hrec Hin Hle) as Hone.
  destruct (ej_append_batch inputs [event] j) as [r j'].
  split_and!; [done|by apply Forall_singleton| |].
  { destruct r as [es|]; [|done]. by destruct (last es). }
  intros summary Hs. destruct r as [es|e]; [|done]. destruct (Hone es eq_refl) as [e ->].
  exists e. split; [done|]. by injection Hs.
Qed.

Lemma set_title_cases id title actor :
  inputs_ok inputs -> (count h + 3 < u64_max)%N ->
  (exists e, set_title inputs id title actor j = (Err e, j)) \/
  exists st version, let batch :=
      [session_event (session_stream id) (stream_head (evs id).*1) TITLE_EVENT actor
         (session_context id id None) (title_payload (Some (trim title)));
       session_event (title_stream id) version TITLE_INDEX_EVENT actor
         (session_context id id None) (title_payload (Some (trim title)))] in
    validate_session_id id = Ok tt /\ session_trace id (evs id) st /\ Forall recordable batch /\
    let '(r, j') := ej_append_batch inputs batch j in
    set_title inputs id title actor j
    = match r with
      | Ok _ => (summary <~ get_session id;; op_lift (ok_or summary (NotFound ("session " ++s id)))) j'
      | Err e => (Err e, j')
      end.
Proof.
  intros Hin Hle. remember (set_title inputs id title actor j) as x eqn:Hx.
  unfold set_title in Hx. op_check Hx Hv. op_check Hx Ht.
  rewrite (op_bind_run _ _ _ _ _ (oldest_read j h Hh Hmax _)) in Hx.
  assert (existing_session id (match (evs id).*1 with e :: _ => [e] | [] => [] end)
    = existing_session id (evs id).*1) as Hex by (by destruct (evs id)).
  rewrite op_bind_lift, Hex in Hx.
  destruct (session_cases id) as [He|[st Htrace]]; [rewrite (absent_session _ He) in Hx; left; eauto|].
  rewrite (existing_trace h id st Htrace) in Hx.
  rewrite !(op_bind_run _ _ _ _ _ (last_version_read j h Hh Hmax _)) in Hx.
  right. exists st, (stream_head (stream_entries (title_stream id) h).*1). cbn zeta.
  split_and!; [done|done| |].
  { repeat (apply Forall_cons; split; [apply title_recordable|]). apply Forall_nil_2. }
  subst x. unfold op_bind at 1. cbv beta iota.
  by destruct (ej_append_batch inputs (_ :: _) j) as [[es|e] j'].
Qed.

Lemma write_lifecycle_cases id archived expected actor :
  inputs_ok inputs -> (count h + 2 < u64_max)%N ->
  (exists r, write_lifecycle inputs id archived expected actor j = (r, j) /\
     (r = Ok (mkSessionLifecycle id archived expected) \/ exists e, r = Err e)) \/
  exists st v, let levs := stream_entries (lifecycle_stream id) h in
    let batch := [session_event (lifecycle_stream id) (count levs)
      (if archived then ARCHIVED_EVENT else RESTORED_EVENT) actor (session_context id id None) v] in
    validate_session_id id = Ok tt /\ session_trace id (evs id) st /\
    lifecycle_trace id levs (negb archived) /\ expected = count levs /\
    (archived = true -> se_pending st = None) /\
    lifecycle_to_value (mkSessionLifecycle id archived (count levs + 1)) = Ok v /\
    Forall recordable batch /\
    let '(r, j') := ej_append_batch inputs batch j in
    write_lifecycle inputs id archived expected actor j
    = (match r with
       | Ok _ => Ok (mkSessionLifecycle id archived (count levs + 1))
       | Err e => Err e end, j').
Proof.
  intros Hin Hle. remember (write_lifecycle inputs id archived expected actor j) as x eqn:Hx.
  unfold write_lifecycle in Hx.
  destruct (validate_session_id id) as [[]|e] eqn:Hv.
  2:{ left. unfold read_lifecycle in Hx. unfold op_bind, op_lift in Hx. rewrite Hv in Hx. eauto. }
  destruct (proj2 (Hok id)) as [current Hl].
  destruct (session_cases id) as [He|[st Ht]].
  { left. unfold read_lifecycle in Hx. unfold op_bind at 1 2 in Hx. unfold op_lift at 1 in Hx. rewrite Hv in Hx.
    unfold op_bind at 1 in Hx. rewrite (oldest_read j h Hh Hmax), He in Hx. cbn in Hx. eauto. }
  rewrite (op_bind_run _ _ _ _ _ (read_lifecycle_ok j h Hh Hmax id st current Hv Ht Hl)) in Hx.
  rewrite op_bind_lift in Hx. cbn [ok_or sl_revision sl_archived] in Hx. op_check Hx Hexp.
  apply reject_Ok, negb_false_iff, N.eqb_eq in Hexp.
  destruct (Bool.eqb current archived) eqn:Hsame.
  { left. apply Bool.eqb_prop in Hsame as ->. eexists. split; [exact Hx|]. left. by rewrite Hexp. }
  assert (current = negb archived) as -> by (by destruct current, archived).
  assert ((archived = true -> se_pending st = None) \/ exists e, x = (Err e, j)) as [Hpend|[e Herr]];
    [|rename Hx into Hx'|left; eauto].
  { destruct archived; [|by left]. unfold op_bind at 1 2 in Hx.
    rewrite (pending_tool_turn_ok j h Hh Hmax id st Hv Ht) in Hx.
    destruct (se_pending st); [right; simpl in Hx; eauto|by left]. }
  assert (x = (revision <~ op_lift (ok_or (checked_add (count (stream_entries (lifecycle_stream id) h)) 1)
      (Verification "session lifecycle revision overflow"));;
    payload <~ op_lift (map_err StoreAdapter (lifecycle_to_value (mkSessionLifecycle id archived revision)));;
    _ <~ ej_append inputs (session_event (lifecycle_stream id) expected
      (if archived then ARCHIVED_EVENT else RESTORED_EVENT) actor (session_context id id None) payload);;
    op_ret (mkSessionLifecycle id archived revision)) j) as Hx.
  { rewrite Hx'. destruct archived; [|done]. unfold op_bind at 1 2.
    rewrite (pending_tool_turn_ok j h Hh Hmax id st Hv Ht). by rewrite (Hpend eq_refl). }
  clear Hx'.
  assert (count (stream_entries (lifecycle_stream id) h) + 1 <= u64_max)%N as Hrev.
  { rewrite stream_entries_length. pose proof (version_of_le (lifecycle_stream id) h.*1) as Hlev.
    unfold count in *. rewrite length_fmap in Hlev. lia. }
  rewrite op_bind_lift in Hx. unfold checked_add in Hx. rewrite (proj2 (N.leb_le _ _) Hrev) in Hx.
  cbn [ok_or] in Hx. rewrite op_bind_lift in Hx.
  destruct (lifecycle_to_value _) as [v|e] eqn:Hval; [|left; simpl in Hx; eauto]. cbn [map_err] in Hx.
  right. exists st, v. cbn zeta. rewrite <- Hexp in Hx.
  set (event := session_event _ _ _ _ _ v) in Hx |- *.
  assert (recordable event) as Hrec by (unfold recordable; apply (lifecycle_storable _ _ (Hrev : (sl_revision
    (mkSessionLifecycle id archived _) <= u64_max)%N) Hval)).
  rewrite append_one in Hx. pose proof (one_event j h Hh inputs event Hrec Hin Hle) as Hone.
  split_and!; try done; [by apply Forall_singleton|].
  destruct (ej_append_batch inputs [event] j) as [[es|e] j']; [|done].
  by destruct (Hone es eq_refl) as [e ->].
Qed.
End Writing.
End Ops.
