(* ===== verification/SessionSafety.v ===== *)
(** * Sessions, with many writers at once

    The system of [Interleaving] with the batches of the session repository: every
    operation is a run of it, and it keeps every session well formed. *)

From S2P Require Import Prelude Json Contracts Boundary Platform JournalStore Journal Store.
From S2P Require Import JournalModel JournalAppend JournalTest JournalCorrect JournalHolds StoreSpec SessionContracts.
From S2P Require Import JournalPort ProjectionHandlers Session SessionModel SessionTest StoreCorrect Interleaving SessionCorrect SessionOps.
From stdpp Require Import relations.

Open Scope string_scope.
Open Scope op_scope.

(** The operations that write. *)
Inductive SessionAction :=
| DoCreate (id : string) (title : option string) (actor : Actor)
| DoSetTitle (id title : string) (actor : Actor)
| DoAppend (id run_id : string) (messages : list SessionMessageAppend) (additional : list NewEvent)
| DoBegin (id : string) (pending : PendingSessionToolTurn) (actor : Actor)
    (additional : list NewEvent)
| DoComplete (id : string) (pending : PendingSessionToolTurn) (messages : list SessionMessageAppend)
    (actor : Actor) (additional : list NewEvent)
| DoArchive (id : string) (archived : bool) (expected_revision : N) (actor : Actor).

Section Safety.
Context `{SessionCodec} `{!SessionCodecOk} {J} `{EventJournalOk J}.

Definition run_action (inputs : Inputs) (a : SessionAction) (j : J) : J :=
  match a with
  | DoCreate id title actor => (create_session inputs id title actor j).2
  | DoSetTitle id title actor => (set_title inputs id title actor j).2
  | DoAppend id run_id messages additional =>
      (append_messages_with_events inputs id run_id messages additional j).2
  | DoBegin id pending actor additional =>
      (begin_tool_turn_with_events inputs id pending actor additional j).2
  | DoComplete id pending messages actor additional =>
      (complete_tool_turn_with_events inputs id pending messages actor additional j).2
  | DoArchive id archived expected actor => (write_lifecycle inputs id archived expected actor j).2
  end.

(** What a caller passes: messages within the payload limits, events of its own streams. *)
Definition own_events (additional : list NewEvent) : Prop :=
  Forall recordable additional /\ Forall foreign additional.
Definition action_fit (a : SessionAction) : Prop :=
  match a with
  | DoAppend _ _ messages additional =>
      Forall (fun m => message_fit (sa_message m)) messages /\ own_events additional
  | DoBegin _ pending _ additional => (pt_turn pending <= u16_max)%N /\ own_events additional
  | DoComplete _ _ messages _ additional =>
      Forall (fun m => message_fit (sa_message m)) messages /\ own_events additional
  | _ => True
  end.
Definition action_size (a : SessionAction) : N :=
  match a with
  | DoAppend _ _ messages additional => count messages + count additional
  | DoBegin _ _ _ additional => count additional + 1
  | DoComplete _ _ messages _ additional => count messages + count additional + 1
  | DoSetTitle _ _ _ => 2
  | DoCreate _ _ _ | DoArchive _ _ _ _ => 1
  end.

(** Reading, preparing and committing as separate steps. *)
Definition session_step : J * list (list NewEvent) -> J * list (list NewEvent) -> Prop :=
  journal_step prepared.

(** What an operation prepares is events of sessions and what the caller adds. *)
Definition action_events (a : SessionAction) : list NewEvent :=
  match a with
  | DoAppend _ _ _ additional | DoBegin _ _ _ additional | DoComplete _ _ _ _ additional => additional
  | _ => []
  end.
Definition session_own (s : string) : bool :=
  starts_with s "session:" || starts_with s "session-title:" || starts_with s "session-lifecycle:".
Definition prepared_by (additional : list NewEvent) (h : history) (batch : list NewEvent) : Prop :=
  prepared h batch /\ around session_own additional batch.
Lemma own_session id event : ne_stream_id event = session_stream id -> session_own (ne_stream_id event) = true.
Proof. intros ->. unfold session_own, session_stream. by rewrite starts_with_self. Qed.
Lemma own_title id event : ne_stream_id event = title_stream id -> session_own (ne_stream_id event) = true.
Proof. intros ->. unfold session_own, title_stream. by rewrite starts_with_self, orb_true_r. Qed.
Lemma own_lifecycle id event : ne_stream_id event = lifecycle_stream id -> session_own (ne_stream_id event) = true.
Proof. intros ->. unfold session_own, lifecycle_stream. by rewrite starts_with_self, orb_true_r. Qed.
Lemma own_messages id run_id first version messages :
  owned session_own (message_events id run_id first version messages).
Proof. apply message_events_Forall. intros i m. by apply (own_session id). Qed.

(** ** An operation is one prepared batch *)

Lemma appends_journal {A} j inputs batch (k : list EventEnvelope -> A) x :
  appends j inputs batch k x -> x.2 = (ej_append_batch inputs batch j).2.
Proof. unfold appends. by destruct (ej_append_batch inputs batch j) as [r j'] => ->. Qed.

Lemma get_session_reads id j h :
  holds j h -> (count h + 1 < u64_max)%N -> sessions_ok h -> (get_session id j).2 = j.
Proof.
  intros Hh Hm Hok. destruct (validate_session_id id) as [[]|e] eqn:Hv.
  2:{ unfold get_session. by rewrite op_bind_lift, Hv. }
  destruct (proj1 (Hok id)) as [He|[st Ht]].
  - destruct (no_session j h Hh Hm id Hv He) as [-> _]. done.
  - by rewrite (get_session_ok j h Hh Hm id st Hv Ht).
Qed.

Lemma grown_bound h inputs batch es :
  batch_committed h inputs batch es -> (count h + count batch + 1 < u64_max)%N ->
  (count (h ++ entries batch es)%list + 1 < u64_max)%N.
Proof.
  intros Hb Hle. pose proof (committed_length _ _ _ _ Hb) as Hlen. unfold count, entries in *.
  rewrite length_app, length_zip_with, !length_fmap. lia.
Qed.

Lemma set_title_batch j h inputs id title actor :
  holds j h -> sessions_ok h -> inputs_ok inputs -> (count h + 3 < u64_max)%N ->
  one_batch (prepared_by []) j h inputs 2 (set_title inputs id title actor j).2.
Proof.
  intros Hh Hok Hi Hle.
  destruct (set_title_cases j h Hh ltac:(lia) Hok inputs id title actor Hi Hle)
    as [[e ->]|(st & version & Hv & Ht & Hr & Ha)]; [by left|]. right.
  set (batch := [_; _]) in *. assert (count h + count batch + 1 < u64_max)%N as Hc by (unfold batch, count in *; simpl; lia).
  assert (prepared h batch) as Hp by (by eapply prepared_title).
  exists batch. split_and!; [|done|done|].
  { split; [done|]. apply around_nil, Forall_cons. split; [by apply (own_session id)|].
    apply Forall_singleton. by apply (own_title id). }
  pose proof (ej_append_batch_ok j h inputs batch Hh Hr Hi Hc) as Hb.
  destruct (ej_append_batch inputs batch j) as [[es|e] j']; [|by rewrite Ha]. rewrite Ha.
  destruct Hb as [Hb Hh']. pose proof (grown_bound _ _ _ _ Hb Hc) as Hm'.
  assert (sessions_ok (h ++ entries batch es)) as Hok'.
  { pose proof (prepared_ok inputs h [] batch es) as Hpo. rewrite app_nil_r in Hpo.
    apply Hpo; try done; [by eapply holds_chain|lia]. }
  pose proof (get_session_reads id j' _ Hh' Hm' Hok') as Hg. unfold op_bind.
  destruct (get_session id j') as [[s|e] j'']; simpl in Hg |- *; by subst j''.
Qed.

Lemma action_batch j h inputs a :
  holds j h -> sessions_ok h -> inputs_ok inputs -> action_fit a ->
  (count h + action_size a + 1 < u64_max)%N ->
  one_batch (prepared_by (action_events a)) j h inputs (action_size a) (run_action inputs a j).
Proof.
  intros Hh Hok Hi Hfit Hle.
  destruct a as [id title actor|id title actor|id run_id messages add|id pending actor add
    |id pending messages actor add|id archived expected actor]; cbn [run_action action_size action_fit action_events] in *.
  - destruct (create_session_cases j h Hh inputs id title actor Hi ltac:(lia))
      as [[e ->]|(title' & Hv & Hr & Ha & _)]; [by left|]. right. eexists. split_and!; [|exact Hr| |exact Ha].
    + split; [by apply prepared_created|]. by apply around_nil, Forall_singleton, (own_session id).
    + unfold count in *. simpl. lia.
  - apply set_title_batch; (done || lia).
  - destruct Hfit as (Hm & Hr & Hf).
    destruct (append_messages_cases j h Hh ltac:(lia) Hok inputs id run_id messages add Hm Hr Hi ltac:(lia))
      as [(r & -> & _)|(st & Hv & Ht & Hp & Hne & Hms & Hrec & Hc & Ha)]; [by left|]. right.
    eexists. split_and!; [|exact Hrec| |by eapply appends_journal].
    { split; [by apply prepared_messages|]. apply around_before; [apply own_messages|apply around_refl]. }
    unfold count. rewrite length_app, message_events_length. lia.
  - destruct Hfit as (Hturn & Hr & Hf).
    destruct (begin_tool_turn_cases j h Hh ltac:(lia) Hok inputs id pending actor add Hturn Hr)
      as [(e & ->)|(st & v & Hv & Hvp & Ht & Hp & Hpv & Hrec & Ha)]; [by left|]. right.
    eexists. split_and!; [|exact Hrec| |by eapply appends_journal].
    + split; [by eapply prepared_begin|].
      apply (around_before _ [_]); [by apply Forall_singleton, (own_session id)|apply around_refl].
    + unfold count in *. simpl. lia.
  - destruct Hfit as (Hm & Hr & Hf).
    destruct (complete_tool_turn_cases j h Hh ltac:(lia) Hok inputs id pending messages actor add Hm Hr Hi ltac:(lia))
      as [(e & ->)|(st & v & Hv & Ht & Hp & Hms & Htr & Ho & Hpv & Hrec & Hc & Ha)]; [by left|]. right.
    eexists. split_and!; [|exact Hrec| |by eapply appends_journal].
    { split; [by eapply prepared_complete|]. apply around_before; [|apply around_refl].
      apply Forall_app. split; [apply own_messages|]. by apply Forall_singleton, (own_session id). }
    unfold count. rewrite !length_app, message_events_length. simpl. lia.
  - destruct (write_lifecycle_cases j h Hh ltac:(lia) Hok inputs id archived expected actor Hi ltac:(lia))
      as [(r & -> & _)|(st & v & Hv & Ht & Hl & He & Hp & Hpv & Hrec & Ha)]; [by left|]. right.
    eexists. split_and!; [|exact Hrec| |].
    + pose proof (prepared_lifecycle h id (negb archived) v actor Hl) as Hprep. rewrite negb_involutive in Hprep.
      specialize (Hprep Hpv). split; [by destruct archived|]. by apply around_nil, Forall_singleton, (own_lifecycle id).
    + unfold count in *. simpl. lia.
    + by destruct (ej_append_batch inputs _ j) as [r j']; rewrite Ha.
Qed.

(** An operation alone. *)
Lemma action_keeps j h inputs a :
  holds j h -> sessions_ok h -> inputs_ok inputs -> action_fit a ->
  (count h + action_size a + 1 < u64_max)%N ->
  exists h', holds (run_action inputs a j) h' /\ sessions_ok h' /\ (count h' <= count h + action_size a)%N.
Proof.
  intros Hh Hok Hi Hfit Hle. eapply (one_batch_keeps prepared sessions_ok); try done.
  - intros inputs' h' g batch es. by apply prepared_ok.
  - eapply one_batch_mono; [|by apply action_batch]. by intros batch [].
Qed.

(** Every operation of the session repository - creating and titling a
    session, appending a run's messages, beginning and completing a tool turn, archiving and
    restoring - is a run of that system from wherever it starts: it leaves the journal
    alone, or prepares one batch from what it reads and commits it. *)
Lemma operation_refines (j : J) (h : history) batches inputs a :
  holds j h -> sessions_ok h -> inputs_ok inputs -> action_fit a ->
  (count h + action_size a + 1 < u64_max)%N ->
  exists batches', rtc session_step (j, batches) (run_action inputs a j, batches').
Proof.
  intros Hh Hok Hi Hfit Hle.
  eapply (one_batch_refines prepared); try done. eapply one_batch_mono; [|by apply action_batch].
  by intros batch [].
Qed.

(** However the repository's operations interleave - each preparing
    its batch from what it read, and committing it after any number of other commits, or
    again - every session's stream remains one conversation: a creation, titles, whole runs
    of valid messages, and tool turns that begin only when none is open and complete with a
    valid transcript that opens with exactly their calls; and archiving and restoring
    alternate. The history only grows. *)
Lemma sessions_interleaved (j j' : J) (h : history) batches :
  holds j h -> sessions_ok h -> rtc session_step (j, []) (j', batches) ->
  exists g, holds j' (h ++ g) /\ sessions_ok (h ++ g).
Proof.
  intros Hh Hok Hr. eapply (interleaved_ok prepared sessions_ok); [|done..].
  intros inputs h' g' batch es. by apply prepared_ok.
Qed.
End Safety.

(** ** On the redb journal *)

Section Test.
#[local] Existing Instances journal_externals test_codec test_codec_ok.
Abbreviation test_store := (RedbEventJournal StaticKeyProvider TestSigner).

Definition test_create : list NewEvent :=
  [session_event (session_stream "s1") 0 SESSION_EVENT test_actor (session_context "s1" "s1" None)
     (title_payload None)].
Lemma test_empty : holds (test_journal : test_store) [] /\ sessions_ok [].
Proof.
  split; [exact (conj test_journal_ok (Forall_nil_2 _))|].
  intros id. split; [by left|]. exists false. constructor.
Qed.

(** A batch committed, and tried again. *)
Lemma sessions_interleaved_witness :
  exists (j' : test_store) g, rtc session_step (test_journal, []) (j', [test_create]) /\
    holds j' g /\ sessions_ok g.
Proof.
  set (j1 := (ej_append_batch test_inputs test_create (test_journal : test_store)).2).
  destruct test_empty as [Hh Hok].
  assert (rtc session_step (test_journal : test_store, []) (j1, [test_create])) as Hr.
  { eapply rtc_l.
    - eapply (step_prepare _ _ [] _ test_create); [exact Hh|done|by apply prepared_created|].
      by apply Forall_singleton, title_recordable.
    - apply rtc_once. eapply (step_commit _ _ [] _ test_create); [exact Hh|done|by left|apply test_inputs_ok]. }
  destruct (sessions_interleaved test_journal j1 [] [test_create] Hh Hok Hr) as (g & Hg & Hs).
  by exists j1, g.
Defined.

Lemma operation_refines_witness :
  exists batches, rtc session_step (test_journal : test_store, [])
    (run_action test_inputs (DoCreate "s1" None test_actor) test_journal, batches).
Proof.
  destruct test_empty as [Hh Hok].
  by apply (operation_refines test_journal [] [] test_inputs (DoCreate "s1" None test_actor) Hh Hok test_inputs_ok).
Defined.

(** A session, and one whose tool turn is open. *)
Definition test_session : test_store :=
  run_action test_inputs (DoCreate "s1" None test_actor) test_journal.
Definition test_open : test_store :=
  run_action test_inputs (DoBegin "s1" test_turn test_actor []) test_session.
Lemma test_session_ok : exists h, holds test_session h /\ sessions_ok h /\ (count h <= 1)%N.
Proof. destruct test_empty as [Hh Hok]. by apply (action_keeps _ [] test_inputs (DoCreate "s1" None test_actor) Hh Hok test_inputs_ok). Qed.
Lemma test_open_ok : exists h, holds test_open h /\ sessions_ok h /\ (count h <= 2)%N.
Proof.
  destruct test_session_ok as (h & Hh & Hok & Hle). unfold u64_max in *.
  destruct (action_keeps test_session h test_inputs (DoBegin "s1" test_turn test_actor []) Hh Hok test_inputs_ok)
    as (h' & Hh' & Hok' & Hle'); [|cbn [action_size]; change (count (@nil NewEvent)) with 0%N; unfold u64_max; lia|].
  - split; [done|]. split; apply Forall_nil_2.
  - exists h'. split_and!; [done|done|]. cbn [action_size] in Hle'. change (count (@nil NewEvent)) with 0%N in Hle'. lia.
Qed.
End Test.
