(* ===== verification/SessionOutcomes.v ===== *)
(** * What the session operations answer

    On a journal whose sessions are well formed, the readers answer with the conversation
    the stream holds, and a write that succeeds is read back by them. *)

From S2P Require Import Prelude Json Contracts Boundary Platform JournalStore Journal Store.
From S2P Require Import JournalModel JournalAppend StoreSpec SessionContracts Transcript.
From S2P Require Import JournalTest JournalCorrect JournalPort JournalHolds ProjectionHandlers Session SessionModel SessionTest StoreCorrect SessionCorrect SessionOps SessionSafety.

Open Scope string_scope.
Open Scope op_scope.

(** ** What the caller gets is what was recorded *)

Lemma appended_recorded id run_id first messages es es' :
  length messages = length es ->
  appended_messages id run_id first messages (es ++ es')
  = recorded_messages id run_id first (batch_messages messages) (durable_envelope <$> es).
Proof.
  intros Hlen. unfold appended_messages, recorded_messages, batch_messages.
  apply list_eq. intros i. rewrite !list_lookup_imap, !lookup_zip_with, !list_lookup_fmap.
  destruct (messages !! i) as [m|] eqn:Hm; [|done]. cbn [fmap option_fmap option_map mbind option_bind].
  apply lookup_lt_Some in Hm. destruct (es !! i) as [e|] eqn:He.
  - rewrite (lookup_app_l_Some _ _ _ _ He). done.
  - apply lookup_ge_None in He. lia.
Qed.
Lemma recorded_length id run_id first messages es :
  length messages = length es -> length (recorded_messages id run_id first messages es) = length messages.
Proof. intros Hlen. unfold recorded_messages. rewrite length_imap, length_zip_with. lia. Qed.
Lemma recorded_messages_of id run_id first messages es :
  length messages = length es -> sm_message <$> recorded_messages id run_id first messages es = messages.
Proof.
  intros Hlen. apply list_eq. intros i. unfold recorded_messages.
  rewrite list_lookup_fmap, list_lookup_imap, lookup_zip_with.
  destruct (messages !! i) as [m|] eqn:Hm; [|done]. apply lookup_lt_Some in Hm.
  destruct (es !! i) as [e|] eqn:He; [done|]. apply lookup_ge_None in He. lia.
Qed.
Lemma recorded_sequence id run_id first messages es i m :
  recorded_messages id run_id first messages es !! i = Some m ->
  sm_sequence m = saturating_add first (N.of_nat i) /\ sm_run_id m = run_id /\ sm_session_id m = id.
Proof.
  unfold recorded_messages. rewrite list_lookup_imap. destruct (zip messages es !! i); [|done].
  by intros [= <-].
Qed.

Section Outcomes.
Context `{SessionCodec} `{!SessionCodecOk} {J} `{EventJournalOk J}.

(** What a committed batch adds to the stream it is for. *)
Lemma stream_extended inputs s h own add es :
  batch_committed h inputs (own ++ add) es ->
  Forall (fun event => ne_stream_id event = s) own -> Forall (fun event => ne_stream_id event <> s) add ->
  exists es1 es2, es = (es1 ++ es2)%list /\ Forall2 recorded_as own es1 /\
    stream_entries s (h ++ entries (own ++ add) es) = (stream_entries s h ++ entries own es1)%list.
Proof.
  intros [Hr%recorded_all _] Hown Hadd.
  destruct (entries_split s own add es Hr Hown Hadd) as (es1 & es2 & -> & H1' & He).
  exists es1, es2. by rewrite stream_entries_app, He.
Qed.
Lemma foreign_off id add : Forall foreign add -> Forall (fun event => ne_stream_id event <> session_stream id) add.
Proof. intros Hf. eapply Forall_impl; [exact Hf|]. intros ev Hev. apply (foreign_elsewhere ev Hev). Qed.
(** Other sessions are left alone. *)
Lemma stream_untouched inputs s h batch es :
  batch_committed h inputs batch es -> Forall (fun event => ne_stream_id event <> s) batch ->
  stream_entries s (h ++ entries batch es) = stream_entries s h.
Proof.
  intros [Hr%recorded_all _] Hs. by rewrite stream_entries_app, (entries_off s batch es Hr Hs), app_nil_r.
Qed.

Lemma messages_extended inputs h id run_id st messages add es :
  session_trace id (stream_entries (session_stream id) h) st -> se_pending st = None ->
  Forall (fun m => validate_message m = Ok tt) (batch_messages messages) -> Forall foreign add ->
  let batch := (message_events id run_id (next_message st)
    (stream_head (stream_entries (session_stream id) h).*1) messages ++ add)%list in
  batch_committed h inputs batch es ->
  exists es1 es2, es = (es1 ++ es2)%list /\ length messages = length es1 /\
    session_trace id (stream_entries (session_stream id) (h ++ entries batch es))
      (with_messages id run_id (batch_messages messages) (durable_envelope <$> es1) st).
Proof.
  intros Ht Hp Hm Hadd batch Hb.
  destruct (stream_extended inputs (session_stream id) h _ add es Hb) as (es1 & es2 & -> & Hr & He);
    [by apply message_events_Forall|by apply foreign_off|].
  exists es1, es2. split; [done|]. unfold batch. rewrite He.
  apply message_entries in Hr as Hblock. destruct Hblock as (-> & Htypes & Hlen).
  split; [unfold batch_messages in Hlen; by rewrite !length_fmap in Hlen|]. by apply trace_messages.
Qed.

(** The readers, all together. *)
Definition reads_session (j : J) (id : string) (st : SessionState) : Prop :=
  get_session id j = (Ok (Some (session_summary id st)), j) /\
  list_messages id j = (Ok (se_messages st), j) /\
  pending_tool_turn id j = (Ok (se_pending st), j).
Lemma reads_session_ok j h id st :
  holds j h -> (count h + 1 < u64_max)%N -> validate_session_id id = Ok tt ->
  session_trace id (stream_entries (session_stream id) h) st -> reads_session j id st.
Proof.
  intros Hh Hm Hv Ht. split_and!; [by eapply get_session_ok|by eapply list_messages_ok|].
  by eapply pending_tool_turn_ok.
Qed.
Lemma others_read_same (j j' : J) (h : history) batch inputs es other :
  holds j h -> (count h + 1 < u64_max)%N -> sessions_ok h -> validate_session_id other = Ok tt ->
  holds j' (h ++ entries batch es) -> (count (h ++ entries batch es)%list + 1 < u64_max)%N ->
  batch_committed h inputs batch es ->
  Forall (fun event => ne_stream_id event <> session_stream other) batch ->
  (get_session other j').1 = (get_session other j).1 /\
  (list_messages other j').1 = (list_messages other j).1.
Proof.
  intros Hh Hm Hok Hv Hh' Hm' Hb Hoff.
  pose proof (stream_untouched inputs _ h batch es Hb Hoff) as Hsame.
  destruct (proj1 (Hok other)) as [He|[st Ht]].
  - rewrite He in Hsame. destruct (no_session j h Hh Hm other Hv He) as (-> & -> & _).
    by destruct (no_session _ _ Hh' Hm' other Hv Hsame) as (-> & -> & _).
  - destruct (reads_session_ok j h other st Hh Hm Hv Ht) as (-> & -> & _).
    rewrite <- Hsame in Ht. by destruct (reads_session_ok _ _ other st Hh' Hm' Hv Ht) as (-> & -> & _).
Qed.

(** For a valid session id the readers never fail on a journal of well
    formed sessions: where no session was created they answer with nothing or "not found",
    and otherwise all with the one conversation its stream holds - its summary, all its
    messages in order, its open tool turn, and whether it is archived at which revision. *)
Lemma session_reads (j : J) (h : history) id :
  holds j h -> (count h + 1 < u64_max)%N -> sessions_ok h -> validate_session_id id = Ok tt ->
  (get_session id j = (Ok None, j) /\
   list_messages id j = (Err (NotFound ("session " ++s id)), j) /\
   pending_tool_turn id j = (Err (NotFound ("session " ++s id)), j) /\
   read_lifecycle id j = (Ok None, j) /\ stream_entries (session_stream id) h = []) \/
  exists st archived,
    session_trace id (stream_entries (session_stream id) h) st /\
    lifecycle_trace id (stream_entries (lifecycle_stream id) h) archived /\
    get_session id j = (Ok (Some (session_summary id st)), j) /\
    list_messages id j = (Ok (se_messages st), j) /\
    pending_tool_turn id j = (Ok (se_pending st), j) /\
    read_lifecycle id j
    = (Ok (Some (mkSessionLifecycle id archived (count (stream_entries (lifecycle_stream id) h)))), j).
Proof.
  intros Hh Hm Hok Hv. destruct (Hok id) as [[He|[st Ht]] [archived Hl]].
  - left. destruct (no_session j h Hh Hm id Hv He) as (-> & -> & ->). split_and!; try done.
    unfold read_lifecycle. by rewrite op_bind_lift, Hv, (op_bind_run _ _ _ _ _ (oldest_read j h Hh Hm _)), He.
  - right. exists st, archived. destruct (reads_session_ok j h id st Hh Hm Hv Ht) as (-> & -> & ->).
    by rewrite (read_lifecycle_ok j h Hh Hm id st archived Hv Ht Hl).
Qed.

(** An append that succeeds: what it committed, and what the readers answer before and
    after. *)
Lemma append_outcome (j j' : J) (h : history) inputs id run_id messages additional out :
  holds j h -> sessions_ok h -> inputs_ok inputs -> messages <> [] ->
  Forall (fun m => message_fit (sa_message m)) messages -> own_events additional ->
  (count h + count messages + count additional + 1 < u64_max)%N ->
  append_messages_with_events inputs id run_id messages additional j = (Ok out, j') ->
  exists st es,
    let batch := (message_events id run_id (next_message st) (stream_head (stream_entries (session_stream id) h).*1)
      messages ++ additional)%list in
    batch_committed h inputs batch es /\ holds j' (h ++ entries batch es) /\
    (count (h ++ entries batch es)%list + 1 < u64_max)%N /\
    session_trace id (stream_entries (session_stream id) h) st /\ validate_session_id id = Ok tt /\
    list_messages id j = (Ok (se_messages st), j) /\ list_messages id j' = (Ok (se_messages st ++ out)%list, j') /\
    pending_tool_turn id j = (Ok None, j) /\ pending_tool_turn id j' = (Ok None, j') /\
    sm_message <$> out = sa_message <$> messages /\
    forall i m, out !! i = Some m -> i < length messages /\
      sm_sequence m = saturating_add (next_message st) (N.of_nat i) /\ sm_run_id m = run_id /\ sm_session_id m = id.
Proof.
  intros Hh Hok Hi Hne Hfit [Hrec Hfor] Hle Hx.
  destruct (append_messages_cases j h Hh ltac:(lia) Hok inputs id run_id messages additional Hfit Hrec Hi Hle)
    as [(r & Hx' & [[_ Hnil]|[e ->]])|(st & Hv & Ht & Hp & _ & Hms & Hrecb & Hc & Ha)];
    [done|by rewrite Hx in Hx'|].
  set (batch := (_ ++ additional)%list) in *. unfold appends in Ha. rewrite Hx in Ha.
  pose proof (ej_append_batch_ok j h inputs batch Hh Hrecb Hi Hc) as Hb.
  destruct (ej_append_batch inputs batch j) as [[es|e] j1]; [|done]. injection Ha as -> <-.
  destruct Hb as [Hb Hh']. pose proof (grown_bound _ _ _ _ Hb Hc) as Hm'.
  destruct (messages_extended inputs h id run_id st messages additional es Ht Hp Hms Hfor Hb)
    as (es1 & es2 & -> & Hlen & Ht'). fold batch in Ht'.
  destruct (reads_session_ok j h id st Hh ltac:(lia) Hv Ht) as (_ & Hl & Hpn).
  destruct (reads_session_ok _ _ id _ Hh' Hm' Hv Ht') as (_ & Hl' & Hpn').
  pose proof (appended_recorded id run_id (next_message st) messages es1 es2 Hlen) as Happ.
  assert (length (batch_messages messages) = length (durable_envelope <$> es1)) as Hlen'
    by (unfold batch_messages; by rewrite !length_fmap).
  exists st, (es1 ++ es2)%list. rewrite Happ. cbn [with_messages se_messages se_pending] in Hl', Hpn'.
  rewrite Hp in Hpn, Hpn'. split_and!; [done|done|done|done|done|done|done|done|done| |].
  - by rewrite recorded_messages_of.
  - intros i m Him. pose proof (lookup_lt_Some _ _ _ Him) as Hlt. rewrite recorded_length in Hlt by done.
    unfold batch_messages in Hlt. rewrite length_fmap in Hlt. split; [done|]. by apply recorded_sequence in Him.
Qed.
(** Messages that [append_messages] accepts are there to be read:
    the session had no open tool turn and has none now, its messages are those before
    followed by the ones returned, which hold what was given, for the run, numbered on from
    the last; every other session reads as it did. *)
Lemma appended_run_reads_back (j j' : J) (h : history) inputs id run_id messages additional out :
  holds j h -> sessions_ok h -> inputs_ok inputs -> messages <> [] ->
  Forall (fun m => message_fit (sa_message m)) messages -> own_events additional ->
  (count h + count messages + count additional + 1 < u64_max)%N ->
  append_messages_with_events inputs id run_id messages additional j = (Ok out, j') ->
  exists before, list_messages id j = (Ok before, j) /\ list_messages id j' = (Ok (before ++ out)%list, j') /\
    pending_tool_turn id j = (Ok None, j) /\ pending_tool_turn id j' = (Ok None, j') /\
    sm_message <$> out = sa_message <$> messages /\
    (forall i m, out !! i = Some m ->
       sm_sequence m = (count before + 1 + N.of_nat i)%N /\ sm_run_id m = run_id /\ sm_session_id m = id) /\
    forall other, other <> id -> validate_session_id other = Ok tt ->
      (get_session other j').1 = (get_session other j).1 /\
      (list_messages other j').1 = (list_messages other j).1.
Proof.
  intros Hh Hok Hi Hne Hfit Hadd Hle Hx.
  destruct (append_outcome j j' h inputs id run_id messages additional out Hh Hok Hi Hne Hfit Hadd Hle Hx)
    as (st & es & Hb & Hh' & Hm' & Ht & _ & Hl & Hl' & Hpn & Hpn' & Hms & Hseq). destruct Hadd as [_ Hfor].
  exists (se_messages st). split_and!; [done..| |].
  - intros i m Him. destruct (Hseq i m Him) as (Hlt & -> & -> & ->). split; [|done].
    pose proof (session_bound h ltac:(lia) id st Ht).
    unfold next_message, saturating_add, count in *. lia.
  - intros other Hother Hvo.
    eapply (others_read_same j j' h _ inputs es); try done; [lia|].
    apply Forall_app. split; [|by apply foreign_off].
    apply message_events_Forall. intros k m Heq. by apply Hother, eq_sym, session_stream_inj.
Qed.

(** ** Tool turns *)

Lemma turn_extended inputs h id st pending v actor messages add es :
  session_trace id (stream_entries (session_stream id) h) st -> se_pending st = Some pending ->
  Forall (fun m => validate_message m = Ok tt) (batch_messages messages) ->
  validate_model_transcript (batch_messages messages) = Ok tt ->
  opening_calls (batch_messages messages) = pt_call_ids pending -> pending_to_value pending = Ok v ->
  Forall foreign add ->
  let completion := session_event (session_stream id)
    (saturating_add (stream_head (stream_entries (session_stream id) h).*1) (count messages))
    TOOL_TURN_COMPLETED_EVENT actor (session_context (pt_run_id pending) id (Some (pt_run_id pending))) v in
  let batch := ((message_events id (pt_run_id pending) (next_message st)
    (stream_head (stream_entries (session_stream id) h).*1) messages ++ [completion]) ++ add)%list in
  batch_committed h inputs batch es ->
  exists es1 es2 e, es = (es1 ++ es2)%list /\ length messages = length es1 /\
    session_trace id (stream_entries (session_stream id) (h ++ entries batch es))
      (with_pending None e
        (with_messages id (pt_run_id pending) (batch_messages messages) (durable_envelope <$> es1) st)).
Proof.
  intros Ht Hp Hm Htr Ho Hpv Hadd completion batch Hb.
  destruct (stream_extended inputs (session_stream id) h _ add es Hb) as (es1 & es2 & -> & Hr & He).
  { apply Forall_app. split; [by apply message_events_Forall|by apply Forall_singleton]. }
  { by apply foreign_off. }
  apply Forall2_app_inv_l in Hr as (es3 & es4 & Hr3 & Hr4 & ->).
  apply message_entries in Hr3 as Hblock. destruct Hblock as (Hblock & Htypes & Hlen).
  apply recorded_one in Hr4 as (e & -> & _ & Hty & Hone).
  exists es3, ([e] ++ es2)%list, (durable_envelope e). rewrite app_assoc. split; [done|].
  split; [unfold batch_messages in Hlen; by rewrite !length_fmap in Hlen|]. unfold batch. rewrite He.
  rewrite entries_concat by (by eapply Forall2_length). rewrite Hblock, Hone.
  by apply trace_complete.
Qed.

(** C32. A tool turn that completes was open and no longer is: its messages
    follow those before it, open with the assistant message that requested exactly the
    pending calls, and then hold one result for each of them, in some order, before
    anything else. *)
Theorem tool_turn_settles (j j' : J) (h : history) inputs id pending messages actor additional out :
  holds j h -> sessions_ok h -> inputs_ok inputs ->
  Forall (fun m => message_fit (sa_message m)) messages -> own_events additional ->
  (count h + count messages + count additional + 2 < u64_max)%N ->
  complete_tool_turn_with_events inputs id pending messages actor additional j = (Ok out, j') ->
  exists before, list_messages id j = (Ok before, j) /\ list_messages id j' = (Ok (before ++ out)%list, j') /\
    pending_tool_turn id j = (Ok (Some pending), j) /\ pending_tool_turn id j' = (Ok None, j') /\
    exists m results rest, sm_message <$> out = (m :: results ++ rest)%list /\
      mm_role m = MR_Assistant /\ call_ids m = pt_call_ids pending /\
      Forall (fun r => mm_role r = MR_Tool) results /\
      mm_tool_call_id <$> results ≡ₚ Some <$> pt_call_ids pending.
Proof.
  intros Hh Hok Hi Hfit [Hrec Hfor] Hle Hx.
  destruct (complete_tool_turn_cases j h Hh ltac:(lia) Hok inputs id pending messages actor additional
    Hfit Hrec Hi Hle) as [[e Hx']|(st & v & Hv & Ht & Hp & Hms & Htr & Ho & Hpv & Hrecb & Hc & Ha)];
    [by rewrite Hx in Hx'|].
  set (batch := (_ ++ additional)%list) in *. unfold appends in Ha. rewrite Hx in Ha.
  pose proof (ej_append_batch_ok j h inputs batch Hh Hrecb Hi Hc) as Hb.
  destruct (ej_append_batch inputs batch j) as [[es|e] j1]; [|done]. injection Ha as -> <-.
  destruct Hb as [Hb Hh']. pose proof (grown_bound _ _ _ _ Hb Hc) as Hm'.
  destruct (turn_extended inputs h id st pending v actor messages additional es Ht Hp Hms Htr Ho Hpv Hfor Hb)
    as (es1 & es2 & e & -> & Hlen & Ht'). fold batch in Ht'.
  destruct (reads_session_ok j h id st Hh ltac:(lia) Hv Ht) as (_ & Hl & Hpn).
  destruct (reads_session_ok _ _ id _ Hh' Hm' Hv Ht') as (_ & Hl' & Hpn').
  rewrite (appended_recorded id _ (next_message st) messages es1 es2 Hlen).
  exists (se_messages st). rewrite Hp in Hpn. split_and!; [done|done|done|done|].
  rewrite recorded_messages_of by (unfold batch_messages; by rewrite !length_fmap).
  destruct (trace_pending_valid _ _ _ _ Ht Hp) as [Hvp _].
  apply transcript_valid in Htr as [settled Hconv].
  destruct (batch_messages messages) as [|m rest] eqn:Hbm.
  - unfold validate_pending_tool_turn in Hvp. rewrite <- Ho in Hvp. apply reject_Ok in Hvp.
    by rewrite !orb_true_r in Hvp.
  - cbn in Ho. destruct (bool_decide_reflect (mm_role m = MR_Assistant)) as [Hrole|].
    + destruct (opening_turn _ _ m rest Hconv eq_refl Hrole) as (results & rest' & -> & Hf & Hperm).
      exists m, results, rest'. rewrite <- Ho. by split_and!.
    + unfold validate_pending_tool_turn in Hvp. rewrite <- Ho in Hvp. apply reject_Ok in Hvp.
      by rewrite !orb_true_r in Hvp.
Qed.

(** While a session's tool turn is open nothing but its own
    completion gets through: appending messages, beginning another turn and completing a
    turn other than the open one are refused, archiving changes nothing, and the journal
    is as it was. *)
Lemma unsettled_turn_blocks (j : J) (h : history) inputs id p :
  holds j h -> sessions_ok h -> inputs_ok inputs -> (count h + 2 < u64_max)%N ->
  pending_tool_turn id j = (Ok (Some p), j) ->
  (forall run_id messages additional, messages <> [] ->
     Forall (fun m => message_fit (sa_message m)) messages -> own_events additional ->
     (count h + count messages + count additional + 1 < u64_max)%N ->
     exists e, append_messages_with_events inputs id run_id messages additional j = (Err e, j)) /\
  (forall pending actor additional, (pt_turn pending <= u16_max)%N -> own_events additional ->
     exists e, begin_tool_turn_with_events inputs id pending actor additional j = (Err e, j)) /\
  (forall pending messages actor additional, pending <> p ->
     Forall (fun m => message_fit (sa_message m)) messages -> own_events additional ->
     (count h + count messages + count additional + 2 < u64_max)%N ->
     exists e, complete_tool_turn_with_events inputs id pending messages actor additional j = (Err e, j)) /\
  forall revision actor, (write_lifecycle inputs id true revision actor j).2 = j.
Proof.
  intros Hh Hok Hi Hm Hpend.
  assert (forall st, validate_session_id id = Ok tt ->
    session_trace id (stream_entries (session_stream id) h) st -> se_pending st = Some p) as Hp.
  { intros st Hv Ht. rewrite (pending_tool_turn_ok j h Hh ltac:(lia) id st Hv Ht) in Hpend. by injection Hpend. }
  split_and!.
  - intros run_id messages add Hne Hfit [Hrec _] Hle.
    destruct (append_messages_cases j h Hh ltac:(lia) Hok inputs id run_id messages add Hfit Hrec Hi Hle)
      as [(r & -> & [[_ Hnil]|[e ->]])|(st & Hv & Ht & Hn & _)]; [done|by exists e|].
    by rewrite (Hp st Hv Ht) in Hn.
  - intros pending actor add Hturn [Hrec _].
    destruct (begin_tool_turn_cases j h Hh ltac:(lia) Hok inputs id pending actor add Hturn Hrec)
      as [He|(st & v & Hv & _ & Ht & Hn & _)]; [done|]. by rewrite (Hp st Hv Ht) in Hn.
  - intros pending messages actor add Hne Hfit [Hrec _] Hle.
    destruct (complete_tool_turn_cases j h Hh ltac:(lia) Hok inputs id pending messages actor add Hfit Hrec Hi Hle)
      as [He|(st & v & Hv & Ht & Hn & _)]; [done|]. rewrite (Hp st Hv Ht) in Hn. by injection Hn as ->.
  - intros revision actor.
    destruct (write_lifecycle_cases j h Hh ltac:(lia) Hok inputs id true revision actor Hi Hm)
      as [(r & -> & _)|(st & v & Hv & Ht & _ & _ & Hn & _)]; [done|]. specialize (Hn eq_refl).
    by rewrite (Hp st Hv Ht) in Hn.
Qed.

(** ** Creation *)

(** The title a session is created with. *)
Definition session_title (title : option string) : option string :=
  title ← trim <$> title; if is_empty title then None else Some title.

(** With a valid id and a title within 200 bytes, and everything the
    journal takes from outside answering, [create_session] creates a session that does not
    exist - which then reads as the empty session it returned - and refuses one that does
    with the version it is at, changing nothing. *)
Lemma creation_decides (j : J) (h : history) inputs id title actor :
  holds j h -> sessions_ok h -> inputs_ok inputs -> (count h + 2 < u64_max)%N ->
  validate_session_id id = Ok tt ->
  (forall t, session_title title = Some t -> (slen t <= MAX_TITLE_BYTES)%N) ->
  available j inputs [session_event (session_stream id) 0 SESSION_EVENT actor
    (session_context id id None) (title_payload (session_title title))] ->
  match stream_entries (session_stream id) h with
  | [] => exists at_, let summary := mkSessionSummary id (session_title title) at_ at_ 0 None None in
      exists j', create_session inputs id title actor j = (Ok summary, j') /\
        get_session id j' = (Ok (Some summary), j') /\ list_messages id j' = (Ok [], j')
  | evs => create_session inputs id title actor j
      = (Err (Conflict (session_stream id) 0 (count evs)), j)
  end.
Proof.
  intros Hh Hok Hi Hm Hv Ht Hav. set (event := session_event _ _ _ _ _ _) in Hav.
  assert (Forall recordable [event]) as Hrec by (by apply Forall_singleton, title_recordable).
  assert (create_session inputs id title actor j
    = (envelope <~ ej_append inputs event;;
       op_ret (mkSessionSummary id (session_title title) (ev_occurred_at envelope)
         (ev_occurred_at envelope) 0 None None)) j) as ->.
  { unfold create_session. rewrite op_bind_lift, Hv. unfold event, session_title in *.
    destruct title as [t|]; cbn [fmap option_fmap option_map mbind option_bind] in *.
    - destruct (is_empty (trim t)); [done|]. rewrite op_bind_lift. unfold is_some_and.
      by rewrite (proj2 (N.ltb_ge _ _) (Ht _ eq_refl)).
    - by rewrite op_bind_lift. }
  assert (count h + count [event] + 1 < u64_max)%N as Hc1 by (unfold count in *; simpl; lia).
  rewrite append_one. pose proof (ej_append_available j h inputs [event] Hh Hrec Hi Hc1 Hav) as Ha.
  cbn [first_conflict event session_event ne_stream_id ne_expected_stream_version] in Ha.
  rewrite <- stream_entries_length in Ha. destruct (stream_entries (session_stream id) h) as [|ev evs] eqn:Hevs.
  - destruct Ha as [es Hes]. cbv iota in Hes. destruct (one_event j h Hh inputs event) with es as [e ->];
      [exact (Forall_inv Hrec)|done|done|done|].
    pose proof (ej_append_batch_ok j h inputs [event] Hh Hrec Hi Hc1) as Hb.
    destruct (ej_append_batch inputs [event] j) as [r j']. cbn [fst] in Hes. subst r. destruct Hb as [Hb Hh'].
    assert (session_trace id (stream_entries (session_stream id) (h ++ entries [event] [e]))
      (mkSessionState (session_title title) [] None (ev_occurred_at (durable_envelope e))
         (ev_occurred_at (durable_envelope e)))) as Htr.
    { destruct Hb as [Hb%recorded_all _]. rewrite stream_entries_app, Hevs, (entries_on _ [event] [e] Hb) by (by apply Forall_singleton).
      apply recorded_one in Hb as (e' & [= <-] & _ & Hty & ->). by apply trace_created. }
    pose proof (grown_bound _ _ _ _ Hb Hc1) as Hm'.
    destruct (reads_session_ok j' _ id _ Hh' Hm' Hv Htr) as (Hg & Hl & _).
    exists (ev_occurred_at e). cbn zeta. exists j'. split_and!; [done|exact Hg|exact Hl].
  - rewrite (proj2 (N.eqb_neq 0 _)) in Ha by (unfold count; simpl; lia). by rewrite Ha.
Qed.
End Outcomes.

(** ** On the redb journal *)

Section Test.
#[local] Existing Instances journal_externals test_codec test_codec_ok.

Lemma session_reads_witness :
  exists st archived, get_session "s1" test_session = (Ok (Some (session_summary "s1" st)), test_session) /\
    (exists revision, read_lifecycle "s1" test_session
       = (Ok (Some (mkSessionLifecycle "s1" archived revision)), test_session)).
Proof.
  destruct test_session_ok as (h & Hh & Hok & Hle).
  assert (match (get_session "s1" test_session).1 with Ok (Some _) => true | _ => false end = true) as Hsome
    by (vm_compute; reflexivity).
  destruct (session_reads test_session h "s1" Hh ltac:(unfold u64_max; lia) Hok eq_refl)
    as [(Hg & _)|(st & archived & _ & _ & Hg & _ & _ & Hl)].
  - exfalso. rewrite Hg in Hsome. discriminate Hsome.
  - exists st, archived. split; [exact Hg|]. eexists. exact Hl.
Defined.

Definition test_greeting : list SessionMessageAppend := test_appends [test_user "hello"; test_user "again"].
Lemma test_fit ms : forallb (fun m => Nat.ltb (json_depth (message_to_value (sa_message m))) MAX_PARSED_DEPTH
    && exact_json (message_to_value (sa_message m))) ms = true ->
  Forall (fun m => message_fit (sa_message m)) ms.
Proof.
  intros Hms. apply Forall_forall. intros m Hin%list_elem_of_In. rewrite forallb_forall in Hms.
  apply Hms, andb_true_iff in Hin as [Hd Hx]. split; [by apply Nat.ltb_lt|done].
Qed.

Lemma appended_run_reads_back_witness :
  exists out j' before,
    append_messages_with_events test_inputs "s1" "run-1" test_greeting [] test_session = (Ok out, j') /\
    list_messages "s1" test_session = (Ok before, test_session) /\
    list_messages "s1" j' = (Ok (before ++ out)%list, j').
Proof.
  destruct test_session_ok as (h & Hh & Hok & Hle).
  assert (match (append_messages_with_events test_inputs "s1" "run-1" test_greeting [] test_session).1
    with Ok _ => true | Err _ => false end = true) as Hsome by (vm_compute; reflexivity).
  destruct (append_messages_with_events test_inputs "s1" "run-1" test_greeting [] test_session)
    as [[out|e] j'] eqn:Hx; [|discriminate Hsome].
  destruct (appended_run_reads_back test_session j' h test_inputs "s1" "run-1" test_greeting [] out Hh Hok
    test_inputs_ok ltac:(discriminate) (test_fit test_greeting eq_refl)
    (conj (Forall_nil_2 _) (Forall_nil_2 _))) as (before & Hb & Hb' & _).
  - change (count test_greeting) with 2%N. change (count (@nil NewEvent)) with 0%N. unfold u64_max. lia.
  - exact Hx.
  - exists out, j', before. exact (conj eq_refl (conj Hb Hb')).
Defined.

Lemma tool_turn_settles_witness :
  exists out j' m results rest,
    complete_tool_turn_with_events test_inputs "s1" test_turn test_turn_messages test_actor [] test_open
    = (Ok out, j') /\ pending_tool_turn "s1" j' = (Ok None, j') /\
    sm_message <$> out = (m :: results ++ rest)%list /\
    mm_tool_call_id <$> results ≡ₚ Some <$> ["call-1"; "call-2"].
Proof.
  destruct test_open_ok as (h & Hh & Hok & Hle).
  assert (match (complete_tool_turn_with_events test_inputs "s1" test_turn test_turn_messages test_actor []
    test_open).1 with Ok _ => true | Err _ => false end = true) as Hsome by (vm_compute; reflexivity).
  destruct (complete_tool_turn_with_events test_inputs "s1" test_turn test_turn_messages test_actor [] test_open)
    as [[out|e] j'] eqn:Hx; [|discriminate Hsome].
  destruct (tool_turn_settles test_open j' h test_inputs "s1" test_turn test_turn_messages test_actor [] out
    Hh Hok test_inputs_ok (test_fit test_turn_messages eq_refl) (conj (Forall_nil_2 _) (Forall_nil_2 _)))
    as (before & _ & _ & _ & Hp & m & results & rest & Ho & _ & _ & _ & Hperm).
  - change (count test_turn_messages) with 3%N. change (count (@nil NewEvent)) with 0%N. unfold u64_max. lia.
  - exact Hx.
  - exists out, j', m, results, rest. exact (conj eq_refl (conj Hp (conj Ho Hperm))).
Defined.

Lemma unsettled_turn_blocks_witness :
  exists e, append_messages_with_events test_inputs "s1" "run-1" test_greeting [] test_open
    = (Err e, test_open).
Proof.
  destruct test_open_ok as (h & Hh & Hok & Hle).
  assert ((pending_tool_turn "s1" test_open).1 = Ok (Some test_turn)) as Hp by (vm_compute; reflexivity).
  assert ((pending_tool_turn "s1" test_open).2 = test_open) as Hj by (vm_compute; reflexivity).
  destruct (unsettled_turn_blocks test_open h test_inputs "s1" test_turn Hh Hok test_inputs_ok) as [Ha _].
  - unfold u64_max. lia.
  - rewrite (surjective_pairing (pending_tool_turn "s1" test_open)), Hp, Hj. reflexivity.
  - apply Ha; [discriminate|exact (test_fit test_greeting eq_refl)|exact (conj (Forall_nil_2 _) (Forall_nil_2 _))|].
    change (count test_greeting) with 2%N. change (count (@nil NewEvent)) with 0%N. unfold u64_max. lia.
Defined.

Lemma creation_decides_witness :
  exists at_ j', create_session test_inputs "s1" (Some " notes ") test_actor test_journal
    = (Ok (mkSessionSummary "s1" (Some "notes") at_ at_ 0 None None), j') /\ list_messages "s1" j' = (Ok [], j').
Proof.
  destruct test_empty as [Hh Hok].
  destruct (creation_decides test_journal [] test_inputs "s1" (Some " notes ") test_actor Hh Hok test_inputs_ok)
    as (at_ & j' & Hc & _ & Hl); [reflexivity|reflexivity| | |exists at_, j'; exact (conj Hc Hl)].
  - intros t [= <-]. by vm_compute.
  - apply test_available; [done|]. by apply Forall_singleton.
Defined.
End Test.
