(* ===== verification/ProjectionReplay.v ===== *)
(** * The overlay reads as if the round were committed

    [worker/overlay.rs] against the store: a reducer that reads through the overlay sees
    what it would see in a store to which the staged mutations had been applied. *)

From S2P Require Import Prelude Json Contracts Boundary Platform CommandApproval JournalStore Journal.
From S2P Require Import JournalVerify Store ProjectionStore ExternalWork ProjectionWorker JournalModel JournalCorrect JournalPort.
From S2P Require Import ProjectionCorrect ProjectionView.

Open Scope string_scope.

(** ** Readers that answer alike *)

Record reader_equiv (r r' : ProjectionReader) : Prop := mkReaderEquiv {
  re_position : forall p, rd_position r p = rd_position r' p;
  re_get : forall p k, rd_get r p k = rd_get r' p k;
  re_list_after : forall p pre after limit,
    rd_list_after r p pre after limit = rd_list_after r' p pre after limit;
}.
#[export] Instance reader_equivalence : Equivalence reader_equiv.
Proof.
  split.
  - by intros r.
  - by intros r r' [].
  - intros r r' r'' [] []. constructor; intros; etrans; eauto.
Qed.

(** ** Staged records over a view *)

Definition amend (staged : gmap string (option value)) (m : gmap string value) : gmap string value :=
  merge (fun change v => match change with Some v' => v' | None => v end) staged m.

Lemma amend_lookup staged m k :
  amend staged m !! k = match staged !! k with Some v => v | None => m !! k end.
Proof. unfold amend. rewrite lookup_merge. by destruct (staged !! k), (m !! k). Qed.
Lemma amend_empty m : amend ∅ m = m.
Proof. apply map_eq. intros k. by rewrite amend_lookup, lookup_empty. Qed.
Lemma amend_part f staged m :
  part f (amend staged m) = amend (part f staged) (part f m).
Proof.
  apply map_eq. intros k. rewrite amend_lookup, !part_lookup, amend_lookup. by destruct (f k).
Qed.

(** Staging one more mutation. *)
Lemma amend_stage staged m v k :
  amend (stage_mutation staged m) v !! k = mutate k (amend staged v !! k) m.
Proof.
  destruct m as [key x|key]; simpl; rewrite !amend_lookup;
    (destruct (String.eqb_spec key k) as [->|Hne];
      [by rewrite lookup_insert_eq|by rewrite lookup_insert_ne]).
Qed.
Lemma amend_stages ms staged v k :
  amend (foldl stage_mutation staged ms) v !! k = foldl (mutate k) (amend staged v !! k) ms.
Proof.
  revert staged. induction ms as [|m ms IH]; intros staged; [done|].
  cbn [foldl]. by rewrite IH, amend_stage.
Qed.

(** ** Pages *)

Lemma insert_all_lookup {V} (l : list (string * V)) (m : gmap string V) k :
  NoDup l.*1 ->
  (forall v, (k, v) ∈ l -> foldl (fun m kv => <[kv.1 := kv.2]> m) m l !! k = Some v) /\
  (k ∉ l.*1 -> foldl (fun m kv => <[kv.1 := kv.2]> m) m l !! k = m !! k).
Proof.
  revert m. induction l as [|[k' v'] l IH]; intros m; cbn [foldl fst snd].
  { split; [by intros v ?%not_elem_of_nil|done]. }
  rewrite fmap_cons. intros [Hn Hd]%NoDup_cons. simpl in Hn.
  destruct (IH (<[k' := v']> m) Hd) as [IH1 IH2]. split.
  - intros v [[= -> ->]|Hin]%elem_of_cons; [|auto]. rewrite IH2 by done. apply lookup_insert_eq.
  - intros [Hne Hk]%not_elem_of_cons. rewrite IH2 by done. by apply lookup_insert_ne.
Qed.
Lemma overlay_records_lookup pre after l m k :
  NoDup l.*1 ->
  (forall x, (k, x) ∈ l ->
     foldl (overlay_record pre after) m l !! k = if in_page pre after k then x else m !! k) /\
  (k ∉ l.*1 -> foldl (overlay_record pre after) m l !! k = m !! k).
Proof.
  revert m. induction l as [|[k' x'] l IH]; intros m; cbn [foldl].
  { split; [by intros x ?%not_elem_of_nil|done]. }
  rewrite fmap_cons. intros [Hn Hd]%NoDup_cons. simpl in Hn.
  assert (overlay_record pre after m (k', x') !! k
    = if decide (k' = k) then if in_page pre after k then x' else m !! k else m !! k) as Hone.
  { unfold overlay_record. cbn [fst snd]. destruct (decide (k' = k)) as [->|Hne].
    - destruct (in_page pre after k), x'; [apply lookup_insert_eq|apply lookup_delete_eq|done..].
    - destruct (in_page pre after k'), x'; [by apply lookup_insert_ne|by apply lookup_delete_ne|done..]. }
  destruct (IH (overlay_record pre after m (k', x')) Hd) as [IH1 IH2]. split.
  - intros x [[= -> ->]|Hin]%elem_of_cons.
    + rewrite IH2, Hone by done. by destruct (decide (k' = k')).
    + rewrite (IH1 x Hin), Hone. destruct (decide (k' = k)) as [->|]; [|done].
      destruct Hn. by apply (list_elem_of_fmap_2 fst) in Hin.
  - intros [Hne Hk]%not_elem_of_cons. rewrite IH2, Hone by done.
    destruct (decide (k' = k)); [|done]. by destruct Hne.
Qed.
Lemma overlay_records_amend pre after staged m :
  foldl (overlay_record pre after) m (sorted_entries staged)
  = amend (part (in_page pre after) staged) m.
Proof.
  apply map_eq. intros k. rewrite amend_lookup, part_lookup.
  destruct (overlay_records_lookup pre after (sorted_entries staged) m k) as [H1 H2];
    [apply sorted_entries_NoDup|].
  destruct (staged !! k) as [x|] eqn:Hk.
  - rewrite (H1 x) by (by apply sorted_entries_elem). by destruct (in_page pre after k).
  - rewrite H2; [by destruct (in_page pre after k)|].
    intros ([k' x] & -> & Hin)%list_elem_of_fmap. apply sorted_entries_elem in Hin. simpl in Hk. congruence.
Qed.

Lemma insert_all_entries {V} (m : gmap string V) :
  foldl (fun m kv => <[kv.1 := kv.2]> m) ∅ (sorted_entries m) = m.
Proof.
  apply map_eq. intros k.
  destruct (insert_all_lookup (sorted_entries m) ∅ k (sorted_entries_NoDup m)) as [H1 H2].
  destruct (m !! k) as [v|] eqn:Hv; [by apply H1, sorted_entries_elem|].
  rewrite H2; [apply lookup_empty|]. intros ([k' v] & -> & Hin%sorted_entries_elem)%list_elem_of_fmap.
  simpl in Hv. congruence.
Qed.

(** A page that does not reach the end of a map is the map up to a key. *)
Lemma page_bound {V} (m : gmap string V) n :
  0 < n -> n <= size m ->
  exists b, take n (sorted_entries m) = sorted_entries (part (fun k => str_leb k b) m).
Proof.
  intros Hn Hm. pose proof (sorted_entries_NoDup m) as Hd.
  pose proof (sorted_entries_sorted m) as Hs. rewrite <- (take_drop n (sorted_entries m)) in Hd, Hs.
  assert (length (take n (sorted_entries m)) = n) as Hlen
    by (apply length_take_le; rewrite sorted_entries_length; lia).
  apply StronglySorted_app in Hs as (Hle & Hsp & _).
  rewrite fmap_app in Hd. apply NoDup_app in Hd as (Hdp & Hdisj & _).
  destruct (last (take n (sorted_entries m))) as [[b vb]|] eqn:Hlast;
    [|apply last_None in Hlast; rewrite Hlast in Hlen; simpl in Hlen; lia].
  apply last_Some in Hlast as [front Hfront]. exists b. apply sorted_entries_unique; [done|done|].
  assert ((b, vb) ∈ take n (sorted_entries m)) as Hb
    by (rewrite Hfront; apply elem_of_app; right; by apply list_elem_of_singleton).
  intros k v. rewrite part_lookup. split.
  - intros Hin. assert (str_leb k b = true) as ->.
    { rewrite Hfront in Hin, Hsp. apply elem_of_app in Hin as [Hin|[= -> ->]%list_elem_of_singleton].
      - apply StronglySorted_app in Hsp as (Hb' & _ & _).
        apply (key_le_iff (k, v) (b, vb)), Hb'; [done|by apply list_elem_of_singleton].
      - by destruct (leb_total b b). }
    apply sorted_entries_elem. rewrite <- (take_drop n (sorted_entries m)). apply elem_of_app. by left.
  - destruct (str_leb k b) eqn:Hkb; [|done]. rewrite <- sorted_entries_elem.
    rewrite <- (take_drop n (sorted_entries m)) at 1. intros [Hin|Hin]%elem_of_app; [done|]. exfalso.
    pose proof (Hle _ _ Hb Hin) as Hbk%key_le_iff. simpl in Hbk.
    pose proof (leb_antisym _ _ Hkb Hbk) as ->.
    apply (Hdisj b); [by apply (list_elem_of_fmap_2 fst) in Hb|by apply (list_elem_of_fmap_2 fst) in Hin].
Qed.

(** Enough of the durable page is fetched: a staged change hides at most one of its records. *)
Lemma amended_page (staged : gmap string (option value)) m limit n :
  0 < limit -> (limit + size staged <= n \/ size m <= n) ->
  take limit (sorted_entries
    (amend staged (foldl (fun m kv => <[kv.1 := kv.2]> m) ∅ (take n (sorted_entries m)))))
  = take limit (sorted_entries (amend staged m)).
Proof.
  intros Hl Hn. destruct (decide (size m <= n)) as [Hle|Hgt].
  { rewrite (take_ge (sorted_entries m)) by (by rewrite sorted_entries_length). by rewrite insert_all_entries. }
  destruct Hn as [Hn|?]; [|done]. destruct (page_bound m n) as [b Hpage]; [lia|lia|].
  pose proof (f_equal length Hpage) as Hsize.
  rewrite sorted_entries_length, length_take_le in Hsize by (rewrite sorted_entries_length; lia).
  rewrite Hpage, insert_all_entries. apply (take_sorted_agree _ _ b).
  - apply map_eq. intros k. rewrite !part_lookup, !amend_lookup, part_lookup.
    destruct (str_leb k b); done.
  - set (low := part (fun k => str_leb k b) m) in *.
    set (res := part (fun k => str_leb k b) (amend staged low)).
    assert (dom low ∖ dom staged ⊆ dom res) as Hsub.
    { intros k [Hk Hs]%elem_of_difference. apply elem_of_dom in Hk as [v Hk].
      apply not_elem_of_dom in Hs. apply elem_of_dom. exists v. unfold res.
      rewrite part_lookup, amend_lookup, Hs, Hk. unfold low in Hk. rewrite part_lookup in Hk.
      by destruct (str_leb k b). }
    apply subseteq_size in Hsub. rewrite size_difference_alt in Hsub.
    pose proof (subseteq_size (dom low ∩ dom staged) (dom staged) ltac:(set_solver)) as Hi.
    rewrite !size_dom in *. lia.
Qed.

(** ** The overlay over a store *)

Section Overlay.
Context `{Externals} `{JournalCodec}.

(** The tables [t'] are those of [t] with the staged mutations applied. *)
Record stands_for (t : Tables) (o : overlay) (t' : Tables) : Prop := mkStandsFor {
  sf_position : forall p, default 0%N (t_positions t' !! p)
    = match o !! p with Some s => pp_through_sequence s | None => default 0%N (t_positions t !! p) end;
  sf_view : forall p, valid_name p = true ->
    view p t' = amend (default ∅ (pp_records <$> o !! p)) (view p t);
}.

(** Nothing is staged under a key the store would refuse. *)
Definition staged_ok (o : overlay) : Prop :=
  forall p s, o !! p = Some s -> valid_name p = true /\
    forall k x, pp_records s !! k = Some x -> valid_name k = true.

Lemma overlay_list_view t o p pre after limit :
  rows_ok (t_records t) -> (N.of_nat (size (t_records t)) <= u64_max)%N -> valid_name p = true ->
  overlay_list_after (store_reader t) o p pre after limit
  = if has_nul pre || is_some_and after has_nul
    then Err (StoreAdapter "projection key cursors may not contain NUL")
    else Ok (page_of pre after limit (amend (default ∅ (pp_records <$> o !! p)) (view p t))).
Proof.
  intros Hr Hsize Hp. unfold overlay_list_after. cbn [store_reader rd_list_after].
  destruct (o !! p) as [s|]; simpl; [|by rewrite list_after_view, amend_empty].
  rewrite !(list_after_view t p pre after _ Hr Hp).
  destruct (has_nul pre || is_some_and after has_nul); [by destruct (limit =? 0)%N|].
  destruct (N.eqb_spec limit 0) as [->|Hl]; [done|]. cbn [mbind result_bind]. f_equal.
  unfold page_of. rewrite amend_part, overlay_records_amend. apply amended_page; [lia|].
  rewrite sorted_entries_part. unfold count. rewrite sorted_entries_length. unfold saturating_add.
  destruct (decide (limit + N.of_nat (size (part (in_page pre after) (pp_records s))) <= u64_max)%N);
    [left; lia|right].
  assert (size (view p t) <= size (t_records t)) as Hview by apply view_size.
  assert (size (part (in_page pre after) (view p t)) <= size (view p t))
    by (apply map_subseteq_size, map_filter_subseteq). lia.
Qed.

(** What is read through the overlay is what a committed store would answer. *)
Lemma overlay_gets t o t' p k :
  rows_ok (t_records t) -> rows_ok (t_records t') -> staged_ok o -> stands_for t o t' ->
  rd_get (overlay_reader (store_reader t) o) p k = rd_get (store_reader t') p k.
Proof.
  intros Hr Hr' Ho [_ Hview]. cbn [overlay_reader store_reader rd_get].
  destruct (valid_name p) eqn:Hp.
  - destruct (valid_name k) eqn:Hk.
    + rewrite !get_view, Hview, amend_lookup by done.
      destruct (o !! p) as [s|]; simpl; [by destruct (pp_records s !! k)|by rewrite lookup_empty].
    + destruct (o !! p ≫= (fun s => pp_records s !! k)) as [x|] eqn:Hx.
      { apply bind_Some in Hx as (s & Hs & Hx). apply (proj2 (Ho _ _ Hs)) in Hx. congruence. }
      by apply get_record_invalid_key.
  - destruct (o !! p) as [s|] eqn:Hs; [destruct (Ho _ _ Hs); congruence|]. simpl.
    by rewrite !get_record_invalid.
Qed.
Lemma overlay_reads t o t' :
  rows_ok (t_records t) -> (N.of_nat (size (t_records t)) <= u64_max)%N -> rows_ok (t_records t') ->
  staged_ok o -> stands_for t o t' ->
  reader_equiv (overlay_reader (store_reader t) o) (store_reader t').
Proof.
  intros Hr Hsize Hr' Ho Hst. pose proof Hst as [Hpos Hview]. constructor.
  - intros p. cbn [overlay_reader store_reader rd_position]. unfold position.
    rewrite Hpos. destruct (o !! p) as [s|] eqn:Hs; [|done].
    by rewrite (valid_name_prefix p (proj1 (Ho _ _ Hs))).
  - intros p k. by apply overlay_gets.
  - intros p pre after limit. cbn [overlay_reader store_reader rd_list_after].
    destruct (valid_name p) eqn:Hp.
    + by rewrite overlay_list_view, list_after_view, Hview by done.
    + unfold overlay_list_after. destruct (o !! p) as [s|] eqn:Hs; [destruct (Ho _ _ Hs); congruence|].
      cbn [store_reader rd_list_after]. by rewrite !list_after_invalid.
Qed.

End Overlay.

(** * Replaying events one at a time

    The specification of the worker: every event of the journal is reduced against the
    store itself and committed at once ([replay_event]); a round replays, for one handler
    after the other, the next events after its position ([replay_round]).  The rest of the
    file relates one event reduced against the overlay to one event replayed. *)

(** ** What a handler promises *)

Definition storable_value (v : value) : Prop := parseable v /\ exact_json v = true.
Definition mutation_ok (m : ProjectionMutation) : Prop :=
  match m with
  | Upsert key v => valid_name key = true /\ storable_value v
  | Delete key => valid_name key = true
  end.
Record reader_storable (r : ProjectionReader) : Prop := {
  rs_get : forall p k v, rd_get r p k = Ok (Some v) -> storable_value v;
  rs_list : forall p pre after limit l, rd_list_after r p pre after limit = Ok l ->
    Forall (fun kv => storable_value kv.2) l;
}.

(** An event and payload a projection can record: a stream whose identifier can be a key,
    a payload that leaves room for the record around it. *)
Record event_fit (event : EventEnvelope) (payload : value) : Prop := {
  ef_stream_nul : has_nul (ev_stream_id event) = false;
  ef_stream_name : ends_with (ev_stream_id event) ":" = false;
  ef_version : (ev_stream_version event <= u64_max)%N;
  ef_exact : exact_json payload = true;
  ef_depth : json_depth payload < MAX_PARSED_DEPTH;
}.

Definition handler_input (h : ProjectionHandler) (payload : value) : value :=
  if h_requires_payload h then payload else Null.
(** A reducer emits what the store takes, *)
Class ProjectionHandlerOk (h : ProjectionHandler) : Prop := {
  ho_name : valid_name (h_name h) = true;
  ho_storable : forall r event payload ms,
    reader_storable r -> event_fit event payload -> h_applies_to h event = true ->
    h_project h r event (handler_input h payload) = Ok ms -> Forall mutation_ok ms;
}.
(** and reads through the store's interface; some only read their own records. *)
Class StoreReducer (h : ProjectionHandler) : Prop :=
  sr_proper :: Proper (reader_equiv ==> eq ==> eq ==> eq) (h_project h).
Class RecordReducer (h : ProjectionHandler) : Prop :=
  rr_reads : forall r r' event payload,
    (forall key, rd_get r (h_name h) key = rd_get r' (h_name h) key) ->
    h_project h r event payload = h_project h r' event payload.
#[export] Instance record_reducer_store h : RecordReducer h -> StoreReducer h.
Proof. intros Hr r r' Heq event ? <- payload ? <-. apply Hr. intros key. apply Heq. Qed.

(** ** The specification *)

Section Replay.
Context `{Externals} `{JournalCodec}.
(** The decrypted payload of each event. *)
Variable payload : EventEnvelope -> value.

Definition reduction (h : ProjectionHandler) (r : ProjectionReader) (event : EventEnvelope)
    : result StoreError (list ProjectionMutation) :=
  if h_applies_to h event then h_project h r event (handler_input h (payload event)) else Ok [].
Definition replay_event (h : ProjectionHandler) (t : Tables) (event : EventEnvelope)
    : result StoreError Tables :=
  mutations ← reduction h (store_reader t) event;
  apply (mkProjectionBatch (h_name h) (ev_global_sequence event - 1) (ev_global_sequence event)
    mutations) t.
Definition reached (t : Tables) (h : ProjectionHandler) : N :=
  default 0%N (t_positions t !! h_name h).
(** The next events of a projection. *)
Definition next_events (l : list EventEnvelope) (limit : N) (t : Tables) (h : ProjectionHandler)
    : list EventEnvelope := take (N.to_nat limit) (drop (N.to_nat (reached t h)) l).
Definition replay_page (l : list EventEnvelope) (limit : N) (t : Tables) (h : ProjectionHandler)
    : result StoreError Tables := try_fold (replay_event h) (next_events l limit t h) t.
Definition replay_round (l : list EventEnvelope) (limit : N) (handlers : list ProjectionHandler)
    (t : Tables) : result StoreError Tables := try_fold (replay_page l limit) handlers t.
End Replay.

(** ** Staged rows *)

Section Rows.
Context `{Externals} `{JournalCodec} `{!JournalCodecOk}.
(** [serde_json::to_vec] of a [Value] does not fail. *)
Hypothesis value_serialises : forall v, exists b, to_vec_value v = Ok b.

Definition encoded (v : value) : option string :=
  match to_vec_value v with Ok b => Some b | Err _ => None end.
Definition staged_row (p : string) (kv : string * option value) : string * option string :=
  (row p kv.1, kv.2 ≫= encoded).

Lemma encoded_Some v : exists b, to_vec_value v = Ok b /\ encoded v = Some b.
Proof. destruct (value_serialises v) as [b Hb]. exists b. unfold encoded. by rewrite Hb. Qed.
Lemma encoded_value v b : storable_value v -> encoded v = Some b -> value_from_slice b = Ok v.
Proof.
  unfold encoded. intros [Hp Hx]. destruct (to_vec_value v) eqn:Hv; [|done]. intros [= <-].
  by apply value_roundtrip.
Qed.

(** The key and the new value of a mutation. *)
Definition change (m : ProjectionMutation) : string * option value :=
  match m with Upsert key v => (key, Some v) | Delete key => (key, None) end.
Lemma encode_changes p ms :
  valid_name p = true -> Forall mutation_ok ms ->
  try_map (encode_mutation p) ms = Ok (staged_row p <$> (change <$> ms)).
Proof.
  intros Hp. induction 1 as [|m ms Hm _ IH]; [done|]. cbn [try_map]. rewrite IH.
  assert (encode_mutation p m = Ok (staged_row p (change m))) as ->; [|done].
  destruct m as [key v|key]; simpl in Hm; unfold encode_mutation.
  - destruct Hm as [Hk _]. rewrite record_key_valid by done.
    destruct (encoded_Some v) as (b & Hb & He). cbn [mbind result_bind]. rewrite Hb.
    unfold staged_row. simpl. by rewrite He.
  - by rewrite record_key_valid.
Qed.

(** The rows of [rec] are those of [base] with [staged] written over them. *)
Definition rows_staged (p : string) (staged : gmap string (option value))
    (base rec : gmap string string) : Prop :=
  forall k, rec !! row p k
    = match staged !! k with Some x => x ≫= encoded | None => base !! row p k end.

Lemma row_key_inj p k k' : row p k = row p k' -> k = k'.
Proof. rewrite !row_append. apply append_inj. Qed.
Lemma row_projection p q k k' :
  valid_name p = true -> valid_name q = true -> row p k = row q k' -> p = q.
Proof. intros Hp Hq Heq. by apply row_inj in Heq as [-> _]. Qed.

Lemma write_row_lookup p kv rec k :
  write_row rec (staged_row p kv) !! row p k
  = if decide (kv.1 = k) then kv.2 ≫= encoded else rec !! row p k.
Proof.
  unfold write_row, staged_row. simpl. destruct (decide (kv.1 = k)) as [<-|Hne].
  - destruct (kv.2 ≫= encoded); [apply lookup_insert_eq|apply lookup_delete_eq].
  - assert (row p kv.1 <> row p k) by (intros ?%row_key_inj; done).
    destruct (kv.2 ≫= encoded); [by apply lookup_insert_ne|by apply lookup_delete_ne].
Qed.
Lemma write_row_other p q kv rec k :
  valid_name p = true -> valid_name q = true -> p <> q ->
  write_row rec (staged_row p kv) !! row q k = rec !! row q k.
Proof.
  intros Hp Hq Hne. assert (row p kv.1 <> row q k) by (intros ?%row_projection; done).
  unfold write_row, staged_row. simpl.
  destruct (kv.2 ≫= encoded); [by apply lookup_insert_ne|by apply lookup_delete_ne].
Qed.
Lemma write_rows_other p q l rec k :
  valid_name p = true -> valid_name q = true -> p <> q ->
  foldl write_row rec (staged_row p <$> l) !! row q k = rec !! row q k.
Proof.
  intros Hp Hq Hne. revert rec. induction l as [|kv l IH]; intros rec; [done|].
  simpl. by rewrite IH, write_row_other.
Qed.

Lemma stage_change staged m k :
  stage_mutation staged m !! k
  = if decide ((change m).1 = k) then Some (change m).2 else staged !! k.
Proof.
  destruct m as [key v|key]; simpl; (destruct (decide (key = k)) as [->|];
    [apply lookup_insert_eq|by apply lookup_insert_ne]).
Qed.
Lemma rows_staged_writes p ms staged base rec :
  rows_staged p staged base rec ->
  rows_staged p (foldl stage_mutation staged ms) base
    (foldl write_row rec (staged_row p <$> (change <$> ms))).
Proof.
  revert staged rec. induction ms as [|m ms IH]; intros staged rec Hr; [done|].
  simpl. apply IH. intros k. rewrite write_row_lookup, stage_change.
  destruct (decide ((change m).1 = k)); [done|apply Hr].
Qed.

(** Writing what is staged, each key once. *)
Lemma write_entries p entries rec k :
  NoDup entries.*1 ->
  (forall x, (k, x) ∈ entries -> foldl write_row rec (staged_row p <$> entries) !! row p k = x ≫= encoded) /\
  (k ∉ entries.*1 -> foldl write_row rec (staged_row p <$> entries) !! row p k = rec !! row p k).
Proof.
  revert rec. induction entries as [|[k' x'] l IH]; intros rec.
  { split; [by intros x ?%not_elem_of_nil|done]. }
  rewrite !fmap_cons. cbn [foldl fst]. intros [Hn Hd]%NoDup_cons. destruct (IH (write_row rec (staged_row p (k', x'))) Hd) as [IH1 IH2].
  split.
  - intros x [[= -> ->]|Hin]%elem_of_cons; [|auto].
    rewrite IH2, write_row_lookup by done. cbn [fst snd]. by destruct (decide _).
  - intros [Hne Hk]%not_elem_of_cons. rewrite IH2, write_row_lookup by done. simpl.
    destruct (decide (k' = k)); [by destruct Hne|done].
Qed.
Lemma rows_staged_entries p staged base :
  rows_staged p staged base (foldl write_row base (staged_row p <$> sorted_entries staged)).
Proof.
  intros k. destruct (write_entries p (sorted_entries staged) base k (sorted_entries_NoDup _)) as [H1' H2'].
  destruct (staged !! k) as [x|] eqn:Hk; [by apply H1', sorted_entries_elem|]. apply H2'.
  intros ([k' x] & -> & Hin%sorted_entries_elem)%list_elem_of_fmap. simpl in Hk. congruence.
Qed.

(** Two tables of well-formed rows are equal when they agree on every row. *)
Lemma rows_ext (rec rec' : gmap string string) :
  rows_ok rec -> rows_ok rec' ->
  (forall p k, valid_name p = true -> rec !! row p k = rec' !! row p k) -> rec = rec'.
Proof.
  intros Hr Hr' Heq.
  assert (forall (m : gmap string string) key b, rows_ok m -> m !! key = Some b ->
    exists p k, valid_name p = true /\ key = row p k) as Hrow.
  { intros m key b Hm Hb. specialize (Hm _ _ Hb). unfold check_record in Hm. inv_ok.
    apply record_key_Ok in E1 as (Hp & _ & _). exists s, s0. split; [done|].
    by apply split_once_Some in E. }
  apply map_eq. intros key. destruct (rec !! key) as [b|] eqn:Hb.
  - destruct (Hrow _ _ _ Hr Hb) as (p & k & Hp & ->). by rewrite <- Heq.
  - destruct (rec' !! key) as [b|] eqn:Hb'; [|done].
    destruct (Hrow _ _ _ Hr' Hb') as (p & k & Hp & ->). rewrite <- Hb. rewrite <- Hb'. by apply Heq.
Qed.

End Rows.
