(* ===== verification/ProjectionHandlersCorrect.v ===== *)
(** * The built-in reducers are well typed

    Every reducer of [handlers.rs] reads only its own records and keeps its projection
    well formed: records nest no deeper than the parser allows, their objects are ordered,
    their integers are in range, and their keys are names the store takes. *)

From S2P Require Import Prelude Json Contracts Boundary Platform CommandApproval.
From S2P Require Import JournalStore Journal JournalVerify ProjectionStore.
From S2P Require Import ProjectionCorrect ProjectionWorker ProjectionHandlers.
From S2P Require Import ProjectionView ProjectionReplay.

Open Scope string_scope.

(** ** Ordered objects *)

Lemma ascending_cons a l :
  ascending_keys (a :: l) = true <-> Forall (fun b => str_ltb a b = true) l /\ ascending_keys l = true.
Proof.
  revert a. induction l as [|b l IH]; intros a; [by split|].
  change (ascending_keys (a :: b :: l)) with (str_ltb a b && ascending_keys (b :: l)).
  rewrite andb_true_iff, Forall_cons. split.
  - intros [Hab Hl]. split_and!; [done| |done]. apply IH in Hl as [Hl _].
    eapply Forall_impl; [exact Hl|]. intros c Hc. by eapply ltb_trans.
  - naive_solver.
Qed.

(** An object that can be stored below [room] more levels. *)
Record fields_ok (room : nat) (fs : fields) : Prop := mkFieldsOk {
  fo_ascending : ascending_keys fs.*1 = true;
  fo_values : Forall (fun kv => exact_json kv.2 = true /\ json_depth kv.2 < room) fs;
}.

Lemma forallb_iff {A} (f : A -> bool) l : forallb f l = true <-> Forall (fun x => f x = true) l.
Proof. rewrite forallb_forall, Forall_forall. by setoid_rewrite list_elem_of_In. Qed.
Lemma object_depth fs d :
  foldr (fun kv d => Nat.max (json_depth (kv : string * value).2) d) 0 fs <= d
  <-> Forall (fun kv => json_depth kv.2 <= d) fs.
Proof.
  induction fs as [|kv fs IH]; simpl; [split; [done|lia]|]. rewrite Forall_cons, <- IH. lia.
Qed.
Lemma storable_object fs : storable_value (Object fs) <-> fields_ok MAX_PARSED_DEPTH fs.
Proof.
  unfold storable_value, parseable. cbn [exact_json json_depth].
  rewrite andb_true_iff, forallb_iff, Nat.le_succ_l.
  pose proof (object_depth fs 126) as Hd. unfold MAX_PARSED_DEPTH.
  split.
  - intros (Hdepth & Hasc & Hv). split; [done|]. rewrite Nat.lt_succ_r in Hdepth.
    apply Hd in Hdepth. rewrite Forall_forall in *. intros kv Hkv. split; [by apply Hv|].
    apply Nat.lt_succ_r. by apply Hdepth.
  - intros [Hasc Hv]. split_and!; [|done|eapply Forall_impl; [exact Hv|]; tauto].
    apply Nat.lt_succ_r, Hd. eapply Forall_impl; [exact Hv|]. intros kv [_ ?]. simpl in *. lia.
Qed.

Lemma fields_ok_mono room room' fs : room <= room' -> fields_ok room fs -> fields_ok room' fs.
Proof.
  intros Hle [Ha Hv]. split; [done|]. eapply Forall_impl; [exact Hv|]. intros kv []. split; [done|lia].
Qed.
Lemma fields_ok_nil room : fields_ok room [].
Proof. by split. Qed.

Lemma map_insert_keys k v fs x : x ∈ (map_insert k v fs).*1 -> x = k \/ x ∈ fs.*1.
Proof.
  induction fs as [|[k' v'] fs IH]; simpl; [by intros ?%list_elem_of_singleton; left|].
  destruct (String.eqb_spec k k') as [->|]; [|destruct (str_ltb k k')]; simpl;
    rewrite ?elem_of_cons; [tauto|tauto|]. intros [->|?%IH]; tauto.
Qed.
Lemma map_insert_ok room k v fs :
  exact_json v = true -> json_depth v < room -> fields_ok room fs -> fields_ok room (map_insert k v fs).
Proof.
  intros Hx Hd [Ha Hv]. split.
  - clear Hv. revert Ha. induction fs as [|[k' v'] fs IH]; [done|]. cbn [map_insert].
    rewrite fmap_cons. intros Ha. destruct (String.eqb_spec k k') as [->|Hne]; [done|].
    destruct (str_ltb k k') eqn:Hlt.
    + rewrite !fmap_cons. apply ascending_cons. split; [|done]. apply Forall_cons. split; [done|].
      apply ascending_cons in Ha as [Ha _]. eapply Forall_impl; [exact Ha|].
      intros c Hc. by eapply ltb_trans.
    + apply ascending_cons in Ha as [Hall Ha]. rewrite fmap_cons. apply ascending_cons.
      split; [|by apply IH]. apply Forall_forall. intros x [->|Hin]%map_insert_keys.
      * rewrite ltb_leb in *. apply negb_false_iff in Hlt. apply negb_true_iff.
        destruct (str_leb k k') eqn:Hle; [|done]. destruct Hne. by apply leb_antisym.
      * rewrite Forall_forall in Hall. by apply Hall.
  - clear Ha. induction Hv as [|[k' v'] fs Hkv Hv IH]; cbn [map_insert].
    + by apply Forall_singleton.
    + destruct (String.eqb k k'); [by apply Forall_cons|].
      destruct (str_ltb k k'); [apply Forall_cons; split; [done|]; by apply Forall_cons|].
      by apply Forall_cons.
Qed.
Lemma map_extend_ok room fs new :
  fields_ok room fs -> Forall (fun kv => exact_json kv.2 = true /\ json_depth kv.2 < room) new ->
  fields_ok room (map_extend fs new).
Proof.
  unfold map_extend. intros Hf Hn. revert fs Hf. induction Hn as [|kv new [] _ IH]; [done|].
  intros fs Hf. cbn [foldl]. apply IH. by apply map_insert_ok.
Qed.

(** Fields of a payload. *)
Lemma field_elem k fs v : field k fs = Some v -> (k, v) ∈ fs.
Proof.
  induction fs as [|[k' v'] fs IH]; simpl; [done|].
  destruct (String.eqb_spec k k') as [->|]; [intros [= ->]; left|]. intros ?%IH. by right.
Qed.
Lemma object_fields v fs room :
  as_object v = Some fs -> exact_json v = true -> json_depth v <= room -> fields_ok room fs.
Proof.
  destruct v; try done. intros [= ->]. cbn [exact_json json_depth].
  rewrite andb_true_iff, forallb_iff. intros [Ha Hv] Hd.
  apply Nat.le_succ_l in Hd. split; [done|].
  assert (foldr (fun kv d => Nat.max (json_depth (kv : string * value).2) d) 0 fs <= room - 1) as Hd' by lia.
  apply object_depth in Hd'. rewrite Forall_forall in *. intros kv Hkv.
  split; [by apply Hv|]. specialize (Hd' _ Hkv). simpl in Hd'. lia.
Qed.
Lemma get_fields k v x room :
  get k v = Some x -> exact_json v = true -> json_depth v <= room ->
  exact_json x = true /\ json_depth x < room.
Proof.
  destruct v as [| | | | |fs]; try done. simpl. intros Hk%field_elem Hx Hd.
  destruct (object_fields (Object fs) fs room eq_refl Hx Hd) as [_ Hv].
  rewrite Forall_forall in Hv. by apply (Hv (k, x)).
Qed.

(** ** Values the reducers build *)

Lemma json_n_exact n : (n <= u64_max)%N -> exact_json (json_n n) = true.
Proof. intros Hn. simpl. by apply N.leb_le. Qed.
Lemma saturating_exact a b : exact_json (json_n (saturating_add a b)) = true.
Proof. apply json_n_exact. unfold saturating_add. lia. Qed.
Lemma storable_fields v : storable_value v -> fields_ok MAX_PARSED_DEPTH (object v).
Proof.
  destruct v; try (intros _; apply fields_ok_nil). apply storable_object.
Qed.
Lemma index_set_ok k v current v' :
  exact_json v = true -> json_depth v < MAX_PARSED_DEPTH -> storable_value current ->
  index_set k v current = Ok v' -> storable_value v'.
Proof.
  intros Hx Hd Hc. destruct current as [| | | | |fs]; simpl; try done; intros [= <-];
    apply storable_object.
  - by apply (map_insert_ok _ k v []), fields_ok_nil.
  - by apply map_insert_ok, storable_object.
Qed.

Section Payload.
Context (payload : value).
Hypothesis (Hexact : exact_json payload = true) (Hdepth : json_depth payload < MAX_PARSED_DEPTH).

Lemma get_payload k v : get k payload = Some v -> exact_json v = true /\ json_depth v < 126.
Proof. intros Hk. eapply get_fields; [exact Hk|done|unfold MAX_PARSED_DEPTH in *; lia]. Qed.
Lemma field_or_null_ok k :
  exact_json (field_or_null k payload) = true /\ json_depth (field_or_null k payload) < 126.
Proof.
  unfold field_or_null. destruct (get k payload) eqn:Hk; simpl; [by apply (get_payload k)|lia].
Qed.
Lemma payload_fields fs : as_object payload = Some fs -> fields_ok MAX_PARSED_DEPTH fs.
Proof. intros Hp. eapply object_fields; [done|done|unfold MAX_PARSED_DEPTH in *; lia]. Qed.

Lemma copy_field_ok from to current v :
  storable_value current -> copy_field from to payload current = Ok v -> storable_value v.
Proof.
  unfold copy_field. intros Hc. destruct (get from payload) as [x|] eqn:Hx; [|by intros [= <-]].
  apply get_payload in Hx as [? ?]. apply index_set_ok; [done|unfold MAX_PARSED_DEPTH; lia|done].
Qed.
Lemma started_run_ok run_id : storable_value (started_run run_id payload).
Proof.
  apply storable_object. unfold started_run. split; [done|].
  pose proof (field_or_null_ok "inputs"). pose proof (field_or_null_ok "workflow_hash").
  pose proof (field_or_null_ok "workflow_name"). pose proof (field_or_null_ok "workflow_version").
  unfold MAX_PARSED_DEPTH. repeat (apply Forall_cons; split); try apply Forall_nil_2; cbn [snd];
    (split; [tauto || done|]); try (simpl; lia).
Qed.

Context (event : EventEnvelope) (Hversion : (ev_stream_version event <= u64_max)%N).

Ltac insert_ok :=
  repeat (apply map_insert_ok; [first [done|by apply json_n_exact|apply saturating_exact|by apply field_or_null_ok]
    |first [simpl; unfold MAX_PARSED_DEPTH; lia
           |pose proof (field_or_null_ok "title"); pose proof (field_or_null_ok "run_id");
            unfold MAX_PARSED_DEPTH; lia]|]).

Lemma set_identity_ok id fs :
  fields_ok MAX_PARSED_DEPTH fs -> fields_ok MAX_PARSED_DEPTH (set_identity id event fs).
Proof using Hversion. clear Hdepth. intros Hf. unfold set_identity. by insert_ok. Qed.
Lemma session_fields_ok fs :
  fields_ok MAX_PARSED_DEPTH fs -> fields_ok MAX_PARSED_DEPTH (session_fields event payload fs).
Proof.
  intros Hf. unfold session_fields. repeat case_match; insert_ok; try done; by insert_ok.
Qed.

Lemma run_event_ok run_id run run' :
  storable_value run -> run_event run_id event payload run = Ok (Some run') -> storable_value run'.
Proof.
  intros Hr. unfold run_event. pose proof (field_or_null_ok "outputs") as [Hox Hod].
  repeat case_match; intros Hok; try done;
    try (injection Hok as <-; apply started_run_ok); inv_ok;
    repeat match goal with
    | Hi : index_set _ _ run = Ok ?r |- _ =>
        assert (storable_value r) by
          (eapply index_set_ok; [..|exact Hi]; [try apply saturating_exact; done|simpl; unfold MAX_PARSED_DEPTH; lia|done]);
        clear Hi
    end; try done.
  eapply index_set_ok; [exact Hox|unfold MAX_PARSED_DEPTH; lia| |eassumption]. done.
Qed.

Lemma merge_event_ok r p key v :
  reader_storable r -> merge_event r p key event payload = Ok v -> storable_value v.
Proof.
  intros Hr Hm. unfold merge_event in Hm. inv_ok. apply storable_object, set_identity_ok.
  assert (fields_ok MAX_PARSED_DEPTH (default [] (object <$> x))) as Hcur.
  { destruct x as [current|]; simpl; [|apply fields_ok_nil].
    apply storable_fields. by eapply rs_get. }
  destruct (as_object payload) as [fs|] eqn:Hfs.
  - apply map_extend_ok; [done|]. by apply payload_fields.
  - by apply map_insert_ok.
Qed.
End Payload.

(** ** Keys *)

Lemma has_nul_append a b : has_nul (a ++s b) = has_nul a || has_nul b.
Proof. unfold has_nul, contains_byte. by rewrite bytes_append, existsb_app. Qed.
Lemma stream_rest p id s :
  strip_prefix p s = Some id -> ends_with p ":" = true -> has_nul s = false ->
  ends_with s ":" = false -> valid_name id = true.
Proof.
  intros Hs%strip_prefix_Some Hp Hn He. rewrite Hs in Hn, He. rewrite has_nul_append in Hn.
  apply orb_false_iff in Hn as [_ Hn]. unfold valid_name. rewrite Hn, orb_false_r.
  apply negb_true_iff. destruct id; [|done]. exfalso.
  assert ((p ++s "") = p) as Heq by (clear; induction p as [|c p IH]; [done|by rewrite append_cons, IH]).
  rewrite Heq in He. congruence.
Qed.
Lemma stream_valid p s : starts_with s p = true -> is_empty p = false -> has_nul s = false -> valid_name s = true.
Proof.
  intros (r & ->)%starts_with_spec He Hn. unfold valid_name. rewrite Hn, orb_false_r.
  destruct p; [done|]. by rewrite append_cons.
Qed.
Lemma prefixed_valid p id : has_nul p = false -> is_empty p = false -> valid_name id = true ->
  valid_name (p ++s id) = true.
Proof.
  intros Hp He Hid%valid_name_nul. unfold valid_name. rewrite has_nul_append, Hp, Hid.
  destruct p; [done|]. by rewrite append_cons.
Qed.
Lemma starts_strip s p : starts_with s p = true -> exists r, strip_prefix p s = Some r.
Proof. intros (r & ->)%starts_with_spec. exists r. apply strip_prefix_append. Qed.

(** ** The reducers *)

Lemma upsert_ok key v : valid_name key = true -> storable_value v -> Forall mutation_ok (upsert key v).
Proof. intros Hk Hv. by apply Forall_singleton. Qed.

#[export] Instance session_reads : RecordReducer SessionProjection.
Proof.
  intros r r' event payload Heq. cbn [SessionProjection h_project h_name] in *.
  destruct (strip_prefix _ _); [by rewrite Heq|done].
Qed.
#[export] Instance session_ok : ProjectionHandlerOk SessionProjection.
Proof.
  split; [done|]. intros r event payload ms Hr [Hn He Hv Hx Hd] _ Hp.
  change (handler_input SessionProjection payload) with payload in Hp.
  cbn [SessionProjection h_project] in Hp.
  destruct (strip_prefix "session:" (ev_stream_id event)) as [id|] eqn:Hs; [|by injection Hp as <-].
  inv_ok. apply upsert_ok; [by eapply stream_rest|]. apply storable_object.
  apply set_identity_ok; [done|]. apply session_fields_ok; [done|done|done|].
  destruct x as [current|]; simpl; [|apply fields_ok_nil].
  apply storable_fields. by eapply rs_get.
Qed.

#[export] Instance work_reads : RecordReducer WorkProjection.
Proof.
  intros r r' event payload Heq. cbn [WorkProjection h_project h_name] in *.
  unfold merge_event. by rewrite Heq.
Qed.
#[export] Instance work_ok : ProjectionHandlerOk WorkProjection.
Proof.
  split; [done|]. intros r event payload ms Hr [Hn He Hv Hx Hd] Happ Hp.
  change (handler_input WorkProjection payload) with payload in Hp.
  cbn [WorkProjection h_project h_applies_to] in *. rewrite Happ in Hp. cbn [negb] in Hp.
  assert (valid_name (ev_stream_id event) = true) as Hid.
  { unfold work_stream in Happ. apply existsb_exists in Happ as (p & Hin & Hst).
    eapply stream_valid; [exact Hst| |done]. by destruct Hin as [<-|[<-|[<-|[<-|[]]]]]. }
  destruct (get "record" payload) as [record|] eqn:Hrec.
  - injection Hp as <-. apply upsert_ok; [done|]. apply storable_object.
    destruct (get_payload payload Hx Hd _ _ Hrec) as [Hrx Hrd].
    repeat (apply map_insert_ok;
      [first [done|by apply json_n_exact]|simpl; unfold MAX_PARSED_DEPTH; lia|]).
    apply storable_fields. split; [unfold parseable, MAX_PARSED_DEPTH; lia|done].
  - inv_ok. apply upsert_ok; [done|]. by eapply merge_event_ok.
Qed.

#[export] Instance memory_reads : RecordReducer MemoryProjection.
Proof.
  intros r r' event payload Heq. cbn [MemoryProjection h_project h_name] in *.
  destruct (strip_prefix _ _); [by rewrite Heq|done].
Qed.
#[export] Instance memory_ok : ProjectionHandlerOk MemoryProjection.
Proof.
  split; [done|]. intros r event payload ms Hr [Hn He Hv Hx Hd] _ Hp.
  change (handler_input MemoryProjection payload) with payload in Hp.
  cbn [MemoryProjection h_project] in Hp.
  destruct (strip_prefix "memory:" (ev_stream_id event)) as [id|] eqn:Hs; [|by injection Hp as <-].
  assert (valid_name id = true) as Hid by (by eapply stream_rest).
  destruct (_ || _); [|destruct (_ || _); [|by injection Hp as <-]]; inv_ok.
  - apply upsert_ok; [done|].
    match goal with Hrec : get "record" payload = Some _ |- _ =>
      destruct (get_payload payload Hx Hd _ _ Hrec) as [Hrx Hrd] end.
    split; [unfold parseable, MAX_PARSED_DEPTH; lia|done].
  - apply upsert_ok; [done|]. subst.
    eapply copy_field_ok; [exact Hx|exact Hd| |eassumption].
    eapply copy_field_ok; [exact Hx|exact Hd| |eassumption].
    eapply index_set_ok; [..|eassumption]; [done|simpl; unfold MAX_PARSED_DEPTH; lia|].
    by eapply rs_get.
Qed.

#[export] Instance workflow_reads : RecordReducer WorkflowProjection.
Proof.
  intros r r' event payload Heq. cbn [WorkflowProjection h_project h_name] in *.
  unfold merge_event. destruct (strip_prefix _ _); [by rewrite Heq|].
  destruct (strip_prefix _ _); [by rewrite Heq|done].
Qed.
#[export] Instance workflow_ok : ProjectionHandlerOk WorkflowProjection.
Proof.
  split; [done|]. intros r event payload ms Hr [Hn He Hv Hx Hd] _ Hp.
  change (handler_input WorkflowProjection payload) with payload in Hp.
  cbn [WorkflowProjection h_project] in Hp.
  destruct (strip_prefix "workflow-definition:" (ev_stream_id event)) as [id|] eqn:Hs.
  - inv_ok. apply upsert_ok; [|by eapply merge_event_ok].
    apply prefixed_valid; [done|done|]. by eapply stream_rest.
  - destruct (strip_prefix "workflow-run:" (ev_stream_id event)) as [id|] eqn:Hs'; [|by injection Hp as <-].
    apply bind_Ok in Hp as (stored & Hg & Hp). apply bind_Ok in Hp as (run & Hrun & Hp).
    destruct run as [run|]; [|by injection Hp as <-]. inv_ok.
    apply upsert_ok; [apply prefixed_valid; [done|done|by eapply stream_rest]|].
    eapply index_set_ok; [..|eassumption]; [done|simpl; unfold MAX_PARSED_DEPTH; lia|].
    eapply index_set_ok; [..|eassumption]; [by apply json_n_exact|simpl; unfold MAX_PARSED_DEPTH; lia|].
    eapply run_event_ok; [exact Hx|exact Hd|exact Hv| |exact Hrun].
    destruct stored as [v|]; simpl; [by eapply rs_get|]. apply storable_object, fields_ok_nil.
Qed.

(** The serde form of a pending effect: it is read back, and is storable. *)
Definition effect_u64 (e : PendingEffect) : Prop :=
  (pe_started_stream_version e <= u64_max)%N /\ (pe_latest_stream_version e <= u64_max)%N.
Class EffectCodecOk `{EffectCodec} : Prop := {
  effect_encodes : forall e, effect_u64 e -> exists v, effect_to_value e = Ok v;
  effect_storable : forall e v, effect_u64 e -> effect_to_value e = Ok v -> storable_value v;
  effect_roundtrip : forall e v, effect_u64 e -> effect_to_value e = Ok v -> effect_from_value v = Ok e;
  effect_from_u64 : forall v e, effect_from_value v = Ok e -> effect_u64 e;
}.

#[export] Instance effect_reads `{EffectCodec} : RecordReducer EffectRecoveryProjection.
Proof.
  intros r r' event payload Heq. cbn [EffectRecoveryProjection h_project h_name] in *.
  unfold effect_mutations. by rewrite Heq.
Qed.
#[export] Instance effect_ok `{EffectCodec} `{!EffectCodecOk} :
  ProjectionHandlerOk EffectRecoveryProjection.
Proof.
  split; [done|]. intros r event payload ms Hr [Hn He Hv Hx Hd] Happ Hp.
  cbn [EffectRecoveryProjection h_project h_applies_to] in *.
  assert (valid_name (ev_stream_id event) = true) as Hid by (by eapply stream_valid).
  unfold effect_mutations, adapter_error in Hp. repeat case_match; inv_ok.
  - apply upsert_ok; [done|]. eapply effect_storable; [|eassumption]. by split.
  - by apply Forall_singleton.
  - case_match; inv_ok; [|done]. apply upsert_ok; [done|].
    eapply effect_storable; [|eassumption]. unfold stored_effect in *. inv_ok.
    match goal with Hd' : effect_from_value _ = Ok _ |- _ =>
      pose proof (effect_from_u64 _ _ Hd') as [? ?] end. by split.
Qed.

(** C12. Every built-in reducer but the session activity timeline keeps its projection
    well typed: whichever handler the timeline is, each of the other five, from well-formed records, for an event whose stream can name a record and whose payload
    leaves a level of nesting free, it emits mutations whose keys the store takes and whose
    values are read back exactly; and it depends on nothing but its own records. *)
Theorem builtin_projections_typed `{EffectCodec} `{!EffectCodecOk} activity h r event payload ms :
  h ∈ default_handlers activity -> h <> activity -> reader_storable r -> event_fit event payload ->
  h_applies_to h event = true -> h_project h r event (handler_input h payload) = Ok ms ->
  Forall mutation_ok ms /\
  forall r', (forall key, rd_get r (h_name h) key = rd_get r' (h_name h) key) ->
    h_project h r' event (handler_input h payload) = Ok ms.
Proof.
  intros Hh Hact Hr Hf Ha Hp. unfold default_handlers in Hh.
  assert (ProjectionHandlerOk h /\ RecordReducer h) as [Hok Hread].
  { do 5 (apply elem_of_cons in Hh as [->|Hh]; [split; apply _|]). by apply list_elem_of_singleton in Hh. }
  split; [by eapply ho_storable|]. intros r' Heq. by rewrite <- (rr_reads _ _ _ _ Heq).
Qed.

(** ** A codec *)

Section Test.

(** The fields in key order, as [serde_json] writes and reads them. *)
Definition test_effect_to_value (e : PendingEffect) : value :=
  Object [("latest_stream_version", json_n (pe_latest_stream_version e));
    ("started_event_id", Str (pe_started_event_id e));
    ("started_stream_version", json_n (pe_started_stream_version e));
    ("stream_id", Str (pe_stream e))].
Definition test_effect_from_value (v : value) : result string PendingEffect :=
  match v with
  | Object [(k1, Number (PosInt latest)); (k2, Str id); (k3, Number (PosInt started)); (k4, Str stream)] =>
      if String.eqb k1 "latest_stream_version" && String.eqb k2 "started_event_id"
         && String.eqb k3 "started_stream_version" && String.eqb k4 "stream_id"
         && (latest <=? u64_max)%N && (started <=? u64_max)%N
      then Ok (mkPendingEffect stream started latest id) else Err "invalid type"
  | _ => Err "invalid type"
  end.
Definition test_effect_codec : EffectCodec := {|
  effect_to_value e := Ok (test_effect_to_value e);
  effect_from_value := test_effect_from_value;
|}.
#[local] Existing Instance test_effect_codec.
Lemma test_effect_codec_ok : EffectCodecOk.
Proof.
  split.
  - by eexists.
  - intros e v [Hs Hl] [= <-]. apply storable_object. split; [done|].
    repeat (apply Forall_cons; split); try apply Forall_nil_2; cbn [snd];
      (split; [first [done|by apply json_n_exact]|simpl; unfold MAX_PARSED_DEPTH; lia]).
  - intros e v [Hs Hl] [= <-]. simpl. apply N.leb_le in Hs, Hl. rewrite Hs, Hl. by destruct e.
  - intros v e. simpl. unfold test_effect_from_value. repeat case_match; try done. intros [= <-].
    inv_bool. split; simpl; by apply N.leb_le.
Qed.

Definition empty_reader : ProjectionReader :=
  mkProjectionReader (fun _ => Ok 0%N) (fun _ _ => Ok None) (fun _ _ _ _ => Ok []).
Definition started_event : EventEnvelope :=
  mkEventEnvelope 1 1 "e1" 1 "effect:1" 1 EC_Effect "effect.started.v1" (mkActor User "alice")
    default_context "2026-01-01T00:00:00Z" (mkEncryptedPayload "" "" "" "" "") "" "".
Definition session_event : EventEnvelope :=
  mkEventEnvelope 1 1 "e2" 2 "session:1" 1 EC_Domain "session.created.v1" (mkActor User "alice")
    default_context "2026-01-01T00:00:00Z" (mkEncryptedPayload "" "" "" "" "") "" "".
Definition session_payload : value := Object [("title", Str "first")].
Lemma empty_reader_storable : reader_storable empty_reader.
Proof. split; [done|]. intros p pre after limit l [= <-]. apply Forall_nil_2. Qed.

Definition test_activity : ProjectionHandler :=
  mkProjectionHandler "session-activity-v5" (fun _ => false) true (fun _ _ _ => Ok []).
Lemma builtin_projections_typed_witness :
  exists ms ms', h_project SessionProjection empty_reader session_event session_payload = Ok ms /\
    Forall mutation_ok ms /\
    h_project EffectRecoveryProjection empty_reader started_event Null = Ok ms' /\
    Forall mutation_ok ms'.
Proof.
  do 2 eexists. split_and!; [reflexivity| |reflexivity|].
  - eapply (builtin_projections_typed (H0 := test_effect_codec_ok) test_activity SessionProjection
      empty_reader session_event session_payload); [by left|intros Heq; discriminate (f_equal h_name Heq)|apply empty_reader_storable| |done|done].
    split; [done|done|done|done|simpl; unfold MAX_PARSED_DEPTH; lia].
  - eapply (builtin_projections_typed (H0 := test_effect_codec_ok) test_activity EffectRecoveryProjection
      empty_reader started_event Null); [by do 4 right; left|intros Heq; discriminate (f_equal h_name Heq)|apply empty_reader_storable| |done|done].
    split; [done|done|done|done|simpl; unfold MAX_PARSED_DEPTH; lia].
Defined.
End Test.
