(* ===== verification/ProjectionSim.v ===== *)
(** * Overlay and store, event by event

    [simulates t o t']: the tables [t'], to which a replay has committed every event, are
    the tables [t] of a round with the overlay [o] staged over them.  Reducing an event
    keeps it ([simulates_event]) and committing the round's batches turns [t] into [t']
    ([simulates_commit]). *)

From S2P Require Import Prelude Json Contracts Boundary Platform CommandApproval.
From S2P Require Import JournalStore Journal JournalVerify ProjectionStore.
From S2P Require Import JournalModel JournalCorrect JournalPort ProjectionCorrect.
From S2P Require Import Store ExternalWork ProjectionWorker ProjectionView ProjectionReplay.

Open Scope string_scope.

Section Sim.
Context `{Externals} `{JournalCodec} `{!JournalCodecOk}.
Hypothesis value_serialises : forall v, exists b, to_vec_value v = Ok b.

Definition views_storable (t : Tables) : Prop :=
  forall p k v, valid_name p = true -> view p t !! k = Some v -> storable_value v.

Definition staged_records (o : overlay) (p : string) : gmap string (option value) :=
  default ∅ (pp_records <$> o !! p).

Record simulates (t : Tables) (o : overlay) (t' : Tables) : Prop := mkSimulates {
  si_rest : t' = set_rows (t_positions t') (t_records t') t;
  si_positions : forall p, t_positions t' !! p
    = match o !! p with Some s => Some (pp_through_sequence s) | None => t_positions t !! p end;
  si_rows : forall p, valid_name p = true ->
    rows_staged p (staged_records o p) (t_records t) (t_records t');
  si_ok : rows_ok (t_records t');
  si_base_ok : rows_ok (t_records t);
  si_base_storable : views_storable t;
  si_staged : forall p s, o !! p = Some s ->
    valid_name p = true /\
    (forall k x, pp_records s !! k = Some x ->
       valid_name k = true /\ forall v, x = Some v -> storable_value v) /\
    pp_expected_position s = default 0%N (t_positions t !! p) /\
    (pp_expected_position s < pp_through_sequence s)%N;
}.

Lemma set_rows_id t : set_rows (t_positions t) (t_records t) t = t.
Proof. by destruct t. Qed.
Lemma rest_set t t' positions records :
  t' = set_rows (t_positions t') (t_records t') t ->
  set_rows positions records t' = set_rows positions records t.
Proof. intros Heq. by rewrite Heq. Qed.
Lemma simulates_start t : rows_ok (t_records t) -> views_storable t -> simulates t ∅ t.
Proof.
  intros Hr Hv. constructor; try done. by rewrite set_rows_id.
Qed.

(** ** What the simulation means to a reader *)

Section Read.
Context {t o t'} (Hsim : simulates t o t').

Lemma simulates_staged_ok : staged_ok o.
Proof.
  intros p s Hs. destruct (si_staged _ _ _ Hsim _ _ Hs) as (Hp & Hk & _).
  split; [done|]. intros k x Hx. by destruct (Hk _ _ Hx).
Qed.
Lemma simulates_staged_value p k v :
  staged_records o p !! k = Some (Some v) -> storable_value v.
Proof.
  unfold staged_records. destruct (o !! p) as [s|] eqn:Hs; simpl; [|by rewrite lookup_empty].
  intros Hk. destruct (si_staged _ _ _ Hsim _ _ Hs) as (_ & Hv & _). by eapply Hv.
Qed.
Lemma simulates_view p : valid_name p = true -> view p t' = amend (staged_records o p) (view p t).
Proof.
  intros Hp. apply map_eq. intros k. apply option_eq. intros v.
  rewrite view_lookup, amend_lookup, (si_rows _ _ _ Hsim p Hp k).
  destruct (staged_records o p !! k) as [[v'|]|] eqn:Hk.
  - destruct (encoded_Some value_serialises v') as (b & Hb & He). simpl. rewrite He.
    apply simulates_staged_value in Hk. pose proof (encoded_value _ _ Hk He) as Hv. split.
    + intros (b' & [= <-] & Hb'). congruence.
    + intros [= <-]. eauto.
  - simpl. split; [by intros (b & ? & _)|done].
  - by rewrite view_lookup.
Qed.
Lemma simulates_stands_for : stands_for t o t'.
Proof.
  constructor; [|apply simulates_view]. intros p. rewrite (si_positions _ _ _ Hsim).
  by destruct (o !! p).
Qed.
Lemma simulates_storable : views_storable t'.
Proof.
  intros p k v Hp. rewrite (simulates_view p Hp), amend_lookup.
  destruct (staged_records o p !! k) as [x|] eqn:Hk; [|by apply (si_base_storable _ _ _ Hsim)].
  intros ->. by eapply simulates_staged_value.
Qed.
End Read.

Lemma store_reader_storable t :
  rows_ok (t_records t) -> views_storable t -> reader_storable (store_reader t).
Proof.
  intros Hr Hv. constructor.
  - intros p k v. cbn [store_reader rd_get]. intros Hg.
    destruct (valid_name p) eqn:Hp; [|by rewrite get_record_invalid in Hg].
    destruct (valid_name k) eqn:Hk.
    + rewrite get_view in Hg by done. injection Hg as Hg. exact (Hv _ _ _ Hp Hg).
    + revert Hg. unfold valid_name, get_record, projection_record_key in *.
      apply negb_true_iff in Hp. apply negb_false_iff in Hk. by rewrite Hp, Hk.
  - intros p pre after limit l. cbn [store_reader rd_list_after]. intros Hl.
    destruct (valid_name p) eqn:Hp; [|by rewrite list_after_invalid in Hl].
    rewrite list_after_view in Hl by done. destruct (_ || _); [done|]. injection Hl as <-.
    apply Forall_take, Forall_forall. intros [k v] Hin%sorted_entries_elem.
    rewrite part_lookup in Hin. destruct (in_page _ _ _); [|done]. exact (Hv _ _ _ Hp Hin).
Qed.

(** ** One event *)

Lemma stage_lookup p expected through ms o q :
  stage p expected through ms o !! q
  = if decide (p = q)
    then Some (mkPendingProjection (default expected (pp_expected_position <$> o !! p)) through
                 (foldl stage_mutation (staged_records o p) ms))
    else o !! q.
Proof.
  unfold stage, staged_records. destruct (decide (p = q)) as [<-|Hne].
  - rewrite lookup_insert_eq. by destruct (o !! p).
  - by rewrite lookup_insert_ne.
Qed.
Lemma staged_changes staged ms k x :
  foldl stage_mutation staged ms !! k = Some x ->
  staged !! k = Some x \/ exists m, m ∈ ms /\ change m = (k, x).
Proof.
  revert staged. induction ms as [|m ms IH]; intros staged; simpl; [by left|].
  intros [Hk|(m' & Hm & Hc)]%IH.
  - rewrite stage_change in Hk. destruct (decide ((change m).1 = k)) as [<-|]; [|by left].
    injection Hk as <-. right. exists m. split; [by left|by destruct (change m)].
  - right. exists m'. split; [by right|done].
Qed.
Lemma change_ok m k x :
  mutation_ok m -> change m = (k, x) ->
  valid_name k = true /\ forall v, x = Some v -> storable_value v.
Proof. destruct m; simpl; naive_solver. Qed.

(** One committed event. *)
Definition committed (h : ProjectionHandler) (sequence : N) (ms : list ProjectionMutation)
    (t : Tables) : Tables :=
  set_rows (<[h_name h := sequence]> (t_positions t))
    (foldl write_row (t_records t) (staged_row (h_name h) <$> (change <$> ms))) t.

Lemma apply_event h sequence ms t :
  valid_name (h_name h) = true -> Forall mutation_ok ms -> (reached t h + 1 = sequence)%N ->
  apply (mkProjectionBatch (h_name h) (sequence - 1) sequence ms) t = Ok (committed h sequence ms t).
Proof.
  intros Hp Hms Hseq. unfold apply, apply_all. cbn [try_map].
  unfold encode_projection_batch. cbn [pb_projection pb_through_sequence pb_expected_position pb_mutations].
  rewrite (valid_name_prefix _ Hp). cbn [mbind result_bind].
  destruct (N.leb_spec sequence (sequence - 1)); [lia|]. cbn [reject mbind result_bind].
  rewrite (encode_changes value_serialises _ _ Hp Hms). cbn [mbind result_bind try_fold].
  unfold apply_encoded. cbn [eb_projection eb_expected_position eb_through_sequence eb_mutations].
  fold (reached t h). destruct (N.eqb_spec (reached t h) (sequence - 1)); [done|lia].
Qed.

Lemma simulates_committed h sequence ms t o t' :
  simulates t o t' -> valid_name (h_name h) = true -> Forall mutation_ok ms ->
  (reached t' h + 1 = sequence)%N ->
  simulates t (stage (h_name h) (reached t h) sequence ms o) (committed h sequence ms t').
Proof.
  intros Hsim Hp Hms Hseq. set (n := h_name h) in *. constructor.
  - unfold committed. by rewrite (rest_set _ _ _ _ (si_rest _ _ _ Hsim)).
  - intros p. rewrite stage_lookup. unfold committed. cbn [set_rows t_positions]. fold n.
    destruct (decide (n = p)) as [<-|Hne]; [by rewrite lookup_insert_eq|].
    rewrite lookup_insert_ne by done. apply Hsim.
  - intros p Hpv. unfold staged_records at 1. rewrite stage_lookup. unfold committed.
    cbn [set_rows t_records]. fold n. destruct (decide (n = p)) as [<-|Hne].
    + simpl. by apply rows_staged_writes, Hsim.
    + fold (staged_records o p). intros k. rewrite write_rows_other by done. by apply Hsim.
  - unfold committed. cbn [set_rows t_records].
    eapply write_rows_ok; [by apply encode_changes| |apply Hsim].
    eapply Forall_impl; [exact Hms|]. intros [k v|k] Hm; [apply Hm|done].
  - apply Hsim.
  - apply Hsim.
  - intros p s. rewrite stage_lookup. destruct (decide (n = p)) as [<-|Hne]; [|apply Hsim].
    intros [= <-]. cbn [pp_expected_position pp_through_sequence pp_records].
    assert (default (reached t h) (pp_expected_position <$> o !! n) = reached t h
      /\ (reached t h <= reached t' h)%N) as [Hexp Hle].
    { unfold reached. fold n. rewrite (si_positions _ _ _ Hsim n).
      destruct (o !! n) as [s|] eqn:Hs; simpl; [|by split].
      destruct (si_staged _ _ _ Hsim _ _ Hs) as (_ & _ & He & Hl). rewrite <- He. split; [done|lia]. }
    rewrite Hexp. split_and!; [done| |done|lia].
    intros k x [Hold|(m & Hm & Hc)]%staged_changes.
    + unfold staged_records in Hold. destruct (o !! n) as [s|] eqn:Hs; [|by simpl in Hold; rewrite lookup_empty in Hold].
      destruct (si_staged _ _ _ Hsim _ _ Hs) as (_ & Hk & _). by apply Hk.
    + rewrite Forall_forall in Hms. by eapply change_ok; [apply Hms|].
Qed.

(** ** The commit *)

Lemma apply_all_cons b e bs t t1 :
  encode_projection_batch b = Ok e -> apply_encoded t e = Ok t1 ->
  apply_all (b :: bs) t = apply_all bs t1.
Proof.
  intros He Ha. unfold apply_all. cbn [try_map]. rewrite He. cbn [mbind result_bind].
  destruct (try_map encode_projection_batch bs); [|done]. cbn [mbind result_bind try_fold].
  by rewrite Ha.
Qed.
Lemma change_pending kv : change (pending_mutation kv) = kv.
Proof. by destruct kv as [k [v|]]. Qed.

(** The batch of one projection. *)
Definition committed_batch (p : string) (s : PendingProjection) (t : Tables) : Tables :=
  set_rows (<[p := pp_through_sequence s]> (t_positions t))
    (foldl write_row (t_records t) (staged_row p <$> sorted_entries (pp_records s))) t.

Lemma simulates_batch t o t' p s bs :
  simulates t o t' -> o !! p = Some s ->
  apply_all (mkProjectionBatch p (pp_expected_position s) (pp_through_sequence s)
    (pending_mutation <$> sorted_entries (pp_records s)) :: bs) t
  = apply_all bs (committed_batch p s t) /\
  simulates (committed_batch p s t) (delete p o) t'.
Proof.
  intros Hsim Hs. destruct (si_staged _ _ _ Hsim _ _ Hs) as (Hp & Hk & Hexp & Hlt).
  assert (Forall mutation_ok (pending_mutation <$> sorted_entries (pp_records s))) as Hms.
  { apply Forall_fmap, Forall_forall. intros [k x] Hin%sorted_entries_elem.
    destruct (Hk _ _ Hin) as [Hkv Hx]. destruct x as [v|]; simpl; [|done]. split; [done|by apply Hx]. }
  pose proof (encode_changes value_serialises p _ Hp Hms) as Henc.
  assert (change <$> (pending_mutation <$> sorted_entries (pp_records s)) = sorted_entries (pp_records s)) as Hid.
  { rewrite <- list_fmap_compose. rewrite <- (list_fmap_id (sorted_entries (pp_records s))) at 2.
    apply list_fmap_ext. intros i kv _. apply change_pending. }
  rewrite Hid in Henc. split.
  - eapply apply_all_cons.
    + unfold encode_projection_batch.
      cbn [pb_projection pb_through_sequence pb_expected_position pb_mutations].
      rewrite (valid_name_prefix _ Hp), Henc. cbn [mbind result_bind].
      destruct (N.leb_spec (pp_through_sequence s) (pp_expected_position s)); [lia|]. done.
    + unfold apply_encoded. cbn [eb_projection eb_expected_position eb_through_sequence eb_mutations].
      by rewrite Hexp, N.eqb_refl.
  - assert (forall q k, valid_name q = true ->
      t_records (committed_batch p s t) !! row q k
      = if decide (p = q) then t_records t' !! row q k else t_records t !! row q k) as Hrow.
    { intros q k Hq. unfold committed_batch. cbn [set_rows t_records].
      destruct (decide (p = q)) as [<-|Hne]; [|by apply write_rows_other].
      rewrite (si_rows _ _ _ Hsim p Hp k), (rows_staged_entries p (pp_records s) (t_records t) k).
      unfold staged_records. by rewrite Hs. }
    constructor.
    + apply Hsim.
    + intros q. rewrite (si_positions _ _ _ Hsim). unfold committed_batch. cbn [set_rows t_positions].
      destruct (decide (p = q)) as [<-|Hne].
      * by rewrite Hs, lookup_delete_eq, lookup_insert_eq.
      * by rewrite lookup_delete_ne, lookup_insert_ne.
    + intros q Hq k. rewrite Hrow by done. unfold staged_records.
      destruct (decide (p = q)) as [<-|Hne].
      * by rewrite lookup_delete_eq.
      * rewrite lookup_delete_ne by done. by apply Hsim.
    + apply Hsim.
    + unfold committed_batch. cbn [set_rows t_records].
      eapply write_rows_ok; [exact Henc|eapply Forall_impl; [exact Hms|]|apply Hsim].
      intros [k v|k] Hm; [apply Hm|done].
    + intros q k v Hq (b & Hb & Hv)%view_lookup. rewrite Hrow in Hb by done.
      destruct (decide (p = q)) as [<-|Hne].
      * apply (simulates_storable Hsim p k v Hq), view_lookup. eauto.
      * apply (si_base_storable _ _ _ Hsim q k v Hq), view_lookup. eauto.
    + intros q s' [Hne Hs']%lookup_delete_Some.
      destruct (si_staged _ _ _ Hsim _ _ Hs') as (? & ? & ? & ?). split_and!; try done.
      unfold committed_batch. cbn [set_rows t_positions]. by rewrite lookup_insert_ne.
Qed.

Lemma simulates_nothing t t' : simulates t ∅ t' -> t' = t.
Proof.
  intros Hsim.
  assert (t_positions t' = t_positions t) as Hp.
  { apply map_eq. intros p. rewrite (si_positions _ _ _ Hsim). by rewrite lookup_empty. }
  assert (t_records t' = t_records t) as Hr.
  { apply rows_ext; [apply Hsim|apply Hsim|]. intros p k Hpv.
    rewrite (si_rows _ _ _ Hsim p Hpv k). unfold staged_records. by rewrite !lookup_empty. }
  etrans; [apply Hsim|]. rewrite Hp, Hr. apply set_rows_id.
Qed.

(** The batches of a round turn its tables into the replayed ones. *)
Lemma simulates_commit handlers t o t' :
  simulates t o t' -> NoDup (h_name <$> handlers) ->
  (forall p, is_Some (o !! p) -> p ∈ h_name <$> handlers) ->
  apply_all (take_batches handlers o) t = Ok t'.
Proof.
  revert t o. induction handlers as [|h handlers IH]; intros t o Hsim Hd Hin.
  - assert (o = ∅) as ->.
    { apply map_eq. intros p. rewrite lookup_empty. destruct (o !! p) eqn:Ho; [|done].
      exfalso. apply (not_elem_of_nil p), Hin. eauto. }
    by rewrite (simulates_nothing _ _ Hsim).
  - rewrite fmap_cons in Hd. apply NoDup_cons in Hd as [Hn Hd].
    assert (forall p, is_Some (delete (h_name h) o !! p) -> p ∈ h_name <$> handlers) as Hin'.
    { intros p [s [Hne Hs]%lookup_delete_Some]. rewrite fmap_cons in Hin.
      assert (p ∈ h_name h :: (h_name <$> handlers)) as [->|?]%elem_of_cons by (apply Hin; eauto); done. }
    cbn [take_batches]. unfold take_batch. destruct (o !! h_name h) as [s|] eqn:Hs; simpl.
    + destruct (simulates_batch t o t' (h_name h) s (take_batches handlers (delete (h_name h) o)) Hsim Hs)
        as [-> Hsim']. by apply IH.
    + rewrite delete_id in * by done. by apply IH.
Qed.

End Sim.
