(* ===== verification/ProjectionWorkerCorrect.v ===== *)
(** * A round of the worker is a replay

    [worker.rs] against [ProjectionReplay]: on a sound journal one round commits, all at
    once, exactly what replaying each handler's next events one at a time would have
    committed, or fails with the replay's error and changes nothing. *)

From S2P Require Import Prelude Json Contracts Boundary Platform CommandApproval.
From S2P Require Import JournalStore Journal JournalVerify ProjectionStore.
From S2P Require Import JournalModel JournalCorrect JournalTest JournalPort ProjectionCorrect JournalReads JournalSafety.
From S2P Require Import JournalAppend Store ExternalWork ExternalWorkCorrect ProjectionWorker ProjectionHandlers.
From S2P Require Import ProjectionView ProjectionReplay ProjectionSim.
From S2P Require Import ProjectionHandlersCorrect.

Open Scope string_scope.

Section Round.
Context `{Externals} `{JournalCodec} `{!JournalCodecOk}.
Context {K Sg} `{KeyProvider K} `{CheckpointSigner Sg}.
Abbreviation journal := (RedbEventJournal K Sg).
Hypothesis value_serialises : forall v, exists b, to_vec_value v = Ok b.

(** ** Loops against loops *)

(** An operation that leaves the journal alone answers as a computation on tables. *)
Definition follows {A} (x : result StoreError A * journal) (y : result StoreError Tables)
    (j : journal) (R : A -> Tables -> Prop) : Prop :=
  match y with
  | Ok t => exists a, x = (Ok a, j) /\ R a t
  | Err e => x = (Err e, j)
  end.

Lemma op_fold_follows {A L} (f : L -> A -> op journal L) (g : Tables -> A -> result StoreError Tables)
    (R : list A -> L -> Tables -> Prop) j l x t :
  (forall a l x t, R (a :: l) x t -> follows (f x a j) (g t a) j (R l)) ->
  R l x t -> follows (op_fold f l x j) (try_fold g l t) j (R []).
Proof.
  intros Hstep. revert x t. induction l as [|a l IH]; intros x t HR; simpl.
  - by exists x.
  - specialize (Hstep a l x t HR). unfold follows in Hstep |- *. unfold op_bind.
    destruct (g t a) as [t1|e]; [|by rewrite Hstep].
    destruct Hstep as (x1 & -> & HR1). simpl. exact (IH x1 t1 HR1).
Qed.

Lemma follows_mono {A} (x : result StoreError A * journal) y j (R R' : A -> Tables -> Prop) :
  follows x y j R -> (forall a t, R a t -> R' a t) -> follows x y j R'.
Proof. unfold follows. destruct y; [|done]. intros (x0 & -> & HR) Himp. eauto. Qed.

(** ** The journal a round reads *)

(** A sound journal whose payloads decrypt to [payload] and can be recorded, over
    projections whose records are read back exactly. *)
Record projectable (j : journal) (l : list EventEnvelope) (payload : EventEnvelope -> value)
    : Prop := {
  pj_journal : journal_ok j l;
  pj_bound : (count l + 1 < u64_max)%N;
  pj_payloads : Forall (fun e => (decrypt_payload e j).1 = Ok (payload e)
    /\ event_fit e (payload e)) l;
  pj_storable : views_storable (rj_tables j);
}.

Section Journal.
Variable (j : journal) (l : list EventEnvelope) (payload : EventEnvelope -> value).
Hypothesis Hready : projectable j l payload.
Let Hj : journal_ok j l := pj_journal _ _ _ Hready.
Let Hmax : (count l + 1 < u64_max)%N := pj_bound _ _ _ Hready.
Abbreviation t0 := (rj_tables j).

Lemma sound_rows : rows_ok (t_records t0).
Proof. intros key b. apply (ji_records _ _ _ _ (jo_inv _ _ Hj)). Qed.
Lemma reached_head h : (reached t0 h <= count l)%N.
Proof.
  unfold reached. destruct (t_positions t0 !! h_name h) as [n|] eqn:Hn; simpl; [|lia].
  pose proof (ji_positions _ _ _ _ (jo_inv _ _ Hj) _ _ Hn) as Hp. unfold check_position in Hp.
  apply bind_Ok in Hp as (? & _ & Hp). apply reject_Ok, N.ltb_ge in Hp. lia.
Qed.
Lemma event_sequence i e : l !! i = Some e -> ev_global_sequence e = (N.of_nat i + 1)%N.
Proof. intros He. by destruct (chain_lookup _ _ _ (ji_chain _ _ _ _ (jo_inv _ _ Hj)) He) as (-> & _). Qed.

(** The page read at a sequence. *)
Definition page_at (from limit : N) : list (ProjectionWorkItem * EventEnvelope) :=
  let events := take (N.to_nat limit) (drop (N.to_nat (from - 1)) l) in
  zip (work_item <$> events) events.

Lemma page_events from limit :
  (page_at from limit).*2 = take (N.to_nat limit) (drop (N.to_nat (from - 1)) l).
Proof. unfold page_at. apply snd_zip. by rewrite length_fmap. Qed.

Lemma fold_expected name items from :
  (forall i it, items !! i = Some it -> pw_global_sequence it = (from + N.of_nat i)%N) ->
  (from + N.of_nat (length items) <= u64_max)%N ->
  try_fold (outbox_expected name) items from = Ok (from + N.of_nat (length items))%N.
Proof.
  revert from. induction items as [|it items IH]; intros from Hi Hle; simpl in *.
  { f_equal. lia. }
  unfold outbox_expected. rewrite (Hi 0 it eq_refl). rewrite N.add_0_r, N.eqb_refl.
  cbn [negb reject mbind result_bind]. unfold saturating_add.
  rewrite N.min_r by lia. rewrite IH; [f_equal; lia| |lia].
  intros i it' Hit. rewrite (Hi (Datatypes.S i) it' Hit). lia.
Qed.
Lemma matched_all es :
  try_map matched (zip (work_item <$> es) es) = Ok (zip (work_item <$> es) es).
Proof.
  induction es as [|e es IH]; [done|]. rewrite fmap_cons. cbn [zip_with try_map].
  assert (matched (work_item e, e) = Ok (work_item e, e)) as ->.
  { unfold matched. simpl. by rewrite N.eqb_refl, String.eqb_refl. }
  cbn [mbind result_bind]. by rewrite IH.
Qed.

Lemma read_page_ok name from limit :
  (1 <= from)%N -> (from <= count l + 1)%N ->
  read_page name from limit j = (Ok (page_at from limit), j).
Proof.
  intros Hfrom Hle. pose proof (jo_inv _ _ Hj) as Hi. unfold read_page.
  set (es := take (N.to_nat limit) (drop (N.to_nat (from - 1)) l)).
  assert (port_read_projection_work from limit j = (Ok (work_item <$> es), j)) as Hwork.
  { unfold port_read_projection_work, reads.
    rewrite (read_projection_work_ok _ _ _ _ Hi) by lia. rewrite (N.max_l from 1) by lia.
    unfold es. by rewrite fmap_take. }
  assert (port_read_global from (count (work_item <$> es)) j = (Ok es, j)) as Hglobal.
  { unfold port_read_global, reads.
    rewrite (read_global_ok _ _ _ _ Hi) by lia. rewrite (N.max_l from 1) by lia.
    unfold count. rewrite Nat2N.id, length_fmap. unfold es.
    by rewrite length_take, <- take_take, (take_ge (drop _ _) (length _)). }
  unfold op_bind at 1. rewrite Hwork. unfold op_bind at 1, op_lift at 1.
  rewrite fold_expected.
  - unfold op_bind at 1. rewrite Hglobal. unfold op_bind, op_lift.
    rewrite bool_decide_true by (by rewrite length_fmap). simpl. by rewrite matched_all.
  - intros i it Hit. apply list_lookup_fmap_Some in Hit as (e & -> & He). simpl.
    unfold es in He. apply lookup_take_Some in He as [He _]. rewrite lookup_drop in He.
    rewrite (event_sequence _ _ He). lia.
  - rewrite length_fmap. unfold es. rewrite length_take, length_drop. unfold count in *. lia.
Qed.
(** The handler cannot tell the overlay from the committed store. *)
Definition reads_through (h : ProjectionHandler) : Prop :=
  forall o t, simulates t0 o t -> forall event v,
  h_project h (overlay_reader (store_reader t0) o) event v = h_project h (store_reader t) event v.

Lemma store_reads_through h :
  (N.of_nat (size (t_records t0)) <= u64_max)%N -> StoreReducer h -> reads_through h.
Proof.
  intros Hsize Hh o t Hsim event v. apply Hh; [|done..].
  apply overlay_reads; [apply sound_rows|done|apply Hsim|by eapply simulates_staged_ok|].
  by apply (simulates_stands_for value_serialises).
Qed.
Lemma record_reads_through h : RecordReducer h -> reads_through h.
Proof.
  intros Hh o t Hsim event v. apply Hh. intros key.
  apply overlay_gets; [apply sound_rows|apply Hsim|by eapply simulates_staged_ok|].
  by apply (simulates_stands_for value_serialises).
Qed.

(** ** One event and one page *)

Lemma input_ok h e :
  e ∈ l -> (if h_requires_payload h then decrypt_payload e else op_ret Null) j
    = (Ok (handler_input h (payload e)), j).
Proof.
  intros He. unfold handler_input. destruct (h_requires_payload h); [|done].
  pose proof (pj_payloads _ _ _ Hready) as Hp. rewrite Forall_forall in Hp.
  destruct (Hp _ He) as [Hd _]. unfold decrypt_payload in *.
  match goal with Hd : (quarantine_result ?r _).1 = _ |- _ => destruct r as [v|[]] end;
    simpl in *; congruence.
Qed.

Lemma fit_payload e : e ∈ l -> event_fit e (payload e).
Proof. intros He. by apply (proj1 (Forall_forall _ _) (pj_payloads _ _ _ Hready)). Qed.

Lemma reduce_event_follows h `{!ProjectionHandlerOk h} e o t :
  reads_through h -> simulates t0 o t -> e ∈ l -> (reached t h + 1 = ev_global_sequence e)%N ->
  follows (reduce_event h (reached t0 h) o e j) (replay_event payload h t e) j (fun o' t' =>
    simulates t0 o' t' /\ reached t' h = ev_global_sequence e /\
    forall p, p <> h_name h -> o' !! p = o !! p).
Proof.
  intros Hread Hsim He Hseq.
  assert (forall ms, Forall mutation_ok ms -> exists t',
    apply (mkProjectionBatch (h_name h) (ev_global_sequence e - 1) (ev_global_sequence e) ms) t = Ok t' /\
    simulates t0 (stage (h_name h) (reached t0 h) (ev_global_sequence e) ms o) t' /\
    reached t' h = ev_global_sequence e /\ forall p, p <> h_name h ->
    stage (h_name h) (reached t0 h) (ev_global_sequence e) ms o !! p = o !! p) as Hstage.
  { intros ms Hms. exists (committed h (ev_global_sequence e) ms t). split_and!.
    - apply (apply_event value_serialises); [apply ho_name|done|done].
    - apply (simulates_committed value_serialises); [done|apply ho_name|done|done].
    - unfold reached, committed. cbn [set_rows t_positions]. by rewrite lookup_insert_eq.
    - intros p Hp. rewrite stage_lookup. by rewrite decide_False. }
  unfold follows, replay_event, reduction, reduce_event. destruct (h_applies_to h e) eqn:Happ.
  - unfold op_bind. rewrite input_ok by done.
    rewrite (Hread _ _ Hsim).
    destruct (h_project h (store_reader t) e (handler_input h (payload e))) as [ms|err] eqn:Hms;
      cbn [mbind result_bind]; [|done].
    destruct (Hstage ms) as (t' & -> & Hrest); [|by eexists].
    eapply ho_storable; [|by apply fit_payload|done|done].
    apply store_reader_storable; [apply Hsim|by apply (simulates_storable value_serialises Hsim)].
  - cbn [mbind result_bind]. destruct (Hstage []) as (t' & -> & Hrest); [done|].
    by eexists.
Qed.

Lemma page_follows h `{!ProjectionHandlerOk h} o t es :
  reads_through h -> simulates t0 o t ->
  (forall i e, es !! i = Some e ->
     e ∈ l /\ ev_global_sequence e = (reached t h + N.of_nat i + 1)%N) ->
  follows (op_fold (reduce_event h (reached t0 h)) es o j) (try_fold (replay_event payload h) es t) j
    (fun o' t' => simulates t0 o' t' /\ forall p, p <> h_name h -> o' !! p = o !! p).
Proof.
  intros Hread Hsim Hes. eapply follows_mono.
  - apply (op_fold_follows _ _ (fun es o' t' =>
      simulates t0 o' t' /\ (forall p, p <> h_name h -> o' !! p = o !! p) /\
      forall i e, es !! i = Some e ->
        e ∈ l /\ ev_global_sequence e = (reached t' h + N.of_nat i + 1)%N)); [|by split_and!].
    intros e es' o1 t1 (Hs & Hp & Hi). destruct (Hi 0 e eq_refl) as [He Hseq].
    eapply follows_mono; [apply reduce_event_follows; [done|done|done|done|lia]|].
    intros o2 t2 (Hs2 & Hreach & Hp2). split_and!; [done| |].
    + intros p Hne. by rewrite Hp2, Hp.
    + intros i e' He'. destruct (Hi (Datatypes.S i) e' He') as [? Hseq']. split; [done|]. lia.
  - intros o' t' (? & ? & _). by split.
Qed.

(** ** One handler *)

Variable limit : N.
Abbreviation next h := (next_events l limit t0 h).

Lemma page_at_next h : page_at (reached t0 h + 1) limit = zip (work_item <$> next h) (next h).
Proof. unfold page_at, next_events. by replace (reached t0 h + 1 - 1)%N with (reached t0 h) by lia. Qed.
Lemma last_zip {A B} (f : A -> B) (es : list A) :
  last (zip (f <$> es) es) = (fun e => (f e, e)) <$> last es.
Proof.
  induction es as [|e es IH]; [done|]. destruct es as [|e' es]; [done|].
  change (last (zip (f <$> e' :: es) (e' :: es)) = (fun e => (f e, e)) <$> last (e' :: es)). apply IH.
Qed.
Lemma next_sequence h i e :
  next h !! i = Some e -> e ∈ l /\ ev_global_sequence e = (reached t0 h + N.of_nat i + 1)%N.
Proof.
  unfold next_events. intros [He _]%lookup_take_Some. rewrite lookup_drop in He.
  split; [by eapply list_elem_of_lookup_2|]. rewrite (event_sequence _ _ He). lia.
Qed.

(** What the rounds's fold keeps, with the handlers still to come. *)
Definition round_inv (names : list string) (total : N) (rest : list ProjectionHandler)
    (s : RoundState) (t : Tables) : Prop :=
  simulates t0 (ro_pending s) t /\
  (forall from page, ro_pages s !! from = Some page -> page = page_at from limit) /\
  (forall h, h ∈ rest -> ro_pending s !! h_name h = None /\ h_name h ∈ names) /\
  (forall p, is_Some (ro_pending s !! p) -> p ∈ names) /\
  NoDup (h_name <$> rest) /\ Forall (fun h => ProjectionHandlerOk h /\ reads_through h) rest /\
  (ro_applied s <= u64_max)%N /\
  foldl (fun n h => saturating_add n (count (next h))) (ro_applied s) rest = total.

Lemma run_handler_follows names total h rest s t :
  round_inv names total (h :: rest) s t ->
  follows (run_handler limit s h j) (replay_page payload l limit t h) j (round_inv names total rest).
Proof.
  intros (Hsim & Hpages & Hrest & Hnames & Hd & Hok & Happ & Htotal).
  destruct (Hrest h ltac:(by left)) as [Hnone Hin].
  rewrite fmap_cons in Hd. apply NoDup_cons in Hd as [Hn Hd]. apply Forall_cons in Hok as [[Hh Hread] Hok].
  assert (forall h', h' ∈ rest -> h_name h' <> h_name h) as Hne.
  { intros h' Hh' Heq. apply Hn. rewrite <- Heq. by apply list_elem_of_fmap_2. }
  assert (reached t h = reached t0 h) as Hreach
    by (unfold reached; by rewrite (si_positions _ _ _ Hsim), Hnone).
  pose proof (reached_head h) as Hhead.
  unfold run_handler, replay_page, next_events. rewrite Hreach. fold (next_events l limit t0 h).
  unfold op_bind at 1, position. rewrite (valid_name_prefix _ ho_name).
  cbn [mbind result_bind]. fold (reached t0 h). unfold checked_add.
  destruct (N.leb_spec (reached t0 h + 1) u64_max); [|lia].
  set (from := (reached t0 h + 1)%N) in *.
  assert ((match ro_pages s !! from with
           | Some page => op_ret page
           | None => read_page (h_name h) from limit
           end) j = (Ok (page_at from limit), j)) as Hpage.
  { destruct (ro_pages s !! from) as [page|] eqn:Hp; [by rewrite (Hpages _ _ Hp)|].
    apply read_page_ok; [|unfold from; lia]. unfold from. lia. }
  unfold op_bind at 1. rewrite Hpage. unfold from. rewrite page_at_next, last_zip.
  assert (forall from' page, <[from := zip (work_item <$> next h) (next h)]> (ro_pages s) !! from' = Some page ->
    page = page_at from' limit) as Hpages'.
  { intros from' page [[<- <-]|[_ Hp]]%lookup_insert_Some; [|by apply Hpages].
    unfold from. by rewrite page_at_next. }
  fold from. simpl in Htotal.
  destruct (last (next h)) as [e|] eqn:Hlast; simpl.
  - rewrite snd_zip by (by rewrite length_fmap).
    apply last_Some in Hlast as [front Hfront].
    assert (ev_global_sequence e = reached t0 h + count (next h))%N as Hseq.
    { destruct (next_sequence h (length front) e) as [_ ->].
      - by rewrite Hfront, lookup_app_r, Nat.sub_diag by done.
      - rewrite Hfront. unfold count. rewrite length_app. simpl. lia. }
    pose proof (page_follows h (ro_pending s) t (next h) Hread Hsim) as Hf.
    unfold follows in Hf |- *. unfold op_bind.
    destruct (try_fold (replay_event payload h) (next h) t) as [t'|err];
      [|rewrite Hf; [done|]; rewrite Hreach; apply next_sequence].
    destruct Hf as (o' & -> & Hs' & Hp'); [rewrite Hreach; apply next_sequence|].
    eexists. split; [done|]. unfold round_inv. cbn [ro_pending ro_pages ro_applied].
    rewrite Hseq. unfold saturating_sub at 1 2.
    replace (reached t0 h + count (next h) - reached t0 h)%N with (count (next h)) by lia.
    split_and!; [done|done| | |done|done|unfold saturating_add; lia|done].
    + intros h' Hh'. split; [|by apply Hrest; right]. rewrite Hp' by (by apply Hne).
      by apply Hrest; right.
    + intros p Hp. destruct (decide (p = h_name h)) as [->|Hneq]; [done|].
      apply Hnames. by rewrite <- Hp'.
  - apply last_None in Hlast. rewrite Hlast in *. simpl. eexists. split; [done|].
    unfold round_inv. cbn [ro_pending ro_pages ro_applied].
    split_and!; [done|done| |done|done|done|done|].
    + intros h' Hh'. by apply Hrest; right.
    + rewrite <- Htotal. f_equal. unfold saturating_add, count. simpl. lia.
Qed.

(** ** The round *)

Definition status_of (t : Tables) (h : ProjectionHandler) : ProjectionStatus :=
  mkProjectionStatus (h_name h) (reached t h) (count l) (count l - reached t h)
    (reached t h =? count l)%N.

Lemma status_ok handlers t' positions records :
  t' = set_rows positions records t0 -> Forall ProjectionHandlerOk handlers ->
  status handlers (set_tables t' j) = (Ok (status_of t' <$> handlers), set_tables t' j).
Proof.
  intros Ht Hok. unfold status, op_bind.
  assert (port_head (set_tables t' j) = (Ok (count l, head_hash l), set_tables t' j)) as ->.
  { pose proof (jo_inv _ _ Hj) as Hi. unfold port_head, reads, head_of. cbn [set_tables rj_tables].
    assert (last_sequence t' = Ok (count l) /\ last_hash t' = Ok (head_hash l)) as [-> ->]; [|done].
    rewrite Ht. split; [apply (ji_sequence _ _ _ _ Hi)|apply (ji_hash _ _ _ _ Hi)]. }
  cbn [fst]. induction Hok as [|h handlers Hh _ IH]; [done|]. cbn [op_map].
  unfold op_bind, handler_status at 1. cbn [set_tables rj_tables rj_recovery_mode]. unfold position.
  rewrite (valid_name_prefix _ ho_name). cbn [mbind result_bind].
  rewrite IH, (jo_writable _ _ Hj). done.
Qed.

Definition applied_events (handlers : list ProjectionHandler) : N :=
  foldl (fun n h => saturating_add n (count (next h))) 0%N handlers.

Lemma run_once_exact handlers :
  worker_new handlers = Ok handlers ->
  Forall (fun h => ProjectionHandlerOk h /\ reads_through h) handlers ->
  run_once limit handlers j
  = match replay_round payload l limit handlers t0 with
    | Ok t' => (Ok (mkProjectionRunReport (applied_events handlers) (status_of t' <$> handlers)),
                set_tables t' j)
    | Err e => (Err e, j)
    end.
Proof.
  intros Hnew Hok. unfold worker_new in Hnew.
  destruct (bool_decide (NoDup (h_name <$> handlers))) eqn:Hd; [|done]. apply bool_decide_eq_true in Hd.
  pose proof (op_fold_follows (run_handler limit) (replay_page payload l limit)
    (round_inv (h_name <$> handlers) (applied_events handlers)) j handlers (mkRoundState 0 ∅ ∅) t0) as Hf.
  unfold run_once, replay_round, op_bind at 1. unfold follows in Hf.
  assert (round_inv (h_name <$> handlers) (applied_events handlers) handlers (mkRoundState 0 ∅ ∅) t0) as Hinit.
  { split; [apply simulates_start; [apply sound_rows|apply Hready]|]. split; [done|].
    split; [intros h Hh; split; [done|]; by apply list_elem_of_fmap_2|].
    split; [intros p [s Hs]; cbn in Hs; by rewrite lookup_empty in Hs|].
    split; [done|]. split; [done|]. split; [done|]. done. }
  destruct (try_fold (replay_page payload l limit) handlers t0) as [t'|e];
    [|by rewrite Hf; [|intros; apply run_handler_follows|]].
  destruct Hf as (s & -> & Hsim & _ & _ & Hnames & _ & _ & _ & Htotal);
    [intros; by apply run_handler_follows|done|].
  pose proof (simulates_commit value_serialises handlers t0 (ro_pending s) t' Hsim Hd Hnames) as Hc.
  simpl in Htotal. unfold op_bind.
  assert ((if bool_decide (length (take_batches handlers (ro_pending s)) = 0) then op_ret tt
           else commit (take_batches handlers (ro_pending s))) j = (Ok tt, set_tables t' j)) as ->.
  { case_bool_decide as Hl; [|unfold commit; by rewrite Hc].
    destruct (take_batches handlers (ro_pending s)); [|done]. injection Hc as <-. by destruct j. }
  rewrite (status_ok handlers t' _ _ (si_rest _ _ _ Hsim)).
  - unfold op_ret. by rewrite Htotal.
  - eapply Forall_impl; [exact Hok|]. by intros h [].
Qed.

End Journal.

(** C6. One round of the worker is a replay: on a sound journal it commits
    at once what replaying every handler's next [limit] events one by one, each committed
    before the next, would have committed, and reports where that leaves each projection;
    or it fails with that replay's error and changes nothing. *)
Theorem run_once_replays j l payload limit handlers :
  projectable j l payload -> worker_new handlers = Ok handlers ->
  Forall (fun h => ProjectionHandlerOk h /\ StoreReducer h) handlers ->
  (N.of_nat (size (t_records (rj_tables j))) <= u64_max)%N ->
  run_once limit handlers j
  = match replay_round payload l limit handlers (rj_tables j) with
    | Ok t' => (Ok (mkProjectionRunReport (applied_events j l limit handlers)
                      (status_of l t' <$> handlers)), set_tables t' j)
    | Err e => (Err e, j)
    end.
Proof.
  intros Hr Hn Hok Hsize. apply run_once_exact; [done|done|].
  eapply Forall_impl; [exact Hok|]. intros h []. split; [done|]. by eapply store_reads_through.
Qed.

End Round.

(** ** A round over a journal of two events *)

Section Test.
#[local] Existing Instances journal_externals test_codec test_codec_ok.

Definition test_payload (e : EventEnvelope) : value :=
  match (decrypt_payload e test_two).1 with Ok v => v | Err _ => Null end.

Lemma test_two_records : t_records (rj_tables test_two) = ∅.
Proof. vm_compute. reflexivity. Qed.
Lemma test_batch_exact es : es ∈ test_batch ->
  exact_json (ne_payload es.1) = true /\ json_depth (ne_payload es.1) <= 1 /\
  ne_stream_id es.1 = "session:1" /\ (ne_expected_stream_version es.1 <= 1)%N.
Proof.
  intros Hin. repeat (apply elem_of_cons in Hin as [->|Hin];
    [split_and!; [done|simpl; lia|done|done]|]). by apply not_elem_of_nil in Hin.
Qed.
Lemma test_projectable : exists l, count l = 2%N /\ projectable test_two l test_payload.
Proof.
  destruct test_two_recorded as (es & Hb & Hes). exists (durable_envelope <$> es).
  assert (count (durable_envelope <$> es) = 2%N) as Hc by (unfold count; by rewrite length_fmap, Hes).
  split; [done|]. constructor.
  - destruct Hb as (Hj & _). by rewrite app_nil_l in Hj.
  - by rewrite Hc.
  - apply Forall_fmap, Forall_forall. intros e He.
    destruct (list_elem_of_lookup_1 _ _ He) as [i Hi]. pose proof Hb as (_ & _ & Hheld).
    destruct (Forall2_lookup_r _ _ _ _ _ Hheld Hi) as (new & Hnew & Hrec & _).
    assert ((new, e) ∈ zip test_batch es) as Hzip.
    { apply (list_elem_of_lookup_2 _ i), lookup_zip_with_Some. by exists new, e. }
    destruct (test_batch_exact new) as (Hx & Hd & Hs & Hv); [by eapply list_elem_of_lookup_2|].
    pose proof (recorded_payload _ _ _ _ _ _ Hb Hzip Hx) as Hp.
    simpl. unfold test_payload. rewrite Hp. split; [done|]. split; simpl.
    + by rewrite (rec_stream _ _ Hrec), Hs.
    + by rewrite (rec_stream _ _ Hrec), Hs.
    + rewrite (rec_version _ _ Hrec). unfold u64_max. lia.
    + done.
    + unfold MAX_PARSED_DEPTH. lia.
  - intros p k v _. unfold view. by rewrite test_two_records.
Qed.

Lemma run_once_replays_witness :
  exists l t', count l = 2%N /\
    replay_round test_payload l 10 [SessionProjection; WorkProjection] (rj_tables test_two) = Ok t' /\
    run_once 10 [SessionProjection; WorkProjection] test_two
    = (Ok (mkProjectionRunReport 4 (status_of l t' <$> [SessionProjection; WorkProjection])),
       set_tables t' test_two).
Proof.
  destruct test_projectable as (l & Hl & Hp). exists l.
  assert (rr_applied <$> (run_once 10 [SessionProjection; WorkProjection] test_two).1 = Ok 4%N) as Hok
    by (vm_compute; reflexivity).
  revert Hok. rewrite (run_once_replays ltac:(by eexists) test_two l test_payload 10
    [SessionProjection; WorkProjection] Hp eq_refl).
  - generalize (applied_events test_two l 10 [SessionProjection; WorkProjection]).
    generalize (replay_round test_payload l 10 [SessionProjection; WorkProjection] (rj_tables test_two)).
    intros [t'|] n Hok; [|done]. exists t'. injection Hok as ->. by split_and!.
  - repeat (apply Forall_cons; split; [split; apply _|]). apply Forall_nil_2.
  - by rewrite test_two_records.
Defined.

End Test.
