(* ===== verification/ProjectionDrain.v ===== *)
(** * Projections are functions of the journal

    For reducers that read only their own records, what a projection holds is what
    replaying the journal's prefix up to its position over an empty store gives
    ([current]).  Rounds and resets keep that, and draining reaches the head: a rebuild
    restores every projection, whatever it held before. *)

From S2P Require Import Prelude Json Contracts Boundary Platform CommandApproval.
From S2P Require Import JournalStore Journal JournalVerify ProjectionStore.
From S2P Require Import JournalModel JournalCorrect JournalTest JournalPort ProjectionCorrect.
From S2P Require Import JournalSafety Store ExternalWork ProjectionWorker ProjectionHandlers.
From S2P Require Import ProjectionView ProjectionReplay ProjectionSim.
From S2P Require Import ProjectionHandlersCorrect ProjectionWorkerCorrect.

Open Scope string_scope.

Lemma take_take_drop {A} n m (l : list A) : take (n + m) l = (take n l ++ take m (drop n l))%list.
Proof. symmetry. apply take_take_drop. Qed.

Section Drain.
Context `{Externals} `{JournalCodec} `{!JournalCodecOk}.
Hypothesis value_serialises : forall v, exists b, to_vec_value v = Ok b.

(** Tables whose rows are well formed and read back exactly. *)
Definition good (t : Tables) : Prop := rows_ok (t_records t) /\ views_storable t.
Lemma good_nothing : good no_tables.
Proof. by split. Qed.

(** ** One replayed event *)

Section Event.
Context (h : ProjectionHandler) `{!ProjectionHandlerOk h}.

Lemma committed_spec sequence ms t :
  good t -> Forall mutation_ok ms -> (reached t h + 1 = sequence)%N ->
  good (committed h sequence ms t) /\
  forall q, valid_name q = true -> view q (committed h sequence ms t)
    = if decide (h_name h = q) then amend (foldl stage_mutation ∅ ms) (view q t) else view q t.
Proof.
  intros [Hr Hv] Hms Hseq.
  pose proof (simulates_committed value_serialises h sequence ms t ∅ t
    (simulates_start t Hr Hv) ho_name Hms Hseq) as Hsim. split.
  - split; [apply Hsim|]. by eapply simulates_storable.
  - intros q Hq. rewrite (simulates_view value_serialises Hsim q Hq). unfold staged_records.
    rewrite stage_lookup. destruct (decide (h_name h = q)); [done|]. simpl. by rewrite amend_empty.
Qed.
Lemma committed_reached sequence ms t :
  reached (committed h sequence ms t) h = sequence.
Proof. unfold reached, committed. cbn [set_rows t_positions]. by rewrite lookup_insert_eq. Qed.
Lemma committed_reached_other h' sequence ms t :
  h_name h' <> h_name h -> reached (committed h sequence ms t) h' = reached t h'.
Proof. intros Hne. unfold reached, committed. cbn [set_rows t_positions]. by rewrite lookup_insert_ne. Qed.

Context (payload : EventEnvelope -> value).

Lemma reduction_ok t event ms :
  good t -> event_fit event (payload event) ->
  reduction payload h (store_reader t) event = Ok ms -> Forall mutation_ok ms.
Proof.
  intros [Hr Hv] Hf. unfold reduction. destruct (h_applies_to h event) eqn:Ha.
  - intros Hp. eapply ho_storable; [|exact Hf|exact Ha|exact Hp]. by apply store_reader_storable.
  - by intros [= <-].
Qed.
Lemma replay_event_exact t event :
  good t -> event_fit event (payload event) -> (reached t h + 1 = ev_global_sequence event)%N ->
  replay_event payload h t event
  = ms ← reduction payload h (store_reader t) event; Ok (committed h (ev_global_sequence event) ms t).
Proof.
  intros Hg Hf Hseq. unfold replay_event.
  destruct (reduction payload h (store_reader t) event) as [ms|] eqn:Hm; [|done].
  cbn [mbind result_bind]. apply (apply_event value_serialises); [apply ho_name| |done].
  by eapply reduction_ok.
Qed.
End Event.

(** ** A handler's part of the tables *)

Definition agree (h : ProjectionHandler) (t t' : Tables) : Prop :=
  reached t h = reached t' h /\ view (h_name h) t = view (h_name h) t'.
#[local] Instance agree_equivalence h : Equivalence (agree h).
Proof.
  split; [by intros t| |].
  - intros t t' []. by split.
  - intros t t' t'' [] []. split; by etrans.
Qed.

(** Everything a replay keeps of the tables it started from. *)
Record extends (head : N) (names : list string) (t t' : Tables) : Prop := {
  ex_good : good t';
  ex_rest : t' = set_rows (t_positions t') (t_records t') t;
  ex_positions : forall p n, t_positions t' !! p = Some n ->
    t_positions t !! p = Some n \/ valid_name p = true /\ (n <= head)%N;
  ex_other : forall h, valid_name (h_name h) = true -> h_name h ∉ names -> agree h t' t;
}.
Lemma extends_refl head names t : good t -> extends head names t t.
Proof. intros Hg. split; [done|by rewrite set_rows_id|by left|done]. Qed.
Lemma extends_trans head names t t' t'' :
  extends head names t t' -> extends head names t' t'' -> extends head names t t''.
Proof.
  intros [Hg1 Hr1 Hp1 Ho1] [Hg2 Hr2 Hp2 Ho2]. split; [done| | |].
  - rewrite Hr2 at 1. by rewrite (rest_set _ _ _ _ Hr1).
  - intros p n [Hp|Hp]%Hp2; [by apply Hp1|by right].
  - intros h Hv Hn. etrans; eauto.
Qed.
Lemma extends_mono head names names' t t' :
  (forall p, p ∈ names -> p ∈ names') -> extends head names t t' -> extends head names' t t'.
Proof. intros Hsub [? ? ? Ho]. split; try done. intros h Hv Hn. apply Ho; [done|]. auto. Qed.

Section Handler.
Context (payload : EventEnvelope -> value) (l : list EventEnvelope).
Hypothesis Hl : forall i e, l !! i = Some e ->
  ev_global_sequence e = (N.of_nat i + 1)%N /\ event_fit e (payload e).
Context (h : ProjectionHandler) `{!ProjectionHandlerOk h} `{!RecordReducer h}.
Abbreviation step := (replay_event payload h).

(** A stretch of the journal that starts at a position. *)
Definition follows_position (es : list EventEnvelope) (t : Tables) : Prop :=
  forall i e, es !! i = Some e ->
    ev_global_sequence e = (reached t h + N.of_nat i + 1)%N /\ event_fit e (payload e).

Lemma follows_step es e ms t :
  follows_position (e :: es) t ->
  follows_position es (committed h (ev_global_sequence e) ms t).
Proof.
  intros Hf i e' He'. rewrite committed_reached. destruct (Hf 0 e eq_refl) as [-> _].
  destruct (Hf (S i) e' He') as [-> ?]. split; [lia|done].
Qed.
Lemma next_follows limit t : follows_position (next_events l limit t h) t.
Proof.
  intros i e. unfold next_events. intros [He _]%lookup_take_Some. rewrite lookup_drop in He.
  destruct (Hl _ _ He) as [-> ?]. split; [lia|done].
Qed.

(** Tables that agree on a handler are replayed alike. *)
Lemma replay_agree es t t' :
  good t -> good t' -> agree h t t' -> follows_position es t ->
  match try_fold step es t with
  | Ok t1 => exists t1', try_fold step es t' = Ok t1' /\ good t1' /\ agree h t1 t1'
  | Err e => try_fold step es t' = Err e
  end.
Proof.
  revert t t'. induction es as [|e es IH]; intros t t' Hg Hg' Ha Hf; [by eexists|].
  destruct (Hf 0 e eq_refl) as [Hseq Hfit]. cbn [try_fold]. destruct Ha as [Hreach Hview].
  assert (reduction payload h (store_reader t') e = reduction payload h (store_reader t) e) as Hred.
  { unfold reduction. destruct (h_applies_to h e); [|done]. apply rr_reads. intros key.
    cbn [store_reader rd_get]. destruct (valid_name key) eqn:Hk.
    - rewrite !get_view by (first [apply ho_name|apply Hg|apply Hg'|done]). by rewrite Hview.
    - apply get_record_invalid_key; [apply ho_name|done]. }
  rewrite !replay_event_exact by (done || lia). rewrite Hred.
  destruct (reduction payload h (store_reader t) e) as [ms|] eqn:Hm; [|done].
  cbn [mbind result_bind]. pose proof (reduction_ok h payload t e ms Hg Hfit Hm) as Hms.
  destruct (committed_spec h (ev_global_sequence e) ms t Hg Hms ltac:(lia)) as [Hg1 Hv1].
  destruct (committed_spec h (ev_global_sequence e) ms t' Hg' Hms ltac:(lia)) as [Hg1' Hv1'].
  apply IH; [done|done| |by apply follows_step]. split.
  - by rewrite !committed_reached.
  - rewrite Hv1, Hv1' by apply ho_name. by rewrite Hview.
Qed.

(** Replaying a stretch moves the position past it and touches nothing else. *)
Lemma replay_extends head es t t1 :
  good t -> follows_position es t -> (reached t h + count es <= head)%N ->
  try_fold step es t = Ok t1 ->
  extends head [h_name h] t t1 /\ reached t1 h = (reached t h + count es)%N.
Proof.
  revert t. induction es as [|e es IH]; intros t Hg Hf Hle; cbn [try_fold].
  { intros [= <-]. split; [by apply extends_refl|unfold count; simpl; lia]. }
  destruct (Hf 0 e eq_refl) as [Hseq Hfit]. rewrite replay_event_exact by (done || lia).
  unfold count in Hle |- *. simpl in Hle |- *. intros Hr.
  apply bind_Ok in Hr as (t2 & Hr & Ht1). apply bind_Ok in Hr as (ms & Hm & [= <-]).
  pose proof (reduction_ok h payload t e ms Hg Hfit Hm) as Hms.
  destruct (committed_spec h (ev_global_sequence e) ms t Hg Hms ltac:(lia)) as [Hg2 Hv2].
  destruct (IH _ Hg2 (follows_step _ _ _ _ Hf)) as [Hext Hreach]; [|done|].
  { rewrite committed_reached. unfold count. lia. }
  rewrite committed_reached in Hreach. unfold count in Hreach. split; [|lia].
  eapply extends_trans; [|exact Hext]. split; [done|done| |].
  - intros p n. unfold committed. cbn [set_rows t_positions].
    intros [[<- <-]|[_ Hp]]%lookup_insert_Some; [right; split; [apply ho_name|lia]|by left].
  - intros h' Hv' Hn. rewrite list_elem_of_singleton in Hn. split.
    + by apply committed_reached_other.
    + rewrite Hv2 by done. by rewrite decide_False.
Qed.

(** ** Current projections *)

Definition current (t : Tables) : Prop :=
  (reached t h <= count l)%N /\
  exists tr, try_fold step (take (N.to_nat (reached t h)) l) no_tables = Ok tr /\ good tr /\ agree h t tr.

Lemma prefix_follows n : follows_position (take n l) no_tables.
Proof. intros i e [He _]%lookup_take_Some. destruct (Hl _ _ He) as [-> ?]. split; [done|done]. Qed.

Lemma current_page limit t :
  good t -> current t ->
  match try_fold step (next_events l limit t h) t with
  | Ok t1 => current t1 /\ reached t1 h = N.min (count l) (reached t h + limit) /\
      extends (count l) [h_name h] t t1
  | Err e => try_fold step l no_tables = Err e
  end.
Proof.
  intros Hg (Hle & tr & Htr & Hgr & Hag). pose proof (next_follows limit t) as Hf.
  assert (count (next_events l limit t h) = N.min limit (count l - reached t h)) as Hcount.
  { unfold next_events, count. rewrite length_take, length_drop. lia. }
  pose proof (replay_agree _ t tr Hg Hgr Hag Hf) as Hre.
  pose proof (take_take_drop (N.to_nat (reached t h)) (N.to_nat limit) l) as Hsplit.
  fold (next_events l limit t h) in Hsplit.
  destruct (try_fold step (next_events l limit t h) t) as [t1|e] eqn:Hpage.
  - destruct (replay_extends (count l) _ _ _ Hg Hf ltac:(lia) Hpage) as [Hext Hreach].
    destruct Hre as (tr1 & Htr1 & Hg1 & Hag1). split_and!; [|lia|done]. split; [lia|].
    exists tr1. split_and!; [|done|done]. rewrite Hreach, Hcount.
    destruct (N.min_spec limit (count l - reached t h)) as [[Hlt ->]|[Hge ->]].
    + rewrite N2Nat.inj_add, Hsplit, try_fold_app, Htr. done.
    + rewrite (take_ge l) by (unfold count in *; lia).
      rewrite <- (take_ge l (N.to_nat (reached t h) + N.to_nat limit)) by (unfold count in *; lia).
      rewrite Hsplit, try_fold_app, Htr. done.
  - rewrite <- (take_drop (N.to_nat (reached t h) + N.to_nat limit) l).
    by rewrite try_fold_app, Hsplit, try_fold_app, Htr; cbn [mbind result_bind]; rewrite Hre.
Qed.
Lemma current_agree t t' : agree h t' t -> current t -> current t'.
Proof.
  intros Ha (Hle & tr & Htr & Hg & Hag). destruct Ha as [Hr Hv]. split; [by rewrite Hr|].
  exists tr. rewrite Hr. split_and!; [done|done|]. etrans; [|exact Hag]. by split.
Qed.
End Handler.

(** ** Rounds *)

Section Rounds.
Context {K Sg} `{KeyProvider K} `{!KeyProviderOk K} `{CheckpointSigner Sg} `{!CheckpointSignerOk Sg}.
Abbreviation journal := (RedbEventJournal K Sg).
Context (payload : EventEnvelope -> value) (l : list EventEnvelope).
Context (handlers : list ProjectionHandler).
Hypothesis Hnew : worker_new handlers = Ok handlers.
Hypothesis Hhandlers : Forall (fun h => ProjectionHandlerOk h /\ RecordReducer h) handlers.
Abbreviation names := (h_name <$> handlers).
Abbreviation full_replay h := (try_fold (replay_event payload h) l no_tables).

Lemma projectable_events (j : journal) : projectable j l payload -> forall i e, l !! i = Some e ->
  ev_global_sequence e = (N.of_nat i + 1)%N /\ event_fit e (payload e).
Proof.
  intros Hj i e He. split; [by eapply event_sequence|].
  apply (fit_payload j l payload Hj). by eapply list_elem_of_lookup_2.
Qed.
Lemma projectable_good (j : journal) : projectable j l payload -> good (rj_tables j).
Proof. intros Hj. split; [by eapply sound_rows|apply Hj]. Qed.

Lemma projectable_rows (j : journal) t' :
  projectable j l payload -> good t' -> t' = set_rows (t_positions t') (t_records t') (rj_tables j) ->
  (forall p n, t_positions t' !! p = Some n ->
     t_positions (rj_tables j) !! p = Some n \/ valid_name p = true /\ (n <= count l)%N) ->
  projectable (set_tables t' j) l payload.
Proof.
  intros [Hok Hb Hp Hs] [Hr Hv] Hrest Hpos. split; [|done| |done].
  - rewrite Hrest. apply journal_ok_rows; [done| |done]. intros p n [Hn|[Hn Hle]]%Hpos.
    + apply (ji_positions _ _ _ _ (jo_inv _ _ Hok) _ _ Hn).
    + by apply check_position_valid.
  - eapply Forall_impl; [exact Hp|]. intros e [Hd Hf]. split; [|done]. rewrite <- Hd, Hrest.
    unfold decrypt_payload. cbn [set_tables rj_tables].
    change (load_persisted (set_rows (t_positions t') (t_records t') (rj_tables j)) e)
      with (load_persisted (rj_tables j) e).
    cbn [set_tables rj_payload_protection rj_keys].
    by destruct (load_persisted (rj_tables j) e ≫= _) as [?|[]].
Qed.

Lemma round_current limit hs t :
  (forall i e, l !! i = Some e -> ev_global_sequence e = (N.of_nat i + 1)%N /\ event_fit e (payload e)) ->
  good t -> NoDup (h_name <$> hs) ->
  Forall (fun h => ProjectionHandlerOk h /\ RecordReducer h) hs ->
  (forall h, h ∈ hs -> current payload l h t) ->
  match replay_round payload l limit hs t with
  | Ok t' => extends (count l) (h_name <$> hs) t t' /\ forall h, h ∈ hs ->
      current payload l h t' /\ reached t' h = N.min (count l) (reached t h + limit)
  | Err e => exists h, h ∈ hs /\ full_replay h = Err e
  end.
Proof.
  intros Hl. unfold replay_round. revert t. induction hs as [|h hs IH]; intros t Hg Hd Hok Hcur.
  { split; [by apply extends_refl|]. by intros h ?%not_elem_of_nil. }
  rewrite fmap_cons in Hd. apply NoDup_cons in Hd as [Hn Hd].
  apply Forall_cons in Hok as [[Hh Hread] Hok]. cbn [try_fold].
  change (replay_page payload l limit t h)
    with (try_fold (replay_event payload h) (next_events l limit t h) t).
  pose proof (current_page payload l Hl h limit t Hg (Hcur h ltac:(by left))) as Hpage.
  destruct (try_fold (replay_event payload h) (next_events l limit t h) t) as [t1|e];
    [|exists h; by split; [left|]].
  destruct Hpage as (Hcur1 & Hreach1 & Hext1). cbn [mbind result_bind].
  assert (forall h', h' ∈ hs -> agree h' t1 t) as Hother.
  { intros h' Hin. apply (ex_other _ _ _ _ Hext1).
    - rewrite Forall_forall in Hok. destruct (Hok _ Hin). apply ho_name.
    - intros Heq%list_elem_of_singleton. apply Hn. rewrite <- Heq. by apply list_elem_of_fmap_2. }
  assert (forall h', h' ∈ hs -> current payload l h' t1) as Hcur2.
  { intros h' Hin. eapply current_agree; [by apply Hother|]. apply Hcur. by right. }
  specialize (IH t1 (ex_good _ _ _ _ Hext1) Hd Hok Hcur2).
  destruct (try_fold (replay_page payload l limit) hs t1) as [t2|e];
    [|destruct IH as (h' & Hin & Herr); exists h'; split; [by right|done]].
  destruct IH as [Hext2 Hall]. split.
  - eapply extends_trans; (eapply extends_mono; [|eassumption]); intros p Hp; rewrite fmap_cons.
    + apply list_elem_of_singleton in Hp as ->. by left.
    + by right.
  - intros h' [->|Hin]%elem_of_cons.
    + assert (agree h t2 t1) as Hag by (by apply (ex_other _ _ _ _ Hext2); [apply ho_name|]).
      split; [by eapply current_agree|]. by rewrite (proj1 Hag).
    + destruct (Hall h' Hin) as [Hc Hr]. split; [done|]. by rewrite Hr, (proj1 (Hother h' Hin)).
Qed.

(** The invariant of the worker. *)
Definition projections_ok (j : journal) : Prop :=
  projectable j l payload /\ forall h, h ∈ handlers -> current payload l h (rj_tables j).

Lemma handlers_NoDup : NoDup names.
Proof.
  unfold worker_new in Hnew. destruct (bool_decide (NoDup names)) eqn:Hd; [|done].
  by apply bool_decide_eq_true in Hd.
Qed.
Lemma reads_through_all (j : journal) :
  projectable j l payload -> Forall (fun h => ProjectionHandlerOk h /\ reads_through j h) handlers.
Proof.
  intros Hj. eapply Forall_impl; [exact Hhandlers|]. intros h []. split; [done|].
  by eapply record_reads_through.
Qed.

Lemma run_once_current limit (j : journal) :
  projections_ok j ->
  (exists e, run_once limit handlers j = (Err e, j) /\ exists h, h ∈ handlers /\ full_replay h = Err e) \/
  exists t', run_once limit handlers j
    = (Ok (mkProjectionRunReport (applied_events j l limit handlers) (status_of l t' <$> handlers)),
       set_tables t' j) /\
    projections_ok (set_tables t' j) /\ extends (count l) names (rj_tables j) t' /\
    forall h, h ∈ handlers -> reached t' h = N.min (count l) (reached (rj_tables j) h + limit).
Proof.
  intros [Hj Hcur].
  rewrite (run_once_exact value_serialises j l payload Hj limit handlers Hnew (reads_through_all j Hj)).
  pose proof (round_current limit handlers (rj_tables j) (projectable_events j Hj)
    (projectable_good j Hj) handlers_NoDup Hhandlers Hcur) as Hround.
  destruct (replay_round payload l limit handlers (rj_tables j)) as [t'|e]; [right|left; by exists e].
  destruct Hround as [Hext Hall]. exists t'. split_and!; [done| |done|by intros h Hin; apply Hall].
  split; [|by intros h Hin; apply Hall]. apply projectable_rows; [done|apply Hext..].
Qed.

(** ** Draining *)

Definition ready_status (h : ProjectionHandler) : ProjectionStatus :=
  mkProjectionStatus (h_name h) (count l) (count l) 0 true.
Lemma status_ready t h : reached t h = count l -> status_of l t h = ready_status h.
Proof. intros Hr. unfold status_of. by rewrite Hr, N.sub_diag, N.eqb_refl. Qed.

Lemma nothing_applied limit (j : journal) :
  (0 < limit)%N -> applied_events j l limit handlers = 0%N ->
  forall h, h ∈ handlers -> (count l <= reached (rj_tables j) h)%N.
Proof.
  unfold applied_events. intros Hlim Hz h Hin.
  assert (forall hs n, foldl (fun n h => saturating_add n (count (next_events l limit (rj_tables j) h))) n hs = 0%N ->
    n = 0%N /\ forall h, h ∈ hs -> count (next_events l limit (rj_tables j) h) = 0%N) as Hall.
  { clear -l. induction hs as [|h hs IH]; intros n; simpl; [by intros ->; split; [|intros h ?%not_elem_of_nil]|].
    intros [Hn Hrest]%IH. unfold saturating_add, u64_max in Hn. split; [lia|].
    intros h' [->|Hin]%elem_of_cons; [lia|by apply Hrest]. }
  destruct (Hall _ _ Hz) as [_ Hc]. specialize (Hc h Hin).
  unfold next_events, count in *. rewrite length_take, length_drop in Hc. lia.
Qed.

Definition drained (j : journal) (r : result StoreError ProjectionRunReport) (j' : journal) : Prop :=
  projections_ok j' /\ (exists t', j' = set_tables t' j /\ extends (count l) names (rj_tables j) t') /\
  match r with
  | Ok report => rr_projections report = ready_status <$> handlers /\
      forall h, h ∈ handlers -> reached (rj_tables j') h = count l
  | Err e => exists h, h ∈ handlers /\ full_replay h = Err e
  end.

Lemma set_tables_id (j : journal) : set_tables (rj_tables j) j = j.
Proof. by destruct j. Qed.
Lemma drain_rounds_ready rounds limit applied (j : journal) :
  projections_ok j -> (0 < limit)%N -> 0 < rounds ->
  (forall h, h ∈ handlers -> count l <= reached (rj_tables j) h + N.of_nat rounds * limit)%N ->
  let '(r, j') := drain_rounds rounds limit handlers applied j in drained j r j'.
Proof.
  revert applied j. induction rounds as [|rounds IH]; intros applied j Hj Hlim Hpos Hfar; [lia|].
  cbn [drain_rounds]. unfold op_bind at 1.
  destruct (run_once_current limit j Hj) as [(e & -> & Herr)|(t' & -> & Hj' & Hext & Hreach)].
  { split; [done|]. split; [|done]. exists (rj_tables j). rewrite set_tables_id. split; [done|].
    apply extends_refl, projectable_good, Hj. }
  cbn [rr_applied rr_projections].
  destruct (forallb st_ready (status_of l t' <$> handlers)) eqn:Hready.
  { assert (forall h, h ∈ handlers -> reached t' h = count l) as Hall.
    { intros h Hin. apply forallb_iff in Hready. rewrite Forall_fmap, Forall_forall in Hready.
      apply N.eqb_eq. by apply (Hready h Hin). }
    split; [done|]. split; [by exists t'|]. split; [|done]. cbn [rr_projections].
    apply list_fmap_ext. intros i h Hh. apply status_ready, Hall. by eapply list_elem_of_lookup_2. }
  assert (exists h, h ∈ handlers /\ (reached t' h < count l)%N) as (h0 & Hin0 & Hlt0).
  { apply not_true_iff_false in Hready. rewrite forallb_iff, Forall_fmap in Hready.
    apply not_Forall_Exists in Hready; [|intros h; simpl; apply _].
    apply Exists_exists in Hready as (h & Hin & Hne). exists h. split; [done|]. simpl in Hne.
    rewrite N.eqb_eq in Hne. rewrite (Hreach h Hin) in Hne |- *. lia. }
  destruct (N.eqb_spec (applied_events j l limit handlers) 0) as [Hz|Hnz].
  { pose proof (nothing_applied limit j Hlim Hz h0 Hin0) as Hge.
    rewrite (Hreach h0 Hin0) in Hlt0. lia. }
  destruct rounds as [|rounds].
  { exfalso. specialize (Hfar h0 Hin0). rewrite (Hreach h0 Hin0) in Hlt0. lia. }
  specialize (IH (saturating_add applied (applied_events j l limit handlers)) (set_tables t' j)
    Hj' Hlim ltac:(lia)).
  destruct (drain_rounds (S rounds) limit handlers _ (set_tables t' j)) as [r j'].
  destruct IH as (Hok & (t'' & -> & Hext') & Hr).
  { intros h Hin. cbn [set_tables rj_tables]. rewrite (Hreach h Hin). specialize (Hfar h Hin). lia. }
  split; [done|]. split; [|done]. exists t''. split; [done|]. by eapply extends_trans.
Qed.

Lemma status_current (j : journal) :
  projectable j l payload -> status handlers j = (Ok (status_of l (rj_tables j) <$> handlers), j).
Proof.
  intros Hj. rewrite <- (set_tables_id j) at 1 3.
  eapply (status_ok j l payload Hj); [by rewrite set_rows_id|].
  eapply Forall_impl; [exact Hhandlers|]. by intros h [].
Qed.
Lemma drain_rounds_keeps rounds limit applied (j : journal) :
  projections_ok j -> projections_ok (drain_rounds rounds limit handlers applied j).2.
Proof.
  revert applied j. induction rounds as [|rounds IH]; intros applied j Hj; cbn [drain_rounds];
    unfold op_bind at 1.
  { by rewrite status_current by apply Hj. }
  destruct (run_once_current limit j Hj) as [(e & -> & _)|(t' & -> & Hj' & _)]; [done|].
  cbn [rr_applied rr_projections]. destruct (forallb _ _); [done|].
  destruct (_ =? 0)%N; [|by apply IH]. unfold op_bind. by rewrite status_current by apply Hj'.
Qed.

(** ** Resets *)

Lemma reset_spec p t :
  good t -> valid_name p = true -> exists t', reset p t = Ok t' /\ good t' /\
    t_positions t' = delete p (t_positions t) /\ t' = set_rows (t_positions t') (t_records t') t /\
    view p t' = ∅ /\ forall q, valid_name q = true -> q <> p -> view q t' = view q t.
Proof.
  intros [Hr Hv] Hp. unfold reset. rewrite (valid_name_prefix p Hp). cbn [mbind result_bind].
  eexists. split; [done|]. fold (reset_keys (p ++s nul) (t_records t)). set (t' := set_rows _ _ _).
  assert (forall key, t_records t' !! key
    = if decide (is_Some (t_records t !! key) /\ starts_with key (p ++s nul) = true) then None
      else t_records t !! key) as Hrec.
  { intros key. cbn [t' set_rows t_records]. rewrite foldl_delete_lookup.
    apply decide_ext, reset_keys_elem. }
  assert (forall key b, t_records t' !! key = Some b -> t_records t !! key = Some b) as Hsub.
  { intros key b. rewrite Hrec. by destruct (decide _). }
  assert (view p t' = ∅) as Hempty.
  { apply map_empty. intros k. apply eq_None_not_Some. intros [v (b & Hb & _)%view_lookup].
    pose proof (Hsub _ _ Hb) as Hb0. rewrite Hrec, decide_True in Hb; [done|]. split; [by eexists|].
    rewrite row_append. apply starts_with_spec. by eexists. }
  assert (forall q, valid_name q = true -> q <> p -> view q t' = view q t) as Hother.
  { intros q Hq Hne. apply map_eq. intros k. apply option_eq. intros v. rewrite !view_lookup.
    split; intros (b & Hb & Hval); exists b; (split; [|done]); [by apply Hsub|].
    rewrite Hrec. rewrite decide_False; [done|]. intros [_ Hst]. apply Hne.
    apply starts_with_spec in Hst as [r Hst]. rewrite append_assoc in Hst.
    apply row_inj in Hst as [? _]; by try apply valid_name_nul. }
  split_and!; [|done|done|done|done]. split.
  - intros key b Hb. by apply Hr, Hsub.
  - intros q k v Hq Hk. destruct (decide (q = p)) as [->|Hne].
    + by rewrite Hempty, lookup_empty in Hk.
    + rewrite Hother in Hk by done. by eapply Hv.
Qed.
Lemma reset_invalid p t : valid_name p = false -> exists e, reset p t = Err e.
Proof. intros Hp. unfold reset. rewrite (invalid_prefix p Hp). by eexists. Qed.

(** A reset projection is current, and the others are as they were. *)
Lemma empty_current t h :
  good t -> reached t h = 0%N -> view (h_name h) t = ∅ -> current payload l h t.
Proof.
  intros Hg Hr Hv. split; [lia|]. exists no_tables. rewrite Hr. split; [done|].
  split; [apply good_nothing|]. split; [done|]. rewrite Hv. symmetry.
  apply map_empty. intros k. apply eq_None_not_Some. by intros [v (b & Hb & _)%view_lookup].
Qed.

Lemma reset_projection_spec name (j : journal) :
  projectable j l payload -> exists t', (reset_projection name j).2 = set_tables t' j /\
    projectable (set_tables t' j) l payload /\ extends (count l) [name] (rj_tables j) t' /\
    (valid_name name = true -> (reset_projection name j).1 = Ok tt /\
     t_positions t' !! name = None /\ view name t' = ∅).
Proof.
  intros Hj. pose proof (projectable_good j Hj) as Hg. unfold reset_projection.
  destruct (valid_name name) eqn:Hv.
  - destruct (reset_spec name _ Hg Hv) as (t' & -> & Hg' & Hp & Hrest & Hempty & Hother).
    assert (forall q n, t_positions t' !! q = Some n -> t_positions (rj_tables j) !! q = Some n) as Hsub.
    { intros q n. rewrite Hp. by intros [_ ?]%lookup_delete_Some. }
    exists t'. split_and!; [done| | |].
    + apply projectable_rows; [done|done|done|]. left. by apply Hsub.
    + split; [done|done|left; by apply Hsub|]. intros h Hh Hn. rewrite list_elem_of_singleton in Hn.
      split; [|by apply Hother]. unfold reached. by rewrite Hp, lookup_delete_ne.
    + intros _. split_and!; [done| |done]. by rewrite Hp, lookup_delete_eq.
  - destruct (reset_invalid name (rj_tables j) Hv) as [e ->]. exists (rj_tables j).
    rewrite set_tables_id. split_and!; [done|done|by apply extends_refl|done].
Qed.
Lemma reset_projection_keeps name (j : journal) :
  projections_ok j -> projections_ok (reset_projection name j).2.
Proof.
  intros [Hj Hcur]. destruct (reset_projection_spec name j Hj) as (t' & -> & Hj' & Hext & Hcleared).
  split; [done|]. intros h Hin. pose proof Hhandlers as Hok. rewrite Forall_forall in Hok.
  destruct (Hok h Hin) as [Hh _]. destruct (decide (h_name h = name)) as [<-|Hne].
  - destruct Hcleared as (_ & Hp & Hv); [apply ho_name|].
    apply empty_current; [apply Hext| |done]. unfold reached. cbn [set_tables rj_tables]. by rewrite Hp.
  - eapply current_agree; [|by apply Hcur]. apply (ex_other _ _ _ _ Hext); [apply ho_name|].
    by rewrite list_elem_of_singleton.
Qed.

(** Resetting every projection makes them all current, whatever they held. *)
Lemma resets_current hs (j : journal) :
  projectable j l payload -> (forall h, h ∈ hs -> ProjectionHandlerOk h) -> exists t',
  op_fold (fun _ h => reset_projection (h_name h)) hs tt j = (Ok tt, set_tables t' j) /\
  projectable (set_tables t' j) l payload /\ extends (count l) (h_name <$> hs) (rj_tables j) t' /\
  forall h, ProjectionHandlerOk h -> h ∈ hs \/ reached (rj_tables j) h = 0%N /\ view (h_name h) (rj_tables j) = ∅ ->
    reached t' h = 0%N /\ view (h_name h) t' = ∅.
Proof.
  revert j. induction hs as [|h hs IH]; intros j Hj Hok; cbn [op_fold].
  { exists (rj_tables j). rewrite set_tables_id. split_and!; [done|done| |].
    - by apply extends_refl, projectable_good.
    - by intros h _ [?%not_elem_of_nil|?]. }
  assert (ProjectionHandlerOk h) as Hh by (apply Hok; left).
  destruct (reset_projection_spec (h_name h) j Hj) as (t1 & Hj1 & Hp1 & Hext1 & Hcleared).
  destruct Hcleared as (Hr & Hpos & Hv); [apply ho_name|]. unfold op_bind at 1.
  destruct (reset_projection (h_name h) j) as [r j1] eqn:Hreset. cbn [fst snd] in Hr, Hj1. subst r j1.
  destruct (IH (set_tables t1 j) Hp1) as (t2 & -> & Hp2 & Hext2 & Hall); [intros; apply Hok; by right|].
  exists t2. split_and!; [done|done| |].
  - eapply extends_trans; (eapply extends_mono; [|eassumption]); intros p Hp; rewrite fmap_cons.
    + apply list_elem_of_singleton in Hp as ->. left.
    + by right.
  - intros h' Hh' Hcase. apply (Hall h' Hh'). cbn [set_tables rj_tables].
    destruct (decide (h_name h' = h_name h)) as [Heq|Hne].
    { right. unfold reached. by rewrite Heq, Hpos. }
    destruct Hcase as [[->|Hin]%elem_of_cons|[Hz He]]; [done|by left|right].
    destruct (ex_other _ _ _ _ Hext1 h' ho_name) as [-> ->]; [|done].
    by rewrite list_elem_of_singleton.
Qed.

(** What the worker's owner may do with it. *)
Inductive worker_step (j : journal) : journal -> Prop :=
  | step_run limit : worker_step j (run_once limit handlers j).2
  | step_drain batch_limit max_rounds : worker_step j (drain batch_limit max_rounds handlers j).2
  | step_reset name : worker_step j (reset_projection name j).2
  | step_rebuild name : worker_step j (rebuild name handlers j).2
  | step_rebuild_all : worker_step j (rebuild_all handlers j).2.

Lemma drain_keeps batch_limit max_rounds (j : journal) :
  projections_ok j -> projections_ok (drain batch_limit max_rounds handlers j).2.
Proof.
  intros Hj. unfold drain, op_bind, op_lift. destruct (reject _ _); [|done].
  by apply drain_rounds_keeps.
Qed.
Lemma worker_step_keeps (j j' : journal) : worker_step j j' -> projections_ok j -> projections_ok j'.
Proof.
  intros Hstep Hj. destruct Hstep as [limit|b m|name|name|].
  - destruct (run_once_current limit j Hj) as [(e & -> & _)|(t' & -> & Hj' & _)]; done.
  - by apply drain_keeps.
  - by apply reset_projection_keeps.
  - unfold rebuild, op_bind, op_lift. destruct (reject _ _); [|done].
    pose proof (reset_projection_keeps name j Hj) as Hr.
    destruct (reset_projection name j) as [[|] j']; [|done]. by apply drain_keeps.
  - unfold rebuild_all. unfold op_bind at 1.
    assert (forall hs (j : journal), projections_ok j ->
      projections_ok (op_fold (fun _ h => reset_projection (h_name h)) hs tt j).2) as Hresets.
    { clear j Hj. induction hs as [|h hs IH]; intros j Hj; cbn [op_fold]; [done|].
      unfold op_bind. pose proof (reset_projection_keeps (h_name h) j Hj) as Hr.
      destruct (reset_projection (h_name h) j) as [[[]|] j']; [|done]. by apply IH. }
    specialize (Hresets handlers j Hj).
    destruct (op_fold _ handlers tt j) as [[|] j']; [|done]. by apply drain_keeps.
Qed.

(** C11. Whatever rounds, drains, resets and rebuilds the worker's owner
    asks for, failed ones included, every projection stays what replaying the journal up to
    its recorded position over an empty store gives, at most at the journal's head, and the
    journal stays sound. *)
Theorem projections_current (j j' : journal) :
  projections_ok j -> rtc worker_step j j' ->
  journal_ok j' l /\ forall h, h ∈ handlers ->
    (reached (rj_tables j') h <= count l)%N /\
    exists t, try_fold (replay_event payload h) (take (N.to_nat (reached (rj_tables j') h)) l) no_tables
                = Ok t /\ view (h_name h) (rj_tables j') = view (h_name h) t.
Proof.
  intros Hj Hsteps. assert (projections_ok j') as [Hj' Hcur].
  { induction Hsteps as [|j j1 j' Hstep _ IH]; [done|]. by apply IH, (worker_step_keeps j). }
  split; [apply Hj'|]. intros h Hin. destruct (Hcur h Hin) as (Hle & t & Ht & _ & _ & Hv).
  split; [done|]. by exists t.
Qed.

(** C5. Rebuilding restores every projection: over a journal of at most
    256 * 16384 events it ends, whatever the projections held before, with every projection
    ready at the head and holding exactly what replaying the whole journal over an empty
    store gives; or with the error of a reducer that rejects the journal. Projections of
    other names keep their records. *)
Theorem rebuild_all_restores (j : journal) :
  projectable j l payload -> (count l <= 256 * 16384)%N ->
  let '(r, j') := rebuild_all handlers j in
  journal_ok j' l /\
  (forall q, valid_name q = true -> q ∉ names -> view q (rj_tables j') = view q (rj_tables j)) /\
  match r with
  | Ok report => rr_projections report = ready_status <$> handlers /\
      forall h, h ∈ handlers -> reached (rj_tables j') h = count l /\
        exists t, full_replay h = Ok t /\ view (h_name h) (rj_tables j') = view (h_name h) t
  | Err e => exists h, h ∈ handlers /\ full_replay h = Err e
  end.
Proof.
  intros Hj Hle. pose proof Hhandlers as Hok. rewrite Forall_forall in Hok.
  destruct (resets_current handlers j Hj) as (t & Hreset & Hp & Hext & Hall);
    [intros h Hin; by apply Hok|].
  assert (projections_ok (set_tables t j)) as Hstart.
  { split; [done|]. intros h Hin. destruct (Hok h Hin) as [Hh _].
    destruct (Hall h Hh (or_introl Hin)). apply empty_current; [apply Hext|done|done]. }
  unfold rebuild_all, op_bind at 1. rewrite Hreset.
  change (drain 256 16384 handlers (set_tables t j))
    with (drain_rounds (N.to_nat 16384) 256 handlers 0 (set_tables t j)).
  pose proof (drain_rounds_ready (N.to_nat 16384) 256 0 (set_tables t j) Hstart) as Hd.
  destruct (drain_rounds _ 256 handlers 0 (set_tables t j)) as [r j'].
  destruct Hd as ((Hj' & Hcur) & (t' & -> & Hext') & Hr); [lia|lia|intros; lia|].
  split; [apply Hj'|]. split.
  - intros q Hq Hn. set (h := mkProjectionHandler q (fun _ => false) false (fun _ _ _ => Ok [])).
    etrans; [exact (proj2 (ex_other _ _ _ _ Hext' h Hq Hn))
            |exact (proj2 (ex_other _ _ _ _ Hext h Hq Hn))].
  - destruct r as [report|e]; [|done]. destruct Hr as [Hstatus Hreach]. split; [done|].
    intros h Hin. split; [by apply Hreach|]. destruct (Hcur h Hin) as (_ & tr & Htr & _ & _ & Hv).
    exists tr. split; [|done]. rewrite Hreach in Htr by done.
    by rewrite take_ge in Htr by (unfold count; lia).
Qed.
End Rounds.
End Drain.

(** ** The journal of two events *)

Section Test.
#[local] Existing Instances journal_externals test_codec test_codec_ok.
Abbreviation test_handlers := [SessionProjection; WorkProjection].

Lemma test_handlers_ok : Forall (fun h => ProjectionHandlerOk h /\ RecordReducer h) test_handlers.
Proof. repeat (apply Forall_cons; split; [split; apply _|]). apply Forall_nil_2. Qed.
Lemma test_serialises : forall v : value, exists b, to_vec_value v = Ok b.
Proof. by eexists. Qed.

Lemma rebuild_all_restores_witness :
  exists l report, count l = 2%N /\ (rebuild_all test_handlers test_two).1 = Ok report /\
    rr_projections report = ready_status l <$> test_handlers /\
    forall h, h ∈ test_handlers -> exists t,
      try_fold (replay_event test_payload h) l no_tables = Ok t /\
      view (h_name h) (rj_tables (rebuild_all test_handlers test_two).2) = view (h_name h) t.
Proof.
  destruct test_projectable as (l & Hl & Hp). exists l.
  assert (match (rebuild_all test_handlers test_two).1 with Ok _ => true | Err _ => false end = true)
    as Hok by (vm_compute; reflexivity). revert Hok.
  pose proof (rebuild_all_restores test_serialises test_payload l test_handlers eq_refl
    test_handlers_ok test_two Hp) as Ht. rewrite Hl in Ht. specialize (Ht ltac:(lia)). revert Ht.
  generalize (rebuild_all test_handlers test_two). intros [[report|e] j'] (_ & _ & Hr) Hok; [|done].
  exists report. split_and!; [done|done|apply Hr|]. intros h Hin. by apply Hr.
Defined.

(** The rounds before the reset have filled the session's records. *)
Lemma projections_current_witness :
  exists l j', count l = 2%N /\ rtc (worker_step test_handlers) test_two j' /\
    (reached (rj_tables j') SessionProjection = 1)%N /\
    exists t, try_fold (replay_event test_payload SessionProjection) (take 1 l) no_tables = Ok t /\
      view "sessions-v1" (rj_tables j') = view "sessions-v1" t.
Proof.
  destruct test_projectable as (l & Hl & Hp).
  exists l, (run_once 1 test_handlers test_two).2. split; [done|].
  assert (rtc (worker_step test_handlers) test_two (run_once 1 test_handlers test_two).2) as Hsteps
    by exact (rtc_once _ _ (step_run test_handlers test_two 1)).
  assert (projections_ok test_payload l test_handlers test_two) as Hcur.
  { split; [done|]. intros h Hin. apply empty_current.
    - split; [|apply Hp]. intros k b. by rewrite test_two_records.
    - assert (t_positions (rj_tables test_two) = ∅) as Hpos by (vm_compute; reflexivity).
      unfold reached. by rewrite Hpos.
    - unfold view. by rewrite test_two_records. }
  split; [exact Hsteps|].
  destruct (projections_current test_serialises test_payload l test_handlers eq_refl
    test_handlers_ok test_two _ Hcur Hsteps) as [_ Hall].
  destruct (Hall SessionProjection ltac:(by left)) as (_ & t & Ht & Hv).
  assert (reached (rj_tables (run_once 1 test_handlers test_two).2) SessionProjection = 1%N) as Hr
    by (vm_compute; reflexivity).
  split; [exact Hr|]. rewrite Hr in Ht. exists t. exact (conj Ht Hv).
Defined.
End Test.
