(* ===== verification/Aggregates.v ===== *)
(** * Records kept in streams

    What a stream whose events carry whole records means, for any kind of record.  An
    [Aggregate] is a labelled transition system: the records a stream may begin with, and
    the steps an event may take.  [record_trace] are its runs, as histories of one stream;
    [record_batch] is what a writer may append after it read a history; a batch that the
    journal accepts, however much later, extends runs to runs. *)

From S2P Require Import Prelude Json Contracts Boundary Platform JournalStore Journal Store.
From S2P Require Import JournalModel JournalAppend ProjectionCorrect ProjectionView StoreSpec StoreCorrect SessionContracts Session.
From S2P Require Import WorkContracts Work.

Open Scope string_scope.
Open Scope op_scope.

Class Aggregate (A : Type) `{RecordCodec A, WorkRecord A} := {
  ag_prefix : string;
  ag_created : string;
  (** The fields are in the range of their machine types. *)
  ag_fit : A -> Prop;
  (** The payload and the record of a creation. *)
  ag_init : value -> A -> Prop;
  (** The steps, by the type of their event. *)
  ag_step : string -> A -> A -> Prop;
}.
(** What [serde] does with a record. *)
Class AggregateOk (A : Type) `{Aggregate A} : Prop := {
  record_roundtrip : forall a, ag_fit a -> record_from_value (record_to_value a) = Ok a;
  record_storable : forall a, ag_fit a ->
    json_depth (record_to_value a) < MAX_PARSED_DEPTH /\ exact_json (record_to_value a) = true;
}.

Section Aggregates.
Context {A : Type} `{Aggregate A}.

Definition record_stream (id : string) : string := ag_prefix ++s id.

(** ** Runs *)

Inductive record_trace (id : string) : history -> A -> Prop :=
| record_created e v a :
    ev_event_type e = ag_created -> get "record" v = Some (record_to_value a) ->
    wr_id a = id -> ag_fit a -> ag_init v a ->
    record_trace id [(e, v)] a
| record_next evs a e v b :
    record_trace id evs a -> get "record" v = Some (record_to_value b) ->
    wr_id b = id -> ag_fit b -> ag_step (ev_event_type e) a b ->
    record_trace id (evs ++ [(e, v)]) b.

(** Every stream below the prefix is empty or a run. *)
Definition records_ok (h : history) : Prop := forall id,
  stream_entries (record_stream id) h = [] \/
  exists a, record_trace id (stream_entries (record_stream id) h) a.

(** ** Writes *)

(** An event that creates a record, or takes a step from the one [h] holds. *)
Definition record_write (h : history) (event : NewEvent) (id : string) (b : A) : Prop :=
  ne_stream_id event = record_stream id /\
  get "record" (ne_payload event) = Some (record_to_value b) /\ wr_id b = id /\ ag_fit b /\
  ((ne_expected_stream_version event = 0%N /\ ne_event_type event = ag_created /\
    ag_init (ne_payload event) b) \/
   exists a, record_trace id (stream_entries (record_stream id) h) a /\
     ne_expected_stream_version event = count (stream_entries (record_stream id) h) /\
     ag_step (ne_event_type event) a b).
Definition off_records (event : NewEvent) : Prop := starts_with (ne_stream_id event) ag_prefix = false.

(** A batch of such events, at most one to a stream, and of others. *)
Inductive record_batch (h : history) : list NewEvent -> Prop :=
| batch_nil : record_batch h []
| batch_off event batch :
    off_records event -> record_batch h batch -> record_batch h (event :: batch)
| batch_write event batch id b :
    record_write h event id b ->
    Forall (fun e => ne_stream_id e <> record_stream id) batch ->
    record_batch h batch -> record_batch h (event :: batch).

Lemma record_stream_inj id id' : record_stream id = record_stream id' -> id = id'.
Proof. apply append_inj. Qed.
Lemma off_records_stream event id : off_records event -> ne_stream_id event <> record_stream id.
Proof.
  intros Hoff Heq. unfold off_records in Hoff. rewrite Heq in Hoff.
  assert (starts_with (record_stream id) ag_prefix = true) as Ht by (apply starts_with_spec; by exists id).
  congruence.
Qed.
Lemma off_batch h batch : Forall off_records batch -> record_batch h batch.
Proof. induction 1; by constructor. Qed.
Lemma off_batch_app h batch events :
  Forall off_records batch -> record_batch h events -> record_batch h (batch ++ events).
Proof. induction 1; [done|]. intros Hb. simpl. apply batch_off; [done|]. by apply IHForall. Qed.
Lemma write_batch h event id b batch :
  record_write h event id b -> Forall off_records batch -> record_batch h (event :: batch).
Proof.
  intros Hw Hoff. eapply batch_write; [done| |by apply off_batch].
  eapply Forall_impl; [exact Hoff|]. intros ev Hev. by apply off_records_stream.
Qed.

(** What a batch does to one stream. *)
Lemma record_batch_stream h batch id :
  record_batch h batch ->
  Forall (fun e => ne_stream_id e <> record_stream id) batch \/
  exists l1 event l2 b, batch = (l1 ++ event :: l2)%list /\
    Forall (fun e => ne_stream_id e <> record_stream id) l1 /\
    Forall (fun e => ne_stream_id e <> record_stream id) l2 /\ record_write h event id b.
Proof.
  induction 1 as [|event batch Hoff _ IH|event batch id' b Hw Hothers _ IH]; [by left| |].
  - pose proof (off_records_stream event id Hoff) as Hne.
    destruct IH as [IH|(l1 & ev & l2 & b & -> & Hl1 & Hl2 & Hw)]; [left; by constructor|right].
    exists (event :: l1), ev, l2, b. split_and!; try done. by constructor.
  - destruct (decide (id' = id)) as [->|Hne].
    { right. exists [], event, batch, b. by split_and!. }
    assert (ne_stream_id event <> record_stream id) as Hs.
    { destruct Hw as [-> _]. intros Heq. by apply record_stream_inj in Heq. }
    destruct IH as [IH|(l1 & ev & l2 & b' & -> & Hl1 & Hl2 & Hw')]; [left; by constructor|right].
    exists (event :: l1), ev, l2, b'. split_and!; try done. by constructor.
Qed.

(** The version check of an event whose stream the rest of the batch leaves alone. *)
Lemma no_conflict_at version l1 event l2 :
  first_conflict version (l1 ++ event :: l2) = None ->
  Forall (fun e => ne_stream_id e <> ne_stream_id event) l1 ->
  ne_expected_stream_version event = version (ne_stream_id event).
Proof.
  revert version. induction l1 as [|e l1 IH]; intros version Hn Hf; [by apply no_conflict_head in Hn|].
  apply Forall_cons in Hf as [He Hf]. cbn [app first_conflict] in Hn.
  destruct (ne_expected_stream_version e =? version (ne_stream_id e))%N; [|done].
  rewrite (IH _ Hn Hf). by rewrite (proj2 (String.eqb_neq _ _) He).
Qed.

Lemma trace_nonempty id evs a : record_trace id evs a -> evs <> [].
Proof. by destruct 1 as [|[]]. Qed.

(** ** The central lemma *)

Lemma record_write_ok inputs (h g : history) l1 event l2 es id b :
  batch_committed (h ++ g) inputs (l1 ++ event :: l2) es ->
  Forall (fun e => ne_stream_id e <> record_stream id) l1 ->
  Forall (fun e => ne_stream_id e <> record_stream id) l2 ->
  record_write h event id b ->
  record_trace id (stream_entries (record_stream id) ((h ++ g) ++ entries (l1 ++ event :: l2) es)) b.
Proof.
  intros Hb Hl1 Hl2 (Hs & Hget & Hid & Hfit & Hkind). pose proof Hb as [Hr Hn]. apply recorded_all in Hr.
  rewrite stream_entries_app. apply Forall2_app_inv_l in Hr as (es1 & es2 & Hr1 & Hr2 & ->).
  apply Forall2_cons_inv_l in Hr2 as (e & es3 & He & Hr3 & ->).
  rewrite entries_concat by (by eapply Forall2_length).
  change (event :: l2) with ([event] ++ l2)%list. change (e :: es3) with ([e] ++ es3)%list.
  rewrite (entries_concat [event] l2 [e] es3) by done. rewrite !(stream_entries_app _ (entries _ _)).
  rewrite (entries_off _ l1 es1 Hr1 Hl1), (entries_off _ l2 es3 Hr3 Hl2), (entries_on _ [event] [e]);
    [|by constructor|by apply Forall_singleton].
  apply no_conflict_at in Hn; [|by rewrite Hs]. rewrite Hs in Hn.
  pose proof (recorded_type _ _ He) as Hty. simpl.
  destruct Hkind as [(Hv & Htype & Hinit)|(a & Ht & Hv & Hstep)].
  - assert (stream_entries (record_stream id) (h ++ g) = []) as ->.
    { rewrite Hv, <- stream_entries_length in Hn. unfold count in Hn.
      by destruct (stream_entries _ (h ++ g)). }
    simpl. constructor; try done. by rewrite <- Htype.
  - rewrite Hv, stream_entries_length in Hn. rewrite (same_version_same_stream _ h g) by done.
    eapply record_next; try done. by rewrite Hty.
Qed.
Lemma record_batch_ok inputs (h g : history) batch es :
  records_ok (h ++ g) -> record_batch h batch -> batch_committed (h ++ g) inputs batch es ->
  records_ok ((h ++ g) ++ entries batch es).
Proof.
  intros Hok Hp Hb id.
  destruct (record_batch_stream h batch id Hp) as [Hoff|(l1 & event & l2 & b & -> & Hl1 & Hl2 & Hw)].
  - pose proof Hb as [Hr _]. apply recorded_all in Hr.
    rewrite stream_entries_app, (entries_off _ batch es Hr Hoff), app_nil_r. apply Hok.
  - right. exists b. by eapply record_write_ok.
Qed.

(** ** One record over time *)

Section Time.
Context `{!AggregateOk A}.

Lemma trace_first id evs a :
  record_trace id evs a -> exists e v a0 rest, evs = (e, v) :: rest /\
    ev_event_type e = ag_created /\ ag_init v a0 /\ ag_fit a0 /\ wr_id a0 = id /\
    record_trace id [(e, v)] a0.
Proof.
  induction 1 as [e v a He Hg Hid Hfit Hi|evs a e v b Ht (e0 & v0 & a0 & rest & -> & He & Hi) Hg Hid Hfit Hs].
  - exists e, v, a, []. split_and!; try done. by constructor.
  - by exists e0, v0, a0, (rest ++ [(e, v)])%list.
Qed.
Lemma trace_last id evs a :
  record_trace id evs a -> exists e v, last evs = Some (e, v) /\
    get "record" v = Some (record_to_value a) /\ wr_id a = id /\ ag_fit a.
Proof.
  destruct 1 as [e v a He Hg Hid Hfit Hi|evs a e v b Ht Hg Hid Hfit Hs]; exists e, v; [done|].
  by rewrite last_app.
Qed.
Lemma trace_unique id evs a b : record_trace id evs a -> record_trace id evs b -> a = b.
Proof.
  intros (e & v & Hl & Hg & _ & Hf)%trace_last (e' & v' & Hl' & Hg' & _ & Hf')%trace_last.
  rewrite Hl in Hl'. injection Hl' as <- <-. rewrite Hg in Hg'. injection Hg' as Heq.
  assert (Ok (E:=string) a = Ok b) as [=]; [|done].
  by rewrite <- (record_roundtrip a Hf), Heq, record_roundtrip.
Qed.
Lemma trace_snoc id evs e v b :
  record_trace id (evs ++ [(e, v)]) b -> evs <> [] ->
  exists a, record_trace id evs a /\ ag_step (ev_event_type e) a b.
Proof.
  intros Ht Hne. remember (evs ++ [(e, v)])%list as all eqn:Hall.
  destruct Ht as [e0 v0 a He Hg Hid Hfit Hi|evs0 a e0 v0 b Ht Hg Hid Hfit Hs].
  - destruct evs as [|x evs]; [done|]. injection Hall as _ Hnil. by destruct evs.
  - apply app_inj_tail in Hall as [-> [= -> ->]]. by exists a.
Qed.
(** A relation that holds from a record to itself and is extended by every step holds
    from a record to everything it becomes. *)
Lemma trace_keeps (R : A -> A -> Prop) id evs evs' a b :
  (forall a, R a a) -> (forall ty a b c, R a b -> ag_step ty b c -> R a c) ->
  record_trace id evs a -> record_trace id (evs ++ evs') b -> R a b.
Proof.
  intros Hrefl Hstep Ha. revert b. induction evs' as [|[e v] evs' IH] using rev_ind; intros b Hb.
  - rewrite app_nil_r in Hb. by rewrite (trace_unique _ _ _ _ Ha Hb).
  - rewrite app_assoc in Hb. apply trace_snoc in Hb as (c & Hc & Hs).
    + eapply Hstep; [by apply IH|exact Hs].
    + intros [Hnil _]%app_nil. exact (trace_nonempty _ _ _ Ha Hnil).
Qed.
(** The record of a stream in a later history. *)
Lemma record_later (R : A -> A -> Prop) id (h g : history) a b :
  (forall a, R a a) -> (forall ty a b c, R a b -> ag_step ty b c -> R a c) ->
  record_trace id (stream_entries (record_stream id) h) a ->
  record_trace id (stream_entries (record_stream id) (h ++ g)) b -> R a b.
Proof. intros Hr Hs Ha Hb. rewrite stream_entries_app in Hb. by eapply trace_keeps. Qed.
Lemma records_later id (h g : history) a :
  records_ok (h ++ g) -> record_trace id (stream_entries (record_stream id) h) a ->
  exists b, record_trace id (stream_entries (record_stream id) (h ++ g)) b.
Proof.
  intros Hok Ha. destruct (Hok id) as [He|[b Hb]]; [|by exists b].
  rewrite stream_entries_app in He. apply app_nil in He as [He _]. by apply trace_nonempty in Ha.
Qed.
End Time.

(** ** Reading a record *)

Section Reading.
Context `{!AggregateOk A} {J} `{EventJournalOk J}.
Context (j : J) (h : history) (Hh : holds j h) (Hmax : (count h + 1 < u64_max)%N).

Abbreviation revs id := (stream_entries (record_stream id) h).

Lemma trace_decrypt id e v : last (revs id) = Some (e, v) -> ej_decrypt_payload e j = (Ok v, j).
Proof.
  intros Hl%last_Some_elem_of. apply filter_elem in Hl as [Hin _]. by eapply ej_decrypt_payload_ok.
Qed.

Lemma record_with_version_ok id a :
  record_trace id (revs id) a ->
  record_with_version (record_stream id) ag_created j = (Ok (Some (a, count (revs id))), j).
Proof.
  intros Ht. destruct (trace_first _ _ _ Ht) as (e & v & a0 & rest & Hevs & He & _).
  destruct (trace_last _ _ _ Ht) as (e' & v' & Hl & Hg & _ & Hfit).
  unfold record_with_version. rewrite (op_bind_run _ _ _ _ _ (ej_read_stream_ok j h _ Hh Hmax)).
  rewrite fmap_last, Hl, Hevs. cbn [head fmap option_fmap option_map fst list_fmap].
  rewrite op_bind_lift, He, String.eqb_refl. cbn [negb reject].
  rewrite (op_bind_run _ _ _ _ _ (trace_decrypt id e' v' Hl)), op_lift_run, Hg.
  cbn [ok_or mbind result_bind]. rewrite (record_roundtrip a Hfit). cbn [map_err mbind result_bind].
  unfold count. cbn [length]. by rewrite length_fmap.
Qed.
Lemma record_with_version_none id :
  revs id = [] -> record_with_version (A:=A) (record_stream id) ag_created j = (Ok None, j).
Proof.
  intros He. unfold record_with_version.
  rewrite (op_bind_run _ _ _ _ _ (ej_read_stream_ok j h _ Hh Hmax)). by rewrite He.
Qed.
Lemma record_ok id a :
  record_trace id (revs id) a -> Work.record (record_stream id) ag_created j = (Ok (Some a), j).
Proof.
  intros Ht. unfold Work.record. by rewrite (op_bind_run _ _ _ _ _ (record_with_version_ok id a Ht)).
Qed.
Lemma record_none id :
  revs id = [] -> Work.record (A:=A) (record_stream id) ag_created j = (Ok None, j).
Proof.
  intros He. unfold Work.record. by rewrite (op_bind_run _ _ _ _ _ (record_with_version_none id He)).
Qed.
End Reading.
End Aggregates.
Arguments record_stream A {_ _ _} id.
Arguments records_ok A {_ _ _} h.
Arguments record_batch A {_ _ _} h batch.
Arguments off_records A {_ _ _} event.
