(* ===== verification/WorkModel.v ===== *)
(** * What a work item may become

    The five kinds of work items as transition systems ([Aggregate]): what a creation
    holds, and which step each event takes.  [work_batch] is what a writer may append.

    The events of a key decision say less than the repository's checks: they are made on
    one reading and the version comes from another, so a step starts from whatever the
    record is by then.  What every step keeps is the decision's origin.  And a plan's session
    is kept by every step but the one that consumes it into a goal, which does not compare
    it. *)

From S2P Require Import Prelude Json Contracts Boundary Platform JournalStore Journal Store.
From S2P Require Import JournalModel JournalAppend StoreSpec Session StoreCorrect WorkContracts Work Aggregates.

Open Scope string_scope.

(** ** Tasks *)

Definition task_step (event_type : string) (a b : TaskRecord) : Prop :=
  event_type = TASK_UPDATED /\ validate_task b = Ok tt /\
  tk_session_id b = tk_session_id a /\ tk_created_at b = tk_created_at a.
#[export] Instance task_aggregate `{RecordCodec TaskRecord} : Aggregate TaskRecord := {|
  ag_prefix := "task:";
  ag_created := TASK_CREATED;
  ag_fit _ := True;
  ag_init _ a := validate_task a = Ok tt;
  ag_step := task_step;
|}.

(** ** Key decisions *)

(** Where a decision comes from. *)
Definition decision_origin (d : KeyDecision) : string * string * DecisionSource * option string :=
  (kd_session_id d, kd_created_at d, kd_source d, kd_supersedes d).
Definition decision_step (event_type : string) (a b : KeyDecision) : Prop :=
  decision_origin b = decision_origin a /\
  ((event_type = DECISION_UPDATED /\ kd_status b = DS_Active /\ validate_key_decision b = Ok tt) \/
   (event_type = DECISION_ARCHIVED /\ kd_status b = DS_Archived) \/
   (event_type = DECISION_SUPERSEDED /\ kd_status b = DS_Superseded)).
#[export] Instance decision_aggregate `{RecordCodec KeyDecision} : Aggregate KeyDecision := {|
  ag_prefix := "decision:";
  ag_created := DECISION_CREATED;
  ag_fit _ := True;
  ag_init _ a := validate_key_decision a = Ok tt /\ kd_status a = DS_Active;
  ag_step := decision_step;
|}.

(** ** Plans *)

Definition plan_fit (p : PlanRecord) : Prop :=
  (pn_revision p <= u64_max)%N /\ Forall (fun s => ps_index s <= u32_max)%N (pn_steps p).
(** The approval a step gives, keeps or must not have. *)
Definition approval_kept (a b : PlanRecord) : Prop :=
  match pn_status b with
  | PS_Draft => pn_approved_at b = None
  | PS_Approved => pn_approved_at b <> None
  | PS_Executed => pn_approved_at b = pn_approved_at a
  | PS_Discarded => pn_approved_at b = if bool_decide (pn_status a = PS_Draft) then None else pn_approved_at a
  end.
Definition plan_step (event_type : string) (a b : PlanRecord) : Prop :=
  plan_transition (pn_status a) (pn_status b) = Ok event_type /\ validate_plan b = Ok tt /\
  pn_revision b = (pn_revision a + 1)%N /\
  (pn_session_id b = pn_session_id a \/ event_type = PLAN_EXECUTED) /\
  pn_created_at b = pn_created_at a /\ pn_prompt b = pn_prompt a /\ approval_kept a b /\
  (pn_status b = PS_Draft \/ (pn_content b = pn_content a /\ pn_steps b = pn_steps a)).
#[export] Instance plan_aggregate `{RecordCodec PlanRecord} : Aggregate PlanRecord := {|
  ag_prefix := "plan:";
  ag_created := PLAN_CREATED;
  ag_fit := plan_fit;
  ag_init _ a := validate_plan a = Ok tt /\ pn_status a = PS_Draft /\ pn_revision a = 1%N;
  ag_step := plan_step;
|}.

(** ** Goals *)

Definition u16_limit : N := 65535.
Definition goal_fit (g : GoalRecord) : Prop :=
  (gl_iteration_budget g <= u16_limit)%N /\ (gl_iterations_completed g <= u16_limit)%N.
Definition goal_step (event_type : string) (a b : GoalRecord) : Prop :=
  event_type = GOAL_UPDATED /\ validate_goal b = Ok tt /\
  gl_session_id b = gl_session_id a /\ gl_objective b = gl_objective a /\
  gl_source_plan_id b = gl_source_plan_id a /\ gl_iteration_budget b = gl_iteration_budget a /\
  gl_created_at b = gl_created_at a /\
  ((gl_iterations_completed b = gl_iterations_completed a /\ gl_status a = GS_Active) \/
   (gl_status b = gl_status a /\ gl_summary b = gl_summary a /\
    gl_blocked_reason b = gl_blocked_reason a /\
    (gl_iterations_completed b = gl_iterations_completed a \/
     (gl_iterations_completed b = gl_iterations_completed a + 1)%N))).
#[export] Instance goal_aggregate `{RecordCodec GoalRecord} : Aggregate GoalRecord := {|
  ag_prefix := "goal:";
  ag_created := GOAL_CREATED;
  ag_fit := goal_fit;
  ag_init _ a := validate_goal a = Ok tt /\ gl_status a = GS_Active /\ gl_iterations_completed a = 0%N;
  ag_step := goal_step;
|}.

(** ** Child-agent jobs *)

(** Where a job comes from and what it may do. *)
Definition job_origin (j : SubagentJob)
    : string * string * string * string * string * option (list string) * string * string :=
  (sj_session_id j, sj_parent_run_id j, sj_parent_call_id j, sj_task j, sj_role j,
   sj_allowed_tools j, sj_child_session_id j, sj_created_at j).
Definition subagent_step (event_type : string) (a b : SubagentJob) : Prop :=
  event_type = SUBAGENT_UPDATED /\ validate_subagent b = Ok tt /\
  subagent_transition_valid (sj_status a) (sj_status b) = true /\ job_origin b = job_origin a.
(** The snapshot a creation names: none, or a SHA-256 in hexadecimal. *)
Definition snapshot_of (v : value) (reference : option string) : Prop :=
  get "instruction_snapshot_id" v = Some (match reference with Some id => Str id | None => Null end) /\
  is_none_or reference (fun id => negb (invalid_snapshot_id id)) = true.
#[export] Instance subagent_aggregate `{RecordCodec SubagentJob} : Aggregate SubagentJob := {|
  ag_prefix := "subagent:";
  ag_created := SUBAGENT_CREATED;
  ag_fit _ := True;
  ag_init v a := validate_subagent a = Ok tt /\ sj_status a = SJ_Queued /\
    exists reference, snapshot_of v reference;
  ag_step := subagent_step;
|}.

(** ** All of them *)

Class WorkCodecsOk `{RecordCodec TaskRecord, RecordCodec KeyDecision, RecordCodec PlanRecord,
    RecordCodec GoalRecord, RecordCodec SubagentJob} : Prop := {
  #[global] wc_task :: AggregateOk TaskRecord;
  #[global] wc_decision :: AggregateOk KeyDecision;
  #[global] wc_plan :: AggregateOk PlanRecord;
  #[global] wc_goal :: AggregateOk GoalRecord;
  #[global] wc_subagent :: AggregateOk SubagentJob;
}.

Section All.
Context `{RecordCodec TaskRecord, RecordCodec KeyDecision, RecordCodec PlanRecord,
  RecordCodec GoalRecord, RecordCodec SubagentJob}.

Definition work_ok (h : history) : Prop :=
  records_ok TaskRecord h /\ records_ok KeyDecision h /\ records_ok PlanRecord h /\
  records_ok GoalRecord h /\ records_ok SubagentJob h.
Definition work_batch (h : history) (batch : list NewEvent) : Prop :=
  record_batch TaskRecord h batch /\ record_batch KeyDecision h batch /\
  record_batch PlanRecord h batch /\ record_batch GoalRecord h batch /\
  record_batch SubagentJob h batch.
(** An event that other components write. *)
Definition off_work (event : NewEvent) : Prop :=
  off_records TaskRecord event /\ off_records KeyDecision event /\ off_records PlanRecord event /\
  off_records GoalRecord event /\ off_records SubagentJob event.

Lemma work_batch_ok inputs (h g : history) batch es :
  chain h.*1 -> (count h < u64_max)%N -> work_batch h batch -> work_ok (h ++ g) ->
  batch_committed (h ++ g) inputs batch es -> work_ok ((h ++ g) ++ entries batch es).
Proof.
  intros _ _ (Ht & Hd & Hp & Hg & Hs) (Ht' & Hd' & Hp' & Hg' & Hs') Hb.
  split_and!; by eapply record_batch_ok.
Qed.
Lemma work_ok_nil : work_ok [].
Proof. split_and!; intros id; by left. Qed.
End All.

(** A batch is off the streams of a kind when the names of its streams say so. *)
Ltac off_records_tac :=
  repeat first [apply Forall_nil_2 | apply Forall_cons; split; [reflexivity|]].
