(* ===== verification/WorkTest.v ===== *)
(** * A concrete codec for work items

    Serialisers of the five records that satisfy [WorkCodecsOk], and items to run the
    repository on: the instances of the witnesses. *)

From S2P Require Import Prelude Json Contracts Boundary Platform JournalStore Journal Store.
From S2P Require Import JournalModel JournalAppend JournalTest StoreSpec SessionContracts ProjectionHandlers Session SessionTest.
From S2P Require Import WorkContracts Work Aggregates WorkModel.

Open Scope string_scope.

Definition opt_value (o : option string) : value := match o with Some s => Str s | None => Null end.
Definition opt_list (o : option (list string)) : value :=
  match o with Some l => Array (map Str l) | None => Null end.
Definition of_opt_list (v : value) : option (list string) :=
  match v with Array _ => of_array of_json_str v | _ => None end.
Lemma of_opt_value o : of_json_str (opt_value o) = o.
Proof. by destruct o. Qed.
Lemma of_opt_list_value o : of_opt_list (opt_list o) = o.
Proof. destruct o as [l|]; [|done]. by apply (of_array_map of_json_str Str). Qed.

(** Variants by their position. *)
Definition variant {A} `{EqDecision A} (all : list A) (a : A) : value :=
  match list_find (fun b => a = b) all with Some (i, _) => json_n (N.of_nat i) | None => Null end.
Definition of_variant {A} (all : list A) (d : A) (v : value) : A :=
  match v with Number (PosInt n) => default d (all !! N.to_nat n) | _ => d end.
Lemma of_variant_ok {A} `{EqDecision A} (all : list A) d a :
  a ∈ all -> of_variant all d (variant all a) = a.
Proof.
  intros Hin. unfold variant. destruct (list_find (fun b => a = b) all) as [[i b]|] eqn:Hf.
  - apply list_find_Some in Hf as (Hl & -> & _). cbn. by rewrite Nat2N.id, Hl.
  - apply list_find_None in Hf. rewrite Forall_forall in Hf. by destruct (Hf a Hin).
Qed.
Definition task_statuses : list TaskStatus :=
  [TS_Pending; TS_InProgress; TS_Completed; TS_Blocked; TS_Cancelled].
Definition sources : list DecisionSource := [DSrc_User; DSrc_Agent].
Definition decision_statuses : list DecisionStatus := [DS_Active; DS_Archived; DS_Superseded].
Definition priorities : list DecisionPriority := [DP_Critical; DP_High; DP_Normal].
Definition plan_statuses : list PlanStatus := [PS_Draft; PS_Approved; PS_Executed; PS_Discarded].
Definition goal_statuses : list GoalStatus := [GS_Active; GS_Complete; GS_Blocked].
Definition job_statuses : list SubagentStatus :=
  [SJ_Queued; SJ_Running; SJ_Completed; SJ_Failed; SJ_Cancelled; SJ_Interrupted].
Ltac listed := repeat first [left | right].

#[export] Instance test_task_codec : RecordCodec TaskRecord := {
  record_to_value t :=
    Array [Str (tk_id t); Str (tk_session_id t); Str (tk_title t); Str (tk_description t);
           variant task_statuses (tk_status t); Str (tk_created_at t); Str (tk_updated_at t)];
  record_from_value v :=
    match v with
    | Array [Str i; Str s; Str t; Str d; p; Str c; Str u] =>
        Ok (mkTaskRecord i s t d (of_variant task_statuses TS_Pending p) c u)
    | _ => Err "expected a task"
    end;
}.
#[export] Instance test_decision_codec : RecordCodec KeyDecision := {
  record_to_value d :=
    Array [Str (kd_id d); Str (kd_session_id d); opt_value (kd_goal_id d); opt_value (kd_plan_id d);
           variant sources (kd_source d); variant decision_statuses (kd_status d);
           variant priorities (kd_priority d); Str (kd_title d); Str (kd_decision d);
           Str (kd_intent d); Str (kd_applies_when d); Str (kd_rationale d);
           Str (kd_source_excerpt d); opt_value (kd_supersedes d); Str (kd_created_at d);
           Str (kd_updated_at d)];
  record_from_value v :=
    match v with
    | Array [Str i; Str s; g; p; o; st; pr; Str t; Str d; Str n; Str w; Str r; Str x; su; Str c; Str u] =>
        Ok (mkKeyDecision i s (of_json_str g) (of_json_str p) (of_variant sources DSrc_User o)
              (of_variant decision_statuses DS_Active st) (of_variant priorities DP_Normal pr)
              t d n w r x (of_json_str su) c u)
    | _ => Err "expected a decision"
    end;
}.
Definition step_value (s : PlanStep) : value :=
  Array [json_n (ps_index s); Str (ps_title s); Str (ps_detail s); Bool (ps_requires_mutation s)].
Definition of_step (v : value) : option PlanStep :=
  match v with
  | Array [Number (PosInt i); Str t; Str d; Bool m] => Some (mkPlanStep i t d m)
  | _ => None
  end.
#[export] Instance test_plan_codec : RecordCodec PlanRecord := {
  record_to_value p :=
    Array [Str (pn_id p); Str (pn_session_id p); Str (pn_prompt p);
           variant plan_statuses (pn_status p); json_n (pn_revision p); Str (pn_content p);
           Array (map step_value (pn_steps p)); Str (pn_created_at p); Str (pn_updated_at p);
           opt_value (pn_approved_at p); opt_value (pn_executed_run_id p)];
  record_from_value v :=
    match v with
    | Array [Str i; Str s; Str q; st; Number (PosInt r); Str c; steps; Str ct; Str u; a; x] =>
        match of_array of_step steps with
        | Some steps => Ok (mkPlanRecord i s q (of_variant plan_statuses PS_Draft st) r c steps ct u
                              (of_json_str a) (of_json_str x))
        | None => Err "expected steps"
        end
    | _ => Err "expected a plan"
    end;
}.
#[export] Instance test_goal_codec : RecordCodec GoalRecord := {
  record_to_value g :=
    Array [Str (gl_id g); Str (gl_session_id g); Str (gl_objective g); opt_value (gl_source_plan_id g);
           variant goal_statuses (gl_status g); Str (gl_summary g); Str (gl_blocked_reason g);
           json_n (gl_iteration_budget g); json_n (gl_iterations_completed g);
           Str (gl_created_at g); Str (gl_updated_at g)];
  record_from_value v :=
    match v with
    | Array [Str i; Str s; Str o; p; st; Str m; Str b; Number (PosInt n); Number (PosInt k); Str c; Str u] =>
        Ok (mkGoalRecord i s o (of_json_str p) (of_variant goal_statuses GS_Active st) m b n k c u)
    | _ => Err "expected a goal"
    end;
}.
#[export] Instance test_subagent_codec : RecordCodec SubagentJob := {
  record_to_value j :=
    Array [Str (sj_id j); Str (sj_session_id j); Str (sj_parent_run_id j); Str (sj_parent_call_id j);
           Str (sj_task j); Str (sj_role j); opt_list (sj_allowed_tools j);
           variant job_statuses (sj_status j); Str (sj_child_session_id j);
           opt_value (sj_child_run_id j); Str (sj_final_output j); Str (sj_error j);
           Str (sj_created_at j); Str (sj_updated_at j); opt_value (sj_started_at j);
           opt_value (sj_completed_at j)];
  record_from_value v :=
    match v with
    | Array [Str i; Str s; Str r; Str pc; Str t; Str ro; tools; st; Str cs; cr; Str f; Str e; Str c; Str u; sa; ca] =>
        Ok (mkSubagentJob i s r pc t ro (of_opt_list tools) (of_variant job_statuses SJ_Queued st) cs
              (of_json_str cr) f e c u (of_json_str sa) (of_json_str ca))
    | _ => Err "expected a job"
    end;
}.

(** ** Their laws *)

Lemma variant_storable {A} `{EqDecision A} (all : list A) a :
  json_depth (variant all a) = 0 /\ ((count all <= u64_max)%N -> exact_json (variant all a) = true).
Proof.
  unfold variant. destruct (list_find (fun b => a = b) all) as [[i b]|] eqn:Hf; [|done].
  apply list_find_Some in Hf as (Hl%lookup_lt_Some & _ & _). split; [done|]. intros Hc.
  apply N.leb_le. unfold count in Hc. lia.
Qed.
Lemma opt_storable o : json_depth (opt_value o) = 0 /\ exact_json (opt_value o) = true.
Proof. by destruct o. Qed.
Lemma opt_list_storable o : json_depth (opt_list o) <= 2 /\ exact_json (opt_list o) = true.
Proof. destruct o as [l|]; [apply (strings_storable l)|split; [simpl; lia|done]]. Qed.
Lemma steps_storable l :
  Forall (fun s => ps_index s <= u32_max)%N l ->
  json_depth (Array (map step_value l)) <= 2 /\ exact_json (Array (map step_value l)) = true.
Proof.
  intros Hf. cbn. split.
  - apply le_n_S. clear Hf. induction l as [|s l IH]; [simpl; lia|]. simpl. lia.
  - induction Hf as [|s l Hs _ IH]; [done|]. cbn. rewrite IH.
    rewrite (proj2 (N.leb_le _ _)) by (unfold u64_max, u32_max in *; lia). done.
Qed.

(** An array of storable values is storable one level deeper. *)
Lemma array_storable d l :
  Forall (fun v => json_depth v <= d /\ exact_json v = true) l ->
  json_depth (Array l) <= S d /\ exact_json (Array l) = true.
Proof.
  intros Hf. cbn [json_depth exact_json]. split.
  - apply le_n_S. induction Hf as [|v l [Hd _] _ IH]; [simpl; lia|]. simpl. lia.
  - induction Hf as [|v l [_ Hx] _ IH]; [done|]. simpl. by rewrite Hx.
Qed.
Ltac fields_storable :=
  repeat (apply Forall_cons; split; [|]); [..|apply Forall_nil_2];
  first [ split; [cbn; lia|reflexivity]
        | match goal with |- context [variant ?all ?a] =>
            destruct (variant_storable all a) as [-> Hx]; split; [lia|by apply Hx] end
        | match goal with |- context [opt_value ?o] =>
            destruct (opt_storable o) as [-> ->]; split; [lia|done] end
        | idtac ].

Lemma shallow {A} `{RecordCodec A} (a : A) :
  json_depth (record_to_value a) <= 3 /\ exact_json (record_to_value a) = true ->
  json_depth (record_to_value a) < MAX_PARSED_DEPTH /\ exact_json (record_to_value a) = true.
Proof. unfold MAX_PARSED_DEPTH. intros [? ?]. split; [lia|done]. Qed.

#[export] Instance test_task_ok : AggregateOk TaskRecord.
Proof.
  constructor.
  - intros [i s t d st c u] _. cbn -[variant of_variant]. by rewrite of_variant_ok by (destruct st; listed).
  - intros a _. apply shallow, array_storable. fields_storable.
Qed.
#[export] Instance test_decision_ok : AggregateOk KeyDecision.
Proof.
  constructor.
  - intros [i s g p so st pr t d n w r x su c u] _. cbn -[variant of_variant of_json_str opt_value].
    rewrite !of_opt_value, !of_variant_ok by ((destruct so + destruct st + destruct pr); listed). done.
  - intros a _. apply shallow, array_storable. fields_storable.
Qed.
#[export] Instance test_plan_ok : AggregateOk PlanRecord.
Proof.
  constructor.
  - intros [i s q st r c steps ct u a x] _. cbn -[variant of_variant of_json_str opt_value of_array].
    rewrite (of_array_map of_step step_value) by (by intros []).
    by rewrite !of_opt_value, of_variant_ok by (destruct st; listed).
  - intros a [Hr Hs]. apply shallow, array_storable. fields_storable.
    + split; [cbn; lia|]. apply N.leb_le, Hr.
    + by apply steps_storable.
Qed.
#[export] Instance test_goal_ok : AggregateOk GoalRecord.
Proof.
  constructor.
  - intros [i s o p st m b n k c u] _. cbn -[variant of_variant of_json_str opt_value].
    by rewrite !of_opt_value, of_variant_ok by (destruct st; listed).
  - intros a [Hb Hk]. apply shallow, array_storable. fields_storable;
      (split; [cbn; lia|apply N.leb_le; unfold u16_limit, u64_max in *; lia]).
Qed.
#[export] Instance test_subagent_ok : AggregateOk SubagentJob.
Proof.
  constructor.
  - intros [i s r pc t ro tools st cs cr f e c u sa ca] _.
    cbn -[variant of_variant of_json_str opt_value opt_list of_opt_list].
    by rewrite !of_opt_value, of_opt_list_value, of_variant_ok by (destruct st; listed).
  - intros a _. apply shallow, array_storable. fields_storable. by apply opt_list_storable.
Qed.
#[export] Instance test_work_codecs_ok : WorkCodecsOk.
Proof. constructor; apply _. Qed.

(** ** Items *)

Definition test_task : TaskRecord :=
  mkTaskRecord "task-1" "s1" "Write it" "" TS_Pending "2024-01-01" "2024-01-01".
Definition test_decision : KeyDecision :=
  mkKeyDecision "kd_1" "s1" None None DSrc_User DS_Active DP_High "Use Rocq" "Prove it" "" "" "" "" None
    "2024-01-01" "2024-01-01".
Definition test_step : PlanStep := mkPlanStep 1 "First" "" false.
Definition test_plan (status : PlanStatus) (revision : N) (approved run : option string) : PlanRecord :=
  mkPlanRecord "plan-1" "s1" "Do it" status revision "content" [test_step] "2024-01-01" "2024-01-01"
    approved run.
Definition test_goal (iterations : N) : GoalRecord :=
  mkGoalRecord "goal-1" "s1" "Do it" (Some "plan-1") GS_Active "" "" 3 iterations "2024-01-01" "2024-01-01".
Definition test_job (status : SubagentStatus) (started completed run : option string) : SubagentJob :=
  mkSubagentJob "agent-1" "s1" "run-1" "call-1" "Look" "worker" (Some ["shell"]) status "s2" run "" ""
    "2024-01-01" "2024-01-01" started completed.
