(* ===== verification/WorkOps.v ===== *)
(** * The work repository, operation by operation

    Each operation of [Work] on a journal whose work items are well formed: it fails with
    the journal as it was, or commits one batch whose events are writes of the records'
    transition systems. *)

From S2P Require Import Prelude Json Contracts Boundary Platform JournalStore Journal Store.
From S2P Require Import JournalModel JournalAppend StoreSpec StoreCorrect SessionContracts Session Interleaving.
From S2P Require Import WorkContracts Work Aggregates WorkModel.

Open Scope string_scope.
Open Scope op_scope.

(** ** Booleans of the checks *)

Lemma reject_negb {E} (b : bool) (e : E) : reject (negb b) e = Ok tt <-> b = true.
Proof. destruct b; split; done. Qed.
Lemma reject_orb {E} (a b : bool) (e : E) : reject (a || b) e = Ok tt <-> a = false /\ b = false.
Proof. destruct a, b; split; naive_solver. Qed.
(** The facts of a passed check. *)
Ltac passed H :=
  repeat match type of H with
  | reject _ _ = Ok tt => apply reject_Ok in H
  | negb _ = false => apply negb_false_iff in H
  | (_ || _) = false => let H' := fresh H in apply orb_false_iff in H as [H H']; passed H'
  | (_ && _) = true => let H' := fresh H in apply andb_true_iff in H as [H H']; passed H'
  | String.eqb _ _ = true => apply String.eqb_eq in H
  | N.eqb _ _ = true => apply N.eqb_eq in H
  | bool_decide _ = true => apply bool_decide_eq_true in H
  | N.ltb _ _ = true => apply N.ltb_lt in H
  end.

(** ** Appending *)

Section Append.
Context {J} `{EventJournalOk J} (j : J) (inputs : Inputs).

(** [x] is the answer [a] after the batch is appended. *)
Definition commits {A} (batch : list NewEvent) (a : A) (x : result StoreError A * J) : Prop :=
  let '(r, j') := ej_append_batch inputs batch j in
  x = (match r with Ok _ => Ok a | Err e => Err e end, j').
Lemma commits_journal {A} batch (a : A) x : commits batch a x -> x.2 = (ej_append_batch inputs batch j).2.
Proof. unfold commits. destruct (ej_append_batch inputs batch j) as [[es|e] j'] => ->; done. Qed.
Lemma append_commits {A} h event (a : A) :
  holds j h -> recordable event -> inputs_ok inputs -> (count h + 2 < u64_max)%N ->
  commits [event] a ((_ <~ ej_append inputs event;; op_ret a) j).
Proof.
  intros Hh Hr Hi Hle. unfold commits. rewrite append_one.
  pose proof (one_event j h Hh inputs event Hr Hi Hle) as Hone.
  destruct (ej_append_batch inputs [event] j) as [[es|e] j']; [|done].
  by destruct (Hone es eq_refl) as [e ->].
Qed.
Lemma batch_commits {A} batch (a : A) :
  commits batch a ((_ <~ ej_append_batch inputs batch;; op_ret a) j).
Proof. unfold commits, op_bind. by destruct (ej_append_batch inputs batch j) as [[es|e] j']. Qed.
End Append.

(** ** Writes of one record *)

Section Write.
Context {A} `{AggregateOk A}.

Lemma storable_record a (v : value) fields :
  ag_fit a -> v = Object fields ->
  Forall (fun kv : string * value => kv.2 = record_to_value a \/ (json_depth kv.2 = 0 /\ exact_json kv.2 = true)) fields ->
  ascending_keys fields.*1 = true -> parseable v /\ exact_json v = true.
Proof.
  intros Hfit -> Hf Hk. destruct (record_storable a Hfit) as [Hd Hx]. split.
  - unfold parseable. simpl. assert (foldr (fun kv d => Nat.max (json_depth kv.2) d) 0 fields
      <= json_depth (record_to_value a)) as Hle; [|lia].
    clear Hk. induction Hf as [|[k u] fields Hu _ IH]; simpl in *; [lia|].
    destruct Hu as [->|[-> _]]; lia.
  - simpl. rewrite Hk. simpl. apply forallb_forall. intros kv Hin.
    rewrite Forall_forall in Hf. destruct (Hf kv) as [->|[_ Hu]]; [by apply list_elem_of_In|done|done].
Qed.
Lemma payload_recordable stream version ty actor session a :
  ag_fit a -> recordable (work_event stream version ty actor session (record_payload a)).
Proof.
  intros Hfit. eapply (storable_record a); [done|reflexivity| |reflexivity].
  apply Forall_singleton. by left.
Qed.

Lemma create_write h a actor session v :
  get "record" v = Some (record_to_value a) -> ag_fit a -> ag_init v a ->
  record_write h (work_event (record_stream A (wr_id a)) 0 ag_created actor session v) (wr_id a) a.
Proof. intros Hg Hf Hi. split_and!; try done. by left. Qed.
Lemma step_write h id a b ty actor session v :
  record_trace id (stream_entries (record_stream A id) h) a ->
  get "record" v = Some (record_to_value b) -> wr_id b = id -> ag_fit b -> ag_step ty a b ->
  record_write h (work_event (record_stream A id) (count (stream_entries (record_stream A id) h)) ty
    actor session v) id b.
Proof. intros Ht Hg Hid Hf Hs. split_and!; try done. right. by exists a. Qed.

(** What a stream of a well-formed history holds. *)
Context {J} `{EventJournalOk J} (j : J) (h : history) (Hh : holds j h) (Hmax : (count h + 1 < u64_max)%N).
Lemma current_cases id :
  records_ok A h ->
  (record_with_version (A:=A) (record_stream A id) ag_created j = (Ok None, j) /\
   Work.record (A:=A) (record_stream A id) ag_created j = (Ok None, j) /\
   stream_entries (record_stream A id) h = []) \/
  exists a, record_trace id (stream_entries (record_stream A id) h) a /\ wr_id a = id /\ ag_fit a /\
    record_with_version (record_stream A id) ag_created j
      = (Ok (Some (a, count (stream_entries (record_stream A id) h))), j) /\
    Work.record (record_stream A id) ag_created j = (Ok (Some a), j).
Proof.
  intros Hok. destruct (Hok id) as [He|[a Ht]].
  - left. split_and!; [by apply (record_with_version_none j h)|by apply (record_none j h)|done].
  - right. exists a. destruct (trace_last _ _ _ Ht) as (e & v & _ & _ & Hid & Hfit).
    split_and!; [done|done|done|by apply (record_with_version_ok j h)|by apply (record_ok j h)].
Qed.
End Write.

(** ** The operations *)

Section Ops.
Context `{WorkCodecsOk} {J} `{EventJournalOk J}.
Context (j : J) (h : history) (Hh : holds j h) (Hok : work_ok h).
Context (inputs : Inputs) (Hi : inputs_ok inputs) (Hle : (count h + 2 < u64_max)%N).

#[local] Lemma Hmax : (count h + 1 < u64_max)%N.
Proof. lia. Qed.

(** The operation fails and changes nothing, or commits one write. *)
Definition one_write {A} `{Aggregate A} {R} (id : string) (b : A) (r : R)
    (x : result StoreError R * J) : Prop :=
  (exists e, x = (Err e, j)) \/
  exists event, record_write h event id b /\ recordable event /\ commits j inputs [event] r x.

(** The two ways an operation reads the record it works on. *)
Ltac current_record Hx A id a Ht Hid Hfit :=
  let Hc := fresh in let Hc' := fresh in
  destruct (current_cases (A:=A) j h Hh Hmax id ltac:(apply Hok))
    as [(Hc & Hc' & _)|(a & Ht & Hid & Hfit & Hc & Hc')];
  [(rewrite (op_bind_run _ _ _ _ _ Hc) in Hx || rewrite (op_bind_run _ _ _ _ _ Hc') in Hx);
   rewrite op_bind_lift in Hx; left; eexists; exact Hx
  |(rewrite (op_bind_run _ _ _ _ _ Hc) in Hx || rewrite (op_bind_run _ _ _ _ _ Hc') in Hx);
   rewrite op_bind_lift in Hx; cbn [ok_or fst snd] in Hx; clear Hc Hc'].

Lemma commit_create {A} `{AggregateOk A} (a : A) actor session :
  ag_fit a -> ag_init (record_payload a) a ->
  one_write (wr_id a) a a ((_ <~ ej_append inputs (work_event (record_stream A (wr_id a)) 0 ag_created
    actor session (record_payload a));; op_ret a) j).
Proof.
  intros Hf Hinit. right. eexists (work_event _ _ _ actor session (record_payload a)).
  split; [apply create_write; [reflexivity|done|done]|].
  split; [by apply payload_recordable|]. eapply append_commits; try done. by apply payload_recordable.
Qed.
Lemma step_commits {A} `{AggregateOk A} id (a b : A) ty actor session :
  record_trace id (stream_entries (record_stream A id) h) a -> wr_id b = id -> ag_fit b ->
  ag_step ty a b ->
  exists event, record_write h event id b /\ recordable event /\
    commits j inputs [event] b ((_ <~ ej_append inputs (work_event (record_stream A id)
      (count (stream_entries (record_stream A id) h)) ty actor session (record_payload b));; op_ret b) j).
Proof.
  intros Ht Hid Hf Hs. eexists (work_event _ _ _ actor session (record_payload b)).
  split; [eapply step_write; [done|reflexivity|done..]|].
  split; [by apply payload_recordable|]. eapply append_commits; try done. by apply payload_recordable.
Qed.
Lemma commit_step {A} `{AggregateOk A} id (a b : A) ty actor session :
  record_trace id (stream_entries (record_stream A id) h) a -> wr_id b = id -> ag_fit b ->
  ag_step ty a b ->
  one_write id b b ((_ <~ ej_append inputs (work_event (record_stream A id)
    (count (stream_entries (record_stream A id) h)) ty actor session (record_payload b));; op_ret b) j).
Proof. intros Ht Hid Hf Hs. right. by apply (step_commits id a b). Qed.

Lemma stream_length_ok s : stream_length s j = (Ok (count (stream_entries s h)), j).
Proof.
  unfold stream_length. rewrite (op_bind_run _ _ _ _ _ (ej_read_stream_ok j h _ Hh Hmax)).
  unfold op_ret, count. by rewrite length_fmap.
Qed.
Lemma append_next_cases {A} `{AggregateOk A} id (a b : A) ty actor :
  record_trace id (stream_entries (record_stream A id) h) a -> wr_id b = id -> ag_fit b ->
  ag_step ty a b ->
  one_write id b b (append_next inputs (record_stream A id) ty actor b j).
Proof.
  intros Ht Hid Hf Hs. unfold append_next. rewrite (op_bind_run _ _ _ _ _ (stream_length_ok _)).
  by apply (commit_step id a b).
Qed.

Lemma create_task_cases task actor :
  one_write (tk_id task) task task (create_task inputs task actor j).
Proof.
  remember (create_task inputs task actor j) as x eqn:Hx.
  unfold create_task in Hx. op_check Hx Hv. subst x.
  exact (commit_create task actor (tk_session_id task) I Hv).
Qed.

(** The checks of [update_task], on a state read before the version is. *)
Lemma check_task_cases task :
  (exists e, check_task_update task j = (Err e, j)) \/
  exists a, check_task_update task j = (Ok tt, j) /\ validate_task task = Ok tt /\
    record_trace (tk_id task) (stream_entries (task_stream (tk_id task)) h) a /\
    tk_session_id a = tk_session_id task /\ tk_created_at a = tk_created_at task.
Proof.
  remember (check_task_update task j) as x eqn:Hx. unfold check_task_update in Hx. op_check Hx Hv.
  current_record Hx TaskRecord (tk_id task) a Ht Hid Hfit.
  rewrite op_lift_run in Hx.
  destruct (negb (String.eqb (tk_session_id a) (tk_session_id task))
            || negb (String.eqb (tk_created_at a) (tk_created_at task))) eqn:Hp;
    [left; simpl in Hx; eauto|]. passed Hp. passed Hp0. right. by exists a.
Qed.
Lemma update_task_cases task actor :
  one_write (tk_id task) task task (update_task inputs task actor j).
Proof.
  unfold update_task. destruct (check_task_cases task) as [[e Hc]|(a & Hc & Hv & Ht & Hs & Hcr)].
  - left. exists e. unfold op_bind. by rewrite Hc.
  - rewrite (op_bind_run _ _ _ _ _ Hc).
    exact (append_next_cases (tk_id task) a task TASK_UPDATED actor Ht eq_refl I
      (conj eq_refl (conj Hv (conj (eq_sym Hs) (eq_sym Hcr))))).
Qed.

(** *** Key decisions *)

Lemma create_decision_cases decision actor :
  one_write (kd_id decision) decision decision (create_decision inputs decision actor j).
Proof.
  remember (create_decision inputs decision actor j) as x eqn:Hx.
  unfold create_decision in Hx. op_check Hx Hv. op_check Hx Ha. subst x. passed Ha.
  exact (commit_create decision actor (kd_session_id decision) I (conj Hv Ha)).
Qed.

Lemma check_decision_cases decision :
  (exists e, check_decision_update decision j = (Err e, j)) \/
  exists a, check_decision_update decision j = (Ok tt, j) /\ validate_key_decision decision = Ok tt /\
    record_trace (kd_id decision) (stream_entries (decision_stream (kd_id decision)) h) a /\
    kd_status a = DS_Active /\ kd_status decision = DS_Active /\
    decision_origin decision = decision_origin a.
Proof.
  remember (check_decision_update decision j) as x eqn:Hx. unfold check_decision_update in Hx.
  op_check Hx Hv. current_record Hx KeyDecision (kd_id decision) a Ht Hid Hfit.
  rewrite op_lift_run in Hx. destruct (reject _ _) as [[]|e] eqn:Hp in Hx; [|left; eauto].
  right. exists a. passed Hp. split_and!; try done. unfold decision_origin. congruence.
Qed.
Lemma update_decision_cases decision actor :
  one_write (kd_id decision) decision decision (update_decision inputs decision actor j).
Proof.
  unfold update_decision.
  destruct (check_decision_cases decision) as [[e Hc]|(a & Hc & Hv & Ht & Ha & Hd & Ho)].
  - left. exists e. unfold op_bind. by rewrite Hc.
  - rewrite (op_bind_run _ _ _ _ _ Hc).
    exact (append_next_cases (kd_id decision) a decision DECISION_UPDATED actor Ht eq_refl I
      (conj Ho (or_introl (conj eq_refl (conj Hd Hv))))).
Qed.

Lemma check_archive_cases now id :
  (exists e, check_archive now id j = (Err e, j)) \/
  exists a t, check_archive now id j = (Ok (with_decision_status DS_Archived t a), j) /\ now = Ok t /\
    record_trace id (stream_entries (decision_stream id) h) a /\ kd_id a = id /\ kd_status a = DS_Active.
Proof.
  remember (check_archive now id j) as x eqn:Hx. unfold check_archive in Hx.
  current_record Hx KeyDecision id a Ht Hid Hfit. op_check Hx Ha. passed Ha.
  rewrite op_bind_lift in Hx. destruct now as [t|e]; [right|left; eauto]. by exists a, t.
Qed.
Lemma archive_decision_cases now id actor :
  (exists e, archive_decision inputs now id actor j = (Err e, j)) \/
  exists d, one_write id d d (archive_decision inputs now id actor j).
Proof.
  unfold archive_decision. destruct (check_archive_cases now id) as [[e Hc]|(a & t & Hc & _ & Ht & Hid & Ha)].
  - left. exists e. unfold op_bind. by rewrite Hc.
  - right. rewrite (op_bind_run _ _ _ _ _ Hc). eexists.
    exact (append_next_cases id a (with_decision_status DS_Archived t a) DECISION_ARCHIVED actor Ht Hid I
      (conj eq_refl (or_intror (or_introl (conj eq_refl eq_refl))))).
Qed.

Lemma check_supersede_cases now id replacement :
  (exists e, check_supersede now id replacement j = (Err e, j)) \/
  exists a t, check_supersede now id replacement j = (Ok (with_decision_status DS_Superseded t a), j) /\
    record_trace id (stream_entries (decision_stream id) h) a /\ kd_id a = id /\
    validate_key_decision replacement = Ok tt /\ kd_status a = DS_Active /\
    kd_status replacement = DS_Active /\ kd_id replacement <> id /\
    kd_session_id replacement = kd_session_id a /\ kd_supersedes replacement = Some id /\
    stream_entries (decision_stream (kd_id replacement)) h = [].
Proof.
  remember (check_supersede now id replacement j) as x eqn:Hx. unfold check_supersede in Hx.
  current_record Hx KeyDecision id a Ht Hid Hfit. op_check Hx Hv. op_check Hx Hp. passed Hp.
  destruct (current_cases (A:=KeyDecision) j h Hh Hmax (kd_id replacement) ltac:(apply Hok))
    as [(_ & Hc & He)|(b & _ & _ & _ & _ & Hc)]; rewrite (op_bind_run _ _ _ _ _ Hc), op_bind_lift in Hx;
    [|left; eexists; exact Hx].
  cbn [is_some reject] in Hx. rewrite op_bind_lift in Hx. destruct now as [t|e]; [right|left; eexists; exact Hx].
  exists a, t. split_and!; try done. intros Heq. rewrite <- Hid in Heq. cbn in Heq.
  by apply String.eqb_neq in Hp2.
Qed.

Definition two_writes {A B} `{Aggregate A, Aggregate B} {R} (id : string) (a : A) (id' : string) (b : B)
    (r : R) (x : result StoreError R * J) : Prop :=
  exists event event', record_write h event id a /\ record_write h event' id' b /\
    recordable event /\ recordable event' /\ commits j inputs [event; event'] r x.

Lemma append_superseded_cases id (a b : KeyDecision) replacement t actor :
  record_trace id (stream_entries (decision_stream id) h) b -> kd_id a = id ->
  decision_origin a = decision_origin b -> validate_key_decision replacement = Ok tt ->
  kd_status replacement = DS_Active -> 
  two_writes id (with_decision_status DS_Superseded t a) (kd_id replacement) replacement
    (with_decision_status DS_Superseded t a, replacement)
    (append_superseded inputs id (with_decision_status DS_Superseded t a) replacement actor j).
Proof.
  intros Ht Hid Ho Hv Hr. unfold append_superseded. rewrite (op_bind_run _ _ _ _ _ (stream_length_ok _)).
  set (old := with_decision_status DS_Superseded t a).
  eexists (work_event _ _ DECISION_SUPERSEDED actor _ (Object [("record", _); ("replacement_id", _)])),
    (work_event _ _ DECISION_CREATED actor _ _).
  split_and!; [| | | |apply batch_commits].
  - exact (step_write h id b old DECISION_SUPERSEDED actor (kd_session_id old)
      (Object [("record", record_to_value old); ("replacement_id", Str (kd_id replacement))]) Ht eq_refl Hid I
      (conj Ho (or_intror (or_intror (conj eq_refl eq_refl))))).
  - exact (create_write h replacement actor (kd_session_id replacement) (record_payload replacement)
      eq_refl I (conj Hv Hr)).
  - eapply (storable_record old); [done|reflexivity| |reflexivity].
    repeat (apply Forall_cons; split; [by (left + right)|]). by apply Forall_nil_2.
  - by apply (payload_recordable (A:=KeyDecision)).
Qed.
Lemma supersede_decision_cases now id replacement actor :
  (exists e, supersede_decision inputs now id replacement actor j = (Err e, j)) \/
  exists old, kd_id replacement <> id /\
    two_writes id old (kd_id replacement) replacement (old, replacement)
      (supersede_decision inputs now id replacement actor j).
Proof.
  unfold supersede_decision.
  destruct (check_supersede_cases now id replacement)
    as [[e Hc]|(a & t & Hc & Ht & Hid & Hv & Ha & Hr & Hne & Hs & Hsup & He)].
  { left. exists e. unfold op_bind. by rewrite Hc. }
  right. rewrite (op_bind_run _ _ _ _ _ Hc). exists (with_decision_status DS_Superseded t a). split; [done|].
  by apply (append_superseded_cases id a a).
Qed.

(** *** Plans *)

Lemma create_plan_cases plan actor :
  plan_fit plan -> one_write (pn_id plan) plan plan (create_plan inputs plan actor j).
Proof.
  intros Hf. remember (create_plan inputs plan actor j) as x eqn:Hx.
  unfold create_plan in Hx. op_check Hx Hv. op_check Hx Ha. subst x. passed Ha.
  exact (commit_create plan actor (pn_session_id plan) Hf (conj Hv (conj Ha Ha0))).
Qed.

Lemma lifecycle_of p : validate_plan p = Ok tt -> plan_lifecycle_valid p = true.
Proof.
  intros Hv. unfold validate_plan in Hv. apply reject_Ok in Hv.
  apply orb_false_iff in Hv as [_ Hv]. by apply negb_false_iff in Hv.
Qed.
(** What the checks of [update_plan] let through is a step. *)
Lemma plan_update_step current plan ty next :
  validate_plan plan = Ok tt -> plan_fit plan -> plan_update current plan = Ok (ty, next) ->
  pn_id next = pn_id plan /\ plan_fit next /\ plan_step ty current next /\
  next = with_revision (pn_revision current + 1) plan.
Proof.
  intros Hv [_ Hsteps] Hu. unfold plan_update in Hu.
  apply bind_Ok in Hu as ([] & Hrev & Hu). apply bind_Ok in Hu as ([] & Him & Hu).
  apply bind_Ok in Hu as (t & Ht & Hu). apply bind_Ok in Hu as ([] & Hl & Hu).
  apply bind_Ok in Hu as ([] & Hc & Hu). apply bind_Ok in Hu as (n & Hn & [= <- <-]).
  unfold require_plan_revision in Hrev. passed Hrev. passed Him. passed Hl.
  unfold next_revision, checked_add in Hn. destruct (N.leb_spec (pn_revision plan + 1) u64_max) as [Hle'|]; [|done].
  injection Hn as <-. rewrite Hrev. split; [done|]. split; [by split|]. split; [|done].
  unfold plan_step. split_and!; try done; [by rewrite Hrev|by left| |].
  - unfold approval_kept, with_revision. unfold approval_lineage_valid in Hl. cbn.
    destruct (pn_status current) eqn:Hcs, (pn_status plan); cbn; try done;
      try (by apply bool_decide_eq_true in Hl); by destruct (pn_approved_at plan).
  - cbn. apply reject_Ok, andb_false_iff in Hc as [Hc|Hc]; passed Hc; [by left|right].
    by rewrite Hc, Hc0.
Qed.
Lemma update_plan_cases plan actor :
  plan_fit plan ->
  (exists e, update_plan inputs plan actor j = (Err e, j)) \/
  exists current ty next,
    record_trace (pn_id plan) (stream_entries (plan_stream (pn_id plan)) h) current /\
    plan_update current plan = Ok (ty, next) /\
    one_write (pn_id plan) next next (update_plan inputs plan actor j).
Proof.
  intros Hf. remember (update_plan inputs plan actor j) as x eqn:Hx.
  unfold update_plan in Hx. op_check Hx Hv. current_record Hx PlanRecord (pn_id plan) current Ht Hid Hfit.
  rewrite op_bind_lift in Hx. destruct (plan_update current plan) as [[ty next]|e] eqn:Hu; [|left; eauto].
  destruct (plan_update_step _ _ _ _ Hv Hf Hu) as (Hid' & Hf' & Hs & _).
  right. exists current, ty, next. split; [done|]. split; [done|]. subst x.
  exact (commit_step (pn_id plan) current next ty actor (pn_session_id next) Ht Hid' Hf' Hs).
Qed.

(** *** Goals *)

Lemma create_goal_cases goal actor :
  goal_fit goal -> one_write (gl_id goal) goal goal (create_goal inputs goal actor j).
Proof.
  intros Hf. remember (create_goal inputs goal actor j) as x eqn:Hx.
  unfold create_goal in Hx. op_check Hx Hv. op_check Hx Ha. subst x. passed Ha.
  exact (commit_create goal actor (gl_session_id goal) Hf (conj Hv (conj Ha Ha0))).
Qed.

Lemma update_goal_cases goal actor :
  goal_fit goal -> one_write (gl_id goal) goal goal (update_goal inputs goal actor j).
Proof.
  intros Hf. remember (update_goal inputs goal actor j) as x eqn:Hx.
  unfold update_goal in Hx. op_check Hx Hv. current_record Hx GoalRecord (gl_id goal) current Ht Hid Hfit.
  op_check Hx Hp. subst x. unfold goal_update_valid in Hp. passed Hp.
  apply (commit_step (gl_id goal) current goal GOAL_UPDATED actor (gl_session_id goal) Ht eq_refl Hf).
  split_and!; try done. apply orb_true_iff in Hp as [Hp|Hp]; passed Hp; [by left|right].
  split_and!; try done. by left.
Qed.

Lemma record_goal_iteration_cases goal expected actor :
  goal_fit goal ->
  (exists e, record_goal_iteration inputs goal expected actor j = (Err e, j)) \/
  exists current, record_trace (gl_id goal) (stream_entries (goal_stream (gl_id goal)) h) current /\
    gl_iterations_completed current = expected /\ (expected < gl_iteration_budget current)%N /\
    gl_iterations_completed goal = (expected + 1)%N /\
    one_write (gl_id goal) goal goal (record_goal_iteration inputs goal expected actor j).
Proof.
  intros Hf. remember (record_goal_iteration inputs goal expected actor j) as x eqn:Hx.
  unfold record_goal_iteration in Hx. op_check Hx Hv.
  current_record Hx GoalRecord (gl_id goal) current Ht Hid Hfit. op_check Hx He. passed He.
  rewrite op_bind_lift in Hx. unfold u16_checked_add in Hx.
  destruct (N.leb_spec (expected + 1) 65535) as [Hle'|]; [|left; eexists; exact Hx]. cbn [ok_or] in Hx.
  op_check Hx Hp. unfold goal_iteration_valid in Hp. passed Hp. right. exists current.
  split_and!; try done. subst x.
  apply (commit_step (gl_id goal) current goal GOAL_UPDATED actor (gl_session_id goal) Ht eq_refl Hf).
  split_and!; try done. right. split_and!; try done. right. congruence.
Qed.

(** Consuming a plan is a step of the plan and a creation of the goal. *)
Lemma goal_consumes_step goal current executed next :
  validate_plan executed = Ok tt -> plan_fit executed -> pn_revision current = pn_revision executed ->
  goal_consumes_plan goal current executed = true -> next_revision executed = Ok next ->
  gl_status goal = GS_Active /\ gl_iterations_completed goal = 0%N /\ pn_id next = pn_id current /\
  pn_executed_run_id next = Some (gl_id goal) /\ pn_session_id next = gl_session_id goal /\
  plan_fit next /\ plan_step PLAN_EXECUTED current next.
Proof.
  intros Hv [_ Hsteps] Hrev Hc Hn. unfold goal_consumes_plan in Hc. passed Hc.
  unfold next_revision, checked_add in Hn. destruct (N.leb_spec (pn_revision executed + 1) u64_max) as [Hle'|]; [|done].
  injection Hn as <-. split_and!; try done. unfold plan_step, approval_kept.
  cbn [with_revision pn_status pn_revision pn_session_id pn_created_at pn_prompt pn_content pn_steps pn_approved_at].
  rewrite Hc9, Hc6. split_and!; [done|done|by rewrite Hrev|by right|done|done|done|by right].
Qed.

Lemma create_goal_from_plan_cases goal executed actor :
  goal_fit goal -> plan_fit executed ->
  (exists e, create_goal_from_plan inputs goal executed actor j = (Err e, j)) \/
  exists plan_id current next, gl_source_plan_id goal = Some plan_id /\
    record_trace plan_id (stream_entries (plan_stream plan_id) h) current /\
    pn_status current = PS_Approved /\ plan_step PLAN_EXECUTED current next /\
    pn_executed_run_id next = Some (gl_id goal) /\
    two_writes plan_id next (gl_id goal) goal (goal, next)
      (create_goal_from_plan inputs goal executed actor j).
Proof.
  intros Hgf Hpf. remember (create_goal_from_plan inputs goal executed actor j) as x eqn:Hx.
  unfold create_goal_from_plan in Hx. op_check Hx Hvg. op_check Hx Hvp. rewrite op_bind_lift in Hx.
  destruct (gl_source_plan_id goal) as [plan_id|] eqn:Hsrc; [|left; eexists; exact Hx]. cbn [ok_or] in Hx.
  current_record Hx PlanRecord plan_id current Ht Hid Hfit.
  op_check Hx Hrev. op_check Hx Hc. unfold require_plan_revision in Hrev. passed Hrev. passed Hc.
  destruct (current_cases (A:=GoalRecord) j h Hh Hmax (gl_id goal) ltac:(apply Hok))
    as [(_ & Hg & _)|(b & _ & _ & _ & _ & Hg)]; rewrite (op_bind_run _ _ _ _ _ Hg), op_bind_lift in Hx;
    [|left; eexists; exact Hx].
  cbn [is_some reject] in Hx. rewrite op_bind_lift in Hx.
  destruct (next_revision executed) as [next|e] eqn:Hn; [|left; eexists; exact Hx]. right.
  destruct (goal_consumes_step goal current executed next Hvp Hpf Hrev Hc Hn)
    as (Hga & Hgc & Hnid & Hrun & _ & Hnf & Hs).
  exists plan_id, current, next. unfold goal_consumes_plan in Hc. passed Hc. split_and!; try done.
  subst x. eexists (work_event _ _ PLAN_EXECUTED actor _ _), (work_event _ _ GOAL_CREATED actor _ _).
  split_and!; [| | | |apply batch_commits].
  - exact (step_write h plan_id current next PLAN_EXECUTED actor (pn_session_id next) (record_payload next)
      Ht eq_refl (eq_trans Hnid Hid) Hnf Hs).
  - exact (create_write h goal actor (gl_session_id goal) (record_payload goal) eq_refl Hgf
      (conj Hvg (conj Hga Hgc))).
  - by apply (payload_recordable (A:=PlanRecord)).
  - by apply (payload_recordable (A:=GoalRecord)).
Qed.

(** *** Child-agent jobs *)

(** [additional] events of others, and one write. *)
Definition write_after {A} `{Aggregate A} {R} (additional : list NewEvent) (id : string) (b : A) (r : R)
    (x : result StoreError R * J) : Prop :=
  exists event, record_write h event id b /\ recordable event /\
    commits j inputs (additional ++ [event])%list r x.

Lemma create_subagent_cases job snapshot actor additional :
  is_none_or snapshot (fun id => negb (invalid_snapshot_id id)) = true ->
  (exists e, create_subagent_with_events inputs job snapshot actor additional j = (Err e, j)) \/
  write_after additional (sj_id job) job job
    (create_subagent_with_events inputs job snapshot actor additional j).
Proof.
  intros Hsn. remember (create_subagent_with_events inputs job snapshot actor additional j) as x eqn:Hx.
  unfold create_subagent_with_events in Hx. op_check Hx Hv. op_check Hx Hq. passed Hq. right. subst x.
  set (v := Object _). eexists (work_event _ 0 SUBAGENT_CREATED actor (sj_session_id job) v).
  split_and!; [| |apply batch_commits].
  - assert (ag_init v job) as Hinit by (split_and!; [done|done|by exists snapshot]).
    exact (create_write h job actor (sj_session_id job) v eq_refl I Hinit).
  - eapply (storable_record job); [done|reflexivity| |reflexivity].
    apply Forall_cons. split; [right; by destruct snapshot|]. apply Forall_singleton. by left.
Qed.
Lemma update_subagent_cases job actor additional :
  (exists e, update_subagent_with_events inputs job actor additional j = (Err e, j)) \/
  exists current, record_trace (sj_id job) (stream_entries (subagent_stream (sj_id job)) h) current /\
    subagent_step SUBAGENT_UPDATED current job /\
    write_after additional (sj_id job) job job
      (update_subagent_with_events inputs job actor additional j).
Proof.
  remember (update_subagent_with_events inputs job actor additional j) as x eqn:Hx.
  unfold update_subagent_with_events in Hx. op_check Hx Hv.
  current_record Hx SubagentJob (sj_id job) current Ht Hid Hfit. op_check Hx Hp. right. subst x.
  unfold subagent_update_valid in Hp. passed Hp. exists current.
  assert (subagent_step SUBAGENT_UPDATED current job) as Hs.
  { split_and!; try done. unfold job_origin. congruence. }
  split_and!; [done|done|]. eexists (work_event _ _ SUBAGENT_UPDATED actor (sj_session_id job) _).
  split_and!; [| |apply batch_commits].
  - exact (step_write h (sj_id job) current job SUBAGENT_UPDATED actor (sj_session_id job) (record_payload job)
      Ht eq_refl eq_refl I Hs).
  - by apply (payload_recordable (A:=SubagentJob)).
Qed.
End Ops.
