(* ===== verification/WorkSafety.v ===== *)
(** * Work items, with many writers at once

    The system of [Interleaving] with the batches of the work repository: every operation
    is a run of it, and it keeps every work item a run of its kind.  The operations on
    tasks and decisions read their record twice; [stale_decision_write] and
    [stale_task_write] show that what they append is such a batch however old the first
    reading is. *)

From S2P Require Import Prelude Json Contracts Boundary Platform JournalStore Journal Store.
From S2P Require Import JournalModel JournalAppend StoreSpec StoreCorrect SessionContracts Session Interleaving.
From S2P Require Import WorkContracts Work Aggregates WorkModel WorkOps.
From stdpp Require Import relations.

Open Scope string_scope.
Open Scope op_scope.

(** The operations that write. *)
Inductive WorkAction :=
| CreateTask (task : TaskRecord) (actor : Actor)
| UpdateTask (task : TaskRecord) (actor : Actor)
| CreateDecision (decision : KeyDecision) (actor : Actor)
| UpdateDecision (decision : KeyDecision) (actor : Actor)
| ArchiveDecision (now : result StoreError string) (id : string) (actor : Actor)
| SupersedeDecision (now : result StoreError string) (id : string) (replacement : KeyDecision)
    (actor : Actor)
| CreatePlan (plan : PlanRecord) (actor : Actor)
| UpdatePlan (plan : PlanRecord) (actor : Actor)
| CreateGoal (goal : GoalRecord) (actor : Actor)
| CreateGoalFromPlan (goal : GoalRecord) (executed : PlanRecord) (actor : Actor)
| UpdateGoal (goal : GoalRecord) (actor : Actor)
| RecordGoalIteration (goal : GoalRecord) (expected : N) (actor : Actor)
| CreateSubagent (job : SubagentJob) (snapshot : option string) (actor : Actor)
    (additional : list NewEvent)
| UpdateSubagent (job : SubagentJob) (actor : Actor) (additional : list NewEvent).

(** ** Batches of writes *)

Section Batches.
Context `{WorkCodecsOk}.

(** Events of work items, and what the caller adds. *)
Definition work_own (s : string) : bool :=
  starts_with s "task:" || starts_with s "decision:" || starts_with s "plan:" || starts_with s "goal:"
  || starts_with s "subagent:".
Definition written (additional : list NewEvent) (h : history) (batch : list NewEvent) : Prop :=
  work_batch h batch /\ around work_own additional batch.
(** The streams of a kind are work items'. *)
Definition own_kind (A : Type) `{Aggregate A} : Prop := forall id, work_own (record_stream A id) = true.
Ltac own_kind_tac :=
  intros id; unfold work_own, record_stream; cbn [ag_prefix task_aggregate decision_aggregate plan_aggregate
    goal_aggregate subagent_aggregate]; rewrite starts_with_self, ?orb_true_r; done.
Lemma own_task : own_kind TaskRecord. Proof. own_kind_tac. Qed.
Lemma own_decision : own_kind KeyDecision. Proof. own_kind_tac. Qed.
Lemma own_plan : own_kind PlanRecord. Proof. own_kind_tac. Qed.
Lemma own_goal : own_kind GoalRecord. Proof. own_kind_tac. Qed.
Lemma own_subagent : own_kind SubagentJob. Proof. own_kind_tac. Qed.
Lemma write_own {A} `{Aggregate A} h event id (a : A) :
  own_kind A -> record_write h event id a -> work_own (ne_stream_id event) = true.
Proof. intros Hk [-> _]. apply Hk. Qed.
Ltac own_write_tac Hw :=
  first [exact (write_own _ _ _ _ own_task Hw) |exact (write_own _ _ _ _ own_decision Hw)
        |exact (write_own _ _ _ _ own_plan Hw) |exact (write_own _ _ _ _ own_goal Hw)
        |exact (write_own _ _ _ _ own_subagent Hw)].

Lemma write_off {A B} `{Aggregate A, Aggregate B} h event id (a : A) :
  record_write h event id a -> starts_with (record_stream A id) (ag_prefix (A:=B)) = false ->
  off_records B event.
Proof. intros [He _] Hs. unfold off_records. by rewrite He. Qed.
Lemma off_work_all additional :
  Forall off_work additional ->
  Forall (off_records TaskRecord) additional /\ Forall (off_records KeyDecision) additional /\
  Forall (off_records PlanRecord) additional /\ Forall (off_records GoalRecord) additional /\
  Forall (off_records SubagentJob) additional.
Proof.
  intros Hf. split_and!; (eapply Forall_impl; [exact Hf|]); intros event (Ht & Hd & Hp & Hg & Hs); done.
Qed.

Ltac off_tac Hw :=
  match goal with |- off_records ?B _ => exact (write_off (B:=B) _ _ _ _ Hw eq_refl) end.
(** A batch of one write, after events of others. *)
Ltac write_batch_tac Hw Hf :=
  split; [|apply around_after; [apply Forall_singleton; own_write_tac Hw|apply around_refl]];
  apply off_work_all in Hf as (?Ht & ?Hd & ?Hp & ?Hg & ?Hs);
  split_and!; (apply off_batch_app; [done|]);
  first [by eapply write_batch; [exact Hw|apply Forall_nil_2]
        |apply off_batch, Forall_singleton; off_tac Hw].
Lemma task_batch h additional event id (a : TaskRecord) :
  record_write h event id a -> Forall off_work additional ->
  written additional h (additional ++ [event]).
Proof. intros Hw Hf. write_batch_tac Hw Hf. Qed.
Lemma decision_batch h additional event id (a : KeyDecision) :
  record_write h event id a -> Forall off_work additional ->
  written additional h (additional ++ [event]).
Proof. intros Hw Hf. write_batch_tac Hw Hf. Qed.
Lemma plan_batch h additional event id (a : PlanRecord) :
  record_write h event id a -> Forall off_work additional ->
  written additional h (additional ++ [event]).
Proof. intros Hw Hf. write_batch_tac Hw Hf. Qed.
Lemma goal_batch h additional event id (a : GoalRecord) :
  record_write h event id a -> Forall off_work additional ->
  written additional h (additional ++ [event]).
Proof. intros Hw Hf. write_batch_tac Hw Hf. Qed.
Lemma subagent_batch h additional event id (a : SubagentJob) :
  record_write h event id a -> Forall off_work additional ->
  written additional h (additional ++ [event]).
Proof. intros Hw Hf. write_batch_tac Hw Hf. Qed.

Lemma supersede_batch h event event' id id' (a b : KeyDecision) :
  record_write h event id a -> record_write h event' id' b -> id' <> id ->
  written [] h [event; event'].
Proof.
  intros Hw Hw' Hne.
  pose proof (decision_batch h [] event' id' b Hw' (Forall_nil_2 _)) as [(Ht & Hd & Hp & Hg & Hs) Hf].
  split; [|apply (around_before work_own [event]); [apply Forall_singleton; own_write_tac Hw|exact Hf]].
  split_and!; try (apply batch_off; [off_tac Hw|done]).
  eapply batch_write; [exact Hw| |done]. apply Forall_singleton. destruct Hw' as [-> _].
  intros Heq. by apply record_stream_inj in Heq.
Qed.
Lemma goal_from_plan_batch h event event' id id' (a : PlanRecord) (b : GoalRecord) :
  record_write h event id a -> record_write h event' id' b -> written [] h [event; event'].
Proof.
  intros Hw Hw'. pose proof (goal_batch h [] event' id' b Hw' (Forall_nil_2 _)) as [(Ht & Hd & Hp & Hg & Hs) Hf].
  split; [|apply (around_before work_own [event]); [apply Forall_singleton; own_write_tac Hw|exact Hf]].
  split_and!; try (apply batch_off; [off_tac Hw|done]).
  eapply batch_write; [exact Hw| |done]. apply Forall_singleton. by destruct Hw' as [-> _].
Qed.
End Batches.

Section Safety.
Context `{WorkCodecsOk} {J} `{EventJournalOk J}.

Definition run_work (inputs : Inputs) (a : WorkAction) (j : J) : J :=
  match a with
  | CreateTask task actor => (create_task inputs task actor j).2
  | UpdateTask task actor => (update_task inputs task actor j).2
  | CreateDecision decision actor => (create_decision inputs decision actor j).2
  | UpdateDecision decision actor => (update_decision inputs decision actor j).2
  | ArchiveDecision now id actor => (archive_decision inputs now id actor j).2
  | SupersedeDecision now id replacement actor =>
      (supersede_decision inputs now id replacement actor j).2
  | CreatePlan plan actor => (create_plan inputs plan actor j).2
  | UpdatePlan plan actor => (update_plan inputs plan actor j).2
  | CreateGoal goal actor => (create_goal inputs goal actor j).2
  | CreateGoalFromPlan goal executed actor => (create_goal_from_plan inputs goal executed actor j).2
  | UpdateGoal goal actor => (update_goal inputs goal actor j).2
  | RecordGoalIteration goal expected actor => (record_goal_iteration inputs goal expected actor j).2
  | CreateSubagent job snapshot actor additional =>
      (create_subagent_with_events inputs job snapshot actor additional j).2
  | UpdateSubagent job actor additional => (update_subagent_with_events inputs job actor additional j).2
  end.

(** What a caller passes: numbers of their machine types, a snapshot that is a digest,
    events of its own streams. *)
Definition own_work_events (additional : list NewEvent) : Prop :=
  Forall recordable additional /\ Forall off_work additional.
Definition work_fit (a : WorkAction) : Prop :=
  match a with
  | CreatePlan plan _ | UpdatePlan plan _ => plan_fit plan
  | CreateGoal goal _ | UpdateGoal goal _ | RecordGoalIteration goal _ _ => goal_fit goal
  | CreateGoalFromPlan goal executed _ => goal_fit goal /\ plan_fit executed
  | CreateSubagent _ snapshot _ additional =>
      is_none_or snapshot (fun id => negb (invalid_snapshot_id id)) = true /\ own_work_events additional
  | UpdateSubagent _ _ additional => own_work_events additional
  | _ => True
  end.
Definition work_events (a : WorkAction) : list NewEvent :=
  match a with
  | CreateSubagent _ _ _ additional | UpdateSubagent _ _ additional => additional
  | _ => []
  end.
Definition work_size (a : WorkAction) : N :=
  match a with
  | SupersedeDecision _ _ _ _ | CreateGoalFromPlan _ _ _ => 2
  | CreateSubagent _ _ _ additional | UpdateSubagent _ _ additional => count additional + 1
  | _ => 1
  end.

Definition work_step : J * list (list NewEvent) -> J * list (list NewEvent) -> Prop :=
  journal_step work_batch.

Section Action.
Context (j : J) (h : history) (inputs : Inputs).

Lemma one_write_batch {A} `{Aggregate A} {R} id (a : A) (r : R) x size :
  (forall event, record_write h event id a -> written [] h [event]) -> (1 <= size)%N ->
  one_write j h inputs id a r x -> one_batch (written []) j h inputs size x.2.
Proof.
  intros Hb Hle [[e ->]|(event & Hw & Hr & Hc)]; [by left|right]. exists [event].
  split_and!; [by apply Hb|by apply Forall_singleton|unfold count; simpl; lia|by eapply commits_journal].
Qed.
Lemma two_writes_batch {A B} `{Aggregate A, Aggregate B} {R} id (a : A) id' (b : B) (r : R) x :
  (forall event event', record_write h event id a -> record_write h event' id' b ->
     written [] h [event; event']) ->
  two_writes j h inputs id a id' b r x -> one_batch (written []) j h inputs 2 x.2.
Proof.
  intros Hb (event & event' & Hw & Hw' & Hr & Hr' & Hc). right. exists [event; event'].
  split_and!; [by apply Hb|(apply Forall_cons; split; [done|by apply Forall_singleton])|done|by eapply commits_journal].
Qed.
Lemma write_after_batch {A} `{Aggregate A} {R} additional id (a : A) (r : R) x :
  (forall event, record_write h event id a -> written additional h (additional ++ [event])%list) ->
  Forall recordable additional ->
  write_after j h inputs additional id a r x ->
  one_batch (written additional) j h inputs (count additional + 1) x.2.
Proof.
  intros Hb Ha (event & Hw & Hr & Hc). right. exists (additional ++ [event])%list.
  split_and!; [by apply Hb| | |by eapply commits_journal].
  - apply Forall_app. split; [done|by apply Forall_singleton].
  - unfold count. rewrite length_app. simpl. lia.
Qed.
End Action.

Lemma work_action_batch j h inputs a :
  holds j h -> work_ok h -> inputs_ok inputs -> work_fit a -> (count h + work_size a + 1 < u64_max)%N ->
  one_batch (written (work_events a)) j h inputs (work_size a) (run_work inputs a j).
Proof.
  intros Hh Hok Hi Hfit Hle.
  assert (count h + 2 < u64_max)%N as Hle2 by (destruct a; cbn [work_size] in Hle; lia).
  pose proof (fun (A : Type) => Forall_nil_2 (A:=A)) as Hnil.
  destruct a as [task actor|task actor|d actor|d actor|now id actor|now id r actor|plan actor|plan actor
    |goal actor|goal executed actor|goal actor|goal expected actor|job snapshot actor add|job actor add];
    cbn [run_work work_size work_fit work_events] in *.
  - eapply (one_write_batch j h inputs (A:=TaskRecord)); [|done|exact (create_task_cases j h Hh inputs Hi Hle2 task actor)]. intros ev Hw. by apply (task_batch h [] ev _ _ Hw).
  - eapply (one_write_batch j h inputs (A:=TaskRecord)); [|done|exact (update_task_cases j h Hh Hok inputs Hi Hle2 task actor)]. intros ev Hw. by apply (task_batch h [] ev _ _ Hw).
  - eapply (one_write_batch j h inputs (A:=KeyDecision)); [|done|exact (create_decision_cases j h Hh inputs Hi Hle2 d actor)]. intros ev Hw. by apply (decision_batch h [] ev _ _ Hw).
  - eapply (one_write_batch j h inputs (A:=KeyDecision)); [|done|exact (update_decision_cases j h Hh Hok inputs Hi Hle2 d actor)]. intros ev Hw. by apply (decision_batch h [] ev _ _ Hw).
  - destruct (archive_decision_cases j h Hh Hok inputs Hi Hle2 now id actor) as [[e ->]|[d Hd]]; [by left|].
    eapply (one_write_batch j h inputs (A:=KeyDecision)); [|done|exact Hd]. intros ev Hw. by apply (decision_batch h [] ev _ _ Hw).
  - destruct (supersede_decision_cases j h Hh Hok inputs Hle2 now id r actor) as [[e ->]|(old & Hne & Hd)]; [by left|].
    eapply (two_writes_batch j h inputs (A:=KeyDecision) (B:=KeyDecision)); [|exact Hd]. intros ev ev' Hw Hw'. by eapply supersede_batch.
  - eapply (one_write_batch j h inputs (A:=PlanRecord)); [|done|exact (create_plan_cases j h Hh inputs Hi Hle2 plan actor Hfit)]. intros ev Hw. by apply (plan_batch h [] ev _ _ Hw).
  - destruct (update_plan_cases j h Hh Hok inputs Hi Hle2 plan actor Hfit) as [[e ->]|(c & ty & n & _ & _ & Hp)]; [by left|].
    eapply (one_write_batch j h inputs (A:=PlanRecord)); [|done|exact Hp]. intros ev Hw. by apply (plan_batch h [] ev _ _ Hw).
  - eapply (one_write_batch j h inputs (A:=GoalRecord)); [|done|exact (create_goal_cases j h Hh inputs Hi Hle2 goal actor Hfit)]. intros ev Hw. by apply (goal_batch h [] ev _ _ Hw).
  - destruct Hfit as [Hg Hp].
    destruct (create_goal_from_plan_cases j h Hh Hok inputs Hle2 goal executed actor Hg Hp)
      as [[e ->]|(p & c & n & _ & _ & _ & _ & _ & Hw)]; [by left|].
    eapply (two_writes_batch j h inputs (A:=PlanRecord) (B:=GoalRecord)); [|exact Hw]. intros ev ev' Hw1 Hw2. by eapply goal_from_plan_batch.
  - eapply (one_write_batch j h inputs (A:=GoalRecord)); [|done|exact (update_goal_cases j h Hh Hok inputs Hi Hle2 goal actor Hfit)]. intros ev Hw. by apply (goal_batch h [] ev _ _ Hw).
  - destruct (record_goal_iteration_cases j h Hh Hok inputs Hi Hle2 goal expected actor Hfit)
      as [[e ->]|(c & _ & _ & _ & _ & Hw)]; [by left|].
    eapply (one_write_batch j h inputs (A:=GoalRecord)); [|done|exact Hw]. intros ev Hw1. by apply (goal_batch h [] ev _ _ Hw1).
  - destruct Hfit as (Hs & Hr & Hf).
    destruct (create_subagent_cases j h inputs job snapshot actor add Hs) as [[e ->]|Hw]; [by left|].
    eapply (write_after_batch j h inputs (A:=SubagentJob)); [|done|exact Hw]. intros ev Hw1. by eapply subagent_batch.
  - destruct Hfit as (Hr & Hf).
    destruct (update_subagent_cases j h Hh Hok inputs Hle2 job actor add) as [[e ->]|(c & _ & _ & Hw)]; [by left|].
    eapply (write_after_batch j h inputs (A:=SubagentJob)); [|done|exact Hw]. intros ev Hw1. by eapply subagent_batch.
Qed.
Lemma work_action_keeps j h inputs a :
  holds j h -> work_ok h -> inputs_ok inputs -> work_fit a -> (count h + work_size a + 1 < u64_max)%N ->
  exists h', holds (run_work inputs a j) h' /\ work_ok h' /\ (count h' <= count h + work_size a)%N.
Proof.
  intros Hh Hok Hi Hfit Hle. eapply (one_batch_keeps work_batch work_ok); try done.
  - intros inputs' h' g batch es. by apply work_batch_ok.
  - eapply one_batch_mono; [|by apply work_action_batch]. by intros batch [].
Qed.

(** Every operation of the work repository - creating, updating,
    archiving and superseding, the plan and goal transitions, the child-agent jobs - is a
    run of that system from wherever it starts: it leaves the journal alone, or prepares one
    batch from what it reads and commits it. *)
Lemma work_operation_refines (j : J) (h : history) batches inputs a :
  holds j h -> work_ok h -> inputs_ok inputs -> work_fit a ->
  (count h + work_size a + 1 < u64_max)%N ->
  exists batches', rtc work_step (j, batches) (run_work inputs a j, batches').
Proof.
  intros Hh Hok Hi Hfit Hle. eapply (one_batch_refines work_batch); try done.
  eapply one_batch_mono; [|by apply work_action_batch]. by intros batch [].
Qed.

(** However the writers of tasks, decisions, plans, goals and child-agent
    jobs interleave - each preparing its batch from what it read, and committing it after
    any number of other commits, or again - every item's stream remains a run of its kind: a
    valid creation, then valid records of the same item, each a permitted step from the one
    before. The history only grows. *)
Lemma work_interleaved (j j' : J) (h : history) batches :
  holds j h -> work_ok h -> rtc work_step (j, []) (j', batches) ->
  exists g, holds j' (h ++ g) /\ work_ok (h ++ g).
Proof.
  intros Hh Hok Hr. eapply (interleaved_ok work_batch work_ok); [|done..].
  intros inputs h' g' batch es. by apply work_batch_ok.
Qed.

(** ** Old readings *)

Section Stale.
Context (j0 j : J) (h g : history) (inputs : Inputs).
Context (Hh0 : holds j0 h) (Hok0 : work_ok h) (Hh : holds j (h ++ g)) (Hok : work_ok (h ++ g)).
Context (Hi : inputs_ok inputs) (Hle : (count (h ++ g)%list + 2 < u64_max)%N).

#[local] Lemma Hle0 : (count h + 2 < u64_max)%N.
Proof. rewrite count_app in Hle. lia. Qed.

Lemma decision_origin_later id a b :
  record_trace id (stream_entries (decision_stream id) h) a ->
  record_trace id (stream_entries (decision_stream id) (h ++ g)) b ->
  decision_origin b = decision_origin a.
Proof.
  intros Ha Hb. apply (record_later (fun a b => decision_origin b = decision_origin a) id h g a b); try done.
  intros ty x y z Hxy [Hyz _]. congruence.
Qed.

(** Checked on one reading, appended after another: still a write. *)
Lemma later_decision id a :
  record_trace id (stream_entries (decision_stream id) h) a ->
  exists b, record_trace id (stream_entries (decision_stream id) (h ++ g)) b /\
    decision_origin a = decision_origin b.
Proof.
  intros Ht. destruct (records_later _ h g a (proj1 (proj2 Hok)) Ht) as [b Hb]. exists b.
  split; [done|]. symmetry. by eapply decision_origin_later.
Qed.
Lemma stale_task task actor :
  check_task_update task j0 = (Ok tt, j0) ->
  one_batch (written []) j (h ++ g) inputs 2
    (append_next inputs (task_stream (tk_id task)) TASK_UPDATED actor task j).2.
Proof.
  intros Hc. destruct (check_task_cases j0 h Hh0 Hok0 Hle0 task)
    as [[e He]|(a & _ & Hv & Ht & Hs & Hcr)]; [congruence|].
  destruct (records_later _ h g a (proj1 Hok) Ht) as [b Hb].
  assert (tk_session_id b = tk_session_id a /\ tk_created_at b = tk_created_at a) as [Hsb Hcb].
  { apply (record_later (fun a b => tk_session_id b = tk_session_id a /\ tk_created_at b = tk_created_at a)
      (tk_id task) h g a b); try done. intros ty x y z [Hx1 Hx2] (_ & _ & Hy1 & Hy2). split; congruence. }
  eapply (one_write_batch j (h ++ g) inputs (A:=TaskRecord)); [|done|].
  - intros ev Hw. apply (task_batch _ [] ev _ _ Hw), Forall_nil_2.
  - exact (append_next_cases j (h ++ g) Hh inputs Hi Hle (tk_id task) b task TASK_UPDATED actor Hb eq_refl I
      (conj eq_refl (conj Hv (conj (eq_trans (eq_sym Hs) (eq_sym Hsb)) (eq_trans (eq_sym Hcr) (eq_sym Hcb)))))).
Qed.
Lemma stale_update decision actor :
  check_decision_update decision j0 = (Ok tt, j0) ->
  one_batch (written []) j (h ++ g) inputs 2
    (append_next inputs (decision_stream (kd_id decision)) DECISION_UPDATED actor decision j).2.
Proof.
  intros Hc. destruct (check_decision_cases j0 h Hh0 Hok0 Hle0 decision)
    as [[e He]|(a & _ & Hv & Ht & Ha & Hd & Ho)]; [congruence|].
  destruct (later_decision _ _ Ht) as (b & Hb & Hob).
  eapply (one_write_batch j (h ++ g) inputs (A:=KeyDecision)); [|done|].
  - intros ev Hw. apply (decision_batch _ [] ev _ _ Hw), Forall_nil_2.
  - exact (append_next_cases j (h ++ g) Hh inputs Hi Hle (kd_id decision) b decision DECISION_UPDATED actor Hb
      eq_refl I (conj (eq_trans Ho Hob) (or_introl (conj eq_refl (conj Hd Hv))))).
Qed.
Lemma stale_archive now id d actor :
  check_archive now id j0 = (Ok d, j0) ->
  one_batch (written []) j (h ++ g) inputs 2 (append_next inputs (decision_stream id) DECISION_ARCHIVED actor d j).2.
Proof.
  intros Hc. destruct (check_archive_cases j0 h Hh0 Hok0 Hle0 now id)
    as [[e He]|(a & t & Hd & _ & Ht & Hid & _)]; [congruence|].
  assert (d = with_decision_status DS_Archived t a) as -> by congruence.
  destruct (later_decision _ _ Ht) as (b & Hb & Hob).
  eapply (one_write_batch j (h ++ g) inputs (A:=KeyDecision)); [|done|].
  - intros ev Hw. apply (decision_batch _ [] ev _ _ Hw), Forall_nil_2.
  - exact (append_next_cases j (h ++ g) Hh inputs Hi Hle id b (with_decision_status DS_Archived t a) DECISION_ARCHIVED actor Hb
      Hid I (conj Hob (or_intror (or_introl (conj eq_refl eq_refl))))).
Qed.
Lemma stale_supersede now id old replacement actor :
  check_supersede now id replacement j0 = (Ok old, j0) ->
  one_batch (written []) j (h ++ g) inputs 2 (append_superseded inputs id old replacement actor j).2.
Proof.
  intros Hc. destruct (check_supersede_cases j0 h Hh0 Hok0 Hle0 now id replacement)
    as [[e He]|(a & t & Hd & Ht & Hid & Hv & _ & Hr & Hne & _)]; [congruence|].
  assert (old = with_decision_status DS_Superseded t a) as -> by congruence.
  destruct (later_decision _ _ Ht) as (b & Hb & Hob).
  eapply (two_writes_batch j (h ++ g) inputs (A:=KeyDecision) (B:=KeyDecision)).
  - intros ev ev' Hw Hw'. by eapply supersede_batch.
  - by apply (append_superseded_cases j (h ++ g) Hh inputs Hle id a b).
Qed.
End Stale.

(** The operations that read their record once to check it and again for the version. *)
Inductive checked : J -> (Inputs -> J -> J) -> Prop :=
| checked_task j task actor :
    check_task_update task j = (Ok tt, j) ->
    checked j (fun inputs j' => (append_next inputs (task_stream (tk_id task)) TASK_UPDATED actor task j').2)
| checked_update j decision actor :
    check_decision_update decision j = (Ok tt, j) ->
    checked j (fun inputs j' => (append_next inputs (decision_stream (kd_id decision)) DECISION_UPDATED
                                   actor decision j').2)
| checked_archive j now id d actor :
    check_archive now id j = (Ok d, j) ->
    checked j (fun inputs j' => (append_next inputs (decision_stream id) DECISION_ARCHIVED actor d j').2)
| checked_supersede j now id old replacement actor :
    check_supersede now id replacement j = (Ok old, j) ->
    checked j (fun inputs j' => (append_superseded inputs id old replacement actor j').2).

(** The operations that check a record on one reading and take the
    version from another - updating a task, updating, archiving and superseding a decision -
    are runs of the system however many other commits come between the two readings: the
    check may be of a record that is no longer there, but what is appended continues the
    item's run. *)
Lemma stale_check_refines (j0 j : J) (h g : history) batches inputs finish :
  holds j0 h -> work_ok h -> checked j0 finish -> holds j (h ++ g) -> work_ok (h ++ g) ->
  inputs_ok inputs -> (count (h ++ g)%list + 3 < u64_max)%N ->
  exists batches', rtc work_step (j, batches) (finish inputs j, batches').
Proof.
  intros Hh0 Hok0 Hc Hh Hok Hi Hle.
  assert (one_batch (written []) j (h ++ g) inputs 2 (finish inputs j)) as Hb.
  { assert (count (h ++ g)%list + 2 < u64_max)%N as Hle2 by lia.
    destruct Hc as [j0 task actor Hc|j0 d actor Hc|j0 now id d actor Hc|j0 now id old r actor Hc].
    - by apply (stale_task j0 j h g).
    - by apply (stale_update j0 j h g).
    - by apply (stale_archive j0 j h g inputs Hh0 Hok0 Hh Hok Hi Hle2 now).
    - by apply (stale_supersede j0 j h g inputs Hh0 Hok0 Hh Hok Hle2 now). }
  eapply (one_batch_refines work_batch); try done; [|eapply one_batch_mono; [|exact Hb]; by intros batch []].
  lia.
Qed.
End Safety.
