(* ===== verification/WorkLifecycle.v ===== *)
(** * The life of a work item

    What the runs of [WorkModel] mean over time: a plan is executed as it was approved and
    only once, a goal's iteration budget is spent slot by slot, a child-agent job keeps its
    origin, and the writes that span two items are atomic. *)

From S2P Require Import Prelude Json Contracts Boundary Platform JournalStore Journal Store.
From S2P Require Import JournalModel JournalAppend StoreSpec StoreCorrect SessionContracts Session Interleaving.
From S2P Require Import WorkContracts Work Aggregates WorkModel WorkOps WorkSafety.
From stdpp Require Import relations.

Open Scope string_scope.
Open Scope op_scope.

(** The statuses a job passes through. *)
Definition job_transition (a b : SubagentStatus) : Prop := subagent_transition_valid a b = true.

Section Lifecycle.
Context `{WorkCodecsOk}.

(** ** Plans *)

Lemma plan_revision_counts id evs (p : PlanRecord) : record_trace id evs p -> pn_revision p = count evs.
Proof.
  induction 1 as [e v a He Hg Hid Hfit (Hv & Hs & Hr)|evs a e v b Ht IH Hg Hid Hfit (_ & _ & Hr & _)].
  - by rewrite Hr.
  - rewrite Hr, IH, count_snoc. lia.
Qed.
Lemma plan_final ty a b :
  plan_step ty a b -> pn_status a <> PS_Executed /\ pn_status a <> PS_Discarded.
Proof. intros (Ht & _). by destruct (pn_status a), (pn_status b). Qed.
Lemma plan_stays id evs evs' (p b : PlanRecord) :
  record_trace id evs p -> pn_status p = PS_Executed \/ pn_status p = PS_Discarded ->
  record_trace id (evs ++ evs') b -> evs' = [].
Proof.
  intros Hp Hs Hb. destruct evs' as [|[e v] rest]; [done|exfalso].
  assert (exists c : PlanRecord, record_trace id (evs ++ [(e, v)]) c) as [c Hc].
  { revert b Hb. induction rest as [|[e' v'] rest IH] using rev_ind; intros b Hb; [by exists b|].
    rewrite app_comm_cons, app_assoc in Hb. apply trace_snoc in Hb as (c & Hc & _); [by eapply IH|].
    intros Hnil. apply app_nil in Hnil as [_ Hnil]. done. }
  apply trace_snoc in Hc as (q & Hq & Hstep); [|exact (trace_nonempty _ _ _ Hp)].
  rewrite (trace_unique _ _ _ _ Hq Hp) in Hstep. apply plan_final in Hstep as [H1' H2']. naive_solver.
Qed.

(** An approved plan was approved by its last event. *)
Lemma plan_approval_event id evs (p : PlanRecord) :
  record_trace id evs p -> pn_status p = PS_Approved ->
  exists before e v, evs = (before ++ [(e, v)])%list /\ ev_event_type e = PLAN_APPROVED.
Proof.
  intros Ht Hs. destruct Ht as [e v a He Hg Hid Hfit (_ & Hd & _)|before r e v q Ht Hg Hid Hfit Hstep]; [congruence|].
  destruct Hstep as (Hty & _). rewrite Hs in Hty. exists before, e, v. split; [done|].
  destruct (pn_status r); try done. by injection Hty.
Qed.
(** A plan that was executed or discarded is never written again. *)
Lemma plan_final_stays (h g : history) id (p : PlanRecord) :
  record_trace id (stream_entries (plan_stream id) h) p ->
  pn_status p = PS_Executed \/ pn_status p = PS_Discarded -> work_ok (h ++ g) ->
  stream_entries (plan_stream id) (h ++ g) = stream_entries (plan_stream id) h.
Proof.
  intros Ht Hs (_ & _ & Hp & _). destruct (records_later id h g p Hp Ht) as [b Hb].
  rewrite stream_entries_app in Hb |- *. pose proof (plan_stays _ _ _ _ _ Ht Hs Hb) as Hnil.
  change (stream_entries (plan_stream id) g = []) in Hnil. by rewrite Hnil, app_nil_r.
Qed.

(** ** Child-agent jobs *)

(** Whatever is committed after a job was read, the job keeps its
    origin - its session, the parent's run and tool call, its task, role and tool ceiling,
    the child session and its creation - and its status is reached by permitted
    transitions; a completed job never changes again. *)
Lemma subagent_over_time (h g : history) id (a b : SubagentJob) :
  record_trace id (stream_entries (subagent_stream id) h) a ->
  record_trace id (stream_entries (subagent_stream id) (h ++ g)) b ->
  job_origin b = job_origin a /\ rtc job_transition (sj_status a) (sj_status b) /\
  (sj_status a = SJ_Completed -> b = a).
Proof.
  intros Ha Hb.
  apply (record_later (fun a b => job_origin b = job_origin a /\
    rtc job_transition (sj_status a) (sj_status b) /\ (sj_status a = SJ_Completed -> b = a)) id h g a b); try done.
  intros ty x y z (Hxy & Hr & Hc) (_ & _ & Ht & Ho). split_and!; [congruence|by eapply rtc_r|].
  intros Hs. specialize (Hc Hs) as ->. by rewrite Hs in Ht.
Qed.

(** ** Goals *)

Lemma goal_within_budget id evs (g : GoalRecord) :
  record_trace id evs g -> (gl_iterations_completed g <= gl_iteration_budget g <= 50)%N.
Proof.
  assert (forall g, validate_goal g = Ok tt -> (gl_iterations_completed g <= gl_iteration_budget g <= 50)%N) as Hv.
  { intros g0 Hv0. unfold validate_goal in Hv0. apply reject_Ok in Hv0.
    repeat (apply orb_false_iff in Hv0 as [Hv0 ?]). rewrite !negb_false_iff, !andb_true_iff, !N.leb_le, !N.ltb_ge in *. lia. }
  destruct 1 as [e v a He Hg Hid Hfit (Hval & _)|evs a e v b Ht Hg Hid Hfit (_ & Hval & _)]; by apply Hv.
Qed.
Lemma goal_iterations_grow (h g : history) id (a b : GoalRecord) :
  record_trace id (stream_entries (goal_stream id) h) a ->
  record_trace id (stream_entries (goal_stream id) (h ++ g)) b ->
  (gl_iterations_completed a <= gl_iterations_completed b)%N.
Proof.
  intros Ha Hb.
  apply (record_later (fun a b => (gl_iterations_completed a <= gl_iterations_completed b)%N) id h g a b); try done.
  intros ty x y z Hxy (_ & _ & _ & _ & _ & _ & _ & Hi). naive_solver lia.
Qed.
End Lifecycle.

Section Results.
Context `{WorkCodecsOk} {J} `{EventJournalOk J}.

(** ** What a successful operation leaves *)

Section After.
Context (j : J) (h : history) (Hh : holds j h) (Hok : work_ok h).
Context (inputs : Inputs) (Hi : inputs_ok inputs).

Lemma committed_either {R} batch (r : R) x :
  commits j inputs batch r x -> work_batch h batch -> Forall recordable batch ->
  (count h + count batch + 1 < u64_max)%N ->
  (exists e, x.1 = Err e /\ holds x.2 h) \/
  ((forall r', x.1 = Ok r' -> r' = r) /\ exists es, batch_committed h inputs batch es /\
     holds x.2 (h ++ entries batch es) /\ work_ok (h ++ entries batch es) /\
     (count (h ++ entries batch es)%list = count h + count batch)%N).
Proof.
  intros Hc Hb Hr Hle. unfold commits in Hc.
  pose proof (ej_append_batch_ok j h inputs batch Hh Hr Hi Hle) as Ha.
  assert (forall es j1, batch_committed h inputs batch es /\ holds j1 (h ++ entries batch es) ->
    exists es, batch_committed h inputs batch es /\ holds j1 (h ++ entries batch es) /\
      work_ok (h ++ entries batch es) /\ (count (h ++ entries batch es)%list = count h + count batch)%N) as Hkeep.
  { intros es j1 [Hbc Hh']. exists es. split_and!; try done.
    - eapply (commit_keeps work_batch work_ok); try done; [|lia].
      intros inputs' h' g batch' es'. by apply work_batch_ok.
    - pose proof (committed_length _ _ _ _ Hbc) as Hlen. unfold count, entries.
      rewrite length_app, length_zip_with, !length_fmap. lia. }
  destruct (ej_append_batch inputs batch j) as [[es|e] j1]; subst x; cbn [fst snd].
  - right. split; [by intros ? [= ->]|by eapply Hkeep].
  - destruct Ha as [Hs|[es Hs]]; [left; by exists e|right]. split; [done|by eapply Hkeep].
Qed.
Lemma committed_work {R} batch (r r' : R) x j' :
  commits j inputs batch r x -> x = (Ok r', j') -> work_batch h batch -> Forall recordable batch ->
  (count h + count batch + 1 < u64_max)%N ->
  r' = r /\ exists es, batch_committed h inputs batch es /\ holds j' (h ++ entries batch es) /\
    work_ok (h ++ entries batch es) /\ (count (h ++ entries batch es)%list = count h + count batch)%N.
Proof.
  intros Hc Hx Hb Hr Hle. destruct (committed_either batch r x Hc Hb Hr Hle) as [(e & He & _)|[Ho Hes]];
    subst x; [done|]. split; [by apply Ho|done].
Qed.
Lemma one_write_result {A} `{Aggregate A} {R} id (b : A) (r r' : R) x j' :
  (forall event, record_write h event id b -> work_batch h [event]) -> (count h + 2 < u64_max)%N ->
  one_write j h inputs id b r x -> x = (Ok r', j') ->
  r' = r /\ exists g, holds j' (h ++ g) /\ work_ok (h ++ g) /\ (count (h ++ g)%list = count h + 1)%N /\
    record_trace id (stream_entries (record_stream A id) (h ++ g)) b.
Proof.
  intros Hb Hle [[e ->]|(event & Hw & Hr & Hc)] Hx; [done|].
  destruct (committed_work [event] r r' x j' Hc Hx (Hb event Hw)) as (-> & es & Hbc & Hh' & Hok' & Hcount);
    [by apply Forall_singleton|unfold count in *; simpl; lia|].
  split; [done|]. exists (entries [event] es). split_and!; try done.
  rewrite <- (app_nil_r h) in Hbc.
  pose proof (record_write_ok inputs h [] [] event [] es id b Hbc ltac:(constructor) ltac:(constructor) Hw) as Ht.
  by rewrite app_nil_r in Ht.
Qed.
End After.

(** What is read is what the stream holds. *)
Section Read.
Context (j : J) (h : history) (Hh : holds j h) (Hok : work_ok h).
Context (n : N) (Hle : (count h <= n)%N) (Hn : (n <= 1000)%N).

#[local] Lemma Hroom : (count h + 2 < u64_max)%N.
Proof. unfold u64_max. lia. Qed.
Lemma read_trace {A} `{AggregateOk A} id (a : A) :
  records_ok A h -> (Work.record (A:=A) (record_stream A id) ag_created j).1 = Ok (Some a) ->
  record_trace id (stream_entries (record_stream A id) h) a.
Proof.
  intros Hokr Hr. pose proof Hroom as Hm.
  destruct (current_cases (A:=A) j h Hh ltac:(lia) id Hokr) as [(_ & Hnone & _)|(b & Ht & _ & _ & _ & Hb)].
  - by rewrite Hnone in Hr.
  - rewrite Hb in Hr. by injection Hr as <-.
Qed.
Lemma read_plan id a :
  (get_plan id j).1 = Ok (Some a) -> record_trace id (stream_entries (plan_stream id) h) a.
Proof. intros Hr. exact (read_trace id a (proj1 (proj2 (proj2 Hok))) Hr). Qed.
Lemma read_job id a :
  (get_subagent id j).1 = Ok (Some a) -> record_trace id (stream_entries (subagent_stream id) h) a.
Proof. intros Hr. exact (read_trace id a (proj2 (proj2 (proj2 (proj2 Hok)))) Hr). Qed.
Lemma updated_job inputs job actor :
  inputs_ok inputs -> (update_subagent_with_events inputs job actor [] j).1 = Ok job ->
  exists g, holds (run_work inputs (UpdateSubagent job actor []) j) (h ++ g) /\ work_ok (h ++ g) /\
    (count (h ++ g)%list <= n + 1)%N.
Proof.
  intros Hi Hrun. cbn [run_work].
  destruct (update_subagent_with_events inputs job actor [] j) as [r j'] eqn:Hx. cbn [fst snd] in *. subst r.
  destruct (update_subagent_cases j h Hh Hok inputs Hroom job actor [])
    as [[e He]|(c & _ & _ & ev & Hw & Hr & Hc)]; [congruence|].
  destruct (committed_work j h Hh Hok inputs Hi ([] ++ [ev]) job job _ j' Hc Hx)
    as (_ & es & _ & Hh' & Hok' & Hcount).
  - by apply (subagent_batch h [] ev _ _ Hw), Forall_nil_2.
  - by apply Forall_singleton.
  - change (count ([] ++ [ev])) with 1%N. unfold u64_max. lia.
  - eexists. split_and!; [exact Hh'|exact Hok'|]. rewrite Hcount. change (count ([] ++ [ev])) with 1%N. lia.
Qed.
End Read.

(** C29. A reservation that succeeds takes the slot it asked for, which was
    within the goal's budget of at most fifty, and is recorded; and no reservation of the
    same slot succeeds again, on any later state of the journal - after a failed or cancelled
    run, by another process, or tried again. *)
Theorem iteration_slot_once (j j' : J) (h : history) inputs goal slot actor goal' :
  holds j h -> work_ok h -> inputs_ok inputs -> goal_fit goal -> (count h + 3 < u64_max)%N ->
  record_goal_iteration inputs goal slot actor j = (Ok goal', j') ->
  goal' = goal /\ (slot < gl_iteration_budget goal <= 50)%N /\
  gl_iterations_completed goal = (slot + 1)%N /\
  exists g, holds j' (h ++ g) /\ work_ok (h ++ g) /\ get_goal (gl_id goal) j' = (Ok (Some goal), j') /\
    forall j2 g2 inputs2 goal2 actor2,
      holds j2 ((h ++ g) ++ g2) -> work_ok ((h ++ g) ++ g2) -> inputs_ok inputs2 -> goal_fit goal2 ->
      gl_id goal2 = gl_id goal -> (count ((h ++ g) ++ g2)%list + 2 < u64_max)%N ->
      exists e, record_goal_iteration inputs2 goal2 slot actor2 j2 = (Err e, j2).
Proof.
  intros Hh Hok Hi Hfit Hle Hrun.
  destruct (record_goal_iteration_cases j h Hh Hok inputs Hi ltac:(lia) goal slot actor Hfit)
    as [[e He]|(current & Ht & Hs & Hb & Hc & Hw)]; [congruence|].
  assert (forall event, record_write h event (gl_id goal) goal -> work_batch h [event]) as Hgb.
  { intros ev Hev. by apply (goal_batch _ [] ev _ _ Hev), Forall_nil_2. }
  destruct (one_write_result j h Hh Hok inputs Hi (gl_id goal) goal goal goal' _ j' Hgb ltac:(lia) Hw Hrun)
    as (-> & g & Hh' & Hok' & Hcount & Ht').
  pose proof (goal_within_budget _ _ _ Ht') as Hbudget.
  split_and!; [done|lia|lia|done|]. exists g. split_and!; try done.
  - exact (record_ok (A:=GoalRecord) j' (h ++ g) Hh' ltac:(lia) (gl_id goal) goal Ht').
  - intros j2 g2 inputs2 goal2 actor2 Hh2 Hok2 Hi2 Hf2 Hid Hle2.
    destruct (record_goal_iteration_cases j2 _ Hh2 Hok2 inputs2 Hi2 Hle2 goal2 slot actor2 Hf2)
      as [He|(c & Htc & Hsc & _)]; [done|].
    rewrite Hid in Htc. pose proof (goal_iterations_grow (h ++ g) g2 _ _ _ Ht' Htc). lia.
Qed.

(** Nothing executes a plan that was executed or discarded. *)
Lemma final_plan_refuses (j : J) (h : history) id (p : PlanRecord) :
  holds j h -> work_ok h -> (count h + 2 < u64_max)%N ->
  record_trace id (stream_entries (plan_stream id) h) p ->
  pn_status p = PS_Executed \/ pn_status p = PS_Discarded ->
  (forall inputs plan actor, inputs_ok inputs -> plan_fit plan -> pn_id plan = id ->
     exists e, update_plan inputs plan actor j = (Err e, j)) /\
  (forall inputs goal executed actor, goal_fit goal -> plan_fit executed ->
     gl_source_plan_id goal = Some id ->
     exists e, create_goal_from_plan inputs goal executed actor j = (Err e, j)).
Proof.
  intros Hh Hok Hle Ht Hs. split.
  - intros inputs plan actor Hi Hf Hid.
    destruct (update_plan_cases j h Hh Hok inputs Hi Hle plan actor Hf) as [He|(c & ty & next & Hc & Hu & _)]; [done|].
    rewrite Hid in Hc. rewrite (trace_unique _ _ _ _ Hc Ht) in Hu. unfold plan_update in Hu.
    apply bind_Ok in Hu as ([] & _ & Hu). apply bind_Ok in Hu as ([] & _ & Hu). apply bind_Ok in Hu as (t & Htr & _).
    by destruct Hs as [Hs|Hs]; rewrite Hs in Htr.
  - intros inputs goal executed actor Hgf Hpf Hid.
    destruct (create_goal_from_plan_cases j h Hh Hok inputs Hle goal executed actor Hgf Hpf)
      as [He|(plan_id & c & next & Hsrc & Hc & Hst & _)]; [done|].
    assert (plan_id = id) as -> by congruence. rewrite (trace_unique _ _ _ _ Hc Ht) in Hst. destruct Hs; congruence.
Qed.

(** C28. A plan is executed as it was approved, and once.  When an update of a plan makes it
    executed, the plan that was recorded until then was approved, by the last event of its
    stream; the objective, the content, the steps and the time of the approval are those that
    were approved, a run is named, and the plan recorded is the one given at the next
    revision.  From then on, whatever the repositories do, the plan reads the same and
    neither an update nor a goal can write it again. *)
Theorem plan_executed_as_approved (j j' : J) (h : history) inputs plan actor out :
  holds j h -> work_ok h -> inputs_ok inputs -> plan_fit plan -> (count h + 2 < u64_max)%N ->
  update_plan inputs plan actor j = (Ok out, j') -> pn_status out = PS_Executed ->
  exists current before e v g,
    get_plan (pn_id plan) j = (Ok (Some current), j) /\ pn_status current = PS_Approved /\
    stream_entries (plan_stream (pn_id plan)) h = (before ++ [(e, v)])%list /\
    ev_event_type e = PLAN_APPROVED /\
    out = with_revision (pn_revision current + 1) plan /\
    pn_prompt out = pn_prompt current /\ pn_content out = pn_content current /\
    pn_steps out = pn_steps current /\ pn_approved_at out = pn_approved_at current /\
    pn_approved_at out <> None /\ pn_executed_run_id out <> None /\
    (count (h ++ g)%list = count h + 1)%N /\ holds j' (h ++ g) /\ work_ok (h ++ g) /\
    forall j2 g2, holds j2 ((h ++ g) ++ g2) -> work_ok ((h ++ g) ++ g2) ->
      (count ((h ++ g) ++ g2)%list + 2 < u64_max)%N ->
      get_plan (pn_id plan) j2 = (Ok (Some out), j2) /\
      (forall inputs2 plan2 actor2, inputs_ok inputs2 -> plan_fit plan2 -> pn_id plan2 = pn_id plan ->
         exists e, update_plan inputs2 plan2 actor2 j2 = (Err e, j2)) /\
      (forall inputs2 goal executed actor2, goal_fit goal -> plan_fit executed ->
         gl_source_plan_id goal = Some (pn_id plan) ->
         exists e, create_goal_from_plan inputs2 goal executed actor2 j2 = (Err e, j2)).
Proof.
  intros Hh Hok Hi Hf Hle Hrun Hex.
  destruct (update_plan_cases j h Hh Hok inputs Hi Hle plan actor Hf)
    as [[e He]|(current & ty & next & Ht & Hu & Hw)]; [congruence|].
  assert (forall event, record_write h event (pn_id plan) next -> work_batch h [event]) as Hpb.
  { intros ev Hev. by apply (plan_batch h [] ev _ _ Hev), Forall_nil_2. }
  destruct (one_write_result j h Hh Hok inputs Hi (pn_id plan) next next out _ j' Hpb ltac:(lia) Hw Hrun)
    as (-> & g & Hh' & Hok' & Hcount & Ht').
  assert (validate_plan plan = Ok tt) as Hv.
  { unfold update_plan in Hrun. rewrite op_bind_lift in Hrun. by destruct (validate_plan plan) as [[]|]. }
  destruct (plan_update_step current plan ty next Hv Hf Hu) as (Hid & Hf' & Hs & Hnext).
  destruct Hs as (Hty & Hvn & _ & _ & _ & Hp & Hap & Hc). unfold approval_kept in Hap. rewrite Hex in *.
  destruct (pn_status current) eqn:Hcs; try done. destruct Hc as [|[Hcc Hst]]; [done|].
  destruct (plan_approval_event _ _ _ Ht Hcs) as (before & e & v & Hevs & Hety).
  pose proof (lifecycle_of _ Hvn) as Hl. unfold plan_lifecycle_valid in Hl. rewrite Hex in Hl.
  apply andb_true_iff in Hl as [Hl1 Hl2].
  exists current, before, e, v, g. split_and!; try done.
  - exact (record_ok (A:=PlanRecord) j h Hh ltac:(lia) (pn_id plan) current Ht).
  - intros Hn. by rewrite Hn in Hl1.
  - intros Hn. by rewrite Hn in Hl2.
  - intros j2 g2 Hh2 Hok2 Hle2.
    pose proof (plan_final_stays (h ++ g) g2 _ _ Ht' (or_introl Hex) Hok2) as Hsame.
    assert (record_trace (pn_id plan) (stream_entries (plan_stream (pn_id plan)) ((h ++ g) ++ g2)) next) as Ht2
      by by rewrite Hsame.
    split; [exact (record_ok (A:=PlanRecord) j2 _ Hh2 ltac:(lia) (pn_id plan) next Ht2)|].
    exact (final_plan_refuses j2 _ _ _ Hh2 Hok2 Hle2 Ht2 (or_introl Hex)).
Qed.

(** What a goal's commit leaves: the two events at the end of the history, and no other. *)
Lemma two_recorded inputs (h : history) ev ev' es :
  batch_committed h inputs [ev; ev'] es -> exists e e',
    entries [ev; ev'] es = [(e, ne_payload ev); (e', ne_payload ev')] /\
    ev_stream_id e = ne_stream_id ev /\ ev_event_type e = ne_event_type ev /\
    ev_stream_id e' = ne_stream_id ev' /\ ev_event_type e' = ne_event_type ev'.
Proof.
  intros [Hr%recorded_all _]. apply Forall2_cons_inv_l in Hr as (e & es1 & He & Hr & ->).
  apply Forall2_cons_inv_l in Hr as (e' & es2 & He' & Hr & ->). apply Forall2_nil_inv_l in Hr as ->.
  exists (durable_envelope e), (durable_envelope e').
  split_and!; [done|by eapply recorded_stream|by apply recorded_type|by eapply recorded_stream|by apply recorded_type].
Qed.

(** C30. Creating a goal from a plan is atomic.  Whatever the operation answers, either it
    answers an error and the journal holds what it held, or the journal holds exactly two
    events more, the plan's execution and the goal's creation: the plan, approved until
    then, is executed by that goal, content and approval unchanged, the goal is recorded as
    given, the answer - if it is not a failure after the commit - is the two of them, and
    nothing is ever written to the plan again. *)
Theorem goal_from_plan_atomic (j : J) (h : history) inputs goal executed actor :
  holds j h -> work_ok h -> inputs_ok inputs -> goal_fit goal -> plan_fit executed ->
  (count h + 3 < u64_max)%N ->
  let '(r, j') := create_goal_from_plan inputs goal executed actor j in
  (exists e, r = Err e /\ holds j' h) \/
  exists plan_id current plan' e v e' v',
    gl_source_plan_id goal = Some plan_id /\
    get_plan plan_id j = (Ok (Some current), j) /\ pn_status current = PS_Approved /\
    holds j' (h ++ [(e, v); (e', v')]) /\ work_ok (h ++ [(e, v); (e', v')]) /\
    ev_stream_id e = plan_stream plan_id /\ ev_event_type e = PLAN_EXECUTED /\
    ev_stream_id e' = goal_stream (gl_id goal) /\
    (forall x, r = Ok x -> x = (goal, plan')) /\
    plan_step PLAN_EXECUTED current plan' /\
    pn_status plan' = PS_Executed /\ pn_executed_run_id plan' = Some (gl_id goal) /\
    get_goal (gl_id goal) j' = (Ok (Some goal), j') /\
    get_plan plan_id j' = (Ok (Some plan'), j') /\
    forall g2, work_ok ((h ++ [(e, v); (e', v')]) ++ g2) ->
      stream_entries (plan_stream plan_id) ((h ++ [(e, v); (e', v')]) ++ g2)
      = stream_entries (plan_stream plan_id) (h ++ [(e, v); (e', v')]).
Proof.
  intros Hh Hok Hi Hgf Hpf Hle.
  pose proof (create_goal_from_plan_cases j h Hh Hok inputs ltac:(lia) goal executed actor Hgf Hpf) as Hcases.
  destruct (create_goal_from_plan inputs goal executed actor j) as [r j'].
  destruct Hcases as [[e [= -> ->]]|(plan_id & current & next & Hsrc & Ht & Hst & Hstep & Hrid & ev & ev' & Hw & Hw' & Hr & Hr' & Hc)];
    [left; by exists e|].
  destruct (committed_either j h Hh Hok inputs Hi [ev; ev'] (goal, next) _ Hc)
    as [(e & He & Hs)|(Hres & es & Hb & Hh' & Hok' & Hcount)].
  { by destruct (goal_from_plan_batch h ev ev' plan_id (gl_id goal) next goal Hw Hw'). }
  { apply Forall_cons; split; [done|by apply Forall_singleton]. }
  { unfold count in *. simpl. lia. }
  { left. exists e. by split. }
  right. change (count [ev; ev']) with 2%N in Hcount. cbn [fst snd] in *.
  destruct (two_recorded _ _ _ _ _ Hb) as (e & e' & Hent & Hse & Hte & Hse' & _).
  rewrite <- (app_nil_r h) in Hb.
  assert (ne_stream_id ev' <> record_stream PlanRecord plan_id) as Hoff by (by destruct Hw' as [-> _]).
  assert (ne_stream_id ev <> record_stream GoalRecord (gl_id goal)) as Hoff' by (by destruct Hw as [-> _]).
  pose proof (record_write_ok inputs h [] [] ev [ev'] es plan_id next Hb ltac:(constructor)
    ltac:(by apply Forall_singleton) Hw) as Htp.
  pose proof (record_write_ok inputs h [] [ev] ev' [] es (gl_id goal) goal Hb
    ltac:(by apply Forall_singleton) ltac:(constructor) Hw') as Htg.
  rewrite !app_nil_r in Htp, Htg. cbn [app] in Htp, Htg. rewrite Hent in *.
  assert (pn_status next = PS_Executed) as Hex.
  { destruct Hstep as (Hty & _). rewrite Hst in Hty. by destruct (pn_status next). }
  assert (ne_event_type ev = PLAN_EXECUTED) as Hety.
  { destruct Hw as (_ & _ & _ & _ & [(_ & _ & Hinit)|(a & Ha & _ & Hs)]).
    - destruct Hinit as (_ & Hd & _). congruence.
    - destruct Hs as [Hs _]. rewrite (trace_unique _ _ _ _ Ha Ht), Hst, Hex in Hs. by injection Hs. }
  exists plan_id, current, next, e, (ne_payload ev), e', (ne_payload ev'). split_and!; try done.
  - exact (record_ok (A:=PlanRecord) j h Hh ltac:(lia) plan_id current Ht).
  - rewrite Hse. by destruct Hw as [-> _].
  - by rewrite Hte.
  - rewrite Hse'. by destruct Hw' as [-> _].
  - exact (record_ok (A:=GoalRecord) j' _ Hh' ltac:(lia) (gl_id goal) goal Htg).
  - exact (record_ok (A:=PlanRecord) j' _ Hh' ltac:(lia) plan_id next Htp).
  - intros g2. exact (plan_final_stays _ g2 _ _ Htp (or_introl Hex)).
Qed.
End Results.
