(* ===== verification/WorkListing.v ===== *)
(** * Listing work items

    The listings and the recovery pages of the work repository are exact: every item below
    the prefix once, its current record, filtered, ordered and bounded as asked. *)

From S2P Require Import Prelude Json Contracts Boundary Platform JournalStore Journal Store.
From S2P Require Import JournalModel JournalAppend ProjectionCorrect ProjectionView ProjectionHandlersCorrect StoreSpec StoreCorrect.
From S2P Require Import SessionContracts Session StoreCorrect WorkContracts Work Aggregates WorkModel WorkOps.

Open Scope string_scope.
Open Scope op_scope.

(** ** Identifiers *)

Lemma valid_id_nul id : valid_id id = true -> has_nul id = false.
Proof.
  intros Hv. apply andb_true_iff in Hv as [_ Hb]. unfold has_nul, contains_byte, all_bytes in *.
  rewrite forallb_forall in Hb. apply not_true_iff_false. intros Hex.
  apply existsb_exists in Hex as (c & Hin & Hc). apply Hb in Hin.
  assert (c = "000"%char) as -> by (by apply Ascii.eqb_eq in Hc). done.
Qed.

Lemma op_map_Forall2 {S A B} (f : A -> op S B) (s : S) l l' :
  Forall2 (fun a b => f a s = (Ok b, s)) l l' -> op_map f l s = (Ok l', s).
Proof.
  induction 1 as [|a b l l' Hab _ IH]; [done|]. cbn [op_map].
  by rewrite (op_bind_run _ _ _ _ _ Hab), (op_bind_run _ _ _ _ _ IH).
Qed.
Lemma omap_Some {A} (l : list A) : omap (fun x => x) (Some <$> l) = l.
Proof. induction l as [|a l IH]; [done|]. cbn. by f_equal. Qed.

Section Listing.
Context {A : Type} `{AggregateOk A}.
(** A creation has a valid identifier. *)
Context (Hvalid : forall v (a : A), ag_init v a -> valid_id (wr_id a) = true).
Context (Hprefix : has_nul (ag_prefix (A:=A)) = false).

Lemma trace_valid_id id evs (a : A) : record_trace id evs a -> valid_id id = true.
Proof. intros (e & v & a0 & rest & _ & _ & Hi & _ & <- & _)%trace_first. by eapply Hvalid. Qed.

(** Every stream below the prefix holds a record. *)
Lemma ids_records after h :
  records_ok A h ->
  exists all : list A,
    Forall2 (fun stream a => stream = record_stream A (wr_id a) /\ valid_id (wr_id a) = true /\
      record_trace (wr_id a) (stream_entries stream h) a) (ids_after ag_prefix after h) all.
Proof.
  intros Hok. assert (forall l, (forall s, s ∈ l -> s ∈ ids_after ag_prefix after h) -> exists all : list A,
    Forall2 (fun stream a => stream = record_stream A (wr_id a) /\ valid_id (wr_id a) = true /\
      record_trace (wr_id a) (stream_entries stream h) a) l all) as Hgo; [|by apply Hgo].
  induction l as [|s l IH]; intros Hl; [by exists []|].
  destruct IH as [all Hall]; [intros s' Hs'; apply Hl; by right|].
  pose proof (Hl s ltac:(by left)) as Hs. unfold ids_after in Hs.
  apply filter_elem in Hs as [Hin [Hp _]%andb_true_iff]. apply starts_with_spec in Hp as [id ->].
  unfold stream_ids in Hin. rewrite sort_dedup_elem in Hin.
  destruct (Hok id) as [He|[a Ht]].
  - exfalso. rewrite list_elem_of_fmap in Hin. destruct Hin as (e & Hev & Hin).
    apply list_elem_of_fmap in Hin as ([e' v] & -> & Hin). cbn in Hev.
    assert ((e', v) ∈ stream_entries (record_stream A id) h) as Hmem.
    { apply filter_elem. split; [done|]. cbn. rewrite <- Hev. apply String.eqb_refl. }
    rewrite He in Hmem. by apply not_elem_of_nil in Hmem.
  - exists (a :: all). pose proof (trace_valid_id id _ a Ht) as Hv.
    destruct (trace_last _ _ _ Ht) as (_ & _ & _ & _ & Hid & _). constructor; [|done].
    rewrite Hid. by split_and!.
Qed.
Lemma ids_nul after h :
  records_ok A h -> Forall (fun id => has_nul id = false) (ids_after ag_prefix after h).
Proof.
  intros Hok. destruct (ids_records after h Hok) as [all Hall].
  induction Hall as [|s a l all (-> & Hv & _) _ IH]; [constructor|]. constructor; [|done].
  unfold record_stream. by rewrite has_nul_append, Hprefix, valid_id_nul.
Qed.

Context {J} `{EventJournalOk J}.

(** The identifiers of the records that the listing reads. *)
Lemma ids_ok (j : J) h fuel :
  holds j h -> records_ok A h -> length (ids_after (ag_prefix (A:=A)) None h) < fuel ->
  exists all : list A,
    Forall2 (fun stream a => stream = record_stream A (wr_id a) /\ valid_id (wr_id a) = true /\
      record_trace (wr_id a) (stream_entries stream h) a) (ids_after ag_prefix None h) all /\
    Work.ids fuel ag_prefix j = (Ok (wr_id <$> all), j).
Proof.
  intros Hh Hok Hfuel. destruct (ids_records None h Hok) as [all Hall]. exists all. split; [done|].
  unfold Work.ids. rewrite (op_bind_run _ _ _ _ _ (collect_stream_ids_ok fuel ag_prefix h j Hh Hprefix
    (ids_nul None h Hok) Hfuel)), op_lift_run. f_equal.
  apply try_map_Forall2. clear Hfuel. induction Hall as [|s a l all (-> & _ & _) _ IH]; [constructor|].
  constructor; [|done]. unfold record_stream. by rewrite strip_prefix_append.
Qed.

Lemma list_records_ok (j : J) h fuel session_id keep limit :
  holds j h -> (count h + 1 < u64_max)%N -> records_ok A h ->
  length (ids_after (ag_prefix (A:=A)) None h) < fuel ->
  exists all : list A,
    Forall2 (fun stream a => stream = record_stream A (wr_id a) /\ valid_id (wr_id a) = true /\
      record_trace (wr_id a) (stream_entries stream h) a) (ids_after ag_prefix None h) all /\
    list_records fuel ag_prefix (fun id => Work.record (record_stream A id) ag_created) session_id keep limit j
    = (Ok (take (N.to_nat (clamp_limit limit)) (merge_sort newest_first
        (List.filter (fun r => is_none_or session_id (String.eqb (wr_session_id r)) && keep r) all))), j).
Proof.
  intros Hh Hm Hok Hfuel. destruct (ids_ok j h fuel Hh Hok Hfuel) as (all & Hall & Hids).
  exists all. split; [done|]. unfold list_records. rewrite (op_bind_run _ _ _ _ _ Hids).
  rewrite (op_bind_run _ _ _ (Some <$> all) j); [unfold op_ret; by rewrite omap_Some|].
  apply op_map_Forall2. clear Hids Hfuel. induction Hall as [|s a l all (-> & _ & Ht) _ IH]; [constructor|].
  constructor; [|done]. by apply (record_ok j h Hh Hm (wr_id a) a).
Qed.
End Listing.

(** The creations of all kinds have valid identifiers. *)
Ltac valid_created Hv :=
  apply reject_Ok in Hv; repeat (apply orb_false_iff in Hv as [Hv _]); by apply negb_false_iff in Hv.

Section Pages.
Context `{WorkCodecsOk} {J} `{EventJournalOk J}.

Lemma task_created_valid v (a : TaskRecord) : ag_init v a -> valid_id (wr_id a) = true.
Proof. intros Hv. unfold ag_init in Hv. cbn in Hv. unfold validate_task in Hv. valid_created Hv. Qed.
Lemma decision_created_valid v (a : KeyDecision) : ag_init v a -> valid_id (wr_id a) = true.
Proof. intros [Hv _]. unfold validate_key_decision in Hv. valid_created Hv. Qed.
Lemma plan_created_valid v (a : PlanRecord) : ag_init v a -> valid_id (wr_id a) = true.
Proof. intros [Hv _]. unfold validate_plan in Hv. valid_created Hv. Qed.
Lemma goal_created_valid v (a : GoalRecord) : ag_init v a -> valid_id (wr_id a) = true.
Proof. intros [Hv _]. unfold validate_goal in Hv. valid_created Hv. Qed.
Lemma subagent_created_valid v (a : SubagentJob) : ag_init v a -> valid_id (wr_id a) = true.
Proof. intros [Hv _]. unfold validate_subagent in Hv. valid_created Hv. Qed.

(** What a listing answers: the current records of all the kind's streams, those of the
    session and status asked for, newest first, at most so many. *)
Definition lists {A} `{Aggregate A} (h : history) (session_id : option string) (keep : A -> bool)
    (limit : N) (answer : list A) : Prop :=
  exists all : list A,
    Forall2 (fun stream a => stream = record_stream A (wr_id a) /\ valid_id (wr_id a) = true /\
      record_trace (wr_id a) (stream_entries stream h) a) (ids_after ag_prefix None h) all /\
    answer = take (N.to_nat (clamp_limit limit)) (merge_sort newest_first
      (List.filter (fun r => is_none_or session_id (String.eqb (wr_session_id r)) && keep r) all)).
(** The streams of a kind. *)
Definition streams_of (prefix : string) (h : history) : nat := length (ids_after prefix None h).

(** With fuel for the streams there are, every listing - of tasks,
    decisions, plans, goals and child-agent jobs - succeeds and is exact: the current record
    of every item, each once, filtered by the session and status asked for, newest first,
    cut to the limit, which is brought between one and a thousand. *)
Lemma listings_exact (j : J) (h : history) fuel session_id limit ts ds ps gs ss :
  holds j h -> (count h + 1 < u64_max)%N -> work_ok h ->
  streams_of "task:" h < fuel -> streams_of "decision:" h < fuel -> streams_of "plan:" h < fuel ->
  streams_of "goal:" h < fuel -> streams_of "subagent:" h < fuel ->
  (exists l, list_tasks fuel session_id ts limit j = (Ok l, j) /\
     lists h session_id (fun r => is_none_or ts (fun s => bool_decide (tk_status r = s))) limit l) /\
  (exists l, list_decisions fuel session_id ds limit j = (Ok l, j) /\
     lists h session_id (fun r => is_none_or ds (fun s => bool_decide (kd_status r = s))) limit l) /\
  (exists l, list_plans fuel session_id ps limit j = (Ok l, j) /\
     lists h session_id (fun r => is_none_or ps (fun s => bool_decide (pn_status r = s))) limit l) /\
  (exists l, list_goals fuel session_id gs limit j = (Ok l, j) /\
     lists h session_id (fun r => is_none_or gs (fun s => bool_decide (gl_status r = s))) limit l) /\
  (exists l, list_subagents fuel session_id ss limit j = (Ok l, j) /\
     lists h session_id (fun r => is_none_or ss (fun s => bool_decide (sj_status r = s))) limit l).
Proof.
  intros Hh Hm (Ht & Hd & Hp & Hg & Hs) Ft Fd Fp Fg Fs.
  destruct (list_records_ok task_created_valid eq_refl j h fuel session_id
    (fun r => is_none_or ts (fun s => bool_decide (tk_status r = s))) limit Hh Hm Ht Ft) as (t & ? & ?).
  destruct (list_records_ok decision_created_valid eq_refl j h fuel session_id
    (fun r => is_none_or ds (fun s => bool_decide (kd_status r = s))) limit Hh Hm Hd Fd) as (d & ? & ?).
  destruct (list_records_ok plan_created_valid eq_refl j h fuel session_id
    (fun r => is_none_or ps (fun s => bool_decide (pn_status r = s))) limit Hh Hm Hp Fp) as (p & ? & ?).
  destruct (list_records_ok goal_created_valid eq_refl j h fuel session_id
    (fun r => is_none_or gs (fun s => bool_decide (gl_status r = s))) limit Hh Hm Hg Fg) as (g & ? & ?).
  destruct (list_records_ok subagent_created_valid eq_refl j h fuel session_id
    (fun r => is_none_or ss (fun s => bool_decide (sj_status r = s))) limit Hh Hm Hs Fs) as (s & ? & ?).
  split_and!; (eexists; split; [eassumption|by eexists]).
Qed.

(** ** Recovery pages *)

Lemma subagent_last_type id evs (a : SubagentJob) e v :
  record_trace id evs a -> last evs = Some (e, v) ->
  ev_event_type e = SUBAGENT_CREATED \/ ev_event_type e = SUBAGENT_UPDATED.
Proof.
  destruct 1 as [e0 v0 a He|evs a e0 v0 b Ht Hg Hid Hfit (Hty & _)].
  - intros [= <- <-]. by left.
  - rewrite last_app. intros [= <- <-]. by right.
Qed.
Lemma subagent_valid id evs (a : SubagentJob) : record_trace id evs a -> validate_subagent a = Ok tt.
Proof. by destruct 1 as [? ? ? ? ? ? ? [? _]|? ? ? ? ? ? ? ? ? (_ & ? & _)]. Qed.

(** An entry of a recovery page: a job, and the snapshot its creation names. *)
Definition recovers (h : history) (stream : string) (entry : SubagentJob * option string) : Prop :=
  stream = subagent_stream (sj_id entry.1) /\
  record_trace (sj_id entry.1) (stream_entries stream h) entry.1 /\
  exists e v rest, stream_entries stream h = (e, v) :: rest /\ snapshot_of v entry.2.

Section Page.
Context (reference_error : value -> string).
Context (j : J) (h : history) (Hh : holds j h) (Hm : (count h + 1 < u64_max)%N) (Hok : work_ok h).

(** The bounded reads of a page: a stream's first event and its last. *)
Lemma first_read id (a : SubagentJob) :
  record_trace id (stream_entries (subagent_stream id) h) a ->
  exists e v rest reference, stream_entries (subagent_stream id) h = (e, v) :: rest /\
    ej_read_stream_from (subagent_stream id) 0 1 j = (Ok [e], j) /\
    ev_stream_id e = subagent_stream id /\ ev_stream_version e = 1%N /\
    ev_event_type e = SUBAGENT_CREATED /\ ej_decrypt_payload e j = (Ok v, j) /\ snapshot_of v reference.
Proof.
  intros Ht.
  destruct (trace_first _ _ _ Ht) as (e & v & a0 & rest & Hevs & He & (_ & _ & reference & Hsn) & _).
  exists e, v, rest, reference. split; [done|].
  assert (ev_stream_id e = subagent_stream id /\ ev_stream_version e = 1%N) as [Hs Hver].
  { apply (chain_stream_lookup (subagent_stream id) h.*1 0 e); [by eapply holds_chain|].
    by rewrite <- stream_entries_fst, Hevs. }
  split_and!; try done.
  - by rewrite (ej_read_stream_from_ok j h (subagent_stream id) 0 1 Hh Hm), Hevs.
  - assert ((e, v) ∈ stream_entries (subagent_stream id) h) as [Hin _]%filter_elem by (rewrite Hevs; left).
    by eapply ej_decrypt_payload_ok.
Qed.
Lemma last_read id (a : SubagentJob) :
  record_trace id (stream_entries (subagent_stream id) h) a ->
  exists e v, ej_read_stream_backwards (subagent_stream id) None 1 j = (Ok [e], j) /\
    ev_stream_id e = subagent_stream id /\
    String.eqb (ev_event_type e) SUBAGENT_CREATED || String.eqb (ev_event_type e) SUBAGENT_UPDATED = true /\
    ej_decrypt_payload e j = (Ok v, j) /\ get "record" v = Some (record_to_value a).
Proof.
  intros Ht. destruct (trace_last _ _ _ Ht) as (e & v & Hl & Hg & _). exists e, v.
  pose proof (last_Some_elem_of _ _ Hl) as [Hin Hs]%filter_elem. split_and!.
  - rewrite (ej_read_stream_backwards_ok j h (subagent_stream id) None 1 Hh Hm).
    apply last_Some in Hl as [front Hf]. by rewrite Hf, fmap_app, rev_app_distr.
  - by apply String.eqb_eq in Hs.
  - destruct (subagent_last_type _ _ _ _ _ Ht Hl) as [->| ->]; by rewrite String.eqb_refl, ?orb_true_r.
  - by eapply ej_decrypt_payload_ok.
  - done.
Qed.

Lemma recovery_stream_ok previous id :
  valid_id id = true -> is_none_or previous (fun p => str_ltb p (subagent_stream id)) = true ->
  recovery_stream previous (subagent_stream id) = Ok id.
Proof.
  intros Hv Hprev. unfold recovery_stream.
  assert (strip_prefix "subagent:" (subagent_stream id) = Some id) as -> by apply strip_prefix_append.
  cbn [mbind option_bind]. rewrite Hv. cbn [ok_or mbind result_bind].
  assert (is_none_or previous (fun p => negb (str_leb (subagent_stream id) p)) = true) as ->; [|done].
  destruct previous as [p|]; [|done]. cbn in Hprev |- *. by rewrite <- ltb_leb.
Qed.
Lemma recovery_entry_ok previous id (a : SubagentJob) :
  record_trace id (stream_entries (subagent_stream id) h) a -> valid_id id = true ->
  is_none_or previous (fun p => str_ltb p (subagent_stream id)) = true ->
  exists entry, recovery_entry reference_error previous (subagent_stream id) j = (Ok entry, j) /\
    recovers h (subagent_stream id) entry.
Proof.
  intros Ht Hv Hprev.
  destruct (first_read id a Ht) as (e & v & rest & reference & Hevs & Hread & Hs & Hver & He & Hd & Hget & Href).
  destruct (last_read id a Ht) as (e' & v' & Hread' & Hs' & Hty & Hd' & Hg).
  destruct (trace_last _ _ _ Ht) as (_ & _ & _ & _ & Hid & _). change (sj_id a = id) in Hid.
  exists (a, reference). split; [|split_and!; cbn [fst snd]; [by rewrite Hid|by rewrite Hid|by exists e, v, rest]].
  unfold recovery_entry. rewrite op_bind_lift, (recovery_stream_ok _ _ Hv Hprev).
  rewrite (op_bind_run _ _ _ _ _ Hread), (op_bind_run _ _ _ _ _ Hread'). cbn [head mbind option_bind].
  rewrite op_bind_lift, Hs, Hver, He, !String.eqb_refl. change ((1 =? 1)%N) with true. cbn [andb ok_or].
  rewrite op_bind_lift, Hs', Hty, !String.eqb_refl. cbn [andb ok_or].
  rewrite (op_bind_run _ _ _ _ _ Hd'), op_bind_lift, Hg. cbn [ok_or mbind result_bind].
  assert (record_from_value (record_to_value a) = Ok a) as -> by exact (record_roundtrip (A:=SubagentJob) a I).
  cbn [map_err]. rewrite op_bind_lift, (subagent_valid _ _ _ Ht), op_bind_lift.
  rewrite Hid, String.eqb_refl. cbn [negb reject]. rewrite (op_bind_run _ _ _ _ _ Hd), op_bind_lift, Hget.
  assert (reference_from_value reference_error (default Null (Some
    (match reference with Some id => Str id | None => Null end))) = Ok reference) as -> by (by destruct reference).
  cbn [map_err]. by rewrite op_bind_lift, Href.
Qed.

Lemma recovery_entries_ok previous streams (all : list SubagentJob) :
  Forall2 (fun stream a => stream = subagent_stream (sj_id a) /\ valid_id (sj_id a) = true /\
    record_trace (sj_id a) (stream_entries stream h) a) streams all ->
  ascending streams -> is_none_or previous (fun p => forallb (str_ltb p) streams) = true ->
  exists entries, recovery_entries reference_error previous streams j = (Ok entries, j) /\
    Forall2 (recovers h) streams entries.
Proof.
  intros Hall. revert previous. induction Hall as [|s a streams all (-> & Hv & Ht) _ IH]; intros previous Hs Hp.
  { by exists []. }
  inversion Hs as [|? ? Hs' Hle]; subst.
  destruct (recovery_entry_ok previous (sj_id a) a Ht Hv) as (entry & He & Hr).
  { destruct previous; [|done]. cbn in Hp |- *. by apply andb_true_iff in Hp as [-> _]. }
  destruct (IH (Some (subagent_stream (sj_id a))) Hs') as (entries & Hes & Hrs).
  { cbn. apply forallb_forall. intros s Hin. rewrite Forall_forall in Hle. by apply Hle, list_elem_of_In. }
  exists (entry :: entries). cbn [recovery_entries]. split; [|by constructor].
  by rewrite (op_bind_run _ _ _ _ _ He), (op_bind_run _ _ _ _ _ Hes).
Qed.

(** A recovery page after a valid cursor (or from the start) answers
    with the next jobs in the order of their identifiers, as many as there are up to the
    limit and a thousand: each job's current record and the instruction snapshot its
    creation names. No stream below the prefix makes it fail. *)
Lemma recovery_page_exact after limit :
  is_none_or after valid_id = true ->
  exists entries, page reference_error after limit j = (Ok entries, j) /\
    Forall2 (recovers h) (take (N.to_nat (N.min limit MAX_LIST))
      (ids_after "subagent:" (subagent_stream <$> after) h)) entries.
Proof.
  intros Ha. unfold page. rewrite op_bind_lift, Ha. cbn [negb reject].
  destruct (N.eqb_spec (N.min limit MAX_LIST) 0) as [->|Hne]; [by exists []|].
  set (cursor := _ <$> after). change (_ <$> after) with cursor.
  assert (forall c, cursor = Some c -> has_nul c = false /\ starts_with c "subagent:" = true) as Hcur.
  { intros c Hc. unfold cursor in Hc. destruct after as [id|]; [|done]. injection Hc as <-. cbn in Ha.
    split; [by rewrite has_nul_append, (valid_id_nul id Ha)|]. apply starts_with_spec. by exists id. }
  rewrite (op_bind_run _ _ _ _ _ (ej_list_stream_ids_ok j h "subagent:" cursor _ Hh eq_refl Hcur)).
  assert (N.min (N.min limit MAX_LIST) MAX_STREAM_LIST_BATCH = N.min limit MAX_LIST) as ->
    by (unfold MAX_LIST, MAX_STREAM_LIST_BATCH; lia).
  set (streams := take _ _). rewrite op_bind_lift.
  assert ((N.min limit MAX_LIST <? count streams)%N = false) as ->.
  { apply N.ltb_ge. unfold count, streams. rewrite length_take. lia. }
  cbn [reject]. destruct (ids_records subagent_created_valid cursor h) as [all Hall]; [apply Hok|].
  assert (ascending (ids_after "subagent:" cursor h)) as Hs by apply filter_ascending, sort_dedup_ascending.
  apply (recovery_entries_ok cursor streams (take (N.to_nat (N.min limit MAX_LIST)) all)).
  - by apply Forall2_take.
  - unfold streams. rewrite <- (take_drop (N.to_nat (N.min limit MAX_LIST)) (ids_after "subagent:" cursor h)) in Hs.
    by apply StronglySorted_app in Hs as (_ & Hs & _).
  - destruct cursor as [c|] eqn:Hc; [|done]. cbn. apply forallb_forall. intros s Hin.
    apply list_elem_of_In, elem_of_take in Hin as (i & Hi & _). apply list_elem_of_lookup_2, filter_elem in Hi.
    by destruct Hi as [_ [_ Hlt]%andb_true_iff].
Qed.
End Page.
End Pages.
