(* ===== verification/CommunicationModel.v ===== *)
(** * What the communication streams mean

    The streams as lists of the values they hold.  [comm_wf] relates them: what is pending
    in an inbox, the receipts of the messages, the order of the inbox, the accounts of its
    scope, the attempts of a job.  [comm_write] are the batches of the service, as what
    they were prepared from and the events they append. *)

From S2P Require Import Prelude Json Contracts Boundary Platform JournalStore Journal Store.
From S2P Require Import JournalModel JournalAppend StoreSpec StoreCorrect SessionContracts Session.
From S2P Require Import WorkContracts Work WorkService Communication.

Open Scope string_scope.

(** ** Sums *)

Definition sum_by {A} (f : A -> N) (l : list A) : N := foldr (fun a n => (f a + n)%N) 0%N l.
Lemma sum_by_app {A} (f : A -> N) l l' : sum_by f (l ++ l') = (sum_by f l + sum_by f l')%N.
Proof. induction l as [|a l IH]; simpl; [done|]. rewrite IH. lia. Qed.
Lemma sum_by_ext {A} (f g : A -> N) l : (forall a, a ∈ l -> f a = g a) -> sum_by f l = sum_by g l.
Proof.
  induction l as [|a l IH]; intros Hfg; [done|]. simpl. rewrite (Hfg a) by left.
  rewrite IH; [done|]. intros b Hb. apply Hfg. by right.
Qed.
(** One term changes. *)
Lemma sum_by_change {A} (f g : A -> N) l a :
  NoDup l -> a ∈ l -> (forall b, b <> a -> f b = g b) -> (sum_by f l + g a = sum_by g l + f a)%N.
Proof.
  induction l as [|b l IH]; intros Hnd Hin Hfg; [by apply elem_of_nil in Hin|].
  apply NoDup_cons in Hnd as [Hb Hnd]. apply elem_of_cons in Hin as [->|Hin]; simpl.
  - rewrite (sum_by_ext f g l); [lia|]. intros c Hc. apply Hfg. by intros ->.
  - specialize (IH Hnd Hin Hfg). assert (b <> a) as Hne by (by intros ->). rewrite (Hfg b Hne). lia.
Qed.
Lemma sum_by_le {A} (f : A -> N) l a : a ∈ l -> (f a <= sum_by f l)%N.
Proof.
  induction l as [|b l IH]; intros Hin; [by apply elem_of_nil in Hin|].
  apply elem_of_cons in Hin as [->|Hin]; simpl; [lia|]. specialize (IH Hin). lia.
Qed.

(** ** Streams of values *)

Definition store := string -> list value.
Definition store_of (h : history) : store := fun s => (stream_entries s h).*2.
(** The values a batch appends to a stream. *)
Definition written_to (s : string) (batch : list NewEvent) : list value :=
  ne_payload <$> List.filter (fun e => String.eqb (ne_stream_id e) s) batch.
Definition append_to (σ : store) (batch : list NewEvent) : store := fun s => (σ s ++ written_to s batch)%list.

Lemma written_app s b b' : written_to s (b ++ b') = (written_to s b ++ written_to s b')%list.
Proof. unfold written_to. by rewrite List.filter_app, fmap_app. Qed.
Lemma written_off s batch : Forall (fun e => ne_stream_id e <> s) batch -> written_to s batch = [].
Proof.
  intros Hf. unfold written_to. rewrite filter_none; [done|]. eapply Forall_impl; [exact Hf|].
  intros e. apply String.eqb_neq.
Qed.

(** The first event of a batch on a stream names the stream's version. *)
Definition at_version (σ : store) (batch : list NewEvent) : Prop := forall l1 e l2,
  batch = (l1 ++ e :: l2)%list -> Forall (fun e' => ne_stream_id e' <> ne_stream_id e) l1 ->
  ne_expected_stream_version e = count (σ (ne_stream_id e)).
Lemma at_version_empty σ batch l1 e l2 :
  at_version σ batch -> batch = (l1 ++ e :: l2)%list ->
  Forall (fun e' => ne_stream_id e' <> ne_stream_id e) l1 -> ne_expected_stream_version e = 0%N ->
  σ (ne_stream_id e) = [].
Proof.
  intros Hv Hb Hf He. pose proof (Hv l1 e l2 Hb Hf) as Hc. rewrite He in Hc.
  destruct (σ (ne_stream_id e)); [done|]. unfold count in Hc. simpl in Hc. lia.
Qed.

(** *** Records *)

Section Records.
Context {A : Type} `{RecordCodec A}.
Definition decode (v : value) : option A :=
  match record_from_value v with Ok a => Some a | Err _ => None end.
Definition latest (l : list value) : option A := last l ≫= decode.
End Records.
Class RecordOk (A : Type) `{RecordCodec A} (fit : A -> Prop) : Prop := {
  stored_roundtrip : forall a, fit a -> record_from_value (record_to_value a) = Ok a;
  stored_storable : forall a, fit a -> parseable (record_to_value a) /\ exact_json (record_to_value a) = true;
}.
Section RecordsOk.
Context {A : Type} `{RecordOk A fit}.
(** Every value is that of a record in range. *)
Definition typed_as (l : list value) : Prop := Forall (fun v => exists a, v = record_to_value a /\ fit a) l.
Lemma decode_stored a : fit a -> decode (record_to_value a) = Some a.
Proof. intros Ha. unfold decode. by rewrite (stored_roundtrip a Ha). Qed.
Lemma latest_snoc l a : fit a -> latest (l ++ [record_to_value a]) = Some a.
Proof. intros Ha. unfold latest. rewrite last_snoc. by apply decode_stored. Qed.
Lemma typed_last l v : typed_as l -> last l = Some v -> exists a, v = record_to_value a /\ latest l = Some a /\ fit a.
Proof.
  intros Ht Hl. pose proof (last_Some_elem_of _ _ Hl) as Hin.
  destruct (proj1 (Forall_forall _ _) Ht v Hin) as (a & -> & Ha). exists a. split_and!; [done| |done].
  unfold latest. rewrite Hl. by apply decode_stored.
Qed.
Lemma typed_latest l : typed_as l -> l = [] \/ exists a, last l = Some (record_to_value a) /\ latest l = Some a /\ fit a.
Proof.
  intros Ht. destruct (last l) as [v|] eqn:Hl; [right|left; by apply last_None].
  destruct (typed_last l v Ht Hl) as (a & -> & Ha & Hf). by exists a.
Qed.
Lemma latest_fit l a : typed_as l -> latest l = Some a -> fit a.
Proof.
  intros Ht Hl. destruct (typed_latest l Ht) as [->|(b & _ & Hb & Hf)]; [done|].
  assert (a = b) as -> by congruence. done.
Qed.
Lemma typed_snoc l a : typed_as l -> fit a -> typed_as (l ++ [record_to_value a]).
Proof. intros Ht Ha. apply Forall_app. split; [done|]. apply Forall_singleton. by exists a. Qed.
Lemma typed_single_record a : fit a -> typed_as [record_to_value a].
Proof. intros Ha. apply Forall_singleton. by exists a. Qed.
(** Written once. *)
Definition single_as (l : list value) : Prop := l = [] \/ exists a, fit a /\ l = [record_to_value a].
Lemma single_typed l : single_as l -> typed_as l.
Proof. intros [->|(a & Ha & ->)]; [apply Forall_nil_2|by apply typed_single_record]. Qed.
Lemma single_if l (b : bool) a :
  fit a -> (b = true -> l = []) -> single_as l -> single_as (l ++ (if b then [record_to_value a] else [])).
Proof. intros Ha Hl Hs. destruct b; [rewrite Hl by done; right; by exists a|by rewrite app_nil_r]. Qed.
(** A later list keeps a record that is written once. *)
Lemma single_later l l' a : (exists k, l' = (l ++ k)%list) -> single_as l' -> latest l = Some a -> latest l' = Some a.
Proof.
  intros [k ->] Hs Ha. destruct l as [|v l]; [done|]. destruct Hs as [Hs|(b & _ & Hs)]; [done|].
  injection Hs as -> Hs. by apply app_eq_nil in Hs as [-> ->].
Qed.
End RecordsOk.
Arguments typed_as {A _} fit l.
Arguments single_as {A _} fit l.

(** Numbers in the range of their types. *)
Definition participant_fit (s : ParticipantState) : Prop :=
  let p := pt_participant s in
  (ap_generation p <= u64_max)%N /\ (ap_pending_messages p <= u64_max)%N /\
  (ap_pending_bytes p <= u64_max)%N /\ (pt_accepted s <= u64_max)%N /\
  Forall (fun i => pi_bytes i <= u64_max)%N (pt_pending s).
Definition scope_fit (s : ScopeState) : Prop :=
  (sc_accepted s <= u64_max)%N /\ (sc_pending_bytes s <= u64_max)%N.
Definition receipt_fit (r : AgentMessageReceipt) : Prop :=
  match r with IncludedInTurn _ turn _ => (turn <= 65535)%N | _ => True end.
Definition message_fit (m : AgentMessage) : Prop :=
  (am_sequence m <= u64_max)%N /\ receipt_fit (am_receipt m).
Definition index_fit (i : AttemptIndex) : Prop := (ai_generation i <= u64_max)%N.
Class CommunicationCodecsOk `{RecordCodec ParticipantState, RecordCodec ScopeState, RecordCodec AttemptIndex,
  RecordCodec MessageClaim, RecordCodec AgentMessage} : Prop := {
  #[global] participant_codec_ok :: RecordOk ParticipantState participant_fit;
  #[global] scope_codec_ok :: RecordOk ScopeState scope_fit;
  #[global] index_codec_ok :: RecordOk AttemptIndex index_fit;
  #[global] claim_codec_ok :: RecordOk MessageClaim (fun _ => True);
  #[global] message_codec_ok :: RecordOk AgentMessage message_fit;
}.

(** ** The invariant *)

Section Model.
Context `{Externals} `{CommunicationCodecsOk}.

(** The latest records; scopes, runs and jobs by the hash their streams are named with. *)
Definition scope_stream (k : string) : string := "agent-scope:" ++s k.
Definition run_key_stream (k : string) : string := "agent-run:" ++s k.
Definition job_key_stream (k : string) : string := "agent-job:" ++s k.
Definition part (σ : store) (id : string) : option ParticipantState := latest (σ (participant_stream id)).
Definition scop (σ : store) (k : string) : option ScopeState := latest (σ (scope_stream k)).
Definition mess (σ : store) (id : string) : option AgentMessage := latest (σ (message_stream id)).

Definition identity (s : ParticipantState) :=
  let p := pt_participant s in
  (ap_id p, ap_root_run_id p, ap_owner p, ap_session_id p, ap_parent_id p, ap_subagent_id p,
   ap_generation p, ap_created_at p, pt_initial_origin s).
Definition root_of (s : ParticipantState) : string := ap_root_run_id (pt_participant s).
Definition is_open (s : ParticipantState) : bool := ap_open (pt_participant s).
Definition pending_ids (s : ParticipantState) : list string := pi_id <$> pt_pending s.
(** What a later state of a participant keeps. *)
Definition evolves (a b : ParticipantState) : Prop :=
  identity b = identity a /\ (is_open a = false -> is_open b = false) /\ (pt_accepted a <= pt_accepted b)%N.

(** Whom a sender may be: the owning application, or a participant of the same scope that
    is the recipient's parent or child. *)
Definition sender_ok (σ : store) (m : AgentMessage) (s : ParticipantState) : Prop :=
  match am_sender m with
  | Participant pid => exists q, part σ pid = Some q /\ root_of q = root_of s /\
      (ap_parent_id (pt_participant s) = Some pid \/ ap_parent_id (pt_participant q) = Some (am_recipient_id m))
  | ApplicationSender id => id = actor_id (ap_owner (pt_participant s))
  end.
Definition participant_ok (σ : store) (id : string) (s : ParticipantState) : Prop :=
  let p := pt_participant s in
  ap_id p = id /\
  ap_pending_messages p = count (pt_pending s) /\ ap_pending_bytes p = sum_by pi_bytes (pt_pending s) /\
  (count (pt_pending s) <= MAX_AGENT_INBOX_MESSAGES)%N /\ (ap_pending_bytes p <= MAX_AGENT_INBOX_BYTES)%N /\
  (ap_open p = false -> pt_pending s = []) /\ ap_open p = is_none (ap_closed_reason p) /\
  Forall (fun i => exists m, mess σ (pi_id i) = Some m /\ am_receipt m = Accepted /\
            am_recipient_id m = id /\ slen (am_text m) = pi_bytes i) (pt_pending s) /\
  exists sc, scop σ (sha256_hex (ap_root_run_id p)) = Some sc /\ sc_root_run_id sc = ap_root_run_id p /\
    id ∈ sc_participants sc.
Definition bytes_of (σ : store) (id : string) : N :=
  match part σ id with Some s => ap_pending_bytes (pt_participant s) | None => 0 end.
Definition accepted_of (σ : store) (id : string) : N :=
  match part σ id with Some s => pt_accepted s | None => 0 end.
Definition scope_ok (σ : store) (k : string) (sc : ScopeState) : Prop :=
  k = sha256_hex (sc_root_run_id sc) /\
  NoDup (sc_participants sc) /\ (count (sc_participants sc) <= MAX_SCOPE_PARTICIPANTS)%N /\
  sc_accepted sc = sum_by (accepted_of σ) (sc_participants sc) /\ (sc_accepted sc <= MAX_SCOPE_MESSAGES)%N /\
  sc_pending_bytes sc = sum_by (bytes_of σ) (sc_participants sc) /\
  (sc_pending_bytes sc <= MAX_SCOPE_PENDING_BYTES)%N /\
  Forall (fun id => exists s, part σ id = Some s /\ root_of s = sc_root_run_id sc /\
            ap_owner (pt_participant s) = sc_owner sc) (sc_participants sc).
Definition message_ok (σ : store) (id : string) (m : AgentMessage) : Prop :=
  am_id m = id /\ (1 <= slen (am_text m) <= MAX_AGENT_MESSAGE_BYTES)%N /\
  exists s, part σ (am_recipient_id m) = Some s /\ root_of s = am_root_run_id m /\
    (am_receipt m = Accepted -> id ∈ pending_ids s) /\ sender_ok σ m s.
(** The inbox of a participant: every message it was ever sent, in order; what is pending
    are the last of them. *)
Definition inbox_ok (σ : store) (id : string) : Prop :=
  exists ids, σ (inbox_stream id) = Str <$> ids /\ count ids = accepted_of σ id /\
    (forall n mid, ids !! n = Some mid -> exists m, mess σ mid = Some m /\ am_recipient_id m = id /\
       am_sequence m = (N.of_nat n + 1)%N) /\
    forall s, part σ id = Some s -> exists settled, ids = (settled ++ pending_ids s)%list.
(** A message is admitted, and settled at most once. *)
Definition message_run (l : list value) : Prop :=
  l = [] \/ exists m, am_receipt m = Accepted /\ message_fit m /\
    (l = [record_to_value m] \/
     exists r, r <> Accepted /\ receipt_fit r /\ l = [record_to_value m; record_to_value (with_receipt r m)]).
(** The attempts of a job: numbered in order, and all but the last are closed. *)
Definition job_ok (σ : store) (l : list value) : Prop :=
  forall n i, (l !! n ≫= decode (A:=AttemptIndex)) = Some i ->
    ai_generation i = (N.of_nat n + 1)%N /\
    exists s, part σ (ai_participant_id i) = Some s /\ (S n < length l -> is_open s = false).

(** The attempt an execution is bound to. *)
Definition runs_as (σ : store) (run_id id : string) : Prop :=
  exists i, latest (A:=AttemptIndex) (σ (run_stream run_id)) = Some i /\ ai_participant_id i = id.

Record comm_wf (σ : store) : Prop := {
  wf_participants : forall id, typed_as participant_fit (σ (participant_stream id));
  wf_scopes : forall k, typed_as scope_fit (σ (scope_stream k));
  wf_runs : forall k, single_as index_fit (σ (run_key_stream k));
  wf_jobs : forall k, typed_as index_fit (σ (job_key_stream k));
  wf_claims : forall k, single_as (fun _ : MessageClaim => True) (σ ("agent-message-key:" ++s k));
  wf_feeds : forall k, typed_as message_fit (σ ("agent-feed:" ++s k));
  wf_messages : forall id, message_run (σ (message_stream id));
  wf_participant : forall id s, part σ id = Some s -> participant_ok σ id s;
  wf_scope : forall k sc, scop σ k = Some sc -> scope_ok σ k sc;
  wf_message : forall id m, mess σ id = Some m -> message_ok σ id m;
  wf_inbox : forall id, inbox_ok σ id;
  wf_job : forall k, job_ok σ (σ (job_key_stream k));
  wf_run : forall k i, latest (A:=AttemptIndex) (σ (run_key_stream k)) = Some i ->
    exists s, part σ (ai_participant_id i) = Some s;
  wf_bound : forall id s run_id, part σ id = Some s -> ap_run_id (pt_participant s) = Some run_id ->
    runs_as σ run_id id;
  wf_names : forall id, σ (participant_stream id) <> [] -> has_nul id = false;
  wf_tokens : forall id, σ (message_stream id) <> [] -> valid_token id = true;
  wf_evolves : forall id s v a, part σ id = Some s -> v ∈ σ (participant_stream id) ->
    decode v = Some a -> evolves a s;
}.

(** ** Batches *)

(** The receipts of some messages. *)
Fixpoint settle_events (σ : store) (sc : ScopeState) (context : ExecutionContext) (r : AgentMessageReceipt)
    (feed_version : N) (ms : list AgentMessage) : list NewEvent :=
  match ms with
  | [] => []
  | m :: ms =>
      (receipt_events sc context (with_receipt r m) (count (σ (message_stream (am_id m)))) feed_version
       ++ settle_events σ sc context r (feed_version + 1) ms)%list
  end.
(** The first [n] pending inputs are taken off, and the rest stays or is closed. *)
Definition settled_to (n : nat) (s s' : ParticipantState) : Prop :=
  identity s' = identity s /\ pt_pending s' = drop n (pt_pending s) /\ pt_accepted s' = pt_accepted s /\
  ap_pending_messages (pt_participant s') = count (pt_pending s') /\
  ap_pending_bytes (pt_participant s') = sum_by pi_bytes (pt_pending s') /\
  is_open s' = is_none (ap_closed_reason (pt_participant s')) /\
  (is_open s' = false -> pt_pending s' = []) /\
  ap_run_id (pt_participant s') = ap_run_id (pt_participant s).

Inductive comm_write (σ : store) : list NewEvent -> Prop :=
| cw_root run_id owner context session_id id origin created_at :
    has_nul id = false ->
    comm_write σ
      [event (root_stream run_id) 0 "scope" owner context (mkScopeState run_id owner [id] 0 0);
       event (participant_stream id) 0 "participant" owner context
         (mkParticipantState (new_participant id run_id owner session_id None None 1 created_at) [] 0 origin);
       event (run_stream run_id) 0 "run" owner context (mkAttemptIndex id 1)]
| cw_bind id s run_id owner context indexes :
    part σ id = Some s -> is_open s = true ->
    (indexes = [] /\ runs_as σ run_id id \/ exists i, ai_participant_id i = id /\ index_fit i /\
       indexes = [event (run_stream run_id) 0 "run" owner context i]) ->
    comm_write σ (event (participant_stream id) (count (σ (participant_stream id))) "bound" owner context
                    (with_run_id run_id s) :: indexes)
| cw_child pid parent sc job_id id session_id origin created_at owner context :
    has_nul id = false ->
    part σ pid = Some parent -> owner = ap_owner (pt_participant parent) ->
    scop σ (sha256_hex (root_of parent)) = Some sc -> sc_root_run_id sc = root_of parent ->
    (count (sc_participants sc) < MAX_SCOPE_PARTICIPANTS)%N ->
    (forall i, latest (A:=AttemptIndex) (σ (job_stream job_id)) = Some i ->
       exists q, part σ (ai_participant_id i) = Some q /\ is_open q = false) ->
    let generation := (count (σ (job_stream job_id)) + 1)%N in
    comm_write σ
      [event (root_stream (sc_root_run_id sc)) (count (σ (root_stream (sc_root_run_id sc)))) "scope" owner context
         (mkScopeState (sc_root_run_id sc) (sc_owner sc) (sc_participants sc ++ [id]) (sc_accepted sc)
            (sc_pending_bytes sc));
       event (participant_stream id) 0 "participant" owner context
         (mkParticipantState (new_participant id (root_of parent) owner session_id (Some pid) (Some job_id)
            generation created_at) [] 0 origin);
       event (job_stream job_id) (count (σ (job_stream job_id))) "attempt" owner context
         (mkAttemptIndex id generation)]
| cw_admit id s sc m k fingerprint owner feed_version :
    part σ id = Some s -> is_open s = true -> scop σ (sha256_hex (root_of s)) = Some sc ->
    am_recipient_id m = id -> am_root_run_id m = root_of s -> am_receipt m = Accepted ->
    am_sequence m = (pt_accepted s + 1)%N -> (1 <= slen (am_text m) <= MAX_AGENT_MESSAGE_BYTES)%N ->
    sender_ok σ m s -> inbox_full s sc (am_text m) = false -> valid_token (am_id m) = true ->
    comm_write σ (admission_events owner ("agent-message-key:" ++s k) fingerprint s
                    (count (σ (participant_stream id))) sc (count (σ (root_stream (root_of s)))) feed_version m)
| cw_settle id s s' sc r n ms context kind feed_version :
    part σ id = Some s -> is_open s = true -> scop σ (sha256_hex (root_of s)) = Some sc ->
    sc_root_run_id sc = root_of s -> r <> Accepted -> receipt_fit r -> n <= length (pt_pending s) ->
    Forall2 (fun i m => mess σ (pi_id i) = Some m) (take n (pt_pending s)) ms -> settled_to n s s' ->
    comm_write σ (settle_events σ sc context r feed_version ms ++
      [event (participant_stream id) (count (σ (participant_stream id))) kind (sc_owner sc) context s';
       event (root_stream (sc_root_run_id sc)) (count (σ (root_stream (sc_root_run_id sc)))) "scope"
         (sc_owner sc) context
         (with_pending_bytes (sc_pending_bytes sc - sum_by pi_bytes (take n (pt_pending s))) sc)])%list.
End Model.
