(* ===== verification/CommunicationStep.v ===== *)
(** * What a write to one inbox leaves alone

    Every batch of the communication service writes at most one participant, the scope it
    belongs to, and messages sent to it.  [local_update] says so; [local_wf] reduces the
    invariant after such a write to what it says of that participant, that scope and those
    messages. *)

From S2P Require Import Prelude Json Contracts Boundary Platform JournalStore Journal Store.
From S2P Require Import SessionContracts WorkContracts Session Work WorkService Communication JournalModel JournalAppend.
From S2P Require Import StoreSpec StoreCorrect CommunicationModel.

Open Scope string_scope.

Section Frame.
Context `{Externals} `{CommunicationCodecsOk}.

Lemma evolves_refl s : evolves s s.
Proof. by split_and!. Qed.
Lemma evolves_trans a b c : evolves a b -> evolves b c -> evolves a c.
Proof. intros (Hi & Ho & Ha) (Hi' & Ho' & Ha'). split_and!; [congruence|auto|lia]. Qed.
Lemma evolves_root a b : evolves a b -> root_of b = root_of a.
Proof. intros [Hi _]. unfold identity in Hi. unfold root_of. congruence. Qed.
Lemma evolves_parent a b :
  evolves a b -> ap_parent_id (pt_participant b) = ap_parent_id (pt_participant a).
Proof. intros [Hi _]. unfold identity in Hi. congruence. Qed.
Lemma evolves_owner a b : evolves a b -> ap_owner (pt_participant b) = ap_owner (pt_participant a).
Proof. intros [Hi _]. unfold identity in Hi. congruence. Qed.

Lemma part_name σ id s : comm_wf σ -> part σ id = Some s -> has_nul id = false.
Proof. intros Hwf Hs. apply (wf_names σ Hwf). unfold part, latest in Hs. intros He. by rewrite He in Hs. Qed.

(** The key of a participant's scope. *)
Definition scope_key (s : ParticipantState) : string := sha256_hex (root_of s).

(** [σ2] is [σ] with the participant [id] at [s'], its scope at [sc'], and messages sent to
    it. *)
Record local_update (σ σ2 : store) (id : string) (s' : ParticipantState) (sc' : ScopeState) : Prop := {
  lu_part : part σ2 id = Some s';
  lu_parts : forall id0, id0 <> id -> part σ2 id0 = part σ id0;
  lu_evolves : forall s, part σ id = Some s -> evolves s s';
  lu_scope : scop σ2 (scope_key s') = Some sc';
  lu_scopes : forall k, k <> scope_key s' -> scop σ2 k = scop σ k;
  lu_grows : forall sc, scop σ (scope_key s') = Some sc ->
    sc_root_run_id sc' = sc_root_run_id sc /\ sc_owner sc' = sc_owner sc /\
    sc_participants sc ⊆ sc_participants sc';
  lu_kept : forall mid m, mess σ mid = Some m -> am_recipient_id m <> id -> mess σ2 mid = Some m;
  lu_sent : forall mid m, mess σ2 mid = Some m -> am_recipient_id m <> id -> mess σ mid = Some m;
  lu_inboxes : forall id0, id0 <> id -> σ2 (inbox_stream id0) = σ (inbox_stream id0);
}.

Context (σ σ2 : store) (id : string) (s' : ParticipantState) (sc' : ScopeState).
Context (Hwf : comm_wf σ) (Hu : local_update σ σ2 id s' sc').

Lemma part_later id0 s0 : part σ id0 = Some s0 -> exists s1, part σ2 id0 = Some s1 /\ evolves s0 s1.
Proof.
  intros Hs. destruct (decide (id0 = id)) as [->|Hne].
  - exists s'. split; [apply (lu_part _ _ _ _ _ Hu)|by apply (lu_evolves _ _ _ _ _ Hu)].
  - exists s0. split; [by rewrite (lu_parts _ _ _ _ _ Hu)|apply evolves_refl].
Qed.
Lemma scope_later k sc : scop σ k = Some sc ->
  exists sc1, scop σ2 k = Some sc1 /\ sc_root_run_id sc1 = sc_root_run_id sc /\
    sc_owner sc1 = sc_owner sc /\ sc_participants sc ⊆ sc_participants sc1.
Proof.
  intros Hs. destruct (decide (k = scope_key s')) as [->|Hne].
  - exists sc'. split; [apply (lu_scope _ _ _ _ _ Hu)|]. by apply (lu_grows _ _ _ _ _ Hu).
  - exists sc. by rewrite (lu_scopes _ _ _ _ _ Hu).
Qed.

Lemma other_participant id0 s0 : id0 <> id -> part σ2 id0 = Some s0 -> participant_ok σ2 id0 s0.
Proof.
  intros Hne Hs. rewrite (lu_parts _ _ _ _ _ Hu) in Hs by done.
  destruct (wf_participant σ Hwf id0 s0 Hs) as (Hid & Hc & Hb & Hm & Hbm & Hcl & Ho & Hp & sc & Hsc & Hr & Hin).
  split_and!; try done.
  - eapply Forall_impl; [exact Hp|]. intros i (m & Hm' & Ha & Hr' & Ht). exists m. split_and!; try done.
    apply (lu_kept _ _ _ _ _ Hu); [done|congruence].
  - destruct (scope_later _ _ Hsc) as (sc1 & Hsc1 & Hr1 & _ & Hsub). exists sc1.
    split_and!; [done|congruence|by apply Hsub].
Qed.
Lemma sender_later m s0 s1 : evolves s0 s1 -> sender_ok σ m s0 -> sender_ok σ2 m s1.
Proof.
  intros He. unfold sender_ok. destruct (am_sender m) as [pid|aid].
  - intros (q & Hq & Hr & Hrel). destruct (part_later _ _ Hq) as (q' & Hq' & Hqe). exists q'.
    rewrite (evolves_root _ _ Hqe), (evolves_root _ _ He), (evolves_parent _ _ He), (evolves_parent _ _ Hqe).
    done.
  - by rewrite (evolves_owner _ _ He).
Qed.
Lemma other_message mid m :
  am_recipient_id m <> id -> mess σ2 mid = Some m -> message_ok σ2 mid m.
Proof.
  intros Hne Hm. destruct (wf_message σ Hwf mid m (lu_sent _ _ _ _ _ Hu mid m Hm Hne))
    as (Hid & Ht & s & Hs & Hr & Ha & Hsend).
  split_and!; try done; [apply Ht|apply Ht|]. exists s. split_and!; try done.
  - by rewrite (lu_parts _ _ _ _ _ Hu).
  - eapply sender_later; [apply evolves_refl|done].
Qed.
Lemma other_scope k sc : k <> scope_key s' -> scop σ2 k = Some sc -> scope_ok σ2 k sc.
Proof.
  intros Hne Hs. rewrite (lu_scopes _ _ _ _ _ Hu) in Hs by done.
  destruct (wf_scope σ Hwf k sc Hs) as (Hk & Hnd & Hc & Ha & Hac & Hb & Hbc & Hp).
  assert (forall q, q ∈ sc_participants sc -> q <> id) as Hoff.
  { intros q Hq ->. rewrite Forall_forall in Hp. destruct (Hp _ Hq) as (s & Hs' & Hr & _).
    apply Hne. unfold scope_key. by rewrite (evolves_root _ _ (lu_evolves _ _ _ _ _ Hu _ Hs')), Hr. }
  split_and!; try done.
  - rewrite Ha. apply sum_by_ext. intros q Hq. unfold accepted_of. by rewrite (lu_parts _ _ _ _ _ Hu) by auto.
  - rewrite Hb. apply sum_by_ext. intros q Hq. unfold bytes_of. by rewrite (lu_parts _ _ _ _ _ Hu) by auto.
  - apply Forall_forall. intros q Hq. rewrite Forall_forall in Hp.
    rewrite (lu_parts _ _ _ _ _ Hu) by auto. by apply Hp.
Qed.
Lemma other_inbox id0 : id0 <> id -> inbox_ok σ2 id0.
Proof.
  intros Hne. destruct (wf_inbox σ Hwf id0) as (ids & Hi & Hc & Hm & Hp). exists ids.
  rewrite (lu_inboxes _ _ _ _ _ Hu) by done. unfold accepted_of.
  rewrite (lu_parts _ _ _ _ _ Hu) by done. split_and!; try done.
  intros n mid Hn. destruct (Hm n mid Hn) as (m & Hm' & Hr & Hs). exists m. split; [|done].
  apply (lu_kept _ _ _ _ _ Hu); [done|congruence].
Qed.
Lemma job_later l : job_ok σ l -> job_ok σ2 l.
Proof.
  intros Hj n i Hn. destruct (Hj n i Hn) as (Hg & s & Hs & Hc). split; [done|].
  destruct (part_later _ _ Hs) as (s1 & Hs1 & _ & Ho & _). exists s1. split; [done|]. auto.
Qed.
Lemma run_later i : (exists s, part σ (ai_participant_id i) = Some s) -> exists s, part σ2 (ai_participant_id i) = Some s.
Proof. intros [s Hs]. destruct (part_later _ _ Hs) as (s1 & Hs1 & _). by exists s1. Qed.

(** What is left to show of a write. *)
Lemma local_wf :
  (forall id0, typed_as participant_fit (σ2 (participant_stream id0))) ->
  (forall k, typed_as scope_fit (σ2 (scope_stream k))) ->
  (forall k, single_as index_fit (σ2 (run_key_stream k))) ->
  (forall k, typed_as index_fit (σ2 (job_key_stream k))) ->
  (forall k, single_as (fun _ : MessageClaim => True) (σ2 ("agent-message-key:" ++s k))) ->
  (forall k, typed_as message_fit (σ2 ("agent-feed:" ++s k))) ->
  (forall mid, message_run (σ2 (message_stream mid))) ->
  participant_ok σ2 id s' -> scope_ok σ2 (scope_key s') sc' ->
  (forall mid m, mess σ2 mid = Some m -> am_recipient_id m = id -> message_ok σ2 mid m) ->
  inbox_ok σ2 id -> (forall k, job_ok σ2 (σ2 (job_key_stream k))) ->
  (forall k i, latest (A:=AttemptIndex) (σ2 (run_key_stream k)) = Some i ->
     exists s, part σ2 (ai_participant_id i) = Some s) ->
  (forall id0 v, v ∈ σ2 (participant_stream id0) -> v ∈ σ (participant_stream id0) \/
     (id0 = id /\ decode v = Some s')) ->
  (part σ id = None -> σ (participant_stream id) = []) -> has_nul id = false ->
  (forall mid, σ2 (message_stream mid) <> [] -> σ (message_stream mid) <> [] \/ valid_token mid = true) ->
  (forall k, exists l, σ2 (run_key_stream k) = (σ (run_key_stream k) ++ l)%list) ->
  (forall run_id, ap_run_id (pt_participant s') = Some run_id ->
     runs_as σ2 run_id id \/ exists s, part σ id = Some s /\ ap_run_id (pt_participant s) = Some run_id) ->
  comm_wf σ2.
Proof.
  intros Htp Hts Htr Htj Htc Htf Hm Hp Hs Hmess Hin Hj Hr He Hnew Hname Htok Hext Hbound.
  assert (forall id0 s0 run_id, part σ id0 = Some s0 -> ap_run_id (pt_participant s0) = Some run_id ->
    runs_as σ2 run_id id0) as Hkept.
  { intros id0 s0 run_id Hs0 Hrun. destruct (wf_bound σ Hwf _ _ _ Hs0 Hrun) as (i & Hi & Hid). exists i.
    split; [|done]. exact (single_later _ _ i (Hext (sha256_hex run_id)) (Htr (sha256_hex run_id)) Hi). }
  constructor; try done.
  - intros id0 s0 Hs0. destruct (decide (id0 = id)) as [->|Hne]; [|by apply other_participant].
    rewrite (lu_part _ _ _ _ _ Hu) in Hs0. by injection Hs0 as <-.
  - intros k sc Hsc. destruct (decide (k = scope_key s')) as [->|Hne]; [|by apply other_scope].
    rewrite (lu_scope _ _ _ _ _ Hu) in Hsc. by injection Hsc as <-.
  - intros mid m Hm0. destruct (decide (am_recipient_id m = id)) as [Heq|Hne]; [by apply Hmess|by apply other_message].
  - intros id0. destruct (decide (id0 = id)) as [->|Hne]; [done|by apply other_inbox].
  - intros id0 s0 run_id Hs0 Hrun. destruct (decide (id0 = id)) as [->|Hne].
    + rewrite (lu_part _ _ _ _ _ Hu) in Hs0. injection Hs0 as <-.
      destruct (Hbound run_id Hrun) as [|(s & Hs1 & Hrun1)]; [done|by eapply Hkept].
    + rewrite (lu_parts _ _ _ _ _ Hu) in Hs0 by done. by eapply Hkept.
  - intros id0 Hne. destruct (σ2 (participant_stream id0)) as [|v l] eqn:Hl; [done|].
    destruct (He id0 v) as [Hv|[-> _]]; [rewrite Hl; by left| |done].
    apply (wf_names σ Hwf). intros He0. rewrite He0 in Hv. by apply elem_of_nil in Hv.
  - intros mid Hne. destruct (Htok mid Hne) as [Hold|]; [by apply (wf_tokens σ Hwf)|done].
  - intros id0 s0 v a Hs0 Hv Ha. destruct (He id0 v Hv) as [Hold|[-> Hd]].
    + destruct (part σ id0) as [s|] eqn:Hs1.
      * destruct (part_later _ _ Hs1) as (s2 & Hs2 & Hev). assert (s0 = s2) as -> by congruence.
        eapply evolves_trans; [|exact Hev]. by eapply (wf_evolves σ Hwf).
      * exfalso. destruct (decide (id0 = id)) as [->|Hne]; [by rewrite Hnew in Hold; [apply elem_of_nil in Hold|]|].
        rewrite (lu_parts _ _ _ _ _ Hu) in Hs0 by done. congruence.
    + rewrite (lu_part _ _ _ _ _ Hu) in Hs0. assert (a = s0) as -> by congruence. apply evolves_refl.
Qed.
End Frame.

(** * The batches of the communication service keep its invariant *)

Lemma written_cons s e batch :
  written_to s (e :: batch) = ((if String.eqb (ne_stream_id e) s then [ne_payload e] else []) ++ written_to s batch)%list.
Proof. unfold written_to. simpl. by destruct (String.eqb (ne_stream_id e) s). Qed.
(** The streams of a batch, one by one. *)
Ltac stream_eqb :=
  repeat match goal with
  | |- context [String.eqb (?p ++s ?a) (?q ++s ?b)] =>
      first [ change (String.eqb (p ++s a) (q ++s b)) with false
            | change (String.eqb (p ++s a) (q ++s b)) with (String.eqb a b) ]
  end.
Ltac streams :=
  unfold append_to; rewrite ?written_app, ?written_cons;
  unfold event, event_of, participant_stream, scope_stream, root_stream, message_stream,
    inbox_stream, run_stream, run_key_stream, job_stream, job_key_stream, feed_stream;
  cbn [ne_stream_id ne_payload]; stream_eqb; rewrite ?app_nil_r; try reflexivity.

Section Step.
Context `{Externals} `{CommunicationCodecsOk}.

(** ** What a batch appends *)

Lemma latest_app {A} `{RecordCodec A} l l' :
  latest (A:=A) (l ++ l') = match last l' with Some v => decode v | None => latest l end.
Proof. unfold latest. rewrite last_app. by destruct (last l'). Qed.
Lemma latest_if {A} `{RecordOk A fit} l (b : bool) a :
  fit a -> latest (l ++ (if b then [record_to_value a] else [])) = if b then Some a else latest l.
Proof.
  intros Ha. destruct b; [by apply latest_snoc|by rewrite app_nil_r].
Qed.
Lemma typed_if {A} `{RecordOk A fit} l (b : bool) a :
  fit a -> typed_as fit l -> typed_as fit (l ++ (if b then [record_to_value a] else [])).
Proof. intros Ha Hl. destruct b; [by apply typed_snoc|by rewrite app_nil_r]. Qed.

(** Unchanged streams, and the written ones. *)
Lemma part_if σ σ2 id s' : participant_fit s' ->
  (forall id0, σ2 (participant_stream id0)
     = (σ (participant_stream id0) ++ if String.eqb id id0 then [record_to_value s'] else [])%list) ->
  (forall id0, part σ2 id0 = if String.eqb id id0 then Some s' else part σ id0) /\
  ((forall id0, typed_as participant_fit (σ (participant_stream id0))) ->
   forall id0, typed_as participant_fit (σ2 (participant_stream id0))) /\
  forall id0 v, v ∈ σ2 (participant_stream id0) -> v ∈ σ (participant_stream id0) \/ (id0 = id /\ decode v = Some s').
Proof.
  intros Hf He. split_and!.
  - intros id0. unfold part. rewrite He. by apply latest_if.
  - intros Ht id0. rewrite He. by apply typed_if.
  - intros id0 v. rewrite He, elem_of_app. intros [Hv|Hv]; [by left|right].
    destruct (String.eqb_spec id id0) as [->|_]; [|by apply elem_of_nil in Hv].
    apply list_elem_of_singleton in Hv as ->. split; [done|by apply decode_stored].
Qed.
Lemma runs_if σ σ2 k i (w : bool) : index_fit i ->
  (forall k0, σ2 (run_key_stream k0)
     = (σ (run_key_stream k0) ++ if w && String.eqb k k0 then [record_to_value i] else [])%list) ->
  (w = true -> σ (run_key_stream k) = []) ->
  (forall k0, single_as index_fit (σ (run_key_stream k0))) ->
  (forall k0, single_as index_fit (σ2 (run_key_stream k0))) /\
  forall k0 i0, latest (A:=AttemptIndex) (σ2 (run_key_stream k0)) = Some i0 ->
    (w = true /\ i0 = i) \/ latest (A:=AttemptIndex) (σ (run_key_stream k0)) = Some i0.
Proof.
  intros Hf He Hw Ht. split.
  - intros k0. rewrite He. apply single_if; [done| |done]. intros [Hwt <-%String.eqb_eq]%andb_true_iff. by apply Hw.
  - intros k0 i0. rewrite He, (latest_if _ _ _ Hf). destruct w; [|by right].
    cbn [andb]. destruct (String.eqb k k0); [left; split; congruence|by right].
Qed.
Lemma eqb_ne (a b : string) : b <> a -> String.eqb a b = false.
Proof. intros Hne. apply String.eqb_neq. congruence. Qed.

(** The frame of a write, from its streams: the participant is written, and the scope is
    where [w]. *)
Section Local.
Context (σ σ2 : store) (id : string) (s' : ParticipantState) (sc' : ScopeState) (w : bool).
Context (Hwf : comm_wf σ) (Hf : participant_fit s') (Hfs : scope_fit sc').
Context (Ep : forall id0, σ2 (participant_stream id0)
  = (σ (participant_stream id0) ++ if String.eqb id id0 then [record_to_value s'] else [])%list).
Context (Es : forall k, σ2 (scope_stream k)
  = (σ (scope_stream k) ++ if w && String.eqb (scope_key s') k then [record_to_value sc'] else [])%list).
Context (Hev : forall s, part σ id = Some s -> evolves s s').
Context (Hgr : forall sc, scop σ (scope_key s') = Some sc ->
  sc_root_run_id sc' = sc_root_run_id sc /\ sc_owner sc' = sc_owner sc /\ sc_participants sc ⊆ sc_participants sc').
Context (Hw : w = false -> scop σ (scope_key s') = Some sc').

Lemma part_after id0 : part σ2 id0 = if String.eqb id id0 then Some s' else part σ id0.
Proof. unfold part. rewrite Ep. by apply latest_if. Qed.
Lemma parts_typed id0 : typed_as participant_fit (σ2 (participant_stream id0)).
Proof. rewrite Ep. apply typed_if; [done|apply (wf_participants σ Hwf)]. Qed.
Lemma parts_evolve id0 v :
  v ∈ σ2 (participant_stream id0) -> v ∈ σ (participant_stream id0) \/ (id0 = id /\ decode v = Some s').
Proof.
  rewrite Ep, elem_of_app. intros [Hv|Hv]; [by left|right].
  destruct (String.eqb_spec id id0) as [->|_]; [|by apply elem_of_nil in Hv].
  apply list_elem_of_singleton in Hv as ->. split; [done|by apply decode_stored].
Qed.
Lemma part_new : part σ id = None -> σ (participant_stream id) = [].
Proof.
  intros Hn. destruct (typed_latest _ (wf_participants σ Hwf id)) as [->|(a & _ & Ha & _)]; [done|].
  unfold part in Hn. congruence.
Qed.
Lemma scopes_typed k : typed_as scope_fit (σ2 (scope_stream k)).
Proof. rewrite Es. apply typed_if; [done|apply (wf_scopes σ Hwf)]. Qed.
Lemma local_update_of :
  (forall mid m, mess σ mid = Some m -> am_recipient_id m <> id -> mess σ2 mid = Some m) ->
  (forall mid m, mess σ2 mid = Some m -> am_recipient_id m <> id -> mess σ mid = Some m) ->
  (forall id0, id0 <> id -> σ2 (inbox_stream id0) = σ (inbox_stream id0)) ->
  local_update σ σ2 id s' sc'.
Proof.
  intros Hk Hs Hi. constructor; try done.
  - by rewrite part_after, String.eqb_refl.
  - intros id0 Hne. by rewrite part_after, eqb_ne.
  - unfold scop. rewrite Es, (latest_if _ _ _ Hfs), String.eqb_refl.
    destruct w; [done|]. by apply Hw.
  - intros k Hne. unfold scop. rewrite Es, eqb_ne by done. by rewrite andb_false_r, app_nil_r.
Qed.
(** Of a message that stays, for the participant it was sent to. *)
Lemma sent_message s mid m (Hu : local_update σ σ2 id s' sc') :
  part σ id = Some s -> mess σ mid = Some m -> am_recipient_id m = id ->
  (am_receipt m = Accepted -> mid ∈ pending_ids s -> mid ∈ pending_ids s') -> message_ok σ2 mid m.
Proof.
  intros Hs Hm Hr Hp. destruct (wf_message σ Hwf mid m Hm) as (Hid & Ht & s0 & Hs0 & Hr0 & Ha & Hsend).
  rewrite Hr in Hs0. assert (s0 = s) as -> by congruence. split_and!; [done|apply Ht|apply Ht|].
  exists s'. rewrite Hr, part_after, String.eqb_refl. split_and!; [done| |auto|].
  - by rewrite (evolves_root _ _ (Hev _ Hs)).
  - eapply sender_later; [exact Hu|by apply Hev|done].
Qed.
End Local.

(** ** Binding an attempt to an execution *)

Lemma bind_streams σ id version (s' : ParticipantState) run_id owner context indexes :
  (indexes = [] /\ runs_as σ run_id id \/ exists i, ai_participant_id i = id /\ index_fit i /\
     indexes = [event (run_stream run_id) 0 "run" owner context i]) ->
  let σ2 := append_to σ (event (participant_stream id) version "bound" owner context s' :: indexes) in
  at_version σ (event (participant_stream id) version "bound" owner context s' :: indexes) ->
  exists i w, (w = true -> ai_participant_id i = id /\ σ (run_stream run_id) = []) /\ index_fit i /\
    (w = false -> runs_as σ run_id id) /\
    (forall id0, σ2 (participant_stream id0)
       = (σ (participant_stream id0) ++ if String.eqb id id0 then [record_to_value s'] else [])%list) /\
    (forall k, σ2 (scope_stream k) = (σ (scope_stream k) ++ [])%list) /\
    (forall k, σ2 (message_stream k) = σ (message_stream k)) /\
    (forall k, σ2 (inbox_stream k) = σ (inbox_stream k)) /\
    (forall k, σ2 (job_key_stream k) = σ (job_key_stream k)) /\
    (forall k, σ2 ("agent-message-key:" ++s k) = σ ("agent-message-key:" ++s k)) /\
    (forall k, σ2 ("agent-feed:" ++s k) = σ ("agent-feed:" ++s k)) /\
    (forall k, σ2 (run_key_stream k)
       = (σ (run_key_stream k) ++ if w && String.eqb (sha256_hex run_id) k then [record_to_value i] else [])%list).
Proof.
  intros [[-> Hrun]|(i & Hi & Hfi & ->)] σ2 Hv.
  - exists (mkAttemptIndex "" 0), false. split; [done|]. split; [unfold index_fit; simpl; lia|]. split; [done|].
    split_and!; intros k; unfold σ2; streams.
  - exists i, true. split; [|split; [done|]; split; [done|]; split_and!; intros k; unfold σ2; streams].
    intros _. split; [done|]. apply (at_version_empty σ _ [_] _ _ Hv eq_refl); [by apply Forall_singleton|done].
Qed.
Lemma bind_wf σ id s run_id owner context indexes :
  comm_wf σ -> part σ id = Some s -> is_open s = true ->
  (indexes = [] /\ runs_as σ run_id id \/ exists i, ai_participant_id i = id /\ index_fit i /\
     indexes = [event (run_stream run_id) 0 "run" owner context i]) ->
  at_version σ (event (participant_stream id) (count (σ (participant_stream id))) "bound" owner context
                    (with_run_id run_id s) :: indexes) ->
  comm_wf (append_to σ (event (participant_stream id) (count (σ (participant_stream id))) "bound" owner context
                    (with_run_id run_id s) :: indexes)).
Proof.
  intros Hwf Hs Ho Hix Hv.
  set (version := count _). set (s' := with_run_id run_id s). set (σ2 := append_to _ _).
  pose proof (wf_participant σ Hwf id s Hs) as Hok.
  destruct Hok as (Hid & Hc & Hb & Hm & Hbm & Hcl & Hop & Hp & sc & Hsc & Hr & Hin).
  assert (participant_fit s') as Hf by exact (latest_fit _ _ (wf_participants σ Hwf id) Hs).
  assert (scope_fit sc) as Hfs by exact (latest_fit _ _ (wf_scopes σ Hwf _) Hsc).
  destruct (bind_streams σ id version s' run_id owner context indexes Hix Hv) as (i & w & Hiw & Hfi & Hrun & Ep & Es & Em & Ei & Ej & Ec & Ef & Er).
  fold σ2 in Ep, Es, Em, Ei, Ej, Ec, Ef, Er.
  assert (forall s0, part σ id = Some s0 -> evolves s0 s') as Hev.
  { intros s0 Hs0. assert (s0 = s) as -> by congruence. by split_and!. }
  assert (local_update σ σ2 id s' sc) as Hu.
  { apply (local_update_of σ σ2 id s' sc false Hf Hfs Ep Es Hev); try done.
    - intros sc0 Hsc0. assert (sc0 = sc) as -> by (unfold scope_key, root_of in Hsc0; cbn in Hsc0; congruence). done.
    - intros mid m Hm0 _. unfold mess. by rewrite Em.
    - intros mid m Hm0 _. unfold mess in Hm0. by rewrite Em in Hm0. }
  assert (forall id0, accepted_of σ2 id0 = accepted_of σ id0 /\ bytes_of σ2 id0 = bytes_of σ id0) as Hsum.
  { intros id0. unfold accepted_of, bytes_of. rewrite (part_after σ σ2 id s' Hf Ep).
    destruct (String.eqb_spec id id0) as [<-|_]; [|done]. by rewrite Hs. }
  destruct (runs_if σ σ2 _ i w Hfi Er (fun Hw => proj2 (Hiw Hw)) (wf_runs σ Hwf)) as [Hrt Hrl].
  assert (forall mid, mess σ2 mid = mess σ mid) as Hmess by (intros mid; unfold mess; by rewrite Em).
  apply (local_wf σ σ2 id s' sc Hwf Hu); try done.
  - exact (parts_typed σ σ2 id s' Hwf Hf Ep).
  - exact (scopes_typed σ σ2 s' sc false Hwf Hfs Es).
  - intros k. rewrite Ej. apply (wf_jobs σ Hwf).
  - intros k. rewrite Ec. apply (wf_claims σ Hwf).
  - intros k. rewrite Ef. apply (wf_feeds σ Hwf).
  - intros mid. rewrite Em. apply (wf_messages σ Hwf).
  - split_and!; try done.
    + eapply Forall_impl; [exact Hp|]. intros x. by rewrite Hmess.
    + exists sc. split_and!; try done. unfold scop. rewrite Es, app_nil_r. exact Hsc.
  - destruct (wf_scope σ Hwf _ _ Hsc) as (Hk & Hnd & Hcp & Ha & Hac & Hby & Hbc & Hpp).
    split_and!; try done.
    + rewrite Ha. apply sum_by_ext. intros q _. symmetry. apply Hsum.
    + rewrite Hby. apply sum_by_ext. intros q _. symmetry. apply Hsum.
    + eapply Forall_impl; [exact Hpp|]. intros q (s0 & Hs0 & Hr0 & Ho0).
      destruct (part_later σ σ2 id s' sc Hu _ _ Hs0) as (s1 & Hs1 & He1). exists s1.
      rewrite (evolves_root _ _ He1), (evolves_owner _ _ He1). done.
  - intros mid m Hm0 Hr0. rewrite Hmess in Hm0. by apply (sent_message σ σ2 id s' sc Hwf Hf Ep Hev s).
  - destruct (wf_inbox σ Hwf id) as (ids & Hi & Hci & Hmi & Hpi). exists ids. rewrite Ei.
    destruct (Hsum id) as [-> _]. split_and!; try done; [intros n mid Hn; rewrite Hmess; by apply (Hmi n)|].
    intros s0. rewrite (part_after σ σ2 id s' Hf Ep), String.eqb_refl. intros [= <-]. exact (Hpi s Hs).
  - intros k. rewrite Ej. apply (job_later σ σ2 id s' sc Hu), (wf_job σ Hwf).
  - intros k i0 Hi0. destruct (Hrl k i0 Hi0) as [[Hwt ->]|Hold].
    + rewrite (proj1 (Hiw Hwt)). exists s'. apply (lu_part _ _ _ _ _ Hu).
    + apply (run_later σ σ2 id s' sc Hu). by eapply (wf_run σ Hwf).
  - exact (parts_evolve σ σ2 id s' Hf Ep Hev).
  - exact (part_new σ id Hwf).
  - exact (part_name σ id s Hwf Hs).
  - intros mid. rewrite Em. by left.
  - intros k. eexists. apply Er.
  - intros r [= <-]. left. destruct w; [|].
    + destruct (Hiw eq_refl) as [Hii Hre]. exists i. split; [|done].
      change (run_stream run_id) with (run_key_stream (sha256_hex run_id)).
      rewrite Er, (latest_if _ _ _ Hfi). cbn [andb]. by rewrite String.eqb_refl.
    + destruct (Hrun eq_refl) as (i0 & Hi0 & Hid0). exists i0. split; [|done].
      change (run_stream run_id) with (run_key_stream (sha256_hex run_id)). rewrite Er, app_nil_r. exact Hi0.
Qed.

(** ** A new participant *)

Section New.
Context (σ σ2 : store) (id : string) (s' : ParticipantState) (sc' : ScopeState).
Context (Hwf : comm_wf σ) (Hname : has_nul id = false) (Hempty : σ (participant_stream id) = []) (Hf : participant_fit s') (Hfs : scope_fit sc').
(** It is open and has nothing pending. *)
Context (Hid : ap_id (pt_participant s') = id) (Hunbound : ap_run_id (pt_participant s') = None) (Hpend : pt_pending s' = []) (Hacc : pt_accepted s' = 0%N)
  (Hcount : ap_pending_messages (pt_participant s') = 0%N) (Hbytes : ap_pending_bytes (pt_participant s') = 0%N)
  (Hopen : ap_open (pt_participant s') = true) (Hreason : ap_closed_reason (pt_participant s') = None).
(** Its scope is new, or one more participant. *)
Context (Hroot : sc_root_run_id sc' = root_of s') (Howner : sc_owner sc' = ap_owner (pt_participant s'))
  (Hold : forall sc, scop σ (scope_key s') = Some sc ->
     sc_root_run_id sc' = sc_root_run_id sc /\ sc_owner sc' = sc_owner sc /\
     sc_participants sc' = (sc_participants sc ++ [id])%list /\ (count (sc_participants sc) < MAX_SCOPE_PARTICIPANTS)%N /\
     sc_accepted sc' = sc_accepted sc /\ sc_pending_bytes sc' = sc_pending_bytes sc)
  (Hfresh : scop σ (scope_key s') = None ->
     sc_participants sc' = [id] /\ sc_accepted sc' = 0%N /\ sc_pending_bytes sc' = 0%N).
Context (Ep : forall id0, σ2 (participant_stream id0)
  = (σ (participant_stream id0) ++ if String.eqb id id0 then [record_to_value s'] else [])%list).
Context (Es : forall k, σ2 (scope_stream k)
  = (σ (scope_stream k) ++ if true && String.eqb (scope_key s') k then [record_to_value sc'] else [])%list).
Context (Em : forall k, σ2 (message_stream k) = σ (message_stream k))
  (Ei : forall k, σ2 (inbox_stream k) = σ (inbox_stream k))
  (Ec : forall k, σ2 ("agent-message-key:" ++s k) = σ ("agent-message-key:" ++s k))
  (Ef : forall k, σ2 ("agent-feed:" ++s k) = σ ("agent-feed:" ++s k)).

Lemma new_none : part σ id = None.
Proof. unfold part. by rewrite Hempty. Qed.
Lemma new_update : local_update σ σ2 id s' sc'.
Proof.
  apply (local_update_of σ σ2 id s' sc' true Hf Hfs Ep Es); try done.
  - intros s. by rewrite new_none.
  - intros sc Hsc. destruct (Hold sc Hsc) as (Hr & Ho & Hp & _). split_and!; [done|done|].
    rewrite Hp. intros x Hx. apply elem_of_app. by left.
  - intros mid m Hm0 _. unfold mess. by rewrite Em.
  - intros mid m Hm0 _. unfold mess in Hm0. by rewrite Em in Hm0.
Qed.
Lemma new_scope : scope_ok σ2 (scope_key s') sc'.
Proof.
  pose proof (part_after σ σ2 id s' Hf Ep) as Hpart.
  assert (accepted_of σ2 id = 0%N /\ bytes_of σ2 id = 0%N) as [Ha Hb]
    by (unfold accepted_of, bytes_of; by rewrite Hpart, String.eqb_refl).
  assert (forall q, q <> id -> accepted_of σ2 q = accepted_of σ q /\ bytes_of σ2 q = bytes_of σ q) as Hq
    by (intros q Hne; unfold accepted_of, bytes_of; by rewrite Hpart, eqb_ne).
  destruct (scop σ (scope_key s')) as [sc|] eqn:Hsc.
  - destruct (Hold sc eq_refl) as (Hr & Ho & Hp & Hc & Hac & Hby). destruct (wf_scope σ Hwf _ _ Hsc) as
      (Hk & Hnd & _ & Hsum & Hmax & Hsumb & Hmaxb & Hall).
    assert (forall q, q ∈ sc_participants sc -> q <> id) as Hne.
    { intros q Hin ->. rewrite Forall_forall in Hall. destruct (Hall _ Hin) as (s & Hs & _). by rewrite new_none in Hs. }
    unfold scope_ok. rewrite Hp, Hac, Hby, Hr, Ho, !sum_by_app. cbn [sum_by foldr]. rewrite Ha, Hb, !N.add_0_r.
    split_and!; try done.
    + apply NoDup_app. split_and!; [done| |apply NoDup_singleton].
      intros q Hin Hin'%list_elem_of_singleton. by apply (Hne q).
    + unfold count in *. rewrite length_app. simpl. lia.
    + rewrite Hsum. apply sum_by_ext. intros q Hin. symmetry. by apply Hq, Hne.
    + rewrite Hsumb. apply sum_by_ext. intros q Hin. symmetry. by apply Hq, Hne.
    + apply Forall_app. split.
      * apply Forall_forall. intros q Hin. rewrite Hpart, eqb_ne by auto. rewrite Forall_forall in Hall. by apply Hall.
      * apply Forall_singleton. exists s'. rewrite Hpart, String.eqb_refl. by rewrite <- Hr, <- Ho.
  - destruct (Hfresh eq_refl) as (Hp & Hac & Hby). unfold scope_ok. rewrite Hp, Hac, Hby. cbn [sum_by foldr].
    rewrite Ha, Hb. split_and!; try done; [by rewrite Hroot|apply NoDup_singleton|].
    apply Forall_singleton. exists s'. by rewrite Hpart, String.eqb_refl.
Qed.
Lemma new_wf :
  (forall k, single_as index_fit (σ2 (run_key_stream k))) ->
  (forall k, typed_as index_fit (σ2 (job_key_stream k))) ->
  (forall k, job_ok σ2 (σ2 (job_key_stream k))) ->
  (forall k i, latest (A:=AttemptIndex) (σ2 (run_key_stream k)) = Some i ->
     exists s, part σ2 (ai_participant_id i) = Some s) ->
  (forall k, exists l, σ2 (run_key_stream k) = (σ (run_key_stream k) ++ l)%list) ->
  comm_wf σ2.
Proof.
  intros Hrt Hjt Hj Hr Hext. pose proof new_update as Hu.
  assert (forall s, part σ id = Some s -> evolves s s') as Hev by (intros s; by rewrite new_none).
  assert (forall mid, mess σ2 mid = mess σ mid) as Hmess by (intros mid; unfold mess; by rewrite Em).
  apply (local_wf σ σ2 id s' sc' Hwf Hu); try done.
  - exact (parts_typed σ σ2 id s' Hwf Hf Ep).
  - exact (scopes_typed σ σ2 s' sc' true Hwf Hfs Es).
  - intros k. rewrite Ec. apply (wf_claims σ Hwf).
  - intros k. rewrite Ef. apply (wf_feeds σ Hwf).
  - intros mid. rewrite Em. apply (wf_messages σ Hwf).
  - unfold participant_ok. rewrite Hpend, Hcount, Hbytes, Hopen, Hreason. split_and!; try done.
    exists sc'. split_and!; [apply (lu_scope _ _ _ _ _ Hu)|done|].
    destruct (scop σ (scope_key s')) as [sc|] eqn:Hsc.
    + destruct (Hold sc eq_refl) as (_ & _ & -> & _). apply elem_of_app. right. by left.
    + destruct (Hfresh eq_refl) as (-> & _). by left.
  - apply new_scope.
  - intros mid m Hm0 Hr0. rewrite Hmess in Hm0. destruct (wf_message σ Hwf mid m Hm0) as (_ & _ & s & Hs & _).
    rewrite Hr0, new_none in Hs. done.
  - destruct (wf_inbox σ Hwf id) as (ids & Hi & Hci & _ & _). unfold accepted_of in Hci. rewrite new_none in Hci.
    assert (ids = []) as -> by (destruct ids; [done|unfold count in Hci; simpl in Hci; lia]).
    exists []. rewrite Ei, Hi. unfold accepted_of. rewrite (part_after σ σ2 id s' Hf Ep), String.eqb_refl, Hacc.
    split_and!; try done. intros s [= <-]. exists []. unfold pending_ids. by rewrite Hpend.
  - exact (parts_evolve σ σ2 id s' Hf Ep Hev).
  - intros mid. rewrite Em. by left.
  - intros r. by rewrite Hunbound.
Qed.
End New.

Lemma root_wf σ run_id owner context session_id id origin created_at :
  comm_wf σ -> has_nul id = false ->
  let batch := [event (root_stream run_id) 0 "scope" owner context (mkScopeState run_id owner [id] 0 0);
       event (participant_stream id) 0 "participant" owner context
         (mkParticipantState (new_participant id run_id owner session_id None None 1 created_at) [] 0 origin);
       event (run_stream run_id) 0 "run" owner context (mkAttemptIndex id 1)] in
  at_version σ batch -> comm_wf (append_to σ batch).
Proof.
  intros Hwf Hname batch Hv. set (s' := mkParticipantState _ _ _ _) in batch. set (sc' := mkScopeState _ _ _ _ _) in batch.
  set (σ2 := append_to σ batch).
  assert (σ (root_stream run_id) = []) as Hes
    by (apply (at_version_empty σ batch [] _ _ Hv eq_refl); [apply Forall_nil_2|done]).
  assert (σ (participant_stream id) = []) as Hep
    by (apply (at_version_empty σ batch [_] _ _ Hv eq_refl); [by apply Forall_singleton|done]).
  assert (index_fit (mkAttemptIndex id 1)) as Hfi by (unfold index_fit; cbn; unfold u64_max; lia).
  assert (forall k, σ2 (run_key_stream k) = (σ (run_key_stream k)
    ++ if true && String.eqb (sha256_hex run_id) k then [record_to_value (mkAttemptIndex id 1)] else [])%list) as Er
    by (intros k; unfold σ2, batch; streams).
  assert (σ (run_stream run_id) = []) as Her
    by (apply (at_version_empty σ batch [_; _] _ _ Hv eq_refl); [by repeat constructor|done]).
  destruct (runs_if σ σ2 _ _ true Hfi Er (fun _ => Her) (wf_runs σ Hwf)) as [Hrt Hrl].
  assert (forall k, σ2 (job_key_stream k) = σ (job_key_stream k)) as Ej by (intros k; unfold σ2, batch; streams).
  assert (participant_fit s') as Hf by (unfold participant_fit; cbn; unfold u64_max; split_and!; try lia; apply Forall_nil_2).
  assert (scope_fit sc') as Hfs by (unfold scope_fit; cbn; unfold u64_max; lia).
  assert (scop σ (scope_key s') = None) as Hno by (unfold scop, latest; change (scope_stream (scope_key s')) with (root_stream run_id); by rewrite Hes).
  assert (local_update σ σ2 id s' sc') as Hu.
  { apply new_update; try done; try solve [intros k; unfold σ2, batch; streams]. intros sc. by rewrite Hno. }
  apply (new_wf σ σ2 id s' sc'); try done; try solve [intros k; unfold σ2, batch; streams].
  - intros sc. by rewrite Hno.
  - intros k. rewrite Ej. apply (wf_jobs σ Hwf).
  - intros k. rewrite Ej. apply (job_later σ σ2 id s' sc' Hu), (wf_job σ Hwf).
  - intros k i Hi. destruct (Hrl k i Hi) as [[_ ->]|Hold]; [exists s'; apply (lu_part _ _ _ _ _ Hu)|].
    apply (run_later σ σ2 id s' sc' Hu). by eapply (wf_run σ Hwf).
  - intros k. eexists. apply Er.
Qed.

(** One more attempt of a job, after the last one was closed. *)
Lemma job_snoc σ σ2 id s' sc' l i :
  local_update σ σ2 id s' sc' -> job_ok σ l ->
  (forall i0, latest (A:=AttemptIndex) l = Some i0 -> exists q, part σ (ai_participant_id i0) = Some q /\ is_open q = false) ->
  ai_participant_id i = id -> ai_generation i = (count l + 1)%N -> index_fit i ->
  job_ok σ2 (l ++ [record_to_value i]).
Proof.
  intros Hu Hj Hlast Hi Hg Hf n i0 Hn. destruct (decide (n < length l)) as [Hlt|Hge].
  - rewrite lookup_app_l in Hn by done. destruct (Hj n i0 Hn) as (Hg0 & s & Hs & Hc). split; [done|].
    destruct (part_later σ σ2 id s' sc' Hu _ _ Hs) as (s1 & Hs1 & _ & Ho & _). exists s1. split; [done|].
    intros _. apply Ho. destruct (decide (S n < length l)) as [Hlt'|Hge']; [by apply Hc|].
    destruct (Hlast i0) as (q & Hq & Hqo); [|congruence].
    unfold latest. rewrite last_lookup. by replace (pred (length l)) with n by lia.
  - rewrite lookup_app_r in Hn by lia. destruct (n - length l) as [|m] eqn:Hm; [|done].
    cbn in Hn. rewrite decode_stored in Hn by done. injection Hn as <-. split; [unfold count in Hg; rewrite Hg; lia|].
    exists s'. rewrite Hi. split; [apply (lu_part _ _ _ _ _ Hu)|]. rewrite length_app. simpl. lia.
Qed.

Lemma child_wf σ pid parent sc job_id id session_id origin created_at context :
  comm_wf σ -> has_nul id = false -> part σ pid = Some parent -> scop σ (sha256_hex (root_of parent)) = Some sc ->
  (count (sc_participants sc) < MAX_SCOPE_PARTICIPANTS)%N -> (count (σ (job_stream job_id)) < u64_max)%N ->
  (forall i, latest (A:=AttemptIndex) (σ (job_stream job_id)) = Some i ->
     exists q, part σ (ai_participant_id i) = Some q /\ is_open q = false) ->
  let owner := ap_owner (pt_participant parent) in
  let generation := (count (σ (job_stream job_id)) + 1)%N in
  let batch :=
      [event (root_stream (sc_root_run_id sc)) (count (σ (root_stream (sc_root_run_id sc)))) "scope" owner context
         (mkScopeState (sc_root_run_id sc) (sc_owner sc) (sc_participants sc ++ [id]) (sc_accepted sc)
            (sc_pending_bytes sc));
       event (participant_stream id) 0 "participant" owner context
         (mkParticipantState (new_participant id (root_of parent) owner session_id (Some pid) (Some job_id)
            generation created_at) [] 0 origin);
       event (job_stream job_id) (count (σ (job_stream job_id))) "attempt" owner context
         (mkAttemptIndex id generation)] in
  at_version σ batch -> comm_wf (append_to σ batch).
Proof.
  intros Hwf Hname Hpar Hsc Hroom Hgen Hlast owner generation batch Hv.
  set (s' := mkParticipantState _ _ _ _) in batch. set (sc' := mkScopeState _ _ _ _ _) in batch.
  set (i := mkAttemptIndex id generation) in batch. set (σ2 := append_to σ batch).
  destruct (wf_participant σ Hwf _ _ Hpar) as (_ & _ & _ & _ & _ & _ & _ & _ & sc0 & Hsc0 & Hr & Hin).
  assert (sc0 = sc) as -> by (unfold root_of in Hsc; congruence).
  assert (sc_owner sc = owner) as Ho.
  { destruct (wf_scope σ Hwf _ _ Hsc) as (_ & _ & _ & _ & _ & _ & _ & Hall). rewrite Forall_forall in Hall.
    destruct (Hall _ Hin) as (s & Hs & _ & <-). assert (s = parent) as -> by congruence. done. }
  assert (σ (participant_stream id) = []) as Hep
    by (apply (at_version_empty σ batch [_] _ _ Hv eq_refl); [by apply Forall_singleton|done]).
  assert (index_fit i) as Hfi by (unfold index_fit; cbn; unfold generation; lia).
  assert (forall k, σ2 (job_key_stream k) = (σ (job_key_stream k)
    ++ if String.eqb (sha256_hex job_id) k then [record_to_value i] else [])%list) as Ej
    by (intros k; unfold σ2, batch; streams).
  assert (forall k, σ2 (run_key_stream k) = σ (run_key_stream k)) as Er by (intros k; unfold σ2, batch; streams).
  assert (participant_fit s') as Hf.
  { unfold participant_fit; cbn; unfold generation. split_and!; try lia; [unfold u64_max; lia..|apply Forall_nil_2]. }
  assert (scope_fit sc') as Hfs by exact (latest_fit _ _ (wf_scopes σ Hwf _) Hsc).
  assert (forall k, σ2 (scope_stream k) = (σ (scope_stream k)
    ++ if true && String.eqb (scope_key s') k then [record_to_value sc'] else [])%list) as Es.
  { intros k. change (scope_key s') with (sha256_hex (root_of parent)). rewrite <- (Hr : _ = root_of parent).
    unfold σ2, batch; streams. }
  assert (forall sc0, scop σ (scope_key s') = Some sc0 -> sc0 = sc) as Heq
    by (intros sc0 Hs0; change (scope_key s') with (sha256_hex (root_of parent)) in Hs0; congruence).
  assert (local_update σ σ2 id s' sc') as Hu.
  { apply new_update; try done; try solve [intros k; unfold σ2, batch; streams].
    intros sc0 Hs0. by rewrite (Heq sc0 Hs0). }
  apply (new_wf σ σ2 id s' sc'); try done; try solve [intros k; unfold σ2, batch; streams].
  - intros sc0 Hs0. by rewrite (Heq sc0 Hs0).
  - change (scope_key s') with (sha256_hex (root_of parent)). by rewrite Hsc.
  - intros k. rewrite Er. apply (wf_runs σ Hwf).
  - intros k. rewrite Ej. apply typed_if; [done|apply (wf_jobs σ Hwf)].
  - intros k. rewrite Ej. destruct (String.eqb_spec (sha256_hex job_id) k) as [<-|_].
    + by apply (job_snoc σ σ2 id s' sc'); [|apply (wf_job σ Hwf)|..].
    + rewrite app_nil_r. apply (job_later σ σ2 id s' sc' Hu), (wf_job σ Hwf).
  - intros k i0. rewrite Er. intros Hi0. apply (run_later σ σ2 id s' sc' Hu). by eapply (wf_run σ Hwf).
  - intros k. exists []. by rewrite app_nil_r, Er.
Qed.

(** ** Admitting a message *)

Section Admit.
Context (σ : store) (id : string) (s : ParticipantState) (sc : ScopeState) (m : AgentMessage).
Context (Hwf : comm_wf σ) (Hs : part σ id = Some s) (Hopen : is_open s = true)
  (Hsc : scop σ (sha256_hex (root_of s)) = Some sc).
Context (Hrec : am_recipient_id m = id) (Hroot : am_root_run_id m = root_of s) (Hacc : am_receipt m = Accepted)
  (Hseq : am_sequence m = (pt_accepted s + 1)%N) (Htext : (1 <= slen (am_text m) <= MAX_AGENT_MESSAGE_BYTES)%N)
  (Hsend : sender_ok σ m s) (Hroom : inbox_full s sc (am_text m) = false) (Htoken : valid_token (am_id m) = true).
Context (k fingerprint : string) (owner : Actor) (version_read scope_version feed_version : N).
#[local] Abbreviation s' := (admitted m s).
#[local] Abbreviation sc' := (scope_admitted m sc).
#[local] Abbreviation batch := (admission_events owner ("agent-message-key:" ++s k) fingerprint s version_read sc
  scope_version feed_version m).
Context (Hv : at_version σ batch).
#[local] Abbreviation σ2 := (append_to σ batch).

Lemma admit_member : id ∈ sc_participants sc /\ sc_root_run_id sc = root_of s.
Proof.
  destruct (wf_participant σ Hwf _ _ Hs) as (_ & _ & _ & _ & _ & _ & _ & _ & sc0 & Hsc0 & Hr & Hin).
  assert (sc0 = sc) as -> by (unfold root_of in Hsc; congruence). done.
Qed.
Lemma admit_room :
  (count (pt_pending s) < MAX_AGENT_INBOX_MESSAGES)%N /\
  (ap_pending_bytes (pt_participant s) + slen (am_text m) <= MAX_AGENT_INBOX_BYTES)%N /\
  (sc_accepted sc < MAX_SCOPE_MESSAGES)%N /\
  (sc_pending_bytes sc + slen (am_text m) <= MAX_SCOPE_PENDING_BYTES)%N /\ (pt_accepted s < MAX_SCOPE_MESSAGES)%N.
Proof.
  unfold inbox_full, saturating_add, MAX_AGENT_INBOX_BYTES, MAX_SCOPE_PENDING_BYTES, u64_max in *.
  apply orb_false_iff in Hroom as [Hroom1 Hr4]. apply orb_false_iff in Hroom1 as [Hroom1 Hr3].
  apply orb_false_iff in Hroom1 as [Hr1 Hr2].
  apply N.leb_gt in Hr1, Hr3. apply N.ltb_ge in Hr2, Hr4.
  destruct (wf_scope σ Hwf _ _ Hsc) as (_ & _ & _ & Hsum & _).
  pose proof (sum_by_le (accepted_of σ) _ _ (proj1 admit_member)) as Hle.
  unfold accepted_of at 1 in Hle. rewrite Hs in Hle. split_and!; lia.
Qed.
Lemma admit_new : σ (message_stream (am_id m)) = [] /\ mess σ (am_id m) = None.
Proof.
  assert (σ (message_stream (am_id m)) = []) as He.
  { apply (at_version_empty σ batch [_; _] _ _ Hv eq_refl); [|done]. by repeat constructor. }
  split; [done|]. unfold mess. by rewrite He.
Qed.
Lemma admit_fits : participant_fit s' /\ scope_fit sc' /\ message_fit m.
Proof.
  destruct admit_room as (Hc & Hb & Ha & Hsb & Hp).
  destruct (latest_fit _ _ (wf_participants σ Hwf id) Hs) as (Hg & _ & _ & _ & Hf).
  unfold MAX_AGENT_INBOX_BYTES, MAX_SCOPE_MESSAGES, MAX_SCOPE_PENDING_BYTES, MAX_AGENT_INBOX_MESSAGES in *.
  unfold participant_fit, scope_fit, message_fit. cbn [admitted scope_admitted pt_participant pt_pending
    pt_accepted ap_generation ap_pending_messages ap_pending_bytes sc_accepted sc_pending_bytes].
  rewrite Hseq, Hacc. unfold count, u64_max in *. rewrite length_app. cbn [length receipt_fit].
  split_and!; try done; try lia. apply Forall_app. split; [done|]. apply Forall_singleton. cbn. lia.
Qed.
(** The streams. *)
Lemma admit_participants id0 : σ2 (participant_stream id0)
  = (σ (participant_stream id0) ++ if String.eqb id id0 then [record_to_value s'] else [])%list.
Proof. rewrite <- Hrec. unfold admission_events. streams. Qed.
Lemma admit_scopes k0 : σ2 (scope_stream k0)
  = (σ (scope_stream k0) ++ if true && String.eqb (scope_key s') k0 then [record_to_value sc'] else [])%list.
Proof. change (scope_key s') with (sha256_hex (root_of s)). rewrite <- Hroot. unfold admission_events. streams. Qed.
Lemma admit_messages mid : σ2 (message_stream mid)
  = (σ (message_stream mid) ++ if String.eqb (am_id m) mid then [record_to_value m] else [])%list.
Proof. unfold admission_events. streams. Qed.
Lemma admit_inboxes id0 : σ2 (inbox_stream id0)
  = (σ (inbox_stream id0) ++ if String.eqb id id0 then [Str (am_id m)] else [])%list.
Proof. rewrite <- Hrec. unfold admission_events. streams. Qed.
Lemma admit_mess mid : mess σ2 mid = if String.eqb (am_id m) mid then Some m else mess σ mid.
Proof. unfold mess. rewrite admit_messages. apply latest_if, admit_fits. Qed.
Lemma admit_old mid m0 : mess σ mid = Some m0 -> mess σ2 mid = Some m0.
Proof.
  intros Hm. rewrite admit_mess. destruct (String.eqb_spec (am_id m) mid) as [<-|_]; [|done].
  by rewrite (proj2 admit_new) in Hm.
Qed.
Lemma admit_evolves : evolves s s'.
Proof. split_and!; [done|done|]. cbn. lia. Qed.
Lemma admit_update : local_update σ σ2 id s' sc'.
Proof.
  destruct admit_fits as (Hf & Hfs & _).
  apply (local_update_of σ σ2 id s' sc' true Hf Hfs admit_participants admit_scopes); try done.
  - intros s0 Hs0. assert (s0 = s) as -> by congruence. apply admit_evolves.
  - intros sc0 Hsc0. change (scope_key s') with (sha256_hex (root_of s)) in Hsc0.
    by assert (sc0 = sc) as -> by congruence.
  - intros mid m0 Hm0 _. by apply admit_old.
  - intros mid m0. rewrite admit_mess. destruct (String.eqb_spec (am_id m) mid) as [<-|_]; [|done].
    intros [= <-]. by rewrite Hrec.
  - intros id0 Hne. by rewrite admit_inboxes, eqb_ne, app_nil_r.
Qed.
Lemma admit_participant : participant_ok σ2 id s'.
Proof.
  destruct (wf_participant σ Hwf _ _ Hs) as (Hid & Hc & Hb & _ & _ & Hcl & Ho & Hp & _).
  destruct admit_room as (Hc1 & Hb1 & _). destruct admit_member as [Hin Hr].
  unfold participant_ok. cbn [admitted pt_participant pt_pending ap_id ap_pending_messages ap_pending_bytes
    ap_open ap_closed_reason ap_root_run_id].
  split_and!; try done.
  - rewrite sum_by_app, Hb. cbn. lia.
  - unfold count in *. rewrite length_app. simpl. lia.
  - unfold is_open in Hopen. by rewrite Hopen.
  - apply Forall_app. split.
    + eapply Forall_impl; [exact Hp|]. intros i (m0 & Hm0 & Hx). exists m0. split; [by apply admit_old|done].
    + apply Forall_singleton. exists m. cbn. by rewrite admit_mess, String.eqb_refl.
  - exists sc'. split_and!; [apply (lu_scope _ _ _ _ _ admit_update)|exact Hr|exact Hin].
Qed.
Lemma admit_scope : scope_ok σ2 (scope_key s') sc'.
Proof.
  destruct (wf_scope σ Hwf _ _ Hsc) as (Hk & Hnd & Hcp & Ha & _ & Hby & _ & Hall).
  destruct admit_member as [Hin Hr]. destruct admit_room as (_ & _ & Hr3 & Hr4 & _).
  pose proof (part_after σ σ2 id s' (proj1 admit_fits) admit_participants) as Hpart.
  assert (accepted_of σ2 id = pt_accepted s + 1 /\ accepted_of σ id = pt_accepted s /\
    bytes_of σ2 id = ap_pending_bytes (pt_participant s) + slen (am_text m) /\
    bytes_of σ id = ap_pending_bytes (pt_participant s))%N as (Ha1 & Ha2 & Hb1 & Hb2)
    by (unfold accepted_of, bytes_of; by rewrite Hpart, String.eqb_refl, Hs).
  assert (forall q, q <> id -> accepted_of σ q = accepted_of σ2 q) as Hqa
    by (intros q Hne; unfold accepted_of; by rewrite Hpart, eqb_ne).
  assert (forall q, q <> id -> bytes_of σ q = bytes_of σ2 q) as Hqb
    by (intros q Hne; unfold bytes_of; by rewrite Hpart, eqb_ne).
  pose proof (sum_by_change _ _ _ _ Hnd Hin Hqa) as Hsa. pose proof (sum_by_change _ _ _ _ Hnd Hin Hqb) as Hsb.
  unfold scope_ok. cbn [scope_admitted sc_root_run_id sc_participants sc_accepted sc_pending_bytes sc_owner].
  split_and!; try done; try lia.
  eapply Forall_impl; [exact Hall|]. intros q (s0 & Hs0 & Hr0 & Ho0).
  destruct (part_later σ σ2 id s' sc' admit_update _ _ Hs0) as (s1 & Hs1 & He1). exists s1.
  rewrite (evolves_root _ _ He1), (evolves_owner _ _ He1). done.
Qed.
Lemma admit_sent mid m0 : mess σ2 mid = Some m0 -> am_recipient_id m0 = id -> message_ok σ2 mid m0.
Proof.
  assert (forall s0, part σ id = Some s0 -> evolves s0 s') as Hev.
  { intros s0 Hs0. assert (s0 = s) as -> by congruence. apply admit_evolves. }
  intros Hm0 Hr0. rewrite admit_mess in Hm0. destruct (String.eqb_spec (am_id m) mid) as [<-|_].
  - injection Hm0 as <-. split_and!; [done|apply Htext|apply Htext|]. exists s'. rewrite Hrec.
    split_and!; [apply (lu_part _ _ _ _ _ admit_update)|by rewrite Hroot| |].
    + intros _. unfold pending_ids. cbn. rewrite fmap_app. apply elem_of_app. right. by left.
    + eapply sender_later; [apply admit_update|apply admit_evolves|done].
  - eapply (sent_message σ σ2 id s' sc' Hwf (proj1 admit_fits) admit_participants Hev s); try done; [apply admit_update|].
    intros _ Hin. unfold pending_ids. cbn. rewrite fmap_app. apply elem_of_app. by left.
Qed.
Lemma admit_inbox : inbox_ok σ2 id.
Proof.
  destruct (wf_inbox σ Hwf id) as (ids & Hi & Hc & Hm & Hp). destruct (Hp s Hs) as [settled Hids].
  unfold accepted_of in Hc. rewrite Hs in Hc.
  exists (ids ++ [am_id m])%list. rewrite admit_inboxes, String.eqb_refl, Hi, fmap_app. unfold accepted_of.
  rewrite (part_after σ σ2 id s' (proj1 admit_fits) admit_participants), String.eqb_refl. split_and!; [done| | |].
  - unfold count in *. rewrite length_app. cbn. lia.
  - intros n mid Hn. destruct (decide (n < length ids)) as [Hlt|Hge].
    + rewrite lookup_app_l in Hn by done. destruct (Hm n mid Hn) as (m0 & Hm0 & Hx). exists m0.
      split; [by apply admit_old|done].
    + rewrite lookup_app_r in Hn by lia. destruct (n - length ids) as [|x] eqn:Hx; [|done]. injection Hn as <-.
      exists m. rewrite admit_mess, String.eqb_refl. split_and!; [done|done|]. unfold count in Hc. lia.
  - intros s0 [= <-]. exists settled. unfold pending_ids. cbn. by rewrite fmap_app, Hids, app_assoc.
Qed.
Lemma admit_wf : comm_wf σ2.
Proof.
  destruct admit_fits as (Hf & Hfs & Hfm).
  apply (local_wf σ σ2 id s' sc' Hwf admit_update).
  - exact (parts_typed σ σ2 id s' Hwf Hf admit_participants).
  - exact (scopes_typed σ σ2 s' sc' true Hwf Hfs admit_scopes).
  - intros k0. assert (σ2 (run_key_stream k0) = σ (run_key_stream k0)) as -> by (unfold admission_events; streams).
    apply (wf_runs σ Hwf).
  - intros k0. assert (σ2 (job_key_stream k0) = σ (job_key_stream k0)) as -> by (unfold admission_events; streams).
    apply (wf_jobs σ Hwf).
  - intros k0. assert (σ2 ("agent-message-key:" ++s k0) = (σ ("agent-message-key:" ++s k0)
      ++ if String.eqb k k0 then [record_to_value (mkMessageClaim fingerprint (am_id m))] else [])%list) as ->
      by (unfold admission_events; streams).
    apply single_if; [done| |apply (wf_claims σ Hwf)]. intros <-%String.eqb_eq.
    apply (at_version_empty σ batch [_; _; _; _] _ _ Hv eq_refl); [by repeat constructor|done].
  - intros k0. assert (σ2 ("agent-feed:" ++s k0) = (σ ("agent-feed:" ++s k0)
      ++ if String.eqb (sha256_hex (am_root_run_id m)) k0 then [record_to_value m] else [])%list) as ->
      by (unfold admission_events; streams). apply typed_if; [done|apply (wf_feeds σ Hwf)].
  - intros mid. rewrite admit_messages. destruct (String.eqb_spec (am_id m) mid) as [<-|_];
      [rewrite (proj1 admit_new)|rewrite app_nil_r; apply (wf_messages σ Hwf)].
    right. exists m. split_and!; [done|exact Hfm|by left].
  - apply admit_participant.
  - apply admit_scope.
  - apply admit_sent.
  - apply admit_inbox.
  - intros k0. assert (σ2 (job_key_stream k0) = σ (job_key_stream k0)) as -> by (unfold admission_events; streams).
    apply (job_later σ σ2 id s' sc' admit_update), (wf_job σ Hwf).
  - intros k0 i. assert (σ2 (run_key_stream k0) = σ (run_key_stream k0)) as -> by (unfold admission_events; streams).
    intros Hi. apply (run_later σ σ2 id s' sc' admit_update). by eapply (wf_run σ Hwf).
  - refine (parts_evolve σ σ2 id s' Hf admit_participants _).
    intros s0 Hs0. assert (s0 = s) as -> by congruence. apply admit_evolves.
  - exact (part_new σ id Hwf).
  - exact (part_name σ id s Hwf Hs).
  - intros mid. rewrite admit_messages. destruct (String.eqb_spec (am_id m) mid) as [<-|_]; [by right|].
    rewrite app_nil_r. by left.
  - intros k0. exists []. rewrite app_nil_r. unfold admission_events. streams.
  - intros r Hr. right. by exists s.
Qed.
End Admit.
End Step.
