(* ===== verification/CommunicationSettle.v ===== *)
(** * Settling pending messages keeps the invariant

    The last batch of the communication service: some of the pending messages get their
    receipt, in order, and come off the inbox and the account of the scope.  With it, every
    batch keeps [comm_wf]. *)

From S2P Require Import Prelude Json Contracts Boundary Platform JournalStore Journal Store.
From S2P Require Import JournalModel JournalAppend StoreSpec StoreCorrect SessionContracts Session.
From S2P Require Import WorkContracts Work WorkService Communication CommunicationModel CommunicationStep.

Open Scope string_scope.

Section Settle.
Context `{Externals} `{CommunicationCodecsOk}.

Lemma typed_messages l : message_run l -> typed_as message_fit l.
Proof.
  intros [->|(m & Ha & Hf & [->|(r & _ & Hr & ->)])]; [apply Forall_nil_2|by apply typed_single_record|].
  apply Forall_cons. split; [by exists m|]. apply typed_single_record. split; [apply Hf|done].
Qed.
(** A stored message that is accepted has one event. *)
Lemma accepted_run l m :
  message_run l -> latest l = Some m -> am_receipt m = Accepted -> l = [record_to_value m] /\ message_fit m.
Proof.
  intros [->|(m0 & Ha & Hf & [->|(r & Hr & Hrf & ->)])] Hl Hm; [done| |].
  - unfold latest in Hl. cbn in Hl. rewrite decode_stored in Hl by done. by injection Hl as <-.
  - unfold latest in Hl. cbn in Hl. rewrite decode_stored in Hl by (split; [apply Hf|done]). injection Hl as <-.
    by destruct Hr.
Qed.

(** ** What the receipts append *)

Section Receipts.
Context (σ : store) (sc : ScopeState) (context : ExecutionContext) (r : AgentMessageReceipt).

Lemma receipts_message feed ms mid :
  written_to (message_stream mid) (settle_events σ sc context r feed ms)
  = (fun m => record_to_value (with_receipt r m)) <$> List.filter (fun m => String.eqb (am_id m) mid) ms.
Proof.
  revert feed. induction ms as [|m ms IH]; intros feed; [done|]. cbn [settle_events List.filter].
  rewrite written_app, IH. unfold receipt_events, event, event_of, feed_stream, message_stream.
  rewrite !written_cons. cbn [ne_stream_id ne_payload am_id with_receipt].
  change (String.eqb ("agent-feed:" ++s sha256_hex (sc_root_run_id sc)) ("agent-message:" ++s mid)) with false.
  change (String.eqb ("agent-message:" ++s am_id m) ("agent-message:" ++s mid)) with (String.eqb (am_id m) mid).
  by destruct (String.eqb (am_id m) mid).
Qed.
Lemma receipts_feed feed ms k :
  receipt_fit r -> Forall message_fit ms ->
  typed_as message_fit (written_to ("agent-feed:" ++s k) (settle_events σ sc context r feed ms)).
Proof.
  intros Hr Hf. revert feed. induction Hf as [|m ms Hm _ IH]; intros feed; [apply Forall_nil_2|]. cbn [settle_events].
  rewrite written_app. apply Forall_app. split; [|apply IH].
  unfold receipt_events, event, event_of, feed_stream, message_stream.
  rewrite !written_cons. cbn [ne_stream_id ne_payload am_id with_receipt].
  change (String.eqb ("agent-message:" ++s am_id m) ("agent-feed:" ++s k)) with false.
  destruct (String.eqb _ ("agent-feed:" ++s k)); [|apply Forall_nil_2]. cbn [app].
  apply typed_single_record. split; [apply Hm|done].
Qed.
(** No stream but those of messages and feeds. *)
Lemma receipts_off feed ms s :
  starts_with s "agent-message:" = false -> starts_with s "agent-feed:" = false ->
  Forall (fun e => ne_stream_id e <> s) (settle_events σ sc context r feed ms).
Proof.
  intros Hm Hf. revert feed. induction ms as [|m ms IH]; intros feed; [apply Forall_nil_2|]. cbn [settle_events].
  apply Forall_app. split; [|apply IH].
  apply Forall_cons. split; [|apply Forall_singleton]; intros Hst;
    cbn [ne_stream_id event event_of] in Hst; unfold message_stream, feed_stream in Hst;
    [rewrite <- Hst, starts_with_self in Hm|rewrite <- Hst, starts_with_self in Hf]; done.
Qed.
End Receipts.

(** ** The batch *)

Section Batch.
Context (σ : store) (id : string) (s s' : ParticipantState) (sc : ScopeState) (r : AgentMessageReceipt) (n : nat)
  (ms : list AgentMessage) (context : ExecutionContext) (kind : string) (version_read scope_version feed : N).
Context (Hwf : comm_wf σ) (Hs : part σ id = Some s) (Hopen : is_open s = true)
  (Hsc : scop σ (sha256_hex (root_of s)) = Some sc) (Hr : r <> Accepted) (Hrf : receipt_fit r)
  (Hn : n <= length (pt_pending s))
  (Hms : Forall2 (fun i m => mess σ (pi_id i) = Some m) (take n (pt_pending s)) ms) (Hto : settled_to n s s').
#[local] Abbreviation sc' :=
  (with_pending_bytes (sc_pending_bytes sc - sum_by pi_bytes (take n (pt_pending s))) sc).
#[local] Abbreviation batch := (settle_events σ sc context r feed ms ++
  [event (participant_stream id) version_read kind (sc_owner sc) context s';
   event (root_stream (sc_root_run_id sc)) scope_version "scope" (sc_owner sc) context sc'])%list.
#[local] Abbreviation σ2 := (append_to σ batch).

Lemma settle_member : id ∈ sc_participants sc /\ sc_root_run_id sc = root_of s.
Proof.
  destruct (wf_participant σ Hwf _ _ Hs) as (_ & _ & _ & _ & _ & _ & _ & _ & sc0 & Hsc0 & Hroot & Hin).
  assert (sc0 = sc) as -> by (unfold root_of in Hsc; congruence). done.
Qed.
(** The settled messages. *)
Lemma settle_messages :
  am_id <$> ms = take n (pending_ids s) /\
  Forall (fun m => mess σ (am_id m) = Some m /\ am_receipt m = Accepted /\ am_recipient_id m = id) ms.
Proof.
  destruct (wf_participant σ Hwf _ _ Hs) as (_ & _ & _ & _ & _ & _ & _ & Hp & _).
  assert (Forall2 (fun i m => mess σ (pi_id i) = Some m /\ am_id m = pi_id i /\ am_receipt m = Accepted /\
    am_recipient_id m = id) (take n (pt_pending s)) ms) as Hall.
  { apply (Forall_take _ n) in Hp. pose proof Hms as Hf. clear -Hf Hp Hwf.
    induction Hf as [|i m l l' Him _ IH]; [constructor|]. apply Forall_cons in Hp as [(m0 & Hm0 & Ha & Hrec & _) Hp].
    constructor; [|by apply IH]. assert (m0 = m) as -> by congruence. split_and!; try done.
    by apply (wf_message σ Hwf) in Him as [Hid _]. }
  split.
  - unfold pending_ids. rewrite <- fmap_take. clear -Hall. induction Hall as [|i m l l' (_ & Hid & _) _ IH]; [done|].
    by rewrite !fmap_cons, IH, Hid.
  - clear -Hall. induction Hall as [|i m l l' (Hm & Hid & Ha & Hrec) _ IH]; [constructor|].
    constructor; [by rewrite Hid|done].
Qed.
Lemma pending_nodup : NoDup (pending_ids s).
Proof.
  destruct (wf_inbox σ Hwf id) as (ids & _ & _ & Hm & Hp). destruct (Hp s Hs) as [settled ->].
  assert (NoDup (settled ++ pending_ids s)) as Hnd; [|by apply NoDup_app in Hnd as (_ & _ & ?)].
  apply NoDup_alt. intros i j x Hi Hj.
  destruct (Hm i x Hi) as (m & Hmi & _ & Hsi). destruct (Hm j x Hj) as (m' & Hmj & _ & Hsj).
  assert (m' = m) as -> by congruence. lia.
Qed.
Lemma settle_split : pending_ids s = ((am_id <$> ms) ++ pending_ids s')%list.
Proof.
  destruct Hto as (_ & Hd & _). rewrite (proj1 settle_messages). unfold pending_ids. rewrite Hd, fmap_drop.
  by rewrite take_drop.
Qed.
Lemma settle_disjoint mid : mid ∈ am_id <$> ms -> mid ∈ pending_ids s' -> False.
Proof.
  pose proof pending_nodup as Hnd. rewrite settle_split in Hnd. apply NoDup_app in Hnd as (_ & Hd & _).
  intros H1' H2'. by apply (Hd mid).
Qed.
Lemma settle_filter m : m ∈ ms -> List.filter (fun x => String.eqb (am_id x) (am_id m)) ms = [m].
Proof.
  pose proof pending_nodup as Hnd. rewrite settle_split in Hnd. apply NoDup_app in Hnd as (Hnd & _ & _).
  clear -Hnd. induction ms as [|x l IH]; intros Hin; [by apply elem_of_nil in Hin|].
  rewrite fmap_cons in Hnd. apply NoDup_cons in Hnd as [Hx Hnd]. apply elem_of_cons in Hin as [->|Hin]; simpl.
  - rewrite String.eqb_refl, filter_none; [done|]. apply Forall_forall. intros y Hy. apply String.eqb_neq.
    intros Heq. apply Hx. rewrite <- Heq. by apply list_elem_of_fmap_2.
  - destruct (String.eqb_spec (am_id x) (am_id m)) as [Heq|_]; [|by apply IH].
    exfalso. apply Hx. rewrite Heq. by apply list_elem_of_fmap_2.
Qed.
(** The streams. *)
Lemma settle_off st : starts_with st "agent-message:" = false -> starts_with st "agent-feed:" = false ->
  written_to st batch = written_to st
  [event (participant_stream id) version_read kind (sc_owner sc) context s';
   event (root_stream (sc_root_run_id sc)) scope_version "scope" (sc_owner sc) context sc'].
Proof. intros Hm Hf. by rewrite written_app, (written_off st) by (by apply receipts_off). Qed.
Ltac settled_stream := unfold append_to; rewrite settle_off by done;
  unfold event, event_of, participant_stream, scope_stream, root_stream, inbox_stream, run_key_stream,
    job_key_stream; rewrite ?written_cons; cbn [ne_stream_id ne_payload]; 
  repeat match goal with
  | |- context [String.eqb (?p ++s ?a) (?q ++s ?b)] =>
      first [ change (String.eqb (p ++s a) (q ++s b)) with false
            | change (String.eqb (p ++s a) (q ++s b)) with (String.eqb a b) ]
  end; rewrite ?app_nil_r; try reflexivity.
Lemma settle_participants id0 : σ2 (participant_stream id0)
  = (σ (participant_stream id0) ++ if String.eqb id id0 then [record_to_value s'] else [])%list.
Proof. settled_stream. Qed.
Lemma settle_scopes k : σ2 (scope_stream k)
  = (σ (scope_stream k) ++ if true && String.eqb (scope_key s') k then [record_to_value sc'] else [])%list.
Proof.
  assert (scope_key s' = sha256_hex (sc_root_run_id sc)) as ->.
  { destruct Hto as [Hi _]. unfold scope_key. rewrite (proj2 settle_member). unfold identity in Hi. unfold root_of. congruence. }
  settled_stream.
Qed.
Lemma settle_inboxes k : σ2 (inbox_stream k) = σ (inbox_stream k).
Proof. settled_stream. Qed.
Lemma settle_runs k : σ2 (run_key_stream k) = σ (run_key_stream k).
Proof. settled_stream. Qed.
Lemma settle_jobs k : σ2 (job_key_stream k) = σ (job_key_stream k).
Proof. settled_stream. Qed.
Lemma settle_claims k : σ2 ("agent-message-key:" ++s k) = σ ("agent-message-key:" ++s k).
Proof. settled_stream. Qed.

Lemma settle_identity : identity s' = identity s /\ evolves s s'.
Proof.
  destruct Hto as (Hi & _ & Ha & _). split; [done|]. split_and!; [done| |by rewrite Ha].
  unfold is_open in *. congruence.
Qed.
Lemma settle_key : scope_key s' = sha256_hex (root_of s).
Proof. unfold scope_key. by rewrite (evolves_root _ _ (proj2 settle_identity)). Qed.
Lemma settle_sum : (sum_by pi_bytes (take n (pt_pending s)) + sum_by pi_bytes (pt_pending s')
  = ap_pending_bytes (pt_participant s))%N.
Proof.
  destruct (wf_participant σ Hwf _ _ Hs) as (_ & _ & Hb & _). destruct Hto as (_ & Hd & _).
  rewrite Hb, Hd, <- sum_by_app. by rewrite take_drop.
Qed.
Lemma settle_bytes : (ap_pending_bytes (pt_participant s) <= sc_pending_bytes sc)%N.
Proof.
  destruct (wf_scope σ Hwf _ _ Hsc) as (_ & _ & _ & _ & _ & Hsum & _).
  pose proof (sum_by_le (bytes_of σ) _ _ (proj1 settle_member)) as Hle.
  unfold bytes_of at 1 in Hle. rewrite Hs in Hle. lia.
Qed.
Lemma settle_fits : participant_fit s' /\ scope_fit sc'.
Proof.
  destruct (latest_fit _ _ (wf_participants σ Hwf id) Hs) as (Hg & Hpm & Hpb & Ha & Hf).
  destruct (latest_fit _ _ (wf_scopes σ Hwf _) Hsc) as [Hsa Hsb].
  destruct (wf_participant σ Hwf _ _ Hs) as (_ & Hc & _).
  pose proof settle_sum as Hsum. destruct Hto as (Hi & Hd & Hacc & Hm & Hb & _). split.
  - assert (ap_generation (pt_participant s') = ap_generation (pt_participant s)) as Hgen
      by (unfold identity in Hi; congruence).
    unfold participant_fit. rewrite Hgen, Hm, Hb, Hacc, Hd in *. unfold count in *. rewrite length_drop.
    split_and!; try done; try lia. by apply Forall_drop.
  - unfold scope_fit. cbn. lia.
Qed.
(** The messages after the batch. *)
Lemma settle_run m : m ∈ ms ->
  σ (message_stream (am_id m)) = [record_to_value m] /\ message_fit m /\
  σ2 (message_stream (am_id m)) = [record_to_value m; record_to_value (with_receipt r m)].
Proof.
  intros Hin. pose proof (proj2 settle_messages) as Hall. rewrite Forall_forall in Hall.
  destruct (Hall m Hin) as (Hm & Ha & _).
  destruct (accepted_run _ _ (wf_messages σ Hwf (am_id m)) Hm Ha) as [Hrun Hfit]. split_and!; try done.
  unfold append_to. rewrite written_app, receipts_message, settle_filter, Hrun by done.
  rewrite written_off; [done|]. by repeat constructor.
Qed.
Lemma settle_kept mid : mid ∉ am_id <$> ms -> σ2 (message_stream mid) = σ (message_stream mid).
Proof.
  intros Hni. unfold append_to. rewrite written_app, receipts_message.
  rewrite filter_none, written_off; [by rewrite app_nil_r|by repeat constructor|].
  apply Forall_forall. intros m Hm. apply String.eqb_neq. intros <-. apply Hni. by apply list_elem_of_fmap_2.
Qed.
Lemma settle_mess_in m : m ∈ ms -> mess σ2 (am_id m) = Some (with_receipt r m).
Proof.
  intros Hin. destruct (settle_run m Hin) as (_ & Hf & He). unfold mess. rewrite He.
  apply (latest_snoc [record_to_value m]). split; [apply Hf|done].
Qed.
Lemma settle_mess_out mid : mid ∉ am_id <$> ms -> mess σ2 mid = mess σ mid.
Proof. intros Hni. unfold mess. by rewrite settle_kept. Qed.
(** What a message keeps. *)
Lemma settle_mess mid m : mess σ mid = Some m ->
  (exists m', mess σ2 mid = Some m' /\ am_recipient_id m' = am_recipient_id m /\ am_sequence m' = am_sequence m) /\
  (am_recipient_id m <> id -> mid ∉ am_id <$> ms).
Proof.
  intros Hm. pose proof (proj2 settle_messages) as Hall. rewrite Forall_forall in Hall. split.
  - destruct (decide (mid ∈ am_id <$> ms)) as [Hin|Hni].
    + apply list_elem_of_fmap_1 in Hin as (x & -> & Hin). destruct (Hall x Hin) as (Hx & _).
      assert (x = m) as -> by congruence. exists (with_receipt r m). by rewrite settle_mess_in.
    + exists m. by rewrite settle_mess_out.
  - intros Hne Hin. apply list_elem_of_fmap_1 in Hin as (x & -> & Hin).
    destruct (Hall x Hin) as (Hx & _ & Hrec). congruence.
Qed.
Lemma settle_update : local_update σ σ2 id s' sc'.
Proof.
  destruct settle_fits as (Hf & Hfs). destruct settle_identity as [Hi Hev].
  apply (local_update_of σ σ2 id s' sc' true Hf Hfs settle_participants settle_scopes); try done.
  - intros s0 Hs0. by assert (s0 = s) as -> by congruence.
  - intros sc0 Hsc0. rewrite settle_key in Hsc0. by assert (sc0 = sc) as -> by congruence.
  - intros mid m Hm Hne. rewrite settle_mess_out; [done|]. by apply (settle_mess mid m Hm).
  - intros mid m Hm Hne. destruct (decide (mid ∈ am_id <$> ms)) as [Hin|Hni]; [|by rewrite settle_mess_out in Hm].
    apply list_elem_of_fmap_1 in Hin as (x & -> & Hin). rewrite settle_mess_in in Hm by done. injection Hm as <-.
    pose proof (proj2 settle_messages) as Hall. rewrite Forall_forall in Hall. by destruct (Hall x Hin) as (_ & _ & ?).
  - intros id0 _. apply settle_inboxes.
Qed.
Lemma settle_participant : participant_ok σ2 id s'.
Proof.
  destruct (wf_participant σ Hwf _ _ Hs) as (Hid & _ & _ & Hmax & Hbm & _ & _ & Hp & _).
  destruct settle_member as [Hin Hroot]. pose proof settle_sum as Hsum. pose proof settle_split as Hsplit.
  destruct Hto as (Hi & Hd & _ & Hm & Hb & Ho & Hcl & _). unfold participant_ok. rewrite Hm, Hb.
  split_and!; try done.
  - unfold identity in Hi. congruence.
  - unfold count in *. rewrite Hd, length_drop. lia.
  - lia.
  - apply Forall_forall. intros i Hin'. rewrite Forall_forall in Hp.
    assert (i ∈ pt_pending s) as Hold by (rewrite Hd in Hin'; rewrite <- (take_drop n (pt_pending s)); apply elem_of_app; by right).
    destruct (Hp i Hold) as (m & Hmi & Hx). exists m. split; [|done]. rewrite settle_mess_out; [done|].
    intros Hs'. apply (settle_disjoint _ Hs'). unfold pending_ids. by apply list_elem_of_fmap_2.
  - exists sc'. split_and!; [apply (lu_scope _ _ _ _ _ settle_update)| |exact Hin].
    cbn. rewrite Hroot. by rewrite <- (evolves_root _ _ (proj2 settle_identity)).
Qed.
Lemma settle_scope : scope_ok σ2 (scope_key s') sc'.
Proof.
  destruct (wf_scope σ Hwf _ _ Hsc) as (Hk & Hnd & Hcp & Ha & Hac & Hby & Hbc & Hall).
  destruct settle_member as [Hin Hroot]. pose proof settle_sum as Hsum. pose proof settle_bytes as Hle.
  pose proof (part_after σ σ2 id s' (proj1 settle_fits) settle_participants) as Hpart.
  assert (accepted_of σ2 id = accepted_of σ id /\ bytes_of σ2 id = sum_by pi_bytes (pt_pending s') /\
    bytes_of σ id = ap_pending_bytes (pt_participant s)) as (Ha1 & Hb1 & Hb2).
  { destruct Hto as (_ & _ & Hacc & _ & Hb & _). unfold accepted_of, bytes_of. rewrite Hpart, String.eqb_refl, Hs. by rewrite Hacc, Hb. }
  assert (forall q, accepted_of σ q = accepted_of σ2 q) as Hqa.
  { intros q. destruct (decide (q = id)) as [->|Hne]; [done|]. unfold accepted_of. by rewrite Hpart, eqb_ne. }
  assert (forall q, q <> id -> bytes_of σ q = bytes_of σ2 q) as Hqb
    by (intros q Hne; unfold bytes_of; by rewrite Hpart, eqb_ne).
  pose proof (sum_by_change _ _ _ _ Hnd Hin Hqb) as Hsb. rewrite settle_key.
  unfold scope_ok. cbn [with_pending_bytes sc_root_run_id sc_participants sc_accepted sc_pending_bytes sc_owner].
  split_and!; try done; try lia.
  - rewrite Ha. apply sum_by_ext. intros q _. apply Hqa.
  - eapply Forall_impl; [exact Hall|]. intros q (s0 & Hs0 & Hr0 & Ho0).
    destruct (part_later σ σ2 id s' sc' settle_update _ _ Hs0) as (s1 & Hs1 & He1). exists s1.
    rewrite (evolves_root _ _ He1), (evolves_owner _ _ He1). done.
Qed.
Lemma settle_sent mid m : mess σ2 mid = Some m -> am_recipient_id m = id -> message_ok σ2 mid m.
Proof.
  destruct settle_identity as [Hi Hev].
  assert (forall s0, part σ id = Some s0 -> evolves s0 s') as Hev'
    by (intros s0 Hs0; by assert (s0 = s) as -> by congruence).
  pose proof (sent_message σ σ2 id s' sc' Hwf (proj1 settle_fits) settle_participants Hev' s) as Hsent.
  intros Hm Hrec. destruct (decide (mid ∈ am_id <$> ms)) as [Hin|Hni].
  - apply list_elem_of_fmap_1 in Hin as (x & -> & Hin). rewrite settle_mess_in in Hm by done. injection Hm as <-.
    pose proof (proj2 settle_messages) as Hall. rewrite Forall_forall in Hall. destruct (Hall x Hin) as (Hx & _ & Hxr).
    destruct (wf_message σ Hwf _ _ Hx) as (Hid & Ht & s0 & Hs0 & Hr0 & _ & Hsend).
    rewrite Hxr in Hs0. assert (s0 = s) as -> by congruence.
    split_and!; [done|apply Ht|apply Ht|]. exists s'. cbn [with_receipt am_recipient_id am_root_run_id am_receipt].
    rewrite Hxr. split_and!; [apply (lu_part _ _ _ _ _ settle_update)|by rewrite (evolves_root _ _ Hev)|done|].
    change (sender_ok σ2 x s'). eapply sender_later; [apply settle_update|exact Hev|done].
  - rewrite settle_mess_out in Hm by done. apply (Hsent mid m settle_update Hs Hm Hrec).
    intros _ Hin. rewrite settle_split in Hin. by apply elem_of_app in Hin as [Hin|Hin].
Qed.
Lemma settle_inbox : inbox_ok σ2 id.
Proof.
  destruct (wf_inbox σ Hwf id) as (ids & Hids & Hc & Hm & Hp). destruct (Hp s Hs) as [settled Hsp].
  exists ids. rewrite settle_inboxes. unfold accepted_of in *.
  rewrite (part_after σ σ2 id s' (proj1 settle_fits) settle_participants), String.eqb_refl. rewrite Hs in Hc.
  split_and!; [done|by destruct Hto as (_ & _ & -> & _)| |].
  - intros x mid Hx. destruct (Hm x mid Hx) as (m & Hmm & Hr0 & Hs0).
    destruct (settle_mess mid m Hmm) as [(m' & Hm' & Hr1 & Hs1) _]. exists m'. split_and!; [done|congruence|congruence].
  - intros s0 [= <-]. exists (settled ++ (am_id <$> ms))%list. by rewrite <- app_assoc, <- settle_split.
Qed.
Lemma settle_wf : comm_wf σ2.
Proof.
  destruct settle_fits as (Hf & Hfs).
  apply (local_wf σ σ2 id s' sc' Hwf settle_update).
  - exact (parts_typed σ σ2 id s' Hwf Hf settle_participants).
  - exact (scopes_typed σ σ2 s' sc' true Hwf Hfs settle_scopes).
  - intros k. rewrite settle_runs. apply (wf_runs σ Hwf).
  - intros k. rewrite settle_jobs. apply (wf_jobs σ Hwf).
  - intros k. rewrite settle_claims. apply (wf_claims σ Hwf).
  - intros k. unfold append_to. rewrite written_app. apply Forall_app. split; [apply (wf_feeds σ Hwf)|].
    apply Forall_app. split; [|rewrite written_off; [apply Forall_nil_2|by repeat constructor]].
    apply receipts_feed; [done|]. apply Forall_forall. intros m Hin. by apply settle_run.
  - intros mid. destruct (decide (mid ∈ am_id <$> ms)) as [Hin|Hni]; [|rewrite settle_kept by done; apply (wf_messages σ Hwf)].
    apply list_elem_of_fmap_1 in Hin as (x & -> & Hin). destruct (settle_run x Hin) as (_ & Hfx & ->).
    right. exists x. pose proof (proj2 settle_messages) as Hall. rewrite Forall_forall in Hall.
    destruct (Hall x Hin) as (_ & Hax & _). split_and!; [done|exact Hfx|]. right. by exists r.
  - apply settle_participant.
  - apply settle_scope.
  - apply settle_sent.
  - apply settle_inbox.
  - intros k. rewrite settle_jobs. apply (job_later σ σ2 id s' sc' settle_update), (wf_job σ Hwf).
  - intros k i. rewrite settle_runs. intros Hi. apply (run_later σ σ2 id s' sc' settle_update). by eapply (wf_run σ Hwf).
  - refine (parts_evolve σ σ2 id s' Hf settle_participants _).
    intros s0 Hs0. assert (s0 = s) as -> by congruence. apply settle_identity.
  - exact (part_new σ id Hwf).
  - exact (part_name σ id s Hwf Hs).
  - intros mid Hne. left. destruct (decide (mid ∈ am_id <$> ms)) as [Hin|Hout]; [|by rewrite <- (settle_kept mid Hout)].
    apply list_elem_of_fmap in Hin as (m & -> & Hin). destruct (settle_run m Hin) as (-> & _). done.
  - intros k. exists []. by rewrite app_nil_r, settle_runs.
  - intros r0 Hr0. right. exists s. split; [done|]. rewrite <- Hr0. symmetry. apply Hto.
Qed.
End Batch.
End Settle.
