(* ===== verification/CommunicationSafety.v ===== *)
(** * The communication service, with many writers at once

    A batch prepared from one history and committed to a later one keeps the invariant:
    what it was prepared from is still so, because it names the versions of the streams it
    writes and because what participants are never changes. *)

From S2P Require Import Prelude Json Contracts Boundary Platform JournalStore Journal Store.
From S2P Require Import JournalModel JournalAppend ProjectionView StoreSpec StoreCorrect SessionContracts Session Aggregates.
From S2P Require Import WorkContracts Work WorkService Communication CommunicationModel CommunicationStep CommunicationSettle.
From Stdlib Require Import FunctionalExtensionality.

Open Scope string_scope.
Create HintDb comm.

Section Later.
Context `{Externals} `{CommunicationCodecsOk}.

Definition extends (σ σ' : store) : Prop := forall s, exists l, σ' s = (σ s ++ l)%list.
Lemma unchanged σ σ' s : extends σ σ' -> count (σ s) = count (σ' s) -> σ' s = σ s.
Proof.
  intros He Hc. destruct (He s) as [l Hl]. rewrite Hl in *. unfold count in Hc. rewrite length_app in Hc.
  destruct l; [by rewrite app_nil_r|simpl in Hc; lia].
Qed.

Context (σ σ' : store) (Hwf : comm_wf σ') (Hext : extends σ σ').

Lemma part_still id s : part σ id = Some s -> exists s', part σ' id = Some s' /\ evolves s s'.
Proof.
  intros Hs. destruct (Hext (participant_stream id)) as [l Hl].
  unfold part, latest in Hs. destruct (last (σ (participant_stream id))) as [v|] eqn:Hv; [|done]. simpl in Hs.
  apply last_Some_elem_of in Hv.
  assert (v ∈ σ' (participant_stream id)) as Hin by (rewrite Hl; apply elem_of_app; by left).
  destruct (typed_latest _ (wf_participants σ' Hwf id)) as [He|(s' & _ & Hs' & _)];
    [rewrite He in Hin; by apply elem_of_nil in Hin|].
  exists s'. split; [exact Hs'|]. by eapply (wf_evolves σ' Hwf).
Qed.
Lemma sender_still m s : sender_ok σ m s -> sender_ok σ' m s.
Proof.
  unfold sender_ok. destruct (am_sender m) as [pid|aid]; [|done].
  intros (q & Hq & Hr & Hrel). destruct (part_still _ _ Hq) as (q' & Hq' & He). exists q'.
  by rewrite (evolves_root _ _ He), (evolves_parent _ _ He).
Qed.
(** A pending message is as it was read. *)
Lemma pending_still id s i m :
  part σ' id = Some s -> i ∈ pt_pending s -> mess σ (pi_id i) = Some m ->
  mess σ' (pi_id i) = Some m /\ σ' (message_stream (pi_id i)) = σ (message_stream (pi_id i)).
Proof.
  intros Hs Hin Hm. destruct (wf_participant σ' Hwf id s Hs) as (_ & _ & _ & _ & _ & _ & _ & Hp & _).
  rewrite Forall_forall in Hp. destruct (Hp i Hin) as (m' & Hm' & Ha & _).
  destruct (accepted_run _ _ (wf_messages σ' Hwf (pi_id i)) Hm' Ha) as [Hrun Hf].
  destruct (Hext (message_stream (pi_id i))) as [l Hl].
  assert (σ' (message_stream (pi_id i)) = σ (message_stream (pi_id i))) as Heq.
  { rewrite Hl in Hrun |- *. unfold mess, latest in Hm. destruct (σ (message_stream (pi_id i))) as [|v vs]; [done|].
    destruct vs; [|done]. injection Hrun as _ Hn. simpl in Hn. subst l. by rewrite app_nil_r. }
  split; [|done]. unfold mess. rewrite Heq. exact Hm.
Qed.
Lemma settle_events_eq sc context r feed ms :
  Forall (fun m => σ' (message_stream (am_id m)) = σ (message_stream (am_id m))) ms ->
  settle_events σ sc context r feed ms = settle_events σ' sc context r feed ms.
Proof.
  intros Hf. revert feed. induction Hf as [|m ms Hm _ IH]; intros feed; [done|]. simpl. by rewrite IH, Hm.
Qed.

Lemma comm_write_ok batch :
  comm_write σ batch -> at_version σ' batch -> (forall s, count (σ s) < u64_max)%N ->
  comm_wf (append_to σ' batch).
Proof.
  intros Hw Hv Hmax.
  destruct Hw as [run_id owner context session_id id origin created_at Hname
    |id s run_id owner context indexes Hs Ho Hi
    |pid parent sc job_id id session_id origin created_at owner context Hname Hp -> Hsc Hroot Hroom Hlast
    |id s sc m k fingerprint owner feed_version Hs Ho Hsc Hrec Hroot Hacc Hseq Htext Hsend Hfull Htok
    |id s s' sc r n ms context kind feed Hs Ho Hsc Hroot Hr Hrf Hn Hms Hto].
  - by apply root_wf.
  - assert (σ' (participant_stream id) = σ (participant_stream id)) as He
      by (apply unchanged; [done|apply (Hv [] _ _ eq_refl), Forall_nil_2]).
    rewrite <- He. rewrite <- He in Hv. apply bind_wf; try done; [unfold part; by rewrite He|].
    destruct Hi as [[-> (i & Hi & Hid)]|Hi]; [left|by right]. split; [done|]. exists i. split; [|done].
    exact (single_later _ _ i (Hext (run_stream run_id)) (wf_runs σ' Hwf (sha256_hex run_id)) Hi).
  - assert (σ' (root_stream (sc_root_run_id sc)) = σ (root_stream (sc_root_run_id sc))) as Hes
      by (apply unchanged; [done|apply (Hv [] _ _ eq_refl), Forall_nil_2]).
    assert (σ' (job_stream job_id) = σ (job_stream job_id)) as Hej
      by (apply unchanged; [done|apply (Hv [_; _] _ _ eq_refl); by repeat constructor]).
    destruct (part_still _ _ Hp) as (parent' & Hp' & Hev).
    subst generation. rewrite <- Hes, <- Hej, <- (evolves_root _ _ Hev), <- (evolves_owner _ _ Hev) in *.
    apply (child_wf σ' pid parent'); try done; try (rewrite Hej; apply Hmax).
    + unfold scop. change (scope_stream (sha256_hex (root_of parent'))) with (root_stream (root_of parent')).
      rewrite <- Hroot, Hes, Hroot. exact Hsc.
    + intros i Hi. destruct (Hlast i Hi) as (q & Hq & Hqo). destruct (part_still _ _ Hq) as (q' & Hq' & _ & Hc & _).
      exists q'. split; [done|by apply Hc].
  - subst id. assert (σ' (participant_stream (am_recipient_id m)) = σ (participant_stream (am_recipient_id m))) as Hep
      by (apply unchanged; [done|apply (Hv [] _ _ eq_refl), Forall_nil_2]).
    assert (σ' (root_stream (root_of s)) = σ (root_stream (root_of s))) as Hes.
    { apply unchanged; [done|]. pose proof (Hv [_] _ _ eq_refl ltac:(by apply Forall_singleton)) as Hvs.
      cbn in Hvs. by rewrite Hroot in Hvs. }
    apply (admit_wf σ' (am_recipient_id m) s sc m); try done.
    + unfold part. by rewrite Hep.
    + unfold scop. change (scope_stream (sha256_hex (root_of s))) with (root_stream (root_of s)). by rewrite Hes.
    + by apply sender_still.
  - assert (σ' (participant_stream id) = σ (participant_stream id)) as Hep.
    { apply unchanged; [done|]. apply (Hv (settle_events σ sc context r feed ms) _ _ eq_refl). by apply receipts_off. }
    assert (σ' (root_stream (sc_root_run_id sc)) = σ (root_stream (sc_root_run_id sc))) as Hes.
    { apply unchanged; [done|].
      match type of Hv with at_version _ (?l ++ [?e1; ?e2]) =>
        refine (Hv (l ++ [e1])%list e2 [] ltac:(by rewrite <- app_assoc) _) end.
      apply Forall_app. split; [by apply receipts_off|by apply Forall_singleton]. }
    assert (part σ' id = Some s) as Hs' by (unfold part; by rewrite Hep).
    assert (Forall2 (fun i m => mess σ' (pi_id i) = Some m /\ am_id m = pi_id i /\
      σ' (message_stream (pi_id i)) = σ (message_stream (pi_id i))) (take n (pt_pending s)) ms) as Hms'.
    { assert (Forall (fun i => i ∈ pt_pending s) (take n (pt_pending s))) as Hin
        by (apply Forall_take, Forall_forall; done).
      revert Hin. generalize (take n (pt_pending s)) ms Hms. intros l0 ms0 Hf Hin.
      induction Hf as [|i m l l' Him _ IH]; [constructor|].
      apply Forall_cons in Hin as [Hi Hin]. constructor; [|by apply IH].
      destruct (pending_still id s i m Hs' Hi Him) as [Hm He]. split_and!; try done.
      by apply (wf_message σ' Hwf) in Hm as [? _]. }
    rewrite (settle_events_eq sc context r feed ms).
    + apply (settle_wf σ' id s s' sc r n ms); try done.
      * unfold scop. change (scope_stream (sha256_hex (root_of s))) with (root_stream (root_of s)).
        by rewrite <- Hroot, Hes, Hroot.
      * clear -Hms'. induction Hms' as [|i m l l' (Hm & _) _ IH]; by constructor.
    + clear -Hms'. induction Hms' as [|i m l l' (_ & Hid & He) _ IH]; [constructor|].
      constructor; [by rewrite Hid|done].
Qed.
End Later.

(** ** Histories *)

Definition COMM_PREFIXES : list string :=
  ["agent-scope:"; "agent-participant:"; "agent-message:"; "agent-inbox:"; "agent-run:"; "agent-job:";
   "agent-feed:"; "agent-message-key:"].
Definition on_comm (s : string) : bool := existsb (starts_with s) COMM_PREFIXES.
Definition own_events (batch : list NewEvent) : list NewEvent :=
  List.filter (fun e => on_comm (ne_stream_id e)) batch.
(** An event of another part. *)
Definition off_comm (event : NewEvent) : Prop := on_comm (ne_stream_id event) = false.

Lemma on_comm_in p s : p ∈ COMM_PREFIXES -> on_comm (p ++s s) = true.
Proof.
  intros Hp. apply existsb_exists. exists p. split; [by apply list_elem_of_In|apply starts_with_self].
Qed.

Section Histories.
Context `{Externals} `{CommunicationCodecsOk}.

Lemma on_scope id : on_comm (root_stream id) = true. Proof. apply on_comm_in; do 0 right; left. Qed.
Lemma on_participant id : on_comm (participant_stream id) = true. Proof. apply on_comm_in; do 1 right; left. Qed.
Lemma on_message id : on_comm (message_stream id) = true. Proof. apply on_comm_in; do 2 right; left. Qed.
Lemma on_inbox id : on_comm (inbox_stream id) = true. Proof. apply on_comm_in; do 3 right; left. Qed.
Lemma on_run id : on_comm (run_stream id) = true. Proof. apply on_comm_in; do 4 right; left. Qed.
Lemma on_job id : on_comm (job_stream id) = true. Proof. apply on_comm_in; do 5 right; left. Qed.
Lemma on_feed id : on_comm (feed_stream id) = true. Proof. apply on_comm_in; do 6 right; left. Qed.
Lemma on_claim k : on_comm ("agent-message-key:" ++s k) = true. Proof. apply on_comm_in; do 7 right; left. Qed.

Definition comm_store (h : history) : store := fun s => if on_comm s then (stream_entries s h).*2 else [].
(** What [load] checks of an event. *)
Definition headed (e : EventEnvelope) : Prop :=
  ev_event_version e = 1%N /\ starts_with (ev_event_type e) "agent.communication." = true.
Definition headers_ok (h : history) : Prop := forall s ev,
  on_comm s = true -> ev ∈ stream_entries s h -> headed ev.1.
Definition comm_ok (h : history) : Prop := comm_wf (comm_store h) /\ headers_ok h.
Definition header_of (e : NewEvent) : Prop :=
  ne_event_version e = 1%N /\ starts_with (ne_event_type e) "agent.communication." = true.
Definition comm_batch (h : history) (batch : list NewEvent) : Prop :=
  own_events batch = [] \/ (comm_write (comm_store h) (own_events batch) /\ Forall header_of (own_events batch)).

Lemma written_own s batch : on_comm s = true -> written_to s (own_events batch) = written_to s batch.
Proof.
  intros Hs. unfold written_to, own_events. induction batch as [|e batch IH]; [done|]. cbn [List.filter].
  destruct (String.eqb_spec (ne_stream_id e) s) as [<-|Hne].
  - rewrite Hs. cbn [List.filter]. rewrite String.eqb_refl, !fmap_cons. by rewrite IH.
  - destruct (on_comm (ne_stream_id e)); [|done]. cbn [List.filter]. by rewrite (proj2 (String.eqb_neq _ _) Hne).
Qed.
Lemma written_foreign s batch : on_comm s = false -> written_to s (own_events batch) = [].
Proof.
  intros Hs. apply written_off. unfold own_events. apply Forall_forall. intros e He.
  apply list_elem_of_In, filter_In in He as [_ He]. intros Heq. congruence.
Qed.
(** The values of a stream, after a commit. *)
Lemma entries_written s batch es :
  Forall2 recorded_as batch es -> (stream_entries s (entries batch es)).*2 = written_to s batch.
Proof.
  unfold written_to, stream_entries, entries. induction 1 as [|e x batch es Hr _ IH]; [done|].
  rewrite !fmap_cons. cbn [zip zip_with List.filter fst]. rewrite (recorded_stream _ _ Hr).
  destruct (String.eqb (ne_stream_id e) s); [rewrite !fmap_cons; by f_equal|done].
Qed.
Lemma commit_store inputs h batch es :
  batch_committed h inputs batch es ->
  comm_store (h ++ entries batch es) = append_to (comm_store h) (own_events batch).
Proof.
  intros [Hr%recorded_all _]. apply functional_extensionality. intros s. unfold append_to, comm_store.
  destruct (on_comm s) eqn:Hs; [|by rewrite written_foreign].
  by rewrite stream_entries_app, fmap_app, (entries_written s batch es Hr), written_own.
Qed.
Lemma commit_headers inputs h batch es :
  batch_committed h inputs batch es -> headers_ok h -> Forall header_of (own_events batch) ->
  headers_ok (h ++ entries batch es).
Proof.
  intros [Hr%recorded_all _] Hh Hf s ev Hs. rewrite stream_entries_app, elem_of_app. intros [Hin|Hin]; [by apply (Hh s)|].
  apply filter_elem in Hin as [Hin Hst]. revert Hin.
  assert (Forall (fun ev => on_comm (ev_stream_id ev.1) = true -> headed ev.1) (entries batch es)) as Hall.
  { apply entries_Forall; [done|]. intros e x Hin Hx. cbn [fst]. rewrite (recorded_stream _ _ Hx). intros Hon.
    assert (e ∈ own_events batch) as Hown by (apply list_elem_of_In, filter_In; split; [by apply list_elem_of_In|done]).
    rewrite Forall_forall in Hf. destruct (Hf e Hown) as [Hv Ht]. destruct Hx as [stamp Hx].
    split; [exact (eq_trans (rec_event_version _ _ Hx) Hv)|]. cbn. rewrite (rec_type _ _ Hx). exact Ht. }
  intros Hin. rewrite Forall_forall in Hall. apply (Hall ev Hin). apply String.eqb_eq in Hst. by rewrite Hst.
Qed.
Lemma filter_first (f : NewEvent -> bool) batch l1 e l2 :
  List.filter f batch = (l1 ++ e :: l2)%list ->
  exists k1 k2, batch = (k1 ++ e :: k2)%list /\ List.filter f k1 = l1 /\ f e = true.
Proof.
  revert l1. induction batch as [|x batch IH]; intros l1 Hf; simpl in Hf; [by destruct l1|].
  destruct (f x) eqn:Hx.
  - destruct l1 as [|y l1]; injection Hf as -> Hf; [by exists [], batch|].
    destruct (IH l1 Hf) as (k1 & k2 & -> & Hk & He). exists (y :: k1), k2. simpl. by rewrite Hx, Hk.
  - destruct (IH l1 Hf) as (k1 & k2 & -> & Hk & He). exists (x :: k1), k2. simpl. by rewrite Hx, Hk.
Qed.
Lemma commit_at_version inputs h batch es :
  batch_committed h inputs batch es -> at_version (comm_store h) (own_events batch).
Proof.
  intros [_ Hn] l1 e l2 Heq Hf. apply filter_first in Heq as (k1 & k2 & -> & Hk & He).
  apply no_conflict_at in Hn.
  - rewrite Hn, <- stream_entries_length. unfold comm_store. rewrite He. unfold count. by rewrite length_fmap.
  - apply Forall_forall. intros x Hx Heq. subst l1. rewrite Forall_forall in Hf. apply (Hf x); [|done].
    apply list_elem_of_In, filter_In. split; [by apply list_elem_of_In|by rewrite Heq].
Qed.

Lemma comm_ok_nil : comm_ok [].
Proof.
  assert (forall s, comm_store [] s = []) as He by (intros s; unfold comm_store; by destruct (on_comm s)).
  split; [|intros s ev _ Hin; by apply elem_of_nil in Hin].
  assert (forall id, part (comm_store []) id = None) as Hp by (intros id; unfold part; by rewrite He).
  constructor; intros; rewrite ?He in *; try apply Forall_nil_2; try done; try (by left).
  - by rewrite Hp in *.
  - unfold scop in *. by rewrite He in *.
  - unfold mess in *. by rewrite He in *.
  - exists []. unfold accepted_of. rewrite He, Hp. by split_and!.
  - by rewrite Hp in *.
  - by rewrite Hp in *.
Qed.
Lemma store_extends h g : extends (comm_store h) (comm_store (h ++ g)).
Proof.
  intros s. unfold comm_store. destruct (on_comm s); [|by exists []].
  rewrite stream_entries_app, fmap_app. by eexists.
Qed.
Lemma store_count h s : (count (comm_store h s) <= count h)%N.
Proof.
  unfold comm_store. destruct (on_comm s); [|unfold count; simpl; lia].
  unfold count. rewrite length_fmap. unfold stream_entries. pose proof (List.filter_length_le (fun ev => String.eqb (ev_stream_id ev.1) s) h). lia.
Qed.

(** A batch of the service, however late it is committed. *)
Lemma comm_batch_ok inputs (h g : history) batch es :
  (count h < u64_max)%N -> comm_batch h batch -> comm_ok (h ++ g) ->
  batch_committed (h ++ g) inputs batch es -> comm_ok ((h ++ g) ++ entries batch es).
Proof.
  intros Hmax Hb [Hwf Hh] Hc. unfold comm_ok. rewrite (commit_store inputs _ batch es Hc).
  destruct Hb as [He|[Hw Hf]].
  - split; [|apply (commit_headers inputs); [done|done|rewrite He; apply Forall_nil_2]].
    rewrite He. assert (append_to (comm_store (h ++ g)) [] = comm_store (h ++ g)) as ->; [|done].
    apply functional_extensionality. intros s. unfold append_to, written_to. simpl. apply app_nil_r.
  - split; [|by apply (commit_headers inputs)].
    apply (comm_write_ok (comm_store h)); try done; [apply store_extends|by eapply commit_at_version|].
    intros s. pose proof (store_count h s). lia.
Qed.
End Histories.
#[export] Hint Resolve on_scope on_participant on_message on_inbox on_run on_job on_feed on_claim : comm.
