(* ===== verification/CommunicationReads.v ===== *)
(** * What the communication service reads

    The service's state over any journal keeps the journal's contract; on a history that
    satisfies the invariant its readers answer with the latest records. *)

From S2P Require Import Prelude Json Contracts Boundary Platform JournalStore Journal Store.
From S2P Require Import SessionContracts WorkContracts Session Work WorkService Communication JournalModel JournalAppend.
From S2P Require Import StoreSpec ProjectionView StoreCorrect Aggregates CommunicationModel CommunicationStep CommunicationSettle.
From S2P Require Import CommunicationSafety.

Open Scope string_scope.
Open Scope op_scope.

(** ** The journal of the service *)

Lemma valid_token_nul id : valid_token id = true -> has_nul id = false.
Proof.
  intros Hv. apply andb_true_iff in Hv as [Hv _]. apply andb_true_iff in Hv as [_ Hb].
  unfold has_nul, contains_byte, all_bytes in *. apply not_true_iff_false. intros (c & Hin & Hc)%existsb_exists.
  rewrite forallb_forall in Hb. specialize (Hb c Hin). apply Ascii.eqb_eq in Hc as <-. done.
Qed.

Section Lifted.
Context {J} `{EventJournalOk J}.

Lemma with_same_journal (s : CommunicationService J) : with_journal (cs_journal s) s = s.
Proof. by destruct s. Qed.
Lemma on_journal_read {A} (m : op J A) (s : CommunicationService J) r :
  m (cs_journal s) = (r, cs_journal s) -> on_journal m s = (r, s).
Proof. intros Hm. unfold on_journal. rewrite Hm. by rewrite with_same_journal. Qed.

(** Identifiers are UUIDs: they are tokens. *)
Definition supply_ok (s : CommunicationService J) : Prop := forall n, valid_token (fr_uuid (cs_supply s n)) = true.
#[export] Instance communication_journal_ok : EventJournalOk (CommunicationService J).
Proof.
  refine {| holds s h := holds (cs_journal s) h /\ supply_ok s; available s := available (cs_journal s) |}.
  - intros j h [Hh _]. by eapply holds_chain.
  - intros j h h' [Hh _] [Hh' _]. by eapply holds_unique.
  - intros j h inputs events [Hh Hu] Hr Hi Hle. cbn. unfold on_journal.
    pose proof (ej_append_batch_ok (cs_journal j) h inputs events Hh Hr Hi Hle) as Ha.
    destruct (ej_append_batch inputs events (cs_journal j)) as [[es|e] j'].
    + destruct Ha as [Hb Hh']. by split_and!.
    + destruct Ha as [Hh'|(es & Hb & Hh')]; [by left|right]. by exists es.
  - intros inputs event j. cbn. unfold on_journal. rewrite ej_append_ok. unfold op_bind.
    destruct (ej_append_batch inputs [event] (cs_journal j)) as [[es|e] j']; [|done]. cbn. by destruct (last es).
  - intros j h inputs events [Hh Hu] Hr Hi Hle Hav. cbn. unfold on_journal.
    pose proof (ej_append_available (cs_journal j) h inputs events Hh Hr Hi Hle Hav) as Ha.
    destruct (first_conflict _ events) as [[[id expected] actual]|].
    + rewrite Ha. by rewrite with_same_journal.
    + by destruct (ej_append_batch inputs events (cs_journal j)) as [r j'].
  - intros j h id [Hh Hu] Hle. by apply on_journal_read, ej_read_stream_ok.
  - intros j h id after limit [Hh Hu] Hle. by apply on_journal_read, ej_read_stream_from_ok.
  - intros j h id before limit [Hh Hu] Hle. by apply on_journal_read, ej_read_stream_backwards_ok.
  - intros j h prefix after limit [Hh Hu] Hn Ha. by apply on_journal_read, ej_list_stream_ids_ok.
  - intros j h e v [Hh Hu] Hin. apply on_journal_read. by eapply ej_decrypt_payload_ok.
Defined.
End Lifted.

(** ** Readers *)

Section Reads.
Context `{Externals} `{CommunicationCodecsOk} {J} `{EventJournalOk J}.
#[local] Abbreviation C := (CommunicationService J).
Context (s : C) (h : history) (Hh : holds s h) (Hmax : (count h + 1 < u64_max)%N) (Hok : comm_ok h).
#[local] Abbreviation σ := (comm_store h).

(** The head of a stream. *)
Lemma stream_head_read stream :
  on_comm stream = true ->
  ej_read_stream_backwards stream None 1 s
  = (Ok (match last (stream_entries stream h) with Some ev => [ev.1] | None => [] end), s) /\
  match last (stream_entries stream h) with
  | Some ev => headed ev.1 /\ ev_stream_version ev.1 = count (σ stream) /\ ej_decrypt_payload ev.1 s = (Ok ev.2, s) /\
      last (σ stream) = Some ev.2
  | None => σ stream = []
  end.
Proof.
  intros Hs. rewrite (ej_read_stream_backwards_ok s h stream None 1 Hh Hmax).
  assert (σ stream = (stream_entries stream h).*2) as Hst by (unfold comm_store; by rewrite Hs).
  destruct (last (stream_entries stream h)) as [ev|] eqn:Hl.
  - apply last_Some in Hl as [front Hf]. rewrite Hf, fmap_app, rev_app_distr. split; [done|].
    assert (ev ∈ stream_entries stream h) as Hin by (rewrite Hf; apply elem_of_app; right; by left).
    split; [by apply (proj2 Hok stream)|]. split; [|split].
    + pose proof (chain_stream_lookup stream h.*1 (length front) ev.1 (holds_chain _ _ Hh)) as Hv.
      rewrite <- stream_entries_fst, Hf, fmap_app, lookup_app_r in Hv by (by rewrite length_fmap).
      rewrite length_fmap, Nat.sub_diag in Hv. destruct (Hv eq_refl) as [_ ->].
      rewrite Hst, Hf. unfold count. rewrite length_fmap, length_app. simpl. lia.
    + apply filter_elem in Hin as [Hin _]. destruct ev as [e v]. by eapply ej_decrypt_payload_ok.
    + by rewrite Hst, Hf, fmap_app, last_app.
  - apply last_None in Hl. by rewrite Hl, Hst, Hl.
Qed.
Lemma load_none {A} `{RecordOk A fit} stream : on_comm stream = true -> σ stream = [] -> load (A:=A) stream s = (Ok None, s).
Proof.
  intros Hs He. destruct (stream_head_read stream Hs) as [Hr Hl]. unfold load.
  rewrite (op_bind_run _ _ _ _ _ Hr). destruct (last (stream_entries stream h)) as [ev|]; [|done].
  destruct Hl as (_ & _ & _ & Hl). by rewrite He in Hl.
Qed.
Lemma load_some {A} `{RecordOk A fit} stream a :
  on_comm stream = true -> typed_as fit (σ stream) -> latest (σ stream) = Some a ->
  load stream s = (Ok (Some (a, count (σ stream))), s).
Proof.
  intros Hs Ht Ha. destruct (stream_head_read stream Hs) as [Hr Hl]. unfold load.
  rewrite (op_bind_run _ _ _ _ _ Hr). destruct (last (stream_entries stream h)) as [ev|].
  - destruct Hl as ([Hv Hp] & Hc & Hd & Hl). cbn [head]. rewrite Hv, Hp, op_bind_lift. cbn [N.eqb Pos.eqb negb orb reject].
    rewrite (op_bind_run _ _ _ _ _ Hd). destruct (typed_last _ _ Ht Hl) as (b & -> & Hb & Hf).
    assert (b = a) as -> by congruence. rewrite (stored_roundtrip a Hf), op_bind_lift. cbn [map_err].
    unfold op_ret. by rewrite Hc.
  - unfold latest in Ha. by rewrite Hl in Ha.
Qed.
Lemma load_cases {A} `{RecordOk A fit} stream :
  on_comm stream = true -> typed_as fit (σ stream) ->
  (σ stream = [] /\ load (A:=A) stream s = (Ok None, s)) \/
  exists a, latest (σ stream) = Some a /\ fit a /\ load stream s = (Ok (Some (a, count (σ stream))), s).
Proof.
  intros Hs Ht. destruct (typed_latest _ Ht) as [He|(a & _ & Ha & Hf)].
  - left. split; [done|by apply load_none].
  - right. exists a. split_and!; [done|done|by apply load_some].
Qed.
Lemma version_read stream : on_comm stream = true -> version stream s = (Ok (count (σ stream)), s).
Proof.
  intros Hs. destruct (stream_head_read stream Hs) as [Hr Hl]. unfold version.
  rewrite (op_bind_run _ _ _ _ _ Hr). destruct (last (stream_entries stream h)) as [ev|].
  - destruct Hl as (_ & Hc & _). cbn. unfold op_ret. by rewrite Hc.
  - cbn. by rewrite Hl.
Qed.
End Reads.

(** ** What an operation may answer

    An operation that reads leaves the history, and what it answers is so of the history;
    the clock readings it takes on the way are no part of either. *)

Section Yields.
Context `{Externals} `{CommunicationCodecsOk} {J} `{EventJournalOk J}.
#[local] Abbreviation C := (CommunicationService J).
Context (h : history).

Definition yields {E A} (m : C -> result E A * C) (Q : A -> Prop) : Prop :=
  forall s, holds s h -> holds (m s).2 h /\ forall a, (m s).1 = Ok a -> Q a.
Lemma yields_ret {A} (a : A) (Q : A -> Prop) : Q a -> yields (op_ret a) Q.
Proof. intros Ha s Hs. split; [done|]. by intros b [= <-]. Qed.
Lemma yields_lift {A} (r : result StoreError A) (Q : A -> Prop) :
  (forall a, r = Ok a -> Q a) -> yields (op_lift r) Q.
Proof. intros Hq s Hs. by split. Qed.
Lemma yields_bind {A B} (m : op C A) (k : A -> op C B) (P : A -> Prop) (Q : B -> Prop) :
  yields m P -> (forall a, P a -> yields (k a) Q) -> yields (op_bind m k) Q.
Proof.
  intros Hm Hk s Hs. destruct (Hm s Hs) as [Hh Ha]. unfold op_bind.
  destruct (m s) as [[a|e] s']; [by apply (Hk a (Ha a eq_refl))|done].
Qed.
Lemma yields_weaken {E A} (m : C -> result E A * C) (P Q : A -> Prop) :
  yields m P -> (forall a, P a -> Q a) -> yields m Q.
Proof. intros Hm Hw s Hs. destruct (Hm s Hs) as [Hh Ha]. split; [done|]. intros a Hr. by apply Hw, Ha. Qed.
Lemma yields_any {E A} (m : C -> result E A * C) (Q : A -> Prop) : yields m Q -> yields m (fun _ => True).
Proof. intros Hm. by eapply yields_weaken. Qed.
Lemma yields_mint : yields mint (fun minted => valid_token (fr_uuid minted) = true).
Proof. intros s [Hs Hu]. split; [done|]. intros minted [= <-]. apply Hu. Qed.
Lemma yields_wake : yields wake (fun _ => True).
Proof. by intros s Hs. Qed.
(** [op_lift] of a refusal. *)
Lemma yields_reject {B} (b : bool) e (k : unit -> op C B) (Q : B -> Prop) :
  (b = false -> yields (k tt) Q) -> yields (op_bind (op_lift (reject b e)) k) Q.
Proof. intros Hk. destruct b; [by intros s Hs|]. intros s Hs. by apply Hk. Qed.
Lemma yields_cret {A} (a : A) (Q : A -> Prop) : Q a -> yields (cop_ret a) Q.
Proof. intros Ha s Hs. split; [done|]. by intros b [= <-]. Qed.
Lemma yields_clift {A} (r : result CommunicationError A) (Q : A -> Prop) :
  (forall a, r = Ok a -> Q a) -> yields (cop_lift r) Q.
Proof. intros Hq s Hs. by split. Qed.
Lemma yields_cbind {A B} (m : cop C A) (k : A -> cop C B) (P : A -> Prop) (Q : B -> Prop) :
  yields m P -> (forall a, P a -> yields (k a) Q) -> yields (cop_bind m k) Q.
Proof.
  intros Hm Hk s Hs. destruct (Hm s Hs) as [Hh Ha]. unfold cop_bind.
  destruct (m s) as [[a|e] s']; [by apply (Hk a (Ha a eq_refl))|done].
Qed.
Lemma yields_stored {A} (m : op C A) (Q : A -> Prop) : yields m Q -> yields (stored m) Q.
Proof.
  intros Hm s Hs. destruct (Hm s Hs) as [Hh Ha]. unfold stored. destruct (m s) as [[a|e] s']; [|done].
  split; [done|]. intros b [= <-]. by apply Ha.
Qed.
Lemma yields_refuse {B} (b : bool) e (k : unit -> cop C B) (Q : B -> Prop) :
  (b = false -> yields (k tt) Q) -> yields (cop_bind (refuse b e) k) Q.
Proof. intros Hk. destruct b; [by intros s Hs|]. intros s Hs. by apply Hk. Qed.

Context (Hmax : (count h + 1 < u64_max)%N) (Hok : comm_ok h).
#[local] Abbreviation σ := (comm_store h).
#[local] Abbreviation wf := (proj1 Hok).

(** The latest record of a stream, and its version. *)
Definition latest_at {A} `{RecordCodec A} (stream : string) : option (A * N) :=
  a ← latest (σ stream); Some (a, count (σ stream)).
Lemma load_is {A} `{RecordOk A fit} stream s :
  holds s h -> on_comm stream = true -> typed_as fit (σ stream) -> load stream s = (Ok (latest_at (A:=A) stream), s).
Proof.
  intros Hs Hon Ht. unfold latest_at. destruct (load_cases s h Hs Hmax Hok (A:=A) stream Hon Ht)
    as [[He ->]|(a & -> & _ & ->)]; [by rewrite He|done].
Qed.
Lemma yields_load {A} `{RecordOk A fit} stream :
  on_comm stream = true -> typed_as fit (σ stream) -> yields (load (A:=A) stream) (fun r => r = latest_at stream).
Proof. intros Hon Ht s Hs. rewrite load_is by done. split; [done|]. by intros a [= <-]. Qed.
Lemma yields_version stream : on_comm stream = true -> yields (version stream) (fun v => v = count (σ stream)).
Proof. intros Hon s Hs. rewrite (version_read s h Hs Hmax Hok) by done. split; [done|]. by intros a [= <-]. Qed.

(** Which participant an execution is. *)
Definition run_part (run_id : string) : option (ParticipantState * N) :=
  i ← latest (A:=AttemptIndex) (σ (run_stream run_id));
  s ← part σ (ai_participant_id i); Some (s, count (σ (participant_stream (ai_participant_id i)))).
Lemma participant_is id s : holds s h ->
  participant id s = match part σ id with
                     | Some p => (Ok (p, count (σ (participant_stream id))), s)
                     | None => (Err (NotFound "agent participant"), s)
                     end.
Proof.
  intros Hs. unfold participant. rewrite (op_bind_run _ _ _ _ _ (load_is (participant_stream id) s Hs (on_participant id) (wf_participants σ wf id))).
  unfold latest_at, part. by destruct (latest (σ (participant_stream id))).
Qed.
Lemma yields_participant id :
  yields (participant id) (fun r => part σ id = Some r.1 /\ r.2 = count (σ (participant_stream id))).
Proof.
  intros s Hs. rewrite participant_is by done. destruct (part σ id) as [p|] eqn:Hp; [|done].
  split; [done|]. by intros a [= <-].
Qed.
Lemma participant_for_run_is run_id s : holds s h -> participant_for_run run_id s = (Ok (run_part run_id), s).
Proof.
  intros Hs. unfold participant_for_run, run_part.
  rewrite (op_bind_run _ _ _ _ _ (load_is (run_stream run_id) s Hs (on_run run_id)
    (single_typed _ (wf_runs σ wf (sha256_hex run_id))))).
  unfold latest_at. destruct (latest (σ (run_stream run_id))) as [i|] eqn:Hi; [|done]. cbn [option_bind mbind].
  unfold op_bind. rewrite participant_is by done. by destruct (wf_run σ wf (sha256_hex run_id) i Hi) as [p ->].
Qed.
Lemma run_part_some run_id p v :
  run_part run_id = Some (p, v) ->
  exists id, part σ id = Some p /\ ap_id (pt_participant p) = id /\ v = count (σ (participant_stream id)).
Proof.
  unfold run_part. destruct (latest (σ (run_stream run_id))) as [i|]; [|done]. cbn [option_bind mbind].
  destruct (part σ (ai_participant_id i)) as [q|] eqn:Hq; [|done]. cbn [option_bind mbind]. intros [= <- <-].
  exists (ai_participant_id i). split_and!; [done| |done]. by destruct (wf_participant σ wf _ _ Hq) as [-> _].
Qed.
Lemma run_part_runs run_id p v :
  run_part run_id = Some (p, v) -> runs_as σ run_id (ap_id (pt_participant p)).
Proof.
  unfold run_part. destruct (latest (σ (run_stream run_id))) as [i|] eqn:Hi; [|done]. cbn [option_bind mbind].
  destruct (part σ (ai_participant_id i)) as [q|] eqn:Hq; [|done]. cbn [option_bind mbind]. intros [= <- <-].
  exists i. split; [done|]. by destruct (wf_participant σ wf _ _ Hq) as [-> _].
Qed.
Lemma yields_participant_for_run run_id :
  yields (participant_for_run run_id) (fun r => r = run_part run_id).
Proof. intros s Hs. rewrite participant_for_run_is by done. split; [done|]. by intros a [= <-]. Qed.
Lemma scope_is root_run_id s : holds s h ->
  scope root_run_id s = match scop σ (sha256_hex root_run_id) with
                        | Some sc => (Ok (sc, count (σ (root_stream root_run_id))), s)
                        | None => (Err (NotFound "agent communication scope"), s)
                        end.
Proof.
  intros Hs. unfold scope.
  rewrite (op_bind_run _ _ _ _ _ (load_is (root_stream root_run_id) s Hs (on_scope root_run_id) (wf_scopes σ wf (sha256_hex root_run_id)))).
  unfold latest_at, scop. change (scope_stream (sha256_hex root_run_id)) with (root_stream root_run_id).
  by destruct (latest (σ (root_stream root_run_id))).
Qed.
Lemma yields_scope root_run_id :
  yields (scope root_run_id)
    (fun r => scop σ (sha256_hex root_run_id) = Some r.1 /\ r.2 = count (σ (root_stream root_run_id))).
Proof.
  intros s Hs. rewrite scope_is by done. destruct (scop σ (sha256_hex root_run_id)) as [sc|] eqn:Hp; [|done].
  split; [done|]. by intros a [= <-].
Qed.
Lemma message_is id s : holds s h ->
  load (A:=AgentMessage) (message_stream id) s
  = (Ok (m ← mess σ id; Some (m, count (σ (message_stream id)))), s).
Proof. intros Hs. by rewrite (load_is (message_stream id) s Hs (on_message id) (typed_messages _ (wf_messages σ wf id))). Qed.
Lemma yields_message id :
  yields (load (A:=AgentMessage) (message_stream id))
    (fun r => r = (m ← mess σ id; Some (m, count (σ (message_stream id))))).
Proof. intros s Hs. rewrite message_is by done. split; [done|]. by intros a [= <-]. Qed.
(** A participant's scope. *)
Lemma own_scope id p : part σ id = Some p ->
  exists sc, scop σ (sha256_hex (root_of p)) = Some sc /\ sc_root_run_id sc = root_of p /\ id ∈ sc_participants sc /\
    sc_owner sc = ap_owner (pt_participant p).
Proof.
  intros Hp. destruct (wf_participant σ wf id p Hp) as (_ & _ & _ & _ & _ & _ & _ & _ & sc & Hsc & Hr & Hin).
  exists sc. split_and!; [done..|]. destruct (wf_scope σ wf _ _ Hsc) as (_ & _ & _ & _ & _ & _ & _ & Hf).
  rewrite Forall_forall in Hf. destruct (Hf id Hin) as (q & Hq & _ & <-). congruence.
Qed.

(** *** Messages *)

(** The owner of a message's scope reads it. *)
Definition message_answer (owner : Actor) (id : string) : result CommunicationError AgentMessage :=
  if negb (valid_token id) then Err Invalid
  else match mess σ id with
       | None => Err (Store (NotFound "agent message"))
       | Some m =>
           match scop σ (sha256_hex (am_root_run_id m)) with
           | None => Err (Store (NotFound "agent communication scope"))
           | Some sc => if bool_decide (sc_owner sc = owner) then Ok m else Err Forbidden
           end
       end.
Lemma get_message_is owner id s : holds s h -> get_message owner id s = (message_answer owner id, s).
Proof.
  intros Hs. unfold get_message, message_answer, refuse, cop_bind at 1, cop_lift.
  destruct (valid_token id); [|done]. cbn [negb reject]. unfold stored, cop_bind. rewrite message_is by done.
  destruct (mess σ id) as [m|]; [|done]. cbn. rewrite scope_is by done.
  destruct (scop σ (sha256_hex (am_root_run_id m))) as [sc|]; [|done]. cbn. by case_bool_decide.
Qed.
Lemma yields_get_message owner id : yields (get_message owner id) (fun m => message_answer owner id = Ok m).
Proof. intros s Hs. rewrite get_message_is by done. by split. Qed.
Lemma message_answer_some owner id m : message_answer owner id = Ok m -> mess σ id = Some m.
Proof.
  unfold message_answer. destruct (valid_token id); [|done]. cbn [negb]. destruct (mess σ id) as [m'|]; [|done].
  destruct (scop _ _) as [sc|]; [|done]. case_bool_decide; [|done]. congruence.
Qed.
(** A message's scope is its recipient's. *)
Lemma message_scope id m : mess σ id = Some m -> am_id m = id /\
  exists p sc, part σ (am_recipient_id m) = Some p /\ root_of p = am_root_run_id m /\
    scop σ (sha256_hex (am_root_run_id m)) = Some sc /\ sc_root_run_id sc = am_root_run_id m /\
    sc_owner sc = ap_owner (pt_participant p) /\ am_recipient_id m ∈ sc_participants sc.
Proof.
  intros Hm. destruct (wf_message σ wf id m Hm) as (Hid & _ & p & Hp & Hr & _). split; [done|].
  destruct (own_scope _ p Hp) as (sc & Hsc & Hroot & Hin & Hown). exists p, sc.
  rewrite <- Hr. by split_and!.
Qed.
End Yields.

(** * Listing messages

    The inbox of an attempt, read in pages: every message it was ever sent, each as it is
    now, in the order of their sequence numbers, with no gap between two pages. *)

Section Listing.
Context `{Externals} `{CommunicationCodecsOk} {J} `{EventJournalOk J}.
#[local] Abbreviation C := (CommunicationService J).
Context (s : C) (h : history) (Hh : holds s h) (Hmax : (count h + 1 < u64_max)%N) (Hok : comm_ok h).
#[local] Abbreviation σ := (comm_store h).

(** An entry of a stream of the service: its value and its version. *)
Lemma comm_entry stream i ev :
  on_comm stream = true -> stream_entries stream h !! i = Some ev ->
  ev_stream_version ev.1 = (N.of_nat i + 1)%N /\ ej_decrypt_payload ev.1 s = (Ok ev.2, s) /\ σ stream !! i = Some ev.2.
Proof.
  intros Hs Hi. split_and!.
  - destruct (chain_stream_lookup stream h.*1 i ev.1 (holds_chain _ _ Hh)) as [_ ->]; [|done].
    by rewrite <- stream_entries_fst, list_lookup_fmap, Hi.
  - pose proof (list_elem_of_lookup_2 _ _ _ Hi) as Hin. apply filter_elem in Hin as [Hin _].
    destruct ev as [e v]. by eapply ej_decrypt_payload_ok.
  - unfold comm_store. by rewrite Hs, list_lookup_fmap, Hi.
Qed.
(** What a page of entries lists. *)
Definition listed_as (owner : Actor) (ev : EventEnvelope * value) (m : AgentMessage) : Prop :=
  ej_decrypt_payload ev.1 s = (Ok ev.2, s) /\ exists id, ev.2 = Str id /\ message_answer h owner id = Ok m.
Lemma page_messages_is owner l ms : Forall2 (listed_as owner) l ms -> forall next,
  page_messages owner l.*1 next s = (Ok (ms, default next (ev_stream_version <$> last l.*1)), s).
Proof.
  induction 1 as [|ev m l ms (Hd & id & Hv & Hm) _ IH]; intros next; [done|]. rewrite fmap_cons. cbn [page_messages].
  unfold cop_bind at 1, stored. rewrite Hd, Hv. cbn [map_err]. unfold cop_bind at 1, cop_lift. unfold cop_bind at 1.
  rewrite (get_message_is h Hmax Hok _ _ s Hh), Hm. unfold cop_bind at 1. rewrite IH. cbn [fst snd].
  unfold cop_ret. do 3 f_equal. rewrite last_cons. by destruct (last l.*1).
Qed.

(** The limit of a page. *)
Definition page_limit (limit : N) : nat := N.to_nat (N.min (N.max limit 1) 16).
(** The [n]th message of an inbox, as its owner reads it. *)
Lemma inbox_message id p n ev :
  part σ id = Some p -> stream_entries (inbox_stream id) h !! n = Some ev ->
  exists m, listed_as (ap_owner (pt_participant p)) ev m /\ am_recipient_id m = id /\ am_sequence m = (N.of_nat n + 1)%N /\
    message_answer h (ap_owner (pt_participant p)) (am_id m) = Ok m.
Proof.
  intros Hp Hn. destruct (comm_entry (inbox_stream id) n ev (on_inbox id) Hn) as (_ & Hd & Hv).
  destruct (wf_inbox σ (proj1 Hok) id) as (ids & Hids & _ & Hm & _).
  rewrite Hids, list_lookup_fmap in Hv. destruct (ids !! n) as [mid|] eqn:Hmid; [|done]. injection Hv as Hv.
  destruct (Hm n mid Hmid) as (m & Hmess & Hr & Hseq). exists m.
  assert (message_answer h (ap_owner (pt_participant p)) mid = Ok m) as Ha.
  { unfold message_answer. rewrite (wf_tokens σ (proj1 Hok) mid), Hmess; [|intros He; unfold mess in Hmess; by rewrite He in Hmess].
    cbn [negb]. destruct (message_scope h Hok mid m Hmess) as (_ & q & sc & Hq & _ & -> & _ & Ho & _).
    rewrite Hr in Hq. rewrite bool_decide_eq_true_2; [done|]. congruence. }
  destruct (message_scope h Hok mid m Hmess) as (Hid & _). rewrite Hid.
  split; [|by split_and!]. split; [done|]. by exists mid.
Qed.

(** The checks, and the entries that are read. *)
Lemma list_messages_is owner id after limit :
  list_messages owner id after limit s
  = if negb (valid_token id) then (Err Invalid, s)
    else match part σ id with
         | None => (Err (Store (NotFound "agent participant")), s)
         | Some p =>
             if negb (bool_decide (ap_owner (pt_participant p) = owner)) then (Err Forbidden, s)
             else if (pt_accepted p <? after)%N then (Err Invalid, s)
             else cop_bind (page_messages owner (take (page_limit limit) (drop (N.to_nat after)
                    (stream_entries (inbox_stream id) h).*1)) after)
                    (fun page => cop_ret (mkAgentMessagePage page.1 page.2 (page.2 <? pt_accepted p)%N)) s
         end.
Proof.
  unfold list_messages, refuse, cop_lift. unfold cop_bind at 1. destruct (valid_token id); [|done]. cbn [negb reject].
  unfold cop_bind at 1, stored at 1. rewrite (participant_is h Hmax Hok id s Hh).
  destruct (part σ id) as [p|]; [|done]. cbn [map_err fst]. unfold cop_bind at 1. destruct (bool_decide _); [|done].
  cbn [negb reject]. unfold cop_bind at 1. destruct (pt_accepted p <? after)%N; [done|]. cbn [reject].
  unfold cop_bind at 1, stored. rewrite (ej_read_stream_from_ok s h (inbox_stream id) after _ Hh Hmax).
  assert (N.to_nat (N.min (N.min (N.max limit 1) 16) MAX_STREAM_READ_BATCH) = page_limit limit) as ->; [|done].
  unfold page_limit, MAX_STREAM_READ_BATCH. lia.
Qed.
Lemma inbox_length id p : part σ id = Some p -> count (stream_entries (inbox_stream id) h) = pt_accepted p.
Proof.
  intros Hp. destruct (wf_inbox σ (proj1 Hok) id) as (ids & Hids & Hc & _). unfold accepted_of in Hc. rewrite Hp in Hc.
  rewrite <- Hc. apply (f_equal length) in Hids. unfold comm_store in Hids. rewrite on_inbox, !length_fmap in Hids.
  unfold count. by rewrite Hids.
Qed.
(** The page from [after] on. *)
Lemma inbox_page id p after limit :
  part σ id = Some p -> (after <= pt_accepted p)%N ->
  let l := take (page_limit limit) (drop (N.to_nat after) (stream_entries (inbox_stream id) h)) in
  exists ms, Forall2 (listed_as (ap_owner (pt_participant p))) l ms /\
    count ms = N.min (N.of_nat (page_limit limit)) (pt_accepted p - after) /\
    default after (ev_stream_version <$> last l.*1) = (after + count ms)%N /\
    forall i m, ms !! i = Some m -> am_sequence m = (after + N.of_nat i + 1)%N /\ am_recipient_id m = id /\
      message_answer h (ap_owner (pt_participant p)) (am_id m) = Ok m.
Proof.
  intros Hp Hle l. pose proof (inbox_length id p Hp) as Hlen.
  assert (forall i ev, l !! i = Some ev -> stream_entries (inbox_stream id) h !! (N.to_nat after + i) = Some ev) as Hl.
  { intros i ev Hi. unfold l in Hi. apply lookup_take_Some in Hi as [Hi _]. by rewrite lookup_drop in Hi. }
  assert (exists ms, Forall2 (listed_as (ap_owner (pt_participant p))) l ms /\
    forall i m, ms !! i = Some m -> am_sequence m = (after + N.of_nat i + 1)%N /\ am_recipient_id m = id /\
      message_answer h (ap_owner (pt_participant p)) (am_id m) = Ok m) as (ms & Hms & Hall).
  { clearbody l. clear Hlen Hle. remember (N.to_nat after) as a eqn:Ha.
    assert (N.of_nat a = after) as <- by lia. clear Ha.
    revert a Hl. induction l as [|ev l IH]; intros a Hl; [exists []; split; [constructor|done]|].
    destruct (inbox_message id p a ev Hp) as (m & Hm & Hr & Hseq & Hans); [rewrite <- (Nat.add_0_r a); by apply Hl|].
    destruct (IH (S a)) as (ms & Hms & Hall); [intros i ev' Hi; rewrite Nat.add_succ_comm; by apply Hl|].
    exists (m :: ms). split; [by constructor|]. intros [|i] m' Hi.
    - injection Hi as <-. split_and!; [lia|done|done].
    - destruct (Hall i m' Hi) as (Hs' & Hr' & Ha'). split_and!; [lia|done|done]. }
  exists ms. pose proof (Forall2_length _ _ _ Hms) as Hlms.
  assert (length l = Nat.min (page_limit limit) (N.to_nat (pt_accepted p) - N.to_nat after)) as Hll.
  { unfold l. rewrite length_take, length_drop. unfold count in Hlen. lia. }
  split_and!; [done|unfold count; lia| |done].
  destruct (last l) as [ev|] eqn:Hlast.
  - rewrite fmap_last, Hlast. cbn [fmap option_fmap option_map default].
    rewrite last_lookup in Hlast. destruct (comm_entry (inbox_stream id) _ ev (on_inbox id) (Hl _ _ Hlast)) as (-> & _).
    apply lookup_lt_Some in Hlast. unfold Datatypes.id, count. lia.
  - apply last_None in Hlast. rewrite Hlast in *. cbn. unfold count. simpl in *. lia.
Qed.

(** C20. Listing an inbox is exact. A name that is no token is refused, and so are an
    attempt that does not exist, one of another owner, and a cursor beyond what was
    accepted. Otherwise the page is the messages after the cursor in order, at most the limit
    of them (between one and sixteen), as many as there are; each has the sequence number of
    its place, was sent to this attempt and is what reading it alone answers; the next cursor
    is the last sequence number of the page, and there is more exactly when it is not the
    last accepted. *)
Theorem inbox_listed owner id after limit :
  let page := (list_messages owner id after limit s).1 in
  (list_messages owner id after limit s).2 = s /\
  (valid_token id = false -> page = Err Invalid) /\
  (valid_token id = true -> part σ id = None -> page = Err (Store (NotFound "agent participant"))) /\
  (forall p, valid_token id = true -> part σ id = Some p -> ap_owner (pt_participant p) <> owner -> page = Err Forbidden) /\
  (forall p, valid_token id = true -> part σ id = Some p -> ap_owner (pt_participant p) = owner ->
     (pt_accepted p < after)%N -> page = Err Invalid) /\
  (forall p, valid_token id = true -> part σ id = Some p -> ap_owner (pt_participant p) = owner ->
     (after <= pt_accepted p)%N -> exists ms,
     page = Ok (mkAgentMessagePage ms (after + count ms) (after + count ms <? pt_accepted p)%N) /\
     count ms = N.min (N.of_nat (page_limit limit)) (pt_accepted p - after) /\
     forall i m, ms !! i = Some m -> am_sequence m = (after + N.of_nat i + 1)%N /\ am_recipient_id m = id /\
       get_message owner (am_id m) s = (Ok m, s)).
Proof.
  rewrite list_messages_is. destruct (valid_token id) eqn:Hv; cbn [negb]; [|by split_and!].
  destruct (part σ id) as [p|] eqn:Hp; [|by split_and!]. case_bool_decide as Ho; cbn [negb]; [|split_and!; try done; congruence].
  destruct (N.ltb_spec (pt_accepted p) after) as [Hlt|Hle]; [split_and!; try done; [congruence|intros q _ [= <-]; lia]|].
  destruct (inbox_page id p after limit Hp Hle) as (ms & Hms & Hc & Hnext & Hall).
  unfold cop_bind. rewrite <- fmap_drop, <- fmap_take. rewrite Ho in Hms. rewrite (page_messages_is owner _ ms Hms), Hnext.
  cbn [fst snd cop_ret]. split_and!; try done.
  - intros q _ [= <-]. congruence.
  - intros q _ [= <-]. lia.
  - intros q _ [= <-] _ _. exists ms. split_and!; [done|done|]. intros i m Hi.
    destruct (Hall i m Hi) as (Hs & Hr & Ha). rewrite Ho in Ha. split_and!; [done|done|].
    by rewrite (get_message_is h Hmax Hok owner (am_id m) s Hh), Ha.
Qed.
End Listing.
