(* ===== verification/CommunicationTest.v ===== *)
(** * A concrete codec for agent communication

    Serialisers of the five records that satisfy [CommunicationCodecsOk], and of what the
    service fingerprints: the instances of the witnesses. *)

From S2P Require Import Prelude Json Contracts Boundary Platform JournalStore Journal Store.
From S2P Require Import JournalModel JournalAppend JournalTest StoreSpec SessionContracts ProjectionHandlers Session SessionTest.
From S2P Require Import WorkContracts Work Aggregates WorkModel WorkTest WorkService Communication CommunicationModel.

Open Scope string_scope.

(** ** Parts of the records *)

Definition actor_types : list ActorType := [User; Application; Model; WorkflowActor; Subagent; System].
Definition failures : list AgentMessageFailure :=
  [MF_Completed; MF_Cancelled; MF_Failed; MF_Interrupted; MF_BudgetExhausted; MF_Superseded].
Definition actor_value (a : Actor) : value := Array [variant actor_types (actor_type a); Str (actor_id a)].
Definition of_actor (v : value) : Actor :=
  match v with Array [t; Str i] => mkActor (of_variant actor_types User t) i | _ => mkActor User "" end.
Lemma of_actor_value a : of_actor (actor_value a) = a.
Proof. destruct a as [t i]. cbn -[variant of_variant]. by rewrite of_variant_ok by (destruct t; listed). Qed.
Definition failure_value (f : option AgentMessageFailure) : value :=
  match f with Some f => Array [variant failures f] | None => Null end.
Definition of_failure (v : value) : option AgentMessageFailure :=
  match v with Array [f] => Some (of_variant failures MF_Failed f) | _ => None end.
Lemma of_failure_value f : of_failure (failure_value f) = f.
Proof. destruct f as [f|]; [|done]. cbn -[variant of_variant]. by rewrite of_variant_ok by (destruct f; listed). Qed.
Lemma of_origin_value o : of_origin (origin_value o) = o.
Proof. by destruct o as [[? []]|]. Qed.
Definition sender_value (s : AgentMessageSender) : value :=
  match s with Participant i => Array [Bool true; Str i] | ApplicationSender i => Array [Bool false; Str i] end.
Definition of_sender (v : value) : AgentMessageSender :=
  match v with
  | Array [Bool b; Str i] => if b then Participant i else ApplicationSender i
  | _ => Participant ""
  end.
Lemma of_sender_value s : of_sender (sender_value s) = s.
Proof. by destruct s. Qed.
Definition receipt_value (r : AgentMessageReceipt) : value :=
  match r with
  | Accepted => Null
  | IncludedInTurn i t h => Array [Str i; json_n t; Str h]
  | NotDelivered f => failure_value (Some f)
  end.
Definition of_receipt (v : value) : AgentMessageReceipt :=
  match v with
  | Array [Str i; Number (PosInt t); Str h] => IncludedInTurn i t h
  | Array [_] => NotDelivered (default MF_Failed (of_failure v))
  | _ => Accepted
  end.
Lemma of_receipt_value r : of_receipt (receipt_value r) = r.
Proof.
  destruct r as [|i t h|f]; [done..|by destruct f].
Qed.
Definition input_value (i : PendingInput) : value := Array [Str (pi_id i); json_n (pi_bytes i)].
Definition of_input (v : value) : option PendingInput :=
  match v with Array [Str i; Number (PosInt n)] => Some (mkPendingInput i n) | _ => None end.
Lemma of_inputs l : of_array of_input (Array (map input_value l)) = Some l.
Proof. apply of_array_map. by intros []. Qed.
Lemma of_strings l : of_array of_json_str (Array (map Str l)) = Some l.
Proof. by apply of_array_map. Qed.

(** ** The codecs *)

Definition participant_value (p : AgentParticipant) : value :=
  Array [Str (ap_id p); Str (ap_root_run_id p); actor_value (ap_owner p); Str (ap_session_id p);
         opt_value (ap_run_id p); opt_value (ap_parent_id p); opt_value (ap_subagent_id p);
         json_n (ap_generation p); Bool (ap_open p); failure_value (ap_closed_reason p);
         json_n (ap_pending_messages p); json_n (ap_pending_bytes p); Str (ap_created_at p)].
Definition of_participant (v : value) : option AgentParticipant :=
  match v with
  | Array [Str i; Str r; o; Str s; u; p; b; Number (PosInt g); Bool op; c; Number (PosInt m);
           Number (PosInt n); Str t] =>
      Some (mkAgentParticipant i r (of_actor o) s (of_json_str u) (of_json_str p) (of_json_str b) g op
              (of_failure c) m n t)
  | _ => None
  end.
Lemma of_participant_value p : of_participant (participant_value p) = Some p.
Proof.
  destruct p. cbn -[actor_value of_actor opt_value of_json_str failure_value of_failure].
  by rewrite of_actor_value, !of_opt_value, of_failure_value.
Qed.
#[export] Instance test_participant_codec : RecordCodec ParticipantState := {
  record_to_value s :=
    Array [participant_value (pt_participant s); Array (map input_value (pt_pending s));
           json_n (pt_accepted s); origin_value (pt_initial_origin s)];
  record_from_value v :=
    match v with
    | Array [p; l; Number (PosInt n); o] =>
        match of_participant p, of_array of_input l with
        | Some p, Some l => Ok (mkParticipantState p l n (of_origin o))
        | _, _ => Err "expected a participant"
        end
    | _ => Err "expected a participant"
    end;
}.
#[export] Instance test_scope_codec : RecordCodec ScopeState := {
  record_to_value s :=
    Array [Str (sc_root_run_id s); actor_value (sc_owner s); Array (map Str (sc_participants s));
           json_n (sc_accepted s); json_n (sc_pending_bytes s)];
  record_from_value v :=
    match v with
    | Array [Str i; o; l; Number (PosInt n); Number (PosInt b)] =>
        match of_array of_json_str l with
        | Some l => Ok (mkScopeState i (of_actor o) l n b)
        | None => Err "expected a scope"
        end
    | _ => Err "expected a scope"
    end;
}.
#[export] Instance test_index_codec : RecordCodec AttemptIndex := {
  record_to_value i := Array [Str (ai_participant_id i); json_n (ai_generation i)];
  record_from_value v :=
    match v with
    | Array [Str i; Number (PosInt g)] => Ok (mkAttemptIndex i g)
    | _ => Err "expected an index"
    end;
}.
#[export] Instance test_claim_codec : RecordCodec MessageClaim := {
  record_to_value c := Array [Str (mc_fingerprint c); Str (mc_message_id c)];
  record_from_value v :=
    match v with
    | Array [Str f; Str i] => Ok (mkMessageClaim f i)
    | _ => Err "expected a claim"
    end;
}.
#[export] Instance test_message_codec : RecordCodec AgentMessage := {
  record_to_value m :=
    Array [Str (am_id m); Str (am_root_run_id m); sender_value (am_sender m); Str (am_recipient_id m);
           json_n (am_sequence m); Str (am_text m); opt_value (am_reply_to m); Str (am_accepted_at m);
           receipt_value (am_receipt m)];
  record_from_value v :=
    match v with
    | Array [Str i; Str r; s; Str c; Number (PosInt n); Str t; p; Str a; v] =>
        Ok (mkAgentMessage i r (of_sender s) c n t (of_json_str p) a (of_receipt v))
    | _ => Err "expected a message"
    end;
}.

(** ** Their laws *)

(** Shallow enough to be a field. *)
Definition field_ok (v : value) : Prop := json_depth v <= 2 /\ exact_json v = true.
Lemma actor_ok a : field_ok (actor_value a).
Proof. destruct a as [[] i]; split; (simpl; lia) || done. Qed.
Lemma failure_ok f : field_ok (failure_value f).
Proof. destruct f as [[]|]; split; (simpl; lia) || done. Qed.
Lemma origin_ok o : field_ok (origin_value o).
Proof. destruct o as [[? []]|]; split; (simpl; lia) || done. Qed.
Lemma sender_ok s : field_ok (sender_value s).
Proof. destruct s; split; (simpl; lia) || done. Qed.
Lemma receipt_ok r : receipt_fit r -> field_ok (receipt_value r).
Proof.
  destruct r as [|i t h|f]; intros Hr; [split; (simpl; lia) || done| |exact (failure_ok (Some f))].
  split; [simpl; lia|]. simpl in *. rewrite (proj2 (N.leb_le _ _)) by (unfold u64_max; lia). done.
Qed.
Lemma inputs_ok_value l : Forall (fun i => pi_bytes i <= u64_max)%N l -> field_ok (Array (map input_value l)).
Proof.
  intros Hf. apply array_storable. apply Forall_map. eapply Forall_impl; [exact Hf|].
  intros i Hi. split; [simpl; lia|]. simpl. by rewrite (proj2 (N.leb_le _ _) Hi).
Qed.
Lemma strings_ok l : field_ok (Array (map Str l)).
Proof. apply strings_storable. Qed.
Lemma number_ok n : (n <= u64_max)%N -> field_ok (json_n n).
Proof. intros Hn. split; [simpl; lia|]. by apply N.leb_le. Qed.
Lemma opt_ok o : field_ok (opt_value o).
Proof. destruct (opt_storable o) as [Hd Hx]. split; [rewrite Hd; lia|done]. Qed.
Lemma plain_ok v : json_depth v = 0 -> exact_json v = true -> field_ok v.
Proof. intros Hd Hx. split; [rewrite Hd; lia|done]. Qed.
Create HintDb fields.
#[local] Hint Resolve actor_ok failure_ok origin_ok sender_ok receipt_ok inputs_ok_value strings_ok number_ok opt_ok : fields.
#[local] Hint Extern 5 (field_ok (Str _)) => by apply plain_ok : fields.
#[local] Hint Extern 5 (field_ok (Bool _)) => by apply plain_ok : fields.
Ltac fields := repeat (apply Forall_cons; split; [auto with fields|]); apply Forall_nil_2.
Lemma fields_storable l : Forall field_ok l -> parseable (Array l) /\ exact_json (Array l) = true.
Proof.
  intros Hf. destruct (array_storable 2 l Hf) as [Hd Hx]. split; [|exact Hx].
  unfold parseable, MAX_PARSED_DEPTH. lia.
Qed.

#[export] Instance test_communication_codecs_ok : CommunicationCodecsOk.
Proof.
  constructor; constructor.
  - intros [p l n o] _. cbn -[participant_value of_participant of_array origin_value of_origin].
    by rewrite of_participant_value, of_inputs, of_origin_value.
  - intros [p l n o] (Hg & Hm & Hb & Ha & Hl). cbn in Hg, Hm, Hb, Ha, Hl.
    destruct (array_storable 3 [participant_value p; Array (map input_value l); json_n n; origin_value o]) as [Hd Hx].
    + assert (forall v, field_ok v -> json_depth v <= 3 /\ exact_json v = true) as Hw by (intros v []; split; [lia|done]).
      apply Forall_cons. split; [apply (array_storable 2); match goal with |- Forall _ ?l => change (Forall field_ok l) end; fields|].
      repeat (apply Forall_cons; split; [apply Hw; auto with fields|]); apply Forall_nil_2.
    + split; [|exact Hx]. unfold parseable, MAX_PARSED_DEPTH. cbn [record_to_value test_participant_codec] in *.
      cbn [pt_participant pt_pending pt_accepted pt_initial_origin]. lia.
  - intros [i o l n b] _. cbn -[actor_value of_actor of_array]. by rewrite of_strings, of_actor_value.
  - intros [i o l n b] [Hn Hb]. cbn in Hn, Hb. apply fields_storable. fields.
  - by intros [].
  - intros [i g] Hg. apply fields_storable. fields.
  - by intros [].
  - intros [f i] _. apply fields_storable. fields.
  - intros [] _. cbn -[sender_value of_sender opt_value of_json_str receipt_value of_receipt].
    by rewrite of_sender_value, of_opt_value, of_receipt_value.
  - intros [] [Hs Hr]. cbn in Hs, Hr. apply fields_storable. fields.
Qed.
#[export] Instance test_communication_codec : CommunicationCodec := {|
  sender_to_vec owner sender := Ok (actor_id owner ++s ":" ++s sender_id sender);
  claim_to_vec sender key := Ok (sender ++s ":" ++s key);
  request_to_vec request := Ok (sr_recipient_id request ++s ":" ++s sr_text request);
|}.
