(* ===== verification/Composition.v ===== *)
(** * Sessions, work items and agent communication on one journal

    The repositories share a journal: the work service writes through two of them, and the
    inclusion of messages in a turn is a write to a session and to its inbox at once.  A
    batch of the one carries the events of the others around its own, so in the joint
    system, whatever interleaves, the three invariants hold; and every operation of the
    session and the work repository is a run of it, with what the communication service
    stages in its batch. *)

From S2P Require Import Prelude Json Contracts Boundary Platform JournalStore Journal Store.
From S2P Require Import JournalModel JournalAppend StoreSpec StoreCorrect SessionContracts Session Interleaving.
From S2P Require Import SessionModel SessionCorrect SessionOps SessionSafety.
From S2P Require Import WorkContracts Work Aggregates WorkModel WorkOps WorkSafety WorkService.
From S2P Require Import Communication CommunicationModel CommunicationSafety.
From stdpp Require Import relations.

Open Scope string_scope.
Open Scope op_scope.

(** A name of one kind is not of another. *)
Lemma starts_with_apart s p q :
  starts_with p q = false -> starts_with q p = false -> starts_with s p = true -> starts_with s q = false.
Proof.
  unfold starts_with. revert p q. induction s as [|c s IH]; intros p q Hpq Hqp Hp.
  - by destruct p, q.
  - destruct p as [|d p]; [by destruct q|]. destruct q as [|e q]; [done|]. simpl in *.
    destruct (ascii_dec d c) as [->|]; [|done]. destruct (ascii_dec e c) as [->|Hne]; [|done].
    destruct (ascii_dec c c); [|done]. by apply (IH p q).
Qed.
Lemma existsb_apart s ps q :
  forallb (fun p => negb (starts_with p q) && negb (starts_with q p)) ps = true ->
  existsb (starts_with s) ps = true -> starts_with s q = false.
Proof.
  intros Hf (p & Hin & Hp)%existsb_exists. rewrite forallb_forall in Hf. specialize (Hf p Hin).
  apply andb_true_iff in Hf as [Hpq%negb_true_iff Hqp%negb_true_iff]. by eapply starts_with_apart.
Qed.
Definition SESSION_PREFIXES : list string := ["session:"; "session-title:"; "session-lifecycle:"].
Definition WORK_PREFIXES : list string := ["task:"; "decision:"; "plan:"; "goal:"; "subagent:"].
Lemma session_own_prefixes s : session_own s = existsb (starts_with s) SESSION_PREFIXES.
Proof. unfold session_own. simpl. by rewrite orb_false_r, orb_assoc. Qed.
Lemma work_own_prefixes s : work_own s = existsb (starts_with s) WORK_PREFIXES.
Proof. unfold work_own. simpl. by rewrite orb_false_r, !orb_assoc. Qed.
Lemma work_foreign event : work_own (ne_stream_id event) = true -> foreign event.
Proof. rewrite work_own_prefixes. intros Hs. split; by apply (existsb_apart _ WORK_PREFIXES). Qed.
Lemma comm_not_session s : on_comm s = true -> session_own s = false.
Proof.
  intros Hs. unfold session_own.
  by rewrite (existsb_apart s COMM_PREFIXES "session:" eq_refl Hs), (existsb_apart s COMM_PREFIXES "session-title:" eq_refl Hs),
    (existsb_apart s COMM_PREFIXES "session-lifecycle:" eq_refl Hs).
Qed.
Lemma comm_not_work s : on_comm s = true -> work_own s = false.
Proof.
  intros Hs. unfold work_own.
  by rewrite (existsb_apart s COMM_PREFIXES "task:" eq_refl Hs), (existsb_apart s COMM_PREFIXES "decision:" eq_refl Hs),
    (existsb_apart s COMM_PREFIXES "plan:" eq_refl Hs), (existsb_apart s COMM_PREFIXES "goal:" eq_refl Hs),
    (existsb_apart s COMM_PREFIXES "subagent:" eq_refl Hs).
Qed.

Section Joint.
Context `{SessionCodec} `{!SessionCodecOk} `{WorkCodecsOk} `{Externals} `{CommunicationCodecsOk}.
Context {J} `{EventJournalOk J}.

Definition joint_ok (h : history) : Prop := sessions_ok h /\ work_ok h /\ comm_ok h.
(** A batch that each of the repositories may find in the journal. *)
Definition joint_batch (h : history) (batch : list NewEvent) : Prop :=
  prepared h batch /\ work_batch h batch /\ comm_batch h batch.
Definition joint_step : J * list (list NewEvent) -> J * list (list NewEvent) -> Prop :=
  journal_step joint_batch.
(** An event of neither a session nor a work item. *)
Definition neither (event : NewEvent) : Prop := foreign event /\ off_work event.
(** What a caller adds to a batch: events of the communication service, or of others. *)
Definition staged_for (h : history) (additional : list NewEvent) : Prop :=
  Forall neither additional /\ comm_batch h additional.
Lemma staged_nil h : staged_for h [].
Proof. split; [apply Forall_nil_2|by left]. Qed.

Lemma joint_batch_ok inputs (h g : history) batch es :
  chain h.*1 -> (count h < u64_max)%N -> joint_batch h batch -> joint_ok (h ++ g) ->
  batch_committed (h ++ g) inputs batch es -> joint_ok ((h ++ g) ++ entries batch es).
Proof.
  intros Hc Hm (Hs & Hw & Hco) (Hos & How & Hoc) Hb.
  split_and!; [by apply (prepared_ok inputs)|by apply (work_batch_ok inputs)|by apply (comm_batch_ok inputs)].
Qed.

Lemma off_work_batch h batch : Forall off_work batch -> work_batch h batch.
Proof. intros (Ht & Hd & Hp & Hg & Hs)%off_work_all. split_and!; by apply off_batch. Qed.
Lemma session_off_work event : session_own (ne_stream_id event) = true -> off_work event.
Proof. rewrite session_own_prefixes. intros Hs. split_and!; by apply (existsb_apart _ SESSION_PREFIXES). Qed.
(** What a batch around the caller's events is to the communication service. *)
Lemma comm_around own h add batch :
  (forall s, on_comm s = true -> own s = false) -> around own add batch -> comm_batch h add ->
  comm_batch h batch.
Proof.
  intros Ho Ha Hc. unfold comm_batch.
  assert (own_events batch = own_events add) as ->; [|done].
  apply (around_filter own); [|done]. intros e. apply Ho.
Qed.
Lemma session_joint add h batch :
  staged_for h add -> prepared_by add h batch -> joint_batch h batch.
Proof.
  intros [Ha Hc] [Hp Hf]. split_and!; [done| |by eapply (comm_around session_own); [apply comm_not_session|..]].
  apply off_work_batch, Forall_forall. intros event Hin.
  destruct (around_elem _ _ _ _ Hf Hin) as [Ho|Hadd]; [by apply session_off_work|].
  rewrite Forall_forall in Ha. by apply Ha.
Qed.
Lemma work_joint add h batch : staged_for h add -> written add h batch -> joint_batch h batch.
Proof.
  intros [Ha Hc] [Hw Hf]. split_and!; [|done|by eapply (comm_around work_own); [apply comm_not_work|..]].
  apply prepared_foreign, Forall_forall. intros event Hin.
  destruct (around_elem _ _ _ _ Hf Hin) as [Ho|Hadd]; [by apply work_foreign|].
  rewrite Forall_forall in Ha. by apply Ha.
Qed.
(** A batch of the communication service is the others' concern only where it is theirs. *)
Lemma comm_joint h batch : staged_for h batch -> joint_batch h batch.
Proof.
  intros [Ha Hc]. split_and!; [| |done].
  - apply prepared_foreign. eapply Forall_impl; [exact Ha|]. by intros event [].
  - apply off_work_batch. eapply Forall_impl; [exact Ha|]. by intros event [].
Qed.

(** Every operation of either repository. *)
Inductive JointAction :=
| OnSession (a : SessionAction)
| OnWork (a : WorkAction).
Definition run_joint (inputs : Inputs) (a : JointAction) (j : J) : J :=
  match a with OnSession a => run_action inputs a j | OnWork a => run_work inputs a j end.
Definition joint_fit (h : history) (a : JointAction) : Prop :=
  match a with
  | OnSession a => action_fit a /\ staged_for h (action_events a)
  | OnWork a => work_fit a /\ staged_for h (work_events a)
  end.
Definition joint_size (a : JointAction) : N :=
  match a with OnSession a => action_size a | OnWork a => work_size a end.

Lemma joint_action_batch j h inputs a :
  holds j h -> joint_ok h -> inputs_ok inputs -> joint_fit h a ->
  (count h + joint_size a + 1 < u64_max)%N ->
  one_batch joint_batch j h inputs (joint_size a) (run_joint inputs a j).
Proof.
  intros Hh (Hs & Hw & _) Hi Hf Hle. destruct a as [a|a]; destruct Hf as [Hf Ha].
  - eapply one_batch_mono; [|by apply action_batch]. intros batch. by apply session_joint.
  - eapply one_batch_mono; [|by apply work_action_batch]. intros batch. by apply work_joint.
Qed.

(** C13. Sessions, work items and agent communication share the journal safely: however
    the operations of the repositories interleave, each committing its batch after any number
    of other commits or again, every session stays one conversation, every work item a run of
    its kind, and the inboxes, receipts and accounts of the communication service consistent;
    and every operation of the session and the work repository, alone, with what is staged in
    its batch, is such a run. *)
Theorem joint_interleaved (j j' : J) (h : history) batches :
  holds j h -> joint_ok h ->
  (rtc joint_step (j, []) (j', batches) -> exists g, holds j' (h ++ g) /\ joint_ok (h ++ g)) /\
  (forall inputs a, inputs_ok inputs -> joint_fit h a -> (count h + joint_size a + 1 < u64_max)%N ->
    exists batches', rtc joint_step (j, batches) (run_joint inputs a j, batches')).
Proof.
  intros Hh Hok. split.
  - intros Hr. eapply (interleaved_ok joint_batch joint_ok); [|done..].
    intros inputs h' g' batch es. by apply joint_batch_ok.
  - intros inputs a Hi Hf Hle. eapply (one_batch_refines joint_batch); try done. by apply joint_action_batch.
Qed.
End Joint.
