(* ===== verification/PlanCommands.v ===== *)
(** * Commands on a plan at a revision

    The service's commands on a plan name the revision the caller has seen.  What each does
    is stated here exactly: which plans it accepts, what it makes of one, and that nothing
    else is written. *)

From S2P Require Import Prelude Json Contracts Boundary Platform JournalStore Journal Store.
From S2P Require Import JournalModel JournalAppend StoreSpec StoreCorrect SessionContracts Session Interleaving.
From S2P Require Import WorkContracts Work Aggregates WorkModel WorkOps WorkService.

Open Scope string_scope.
Open Scope op_scope.

(** The commands, the plans each accepts and what it makes of one. *)
Inductive PlanCommand :=
| EditDraft (content : string) (steps : list PlanStep)
| Approve
| Execute (run_id : string)
| Discard.
Definition command_accepts (c : PlanCommand) (p : PlanRecord) : Prop :=
  match c with
  | EditDraft _ _ | Approve => pn_status p = PS_Draft
  | Execute run_id => pn_status p = PS_Approved /\ valid_id run_id = true
  | Discard => pn_status p = PS_Draft \/ pn_status p = PS_Approved
  end.
Definition command_result (c : PlanCommand) (timestamp : string) (p : PlanRecord) : PlanRecord :=
  match c with
  | EditDraft content steps =>
      mkPlanRecord (pn_id p) (pn_session_id p) (pn_prompt p) (pn_status p) (pn_revision p) content
        steps (pn_created_at p) timestamp (pn_approved_at p) (pn_executed_run_id p)
  | Approve => with_lifecycle PS_Approved timestamp (Some timestamp) (pn_executed_run_id p) p
  | Execute run_id => with_lifecycle PS_Executed timestamp (pn_approved_at p) (Some run_id) p
  | Discard => with_lifecycle PS_Discarded timestamp (pn_approved_at p) (pn_executed_run_id p) p
  end.
(** The contents a command writes are of a valid plan; only an edit brings its own. *)
Definition command_fits (c : PlanCommand) (timestamp : string) (p : PlanRecord) : Prop :=
  match c with
  | EditDraft content steps =>
      Forall (fun s => ps_index s <= u32_max)%N steps /\ validate_plan (command_result c timestamp p) = Ok tt
  | _ => timestamp <> ""
  end.

Lemma plan_valid id evs (p : PlanRecord) `{RecordCodec PlanRecord} :
  record_trace id evs p -> validate_plan p = Ok tt.
Proof. by destruct 1 as [? ? ? ? ? ? ? (? & _)|? ? ? ? ? ? ? ? ? (_ & ? & _)]. Qed.
Lemma with_lifecycle_valid status t approved run p :
  validate_plan p = Ok tt -> t <> "" -> plan_lifecycle_valid (with_lifecycle status t approved run p) = true ->
  validate_plan (with_lifecycle status t approved run p) = Ok tt.
Proof.
  intros Hv Ht Hl. unfold validate_plan in *. apply reject_Ok in Hv.
  repeat (apply orb_false_iff in Hv as [Hv ?Hv]). rewrite Hl.
  unfold with_lifecycle, plan_bytes in *.
  cbn [pn_id pn_session_id pn_prompt pn_content pn_steps pn_created_at pn_updated_at].
  rewrite Hv, Hv1, Hv3, Hv4, Hv5, Hv6, Hv7, Hv8. by destruct t.
Qed.
Lemma result_valid c t p :
  validate_plan p = Ok tt -> command_accepts c p -> command_fits c t p ->
  validate_plan (command_result c t p) = Ok tt.
Proof.
  intros Hv Ha Hf. pose proof (lifecycle_of p Hv) as Hl. unfold plan_lifecycle_valid in Hl.
  destruct c as [content steps| |run|]; [by destruct Hf|..]; cbn in Ha, Hf;
    apply with_lifecycle_valid; try done; cbn.
  - rewrite Ha in Hl. by apply andb_true_iff in Hl as [_ ->].
  - destruct Ha as [Ha _]. rewrite Ha in Hl. by apply andb_true_iff in Hl as [-> _].
  - destruct Ha as [Ha|Ha]; rewrite Ha in Hl; by apply andb_true_iff in Hl as [_ ->].
Qed.
(** The repository accepts it: the steps of a command are steps of a plan. *)
Lemma command_update c t p :
  validate_plan p = Ok tt -> command_accepts c p -> (pn_revision p < u64_max)%N ->
  exists ty, plan_update p (command_result c t p) = Ok (ty, with_revision (pn_revision p + 1) (command_result c t p)).
Proof.
  intros Hv Ha Hr. pose proof (lifecycle_of p Hv) as Hl. unfold plan_lifecycle_valid in Hl.
  unfold plan_update, require_plan_revision, next_revision, approval_lineage_valid, checked_add.
  assert (pn_revision (command_result c t p) = pn_revision p) as -> by by destruct c.
  assert (pn_session_id (command_result c t p) = pn_session_id p) as -> by by destruct c.
  assert (pn_created_at (command_result c t p) = pn_created_at p) as -> by by destruct c.
  assert (pn_prompt (command_result c t p) = pn_prompt p) as -> by by destruct c.
  rewrite N.eqb_refl, !String.eqb_refl. cbn [negb orb reject].
  rewrite (proj2 (N.leb_le _ _)) by lia.
  destruct c as [content steps| |run|]; cbn in Ha |- *.
  - rewrite Ha in *. apply andb_true_iff in Hl as [-> _]. by eexists.
  - rewrite Ha in *. rewrite String.eqb_refl, (bool_decide_true (pn_steps p = pn_steps p)) by done. by eexists.
  - destruct Ha as [Ha _]. rewrite Ha in *.
    rewrite (bool_decide_true (pn_approved_at p = pn_approved_at p)), String.eqb_refl, (bool_decide_true (pn_steps p = pn_steps p)) by done.
    by eexists.
  - destruct Ha as [Ha|Ha]; rewrite Ha in *; apply andb_true_iff in Hl as [Hl _];
      rewrite ?Hl, ?(bool_decide_true (pn_approved_at p = pn_approved_at p)), String.eqb_refl,
        (bool_decide_true (pn_steps p = pn_steps p)) by done; by eexists.
Qed.

Section Commands.
Context `{WorkCodecsOk} {J} `{EventJournalOk J}.
Context (j : J) (h : history) (Hh : holds j h) (Hok : work_ok h).
Context (inputs : Inputs) (Hi : inputs_ok inputs) (Hle : (count h + 2 < u64_max)%N).

Definition run_plan_command (fresh : Minted) (id : string) (revision : N) (c : PlanCommand) (actor : Actor)
    : op J PlanRecord :=
  match c with
  | EditDraft content steps => update_draft_plan inputs fresh id revision content steps actor
  | Approve => approve_plan_at_revision inputs fresh id revision actor
  | Execute run_id => execute_plan_at_revision inputs fresh id revision run_id actor
  | Discard => discard_plan_at_revision inputs fresh id revision actor
  end.

(** The commands read one record, check it and update it. *)
Definition acceptable (c : PlanCommand) (p : PlanRecord) : bool :=
  match c with
  | EditDraft _ _ | Approve => bool_decide (pn_status p = PS_Draft)
  | Execute run_id => bool_decide (pn_status p = PS_Approved) && valid_id run_id
  | Discard => bool_decide (pn_status p = PS_Draft) || bool_decide (pn_status p = PS_Approved)
  end.
Lemma acceptable_iff c p : acceptable c p = true <-> command_accepts c p.
Proof.
  destruct c as [content steps| |run|]; cbn;
    rewrite ?andb_true_iff, ?orb_true_iff, ?bool_decide_eq_true; done.
Qed.
Lemma command_read fresh id revision c actor p :
  get_plan id j = (Ok (Some p), j) -> pn_revision p = revision -> command_accepts c p ->
  run_plan_command fresh id revision c actor j =
    match fr_now fresh with
    | Ok t => update_plan inputs (command_result c t p) actor j
    | Err e => (Err e, j)
    end.
Proof.
  intros Hg Hr Ha. apply acceptable_iff in Ha.
  destruct c as [content steps| |run|]; cbn [run_plan_command acceptable] in *;
    unfold update_draft_plan, approve_plan_at_revision, execute_plan_at_revision, discard_plan_at_revision,
      plan_at_revision, require_record, require_plan_revision, op_bind, op_lift, op_ret;
    rewrite Hg; cbn [ok_or]; rewrite Hr, N.eqb_refl, Ha; cbn [negb reject];
    by destruct (fr_now fresh).
Qed.
Lemma command_refused fresh id revision c actor p :
  get_plan id j = (Ok (Some p), j) -> pn_revision p <> revision \/ acceptable c p = false ->
  exists e, run_plan_command fresh id revision c actor j = (Err e, j).
Proof.
  intros Hg Hr.
  destruct c as [content steps| |run|]; cbn [run_plan_command acceptable] in *;
    unfold update_draft_plan, approve_plan_at_revision, execute_plan_at_revision, discard_plan_at_revision,
      plan_at_revision, require_record, require_plan_revision, op_bind, op_lift, op_ret;
    rewrite Hg; cbn [ok_or];
    (destruct (N.eqb_spec (pn_revision p) revision) as [He|]; [|by eexists]);
    (destruct Hr as [Hr|Hr]; [done|]); cbn [negb reject]; rewrite Hr; by eexists.
Qed.
Lemma command_missing fresh id revision c actor :
  get_plan id j = (Ok None, j) -> exists e, run_plan_command fresh id revision c actor j = (Err e, j).
Proof.
  intros Hg. destruct c as [content steps| |run|]; cbn [run_plan_command];
    unfold update_draft_plan, approve_plan_at_revision, execute_plan_at_revision, discard_plan_at_revision,
      plan_at_revision, require_record, op_bind, op_lift; rewrite Hg; by eexists.
Qed.

(** What a command writes: the next revision. *)
Definition next_plan (c : PlanCommand) (t : string) (p : PlanRecord) : PlanRecord :=
  with_revision (pn_revision p + 1) (command_result c t p).
Definition command_fit (c : PlanCommand) : Prop :=
  match c with EditDraft _ steps => Forall (fun s => ps_index s <= u32_max)%N steps | _ => True end.
Lemma result_fit c t p : plan_fit p -> command_fit c -> plan_fit (command_result c t p).
Proof. intros [Hr Hs] Hc. by destruct c; split. Qed.
Lemma result_id c t p : pn_id (command_result c t p) = pn_id p.
Proof. by destruct c. Qed.

Lemma read_plan_trace id p :
  record_trace id (stream_entries (plan_stream id) h) p -> get_plan id j = (Ok (Some p), j).
Proof. intros Ht. exact (record_ok (A:=PlanRecord) j h Hh ltac:(lia) id p Ht). Qed.
(** What the repository does with the result of a command on the stored plan. *)
Lemma result_updated id p c t actor :
  record_trace id (stream_entries (plan_stream id) h) p -> command_accepts c p -> command_fit c ->
  (pn_revision p < u64_max)%N -> validate_plan (command_result c t p) = Ok tt ->
  exists event, record_write h event id (next_plan c t p) /\ recordable event /\
    commits j inputs [event] (next_plan c t p) (update_plan inputs (command_result c t p) actor j).
Proof.
  intros Ht Ha Hc Hr Hv. destruct (trace_last _ _ _ Ht) as (e & v & _ & _ & Hid & Hf). cbn in Hid, Hf.
  destruct (command_update c t p (plan_valid _ _ _ Ht) Ha Hr) as [ty Hu].
  destruct (plan_update_step _ _ _ _ Hv (result_fit c t p Hf Hc) Hu) as (_ & Hfn & Hs & _).
  unfold update_plan. rewrite Hv, op_bind_lift, (result_id c t p), Hid.
  rewrite (op_bind_run _ _ _ _ _ (record_with_version_ok (A:=PlanRecord) j h Hh ltac:(lia) id p Ht)).
  rewrite op_bind_lift. cbn [ok_or fst snd]. rewrite Hu, op_bind_lift.
  assert (pn_id (next_plan c t p) = id) as Hn by (rewrite <- Hid; by destruct c).
  exact (step_commits (A:=PlanRecord) j h Hh inputs Hi Hle id p (next_plan c t p) ty actor
    (pn_session_id (next_plan c t p)) Ht Hn Hfn Hs).
Qed.

Lemma revision_exhausted id p c t actor :
  record_trace id (stream_entries (plan_stream id) h) p -> plan_fit (command_result c t p) ->
  validate_plan (command_result c t p) = Ok tt -> (u64_max <= pn_revision p)%N ->
  exists e, update_plan inputs (command_result c t p) actor j = (Err e, j).
Proof.
  intros Ht Hf Hv Hge. destruct (trace_last _ _ _ Ht) as (e & v & _ & _ & Hid & _). cbn in Hid.
  unfold update_plan. rewrite Hv, op_bind_lift, (result_id c t p), Hid.
  rewrite (op_bind_run _ _ _ _ _ (record_with_version_ok (A:=PlanRecord) j h Hh ltac:(lia) id p Ht)).
  rewrite op_bind_lift. cbn [ok_or fst snd]. destruct (plan_update p _) as [[ty next]|e'] eqn:Hu; [|by eexists].
  destruct (plan_update_step _ _ _ _ Hv Hf Hu) as (_ & [Hn _] & _ & ->). cbn in Hn. lia.
Qed.

(** C27. A command on a plan at a revision does exactly one thing: it is
    refused without a trace, or the stored plan is at that revision and of the command's
    status, and the plan with the next revision is committed as its one next event; and it
    is refused only if the plan is at another revision or status, the content is not of a
    valid plan, the revisions are used up, the clock fails or the journal does. *)
Theorem plan_command_exact fresh id revision c actor :
  command_fit c ->
  let x := run_plan_command fresh id revision c actor j in
  ((exists e, x = (Err e, j)) \/
   exists p t, record_trace id (stream_entries (plan_stream id) h) p /\ pn_revision p = revision /\
     command_accepts c p /\ fr_now fresh = Ok t /\
     one_write j h inputs id (next_plan c t p) (next_plan c t p) x) /\
  forall p t, record_trace id (stream_entries (plan_stream id) h) p -> pn_revision p = revision ->
    command_accepts c p -> fr_now fresh = Ok t -> command_fits c t p -> (revision < u64_max)%N ->
    exists event, record_write h event id (next_plan c t p) /\ commits j inputs [event] (next_plan c t p) x.
Proof.
  intros Hc x. assert (count h + 1 < u64_max)%N as Hmax by lia. split.
  - destruct (current_cases (A:=PlanRecord) j h Hh Hmax id ltac:(apply Hok))
      as [(_ & Hg & _)|(p & Ht & Hid & Hf & _ & Hg)]; [left; by apply (command_missing fresh id)|].
    destruct (decide (pn_revision p = revision)) as [Hr|Hr]; [|left; by eapply command_refused; [|left]].
    destruct (acceptable c p) eqn:Ha; [|left; by eapply command_refused; [|right]].
    apply acceptable_iff in Ha. unfold x. rewrite (command_read fresh id revision c actor p Hg Hr Ha).
    destruct (fr_now fresh) as [t|e]; [|left; by eexists].
    right. exists p, t. split_and!; try done.
    destruct (validate_plan (command_result c t p)) as [[]|e] eqn:Hv;
      [|left; exists e; unfold update_plan; by rewrite Hv].
    destruct (N.lt_ge_cases (pn_revision p) u64_max) as [Hlt|Hge]; [right; by apply result_updated|].
    left. apply (revision_exhausted id); try done. by apply result_fit.
  - intros p t Ht Hr Ha Hn Hcf Hlt. unfold x.
    rewrite (command_read fresh id revision c actor p (read_plan_trace _ _ Ht) Hr Ha), Hn.
    destruct (result_updated id p c t actor Ht Ha Hc) as (event & Hw & _ & Hcm); [by rewrite Hr| |by exists event].
    eapply result_valid; try done. by eapply plan_valid.
Qed.
End Commands.
