(* ===== verification/WorkServiceCorrect.v ===== *)
(** * The work service on the joint system

    Every operation of [WorkService] reads, and then runs one operation of the work
    repository - or, for a child-agent job, creates its session and tries its transition up
    to eight times, each attempt staging the communication events anew.  So every one of
    them is a run of [joint_step], and the two invariants hold whatever else runs. *)

From S2P Require Import Prelude Json Contracts Boundary Platform JournalStore Journal Store.
From S2P Require Import JournalModel JournalAppend StoreSpec StoreCorrect SessionContracts Session Interleaving.
From S2P Require Import SessionModel SessionCorrect SessionOps SessionSafety.
From S2P Require Import WorkContracts Work Aggregates WorkModel WorkOps WorkSafety WorkService.
From S2P Require Import Communication CommunicationModel CommunicationSafety Composition.
From stdpp Require Import relations.

Open Scope string_scope.
Open Scope op_scope.

(** The operations of the service. *)
Inductive ServiceAction :=
| SvCreateTask (session_id title description : string) (status : TaskStatus)
| SvUpdateTask (id : string) (title description : option string) (status : option TaskStatus)
| SvCreateDecision (session_id : string) (c : DecisionContent) (goal_id plan_id supersedes : option string)
| SvUpdateDecision (id : string) (title decision : option string) (priority : option DecisionPriority)
    (intent applies_when rationale source_excerpt : option string)
| SvArchiveDecision (id : string)
| SvSupersedeDecision (id : string) (c : DecisionContent)
| SvCreatePlan (session_id prompt content : string) (steps : list PlanStep)
| SvUpdateDraftPlan (id : string) (expected_revision : N) (content : string) (steps : list PlanStep)
| SvApprovePlan (id : string)
| SvApprovePlanAt (id : string) (expected_revision : N)
| SvExecutePlan (id run_id : string)
| SvExecutePlanAt (id : string) (expected_revision : N) (run_id : string)
| SvDiscardPlan (id : string)
| SvDiscardPlanAt (id : string) (expected_revision : N)
| SvCreateGoal (session_id objective : string) (iteration_budget : N) (source_plan_id : option string)
| SvCreateGoalAt (session_id objective : string) (iteration_budget : N) (source_plan_id : option string)
    (source_plan_revision : option N)
| SvRecordGoalIteration (id : string)
| SvUpdateGoalStatus (id : string) (status : GoalStatus) (summary blocked_reason : string)
| SvCreateSubagent (child_session_id : string) (request : CreateSubagentRequest)
| SvStartSubagent (id : string)
| SvCompleteSubagent (id child_run_id output : string)
| SvStopSubagent (id : string) (status : SubagentStatus) (error : string)
| SvRequeueSubagent (id : string).

Lemma op_bind_ret_snd {S A B} (m : op S A) (f : A -> B) (s : S) :
  ((a <~ m;; op_ret (f a)) s).2 = (m s).2.
Proof. unfold op_bind. by destruct (m s) as [[a|e] s']. Qed.

Section Service.
Context `{SessionCodec} `{!SessionCodecOk} `{WorkCodecsOk} `{Externals} `{CommunicationCodecsOk}.
Context {J} `{EventJournalOk J}.
Context (communication : option (ChildCommunication J)).

(** What the communication port stages: few, storable events of its own streams, from
    reading the journal; neither that nor its notification changes what the journal holds. *)
Definition MAX_STAGED : N := 1000.
Definition staged_ok (h : history) (x : result StoreError (list NewEvent) * J) : Prop :=
  holds x.2 h /\ forall events, x.1 = Ok events ->
    Forall recordable events /\ staged_for h events /\ (count events <= MAX_STAGED)%N.
Definition communication_ok : Prop := forall c j h, communication = Some c ->
  holds j h -> joint_ok h -> (count h + 1 < u64_max)%N ->
  (forall job, staged_ok h (cc_register_child c job j)) /\
  (forall job reason, staged_ok h (cc_close_child c job reason j)) /\
  (forall job, holds (cc_child_committed c job j) h).

Definition run_service (inputs : nat -> Inputs) (fresh : Minted) (now : result StoreError string)
    (actor : Actor) (a : ServiceAction) (j : J) : J :=
  match a with
  | SvCreateTask s t d st => (service_create_task (inputs 0) fresh s t d st actor j).2
  | SvUpdateTask id t d st => (service_update_task (inputs 0) fresh id t d st actor j).2
  | SvCreateDecision s c g p su => (service_create_decision (inputs 0) fresh s c g p su actor j).2
  | SvUpdateDecision id t d p i w r x => (service_update_decision (inputs 0) fresh id t d p i w r x actor j).2
  | SvArchiveDecision id => (archive_decision (inputs 0) now id actor j).2
  | SvSupersedeDecision id c => (service_supersede_decision (inputs 0) fresh now id c actor j).2
  | SvCreatePlan s p c st => (service_create_plan (inputs 0) fresh s p c st actor j).2
  | SvUpdateDraftPlan id r c st => (update_draft_plan (inputs 0) fresh id r c st actor j).2
  | SvApprovePlan id => (approve_plan (inputs 0) fresh id actor j).2
  | SvApprovePlanAt id r => (approve_plan_at_revision (inputs 0) fresh id r actor j).2
  | SvExecutePlan id run => (execute_plan (inputs 0) fresh id run actor j).2
  | SvExecutePlanAt id r run => (execute_plan_at_revision (inputs 0) fresh id r run actor j).2
  | SvDiscardPlan id => (discard_plan (inputs 0) fresh id actor j).2
  | SvDiscardPlanAt id r => (discard_plan_at_revision (inputs 0) fresh id r actor j).2
  | SvCreateGoal s o b p => (service_create_goal (inputs 0) fresh now s o b p actor j).2
  | SvCreateGoalAt s o b p r => (create_goal_at_plan_revision (inputs 0) fresh now s o b p r actor j).2
  | SvRecordGoalIteration id => (service_record_goal_iteration (inputs 0) fresh id actor j).2
  | SvUpdateGoalStatus id st su bl => (update_goal_status (inputs 0) fresh id st su bl actor j).2
  | SvCreateSubagent child request =>
      (service_create_subagent communication inputs fresh child request actor j).2
  | SvStartSubagent id => (start_subagent communication inputs fresh id actor j).2
  | SvCompleteSubagent id run output => (complete_subagent communication inputs fresh id run output actor j).2
  | SvStopSubagent id status error => (stop_subagent communication inputs fresh id status error actor j).2
  | SvRequeueSubagent id => (requeue_subagent communication inputs fresh id actor j).2
  end.
(** Numbers in the range of their types. *)
Definition steps_fit (steps : list PlanStep) : Prop := Forall (fun s => ps_index s <= u32_max)%N steps.
Definition service_fit (a : ServiceAction) : Prop :=
  match a with
  | SvCreatePlan _ _ _ steps | SvUpdateDraftPlan _ _ _ steps => steps_fit steps
  | SvCreateGoal _ _ budget _ | SvCreateGoalAt _ _ budget _ _ => (budget <= u16_limit)%N
  | _ => True
  end.

Lemma work_part {h} : joint_ok h -> work_ok h.
Proof. by intros (_ & Hw & _). Qed.

(** ** One step *)

Section One.
Context (j : J) (h : history) (Hh : holds j h) (Hok : joint_ok h) (Hmax : (count h + 1 < u64_max)%N).
Context (inputs : Inputs).

(** An operation fails without a trace, or its journal is that of a repository operation. *)
Definition one_action {A} (x : result StoreError A * J) : Prop :=
  x.2 = j \/ exists a, joint_fit h a /\ (joint_size a <= 2)%N /\ x.2 = run_joint inputs a j.
Lemma session_required {A} id (k : unit -> op J A) :
  one_action (k tt j) -> one_action ((u <~ require_session id;; k u) j).
Proof.
  intros Hk. unfold require_session, op_bind, op_lift, op_ret.
  pose proof (get_session_reads id j h Hh Hmax (proj1 Hok)) as Hr.
  destruct (get_session id j) as [[[s|]|e] j']; cbn in Hr |- *; rewrite Hr;
    [exact Hk|by left|by left].
Qed.
Lemma record_required {A B} `{AggregateOk B} kind id (k : B -> op J A) :
  records_ok B h ->
  (forall b, wr_id b = id -> ag_fit b -> record_trace id (stream_entries (record_stream B id) h) b ->
     one_action (k b j)) ->
  one_action ((b <~ require_record (fun id => Work.record (record_stream B id) ag_created) kind id;; k b) j).
Proof.
  intros Hr Hk. unfold require_record, op_bind, op_lift.
  destruct (current_cases (A:=B) j h Hh Hmax id Hr) as [(_ & -> & _)|(b & Ht & Hid & Hf & _ & ->)]; [by left|].
  by apply Hk.
Qed.
Lemma lifted {A B} (r : result StoreError B) (k : B -> op J A) :
  (forall b, r = Ok b -> one_action (k b j)) -> one_action ((b <~ op_lift r;; k b) j).
Proof. intros Hk. rewrite op_bind_lift. destruct r as [b|e]; [by apply Hk|by left]. Qed.
Lemma acts {A} (a : WorkAction) (x : result StoreError A * J) :
  work_fit a -> work_events a = [] -> (work_size a <= 2)%N -> x.2 = run_work inputs a j -> one_action x.
Proof.
  intros Hf He Hs Hx. right. exists (OnWork a).
  refine (conj (conj Hf _) (conj Hs Hx)). rewrite He. apply staged_nil.
Qed.
Lemma task_required {A} kind id (k : TaskRecord -> op J A) :
  (forall a, one_action (k a j)) -> one_action ((a <~ require_record get_task kind id;; k a) j).
Proof.
  intros Hk. refine (record_required (B:=TaskRecord) kind id k (proj1 (work_part Hok)) _).
  intros a _ Hf _. apply Hk.
Qed.
Lemma decision_required {A} kind id (k : KeyDecision -> op J A) :
  (forall a, one_action (k a j)) -> one_action ((a <~ require_record get_decision kind id;; k a) j).
Proof.
  intros Hk. refine (record_required (B:=KeyDecision) kind id k (proj1 (proj2 (work_part Hok))) _).
  intros a _ Hf _. apply Hk.
Qed.
Lemma plan_read_required {A} kind id (k : PlanRecord -> op J A) :
  (forall a, plan_fit a -> one_action (k a j)) -> one_action ((a <~ require_record get_plan kind id;; k a) j).
Proof.
  intros Hk. refine (record_required (B:=PlanRecord) kind id k (proj1 (proj2 (proj2 (work_part Hok)))) _).
  intros a _ Hf _. by apply Hk.
Qed.
Lemma goal_required {A} kind id (k : GoalRecord -> op J A) :
  (forall a, goal_fit a -> one_action (k a j)) -> one_action ((a <~ require_record get_goal kind id;; k a) j).
Proof.
  intros Hk. refine (record_required (B:=GoalRecord) kind id k (proj1 (proj2 (proj2 (proj2 (work_part Hok))))) _).
  intros a _ Hf _. by apply Hk.
Qed.
Lemma job_required {A} kind id (k : SubagentJob -> op J A) :
  (forall a, one_action (k a j)) -> one_action ((a <~ require_record get_subagent kind id;; k a) j).
Proof.
  intros Hk. refine (record_required (B:=SubagentJob) kind id k (proj2 (proj2 (proj2 (proj2 (work_part Hok))))) _).
  intros a _ Hf _. apply Hk.
Qed.
Lemma plan_required {A} id revision allowed refusal (k : PlanRecord -> op J A) :
  (forall p, plan_fit p -> one_action (k p j)) ->
  one_action ((p <~ plan_at_revision id revision allowed refusal;; k p) j).
Proof.
  intros Hk. unfold plan_at_revision. rewrite op_bind_assoc. apply plan_read_required. intros p Hf.
  rewrite op_bind_assoc. apply lifted. intros _ _. rewrite op_bind_assoc. apply lifted. intros _ _.
  exact (Hk p Hf).
Qed.

(** ** The operations on one record *)

Lemma task_created task actor : one_action (create_task inputs task actor j).
Proof. apply (acts (CreateTask task actor)); [exact I|reflexivity|done|reflexivity]. Qed.
Lemma task_updated task actor : one_action (update_task inputs task actor j).
Proof. apply (acts (UpdateTask task actor)); [exact I|reflexivity|done|reflexivity]. Qed.
Lemma decision_created d actor : one_action (create_decision inputs d actor j).
Proof. apply (acts (CreateDecision d actor)); [exact I|reflexivity|done|reflexivity]. Qed.
Lemma decision_updated d actor : one_action (update_decision inputs d actor j).
Proof. apply (acts (UpdateDecision d actor)); [exact I|reflexivity|done|reflexivity]. Qed.
Lemma decision_archived now id actor : one_action (archive_decision inputs now id actor j).
Proof. apply (acts (ArchiveDecision now id actor)); [exact I|reflexivity|done|reflexivity]. Qed.
Lemma decision_superseded now id d actor : one_action (supersede_decision inputs now id d actor j).
Proof. apply (acts (SupersedeDecision now id d actor)); [exact I|reflexivity|done|reflexivity]. Qed.
Lemma plan_created p actor : plan_fit p -> one_action (create_plan inputs p actor j).
Proof. intros Hf. apply (acts (CreatePlan p actor)); [exact Hf|reflexivity|done|reflexivity]. Qed.
Lemma plan_updated p actor : plan_fit p -> one_action (update_plan inputs p actor j).
Proof. intros Hf. apply (acts (UpdatePlan p actor)); [exact Hf|reflexivity|done|reflexivity]. Qed.
Lemma goal_created g actor : goal_fit g -> one_action (create_goal inputs g actor j).
Proof. intros Hf. apply (acts (CreateGoal g actor)); [exact Hf|reflexivity|done|reflexivity]. Qed.
Lemma goal_planned g p actor : goal_fit g /\ plan_fit p -> one_action (create_goal_from_plan inputs g p actor j).
Proof. intros Hf. apply (acts (CreateGoalFromPlan g p actor)); [exact Hf|reflexivity|done|reflexivity]. Qed.
Lemma goal_updated g actor : goal_fit g -> one_action (update_goal inputs g actor j).
Proof. intros Hf. apply (acts (UpdateGoal g actor)); [exact Hf|reflexivity|done|reflexivity]. Qed.
Lemma goal_iterated g n actor : goal_fit g -> one_action (record_goal_iteration inputs g n actor j).
Proof. intros Hf. apply (acts (RecordGoalIteration g n actor)); [exact Hf|reflexivity|done|reflexivity]. Qed.

(** The reads and checks before a write, and the write. *)
Ltac service_tac :=
  repeat first
    [ apply task_created | apply task_updated | apply decision_created | apply decision_updated
    | apply decision_archived | apply decision_superseded
    | apply plan_created | apply plan_updated | apply goal_created | apply goal_planned
    | apply goal_updated | apply goal_iterated
    | apply session_required
    | apply plan_required; intros ?p ?Hp
    | apply task_required; intros ?t
    | apply decision_required; intros ?d
    | apply plan_read_required; intros ?p ?Hp
    | apply goal_required; intros ?g ?Hg
    | apply lifted; intros ? _ ];
  unfold plan_fit, goal_fit, steps_fit, u16_limit in *; cbn; try done.

Lemma execute_action fresh id r run actor :
  one_action (execute_plan_at_revision inputs fresh id r run actor j).
Proof. unfold execute_plan_at_revision. service_tac. Qed.
Lemma approve_action fresh id r actor : one_action (approve_plan_at_revision inputs fresh id r actor j).
Proof. unfold approve_plan_at_revision. service_tac. Qed.
Lemma discard_action fresh id r actor : one_action (discard_plan_at_revision inputs fresh id r actor j).
Proof. unfold discard_plan_at_revision. service_tac. Qed.
Lemma draft_action fresh id r content steps actor :
  steps_fit steps -> one_action (update_draft_plan inputs fresh id r content steps actor j).
Proof. intros Hs. unfold update_draft_plan. service_tac. by destruct Hp. Qed.
Lemma returned {A B} (m : op J A) (f : A -> B) : one_action (m j) -> one_action ((a <~ m;; op_ret (f a)) j).
Proof. unfold one_action. by rewrite op_bind_ret_snd. Qed.
Lemma goal_action fresh now session objective budget plan_id revision actor :
  (budget <= u16_limit)%N ->
  one_action (create_goal_with_plan_at_revision inputs fresh now session objective budget plan_id revision actor j).
Proof.
  intros Hb. unfold create_goal_with_plan_at_revision.
  apply session_required, lifted. intros _ _. apply lifted. intros t _. destruct plan_id as [id|].
  - apply plan_read_required. intros p Hp. do 2 (apply lifted; intros _ _). apply lifted. intros t' _.
    apply (returned (create_goal_from_plan inputs _ _ actor) (fun r => (r.1, Some r.2))), goal_planned.
    split; [split; [done|unfold u16_limit; simpl; lia]|exact Hp].
  - apply (returned (create_goal inputs _ actor) (fun g => (g, None))), goal_created.
    split; [done|unfold u16_limit; simpl; lia].
Qed.
Lemma source_revision_reads id : (source_revision (J:=J) id j).2 = j.
Proof.
  unfold source_revision. destruct id as [id|]; [|done]. rewrite op_bind_ret_snd.
  destruct (current_cases (A:=PlanRecord) j h Hh Hmax id (proj1 (proj2 (proj2 (work_part Hok)))))
    as [(_ & Hc & _)|(a & _ & _ & _ & _ & Hc)]; unfold require_record;
    rewrite (op_bind_run _ _ _ _ _ Hc); done.
Qed.
Lemma create_goal_action fresh now session objective budget plan_id revision actor :
  (budget <= u16_limit)%N ->
  one_action (create_goal_at_plan_revision inputs fresh now session objective budget plan_id revision actor j).
Proof. intros Hb. by apply (returned _ fst), goal_action. Qed.
Lemma service_goal_action fresh now session objective budget plan_id actor :
  (budget <= u16_limit)%N ->
  one_action (service_create_goal inputs fresh now session objective budget plan_id actor j).
Proof.
  intros Hb. unfold service_create_goal. pose proof (source_revision_reads plan_id) as Hr.
  unfold op_bind. destruct (source_revision plan_id j) as [[r|e] j']; simpl in Hr; rewrite Hr; [|by left].
  by apply create_goal_action.
Qed.
Lemma iteration_action fresh id actor : one_action (service_record_goal_iteration inputs fresh id actor j).
Proof.
  unfold service_record_goal_iteration. service_tac. destruct Hg as [Hb Hi]. split; [done|].
  unfold u16_saturating_add. lia.
Qed.

Lemma new_task_action fresh session title description status actor :
  one_action (service_create_task inputs fresh session title description status actor j).
Proof. unfold service_create_task. service_tac. Qed.
Lemma revised_task_action fresh id title description status actor :
  one_action (service_update_task inputs fresh id title description status actor j).
Proof. unfold service_update_task. service_tac. Qed.
Lemma new_decision_action fresh session c goal plan supersedes actor :
  one_action (service_create_decision inputs fresh session c goal plan supersedes actor j).
Proof. unfold service_create_decision. service_tac. Qed.
Lemma revised_decision_action fresh id title text priority intent applies rationale excerpt actor :
  one_action (service_update_decision inputs fresh id title text priority intent applies rationale excerpt actor j).
Proof. unfold service_update_decision. service_tac. Qed.
Lemma replaced_decision_action fresh now id c actor :
  one_action (service_supersede_decision inputs fresh now id c actor j).
Proof. unfold service_supersede_decision. service_tac. Qed.
Lemma new_plan_action fresh session prompt content steps actor :
  steps_fit steps -> one_action (service_create_plan inputs fresh session prompt content steps actor j).
Proof. intros Hs. unfold service_create_plan. service_tac. Qed.
Lemma approve_current_action fresh id actor : one_action (approve_plan inputs fresh id actor j).
Proof. apply plan_read_required. intros p _. apply approve_action. Qed.
Lemma execute_current_action fresh id run actor : one_action (execute_plan inputs fresh id run actor j).
Proof. apply plan_read_required. intros p _. apply execute_action. Qed.
Lemma discard_current_action fresh id actor : one_action (discard_plan inputs fresh id actor j).
Proof. apply plan_read_required. intros p _. apply discard_action. Qed.
Lemma goal_status_action fresh id status summary blocked actor :
  one_action (update_goal_status inputs fresh id status summary blocked actor j).
Proof. unfold update_goal_status. service_tac. Qed.

End One.

(** A run of the joint system, and what it keeps. *)
#[local] Abbreviation joint_moves := (moves joint_batch joint_ok).
Lemma joint_keeps inputs (h g : history) batch es :
  chain h.*1 -> (count h < u64_max)%N -> joint_batch h batch -> joint_ok (h ++ g) ->
  batch_committed (h ++ g) inputs batch es -> joint_ok ((h ++ g) ++ entries batch es).
Proof. apply joint_batch_ok. Qed.
Lemma joint_action_moves j h inputs a :
  holds j h -> joint_ok h -> inputs_ok inputs -> joint_fit h a -> (count h + joint_size a + 1 < u64_max)%N ->
  joint_moves (joint_size a) j h (run_joint inputs a j).
Proof.
  intros Hh Hok Hi Hf Hle. apply (moves_one _ _ joint_keeps inputs); try done. by apply joint_action_batch.
Qed.
(** An action that is one operation. *)
Lemma one_action_moves {A} j h inputs (x : result StoreError A * J) :
  holds j h -> joint_ok h -> inputs_ok inputs -> (count h + 3 < u64_max)%N -> one_action j h inputs x ->
  joint_moves 2 j h x.2.
Proof.
  intros Hh Hok Hi Hle [->|(a & Hf & Hs & ->)]; [by apply moves_private|].
  eapply moves_mono; [|exact Hs]. apply joint_action_moves; try done. lia.
Qed.

(** ** Transitions of child-agent jobs *)

Section Attempts.
Context (inputs : nat -> Inputs) (Hin : forall n, inputs_ok (inputs n)) (Hcom : communication_ok).
Context (events : op J (list NewEvent)) (write : nat -> list NewEvent -> op J SubagentJob)
  (contended : string) (action : list NewEvent -> WorkAction).
Context (Hstage : forall j h, holds j h -> joint_ok h -> (count h + 1 < u64_max)%N -> staged_ok h (events j))
  (Hwrite : forall n staged j, (write n staged j).2 = run_work (inputs n) (action staged) j)
  (Hfit : forall staged, own_work_events staged -> work_fit (action staged))
  (Hev : forall staged, work_events (action staged) = staged)
  (Hsize : forall staged, work_size (action staged) = (count staged + 1)%N).

Lemma notified_moves job j h :
  holds j h -> joint_ok h -> (count h + 1 < u64_max)%N ->
  joint_moves 0 j h (notify_committed communication job j).
Proof.
  intros Hh Hok Hle. apply moves_private; [done|done|]. unfold notify_committed.
  destruct communication as [c|] eqn:Hc; [|done]. by apply (Hcom c j h Hc).
Qed.
Lemma staged_action h staged :
  Forall recordable staged -> staged_for h staged -> joint_fit h (OnWork (action staged)).
Proof.
  intros Hr Hs. split; [apply Hfit; split; [done|]|by rewrite Hev]. destruct Hs as [Hn _].
  eapply Forall_impl; [exact Hn|]. by intros ev [].
Qed.
(** However many attempts fail, each is an operation of the system. *)
Lemma attempts_move attempts : forall n j h,
  holds j h -> joint_ok h -> (count h + N.of_nat attempts * (MAX_STAGED + 1) + 1 < u64_max)%N ->
  joint_moves (N.of_nat attempts * (MAX_STAGED + 1)) j h
    (commit_attempts communication attempts n events write contended j).2.
Proof.
  induction attempts as [|attempts IH]; intros n j h Hh Hok Hle; [by apply moves_private|].
  cbn [commit_attempts]. destruct (Hstage j h Hh Hok ltac:(lia)) as [Hj Hs].
  apply moves_after; [done..|]. intros staged Hst. destruct (Hs staged Hst) as (Hr & Hn & Hc).
  set (j0 := (events j).2) in *. set (a := OnWork (action staged)).
  assert (joint_size a = count staged + 1)%N as Hsz by apply Hsize.
  pose proof (joint_action_moves j0 h (inputs n) a Hj Hok (Hin n) (staged_action h staged Hr Hn) ltac:(lia)) as Hmv.
  change (run_joint (inputs n) a j0) with (run_work (inputs n) (action staged) j0) in Hmv.
  rewrite <- Hwrite in Hmv.
  eapply (moves_mono _ _ ((MAX_STAGED + 1) + N.of_nat attempts * (MAX_STAGED + 1))); [|lia].
  eapply (moves_mono _ _ _ (MAX_STAGED + 1)) in Hmv; [|lia].
  destruct (write n staged j0) as [[job|e] j'] eqn:Hw; cbn [snd] in *.
  - eapply moves_trans; [exact Hmv|]. intros g Hg Hgok Hgle.
    eapply moves_mono; [apply notified_moves; try done|lia]. rewrite count_app. lia.
  - destruct (is_conflict e); [|by eapply moves_mono; [exact Hmv|lia]].
    eapply moves_trans; [exact Hmv|]. intros g Hg Hgok Hgle. apply IH; try done. rewrite count_app. lia.
Qed.
End Attempts.

Section Jobs.
Context (inputs : nat -> Inputs) (Hin : forall n, inputs_ok (inputs n)) (Hcom : communication_ok).
(** Room for the eight attempts, and a session. *)
Definition SERVICE_SIZE : N := 8 * (MAX_STAGED + 1) + 3.

Lemma nothing_staged j h : holds j h -> staged_ok h (op_ret [] j).
Proof. intros Hh. split; [done|]. intros events [= <-]. split_and!; [apply Forall_nil_2|apply staged_nil|done]. Qed.
Lemma registered_events_ok job j h :
  holds j h -> joint_ok h -> (count h + 1 < u64_max)%N ->
  staged_ok h ((match communication with Some c => cc_register_child c job | None => op_ret [] end) j).
Proof.
  intros Hh Hok Hle. destruct communication as [c|] eqn:Hc; [|by apply nothing_staged]. by apply (Hcom c j h Hc).
Qed.
Lemma staged_events_ok job j h :
  holds j h -> joint_ok h -> (count h + 1 < u64_max)%N -> staged_ok h (staged_events communication job j).
Proof.
  intros Hh Hok Hle. unfold staged_events. destruct communication as [c|] eqn:Hc; [|by apply nothing_staged].
  destruct (Hcom c j h Hc Hh Hok Hle) as (Hreg & Hclose & _).
  destruct (sj_status job); first [apply Hreg|apply Hclose|by apply nothing_staged].
Qed.

Context (j : J) (h : history) (Hh : holds j h) (Hok : joint_ok h).
Context (Hle : (count h + SERVICE_SIZE < u64_max)%N).
Lemma service_room : (count h + 1 < u64_max)%N.
Proof. unfold SERVICE_SIZE in Hle. lia. Qed.

Lemma commit_subagent_moves job actor :
  joint_moves SERVICE_SIZE j h (commit_subagent communication inputs job actor j).2.
Proof.
  unfold SERVICE_SIZE in *. eapply moves_mono; [|apply N.le_add_r].
  apply (attempts_move inputs Hin Hcom _ _ _ (UpdateSubagent job actor)); try done; [|unfold MAX_STAGED in *; lia].
  intros j' h' Hh' Hok' Hle'. by apply staged_events_ok.
Qed.
Lemma require_subagent_reads id : (require_subagent id j).2 = j.
Proof.
  destruct (current_cases (A:=SubagentJob) j h Hh service_room id (proj2 (proj2 (proj2 (proj2 (work_part Hok))))))
    as [(_ & Hc & _)|(a & _ & _ & _ & _ & Hc)]; unfold require_subagent, require_record;
    by rewrite (op_bind_run _ _ _ _ _ Hc).
Qed.
Lemma require_session_reads id : (require_session id j).2 = j.
Proof.
  pose proof (get_session_reads id j h Hh service_room (proj1 Hok)) as Hr. unfold require_session, op_bind.
  by destruct (get_session id j) as [[[s|]|e] j']; cbn in Hr |- *.
Qed.
Lemma lifted_moves {A B} size j' h' (r : result StoreError A) (k : A -> op J B) :
  holds j' h' -> joint_ok h' -> (forall a, joint_moves size j' h' (k a j').2) ->
  joint_moves size j' h' (op_bind (op_lift r) k j').2.
Proof. intros Hh' Hok' Hk. by apply moves_after. Qed.

Lemma transition_moves fresh id (allowed : SubagentJob -> bool) refusal (next : SubagentJob -> string -> SubagentJob) actor :
  joint_moves SERVICE_SIZE j h ((job <~ require_subagent id;;
    _ <~ op_lift (reject (allowed job) refusal);;
    timestamp <~ op_lift (fr_now fresh);;
    commit_subagent communication inputs (next job timestamp) actor) j).2.
Proof.
  apply moves_after; [done|done|by rewrite require_subagent_reads|]. intros job _.
  rewrite require_subagent_reads. apply lifted_moves; [done..|]. intros _.
  apply lifted_moves; [done..|]. intros t. apply commit_subagent_moves.
Qed.

Lemma create_subagent_moves fresh child request actor :
  joint_moves SERVICE_SIZE j h (service_create_subagent communication inputs fresh child request actor j).2.
Proof.
  unfold service_create_subagent.
  apply moves_after; [done|done|by rewrite require_session_reads|]. intros _ _. rewrite require_session_reads.
  destruct (is_none_or (rq_instruction_snapshot_id request) _) eqn:Hs; [|by apply moves_private].
  apply lifted_moves; [done..|]. intros _. cbv zeta. unfold SERVICE_SIZE in *.
  set (title := Some _). set (a := OnSession (DoCreate child title actor)).
  assert (joint_fit h a) as Hf by (split; [done|apply staged_nil]).
  pose proof (joint_action_moves j h (inputs 0) a Hh Hok (Hin 0) Hf ltac:(cbn; lia)) as Hmv.
  eapply (moves_mono _ _ (1 + 8 * (MAX_STAGED + 1))); [|lia]. apply moves_bind; [exact Hmv|].
  intros s g _ Hg Hgok Hgle. apply lifted_moves; [done..|]. intros t. set (job := mkSubagentJob _ _ _ _ _ _ _ _ _ _ _ _ _ _ _ _).
  change 8%N with (N.of_nat 8).
  apply (attempts_move inputs Hin Hcom _ _ _ (CreateSubagent job (rq_instruction_snapshot_id request) actor)); try done.
  - intros j' h' Hh' Hok' Hle'. by apply registered_events_ok.
  - rewrite count_app. change (N.of_nat 8) with 8%N. lia.
Qed.
End Jobs.

(** ** Commands on a child-agent job *)

(** The commands, the jobs each accepts and what it makes of one. *)
Inductive JobCommand :=
| StartJob
| CompleteJob (child_run_id output : string)
| StopJob (status : SubagentStatus) (error : string)
| RequeueJob.
Definition job_accepts (c : JobCommand) (job : SubagentJob) : Prop :=
  match c with
  | StartJob => sj_status job = SJ_Queued
  | CompleteJob _ _ => sj_status job = SJ_Running
  | StopJob SJ_Cancelled _ => sj_status job = SJ_Queued \/ sj_status job = SJ_Running
  | StopJob (SJ_Failed | SJ_Interrupted) _ => sj_status job = SJ_Running
  | StopJob _ _ => False
  | RequeueJob => sj_status job = SJ_Failed \/ sj_status job = SJ_Cancelled \/ sj_status job = SJ_Interrupted
  end.
(** Status, run, output, error, start and completion at the time [t]; the rest stays. *)
Definition job_result (c : JobCommand) (t : string) (job : SubagentJob) : SubagentJob :=
  let next status run output error started completed :=
    mkSubagentJob (sj_id job) (sj_session_id job) (sj_parent_run_id job) (sj_parent_call_id job)
      (sj_task job) (sj_role job) (sj_allowed_tools job) status (sj_child_session_id job) run output
      error (sj_created_at job) t started completed in
  match c with
  | StartJob => next SJ_Running (sj_child_run_id job) (sj_final_output job) (sj_error job) (Some t) (sj_completed_at job)
  | CompleteJob run output => next SJ_Completed (Some run) output "" (sj_started_at job) (Some t)
  | StopJob status error =>
      next status (sj_child_run_id job) (sj_final_output job) error (sj_started_at job) (Some t)
  | RequeueJob => next SJ_Queued None "" "" None None
  end.

Section Commands.
Context (inputs : nat -> Inputs) (Hin : forall n, inputs_ok (inputs n)) (Hcom : communication_ok).

Definition run_job_command (fresh : Minted) (id : string) (c : JobCommand) (actor : Actor) : op J SubagentJob :=
  match c with
  | StartJob => start_subagent communication inputs fresh id actor
  | CompleteJob run output => complete_subagent communication inputs fresh id run output actor
  | StopJob status error => stop_subagent communication inputs fresh id status error actor
  | RequeueJob => requeue_subagent communication inputs fresh id actor
  end.

(** What the port stages with a job that enters its status: a queued job is registered, a
    stopped or completed one has its inbox closed for that reason. *)
Definition job_events (job : SubagentJob) : op J (list NewEvent) :=
  match communication with
  | None => op_ret []
  | Some c =>
      match sj_status job with
      | SJ_Queued => cc_register_child c job
      | SJ_Running => op_ret []
      | SJ_Completed => cc_close_child c job MF_Completed
      | SJ_Failed => cc_close_child c job MF_Failed
      | SJ_Cancelled => cc_close_child c job MF_Cancelled
      | SJ_Interrupted => cc_close_child c job MF_Interrupted
      end
  end.
(** The attempts before [n] staged, and ended in a version conflict each. *)
Inductive conflicted (job : SubagentJob) (actor : Actor) (j : J) : nat -> J -> Prop :=
| conflicted_none : conflicted job actor j 0 j
| conflicted_more n jn staged j1 e j2 :
    conflicted job actor j n jn -> job_events job jn = (Ok staged, j1) ->
    update_subagent_with_events (inputs n) job actor staged j1 = (Err e, j2) -> is_conflict e = true ->
    conflicted job actor j (S n) j2.

(** The attempt that is not tried again: staging failed, the write failed for something
    else than a version conflict, or the batch was committed and the port notified. *)
Inductive settles (job : SubagentJob) (actor : Actor) (n : nat) (jn : J) : result StoreError SubagentJob * J -> Prop :=
| settles_unstaged e j1 : job_events job jn = (Err e, j1) -> settles job actor n jn (Err e, j1)
| settles_failed staged j1 e j2 :
    job_events job jn = (Ok staged, j1) ->
    update_subagent_with_events (inputs n) job actor staged j1 = (Err e, j2) -> is_conflict e = false ->
    settles job actor n jn (Err e, j2)
| settles_done staged j1 out j2 :
    job_events job jn = (Ok staged, j1) ->
    update_subagent_with_events (inputs n) job actor staged j1 = (Ok out, j2) ->
    settles job actor n jn (Ok out, notify_committed communication out j2).

Lemma staged_is_job_events job : staged_events communication job = job_events job.
Proof. unfold staged_events, job_events. destruct communication; [|done]. by destruct (sj_status job). Qed.
Lemma attempts_run job actor text attempts : forall n j jn, conflicted job actor j n jn ->
  let x := commit_attempts communication attempts n (staged_events communication job)
    (fun n events => update_subagent_with_events (inputs n) job actor events) text jn in
  (exists m jm, m < n + attempts /\ conflicted job actor j m jm /\ settles job actor m jm x) \/
  exists jm, conflicted job actor j (n + attempts) jm /\ x = (Err (StoreAdapter text), jm).
Proof.
  induction attempts as [|attempts IH]; intros n j jn Hc x.
  { right. exists jn. by rewrite Nat.add_0_r. }
  unfold x. cbn [commit_attempts]. rewrite staged_is_job_events. unfold op_bind.
  destruct (job_events job jn) as [[staged|e] j1] eqn:Hs.
  2: { left. exists n, jn. split_and!; [lia|done|by apply settles_unstaged]. }
  destruct (update_subagent_with_events (inputs n) job actor staged j1) as [[out|e] j2] eqn:Hu.
  { left. exists n, jn. split_and!; [lia|done|by eapply settles_done]. }
  destruct (is_conflict e) eqn:He.
  2: { left. exists n, jn. split_and!; [lia|done|by eapply settles_failed]. }
  pose proof (conflicted_more job actor j n jn staged j1 e j2 Hc Hs Hu He) as Hc2.
  specialize (IH (S n) j j2 Hc2). replace (n + S attempts) with (S n + attempts) by lia.
  by rewrite staged_is_job_events in IH.
Qed.

(** *** In the journal *)

Lemma job_events_ok job j h :
  holds j h -> joint_ok h -> (count h + 1 < u64_max)%N -> staged_ok h (job_events job j).
Proof. rewrite <- staged_is_job_events. by apply staged_events_ok. Qed.
Lemma update_moves job actor staged n j h :
  holds j h -> joint_ok h -> (count h + MAX_STAGED + 2 < u64_max)%N ->
  Forall recordable staged -> staged_for h staged -> (count staged <= MAX_STAGED)%N ->
  joint_moves (MAX_STAGED + 1) j h (update_subagent_with_events (inputs n) job actor staged j).2.
Proof.
  intros Hh Hok Hle Hr Hs Hn. set (a := OnWork (UpdateSubagent job actor staged)).
  assert (joint_fit h a) as Hf.
  { split; [|done]. split; [done|]. destruct Hs as [Hs _]. eapply Forall_impl; [exact Hs|]. by intros ev []. }
  eapply moves_mono; [apply (joint_action_moves j h (inputs n) a Hh Hok (Hin n) Hf)|]; cbn in *; lia.
Qed.
Lemma conflicted_holds job actor j h n jn :
  holds j h -> joint_ok h -> conflicted job actor j n jn ->
  (count h + N.of_nat n * (MAX_STAGED + 1) + 1 < u64_max)%N ->
  exists g, holds jn (h ++ g) /\ joint_ok (h ++ g) /\ (count g <= N.of_nat n * (MAX_STAGED + 1))%N.
Proof.
  intros Hh Hok Hc. induction Hc as [|n jn staged j1 e j2 _ IH Hs Hu He]; intros Hle.
  { exists []. rewrite app_nil_r. split_and!; [done..|unfold count; simpl; lia]. }
  destruct IH as (g & Hg & Hgok & Hgle); [unfold MAX_STAGED in *; lia|].
  assert (count (h ++ g)%list = count h + count g)%N as Hcount by apply count_app.
  destruct (job_events_ok job jn (h ++ g) Hg Hgok ltac:(unfold MAX_STAGED in *; lia)) as [Hj1 Hst].
  rewrite Hs in Hj1, Hst. cbn [fst snd] in *. destruct (Hst staged eq_refl) as (Hr & Hsf & Hn).
  destruct (update_moves job actor staged n j1 (h ++ g) Hj1 Hgok ltac:(unfold MAX_STAGED in *; lia) Hr Hsf Hn)
    as [_ (g' & Hg' & Hgok' & Hgle')].
  rewrite Hu in Hg'. exists (g ++ g')%list. rewrite app_assoc. split_and!; [done..|].
  rewrite count_app. lia.
Qed.
(** The batch of the attempt that succeeds. *)
Lemma attempt_committed job actor n j1 h staged out j2 :
  holds j1 h -> joint_ok h -> (count h + MAX_STAGED + 2 < u64_max)%N ->
  Forall recordable staged -> staged_for h staged -> (count staged <= MAX_STAGED)%N ->
  update_subagent_with_events (inputs n) job actor staged j1 = (Ok out, j2) ->
  out = job /\ exists event es, record_write h event (sj_id job) job /\
    batch_committed h (inputs n) (staged ++ [event]) es /\
    holds j2 (h ++ entries (staged ++ [event]) es) /\ joint_ok (h ++ entries (staged ++ [event]) es) /\
    (count (h ++ entries (staged ++ [event]) es)%list <= count h + MAX_STAGED + 1)%N /\
    record_trace (sj_id job) (stream_entries (subagent_stream (sj_id job)) (h ++ entries (staged ++ [event]) es)) job.
Proof.
  intros Hh Hok Hle Hr Hs Hn Hu.
  destruct (update_moves job actor staged n j1 h Hh Hok Hle Hr Hs Hn) as [_ (g & Hg & Hgok & Hgle)].
  rewrite Hu in Hg. cbn [snd] in Hg.
  destruct (update_subagent_cases j1 h Hh (work_part Hok) (inputs n) ltac:(lia) job actor staged)
    as [[e He]|(current & Ht & Hstep & event & Hw & Hev & Hc)]; [congruence|].
  rewrite Hu in Hc. unfold commits in Hc.
  pose proof (ej_append_batch_ok j1 h (inputs n) (staged ++ [event]) Hh
    ltac:(apply Forall_app; split; [done|by apply Forall_singleton]) (Hin n)
    ltac:(rewrite count_app; change (count [event]) with 1%N; lia)) as Ha.
  destruct (ej_append_batch (inputs n) (staged ++ [event]) j1) as [[es|e] j']; [|done].
  injection Hc as -> ->. destruct Ha as [Hb Hh']. split; [done|]. exists event, es.
  pose proof (holds_unique _ _ _ Hg Hh') as Heq%app_inv_head. subst g.
  split_and!; [done|done|done|done|rewrite count_app; lia|].
  rewrite <- (app_nil_r h) in Hb.
  pose proof (record_write_ok (inputs n) h [] staged event [] es (sj_id job) job Hb) as Htr.
  rewrite app_nil_r in Htr. apply Htr; [|by apply Forall_nil_2|done].
  destruct Hs as [Hs _]. eapply Forall_impl; [exact Hs|]. intros ev [_ (_ & _ & _ & _ & Hoff)].
  by apply (off_records_stream (A:=SubagentJob)).
Qed.

(** *** The reads and checks before the attempts *)

Definition job_acceptable (c : JobCommand) (job : SubagentJob) : bool :=
  match c with
  | StartJob => bool_decide (sj_status job = SJ_Queued)
  | CompleteJob _ _ => bool_decide (sj_status job = SJ_Running)
  | StopJob status _ => stop_allowed (sj_status job) status
  | RequeueJob => bool_decide (sj_status job = SJ_Failed) || bool_decide (sj_status job = SJ_Cancelled)
                  || bool_decide (sj_status job = SJ_Interrupted)
  end.
Lemma job_acceptable_iff c job : job_acceptable c job = true <-> job_accepts c job.
Proof.
  destruct c as [|run output|status error|]; cbn; rewrite ?orb_true_iff, ?bool_decide_eq_true; try tauto.
  unfold stop_allowed. destruct status; rewrite ?orb_true_iff, ?bool_decide_eq_true; done.
Qed.
Lemma job_command_run fresh id c actor j :
  run_job_command fresh id c actor j =
    match get_subagent id j with
    | (Ok (Some job), j') =>
        if job_acceptable c job then
          match fr_now fresh with
          | Ok t => commit_subagent communication inputs (job_result c t job) actor j'
          | Err e => (Err e, j')
          end
        else (run_job_command fresh id c actor j)
    | _ => run_job_command fresh id c actor j
    end.
Proof.
  destruct (get_subagent id j) as [[[job|]|e] j'] eqn:Hg; [|done..].
  destruct (job_acceptable c job) eqn:Ha; [|done].
  destruct c; cbn [run_job_command job_acceptable] in *;
    unfold start_subagent, complete_subagent, stop_subagent, requeue_subagent, require_subagent, require_record,
      op_bind, op_lift, op_ret; rewrite Hg; cbn [ok_or]; rewrite Ha; cbn [negb reject]; by destruct (fr_now fresh).
Qed.
Lemma job_command_refused fresh id c actor j :
  get_subagent id j = (Ok None, j) \/
  (exists job, get_subagent id j = (Ok (Some job), j) /\
     (job_acceptable c job = false \/ exists e, fr_now fresh = Err e)) ->
  exists e, run_job_command fresh id c actor j = (Err e, j).
Proof.
  intros [Hg|(job & Hg & Hr)].
  - destruct c; cbn [run_job_command];
      unfold start_subagent, complete_subagent, stop_subagent, requeue_subagent, require_subagent, require_record,
        op_bind, op_lift, op_ret; rewrite Hg; by eexists.
  - destruct (job_acceptable c job) eqn:Ha.
    + destruct Hr as [|[e He]]; [done|]. exists e. by rewrite job_command_run, Hg, Ha, He.
    + destruct c; cbn [run_job_command job_acceptable] in *;
        unfold start_subagent, complete_subagent, stop_subagent, requeue_subagent, require_subagent, require_record,
          op_bind, op_lift, op_ret; rewrite Hg; cbn [ok_or]; rewrite Ha; by eexists.
Qed.
Lemma job_result_valid c t job : job_accepts c job ->
  subagent_update_valid job (job_result c t job) = true /\ sj_id (job_result c t job) = sj_id job.
Proof.
  intros Ha. split; [|by destruct c]. unfold subagent_update_valid.
  assert (subagent_transition_valid (sj_status job) (sj_status (job_result c t job)) = true) as ->.
  { destruct c as [| |status error|]; cbn in *; try (by rewrite Ha).
    - destruct status; try done; try (by rewrite Ha). by destruct Ha as [-> | ->].
    - by destruct Ha as [-> |[-> | ->]]. }
  destruct c; cbn; rewrite !String.eqb_refl, bool_decide_true by done; done.
Qed.
(** An update of the job that is recorded, by the checks' leave, is the append of its batch. *)
Lemma job_written id job next actor n j1 h staged :
  holds j1 h -> (count h + 1 < u64_max)%N ->
  record_trace id (stream_entries (subagent_stream id) h) job -> sj_id next = id ->
  subagent_update_valid job next = true -> validate_subagent next = Ok tt ->
  exists event, record_write h event id next /\
    commits j1 (inputs n) (staged ++ [event]) next (update_subagent_with_events (inputs n) next actor staged j1).
Proof.
  intros Hh Hle Ht Hid Hu Hv. unfold update_subagent_with_events. rewrite Hv, op_bind_lift, Hid.
  rewrite (op_bind_run _ _ _ _ _ (record_with_version_ok (A:=SubagentJob) j1 h Hh Hle id job Ht)).
  rewrite op_bind_lift. cbn [ok_or fst snd]. rewrite Hu, op_bind_lift. cbn [negb reject].
  assert (subagent_step SUBAGENT_UPDATED job next) as Hs.
  { unfold subagent_update_valid in Hu. passed Hu. split_and!; try done. unfold job_origin. congruence. }
  eexists (work_event _ _ SUBAGENT_UPDATED actor (sj_session_id next) _). split; [|apply batch_commits].
  exact (step_write h id job next SUBAGENT_UPDATED actor (sj_session_id next) (record_payload next)
    Ht eq_refl Hid I Hs).
Qed.

(** What a settled attempt that answers the job leaves. *)
Definition job_committed (id : string) (next : SubagentJob) (n : nat) (jn : J) (h : history) (j' : J) : Prop :=
  exists staged event es, (job_events next jn).1 = Ok staged /\ record_write h event id next /\
    batch_committed h (inputs n) (staged ++ [event]) es /\
    holds j' (h ++ entries (staged ++ [event]) es) /\ joint_ok (h ++ entries (staged ++ [event]) es) /\
    get_subagent id j' = (Ok (Some next), j').
Lemma settled_committed next actor n jn h x out :
  holds jn h -> joint_ok h -> (count h + MAX_STAGED + 2 < u64_max)%N ->
  settles next actor n jn x -> x.1 = Ok out ->
  out = next /\ job_committed (sj_id next) next n jn h x.2.
Proof.
  intros Hh Hok Hle Hs Ho. destruct Hs as [|? ? ? ? ? ? ?|staged j1 out' j2 Hst Hu]; [done..|].
  injection Ho as ->. destruct (job_events_ok next jn h Hh Hok ltac:(lia)) as [Hj1 Hf]. rewrite Hst in Hj1, Hf.
  destruct (Hf staged eq_refl) as (Hr & Hsf & Hn).
  destruct (attempt_committed next actor n j1 h staged out j2 Hj1 Hok ltac:(lia) Hr Hsf Hn Hu)
    as (-> & event & es & Hw & Hb & Hj2 & Hok2 & Hle2 & Ht).
  assert (holds (notify_committed communication next j2) (h ++ entries (staged ++ [event]) es)) as Hj'.
  { unfold notify_committed. destruct communication as [c|] eqn:Hc; [|done].
    apply (Hcom c j2 _ Hc Hj2 Hok2). lia. }
  split; [done|]. exists staged, event, es. split_and!; try done; [by rewrite Hst|].
  exact (record_ok (A:=SubagentJob) _ _ Hj' ltac:(lia) (sj_id next) next Ht).
Qed.

Lemma job_command_holds j h fresh id c actor :
  holds j h -> joint_ok h -> (count h + SERVICE_SIZE < u64_max)%N ->
  exists g, holds (run_job_command fresh id c actor j).2 (h ++ g) /\ joint_ok (h ++ g).
Proof.
  intros Hh Hok Hle. assert (joint_moves SERVICE_SIZE j h (run_job_command fresh id c actor j).2)
    as [_ (g & Hg & Hgok & _)]; [|by exists g].
  destruct c; cbn [run_job_command]; by eapply transition_moves.
Qed.

(** C14. A command on a child-agent job does exactly one thing.  It is refused without a
    trace, when there is no such job, the job is not in a status the command accepts, or
    the clock fails; or the job becomes exactly what the command makes of it, in the first
    of at most eight attempts that does not end in a version conflict, or in none.  Every
    attempt stages the events of the communication port anew, from the journal as the
    attempts before left it; the one that succeeds commits them with the job's event in one
    batch, after which the job is read as given and the port is notified; and on the journal
    as it was found an attempt is refused by nothing but the staging, an invalid result or
    the journal. *)
Theorem job_command_exact (j : J) (h : history) fresh id c actor :
  holds j h -> joint_ok h -> (count h + SERVICE_SIZE < u64_max)%N ->
  let x := run_job_command fresh id c actor j in
  let recorded := record_trace id (stream_entries (subagent_stream id) h) in
  (exists g, holds x.2 (h ++ g) /\ joint_ok (h ++ g)) /\
  (((exists e, x = (Err e, j)) /\
     forall job t, recorded job -> job_accepts c job -> fr_now fresh <> Ok t) \/
  exists job t, recorded job /\ job_accepts c job /\ fr_now fresh = Ok t /\
    let next := job_result c t job in
    ((exists jn, conflicted next actor j 8 jn /\
        x = (Err (StoreAdapter "child communication transition remained contended"), jn)) \/
     exists n jn g, n < 8 /\ conflicted next actor j n jn /\ settles next actor n jn x /\
       holds jn (h ++ g) /\ joint_ok (h ++ g) /\
       forall out, x.1 = Ok out -> out = next /\ job_committed id next n jn (h ++ g) x.2) /\
    forall staged j1, job_events next j = (Ok staged, j1) -> validate_subagent next = Ok tt ->
      exists event, record_write h event id next /\
        commits j1 (inputs 0) (staged ++ [event]) next (update_subagent_with_events (inputs 0) next actor staged j1)).
Proof.
  intros Hh Hok Hle x recorded. split; [exact (job_command_holds j h fresh id c actor Hh Hok Hle)|].
  unfold SERVICE_SIZE, MAX_STAGED in Hle.
  assert (count h + 1 < u64_max)%N as Hmax by lia.
  destruct (current_cases (A:=SubagentJob) j h Hh Hmax id ltac:(apply (work_part Hok)))
    as [(Hno & Hg & Hnil)|(job & Ht & Hid & _ & _ & Hg)].
  { left. split; [apply job_command_refused; by left|]. intros job t Ht. exfalso.
    pose proof (record_ok (A:=SubagentJob) j h Hh Hmax id job Ht) as Hr. rewrite Hg in Hr. done. }
  change (get_subagent id j = (Ok (Some job), j)) in Hg.
  assert (forall job', recorded job' -> job' = job) as Hone by (intros job' Hj; exact (trace_unique _ _ _ _ Hj Ht)).
  destruct (job_acceptable c job) eqn:Ha.
  2: { left. split; [apply job_command_refused; right; exists job; split; [done|by left]|].
       intros job' t ->%Hone Hacc%job_acceptable_iff. congruence. }
  destruct (fr_now fresh) as [t|e] eqn:Hn.
  2: { left. split; [apply job_command_refused; right; exists job; split; [done|right; by exists e]|done]. }
  right. exists job, t. pose proof (proj1 (job_acceptable_iff c job) Ha) as Hacc.
  destruct (job_result_valid c t job Hacc) as [Hu Hnid]. change (sj_id job = id) in Hid. rewrite Hid in Hnid.
  do 3 (split; [done|]). cbv zeta. split.
  - unfold x. rewrite job_command_run, Hg, Ha, Hn. unfold commit_subagent.
    destruct (attempts_run (job_result c t job) actor "child communication transition remained contended" 8 0 j j
      (conflicted_none _ _ _)) as [(m & jm & Hm & Hc & Hs)|(jm & Hc & Hx)]; [right|left; by exists jm].
    destruct (conflicted_holds _ _ _ _ _ _ Hh Hok Hc) as (g & Hjm & Hgok & Hgle); [unfold MAX_STAGED; lia|].
    exists m, jm, g. split_and!; [lia|done|done|done|done|]. intros out Hout. rewrite <- Hnid.
    eapply settled_committed; try done. rewrite count_app. unfold MAX_STAGED in *. lia.
  - intros staged j1 Hst Hv. eapply job_written; try done.
    destruct (job_events_ok (job_result c t job) j h Hh Hok Hmax) as [Hj1 _]. by rewrite Hst in Hj1.
Qed.
End Commands.

(** Every operation of the work service - the validation and re-reading
    before a write, the plan consumed with a goal, the child's session and the job's up to
    eight attempts with what the communication port stages - is a run of the joint system,
    so it keeps every session a conversation and every work item a run of its kind. *)
Lemma service_refines (j : J) (h : history) batches inputs fresh now actor a :
  holds j h -> joint_ok h -> (forall n, inputs_ok (inputs n)) -> communication_ok -> service_fit a ->
  (count h + SERVICE_SIZE < u64_max)%N ->
  (exists batches', rtc joint_step (j, batches) (run_service inputs fresh now actor a j, batches')) /\
  exists g, holds (run_service inputs fresh now actor a j) (h ++ g) /\ joint_ok (h ++ g).
Proof.
  intros Hh Hok Hin Hcom Hfit Hle.
  assert (joint_moves SERVICE_SIZE j h (run_service inputs fresh now actor a j)) as [Hr (g & Hg & Hgok & _)];
    [|split; [apply Hr|by exists g]].
  pose proof (service_room h Hle) as Hmax.
  assert (count h + 3 < u64_max)%N as Hroom by (unfold SERVICE_SIZE in Hle; lia).
  destruct a; cbn [run_service service_fit] in *;
    try (by eapply transition_moves); try (by eapply create_subagent_moves);
    (eapply (moves_mono _ _ 2); [eapply (one_action_moves j h (inputs 0)); try done|unfold SERVICE_SIZE; lia]);
    first [ by eapply new_task_action | by eapply revised_task_action | by eapply new_decision_action
          | by eapply revised_decision_action | by eapply decision_archived
          | by eapply replaced_decision_action | by eapply new_plan_action | by eapply draft_action
          | by eapply approve_current_action | by eapply approve_action | by eapply execute_current_action
          | by eapply execute_action | by eapply discard_current_action | by eapply discard_action
          | by eapply service_goal_action | by eapply create_goal_action | by eapply iteration_action
          | by eapply goal_status_action ].
Qed.
End Service.
