(* ===== verification/CommunicationPort.v ===== *)
(** * What the communication service stages

    The batches the service prepares, from reading the journal: each is one of
    [comm_write], storable, and of its own streams.  So the port it offers to the work
    service satisfies what the work service relies on. *)

From S2P Require Import Prelude Json Contracts Boundary Platform JournalStore Journal Store.
From S2P Require Import JournalModel JournalAppend ProjectionView StoreSpec StoreCorrect SessionContracts Session Interleaving Aggregates.
From S2P Require Import SessionModel SessionSafety WorkContracts Work WorkModel WorkService WorkSafety.
From S2P Require Import Communication CommunicationModel CommunicationStep CommunicationSettle CommunicationSafety CommunicationReads.
From S2P Require Import Composition WorkServiceCorrect.

Open Scope string_scope.
Open Scope op_scope.

(** ** Batches are storable, and the service's own *)

Section Batches.
Context `{Externals} `{CommunicationCodecsOk}.

(** An event the service may store. *)
Definition own_event (e : NewEvent) : Prop :=
  recordable e /\ on_comm (ne_stream_id e) = true /\ header_of e.
Lemma event_own {A} `{RecordOk A fit} stream version kind owner context (a : A) :
  on_comm stream = true -> fit a -> own_event (event stream version kind owner context a).
Proof.
  intros Hs Ha. split; [exact (stored_storable a Ha)|]. split; [exact Hs|]. split; [done|].
  cbn [event event_of ne_event_type]. apply starts_with_self.
Qed.
Lemma string_own stream version kind owner context id :
  on_comm stream = true -> own_event (event_of stream version kind owner context (Str id)).
Proof.
  intros Hs. split; [by split; [unfold parseable, MAX_PARSED_DEPTH; simpl; lia|]|]. split; [exact Hs|]. split; [done|].
  cbn [event_of ne_event_type]. apply starts_with_self.
Qed.
Context (σ : store) (Hwf : comm_wf σ) (Hmax : forall s, (count (σ s) < u64_max)%N).

Lemma receipts_own sc context r feed ms :
  Forall (fun m => message_fit (with_receipt r m)) ms ->
  Forall own_event (settle_events σ sc context r feed ms).
Proof.
  intros Hf. revert feed. induction Hf as [|m ms Hm _ IH]; intros feed; [apply Forall_nil_2|].
  cbn [settle_events receipt_events]. apply Forall_app. split; [|apply IH].
  repeat apply Forall_cons_2; try apply Forall_nil_2; apply event_own; auto with comm.
Qed.
Lemma comm_write_own batch : comm_write σ batch -> Forall own_event batch.
Proof.
  intros [run_id owner context session_id id origin created_at Hname
    |id s run_id owner context indexes Hs Ho Hi
    |pid parent sc job_id id session_id origin created_at owner context Hname Hp -> Hsc Hroot Hroom Hlast
    |id s sc m k fingerprint owner feed_version Hs Ho Hsc Hrec Hroot Hacc Hseq Htext Hsend Hfull Htok
    |id s s' sc r n ms context kind feed Hs Ho Hsc Hroot Hr Hrf Hn Hms Hto].
  - repeat apply Forall_cons_2; try apply Forall_nil_2; apply event_own; auto with comm;
      unfold scope_fit, participant_fit, index_fit, u64_max; cbn; split_and?; try lia; apply Forall_nil_2.
  - apply Forall_cons_2.
    + apply event_own; [auto with comm|]. exact (latest_fit _ _ (wf_participants σ Hwf id) Hs).
    + destruct Hi as [[-> _]|(i & Hid & Hf & ->)]; [apply Forall_nil_2|]. apply Forall_singleton, event_own; auto with comm.
  - pose proof (latest_fit _ _ (wf_scopes σ Hwf _) Hsc) as [Hsa Hsb]. pose proof (Hmax (job_stream job_id)) as Hj.
    repeat apply Forall_cons_2; try apply Forall_nil_2; apply event_own; auto with comm;
      unfold scope_fit, participant_fit, index_fit in *; cbn; split_and?; try (unfold u64_max in *; lia); apply Forall_nil_2.
  - subst id. edestruct (admit_fits σ (am_recipient_id m) s sc m) as (Hf & Hfs & Hfm); try done.
    unfold admission_events. repeat apply Forall_cons_2; try apply Forall_nil_2;
      first [apply string_own|apply event_own]; auto with comm; done.
  - edestruct (settle_fits σ id s s' sc n) as [Hf Hfs]; try done.
    apply Forall_app. split.
    + apply receipts_own, Forall_forall. intros m Hm.
      edestruct (settle_run σ id s s' sc r n ms context kind 0 0 0) as (_ & [Hfm _] & _); try done.
    + repeat apply Forall_cons_2; try apply Forall_nil_2; apply event_own; auto with comm.
Qed.
End Batches.

(** ** What is staged *)

Section Staging.
Context `{Externals} `{CommunicationCodecsOk} {J} `{EventJournalOk J}.
#[local] Abbreviation C := (CommunicationService J).
Context (h : history) (Hmax : (count h + 1 < u64_max)%N) (Hok : comm_ok h).
#[local] Abbreviation σ := (comm_store h).
#[local] Abbreviation wf := (proj1 Hok).
#[local] Abbreviation answers := (yields (J:=J) h).

(** The receipts of a whole inbox, and the two events that close it. *)
Definition MAX_RECEIPTS : N := 130.
Definition staged_write (events : list NewEvent) : Prop :=
  (events = [] \/ comm_write σ events) /\ (count events <= MAX_RECEIPTS)%N.

Lemma settle_events_length sc context r feed ms : length (settle_events σ sc context r feed ms) = 2 * length ms.
Proof. revert feed. induction ms as [|m ms IH]; intros feed; [done|]. simpl. rewrite IH. lia. Qed.
Lemma close_messages_yields sc context reason pending : forall feed,
  answers (close_messages sc context reason feed pending) (fun events => exists ms,
    Forall2 (fun i m => mess σ (pi_id i) = Some m) pending ms /\
    events = settle_events σ sc context (NotDelivered reason) feed ms).
Proof.
  induction pending as [|i pending IH]; intros feed; cbn [close_messages].
  { apply yields_ret. exists []. by split; [constructor|]. }
  eapply yields_bind; [by apply yields_message|]. intros r ->.
  eapply yields_bind; [apply yields_lift; intros a Ha; exact Ha|]. intros [m v] Hr. cbn [fst snd] in *.
  destruct (mess σ (pi_id i)) as [m0|] eqn:Hm; [|done]. cbn in Hr. injection Hr as <- <-.
  eapply yields_bind; [apply IH|]. intros events (ms & Hms & ->). apply yields_ret. exists (m0 :: ms).
  destruct (wf_message σ wf _ _ Hm) as [Hid _]. split; [by constructor|]. cbn [settle_events]. by rewrite Hid.
Qed.
Lemma sum_pending id s : part σ id = Some s ->
  ap_pending_bytes (pt_participant s) = sum_by pi_bytes (pt_pending s) /\
  (count (pt_pending s) <= MAX_AGENT_INBOX_MESSAGES)%N.
Proof. intros Hs. by destruct (wf_participant σ wf id s Hs) as (_ & _ & Hb & Hc & _). Qed.
(** The batch that closes an attempt, if it is open. *)
Definition closing id reason (p : ParticipantState) (sc : ScopeState) (ms : list AgentMessage)
    (context : ExecutionContext) (feed : N) : list NewEvent :=
  (settle_events σ sc context (NotDelivered reason) feed ms ++
   [event (participant_stream id) (count (σ (participant_stream id))) "closed" (sc_owner sc) context (closed reason p);
    event (root_stream (sc_root_run_id sc)) (count (σ (root_stream (sc_root_run_id sc)))) "scope" (sc_owner sc) context
      (with_pending_bytes (sc_pending_bytes sc - sum_by pi_bytes (take (length (pt_pending p)) (pt_pending p))) sc)])%list.
Definition closes_by id reason (events : list NewEvent) : Prop :=
  exists p, part σ id = Some p /\
    if is_open p then exists sc ms context feed, events = closing id reason p sc ms context feed /\
      scop σ (sha256_hex (root_of p)) = Some sc /\ sc_root_run_id sc = root_of p /\
      Forall2 (fun i m => mess σ (pi_id i) = Some m) (take (length (pt_pending p)) (pt_pending p)) ms
    else events = [].
Lemma settled_closed reason p : settled_to (length (pt_pending p)) p (closed reason p).
Proof. split_and!; try done. by rewrite drop_all. Qed.
Lemma closes_staged id reason events : closes_by id reason events -> staged_write events.
Proof.
  intros (p & Hp & Hev). destruct (is_open p) eqn:Ho; [|subst events; by split; [left|]].
  destruct Hev as (sc & ms & context & feed & -> & Hsc & Hroot & Hms).
  destruct (sum_pending id p Hp) as [_ Hcount]. pose proof (Forall2_length _ _ _ Hms) as Hlen.
  rewrite firstn_all in Hlen. unfold MAX_AGENT_INBOX_MESSAGES, count in Hcount. split; [right|].
  - apply (cw_settle σ id p (closed reason p) sc (NotDelivered reason) (length (pt_pending p)) ms); try done.
    apply settled_closed.
  - unfold closing, count, MAX_RECEIPTS. rewrite length_app, settle_events_length. cbn [length]. lia.
Qed.
Lemma close_events_yields id reason : answers (close_events id reason) (closes_by id reason).
Proof.
  eapply yields_bind; [by apply yields_participant|]. intros [s v] [Hs Hv]. cbn [fst snd] in *. subst v.
  destruct (ap_open (pt_participant s)) eqn:Ho; cbn [negb];
    [|apply yields_ret; exists s; split; [done|]; unfold is_open; by rewrite Ho].
  eapply yields_bind; [by apply yields_scope|]. intros [sc sv] [Hsc Hsv]. cbn [fst snd] in *. subst sv.
  destruct (own_scope h Hok id s Hs) as (sc' & Hsc' & Hroot & Hin & Hown).
  assert (sc' = sc) as -> by (unfold root_of in Hsc'; congruence).
  eapply yields_bind; [apply yields_version; auto with comm|]. intros feed ->.
  eapply yields_bind; [apply close_messages_yields|]. intros events (ms & Hms & ->).
  eapply yields_bind; [apply yields_lift; intros a Ha; exact Ha|]. intros bytes Hb.
  unfold checked_sub in Hb. destruct (_ <=? _)%N eqn:Hle; [|done]. cbn in Hb. injection Hb as <-.
  apply yields_ret. destruct (sum_pending id s Hs) as [Hsum _]. exists s. split; [done|].
  unfold is_open. rewrite Ho. eexists sc, ms, _, _. split; [|split; [done|split; [done|by rewrite firstn_all]]].
  unfold closing. change (ap_root_run_id (pt_participant s)) with (root_of s).
  rewrite <- Hroot, Hsum, firstn_all. done.
Qed.

Lemma stage_root_yields context owner peer :
  answers (stage_root_with_peer_input context owner peer) staged_write.
Proof.
  unfold stage_root_with_peer_input. eapply yields_bind; [apply yields_lift; intros a Ha; exact Ha|]. intros run_id _.
  eapply yields_bind; [apply yields_lift; intros a Ha; exact Ha|]. intros session_id _.
  eapply yields_bind; [apply yields_mint|]. intros minted Hname%valid_token_nul.
  eapply yields_bind; [apply yields_lift; intros a Ha; exact Ha|]. intros created_at _.
  apply yields_ret. split; [right; by apply cw_root|done].
Qed.

Lemma register_child_yields job : answers (register_child job) staged_write.
Proof.
  unfold register_child. eapply yields_bind; [by apply yields_participant_for_run|]. intros found ->.
  destruct (run_part h (sj_parent_run_id job)) as [[s v]|] eqn:Hr; [|apply yields_ret; by split; [left|]].
  destruct (run_part_some h Hok _ _ _ Hr) as (pid & Hs & Hid & _). cbv zeta.
  eapply yields_bind; [apply (yields_load h Hmax Hok (A:=AttemptIndex)); [auto with comm|apply (wf_jobs σ wf)]|].
  intros previous ->. apply yields_reject. intros _.
  eapply yields_bind; [by apply yields_scope|]. intros [sc sv] [Hsc Hsv]. cbn [fst snd] in *. subst sv.
  destruct (own_scope h Hok pid s Hs) as (sc' & Hsc' & Hroot & Hin & Hown).
  assert (sc' = sc) as -> by (unfold root_of in Hsc'; congruence).
  apply yields_reject. intros Hroom%N.leb_gt.
  apply (yields_bind h _ _ (fun _ => forall i, latest (A:=AttemptIndex) (σ (job_stream (sj_id job))) = Some i ->
    exists q, part σ (ai_participant_id i) = Some q /\ is_open q = false)).
  { unfold latest_at. destruct (latest (σ (job_stream (sj_id job)))) as [i|]; [|by apply yields_ret]. cbn.
    eapply yields_bind; [by apply yields_participant|]. intros [q qv] [Hq _]. apply yields_lift.
    intros [] Hrej i' [= <-]. exists q. split; [done|]. cbn in Hrej. unfold is_open.
    by destruct (ap_open (pt_participant q)). }
  intros _ Hlast.
  set (generation := match latest_at h (job_stream (sj_id job)) with Some _ => _ | None => _ end).
  set (job_version := match latest_at h (job_stream (sj_id job)) with Some _ => _ | None => _ end).
  assert (job_version = count (σ (job_stream (sj_id job))) /\ generation = (count (σ (job_stream (sj_id job))) + 1)%N)
    as [-> ->].
  { unfold generation, job_version, latest_at.
    destruct (typed_latest _ (wf_jobs σ wf (sha256_hex (sj_id job)))) as [He|(i & Hl & Hi & _)].
    - change (job_key_stream (sha256_hex (sj_id job))) with (job_stream (sj_id job)) in He. by rewrite He.
    - change (job_key_stream (sha256_hex (sj_id job))) with (job_stream (sj_id job)) in *. rewrite Hi. cbn.
      apply last_Some in Hl as [front Hf]. split; [done|].
      pose proof (wf_job σ wf (sha256_hex (sj_id job)) (length front) i) as Hj.
      change (job_key_stream (sha256_hex (sj_id job))) with (job_stream (sj_id job)) in Hj. rewrite Hf in Hj, Hi |- *.
      rewrite lookup_app_r, Nat.sub_diag in Hj by done. unfold latest in Hi. rewrite last_snoc in Hi.
      destruct (Hj Hi) as [-> _]. unfold count. rewrite length_app. simpl. lia. }
  eapply yields_bind; [apply yields_mint|]. intros minted Hname%valid_token_nul.
  eapply yields_bind; [apply yields_lift; intros a Ha; exact Ha|]. intros created_at _.
  apply yields_ret. split; [right|done]. rewrite Hid. change (ap_root_run_id (pt_participant s)) with (root_of s).
  rewrite <- Hroot at 1. apply (cw_child σ pid s sc (sj_id job)); try done.
Qed.
Lemma close_child_yields job reason : answers (close_child job reason) staged_write.
Proof.
  unfold close_child.
  eapply yields_bind; [apply (yields_load h Hmax Hok (A:=AttemptIndex)); [auto with comm|apply (wf_jobs σ wf)]|].
  intros index ->. destruct (latest_at h (job_stream (sj_id job))) as [[i v]|]; [|apply yields_ret; by split; [left|]].
  eapply yields_weaken; [apply close_events_yields|]. intros events. apply closes_staged.
Qed.
End Staging.

(** ** The port *)

Section Port.
Context `{SessionCodec} `{!SessionCodecOk} `{WorkCodecsOk} `{Externals} `{CommunicationCodecsOk}.
Context {J} `{EventJournalOk J}.
#[local] Abbreviation C := (CommunicationService J).

(** A batch of the service is joint. *)
Lemma own_event_neither e : on_comm (ne_stream_id e) = true -> neither e.
Proof. intros Hs. split; [split|split_and!]; by apply (existsb_apart _ COMM_PREFIXES). Qed.
Lemma own_filter batch : Forall own_event batch -> own_events batch = batch.
Proof.
  intros Hf. unfold own_events. induction Hf as [|e batch (_ & Hs & _) _ IH]; [done|]. simpl. by rewrite Hs, IH.
Qed.
Lemma store_max h s : (count h + 1 < u64_max)%N -> (count (comm_store h s) < u64_max)%N.
Proof. intros Hmax. pose proof (store_count h s). lia. Qed.
Lemma written_own_events h events :
  (count h + 1 < u64_max)%N -> comm_ok h -> staged_write h events -> Forall own_event events.
Proof.
  intros Hmax Hok [[->|Hw] _]; [apply Forall_nil_2|].
  apply (comm_write_own (comm_store h) (proj1 Hok)); [|done]. intros s. by apply store_max.
Qed.
Lemma staged_write_for h events :
  (count h + 1 < u64_max)%N -> comm_ok h -> staged_write h events ->
  Forall recordable events /\ staged_for h events /\ (count events <= MAX_RECEIPTS)%N.
Proof.
  intros Hmax Hok Hs. pose proof (written_own_events h events Hmax Hok Hs) as Hf. destruct Hs as [Hw Hc].
  split_and!; [|split|done].
  - eapply Forall_impl; [exact Hf|]. by intros e [].
  - eapply Forall_impl; [exact Hf|]. intros e (_ & Hs & _). by apply own_event_neither.
  - unfold comm_batch. rewrite own_filter by done. destruct Hw as [->|Hw]; [by left|right]. split; [done|].
    eapply Forall_impl; [exact Hf|]. by intros e (_ & _ & ?).
Qed.
Lemma staged_yields h (m : op C (list NewEvent)) (s : C) :
  holds s h -> (count h + 1 < u64_max)%N -> comm_ok h -> yields h m (staged_write h) -> staged_ok h (m s).
Proof.
  intros Hh Hmax Hok Hm. destruct (Hm s Hh) as [Hs Ha]. split; [exact Hs|]. intros events He.
  destruct (staged_write_for h events Hmax Hok (Ha events He)) as (Hr & Hst & Hc).
  split_and!; [done|done|]. unfold MAX_RECEIPTS, MAX_STAGED in *. lia.
Qed.
Lemma child_committed_holds job (s : C) h :
  holds s h -> (count h + 1 < u64_max)%N -> comm_ok h -> holds (child_committed job s) h.
Proof.
  intros Hh Hmax Hok. unfold child_committed. set (s1 := (wake s).2).
  assert (holds s1 h) as Hs1 by exact Hh. destruct (_ || _); [|done].
  rewrite (load_is h Hmax Hok (A:=AttemptIndex) (job_stream (sj_id job)) s1 Hs1 (on_job _)
    (wf_jobs _ (proj1 Hok) (sha256_hex (sj_id job)))).
  destruct (latest_at h (job_stream (sj_id job))) as [[i v]|]; [|done].
  rewrite (participant_is h Hmax Hok _ s1 Hs1). destruct (part _ _) as [p|]; [|done].
  by destruct (_ ≫= _).
Qed.

(** So the port is what the work service relies on. *)
Lemma child_communication_ok : communication_ok (Some (child_communication (J:=J))).
Proof.
  intros c j h [= <-] Hh (_ & _ & Hok) Hmax. split_and!; intros.
  - apply staged_yields; try done. by apply register_child_yields.
  - apply staged_yields; try done. by apply close_child_yields.
  - by apply child_committed_holds.
Qed.
End Port.
