(* ===== verification/CommunicationOps.v ===== *)
(** * The operations of the communication service

    Every operation that writes - registering and binding an execution, admitting a
    message, including a batch in a turn, completing and closing, recovering - is a run of
    the joint system: it reads, prepares a batch of [comm_write] and commits it, up to eight
    times over. *)

From S2P Require Import Prelude Json Contracts Boundary Platform JournalStore Journal Store.
From S2P Require Import JournalModel JournalAppend ProjectionView StoreSpec StoreCorrect SessionContracts Session ProjectionCorrect ProjectionHandlersCorrect Interleaving Aggregates.
From S2P Require Import SessionModel SessionOps SessionSafety WorkContracts Work WorkModel WorkService WorkSafety.
From S2P Require Import Communication CommunicationModel CommunicationStep CommunicationSettle CommunicationSafety CommunicationReads.
From S2P Require Import Composition WorkServiceCorrect CommunicationPort.

Open Scope string_scope.
Open Scope op_scope.

Section Moves.
Context `{SessionCodec} `{!SessionCodecOk} `{WorkCodecsOk} `{Externals} `{CommunicationCodecsOk} `{!CommunicationCodec}.
Context {J} `{EventJournalOk J}.
#[local] Abbreviation C := (CommunicationService J).
#[local] Abbreviation joint_moves := (moves (J:=C) joint_batch joint_ok).
Implicit Types (s : C) (h : history).

(** ** Steps *)

Lemma comm_part h : joint_ok h -> comm_ok h.
Proof. by intros (_ & _ & ?). Qed.
Lemma moves_read {A B} h (m : op C A) (Q : A -> Prop) size s (k : A -> op C B) :
  yields h m Q -> holds s h -> joint_ok h ->
  (forall a s', holds s' h -> Q a -> joint_moves size s' h (k a s').2) ->
  joint_moves size s h (op_bind m k s).2.
Proof.
  intros Hm Hh Hok Hk. destruct (Hm s Hh) as [Hh' Ha]. apply moves_after; try done.
  intros a Hr. by apply Hk, Ha.
Qed.
Lemma moves_cread {A B} h (m : cop C A) (Q : A -> Prop) size s (k : A -> cop C B) :
  yields h m Q -> holds s h -> joint_ok h ->
  (forall a s', holds s' h -> Q a -> joint_moves size s' h (k a s').2) ->
  joint_moves size s h (cop_bind m k s).2.
Proof.
  intros Hm Hh Hok Hk. destruct (Hm s Hh) as [Hh' Ha]. unfold cop_bind.
  destruct (m s) as [[a|e] s'] eqn:Hr; cbn [fst snd] in *.
  - eapply (moves_mono _ _ (0 + size)); [|lia]. eapply moves_trans; [by apply moves_private|].
    intros g Hg _ _. rewrite (holds_unique _ _ _ Hg Hh'). by apply Hk, Ha.
  - by apply moves_private.
Qed.
Lemma moves_yield {E A} h (m : C -> result E A * C) (Q : A -> Prop) size s :
  yields h m Q -> holds s h -> joint_ok h -> joint_moves size s h (m s).2.
Proof. intros Hm Hh Hok. apply moves_private; try done. by apply (Hm s Hh). Qed.
(** [op_lift], and a refusal. *)
Lemma moves_lift {A B} h (r : result StoreError A) size s (k : A -> op C B) :
  holds s h -> joint_ok h -> (forall a, r = Ok a -> joint_moves size s h (k a s).2) ->
  joint_moves size s h (op_bind (op_lift r) k s).2.
Proof. intros Hh Hok Hk. apply moves_after; try done. Qed.
Lemma moves_reject {B} h (b : bool) e size s (k : unit -> op C B) :
  holds s h -> joint_ok h -> (b = false -> joint_moves size s h (k tt s).2) ->
  joint_moves size s h (op_bind (op_lift (reject b e)) k s).2.
Proof. intros Hh Hok Hk. apply moves_lift; try done. intros [] Hr. apply Hk. by destruct b. Qed.

(** A staged batch, committed. *)
Lemma commit_moves h inputs events size s :
  holds s h -> joint_ok h -> inputs_ok inputs -> Forall recordable events -> staged_for h events ->
  (count events <= size)%N -> (count h + size + 1 < u64_max)%N ->
  joint_moves size s h (ej_append_batch inputs events s).2.
Proof.
  intros Hh Hok Hi Hr Hs Hc Hle. apply (moves_one _ _ joint_keeps inputs); try done. right. exists events.
  split_and!; try done. by apply comm_joint.
Qed.
Lemma append_moves h inputs e size s :
  holds s h -> joint_ok h -> inputs_ok inputs -> recordable e -> staged_for h [e] ->
  (1 <= size)%N -> (count h + size + 1 < u64_max)%N -> joint_moves size s h (ej_append inputs e s).2.
Proof.
  intros Hh Hok Hi Hr Hs Hc Hle.
  assert ((ej_append inputs e s).2 = (ej_append_batch inputs [e] s).2) as ->;
    [|by apply commit_moves; try done; apply Forall_singleton].
  rewrite (ej_append_ok inputs e s). unfold op_bind. destruct (ej_append_batch inputs [e] s) as [[es|x] s']; [|done].
  cbn. unfold op_lift. by destruct (last es).
Qed.
Lemma wake_moves h size s : holds s h -> joint_ok h -> joint_moves size s h (wake s).2.
Proof. intros Hh Hok. by apply moves_private. Qed.

Lemma staged_moves h inputs events size s :
  holds s h -> joint_ok h -> inputs_ok inputs -> staged_write h events ->
  (MAX_RECEIPTS <= size)%N -> (count h + size + 1 < u64_max)%N ->
  joint_moves size s h (ej_append_batch inputs events s).2.
Proof.
  intros Hh Hok Hi Hs Hc Hle. destruct (staged_write_for h events ltac:(lia) (comm_part h Hok) Hs) as (Hr & Hst & Hn).
  apply commit_moves; try done. lia.
Qed.

(** ** Registration *)

(** The attempt of an execution, as [unavailable] requires it. *)
Lemma bound_write h id p owner context run_id indexes :
  part (comm_store h) id = Some p -> unavailable p context owner = false ->
  (indexes = [] /\ runs_as (comm_store h) run_id id \/ exists i, ai_participant_id i = id /\ index_fit i /\
     indexes = [event (run_stream run_id) 0 "run" owner context i]) ->
  staged_write h (event (participant_stream id) (count (comm_store h (participant_stream id))) "bound" owner context
                    (with_run_id run_id p) :: indexes).
Proof.
  intros Hp Hu Hi. split; [right|].
  - apply cw_bind; try done. unfold unavailable in Hu. apply orb_false_iff in Hu as [Hu _].
    apply orb_false_iff in Hu as [_ Hu]. unfold is_open. by destruct (ap_open (pt_participant p)).
  - destruct Hi as [[-> _]|(i & _ & _ & ->)]; done.
Qed.
Lemma bound_id h id p run_id : joint_ok h -> part (comm_store h) id = Some p ->
  ap_id (pt_participant (with_run_id run_id p)) = id.
Proof. intros Hok Hp. by destruct (wf_participant _ (proj1 (comm_part h Hok)) id p Hp) as [<- _]. Qed.
Lemma insert_control_moves h run_id control size s :
  holds s h -> joint_ok h -> joint_moves size s h (insert_control run_id control s).2.
Proof. intros Hh Hok. unfold insert_control. by case_match; apply moves_private. Qed.

(** Room for the registration of a root, and for binding it. *)
Definition REGISTER_SIZE : N := 2 * MAX_RECEIPTS.
Lemma register_root_moves h allocate bind context owner s :
  holds s h -> joint_ok h -> inputs_ok allocate -> inputs_ok bind -> (count h + REGISTER_SIZE + 1 < u64_max)%N ->
  joint_moves REGISTER_SIZE s h (register_root allocate bind context owner s).2.
Proof.
  intros Hh Hok Hia Hib Hle. unfold register_root, REGISTER_SIZE in *.
  assert (2 * MAX_RECEIPTS = MAX_RECEIPTS + MAX_RECEIPTS)%N as Hsz by lia. rewrite Hsz in *.
  apply moves_lift; try done. intros run_id _.
  eapply moves_read; [by apply yields_participant_for_run; [lia|apply comm_part]|done|done|]. intros existing s1 Hs1 _.
  apply (moves_bind (J:=C) joint_batch joint_ok MAX_RECEIPTS MAX_RECEIPTS).
  - destruct (is_none existing); [|by apply moves_private].
    eapply moves_read; [apply (stage_root_yields h)|done|done|].
    intros events s2 Hs2 Hst. eapply (moves_mono _ _ (MAX_RECEIPTS + 0)); [|lia].
    apply moves_bind; [apply staged_moves; try done; lia|]. intros es g _ Hg Hgok _. by apply moves_private.
  - intros _ g _ Hg Hgok Hgle.
    assert (count (h ++ g)%list + 1 < u64_max)%N as Hmax by (rewrite count_app; lia).
    eapply moves_read; [by apply yields_participant_for_run; [|apply comm_part]|done|done|]. intros registered s2 Hs2 ->.
    apply moves_lift; try done. intros [p v] Hr. cbn [fst snd].
    destruct (run_part (h ++ g) run_id) as [[p' v']|] eqn:Hrun; [|done]. injection Hr as -> ->.
    pose proof (run_part_runs _ (comm_part _ Hgok) _ _ _ Hrun) as Hruns.
    destruct (run_part_some _ (comm_part _ Hgok) _ _ _ Hrun) as (id & Hp & Hid & ->). rewrite Hid in Hruns.
    apply moves_reject; try done. intros Hu. cbv zeta. rewrite (bound_id (h ++ g) id p run_id Hgok Hp).
    pose proof (bound_write (h ++ g) id p owner context run_id [] Hp Hu
      (or_introl (conj eq_refl Hruns))) as Hst.
    destruct (staged_write_for _ _ Hmax (comm_part _ Hgok) Hst) as (Hr1 & Hst1 & _).
    apply Forall_cons in Hr1 as [Hr1 _].
    eapply (moves_mono _ _ (1 + 0)); [|unfold MAX_RECEIPTS; lia].
    apply moves_bind; [apply append_moves; try done; unfold MAX_RECEIPTS in *; rewrite ?count_app; lia|].
    intros e g' _ Hg' Hgok' _. by apply wake_moves.
Qed.
Lemma begin_run_moves h allocate bind context owner control s :
  holds s h -> joint_ok h -> inputs_ok allocate -> inputs_ok bind -> (count h + REGISTER_SIZE + 1 < u64_max)%N ->
  joint_moves REGISTER_SIZE s h (begin_run allocate bind context owner control s).2.
Proof.
  intros Hh Hok Hia Hib Hle. unfold begin_run. assert (count h + 1 < u64_max)%N as Hmax by lia.
  pose proof (comm_part h Hok) as Hc. apply moves_lift; try done. intros run_id _.
  eapply (moves_mono _ _ (REGISTER_SIZE + 0)); [|lia]. destruct (ctx_subagent_id context) as [job|].
  - eapply moves_read; [apply (yields_load h Hmax Hc (A:=AttemptIndex)); [auto with comm|apply (wf_jobs _ (proj1 Hc))]|done|done|].
    intros index s1 Hs1 ->. destruct (latest_at h (job_stream job)) as [[i iv]|] eqn:Hi; [|by apply moves_private].
    eapply moves_read; [by apply yields_participant|done|done|]. intros [p v] s2 Hs2 [Hp Hv]. cbn [fst snd] in *. subst v.
    apply moves_reject; try done. intros Hu. cbv zeta. rewrite (bound_id h _ p run_id Hok Hp).
    apply moves_bind; [|intros es g _ Hg Hgok _; by apply insert_control_moves].
    apply staged_moves; [done|done|done| |unfold REGISTER_SIZE; lia|done].
    apply bound_write; try done. right. exists i. split_and!; try done.
    unfold latest_at in Hi. destruct (latest (comm_store h (job_stream job))) as [i'|] eqn:Hl; [|done].
    injection Hi as -> _. exact (latest_fit _ _ (wf_jobs _ (proj1 Hc) (sha256_hex job)) Hl).
  - apply moves_bind; [by apply register_root_moves|]. intros [] g _ Hg Hgok _. by apply insert_control_moves.
Qed.

(** ** Closing *)

Definition CLOSE_SIZE : N := 8 * MAX_RECEIPTS.
(** An attempt that commits, and goes on when it was in conflict. *)
Lemma attempt_moves {B} h inputs events n s (go : op C B) (again : op C B) :
  holds s h -> joint_ok h -> inputs_ok inputs -> staged_write h events ->
  (count h + (N.of_nat (S n)) * MAX_RECEIPTS + 1 < u64_max)%N ->
  (forall s' h', holds s' h' -> joint_ok h' -> joint_moves 0 s' h' (go s').2) ->
  (forall s' h', holds s' h' -> joint_ok h' -> (count h' + N.of_nat n * MAX_RECEIPTS + 1 < u64_max)%N ->
     joint_moves (N.of_nat n * MAX_RECEIPTS) s' h' (again s').2) ->
  joint_moves (N.of_nat (S n) * MAX_RECEIPTS) s h
    (match ej_append_batch inputs events s with
     | (Ok _, s') => go s'
     | (Err e, s') => if is_conflict e then again s' else (Err e, s')
     end).2.
Proof.
  intros Hh Hok Hi Hs Hle Hgo Hagain. unfold MAX_RECEIPTS in *.
  pose proof (staged_moves h inputs events MAX_RECEIPTS s Hh Hok Hi Hs ltac:(done)
    ltac:(unfold MAX_RECEIPTS; lia)) as Hm. unfold MAX_RECEIPTS in Hm.
  eapply (moves_mono _ _ (130 + N.of_nat n * 130)); [|lia].
  destruct (ej_append_batch inputs events s) as [[es|e] s'] eqn:He; cbn [snd] in *.
  - eapply moves_trans; [exact Hm|]. intros g Hg Hgok _. eapply moves_mono; [by apply Hgo|lia].
  - destruct (is_conflict e); [|eapply moves_mono; [exact Hm|lia]].
    eapply moves_trans; [exact Hm|]. intros g Hg Hgok Hgle. apply Hagain; try done. rewrite count_app. lia.
Qed.
Lemma close_attempts_moves inputs run_id reason attempts : forall n h s,
  (forall n, inputs_ok (inputs n)) -> holds s h -> joint_ok h ->
  (count h + N.of_nat attempts * MAX_RECEIPTS + 1 < u64_max)%N ->
  joint_moves (N.of_nat attempts * MAX_RECEIPTS) s h (close_attempts attempts n inputs run_id reason s).2.
Proof.
  induction attempts as [|attempts IH]; intros n h s Hi Hh Hok Hle; [by apply moves_private|].
  cbn [close_attempts]. assert (count h + 1 < u64_max)%N as Hmax by lia. pose proof (comm_part h Hok) as Hc.
  eapply moves_read; [by apply yields_participant_for_run|done|done|]. intros found s1 Hs1 ->.
  destruct (run_part h run_id) as [[p v]|]; [|by apply moves_private].
  eapply moves_read; [by apply close_events_yields|done|done|]. intros events s2 Hs2 Hst%closes_staged; [|done..].
  apply attempt_moves; try done.
  - intros s' h' Hh' Hok'. apply moves_after; try done. intros u _. by apply wake_moves.
  - intros s' h' Hh' Hok' Hle'. by apply IH.
Qed.
Lemma close_run_moves inputs run_id reason h s :
  (forall n, inputs_ok (inputs n)) -> holds s h -> joint_ok h -> (count h + CLOSE_SIZE + 1 < u64_max)%N ->
  joint_moves CLOSE_SIZE s h (close_run inputs run_id reason s).2.
Proof. intros Hi Hh Hok Hle. by apply (close_attempts_moves inputs run_id reason 8 0). Qed.
Lemma complete_attempts_moves inputs run_id attempts : forall n h s,
  (forall n, inputs_ok (inputs n)) -> holds s h -> joint_ok h ->
  (count h + N.of_nat attempts * MAX_RECEIPTS + 1 < u64_max)%N ->
  joint_moves (N.of_nat attempts * MAX_RECEIPTS) s h (complete_attempts attempts n inputs run_id s).2.
Proof.
  induction attempts as [|attempts IH]; intros n h s Hi Hh Hok Hle; [by apply moves_private|].
  cbn [complete_attempts]. assert (count h + 1 < u64_max)%N as Hmax by lia. pose proof (comm_part h Hok) as Hc.
  eapply moves_read; [by apply yields_participant_for_run|done|done|]. intros found s1 Hs1 ->.
  destruct (run_part h run_id) as [[p v]|]; [|by apply moves_private].
  destruct (ap_open (pt_participant p)); [|by apply moves_private]. cbn [negb].
  case_bool_decide as Hp; cbn [negb]; [|by apply moves_private].
  eapply moves_read; [by apply close_events_yields|done|done|]. intros events s2 Hs2 Hst%closes_staged; [|done..].
  destruct (existsb _ events).
  - eapply moves_mono; [apply (IH (S n)); try done; lia|lia].
  - apply attempt_moves; try done.
    + intros s' h' Hh' Hok'. apply moves_after; try done. intros u _. by apply moves_private.
    + intros s' h' Hh' Hok' Hle'. by apply IH.
Qed.
Lemma try_complete_moves inputs context h s :
  (forall n, inputs_ok (inputs n)) -> holds s h -> joint_ok h -> (count h + CLOSE_SIZE + 1 < u64_max)%N ->
  joint_moves CLOSE_SIZE s h (try_complete inputs context s).2.
Proof.
  intros Hi Hh Hok Hle. unfold try_complete. destruct (ctx_run_id context) as [run_id|]; [|by apply moves_private].
  by apply (complete_attempts_moves inputs run_id 8 0).
Qed.

(** ** Recovery *)

Definition RECOVER_SIZE : N := 1025 * CLOSE_SIZE.
Section Recovery.
Context (inputs : nat -> nat -> Inputs) (Hi : forall k n, inputs_ok (inputs k n)).
(** Room for the closures that are left. *)
#[local] Abbreviation room recovered := ((1025 - N.of_nat recovered) * CLOSE_SIZE)%N.
Lemma recover_page_moves {B} (k : nat -> op C B) page : forall recovered h s,
  holds s h -> joint_ok h -> (recovered <= 1024)%nat -> (count h + room recovered + 1 < u64_max)%N ->
  Forall (fun stream => exists id, stream = participant_stream id) page ->
  (forall recovered' h' s', holds s' h' -> joint_ok h' -> (recovered' <= 1024)%nat ->
     (count h' + room recovered' + 1 < u64_max)%N -> joint_moves (room recovered') s' h' (k recovered' s').2) ->
  joint_moves (room recovered) s h (op_bind (recover_page inputs page recovered) k s).2.
Proof.
  induction page as [|stream page IH]; intros recovered h s Hh Hok Hrec Hle Hf Hk.
  { exact (Hk recovered h s Hh Hok Hrec Hle). }
  apply Forall_cons in Hf as [[id ->] Hf]. cbn [recover_page].
  rewrite op_bind_assoc. pose proof (comm_part h Hok) as Hc.
  assert (count h + 1 < u64_max)%N as Hmax by (unfold CLOSE_SIZE, MAX_RECEIPTS in *; lia).
  eapply moves_read; [apply (yields_load h Hmax Hc (A:=ParticipantState)); [auto with comm|apply (wf_participants _ (proj1 Hc))]|done|done|].
  intros r s1 Hs1 _. rewrite op_bind_assoc. apply moves_lift; try done. intros [p v] _. cbn [fst].
  destruct (ap_open (pt_participant p)); [|by apply IH]. destruct (ap_run_id (pt_participant p)) as [run_id|]; [|by apply IH].
  rewrite op_bind_assoc. apply (moves_mono _ _ (CLOSE_SIZE + room (S recovered))).
  - apply moves_bind; [apply close_run_moves; try done; unfold CLOSE_SIZE, MAX_RECEIPTS in *; lia|].
    intros _ g _ Hg Hgok Hgle. rewrite op_bind_assoc. apply moves_reject; try done. intros Hb%Nat.ltb_ge.
    apply IH; try done. rewrite count_app. unfold CLOSE_SIZE, MAX_RECEIPTS in *. lia.
  - unfold CLOSE_SIZE, MAX_RECEIPTS in *. lia.
Qed.
Definition clean_cursor (after : option string) : Prop :=
  forall c, after = Some c -> has_nul c = false /\ starts_with c "agent-participant:" = true.
(** What a page lists. *)
Lemma listed_participant h after stream :
  comm_ok h -> stream ∈ ids_after "agent-participant:" after h ->
  has_nul stream = false /\ exists id, stream = participant_stream id /\
    exists p, part (comm_store h) id = Some p.
Proof.
  intros [Hwf _] Hin. apply filter_elem in Hin as [Hin [Hp _]%andb_true_iff].
  apply starts_with_spec in Hp as [id ->]. change ("agent-participant:" ++s id) with (participant_stream id) in *.
  unfold stream_ids in Hin. rewrite sort_dedup_elem in Hin. apply list_elem_of_fmap in Hin as (e & He & Hin).
  apply list_elem_of_fmap in Hin as ([e' v] & -> & Hin). cbn in He.
  assert (comm_store h (participant_stream id) <> []) as Hne.
  { unfold comm_store. rewrite on_participant. intros Hnil%fmap_nil_inv.
    assert ((e', v) ∈ stream_entries (participant_stream id) h) as Hmem
      by (apply filter_elem; split; [done|]; cbn; rewrite <- He; apply String.eqb_refl).
    rewrite Hnil in Hmem. by apply elem_of_nil in Hmem. }
  split.
  - unfold participant_stream. rewrite has_nul_append, (wf_names _ Hwf id Hne). done.
  - exists id. split; [done|]. destruct (typed_latest _ (wf_participants _ Hwf id)) as [He'|(p & _ & Hp & _)]; [done|].
    by exists p.
Qed.
Lemma recover_pages_moves fuel : forall after recovered h s,
  holds s h -> joint_ok h -> clean_cursor after -> (recovered <= 1024)%nat -> (count h + room recovered + 1 < u64_max)%N ->
  joint_moves (room recovered) s h (recover_pages fuel inputs after recovered s).2.
Proof.
  induction fuel as [|fuel IH]; intros after recovered h s Hh Hok Hcl Hrec Hle; [by apply moves_private|].
  cbn [recover_pages].
  pose proof (ej_list_stream_ids_ok s h "agent-participant:" after 128 Hh eq_refl Hcl) as Hlist.
  apply moves_after; [done|done|by rewrite Hlist|]. intros page Hpage. rewrite Hlist in Hpage |- *. cbn [fst snd] in *.
  assert (Forall (fun stream => stream ∈ ids_after "agent-participant:" after h) page) as Hf.
  { injection Hpage as <-. apply Forall_forall. intros x Hx.
    rewrite <- (take_drop (N.to_nat (N.min 128 MAX_STREAM_LIST_BATCH)) (ids_after "agent-participant:" after h)).
    apply elem_of_app. by left. }
  destruct page as [|stream page]; [by apply moves_private|].
  apply recover_page_moves; try done.
  - eapply Forall_impl; [exact Hf|]. intros x Hx.
    destruct (listed_participant h after x (comm_part h Hok) Hx) as (_ & id & -> & _). by exists id.
  - intros recovered' h' s' Hh' Hok' Hrec' Hle'. apply IH; try done.
    intros c Hc. apply last_Some_elem_of in Hc. rewrite Forall_forall in Hf. specialize (Hf c Hc).
    destruct (listed_participant h after c (comm_part h Hok) Hf) as [Hn _]. split; [done|].
    by apply filter_elem in Hf as [_ [? _]%andb_true_iff].
Qed.
Lemma recover_moves fuel h s :
  holds s h -> joint_ok h -> (count h + RECOVER_SIZE + 1 < u64_max)%N ->
  joint_moves RECOVER_SIZE s h (recover fuel inputs s).2.
Proof. intros Hh Hok Hle. apply (recover_pages_moves fuel None 0); try done. lia. Qed.
End Recovery.

(** ** Inclusion in a turn *)

(** A peer's message is text: it is stored as any other message of a session. *)
Definition peer_input_ok : Prop := forall m : AgentMessage, SessionOps.message_fit (agent_input_message m).

Lemma include_messages_yields h sc context r accepted :
  (count h + 1 < u64_max)%N -> comm_ok h -> forall feed,
  yields (J:=J) h (include_messages sc context r feed accepted) (fun x =>
    Forall (fun m => mess (comm_store h) (am_id m) = Some m /\ am_receipt m = Accepted) accepted /\
    x.1 = settle_events (comm_store h) sc context r feed accepted /\
    x.2 = sum_by (fun m => slen (am_text m)) accepted).
Proof.
  intros Hmax Hok. induction accepted as [|m accepted IH]; intros feed; cbn [include_messages].
  { apply yields_ret. by split_and!; [apply Forall_nil_2| |]. }
  eapply yields_bind; [by apply yields_message|]. intros o ->.
  eapply yields_bind; [apply yields_lift; intros a Ha; exact Ha|]. intros [m0 v] Hr.
  destruct (mess (comm_store h) (am_id m)) as [m1|] eqn:Hm; [|done]. cbn in Hr. injection Hr as <- <-. cbn [fst snd].
  apply yields_reject. intros Hrej. apply orb_false_iff in Hrej as [He%negb_false_iff Ha%negb_false_iff].
  apply bool_decide_eq_true in He as ->. apply bool_decide_eq_true in Ha.
  eapply yields_bind; [apply IH|]. intros [events bytes] (Hf & -> & ->). cbn [fst snd].
  apply yields_ret. cbn [fst snd]. split_and!; [by constructor|done|done].
Qed.
(** The messages are the first of what is pending. *)
Lemma zip_ids pending (ms : list AgentMessage) :
  length ms <= length pending ->
  forallb id (zip_with (fun p m => String.eqb (pi_id p) (am_id m)) pending ms) = true ->
  Forall2 (fun p m => pi_id p = am_id m) (take (length ms) pending) ms.
Proof.
  revert ms. induction pending as [|p pending IH]; intros [|m ms] Hlen Hf; try constructor; simpl in *; try lia.
  - apply andb_true_iff in Hf as [He Hf]. by apply String.eqb_eq.
  - apply andb_true_iff in Hf as [He Hf]. apply IH; [lia|done].
Qed.
(** The batch of an inclusion. *)
Definition inclusion_events h id (p : ParticipantState) (sc : ScopeState) (ms : list AgentMessage)
    (r : AgentMessageReceipt) (context : ExecutionContext) : list NewEvent :=
  (settle_events (comm_store h) sc context r (count (comm_store h (feed_stream (sc_root_run_id sc)))) ms ++
   [event (participant_stream id) (count (comm_store h (participant_stream id))) "included" (sc_owner sc) context
      (consumed (length ms) (ap_pending_bytes (pt_participant p) - sum_by (fun m => slen (am_text m)) ms) p);
    event (root_stream (sc_root_run_id sc)) (count (comm_store h (root_stream (root_of p)))) "scope" (sc_owner sc)
      context (with_pending_bytes (sc_pending_bytes sc - sum_by (fun m => slen (am_text m)) ms) sc)])%list.
(** What [include] has checked when it appends. *)
Record inclusion h (batch : AgentInboxBatch) (context : ExecutionContext) (turn : N) (request_hash run_id : string)
    (p : ParticipantState) (sc : ScopeState) : Prop := {
  in_run : ctx_run_id context = Some run_id;
  in_recipient : part (comm_store h) (ib_participant_id batch) = Some p;
  in_version : ib_version batch = count (comm_store h (participant_stream (ib_participant_id batch)));
  in_valid : valid_inclusion p batch context run_id turn request_hash = true;
  in_scope : scop (comm_store h) (sha256_hex (root_of p)) = Some sc;
  in_messages : Forall (fun m => mess (comm_store h) (am_id m) = Some m /\ am_receipt m = Accepted) (ib_messages batch);
}.
Lemma valid_inclusion_spec p batch context run_id turn request_hash :
  valid_inclusion p batch context run_id turn request_hash = true ->
  is_open p = true /\ ap_run_id (pt_participant p) = Some run_id /\
  ctx_session_id context = Some (ap_session_id (pt_participant p)) /\
  (1 <= length (ib_messages batch) <= 8)%nat /\ length (ib_messages batch) <= length (pt_pending p) /\
  forallb id (zip_with (fun p m => String.eqb (pi_id p) (am_id m)) (pt_pending p) (ib_messages batch)) = true.
Proof.
  unfold valid_inclusion, count. intros Hvalid.
  repeat (apply andb_true_iff in Hvalid as [Hvalid ?Hv]).
  apply bool_decide_eq_true in Hv6, Hv7. apply negb_true_iff, bool_decide_eq_false in Hv2.
  apply N.leb_le in Hv0, Hv1. split_and!; try done; lia.
Qed.
Lemma inclusion_settles h batch context turn request_hash run_id p sc :
  comm_ok h -> inclusion h batch context turn request_hash run_id p sc ->
  let n := length (ib_messages batch) in
  (1 <= n <= 8)%nat /\ n <= length (pt_pending p) /\ is_open p = true /\ sc_root_run_id sc = root_of p /\
  Forall2 (fun i m => mess (comm_store h) (pi_id i) = Some m) (take n (pt_pending p)) (ib_messages batch) /\
  sum_by (fun m => slen (am_text m)) (ib_messages batch) = sum_by pi_bytes (take n (pt_pending p)) /\
  settled_to n p (consumed n (ap_pending_bytes (pt_participant p) -
    sum_by (fun m => slen (am_text m)) (ib_messages batch)) p).
Proof.
  intros Hok [_ Hp _ Hvalid Hsc Hms] n.
  destruct (valid_inclusion_spec _ _ _ _ _ _ Hvalid) as (Hopen & _ & _ & Hn & Hlen & Hzip). fold n in Hn, Hlen.
  destruct (own_scope h Hok _ p Hp) as (sc' & Hsc' & Hroot & _ & _). assert (sc' = sc) as -> by congruence.
  destruct (wf_participant _ (proj1 Hok) _ p Hp) as (Hid & _ & Hbytes & _ & _ & _ & Ho & Hpend & _).
  pose proof (zip_ids _ _ Hlen Hzip) as Hids.
  assert (Forall2 (fun i m => mess (comm_store h) (pi_id i) = Some m) (take n (pt_pending p)) (ib_messages batch)) as Hmess.
  { revert Hids Hms. fold n. generalize (take n (pt_pending p)) (ib_messages batch). clear.
    intros l ms Hids Hms. induction Hids as [|i m l ms Hi _ IH]; [constructor|].
    apply Forall_cons in Hms as [[Hm _] Hms]. constructor; [by rewrite Hi|by apply IH]. }
  assert (sum_by (fun m => slen (am_text m)) (ib_messages batch) = sum_by pi_bytes (take n (pt_pending p))) as Hsum.
  { apply (Forall_take _ n) in Hpend. revert Hmess Hpend. generalize (take n (pt_pending p)) (ib_messages batch). clear.
    intros l ms Hmess Hpend. induction Hmess as [|i m l ms' Him _ IH]; [done|]. apply Forall_cons in Hpend as [(m' & Hm' & _ & _ & Ht) Hpend].
    simpl. rewrite IH by done. assert (m' = m) as -> by congruence. by rewrite Ht. }
  refine (conj Hn (conj Hlen (conj Hopen (conj Hroot (conj Hmess (conj Hsum _)))))).
  split_and!; try done; [|unfold is_open in *; cbn; congruence].
  cbn [consumed pt_participant ap_pending_bytes pt_pending]. rewrite Hsum, Hbytes.
  rewrite <- (take_drop n (pt_pending p)) at 1. rewrite sum_by_app. lia.
Qed.
Lemma included_write h batch context turn request_hash run_id p sc :
  (count h + 1 < u64_max)%N -> comm_ok h -> (turn <= 65535)%N ->
  inclusion h batch context turn request_hash run_id p sc ->
  staged_write h (inclusion_events h (ib_participant_id batch) p sc (ib_messages batch)
    (IncludedInTurn run_id turn request_hash) context).
Proof.
  intros Hmax Hok Hturn Hin.
  destruct (inclusion_settles _ _ _ _ _ _ _ _ Hok Hin) as (Hn & Hlen & Hopen & Hroot & Hmess & Hsum & Hto).
  unfold inclusion_events. split.
  - right. rewrite Hsum in Hto |- *. rewrite <- Hroot.
    apply (cw_settle (comm_store h) (ib_participant_id batch) p _ sc _ (length (ib_messages batch)) (ib_messages batch));
      try done; apply Hin.
  - unfold count, MAX_RECEIPTS. rewrite length_app, settle_events_length by done. simpl. lia.
Qed.
(** A step of [op] that reads. *)
Lemma bind_cases {A B} (P : result StoreError B * C -> Prop) h (m : op C A) (Q : A -> Prop) (k : A -> op C B) s :
  yields h m Q -> holds s h -> (forall e s', holds s' h -> P (Err e, s')) ->
  (forall a s', holds s' h -> Q a -> P (k a s')) -> P (op_bind m k s).
Proof.
  intros Hm Hh He Hk. destruct (Hm s Hh) as [Hh' Ha]. unfold op_bind.
  destruct (m s) as [[a|e] s'] eqn:Hr; cbn [fst snd] in *; [by apply Hk; [|apply Ha]|by apply He].
Qed.
(** The append of an inclusion, and its wake. *)
Definition inclusion_commit (inputs : Inputs) (session_id run_id : string) (owner : Actor) (batch : AgentInboxBatch)
    (events : list NewEvent) : op C unit :=
  _ <~ append_messages_with_events inputs session_id run_id
    ((fun m => mkSessionMessageAppend m owner) <$> agent_input_messages batch) events;;
  wake.
Lemma include_cases inputs batch context turn request_hash h s :
  holds s h -> comm_ok h -> (count h + 1 < u64_max)%N ->
  (exists e s', include inputs batch context turn request_hash s = (Err e, s') /\ holds s' h) \/
  exists run_id p sc s', holds s' h /\ inclusion h batch context turn request_hash run_id p sc /\
    include inputs batch context turn request_hash s
    = inclusion_commit inputs (ap_session_id (pt_participant p)) run_id (sc_owner sc) batch
        (inclusion_events h (ib_participant_id batch) p sc (ib_messages batch)
          (IncludedInTurn run_id turn request_hash) context) s'.
Proof.
  intros Hh Hok Hmax. unfold include.
  set (P := fun x : result StoreError unit * C => (exists e s', x = (Err e, s') /\ holds s' h) \/
    exists run_id p sc s', holds s' h /\ inclusion h batch context turn request_hash run_id p sc /\
      x = inclusion_commit inputs (ap_session_id (pt_participant p)) run_id (sc_owner sc) batch
        (inclusion_events h (ib_participant_id batch) p sc (ib_messages batch)
          (IncludedInTurn run_id turn request_hash) context) s').
  assert (forall e s', holds s' h -> P (Err e, s')) as Herr by (intros e s' Hs'; left; by eexists e, s').
  eapply (bind_cases P); [apply yields_lift; intros a Ha; exact Ha|done|done|]. intros run_id s1 Hs1 Hrun.
  eapply (bind_cases P); [by apply yields_participant|done|done|]. intros [p v] s2 Hs2 [Hp Hv]. cbn [fst snd] in *. subst v.
  eapply (bind_cases P h _ (fun _ => ib_version batch = count (comm_store h (participant_stream (ib_participant_id batch)))));
    [|done|done|].
  { apply yields_lift. intros [] Hr. by destruct (N.eqb_spec (count (comm_store h (participant_stream (ib_participant_id batch)))) (ib_version batch)). }
  intros _ s3 Hs3 Hversion.
  eapply (bind_cases P h _ (fun _ => valid_inclusion p batch context run_id turn request_hash = true)); [|done|done|].
  { apply yields_lift. intros [] Hr. by destruct (valid_inclusion p batch context run_id turn request_hash). }
  intros _ s4 Hs4 Hvalid. eapply (bind_cases P); [by apply yields_scope|done|done|].
  intros [sc sv] s5 Hs5 [Hsc Hsv]. cbn [fst snd] in *. subst sv.
  eapply (bind_cases P); [apply yields_version; try done; auto with comm|done|done|]. intros feed s6 Hs6 ->.
  eapply (bind_cases P); [by apply include_messages_yields|done|done|]. intros [events included] s7 Hs7 (Hms & He & Hb).
  cbn [fst snd] in *. subst events included.
  eapply (bind_cases P); [apply yields_lift; intros a Ha; exact Ha|done|done|]. intros bytes s8 Hs8 Hbytes.
  eapply (bind_cases P); [apply yields_lift; intros a Ha; exact Ha|done|done|]. intros scope_bytes s9 Hs9 Hsbytes.
  right. exists run_id, p, sc, s9. destruct (wf_participant _ (proj1 Hok) _ p Hp) as (Hid & _).
  split; [done|]. split; [constructor; try done; by destruct (ctx_run_id context); [injection Hrun as ->|]|].
  unfold inclusion_commit, inclusion_events, checked_sub in *. rewrite Hid.
  destruct (_ <=? ap_pending_bytes _)%N; [|done]. destruct (_ <=? sc_pending_bytes _)%N; [|done].
  injection Hbytes as <-. injection Hsbytes as <-. done.
Qed.
Definition INCLUDE_SIZE : N := MAX_RECEIPTS + 8.
(** A batch of the service, with messages of a session. *)
Lemma append_joint_moves inputs session_id run_id (messages : list SessionMessageAppend) events h s :
  Forall (fun m => SessionOps.message_fit (sa_message m)) messages -> (count messages <= 8)%N ->
  inputs_ok inputs -> staged_write h events -> holds s h -> joint_ok h -> (count h + INCLUDE_SIZE + 1 < u64_max)%N ->
  joint_moves INCLUDE_SIZE s h (append_messages_with_events inputs session_id run_id messages events s).2.
Proof.
  intros Hf Hn Hi Hst Hh Hok Hle.
  destruct (staged_write_for h events ltac:(lia) (comm_part h Hok) Hst) as (Hr & Hs & Hc).
  eapply moves_mono; [apply (joint_action_moves s h inputs (OnSession (DoAppend session_id run_id messages events)))|]; try done.
  - split; [|done]. split; [done|]. split; [done|]. eapply Forall_impl; [exact (proj1 Hs)|]. by intros e [].
  - cbn. unfold INCLUDE_SIZE in *. lia.
  - cbn. unfold INCLUDE_SIZE. lia.
Qed.
Lemma include_moves inputs batch context turn request_hash h s :
  peer_input_ok -> inputs_ok inputs -> (turn <= 65535)%N -> holds s h -> joint_ok h ->
  (count h + INCLUDE_SIZE + 1 < u64_max)%N ->
  joint_moves INCLUDE_SIZE s h (include inputs batch context turn request_hash s).2.
Proof.
  intros Hpeer Hi Hturn Hh Hok Hle. assert (count h + 1 < u64_max)%N as Hmax by lia.
  pose proof (comm_part h Hok) as Hc.
  destruct (include_cases inputs batch context turn request_hash h s Hh Hc Hmax)
    as [(e & s' & -> & Hs')|(run_id & p & sc & s' & Hs' & Hin & ->)]; [by apply moves_private|].
  destruct (inclusion_settles _ _ _ _ _ _ _ _ Hc Hin) as (Hn & _).
  eapply (moves_mono _ _ (0 + INCLUDE_SIZE)); [|lia]. eapply moves_trans; [by apply (moves_private _ _ 0 s h s')|].
  intros g Hg _ _. rewrite (holds_unique _ _ _ Hg Hs'). eapply (moves_mono _ _ (INCLUDE_SIZE + 0)); [|lia].
  apply moves_bind; [|intros r g' _ Hg' Hgok' _; by apply wake_moves].
  apply append_joint_moves; try done.
  - apply Forall_fmap, Forall_fmap, Forall_forall. intros m _. apply Hpeer.
  - unfold count, agent_input_messages. rewrite !length_fmap. lia.
  - by eapply included_write.
Qed.

(** ** Sending *)

(** What a caller adds to an admission. *)
Definition additional_ok (additional : AgentMessage -> op C (list NewEvent)) : Prop := forall m h,
  joint_ok h -> (count h + 1 < u64_max)%N -> yields h (additional m) (fun more =>
    Forall recordable more /\ Forall neither more /\ own_events more = [] /\ (count more <= MAX_STAGED)%N).
(** An application sends as itself. *)
Definition sends_as (owner : Actor) (sender : AgentMessageSender) : Prop :=
  forall id, sender = ApplicationSender id -> id = actor_id owner.
Lemma send_source_yields h owner sender p :
  (count h + 1 < u64_max)%N -> comm_ok h -> yields (J:=J) h (send_source owner sender p) (fun source =>
    match sender with
    | Participant pid => exists q, source = Some q /\ part (comm_store h) pid = Some q /\
        ap_owner (pt_participant q) = owner /\ root_of q = root_of p /\
        (ap_parent_id (pt_participant p) = Some pid \/
         ap_parent_id (pt_participant q) = Some (ap_id (pt_participant p)))
    | ApplicationSender _ => source = None
    end).
Proof.
  intros Hmax Hok. destruct sender as [pid|aid]; [|by apply yields_cret].
  eapply yields_cbind; [by apply yields_stored, yields_participant|]. intros [q v] [Hq _]. cbn [fst] in *.
  apply yields_refuse. intros Hr. apply orb_false_iff in Hr as [Hr Hrel%negb_false_iff].
  apply orb_false_iff in Hr as [Ho%negb_false_iff Hroot%negb_false_iff].
  apply bool_decide_eq_true in Ho. apply String.eqb_eq in Hroot. apply yields_cret. exists q. split_and!; try done.
  apply orb_true_iff in Hrel as [Hrel%bool_decide_eq_true|Hrel%bool_decide_eq_true]; [by left|by right].
Qed.
Definition ATTEMPT_SIZE : N := MAX_STAGED + 6.
Definition SEND_SIZE : N := 8 * ATTEMPT_SIZE.
(** The events of an admission, and the caller's. *)
Lemma admission_moves h inputs owner k fingerprint p sc feed m more s :
  holds s h -> joint_ok h -> inputs_ok inputs -> (count h + ATTEMPT_SIZE + 1 < u64_max)%N ->
  comm_write (comm_store h) (admission_events owner ("agent-message-key:" ++s k) fingerprint p
    (count (comm_store h (participant_stream (am_recipient_id m)))) sc
    (count (comm_store h (root_stream (root_of p)))) feed m) ->
  Forall recordable more -> Forall neither more -> own_events more = [] -> (count more <= MAX_STAGED)%N ->
  joint_moves ATTEMPT_SIZE s h (ej_append_batch inputs (admission_events owner ("agent-message-key:" ++s k)
    fingerprint p (count (comm_store h (participant_stream (am_recipient_id m)))) sc
    (count (comm_store h (root_stream (root_of p)))) feed m ++ more)%list s).2.
Proof.
  intros Hh Hok Hi Hle Hw Hr Hn Ho Hc.
  match type of Hw with comm_write _ ?events => assert (staged_write h events) as Hst by (split; [by right|done]) end.
  destruct (staged_write_for h _ ltac:(lia) (comm_part h Hok) Hst) as (Hrb & [Hnb Hcb] & _).
  apply commit_moves; try done.
  - by apply Forall_app.
  - split; [by apply Forall_app|]. unfold comm_batch, own_events in *. by rewrite List.filter_app, Ho, app_nil_r.
  - unfold count, ATTEMPT_SIZE in *. rewrite length_app. cbn [admission_events length]. lia.
Qed.
(** A step of [cop] that reads. *)
Lemma cbind_cases {A B} (P : result CommunicationError B * C -> Prop) h (m : cop C A) (Q : A -> Prop)
    (k : A -> cop C B) s :
  yields h m Q -> holds s h -> (forall e s', holds s' h -> P (Err e, s')) ->
  (forall a s', holds s' h -> Q a -> P (k a s')) -> P (cop_bind m k s).
Proof.
  intros Hm Hh He Hk. destruct (Hm s Hh) as [Hh' Ha]. unfold cop_bind.
  destruct (m s) as [[a|e] s'] eqn:Hr; cbn [fst snd] in *; [by apply Hk; [|apply Ha]|by apply He].
Qed.
(** The recipient is the owner's, and the sender may write to it. *)
Record addressed h (owner : Actor) (sender : AgentMessageSender) (request : SendAgentMessage)
    (p : ParticipantState) : Prop := {
  ad_recipient : part (comm_store h) (sr_recipient_id request) = Some p;
  ad_owner : ap_owner (pt_participant p) = owner;
  ad_sender : match sender with
              | Participant pid => exists q, part (comm_store h) pid = Some q /\
                  ap_owner (pt_participant q) = owner /\ root_of q = root_of p /\
                  (ap_parent_id (pt_participant p) = Some pid \/
                   ap_parent_id (pt_participant q) = Some (sr_recipient_id request))
              | ApplicationSender _ => True
              end;
}.
(** The claim of an earlier send, and its message as it is now. *)
Record replayed h (owner : Actor) (sender : AgentMessageSender) (request : SendAgentMessage)
    (claim_stream fingerprint : string) (m : AgentMessage) : Prop := {
  re_addressed : exists p, addressed h owner sender request p;
  re_claim : exists c, latest (A:=MessageClaim) (comm_store h claim_stream) = Some c /\ mc_fingerprint c = fingerprint /\
    message_answer h owner (mc_message_id c) = Ok m;
}.
(** What is true of a message that is admitted. *)
Record admissible h (owner : Actor) (sender : AgentMessageSender) (request : SendAgentMessage)
    (claim_stream : string) (p : ParticipantState) (sc : ScopeState) (m : AgentMessage) : Prop := {
  ad_addressed : addressed h owner sender request p;
  ad_open : is_open p = true;
  ad_sender_open : forall pid q, sender = Participant pid -> part (comm_store h) pid = Some q -> is_open q = true;
  ad_claim : comm_store h claim_stream = [];
  ad_scope : scop (comm_store h) (sha256_hex (root_of p)) = Some sc;
  ad_room : inbox_full p sc (sr_text request) = false;
  ad_reply : forall reply, sr_reply_to request = Some reply -> exists r,
    message_answer h owner reply = Ok r /\ am_root_run_id r = root_of p;
  ad_id : valid_token (am_id m) = true;
  ad_message : am_root_run_id m = root_of p /\ am_sender m = sender /\
    am_recipient_id m = sr_recipient_id request /\ am_sequence m = (pt_accepted p + 1)%N /\
    am_text m = sr_text request /\ am_reply_to m = sr_reply_to request /\ am_receipt m = Accepted;
}.
(** The commit of an admission, and its wake. *)
Definition admission_commit (inputs : Inputs) (events : list NewEvent) (m : AgentMessage)
    : cop C (option AgentMessage) := fun s =>
  match ej_append_batch inputs events s with
  | (Ok _, s') => cop_bind (stored wake) (fun _ => cop_ret (Some m)) s'
  | (Err e, s') => if is_conflict e then (Ok None, s') else (Err (Store e), s')
  end.
Definition more_ok (more : list NewEvent) : Prop :=
  Forall recordable more /\ Forall neither more /\ own_events more = [] /\ (count more <= MAX_STAGED)%N.
Definition send_outcome h inputs owner sender request claim_stream fingerprint
    (x : result CommunicationError (option AgentMessage) * C) : Prop :=
  (holds x.2 h /\ x.1 <> Ok None /\ forall m, x.1 = Ok (Some m) ->
     replayed h owner sender request claim_stream fingerprint m) \/
  exists p sc m more s', holds s' h /\ admissible h owner sender request claim_stream p sc m /\ more_ok more /\
    x = admission_commit inputs (admission_events owner claim_stream fingerprint p
          (count (comm_store h (participant_stream (am_recipient_id m)))) sc
          (count (comm_store h (root_stream (root_of p)))) (count (comm_store h (feed_stream (root_of p)))) m ++ more)%list m s'.
Lemma send_attempt_cases h inputs owner sender request additional k fingerprint s :
  additional_ok additional -> holds s h -> joint_ok h -> (count h + 1 < u64_max)%N ->
  send_outcome h inputs owner sender request ("agent-message-key:" ++s k) fingerprint
    (send_attempt inputs owner sender request additional ("agent-message-key:" ++s k) fingerprint s).
Proof.
  intros Hadd Hh Hok Hmax. unfold send_attempt. set (claim_stream := "agent-message-key:" ++s k). pose proof (comm_part h Hok) as Hc.
  set (P := send_outcome h inputs owner sender request claim_stream fingerprint).
  assert (forall e s', holds s' h -> P (Err e, s')) as Herr
    by (intros e s' Hs'; left; by split_and!).
  eapply (cbind_cases P); [by apply yields_stored, yields_participant|done|done|].
  intros [p v] s1 Hs1 [Hp Hv]. cbn [fst snd] in *. subst v.
  destruct (wf_participant _ (proj1 Hc) _ p Hp) as (Hid & _).
  eapply (cbind_cases P h _ (fun _ => ap_owner (pt_participant p) = owner)); [|done|done|].
  { apply yields_clift. intros [] Hr. by case_bool_decide. }
  intros _ s2 Hs2 Hown. eapply (cbind_cases P); [by apply send_source_yields|done|done|]. intros source s3 Hs3 Hsrc.
  assert (addressed h owner sender request p) as Hadr.
  { constructor; [done|done|]. destruct sender as [pid|]; [|done]. destruct Hsrc as (q & _ & Hq & Hqo & Hqr & Hrel).
    rewrite Hid in Hrel. by exists q. }
  eapply (cbind_cases P); [apply yields_stored, (yields_load h Hmax Hc (A:=MessageClaim)); [apply on_claim|
    apply single_typed, (wf_claims _ (proj1 Hc))]|done|done|].
  intros claim s4 Hs4 ->. unfold latest_at. destruct (typed_latest _ (single_typed _ (wf_claims _ (proj1 Hc) k))) as [He|(c & _ & Hcl & _)].
  2:{ change ("agent-message-key:" ++s k) with claim_stream in Hcl. rewrite Hcl. cbn [mbind option_bind].
    eapply (cbind_cases P h _ (fun _ => mc_fingerprint c = fingerprint)); [|done|done|].
    { apply yields_clift. intros [] Hr. by destruct (String.eqb_spec (mc_fingerprint c) fingerprint). }
    intros _ s5 Hs5 Hfp. eapply (cbind_cases P); [by apply yields_get_message|done|done|].
    intros m s6 Hs6 Hm. left. split_and!; [done|done|]. intros m' [= <-]. constructor; [by exists p|by exists c]. }
  change ("agent-message-key:" ++s k) with claim_stream in He. rewrite He. cbn [latest last mbind option_bind].
  eapply (cbind_cases P h _ (fun _ => is_open p = true /\ is_some_and source (fun q => negb (ap_open (pt_participant q))) = false));
    [|done|done|].
  { apply yields_clift. intros [] Hr. unfold is_open. destruct (ap_open (pt_participant p)); [|done].
    by destruct (is_some_and source _). }
  intros _ s5 Hs5 [Hopen Hsopen]. eapply (cbind_cases P); [by apply yields_stored, yields_scope|done|done|].
  intros [sc sv] s6 Hs6 [Hsc Hsv]. cbn [fst snd] in *. subst sv.
  eapply (cbind_cases P h _ (fun _ => inbox_full p sc (sr_text request) = false)); [|done|done|].
  { apply yields_clift. intros [] Hr. by destruct (inbox_full p sc (sr_text request)). }
  intros _ s7 Hs7 Hroom.
  eapply (cbind_cases P h _ (fun _ => forall reply, sr_reply_to request = Some reply -> exists r,
    message_answer h owner reply = Ok r /\ am_root_run_id r = root_of p)); [|done|done|].
  { destruct (sr_reply_to request) as [reply|]; [|by apply yields_cret].
    eapply yields_cbind; [by apply yields_get_message|]. intros r Hr. apply yields_clift. intros [] Hrej reply' [= <-].
    exists r. split; [done|]. by destruct (String.eqb_spec (am_root_run_id r) (ap_root_run_id (pt_participant p))). }
  intros _ s8 Hs8 Hreply. eapply (cbind_cases P); [apply yields_stored, yields_mint|done|done|]. intros minted s9 Hs9 Hmint.
  eapply (cbind_cases P); [apply yields_clift; intros a Ha; exact Ha|done|done|].
  intros accepted_at s10 Hs10 _. cbv zeta.
  set (m := mkAgentMessage _ _ _ _ _ _ _ _ _).
  eapply (cbind_cases P); [apply yields_stored, yields_version; try done; auto with comm|done|done|].
  intros feed s11 Hs11 ->.
  eapply (cbind_cases P); [apply yields_stored, Hadd; done|done|done|]. intros more s12 Hs12 Hmore.
  right. exists p, sc, m, more, s12. split; [done|]. split; [|split; [done|]].
  - constructor; try done. intros pid q -> Hq. destruct Hsrc as (q' & -> & Hq' & _). assert (q' = q) as -> by congruence.
    cbn in Hsopen. unfold is_open. by destruct (ap_open (pt_participant q)).
  - unfold admission_commit. cbn [am_recipient_id m]. by rewrite Hid.
Qed.
Lemma valid_text request :
  invalid_request request = false -> (1 <= slen (sr_text request) <= MAX_AGENT_MESSAGE_BYTES)%N.
Proof.
  unfold invalid_request. intros Hreq. apply orb_false_iff in Hreq as [Hreq _].
  apply orb_false_iff in Hreq as [Hreq _]. apply orb_false_iff in Hreq as [Hreq _].
  apply orb_false_iff in Hreq as [He Hm%N.ltb_ge]. split; [|done].
  destruct (sr_text request) as [|c t]; [done|]. unfold slen. simpl. lia.
Qed.
Lemma admissible_write h owner sender request k fingerprint p sc m feed :
  admissible h owner sender request ("agent-message-key:" ++s k) p sc m -> sends_as owner sender ->
  invalid_request request = false ->
  comm_write (comm_store h) (admission_events owner ("agent-message-key:" ++s k) fingerprint p
    (count (comm_store h (participant_stream (am_recipient_id m)))) sc
    (count (comm_store h (root_stream (root_of p)))) feed m).
Proof.
  intros [[Hp Ho Hsend] Hopen _ Hclaim Hsc Hroom Hreply Htok (Hroot & Hsender & Hrec & Hseq & Htext & Hrep & Hacc)] Has Hreq.
  apply cw_admit; try done; [by rewrite Hrec| | |by rewrite Htext].
  - rewrite Htext. by apply valid_text.
  - unfold sender_ok. rewrite Hsender. destruct sender as [pid|aid].
    + destruct Hsend as (q & Hq & _ & Hr & Hrel). exists q. rewrite Hrec. by split_and!.
    + rewrite Ho. by apply Has.
Qed.
Lemma commit_outcome_moves h inputs owner k fingerprint p sc m more feed s :
  holds s h -> joint_ok h -> inputs_ok inputs -> more_ok more -> (count h + ATTEMPT_SIZE + 1 < u64_max)%N ->
  comm_write (comm_store h) (admission_events owner ("agent-message-key:" ++s k) fingerprint p
    (count (comm_store h (participant_stream (am_recipient_id m)))) sc
    (count (comm_store h (root_stream (root_of p)))) feed m) ->
  joint_moves ATTEMPT_SIZE s h (admission_commit inputs (admission_events owner ("agent-message-key:" ++s k) fingerprint p
    (count (comm_store h (participant_stream (am_recipient_id m)))) sc
    (count (comm_store h (root_stream (root_of p)))) feed m ++ more)%list m s).2.
Proof.
  intros Hh Hok Hi (Hr & Hn & Ho & Hc) Hle Hw. unfold admission_commit.
  pose proof (admission_moves h inputs owner k fingerprint p sc feed m more s Hh Hok Hi Hle Hw Hr Hn Ho Hc) as Hm.
  destruct (ej_append_batch inputs _ s) as [[es|e] s']; cbn [snd] in *.
  - eapply (moves_mono _ _ (ATTEMPT_SIZE + 0)); [|lia]. eapply moves_trans; [exact Hm|].
    intros g Hg Hgok _. by apply moves_private.
  - by destruct (is_conflict e).
Qed.
Lemma send_attempt_moves h inputs owner sender request additional k fingerprint s :
  inputs_ok inputs -> additional_ok additional -> sends_as owner sender -> invalid_request request = false ->
  holds s h -> joint_ok h -> (count h + ATTEMPT_SIZE + 1 < u64_max)%N ->
  joint_moves ATTEMPT_SIZE s h
    (send_attempt inputs owner sender request additional ("agent-message-key:" ++s k) fingerprint s).2.
Proof.
  intros Hi Hadd Has Hreq Hh Hok Hle.
  destruct (send_attempt_cases h inputs owner sender request additional k fingerprint s Hadd Hh Hok ltac:(lia))
    as [(Hs & _)|(p & sc & m & more & s' & Hs' & Had & Hmore & ->)]; [by apply moves_private|].
  eapply (moves_mono _ _ (0 + ATTEMPT_SIZE)); [|lia]. eapply moves_trans; [by apply (moves_private _ _ 0 s h s')|].
  intros g Hg _ _. rewrite (holds_unique _ _ _ Hg Hs').
  apply commit_outcome_moves; try done. by eapply admissible_write.
Qed.
Lemma send_attempts_moves inputs owner sender request additional k fingerprint attempts : forall n h s,
  (forall n, inputs_ok (inputs n)) -> additional_ok additional -> sends_as owner sender -> invalid_request request = false ->
  holds s h -> joint_ok h -> (count h + N.of_nat attempts * ATTEMPT_SIZE + 1 < u64_max)%N ->
  joint_moves (N.of_nat attempts * ATTEMPT_SIZE) s h
    (send_attempts attempts n inputs owner sender request additional ("agent-message-key:" ++s k) fingerprint s).2.
Proof.
  induction attempts as [|attempts IH]; intros n h s Hi Hadd Has Hreq Hh Hok Hle; [by apply moves_private|].
  cbn [send_attempts]. unfold ATTEMPT_SIZE, MAX_STAGED in *.
  pose proof (send_attempt_moves h (inputs n) owner sender request additional k fingerprint s (Hi n) Hadd Has Hreq Hh Hok
    ltac:(unfold ATTEMPT_SIZE, MAX_STAGED; lia)) as Hm. unfold ATTEMPT_SIZE, MAX_STAGED in Hm.
  eapply (moves_mono _ _ (1000 + 6 + N.of_nat attempts * (1000 + 6))); [|lia].
  unfold cop_bind. destruct (send_attempt _ _ _ _ _ _ _ s) as [[[m|]|e] s']; cbn [snd] in *;
    [eapply moves_mono; [exact Hm|lia]| |eapply moves_mono; [exact Hm|lia]].
  eapply moves_trans; [exact Hm|]. intros g Hg Hgok Hgle. apply IH; try done. rewrite count_app. lia.
Qed.
Lemma send_moves inputs owner sender request additional h s :
  (forall n, inputs_ok (inputs n)) -> additional_ok additional -> sends_as owner sender ->
  holds s h -> joint_ok h -> (count h + SEND_SIZE + 1 < u64_max)%N ->
  joint_moves SEND_SIZE s h (send inputs owner sender request additional s).2.
Proof.
  intros Hi Hadd Has Hh Hok Hle. unfold send, refuse.
  destruct (invalid_request request) eqn:Hreq; [by apply moves_private|]. unfold cop_bind, cop_lift. cbn [reject].
  unfold claim_stream_of. destruct (serialised (sender_to_vec owner sender)) as [b|e]; [|by apply moves_private].
  cbn [mbind result_bind]. destruct (serialised (claim_to_vec b (sr_idempotency_key request))) as [c|e]; [|by apply moves_private].
  cbn [mbind result_bind]. destruct (serialised (request_to_vec request)) as [f|e]; [|by apply moves_private].
  by apply (send_attempts_moves inputs owner sender request additional (sha256_hex c) (sha256_hex f) 8 0).
Qed.
Lemma nothing_added : additional_ok (fun _ => op_ret []).
Proof. intros m h _ _. apply yields_ret. split_and!; [apply Forall_nil_2..|done|done]. Qed.
Lemma participant_of_context_yields h context :
  (count h + 1 < u64_max)%N -> comm_ok h -> yields (J:=J) h (participant_of_context context) (fun p =>
    exists run_id v, ctx_run_id context = Some run_id /\ run_part h run_id = Some (p, v) /\
      ctx_session_id context = Some (ap_session_id (pt_participant p))).
Proof.
  intros Hmax Hok. unfold participant_of_context.
  eapply yields_cbind; [apply yields_clift; intros a Ha; exact Ha|]. intros run_id Hr.
  eapply yields_cbind; [by apply yields_stored, yields_participant_for_run|]. intros found ->.
  eapply yields_cbind; [apply yields_clift; intros a Ha; exact Ha|]. intros [p v] Hp. cbn [fst].
  destruct (run_part h run_id) as [[p' v']|] eqn:Hrun; [|done]. injection Hp as -> ->.
  apply yields_refuse. intros Hs%negb_false_iff%bool_decide_eq_true. apply yields_cret. exists run_id, v.
  destruct (ctx_run_id context); [|done]. injection Hr as ->. by split_and!.
Qed.
End Moves.
