(* ===== verification/CommunicationCorrect.v ===== *)
(** * What the communication service promises

    Every operation is a run of the joint system.  A message is sent once however often the
    caller asks; what an inbox lists is what was admitted, in order; a completed or closed
    attempt has nothing pending; an inclusion is in the session and in the receipts, or in
    neither. *)

From stdpp Require Import relations.
From S2P Require Import Prelude Json Contracts Boundary Platform JournalStore Journal Store.
From S2P Require Import SessionContracts WorkContracts Session Work WorkService Communication JournalModel JournalAppend.
From S2P Require Import StoreSpec ProjectionView StoreCorrect Interleaving SessionModel SessionCorrect.
From S2P Require Import SessionOps SessionSafety SessionOutcomes Aggregates WorkModel WorkSafety CommunicationModel CommunicationStep.
From S2P Require Import CommunicationSettle CommunicationSafety CommunicationReads Composition WorkServiceCorrect CommunicationPort CommunicationOps.
From Stdlib Require Import FunctionalExtensionality.

Open Scope string_scope.
Open Scope op_scope.

Section Refinement.
Context `{SessionCodec} `{!SessionCodecOk} `{WorkCodecsOk} `{Externals} `{CommunicationCodecsOk} `{!CommunicationCodec}.
Context {J} `{EventJournalOk J}.
#[local] Abbreviation C := (CommunicationService J).
#[local] Abbreviation joint_moves := (moves (J:=C) joint_batch joint_ok).
Implicit Types (s : C) (h : history).

(** The operations that write. *)
Inductive CommunicationAction :=
| CaRegisterRoot (context : ExecutionContext) (owner : Actor)
| CaBeginRun (context : ExecutionContext) (owner : Actor) (control : RunControl)
| CaInclude (batch : AgentInboxBatch) (context : ExecutionContext) (turn : N) (request_hash : string)
| CaTryComplete (context : ExecutionContext)
| CaCloseRun (run_id : string) (reason : AgentMessageFailure)
| CaRecover (fuel : nat)
| CaSendFromRun (context : ExecutionContext) (request : SendAgentMessage)
| CaSendFromApplication (owner : Actor) (request : SendAgentMessage)
    (additional : AgentMessage -> op C (list NewEvent)).
Definition run_communication (inputs : nat -> nat -> Inputs) (a : CommunicationAction) (s : C) : C :=
  match a with
  | CaRegisterRoot context owner => (register_root (inputs 0 0) (inputs 0 1) context owner s).2
  | CaBeginRun context owner control => (begin_run (inputs 0 0) (inputs 0 1) context owner control s).2
  | CaInclude batch context turn hash => (include (inputs 0 0) batch context turn hash s).2
  | CaTryComplete context => (try_complete (inputs 0) context s).2
  | CaCloseRun run_id reason => (close_run (inputs 0) run_id reason s).2
  | CaRecover fuel => (recover fuel inputs s).2
  | CaSendFromRun context request => (send_from_run (inputs 0) context request s).2
  | CaSendFromApplication owner request additional =>
      (send_from_application_with_events (inputs 0) owner request additional s).2
  end.
(** A turn is a number of its machine type; events that a caller adds are of other
    streams. *)
Definition communication_fit (a : CommunicationAction) : Prop :=
  match a with
  | CaInclude _ _ turn _ => (turn <= 65535)%N
  | CaSendFromApplication _ _ additional => additional_ok additional
  | _ => True
  end.

Lemma communication_moves inputs a h s :
  peer_input_ok -> (forall k n, inputs_ok (inputs k n)) -> communication_fit a ->
  holds s h -> joint_ok h -> (count h + RECOVER_SIZE + 1 < u64_max)%N ->
  joint_moves RECOVER_SIZE s h (run_communication inputs a s).
Proof.
  intros Hpeer Hi Hfit Hh Hok Hle.
  assert (REGISTER_SIZE <= RECOVER_SIZE /\ INCLUDE_SIZE <= RECOVER_SIZE /\ CLOSE_SIZE <= RECOVER_SIZE /\
    SEND_SIZE <= RECOVER_SIZE)%N as (Hr & Hin & Hcl & Hse) by (by vm_compute).
  destruct a; cbn [run_communication communication_fit] in *.
  - eapply moves_mono; [apply register_root_moves|exact Hr]; try done. lia.
  - eapply moves_mono; [apply begin_run_moves|exact Hr]; try done. lia.
  - eapply moves_mono; [apply include_moves|exact Hin]; try done. lia.
  - eapply moves_mono; [apply try_complete_moves|exact Hcl]; try done. lia.
  - eapply moves_mono; [apply close_run_moves|exact Hcl]; try done. lia.
  - by apply recover_moves.
  - eapply moves_mono; [|exact Hse]. unfold send_from_run.
    eapply moves_cread; [apply participant_of_context_yields; [lia|by apply comm_part]|done|done|].
    intros p s' Hs' _. apply send_moves; try done; [apply nothing_added|lia].
  - eapply moves_mono; [|exact Hse]. unfold send_from_application_with_events, refuse.
    destruct (negb _); [by apply moves_private|]. apply send_moves; try done; [|lia]. by intros id [= <-].
Qed.

(** C15. Every operation of the communication service - registering and binding an
    execution, admitting a message with up to eight attempts, including a batch in a turn of
    a session, completing, closing and recovering - is a run of the joint system, so it
    keeps every inbox, receipt, scope and attempt consistent, every session a conversation
    and every work item a run of its kind. *)
Theorem communication_refines inputs a h s batches :
  peer_input_ok -> (forall k n, inputs_ok (inputs k n)) -> communication_fit a ->
  holds s h -> joint_ok h -> (count h + RECOVER_SIZE + 1 < u64_max)%N ->
  (exists batches', rtc joint_step (s, batches) (run_communication inputs a s, batches')) /\
  exists g, holds (run_communication inputs a s) (h ++ g) /\ joint_ok (h ++ g).
Proof.
  intros Hpeer Hi Hfit Hh Hok Hle.
  destruct (communication_moves inputs a h s Hpeer Hi Hfit Hh Hok Hle) as [Hr (g & Hg & Hgok & _)].
  split; [apply Hr|by exists g].
Qed.
End Refinement.

(** ** What a later history keeps *)

Section Later.
Context `{Externals} `{CommunicationCodecsOk}.
Context (h g : history) (Hok1 : comm_ok h) (Hok2 : comm_ok (h ++ g)).
#[local] Abbreviation σ := (comm_store h).
#[local] Abbreviation σ' := (comm_store (h ++ g)).

Lemma with_own_receipt m : m = with_receipt (am_receipt m) m.
Proof. by destruct m. Qed.
(** A message's content is as it was; so is a receipt that is not of the admission. *)
Lemma message_later id m :
  mess σ id = Some m -> exists m', mess σ' id = Some m' /\ m' = with_receipt (am_receipt m') m /\
    (am_receipt m <> Accepted -> m' = m).
Proof.
  intros Hm. destruct (store_extends h g (message_stream id)) as [l Hl].
  assert (forall m m' : AgentMessage, mess σ id = Some m -> latest (A:=AgentMessage) (σ (message_stream id)) = Some m' -> m = m') as Hu
    by (intros m1 m2 H1' H2'; unfold mess in H1'; congruence).
  destruct (wf_messages σ' (proj1 Hok2) id) as [He|(m0 & Ha0 & Hf0 & Hrun)].
  { unfold mess in Hm. rewrite He in Hl. destruct (σ (message_stream id)); [done|discriminate Hl]. }
  assert (latest (A:=AgentMessage) [record_to_value m0] = Some m0) as Hl0 by (by apply (latest_snoc [])).
  assert (forall r, receipt_fit r -> latest (A:=AgentMessage) [record_to_value m0; record_to_value (with_receipt r m0)]
    = Some (with_receipt r m0)) as Hl1.
  { intros r Hr. apply (latest_snoc [record_to_value m0]). split; [apply Hf0|done]. }
  destruct (σ (message_stream id)) as [|v1 vs1] eqn:Hs; [by unfold mess in Hm; rewrite Hs in Hm|].
  destruct Hrun as [Hrun|(r & Hr & Hrf & Hrun)]; rewrite Hrun in Hl.
  - injection Hl as <- Hl. symmetry in Hl. apply app_eq_nil in Hl as [-> ->].
    assert (m = m0) as -> by (by apply Hu; [|rewrite Hl0]). exists m0.
    split_and!; [unfold mess; by rewrite Hrun|apply with_own_receipt|done].
  - injection Hl as <- Hl. destruct vs1 as [|v2 vs2]; [|injection Hl as <- Hl].
    + assert (m = m0) as -> by (by apply Hu; [|rewrite Hl0]).
      exists (with_receipt r m0). split_and!; [unfold mess; rewrite Hrun; by apply Hl1|done|done].
    + symmetry in Hl. apply app_eq_nil in Hl as [-> ->].
      assert (m = with_receipt r m0) as -> by (apply Hu; [done|by apply Hl1]).
      exists (with_receipt r m0). split_and!; [unfold mess; rewrite Hrun; by apply Hl1|done|done].
Qed.
Lemma participant_later id p : part σ id = Some p -> exists p', part σ' id = Some p' /\ evolves p p'.
Proof. apply (part_still σ σ' (proj1 Hok2) (store_extends h g)). Qed.
Lemma claim_later k c :
  latest (A:=MessageClaim) (σ ("agent-message-key:" ++s k)) = Some c ->
  latest (A:=MessageClaim) (σ' ("agent-message-key:" ++s k)) = Some c.
Proof. apply (single_later _ _ c (store_extends h g _) (wf_claims σ' (proj1 Hok2) k)). Qed.
Lemma answer_later owner id m :
  message_answer h owner id = Ok m ->
  exists m', message_answer (h ++ g) owner id = Ok m' /\ m' = with_receipt (am_receipt m') m.
Proof.
  intros Hm. pose proof (message_answer_some h owner id m Hm) as Hmess.
  destruct (message_later id m Hmess) as (m' & Hm' & He & _). exists m'. split; [|done].
  destruct (message_scope h Hok1 id m Hmess) as (_ & p & sc & Hp & _ & Hsc & _ & Hown & _).
  destruct (message_scope (h ++ g) Hok2 id m' Hm') as (_ & p' & sc' & Hp' & _ & Hsc' & _ & Hown' & _).
  assert (am_recipient_id m' = am_recipient_id m) as Hrec by (by rewrite He).
  destruct (participant_later _ p Hp) as (q & Hq & Hev). rewrite Hrec in Hp'. assert (q = p') as -> by congruence.
  apply evolves_owner in Hev. unfold message_answer in Hm |- *. destruct (valid_token id); [|done]. cbn [negb] in *.
  rewrite Hmess, Hsc in Hm. rewrite Hm', Hsc'. case_bool_decide as Ho; [|done].
  rewrite bool_decide_eq_true_2 by congruence. done.
Qed.
Lemma addressed_later owner sender request p :
  addressed h owner sender request p -> exists p', addressed (h ++ g) owner sender request p'.
Proof.
  intros [Hp Ho Hs]. destruct (participant_later _ p Hp) as (p' & Hp' & He). exists p'. constructor; [done| |].
  - by rewrite (evolves_owner _ _ He).
  - destruct sender as [pid|]; [|done]. destruct Hs as (q & Hq & Hqo & Hqr & Hrel).
    destruct (participant_later _ q Hq) as (q' & Hq' & Heq). exists q'.
    by rewrite (evolves_owner _ _ Heq), (evolves_root _ _ Heq), (evolves_root _ _ He), (evolves_parent _ _ He),
      (evolves_parent _ _ Heq).
Qed.
End Later.

(** ** Sending again *)

Section Once.
Context `{SessionCodec} `{!SessionCodecOk} `{WorkCodecsOk} `{Externals} `{CommunicationCodecsOk} `{!CommunicationCodec}.
Context {J} `{EventJournalOk J}.
#[local] Abbreviation C := (CommunicationService J).
Implicit Types (s : C) (h : history).

(** An admission that is committed is a claim of its message. *)
Lemma admitted_replays h inputs owner sender request k fingerprint p sc m more feed es :
  (count h + 1 < u64_max)%N -> joint_ok h -> admissible h owner sender request ("agent-message-key:" ++s k) p sc m ->
  sends_as owner sender -> invalid_request request = false -> own_events more = [] ->
  let batch := (admission_events owner ("agent-message-key:" ++s k) fingerprint p
    (count (comm_store h (participant_stream (am_recipient_id m)))) sc
    (count (comm_store h (root_stream (root_of p)))) feed m ++ more)%list in
  batch_committed h inputs batch es -> comm_ok (h ++ entries batch es) ->
  replayed (h ++ entries batch es) owner sender request ("agent-message-key:" ++s k) fingerprint m.
Proof.
  intros Hmax Hok Had Has Hreq Hmore batch Hb Hok'. pose proof (comm_part h Hok) as Hc.
  pose proof (admissible_write h owner sender request k fingerprint p sc m feed Had Has Hreq) as Hw.
  assert (own_events batch = admission_events owner ("agent-message-key:" ++s k) fingerprint p
    (count (comm_store h (participant_stream (am_recipient_id m)))) sc
    (count (comm_store h (root_stream (root_of p)))) feed m) as Hown.
  { unfold batch. pose proof (own_filter _ (comm_write_own (comm_store h) (proj1 Hc)
      (fun st => store_max h st Hmax) _ Hw)) as Hf. unfold own_events in *.
    by rewrite List.filter_app, Hmore, app_nil_r. }
  pose proof (commit_store inputs h batch es Hb) as Hst. rewrite Hown in Hst.
  destruct Had as [Hadr Hopen _ Hclaim Hsc Hroom _ Hid (Hroot & Hsender & Hrec & Hseq & Htext & Hrep & Hacc)].
  destruct (addressed_later h _ Hok' owner sender request p Hadr) as [p' Hadr'].
  assert (message_fit m) as Hfit.
  { apply (admit_fits (comm_store h) (am_recipient_id m) p sc m (proj1 Hc)); try done;
      [rewrite Hrec; apply Hadr|rewrite Htext; by apply valid_text|by rewrite Htext]. }
  assert (mess (comm_store (h ++ entries batch es)) (am_id m) = Some m) as Hm.
  { rewrite Hst. unfold mess, admission_events. streams. rewrite String.eqb_refl. by apply latest_snoc. }
  constructor; [by exists p'|]. exists (mkMessageClaim fingerprint (am_id m)). split_and!; [|done|].
  - rewrite Hst. unfold admission_events. streams. rewrite String.eqb_refl, Hclaim.
    by apply (latest_snoc (fit := fun _ => True) []).
  - cbn [mc_message_id]. unfold message_answer. rewrite Hid, Hm. cbn [negb].
    destruct (message_scope _ Hok' _ _ Hm) as (_ & q & sc' & Hq & _ & -> & _ & Ho & _).
    rewrite bool_decide_eq_true_2; [done|]. destruct Hadr' as [Hp' Hpo _]. rewrite Hrec in Hq. congruence.
Qed.

Lemma attempt_replays h s inputs owner sender request additional k fingerprint m :
  holds s h -> (count h + 1 < u64_max)%N -> comm_ok h ->
  replayed h owner sender request ("agent-message-key:" ++s k) fingerprint m ->
  send_attempt inputs owner sender request additional ("agent-message-key:" ++s k) fingerprint s = (Ok (Some m), s).
Proof.
  intros Hh Hmax Hok [[p [Hp Ho Hs]] (c & Hc & Hf & Hm)].
  unfold send_attempt, cop_bind, stored, refuse, cop_lift. rewrite (participant_is h Hmax Hok _ s Hh), Hp. cbn [map_err fst snd].
  rewrite bool_decide_eq_true_2 by done. cbn [negb reject].
  destruct (wf_participant _ (proj1 Hok) _ p Hp) as (Hid & _).
  assert (exists source, send_source owner sender p s = (Ok source, s)) as [source ->].
  { destruct sender as [pid|aid]; [|by eexists]. destruct Hs as (q & Hq & Hqo & Hqr & Hrel).
    unfold send_source, cop_bind, stored, refuse, cop_lift. rewrite (participant_is h Hmax Hok _ s Hh), Hq. cbn [map_err fst snd].
    rewrite bool_decide_eq_true_2 by done. unfold root_of in Hqr. rewrite Hqr, String.eqb_refl. rewrite Hid.
    assert (bool_decide (ap_parent_id (pt_participant p) = Some pid) ||
      bool_decide (ap_parent_id (pt_participant q) = Some (sr_recipient_id request)) = true) as ->; [|by eexists].
    destruct Hrel as [Hrel|Hrel]; [by rewrite bool_decide_eq_true_2|].
    by rewrite (bool_decide_eq_true_2 _ Hrel), orb_true_r. }
  rewrite (load_is h Hmax Hok (A:=MessageClaim) ("agent-message-key:" ++s k) s Hh (on_claim k)
    (single_typed _ (wf_claims _ (proj1 Hok) k))).
  unfold latest_at. rewrite Hc. cbn [mbind option_bind map_err]. rewrite Hf, String.eqb_refl. cbn [negb reject].
  by rewrite (get_message_is h Hmax Hok _ _ s Hh), Hm.
Qed.
(** Another request under the same key. *)
Lemma attempt_conflicts h s inputs owner sender request additional k fingerprint c :
  holds s h -> (count h + 1 < u64_max)%N -> comm_ok h ->
  latest (A:=MessageClaim) (comm_store h ("agent-message-key:" ++s k)) = Some c -> mc_fingerprint c <> fingerprint ->
  exists e, send_attempt inputs owner sender request additional ("agent-message-key:" ++s k) fingerprint s = (Err e, s).
Proof.
  intros Hh Hmax Hok Hc Hf.
  unfold send_attempt, cop_bind, stored, refuse, cop_lift. rewrite (participant_is h Hmax Hok _ s Hh).
  destruct (part (comm_store h) (sr_recipient_id request)) as [p|]; [|by eexists]. cbn [map_err fst snd].
  destruct (bool_decide _); [|by eexists]. cbn [negb reject].
  assert ((send_source owner sender p s).2 = s) as Hsrc.
  { destruct sender as [pid|aid]; [|done]. unfold send_source, cop_bind, stored, refuse, cop_lift.
    rewrite (participant_is h Hmax Hok _ s Hh). destruct (part _ pid) as [q|]; [|done]. cbn [map_err fst snd].
    by destruct (_ || _). }
  destruct (send_source owner sender p s) as [[source|e] s']; cbn [snd] in Hsrc; subst s'; [|by eexists].
  rewrite (load_is h Hmax Hok (A:=MessageClaim) ("agent-message-key:" ++s k) s Hh (on_claim k)
    (single_typed _ (wf_claims _ (proj1 Hok) k))).
  unfold latest_at. rewrite Hc. cbn [mbind option_bind map_err]. rewrite (proj2 (String.eqb_neq _ _) Hf). by eexists.
Qed.

Lemma send_attempts_ok inputs owner sender request additional k fingerprint attempts : forall n h s m s1,
  (forall n, inputs_ok (inputs n)) -> additional_ok additional -> sends_as owner sender -> invalid_request request = false ->
  holds s h -> joint_ok h -> (count h + N.of_nat attempts * ATTEMPT_SIZE + 1 < u64_max)%N ->
  send_attempts attempts n inputs owner sender request additional ("agent-message-key:" ++s k) fingerprint s = (Ok m, s1) ->
  exists g, holds s1 (h ++ g) /\ joint_ok (h ++ g) /\
    replayed (h ++ g) owner sender request ("agent-message-key:" ++s k) fingerprint m.
Proof.
  induction attempts as [|attempts IH]; intros n h s m s1 Hi Hadd Has Hreq Hh Hok Hle Hx; [done|].
  cbn [send_attempts] in Hx. unfold cop_bind in Hx.
  assert (count h + ATTEMPT_SIZE + 1 < u64_max)%N as Hroom by (unfold ATTEMPT_SIZE, MAX_STAGED in *; lia).
  destruct (send_attempt_moves h (inputs n) owner sender request additional k fingerprint s (Hi n) Hadd Has Hreq Hh Hok Hroom)
    as [_ (g & Hg & Hgok & Hgle)].
  destruct (send_attempt_cases h (inputs n) owner sender request additional k fingerprint s Hadd Hh Hok ltac:(lia))
    as [(Hs' & Hnone & Hrep)|(p & sc & m' & more & s' & Hs' & Had & Hmore & He)].
  - destruct (send_attempt _ _ _ _ _ _ _ s) as [[[m0|]|e] s0]; cbn [fst snd] in *; [|done..].
    injection Hx as -> ->. exists []. rewrite app_nil_r. by split_and!; [| |apply Hrep].
  - destruct (send_attempt _ _ _ _ _ _ _ s) as [[[m0|]|e] s0] eqn:Hs0; cbn [fst snd] in *; [|clear He|done].
    + injection Hx as -> ->. unfold admission_commit in He.
      pose proof (admissible_write h owner sender request k fingerprint p sc m'
        (count (comm_store h (feed_stream (root_of p)))) Had Has Hreq) as Hw.
      destruct Hmore as (Hmr & Hmn & Hmo & Hmc). match type of He with context [ej_append_batch ?i ?b ?s] => set (batch := b) in * end.
      assert (staged_write h (admission_events owner ("agent-message-key:" ++s k) fingerprint p
        (count (comm_store h (participant_stream (am_recipient_id m')))) sc
        (count (comm_store h (root_stream (root_of p)))) (count (comm_store h (feed_stream (root_of p)))) m')) as Hst
        by (split; [by right|done]).
      destruct (staged_write_for h _ ltac:(lia) (comm_part h Hok) Hst) as (Hrb & _ & _).
      assert (Forall recordable batch) as Hrec by (by apply Forall_app).
      assert (count batch <= ATTEMPT_SIZE)%N as Hcb
        by (unfold batch, count, ATTEMPT_SIZE in *; rewrite length_app; cbn [admission_events length]; lia).
      pose proof (ej_append_batch_ok s' h (inputs n) batch Hs' Hrec (Hi n) ltac:(lia)) as Ha.
      destruct (ej_append_batch (inputs n) batch s') as [[es|e] s2]; [|by destruct (is_conflict e)].
      cbn in He. injection He as -> ->. destruct Ha as [Hb Hh2].
      assert (holds (mkCommunicationService (cs_journal s2) (cs_controls s2) (cs_cancelled s2)
        ((cs_changed s2 + 1) mod 18446744073709551616) (cs_supply s2) (cs_taken s2)) (h ++ entries batch es)) as Hh3 by exact Hh2.
      pose proof (holds_unique _ _ _ Hg Hh3) as Heq. rewrite Heq in Hgok.
      exists (entries batch es). split_and!; [done|done|]. eapply admitted_replays; try done; [lia|by apply comm_part].
    + destruct (IH (S n) (h ++ g)%list s0 m s1 Hi Hadd Has Hreq Hg Hgok) as (g' & Hg' & Hgok' & Hr); [|done|].
      * rewrite count_app. unfold ATTEMPT_SIZE, MAX_STAGED in *. lia.
      * exists (g ++ g')%list. by rewrite app_assoc.
Qed.

(** The fingerprint of a request. *)
Definition fingerprint_of (request : SendAgentMessage) : result CommunicationError string :=
  r ← serialised (request_to_vec request); Ok (sha256_hex r).
(** The parts of [send]. *)
Lemma send_is inputs owner sender request additional s :
  send inputs owner sender request additional s
  = match reject (invalid_request request) Invalid with
    | Err e => (Err e, s)
    | Ok _ => match claim_stream_of owner sender (sr_idempotency_key request) with
              | Err e => (Err e, s)
              | Ok claim_stream => match fingerprint_of request with
                                   | Err e => (Err e, s)
                                   | Ok fingerprint => send_attempts COMMIT_ATTEMPTS 0 inputs owner sender request
                                       additional claim_stream fingerprint s
                                   end
              end
    end.
Proof.
  unfold send, refuse, cop_bind, cop_lift. destruct (reject _ Invalid); [|done].
  destruct (claim_stream_of owner sender _); [|done]. unfold fingerprint_of.
  by destruct (serialised (request_to_vec request)).
Qed.
Lemma claim_stream_form owner sender key stream :
  claim_stream_of owner sender key = Ok stream -> exists k, stream = "agent-message-key:" ++s k.
Proof.
  unfold claim_stream_of. destruct (serialised (sender_to_vec owner sender)) as [b|]; [|done]. cbn [mbind result_bind].
  destruct (serialised (claim_to_vec b key)) as [c|]; [|done]. cbn [mbind result_bind]. intros [= <-]. by eexists.
Qed.

(** C16. A message is sent once. After a send that answered with a message, and
    whatever else has run since, the same request under the same idempotency key answers with
    that message as it is now - the same content, perhaps with its receipt - and writes
    nothing; another request under the key is refused, and writes nothing. *)
Theorem send_once inputs inputs' owner sender request additional additional' h h1 g s s1 s2 m :
  (forall n, inputs_ok (inputs n)) -> additional_ok additional -> sends_as owner sender ->
  holds s h -> joint_ok h -> (count h + SEND_SIZE + 1 < u64_max)%N ->
  send inputs owner sender request additional s = (Ok m, s1) -> holds s1 h1 ->
  holds s2 (h1 ++ g) -> joint_ok (h1 ++ g) -> (count (h1 ++ g)%list + 1 < u64_max)%N ->
  (exists m', send inputs' owner sender request additional' s2 = (Ok m', s2) /\
     m' = with_receipt (am_receipt m') m) /\
  forall request', sr_idempotency_key request' = sr_idempotency_key request ->
    fingerprint_of request' <> fingerprint_of request ->
    exists e, send inputs' owner sender request' additional' s2 = (Err e, s2).
Proof.
  intros Hi Hadd Has Hh Hok Hle Hx Hh1 Hh2 Hok2 Hmax. rewrite send_is in Hx.
  destruct (invalid_request request) eqn:Hreq; [done|]. cbn [reject] in Hx.
  destruct (claim_stream_of owner sender (sr_idempotency_key request)) as [cs|] eqn:Hcs; [|done].
  destruct (claim_stream_form _ _ _ _ Hcs) as [k ->].
  destruct (fingerprint_of request) as [fp|] eqn:Hfp; [|done].
  destruct (send_attempts_ok inputs owner sender request additional k fp 8 0 h s m s1 Hi Hadd Has Hreq Hh Hok Hle Hx)
    as (g1 & Hg1 & Hgok1 & [[p Hadr] (c & Hc & Hf & Hm)]).
  pose proof (holds_unique _ _ _ Hg1 Hh1) as Heq. rewrite Heq in Hgok1, Hadr, Hc, Hm.
  pose proof (comm_part _ Hgok1) as Hc1. pose proof (comm_part _ Hok2) as Hc2.
  destruct (addressed_later h1 g Hc2 _ _ _ _ Hadr) as [p' Hadr'].
  destruct (answer_later h1 g Hc1 Hc2 _ _ _ Hm) as (m' & Hm' & He).
  pose proof (claim_later h1 g Hc2 k c Hc) as Hc'. split.
  - exists m'. split; [|done]. rewrite send_is, Hreq. cbn [reject]. rewrite Hcs, Hfp.
    unfold COMMIT_ATTEMPTS. cbn [send_attempts]. unfold cop_bind at 1.
    rewrite (attempt_replays (h1 ++ g) s2 (inputs' 0) owner sender request additional' k fp m'); try done.
    constructor; [by exists p'|by exists c].
  - intros request' Hkey Hne. rewrite send_is, Hkey, Hcs.
    destruct (reject (invalid_request request') Invalid) as [[]|e]; [|by eexists].
    destruct (fingerprint_of request') as [fp'|e] eqn:Hfp'; [|by eexists].
    unfold COMMIT_ATTEMPTS. cbn [send_attempts]. unfold cop_bind at 1.
    destruct (attempt_conflicts (h1 ++ g) s2 (inputs' 0) owner sender request' additional' k fp' c) as [e ->]; try done;
      [congruence|by eexists].
Qed.
End Once.

(** * Closing an attempt

    A completed or closed attempt has nothing pending: its inbox is empty for good, and
    every message that was waiting has its receipt.  Completing never turns a waiting message
    away; closing gives the reason. *)

Section Closing.
Context `{SessionCodec} `{!SessionCodecOk} `{WorkCodecsOk} `{Externals} `{CommunicationCodecsOk} `{!CommunicationCodec}.
Context {J} `{EventJournalOk J}.
#[local] Abbreviation C := (CommunicationService J).
Implicit Types (s : C) (h : history).

(** The attempt [id] is closed for the reason, if it was open, and what was pending is
    not delivered; all else is as it was. *)
Definition closed_from reason id (σ σ' : store) : Prop := exists p,
  part σ id = Some p /\ part σ' id = Some (if is_open p then closed reason p else p) /\
  (forall other, other <> id -> part σ' other = part σ other) /\
  forall mid m, mess σ mid = Some m ->
    mess σ' mid = Some (if is_open p && bool_decide (mid ∈ pending_ids p)
                        then with_receipt (NotDelivered reason) m else m).
Lemma closed_from_trans reason id σ σ1 σ2 :
  closed_from reason id σ σ1 -> closed_from reason id σ1 σ2 -> closed_from reason id σ σ2.
Proof.
  intros (p & Hp & Hp1 & Hk & Hm) (q & Hq & Hq1 & Hk1 & Hm1). exists p. split; [done|].
  assert (q = if is_open p then closed reason p else p) as -> by congruence.
  assert (is_open (if is_open p then closed reason p else p) = false) as Hc by (by destruct (is_open p) eqn:Ho).
  rewrite Hc in Hq1, Hm1. split; [done|]. split; [intros other Hne; by rewrite Hk1, Hk|].
  intros mid m Hmid. rewrite (Hm1 mid _ (Hm mid m Hmid)). done.
Qed.
Lemma closed_from_closed reason id σ p : part σ id = Some p -> is_open p = false -> closed_from reason id σ σ.
Proof. intros Hp Ho. exists p. rewrite Ho. by split_and!. Qed.

Lemma closing_commits h inputs id reason events es :
  (count h + 1 < u64_max)%N -> comm_ok h -> closes_by h id reason events ->
  batch_committed h inputs events es ->
  closed_from reason id (comm_store h) (comm_store (h ++ entries events es)).
Proof.
  intros Hmax Hok Hcl Hb. pose proof (closes_staged h Hmax Hok id reason events Hcl) as Hst.
  pose proof (written_own_events h events Hmax Hok Hst) as Hown.
  rewrite (commit_store inputs h events es Hb), own_filter by done.
  destruct Hcl as (p & Hp & Hev). destruct (is_open p) eqn:Ho.
  - destruct Hev as (sc & ms & context & feed & -> & Hsc & Hroot & Hms).
    pose proof (settled_closed reason p) as Hto. exists p. rewrite Ho. split; [done|]. split; [|split].
    + unfold part, closing. rewrite settle_participants, String.eqb_refl. apply latest_snoc.
      by apply (settle_fits (comm_store h) id p (closed reason p) sc (length (pt_pending p)) (proj1 Hok)).
    + intros other Hne. unfold part, closing. by rewrite settle_participants, eqb_ne, app_nil_r.
    + intros mid m Hmid. cbn [andb].
      destruct (settle_messages (comm_store h) id p (length (pt_pending p)) ms (proj1 Hok) Hp Hms) as [Hids Hall].
      rewrite take_ge in Hids by (unfold pending_ids; by rewrite length_fmap). rewrite <- Hids. case_bool_decide as Hin.
      * apply list_elem_of_fmap in Hin as (m' & -> & Hin). rewrite Forall_forall in Hall.
        destruct (Hall m' Hin) as (Hm' & _). assert (m' = m) as -> by congruence.
        eapply settle_mess_in; first [exact (proj1 Hok)|exact Hp|exact Hms|exact Hin|exact Hto|done].
      * rewrite <- Hmid. by eapply settle_mess_out.
  - subst events. exists p. rewrite Ho. unfold append_to, written_to. cbn [andb List.filter fmap list_fmap].
    assert ((fun st => (comm_store h st ++ [])%list) = comm_store h) as ->; [|by split_and!].
    apply functional_extensionality. intros st. apply app_nil_r.
Qed.

(** A closing batch, committed or not, and the room that is left. *)
Lemma closing_outcome h inputs id reason events s :
  closes_by h id reason events -> holds s h -> joint_ok h -> inputs_ok inputs ->
  (count h + MAX_RECEIPTS + 1 < u64_max)%N ->
  let '(r, s') := ej_append_batch inputs events s in
  exists g, holds s' (h ++ g) /\ joint_ok (h ++ g) /\ (count g <= MAX_RECEIPTS)%N /\
    match r with
    | Ok _ => closed_from reason id (comm_store h) (comm_store (h ++ g))
    | Err _ => g = [] \/ closed_from reason id (comm_store h) (comm_store (h ++ g))
    end.
Proof.
  intros Hcl Hh Hok Hi Hle. assert (count h + 1 < u64_max)%N as Hmax by lia. pose proof (comm_part h Hok) as Hc.
  pose proof (closes_staged h Hmax Hc id reason events Hcl) as Hst.
  destruct (staged_write_for h events Hmax Hc Hst) as (Hr & Hs & Hn).
  destruct (staged_moves h inputs events MAX_RECEIPTS s Hh Hok Hi Hst ltac:(done) Hle) as [_ (g & Hg & Hgok & Hgle)].
  pose proof (ej_append_batch_ok s h inputs events Hh Hr Hi ltac:(lia)) as Ha.
  destruct (ej_append_batch inputs events s) as [[es|e] s']; cbn [snd] in *.
  - destruct Ha as [Hb Hh']. pose proof (holds_unique _ _ _ Hg Hh') as Heq. rewrite Heq in Hgok.
    exists (entries events es). apply app_inv_head in Heq. rewrite Heq in Hgle.
    split_and!; [done..|by apply (closing_commits h inputs)].
  - exists g. split_and!; [done..|]. destruct Ha as [Hh'|(es & Hb & Hh')]; [left|right].
    + pose proof (holds_unique _ _ _ Hg Hh') as Heq. rewrite <- (app_nil_r h) in Heq at 2. by apply app_inv_head in Heq.
    + pose proof (holds_unique _ _ _ Hg Hh') as ->. by apply (closing_commits h inputs).
Qed.
(** The attempt an execution is, for good. *)
Definition run_is h (run_id id : string) : Prop := runs_as (comm_store h) run_id id.
Lemma run_is_later h g run_id id : comm_ok (h ++ g) -> run_is h run_id id -> run_is (h ++ g) run_id id.
Proof.
  intros Hok (i & Hi & Hid). exists i. split; [|done].
  by apply (single_later _ _ _ (store_extends h g _) (wf_runs _ (proj1 Hok) (sha256_hex run_id))).
Qed.
Lemma run_is_part h run_id id : comm_ok h -> run_is h run_id id ->
  exists p, part (comm_store h) id = Some p /\ ap_id (pt_participant p) = id /\
    run_part h run_id = Some (p, count (comm_store h (participant_stream id))).
Proof.
  intros Hok (i & Hi & <-). destruct (wf_run _ (proj1 Hok) (sha256_hex run_id) i Hi) as [p Hp]. exists p.
  unfold run_part. rewrite Hi. cbn [mbind option_bind]. rewrite Hp. split_and!; [done| |done].
  by destruct (wf_participant _ (proj1 Hok) _ p Hp).
Qed.

Section Loops.
Context (inputs : nat -> Inputs) (Hi : forall n, inputs_ok (inputs n)) (run_id id : string).
Lemma close_attempts_closes reason attempts : forall n h s s',
  holds s h -> joint_ok h -> (count h + N.of_nat attempts * MAX_RECEIPTS + 1 < u64_max)%N -> run_is h run_id id ->
  close_attempts attempts n inputs run_id reason s = (Ok tt, s') ->
  exists g, holds s' (h ++ g) /\ joint_ok (h ++ g) /\ closed_from reason id (comm_store h) (comm_store (h ++ g)) /\
    cs_controls s' !! run_id = None.
Proof.
  induction attempts as [|attempts IH]; intros n h s s' Hh Hok Hle Hrun Hx; [done|].
  cbn [close_attempts] in Hx. unfold MAX_RECEIPTS in Hle. assert (count h + 1 < u64_max)%N as Hmax by lia. pose proof (comm_part h Hok) as Hc.
  rewrite (op_bind_run _ _ _ _ _ (participant_for_run_is h Hmax Hc run_id s Hh)) in Hx.
  destruct (run_is_part h run_id id Hc Hrun) as (p & Hp & Hid & Hr). rewrite Hr, Hid in Hx. cbv iota beta in Hx.
  unfold op_bind at 1 in Hx. destruct (close_events_yields h Hmax Hc id reason s Hh) as [Hh1 Hev].
  destruct (close_events id reason s) as [[events|e] s1]; cbn [fst snd] in *; [|done].
  pose proof (closing_outcome h (inputs n) id reason events s1 (Hev events eq_refl) Hh1 Hok (Hi n) ltac:(unfold MAX_RECEIPTS; lia)) as Hout.
  destruct (ej_append_batch (inputs n) events s1) as [[es|e] s2]; destruct Hout as (g & Hg & Hgok & Hgle & Hcl).
  - cbn in Hx. injection Hx as <-. exists g. refine (conj Hg (conj Hgok (conj Hcl _))). cbn. apply lookup_delete_eq.
  - destruct (is_conflict e); [|done]. unfold MAX_RECEIPTS in Hgle.
    destruct (IH (S n) (h ++ g)%list s2 s' Hg Hgok) as (g' & Hg' & Hgok' & Hcl' & Hctl); [| |done|].
    + rewrite count_app. unfold MAX_RECEIPTS. lia.
    + apply run_is_later; [by apply comm_part|done].
    + exists (g ++ g')%list. rewrite app_assoc. split_and!; try done.
      destruct Hcl as [->|Hcl]; [by rewrite app_nil_r in Hcl' |- *|by eapply closed_from_trans].
Qed.
Lemma complete_attempts_closes attempts : forall n h s s',
  holds s h -> joint_ok h -> (count h + N.of_nat attempts * MAX_RECEIPTS + 1 < u64_max)%N -> run_is h run_id id ->
  complete_attempts attempts n inputs run_id s = (Ok true, s') ->
  exists g p, holds s' (h ++ g) /\ joint_ok (h ++ g) /\ closed_from MF_Completed id (comm_store h) (comm_store (h ++ g)) /\
    part (comm_store h) id = Some p /\ pt_pending p = [].
Proof.
  induction attempts as [|attempts IH]; intros n h s s' Hh Hok Hle Hrun Hx; [done|].
  cbn [complete_attempts] in Hx. unfold MAX_RECEIPTS in Hle. assert (count h + 1 < u64_max)%N as Hmax by lia. pose proof (comm_part h Hok) as Hc.
  rewrite (op_bind_run _ _ _ _ _ (participant_for_run_is h Hmax Hc run_id s Hh)) in Hx.
  destruct (run_is_part h run_id id Hc Hrun) as (p & Hp & Hid & Hr). rewrite Hr, Hid in Hx. cbv iota beta in Hx.
  destruct (ap_open (pt_participant p)) eqn:Ho; cbn [negb] in Hx.
  2:{ injection Hx as <-. exists [], p. rewrite app_nil_r. split_and!; try done; [by apply (closed_from_closed _ _ _ p)|].
      destruct (wf_participant _ (proj1 Hc) id p Hp) as (_ & _ & _ & _ & _ & Hcl & _). by apply Hcl. }
  destruct (bool_decide (length (pt_pending p) = 0)) eqn:Hpend; cbn [negb] in Hx; [|done].
  apply bool_decide_eq_true in Hpend. apply nil_length_inv in Hpend.
  unfold op_bind at 1 in Hx. destruct (close_events_yields h Hmax Hc id MF_Completed s Hh) as [Hh1 Hev].
  destruct (close_events id MF_Completed s) as [[events|e] s1]; cbn [fst snd] in *; [|done].
  destruct (existsb _ events).
  - destruct (IH (S n) h s1 s' Hh1 Hok ltac:(unfold MAX_RECEIPTS; lia) Hrun Hx) as (g & q & Hg & Hgok & Hcl & Hq & _).
    exists g, p. by split_and!.
  - pose proof (closing_outcome h (inputs n) id MF_Completed events s1 (Hev events eq_refl) Hh1 Hok (Hi n) ltac:(unfold MAX_RECEIPTS; lia)) as Hout.
    destruct (ej_append_batch (inputs n) events s1) as [[es|e] s2]; destruct Hout as (g & Hg & Hgok & Hgle & Hcl).
    + cbn in Hx. injection Hx as <-. exists g, p. exact (conj Hg (conj Hgok (conj Hcl (conj Hp Hpend)))).
    + destruct (is_conflict e); [|done]. unfold MAX_RECEIPTS in Hgle.
      destruct (IH (S n) (h ++ g)%list s2 s' Hg Hgok) as (g' & q & Hg' & Hgok' & Hcl' & _); [| |done|].
      * rewrite count_app. unfold MAX_RECEIPTS. lia.
      * apply run_is_later; [by apply comm_part|done].
      * exists (g ++ g')%list, p. rewrite app_assoc. split_and!; try done.
        destruct Hcl as [->|Hcl]; [by rewrite app_nil_r in Hcl' |- *|by eapply closed_from_trans].
Qed.
End Loops.

(** C18. Closing settles an inbox. When the execution of an attempt is closed, the
    attempt ends closed, for the reason given if it was open, with nothing pending; each
    message that was pending has a receipt that it was not delivered, for that reason, and no
    other message changes; the execution's control is gone. When it is completed instead,
    nothing was pending: completing turns no message away. *)
Theorem closing_settles inputs run_id id h s :
  (forall n, inputs_ok (inputs n)) -> holds s h -> joint_ok h -> (count h + CLOSE_SIZE + 1 < u64_max)%N ->
  run_is h run_id id ->
  (forall reason s', close_run inputs run_id reason s = (Ok tt, s') ->
     exists g, holds s' (h ++ g) /\ joint_ok (h ++ g) /\ closed_from reason id (comm_store h) (comm_store (h ++ g)) /\
       cs_controls s' !! run_id = None) /\
  (forall context s', ctx_run_id context = Some run_id -> try_complete inputs context s = (Ok true, s') ->
     exists g p, holds s' (h ++ g) /\ joint_ok (h ++ g) /\
       closed_from MF_Completed id (comm_store h) (comm_store (h ++ g)) /\
       part (comm_store h) id = Some p /\ pt_pending p = []).
Proof.
  intros Hi Hh Hok Hle Hrun. split.
  - intros reason s' Hx. by apply (close_attempts_closes inputs Hi run_id id reason 8 0 h s s').
  - intros context s' Hctx Hx. unfold try_complete in Hx. rewrite Hctx in Hx.
    by apply (complete_attempts_closes inputs Hi run_id id 8 0 h s s').
Qed.

(** ** Including a batch *)

Lemma inclusion_commits h inputs batch context turn request_hash run_id p sc own es :
  (count h + 1 < u64_max)%N -> comm_ok h -> (turn <= 65535)%N ->
  inclusion h batch context turn request_hash run_id p sc -> owned session_own own ->
  let r := IncludedInTurn run_id turn request_hash in
  let events := (own ++ inclusion_events h (ib_participant_id batch) p sc (ib_messages batch) r context)%list in
  batch_committed h inputs events es ->
  (exists p', part (comm_store (h ++ entries events es)) (ib_participant_id batch) = Some p' /\
     pending_ids p = ((am_id <$> ib_messages batch) ++ pending_ids p')%list) /\
  forall mid m, mess (comm_store h) mid = Some m ->
    mess (comm_store (h ++ entries events es)) mid
    = Some (if bool_decide (mid ∈ am_id <$> ib_messages batch) then with_receipt r m else m).
Proof.
  intros Hmax Hok Hturn Hin Hown r events Hb.
  destruct (inclusion_settles _ _ _ _ _ _ _ _ Hok Hin) as (Hn & Hlen & Hopen & Hroot & Hmess & Hsum & Hto).
  pose proof (written_own_events h _ Hmax Hok (included_write _ _ _ _ _ _ _ _ Hmax Hok Hturn Hin)) as Hf.
  rewrite (commit_store inputs h events es Hb).
  assert (CommunicationSafety.own_events events
    = inclusion_events h (ib_participant_id batch) p sc (ib_messages batch) r context) as ->.
  { unfold events. unfold CommunicationSafety.own_events at 1. rewrite List.filter_app.
    rewrite (filter_none _ own); [by apply own_filter|]. eapply Forall_impl; [exact Hown|]. intros e He.
    apply not_true_iff_false. intros Hc. pose proof (comm_not_session _ Hc). cbn in He. congruence. }
  destruct Hin as [_ Hp _ _ Hsc _].
  destruct (settle_messages (comm_store h) _ p (length (ib_messages batch)) (ib_messages batch) (proj1 Hok) Hp Hmess) as [Hids Hall].
  unfold inclusion_events. rewrite Hsum in *. split.
  - eexists. split.
    + unfold part. rewrite settle_participants, String.eqb_refl. apply latest_snoc.
      by apply (settle_fits (comm_store h) (ib_participant_id batch) p _ sc (length (ib_messages batch)) (proj1 Hok)).
    + rewrite Hids. unfold pending_ids. cbn [consumed pt_pending]. by rewrite fmap_drop, take_drop.
  - intros mid m Hmid. rewrite <- Hroot. case_bool_decide as Hmin.
    + apply list_elem_of_fmap in Hmin as (m' & -> & Hmin). rewrite Forall_forall in Hall.
      destruct (Hall m' Hmin) as (Hm' & _). assert (m' = m) as -> by congruence.
      eapply settle_mess_in; first [exact (proj1 Hok)|exact Hp|exact Hmess|exact Hmin|exact Hto|done].
    + rewrite <- Hmid. by eapply settle_mess_out.
Qed.

(** C17. Including a batch in a turn moves the session and the inbox together. When it
    succeeds, the batch was the first of what was pending, as it was prepared, for the
    execution and the session of the context; the session's transcript has grown by exactly
    one peer input for each message, in order; those messages have the receipt of this turn
    and no other message changes; what was behind them is what is pending. *)
Theorem inclusion_atomic inputs batch context turn request_hash h s s' :
  peer_input_ok -> inputs_ok inputs -> (turn <= 65535)%N -> holds s h -> joint_ok h ->
  (count h + INCLUDE_SIZE + 1 < u64_max)%N ->
  include inputs batch context turn request_hash s = (Ok tt, s') ->
  exists run_id p sc g before out,
    inclusion h batch context turn request_hash run_id p sc /\ holds s' (h ++ g) /\
    Session.list_messages (ap_session_id (pt_participant p)) s = (Ok before, s) /\
    Session.list_messages (ap_session_id (pt_participant p)) s' = (Ok (before ++ out)%list, s') /\
    sm_message <$> out = agent_input_messages batch /\
    (exists p', part (comm_store (h ++ g)) (ib_participant_id batch) = Some p' /\
       pending_ids p = ((am_id <$> ib_messages batch) ++ pending_ids p')%list) /\
    forall mid m, mess (comm_store h) mid = Some m ->
      mess (comm_store (h ++ g)) mid
      = Some (if bool_decide (mid ∈ am_id <$> ib_messages batch)
              then with_receipt (IncludedInTurn run_id turn request_hash) m else m).
Proof.
  intros Hpeer Hi Hturn Hh Hok Hle Hx. assert (count h + 1 < u64_max)%N as Hmax by lia.
  pose proof (comm_part h Hok) as Hc.
  destruct (include_moves inputs batch context turn request_hash h s Hpeer Hi Hturn Hh Hok Hle) as [_ (g & Hg & Hgok & Hgle)].
  rewrite Hx in Hg. cbn [snd] in Hg.
  destruct (include_cases inputs batch context turn request_hash h s Hh Hc Hmax)
    as [(e & s0 & He & _)|(run_id & p & sc & s0 & Hs0 & Hin & He)]; [congruence|].
  rewrite Hx in He. unfold inclusion_commit, op_bind in He.
  destruct (append_messages_with_events _ _ _ _ _ s0) as [[out|e] s1] eqn:Ha; [|done]. cbn in He. injection He as Hs'.
  destruct (inclusion_settles _ _ _ _ _ _ _ _ Hc Hin) as (Hn & _).
  destruct (staged_write_for h _ Hmax Hc (included_write _ _ _ _ _ _ _ _ Hmax Hc Hturn Hin)) as (Hrec & [Hnei _] & Hcount).
  assert (holds s1 (h ++ g)) as Hg1 by (subst s'; exact Hg).
  eapply append_outcome in Ha; [|exact Hs0|apply Hok|done| | | |].
  - destruct Ha as (st & es & Hb & Hh1 & Hmax1 & Ht & Hv & Hl & Hl1 & _ & _ & Hms & _).
    pose proof (holds_unique _ _ _ Hg1 Hh1) as Heq. apply app_inv_head in Heq. subst g.
    destruct (inclusion_commits h inputs batch context turn request_hash run_id p sc _ es Hmax Hc Hturn Hin
      (own_messages _ _ _ _ _) Hb) as [Hp' Hm'].
    eexists run_id, p, sc, _, (se_messages st), out. split_and!; [done|exact Hg| | | |exact Hp'|exact Hm'].
    + by destruct (reads_session_ok s h _ st Hh Hmax Hv Ht) as (_ & -> & _).
    + destruct (proj1 (proj1 Hgok (ap_session_id (pt_participant p)))) as [Hnone|[st' Ht']].
      * destruct (no_session s1 _ Hh1 Hmax1 _ Hv Hnone) as (_ & Hno & _). congruence.
      * destruct (reads_session_ok s1 _ _ st' Hh1 Hmax1 Hv Ht') as (_ & Hr1 & _).
        destruct (reads_session_ok s' _ _ st' Hg Hmax1 Hv Ht') as (_ & -> & _). congruence.
    + rewrite Hms, <- list_fmap_compose. etransitivity; [|apply list_fmap_id]. by apply list_fmap_ext.
  - unfold agent_input_messages. destruct (ib_messages batch); [simpl in Hn; lia|discriminate].
  - apply Forall_fmap, Forall_fmap, Forall_forall. intros m _. apply Hpeer.
  - split; [done|]. eapply Forall_impl; [exact Hnei|]. by intros ev [].
  - unfold INCLUDE_SIZE in Hle. unfold count, agent_input_messages in *. rewrite !length_fmap. lia.
Qed.
End Closing.
