(* ===== verification/CommunicationRecovery.v ===== *)
(** * Recovering after a restart

    [recover] closes every attempt that an execution was bound to, and leaves the rest: it
    walks the participants in the order of their names, page by page, and the closures do
    not change what there is to walk. *)

From S2P Require Import Prelude Json Contracts Boundary Platform JournalStore Journal Store.
From S2P Require Import JournalModel JournalAppend ProjectionCorrect ProjectionView StoreSpec StoreCorrect SessionContracts Session Interleaving.
From S2P Require Import SessionModel SessionSafety WorkContracts Work WorkModel WorkSafety WorkService WorkListing.
From S2P Require Import Communication CommunicationModel CommunicationStep CommunicationSafety CommunicationReads.
From S2P Require Import Composition WorkServiceCorrect CommunicationPort CommunicationOps CommunicationCorrect.

Open Scope string_scope.
Open Scope op_scope.

#[local] Abbreviation PARTICIPANTS := "agent-participant:".

(** ** The participants there are *)

Section Walk.
Context `{Externals} `{CommunicationCodecsOk}.

Lemma listed_iff h id : comm_ok h ->
  participant_stream id ∈ stream_ids h <-> exists p, part (comm_store h) id = Some p.
Proof.
  intros Hok. split.
  - intros Hin. destruct (listed_participant h None (participant_stream id) Hok) as (_ & id' & Heq & p & Hp).
    + apply filter_elem. split; [done|]. unfold participant_stream. by rewrite starts_with_self.
    + apply append_inj in Heq as ->. by exists p.
  - intros [p Hp]. unfold stream_ids. rewrite sort_dedup_elem. unfold part, latest, comm_store in Hp.
    rewrite on_participant in Hp. destruct (last _) as [v|] eqn:Hl; [|done].
    apply last_Some_elem_of, list_elem_of_fmap in Hl as (e & _ & Hin). apply filter_elem in Hin as [Hin Hst].
    apply String.eqb_eq in Hst. rewrite <- Hst, <- list_fmap_compose. by apply (list_elem_of_fmap_2 (fun e => ev_stream_id e.1)).
Qed.

(** What a recovery may do to an attempt. *)
Definition interrupted (p : ParticipantState) : ParticipantState :=
  if is_open p && is_some (ap_run_id (pt_participant p)) then closed MF_Interrupted p else p.
Definition recovered_from (σ σ' : store) : Prop := forall id,
  match part σ id with
  | None => part σ' id = None
  | Some p => part σ' id = Some p \/ part σ' id = Some (interrupted p)
  end.
Lemma interrupted_twice p : interrupted (interrupted p) = interrupted p.
Proof. unfold interrupted at 2 3. destruct (is_open p && _) eqn:Ho; [done|]. unfold interrupted. by rewrite Ho. Qed.
Lemma recovered_refl σ : recovered_from σ σ.
Proof. intros id. destruct (part σ id); [by left|done]. Qed.
Lemma recovered_trans σ σ1 σ2 : recovered_from σ σ1 -> recovered_from σ1 σ2 -> recovered_from σ σ2.
Proof.
  intros H1' H2' id. specialize (H1' id). specialize (H2' id). destruct (part σ id) as [p|].
  - destruct H1' as [Hp|Hp]; rewrite Hp in H2'; [exact H2'|]. rewrite interrupted_twice in H2'. right. by destruct H2'.
  - by rewrite H1' in H2'.
Qed.
(** Nothing runs as the attempt. *)
Definition stopped (σ : store) (id : string) : Prop := forall p, part σ id = Some p -> interrupted p = p.
Lemma stopped_later σ σ' id : recovered_from σ σ' -> stopped σ id -> stopped σ' id.
Proof.
  intros Hr Hs p Hp. specialize (Hr id). destruct (part σ id) as [q|] eqn:Hq; [|congruence].
  specialize (Hs q Hq). assert (p = q) as -> by (destruct Hr; congruence). done.
Qed.
Lemma closed_recovers id σ σ' p run_id :
  part σ id = Some p -> is_open p = true -> ap_run_id (pt_participant p) = Some run_id ->
  closed_from MF_Interrupted id σ σ' -> recovered_from σ σ' /\ stopped σ' id.
Proof.
  intros Hp Ho Hr (q & Hq & Hq' & Hother & _). assert (q = p) as -> by congruence. rewrite Ho in Hq'. split.
  - intros other. destruct (decide (other = id)) as [->|Hne]; [|rewrite (Hother other Hne); by destruct (part σ other); [left|]].
    rewrite Hp. right. unfold interrupted. by rewrite Ho, Hr.
  - intros p' Hp'. assert (p' = closed MF_Interrupted p) as -> by congruence. done.
Qed.
Lemma same_walk h h' after : comm_ok h -> comm_ok h' ->
  recovered_from (comm_store h) (comm_store h') -> ids_after PARTICIPANTS after h' = ids_after PARTICIPANTS after h.
Proof.
  intros Hok Hok' Hr. apply ascending_ext; [apply filter_ascending, sort_dedup_ascending..|].
  assert (forall id, participant_stream id ∈ stream_ids h' <-> participant_stream id ∈ stream_ids h) as Hids.
  { intros id. rewrite (listed_iff h' id Hok'), (listed_iff h id Hok). specialize (Hr id).
    destruct (part (comm_store h) id) as [p|]; [|rewrite Hr]; split; intros [q Hq]; try done; [by exists p|].
    destruct Hr as [Hr|Hr]; by eexists. }
  intros x. unfold ids_after. rewrite !filter_elem. split; intros [Hin Hf]; (split; [|done]);
    apply andb_true_iff in Hf as [Hp _]; apply starts_with_spec in Hp as [id ->]; by apply Hids.
Qed.
End Walk.

(** ** The loop *)

Section Recover.
Context `{SessionCodec} `{!SessionCodecOk} `{WorkCodecsOk} `{Externals} `{CommunicationCodecsOk} `{!CommunicationCodec}.
Context {J} `{EventJournalOk J}.
#[local] Abbreviation C := (CommunicationService J).
Implicit Types (s : C) (h : history).
Context (inputs : nat -> nat -> Inputs) (Hi : forall k n, inputs_ok (inputs k n)).
#[local] Abbreviation room n := ((1025 - N.of_nat n) * CLOSE_SIZE)%N.

Lemma close_run_interrupts h s s' n run_id id :
  holds s h -> joint_ok h -> (count h + CLOSE_SIZE + 1 < u64_max)%N -> run_is h run_id id ->
  close_run (inputs n) run_id MF_Interrupted s = (Ok tt, s') ->
  exists g, holds s' (h ++ g) /\ joint_ok (h ++ g) /\ (count g <= CLOSE_SIZE)%N /\
    closed_from MF_Interrupted id (comm_store h) (comm_store (h ++ g)).
Proof.
  intros Hh Hok Hle Hrun Hx. unfold CLOSE_SIZE in *.
  destruct (close_run_moves (inputs n) run_id MF_Interrupted h s (Hi n) Hh Hok Hle) as [_ (g & Hg & Hgok & Hgle)].
  destruct (close_attempts_closes (inputs n) (Hi n) run_id id MF_Interrupted 8 0 h s s' Hh Hok Hle Hrun Hx)
    as (g' & Hg' & _ & Hcl & _).
  rewrite Hx in Hg. pose proof (holds_unique _ _ _ Hg Hg') as Heq. apply app_inv_head in Heq as <-.
  exists g. by split_and!.
Qed.
(** One page. *)
Definition settled_page h (page : list string) : Prop :=
  Forall (fun stream => exists id, stream = participant_stream id /\ stopped (comm_store h) id) page.
Lemma settled_later h h' (page : list string) :
  recovered_from (comm_store h) (comm_store h') -> settled_page h page -> settled_page h' page.
Proof. intros Hr Hp. eapply Forall_impl; [exact Hp|]. intros stream (id & -> & Hs). exists id. split; [done|by eapply stopped_later]. Qed.
Lemma recover_page_settles page : forall k h s n s',
  holds s h -> joint_ok h -> (k <= 1024)%nat -> (count h + room k + 1 < u64_max)%N ->
  Forall (fun stream => stream ∈ ids_after PARTICIPANTS None h) page ->
  recover_page inputs page k s = (Ok n, s') ->
  exists g, holds s' (h ++ g) /\ joint_ok (h ++ g) /\ (n <= 1024)%nat /\ (count (h ++ g) + room n + 1 < u64_max)%N /\
    recovered_from (comm_store h) (comm_store (h ++ g)) /\ settled_page (h ++ g) page.
Proof.
  induction page as [|stream page IH]; intros k h s n s' Hh Hok Hk Hle Hf Hx.
  { injection Hx as <- <-. exists []. rewrite app_nil_r. split_and!; try done; [apply recovered_refl|apply Forall_nil_2]. }
  apply Forall_cons in Hf as [Hin Hf]. pose proof (comm_part h Hok) as Hc.
  assert (count h + 1 < u64_max)%N as Hmax by (unfold CLOSE_SIZE, MAX_RECEIPTS in *; lia).
  destruct (listed_participant h None stream Hc Hin) as (_ & id & -> & p & Hp).
  cbn [recover_page] in Hx. unfold op_bind at 1 in Hx.
  rewrite (load_is h Hmax Hc (A:=ParticipantState) (participant_stream id) s Hh (on_participant id)
    (wf_participants _ (proj1 Hc) id)) in Hx.
  unfold latest_at in Hx. unfold part in Hp. rewrite Hp in Hx. cbn [fst mbind option_bind op_bind op_lift ok_or] in Hx.
  fold (part (comm_store h) id) in Hp.
  assert (forall h' k' s1, recovered_from (comm_store h) (comm_store h') -> stopped (comm_store h') id ->
    (exists g0, h' = (h ++ g0)%list) -> holds s1 h' -> joint_ok h' -> (k' <= 1024)%nat -> (count h' + room k' + 1 < u64_max)%N ->
    recover_page inputs page k' s1 = (Ok n, s') ->
    exists g, holds s' (h ++ g) /\ joint_ok (h ++ g) /\ (n <= 1024)%nat /\ (count (h ++ g)%list + room n + 1 < u64_max)%N /\
      recovered_from (comm_store h) (comm_store (h ++ g)) /\ settled_page (h ++ g) (participant_stream id :: page)) as Hnext.
  { intros h' k' s1 Hr Hst [g0 ->] Hs1 Hok1 Hk1 Hle1 Hx1.
    destruct (IH k' (h ++ g0)%list s1 n s' Hs1 Hok1 Hk1 Hle1) as (g & Hg & Hgok & Hn & Hnle & Hrec & Hset); [|done|].
    { by rewrite (same_walk h (h ++ g0) None Hc (comm_part _ Hok1) Hr). }
    exists (g0 ++ g)%list. rewrite app_assoc. split_and!; try done; [by eapply recovered_trans|].
    apply Forall_cons. split; [|done]. exists id. split; [done|]. by eapply stopped_later. }
  destruct (ap_open (pt_participant p)) eqn:Ho.
  - destruct (ap_run_id (pt_participant p)) as [run_id|] eqn:Hr.
    + unfold op_bind at 1 in Hx. destruct (close_run (inputs k) run_id MF_Interrupted s) as [[[]|e] s1] eqn:Hcl; [|done].
      destruct (close_run_interrupts h s s1 k run_id id Hh Hok) as (g0 & Hg0 & Hgok0 & Hgle0 & Hfrom).
      * unfold CLOSE_SIZE, MAX_RECEIPTS in *. lia.
      * exact (wf_bound _ (proj1 Hc) id p run_id Hp Hr).
      * done.
      * unfold op_bind at 1, op_lift at 1 in Hx. destruct (Nat.ltb_spec 1024 (S k)) as [|Hk1]; [done|]. cbn [reject] in Hx.
        destruct (closed_recovers id _ _ p run_id Hp Ho Hr Hfrom) as [Hrec Hst].
        apply (Hnext (h ++ g0)%list (S k) s1); try done; [by exists g0|].
        rewrite count_app. unfold CLOSE_SIZE, MAX_RECEIPTS in *. lia.
    + apply (Hnext h k s); try done; [apply recovered_refl| |exists []; by rewrite app_nil_r].
      intros q Hq. assert (q = p) as -> by congruence. unfold interrupted. by rewrite Hr, andb_false_r.
  - apply (Hnext h k s); try done; [apply recovered_refl| |exists []; by rewrite app_nil_r].
    intros q Hq. assert (q = p) as -> by congruence. unfold interrupted, is_open. by rewrite Ho.
Qed.
(** The loop of [recover], as the code has it and with no fuel: a derivation is a run that
    ends. *)
Inductive pages_run : option string -> nat -> C -> result StoreError nat * C -> Prop :=
| pages_failed after k s e s1 :
    ej_list_stream_ids PARTICIPANTS after 128 s = (Err e, s1) -> pages_run after k s (Err e, s1)
| pages_done after k s s1 :
    ej_list_stream_ids PARTICIPANTS after 128 s = (Ok [], s1) -> pages_run after k s (Ok k, s1)
| pages_stopped after k s page s1 e s2 :
    ej_list_stream_ids PARTICIPANTS after 128 s = (Ok page, s1) -> page <> [] ->
    recover_page inputs page k s1 = (Err e, s2) -> pages_run after k s (Err e, s2)
| pages_next after k s page s1 n s2 out :
    ej_list_stream_ids PARTICIPANTS after 128 s = (Ok page, s1) -> page <> [] ->
    recover_page inputs page k s1 = (Ok n, s2) -> pages_run (last page) n s2 out ->
    pages_run after k s out.
(** The pages: what is behind the cursor is settled. *)
Lemma recover_pages_settle fuel : forall acc rest k h s,
  holds s h -> joint_ok h -> (k <= 1024)%nat -> (count h + room k + 1 < u64_max)%N ->
  ids_after PARTICIPANTS None h = (acc ++ rest)%list -> settled_page h acc -> length rest < fuel ->
  pages_run (last acc) k s (recover_pages fuel inputs (last acc) k s) /\
  (forall fuel', length rest < fuel' ->
     recover_pages fuel' inputs (last acc) k s = recover_pages fuel inputs (last acc) k s) /\
  forall n s', recover_pages fuel inputs (last acc) k s = (Ok n, s') ->
    exists g, holds s' (h ++ g) /\ joint_ok (h ++ g) /\
      recovered_from (comm_store h) (comm_store (h ++ g)) /\ forall id, stopped (comm_store (h ++ g)) id.
Proof.
  induction fuel as [|fuel IH]; intros acc rest k h s Hh Hok Hk Hle Hall Hset Hlen; [lia|].
  pose proof (comm_part h Hok) as Hc.
  assert (forall x, x ∈ (acc ++ rest)%list -> x ∈ ids_after PARTICIPANTS None h) as Hlisted by (intros x; by rewrite Hall).
  assert (clean_cursor (last acc)) as Hcl.
  { intros c Hl. apply last_Some_elem_of in Hl. assert (c ∈ ids_after PARTICIPANTS None h) as Hin
      by (apply Hlisted, elem_of_app; by left).
    split; [by apply (listed_participant h None c Hc Hin)|]. by apply filter_elem in Hin as [_ [? _]%andb_true_iff]. }
  pose proof (ej_list_stream_ids_ok s h PARTICIPANTS (last acc) 128 Hh eq_refl Hcl) as Hlist.
  rewrite (ids_after_last _ _ _ _ Hall) in Hlist. change (N.to_nat (N.min 128 MAX_STREAM_LIST_BATCH)) with 128 in Hlist.
  assert (forall fuel0, recover_pages (S fuel0) inputs (last acc) k s
    = match take 128 rest with
      | [] => (Ok k, s)
      | page => (n <~ recover_page inputs page k;; recover_pages fuel0 inputs (last page) n) s
      end) as Hstep.
  { intros fuel0. cbn [recover_pages]. rewrite (op_bind_run _ _ _ _ _ Hlist). by destruct (take 128 rest). }
  destruct (decide (rest = [])) as [->|Hne].
  { rewrite Hstep. split; [by apply pages_done|]. split.
    - intros [|fuel'] Hf; [simpl in Hf; lia|]. by rewrite Hstep.
    - intros n s' [= <- <-]. exists []. rewrite app_nil_r. split_and!; try done; [apply recovered_refl|].
      intros id p Hp. rewrite app_nil_r in Hall. assert (participant_stream id ∈ acc) as Hin.
      { rewrite <- Hall. apply filter_elem. split; [apply (listed_iff h id Hc); by exists p|].
        unfold participant_stream. by rewrite starts_with_self. }
      unfold settled_page in Hset. rewrite Forall_forall in Hset. destruct (Hset _ Hin) as (id' & Heq & Hst).
      apply append_inj in Heq as ->. by apply Hst. }
  set (page := take 128 rest) in *. assert (page <> []) as Hpage by (unfold page; by destruct rest).
  assert (Forall (fun stream => stream ∈ ids_after PARTICIPANTS None h) page) as Hin.
  { apply Forall_forall. intros x Hx. apply Hlisted, elem_of_app. right. unfold page in Hx.
    rewrite <- (take_drop 128 rest). apply elem_of_app. by left. }
  assert (forall fuel0, recover_pages (S fuel0) inputs (last acc) k s
    = (n <~ recover_page inputs page k;; recover_pages fuel0 inputs (last page) n) s) as Hpages
    by (intros fuel0; rewrite Hstep; by destruct page).
  assert (last page = last (acc ++ page)) as Hlast
    by (rewrite last_app; destruct (last page) eqn:Hl; [done|by apply last_None in Hl]).
  unfold op_bind in Hpages. rewrite Hpages.
  destruct (recover_page inputs page k s) as [[n1|e] s1] eqn:Hrp;
    [|split; [by eapply pages_stopped|split; [intros [|fuel'] Hf; [lia|by rewrite Hpages]|done]]].
  destruct (recover_page_settles page k h s n1 s1 Hh Hok Hk Hle Hin Hrp) as (g & Hg & Hgok & Hn & Hnle & Hrec & Hps).
  assert (length (drop 128 rest) < length rest) as Hless by (rewrite length_drop; destruct rest; [done|simpl; lia]).
  destruct (IH (acc ++ page)%list (drop 128 rest) n1 (h ++ g)%list s1 Hg Hgok Hn Hnle) as (Hends & Hfuel & Hdone).
  { rewrite (same_walk h (h ++ g) None Hc (comm_part _ Hgok) Hrec), Hall, <- app_assoc. unfold page. by rewrite take_drop. }
  { apply Forall_app. split; [by eapply settled_later|done]. }
  { lia. }
  rewrite <- Hlast in Hends, Hfuel, Hdone. split; [by eapply pages_next|]. split.
  - intros [|fuel'] Hf; [lia|]. rewrite Hpages. apply Hfuel. lia.
  - intros n s' Hx. destruct (Hdone n s' Hx) as (g' & Hg' & Hgok' & Hrec' & Hst). exists (g ++ g')%list.
    rewrite app_assoc. split_and!; try done. by eapply recovered_trans.
Qed.

(** C19. Recovery ends, and leaves nothing running. With a page more than there are
    participants as fuel, or any more, the answer is the one of a run of the loop that ends
    ([pages_run] has no fuel to run out of), and it is the same answer. When it succeeds, every attempt
    that was open and bound to an execution is closed as interrupted, with nothing pending,
    and every other attempt - closed before, or queued and not started - is as it was. *)
Theorem recovery_ends h s :
  holds s h -> joint_ok h -> (count h + RECOVER_SIZE + 1 < u64_max)%N ->
  let fuel := S (streams_of PARTICIPANTS h) in
  (forall fuel', fuel <= fuel' ->
     pages_run None 0 s (recover fuel' inputs s) /\ recover fuel' inputs s = recover fuel inputs s) /\
  forall n s', recover fuel inputs s = (Ok n, s') -> exists g, holds s' (h ++ g) /\ joint_ok (h ++ g) /\
    forall id, part (comm_store (h ++ g)) id = interrupted <$> part (comm_store h) id.
Proof.
  intros Hh Hok Hle fuel. unfold recover.
  destruct (recover_pages_settle fuel [] (ids_after PARTICIPANTS None h) 0 h s) as (Hends & Hfuel & Hdone);
    try done; [lia|apply Forall_nil_2|unfold fuel, streams_of; lia|]. split.
  - intros fuel' Hf. assert (recover_pages fuel' inputs None 0 s = recover_pages fuel inputs None 0 s) as ->
      by (apply Hfuel; unfold fuel, streams_of in Hf; lia).
    by split.
  - intros n s' Hx. destruct (Hdone n s' Hx) as (g & Hg & Hgok & Hrec & Hst). exists g. split_and!; [done..|].
    intros id. specialize (Hrec id). destruct (part (comm_store h) id) as [p|]; [|done]. cbn.
    destruct Hrec as [Hp|Hp]; [|done]. rewrite Hp. by rewrite (Hst id p Hp).
Qed.
End Recover.
