(* ===== verification/Scenarios.v ===== *)
(** * Runs of the repositories on the redb journal

    One run of the work repository: a plan is drafted, approved and consumed by a goal,
    which reserves an iteration; a child-agent job is queued; then two runs the checks of
    the repository let through.  One run of the services on a shared journal: a session is
    created, an execution begins in it, its owner sends it a message, which is listed,
    prepared and included in a turn; a child-agent job is created, which registers its
    attempt with the communication service.  The witnesses of the theorems on work items,
    the services and their composition are taken from them. *)

From S2P Require Import Prelude Json Contracts Boundary Platform JournalStore Journal Store.
From S2P Require Import JournalModel JournalAppend JournalTest JournalCorrect JournalPort JournalHolds StoreSpec StoreCorrect.
From S2P Require Import SessionContracts Session SessionModel SessionTest SessionSafety SessionOps SessionOutcomes StoreCorrect Interleaving.
From S2P Require Import WorkContracts Work Aggregates WorkModel WorkTest WorkOps WorkSafety WorkLifecycle WorkListing WorkService.
From S2P Require Import Communication CommunicationModel CommunicationStep CommunicationSettle CommunicationSafety CommunicationReads CommunicationTest.
From S2P Require Import Composition PlanCommands WorkServiceCorrect CommunicationPort CommunicationOps CommunicationCorrect CommunicationRecovery CommunicationReads.
From stdpp Require Import relations.

Open Scope string_scope.
Open Scope op_scope.

#[local] Existing Instances journal_externals test_codec test_codec_ok.
#[local] Abbreviation test_store := (RedbEventJournal StaticKeyProvider TestSigner).

(** ** Work items *)

Definition approved_plan (revision : N) : PlanRecord :=
  test_plan PS_Approved revision (Some "2024-01-02") None.
Definition executed_plan (revision : N) : PlanRecord :=
  test_plan PS_Executed revision (Some "2024-01-02") (Some "goal-1").
Definition queued_job : SubagentJob := test_job SJ_Queued None None None.

Definition test_drafted : test_store :=
  run_work test_inputs (CreatePlan (test_plan PS_Draft 1 None None) test_actor) test_journal.
Definition test_approved : test_store :=
  run_work test_inputs (UpdatePlan (approved_plan 1) test_actor) test_drafted.
Definition test_consumed : test_store :=
  run_work test_inputs (CreateGoalFromPlan (test_goal 0) (executed_plan 2) test_actor) test_approved.
Definition test_decided : test_store :=
  run_work test_inputs (CreateDecision test_decision test_actor) test_journal.
Definition test_queued : test_store :=
  run_work test_inputs (CreateSubagent queued_job None test_actor []) test_journal.

Definition well_formed (j : test_store) (n : N) : Prop :=
  exists h, holds j h /\ work_ok h /\ (count h <= n)%N.
Lemma work_empty : holds (test_journal : test_store) [] /\ work_ok [].
Proof. split; [exact (conj test_journal_ok (Forall_nil_2 _))|apply work_ok_nil]. Qed.
Lemma run_well_formed j n a :
  well_formed j n -> work_fit a -> (work_size a <= 2)%N -> (n <= 100)%N ->
  well_formed (run_work test_inputs a j) (n + work_size a).
Proof.
  intros (h & Hh & Hok & Hle) Hfit Hs Hn.
  destruct (work_action_keeps j h test_inputs a Hh Hok test_inputs_ok Hfit) as (h' & Hh' & Hok' & Hle').
  - unfold u64_max. lia.
  - exists h'. split_and!; [done|done|lia].
Qed.
Lemma test_plan_fit status revision approved run :
  (revision <= 10)%N -> plan_fit (test_plan status revision approved run).
Proof.
  intros Hr. split; [cbn; unfold u64_max; lia|]. cbn. apply Forall_singleton. cbn. unfold u32_max. lia.
Qed.
Lemma test_goal_fit n : (n <= 10)%N -> goal_fit (test_goal n).
Proof. intros Hn. split; cbn; unfold u16_limit; lia. Qed.
Lemma test_journal_well_formed : well_formed test_journal 0.
Proof. destruct work_empty. by exists []. Qed.
Lemma test_drafted_ok : well_formed test_drafted 1.
Proof.
  apply (run_well_formed test_journal 0 (CreatePlan (test_plan PS_Draft 1 None None) test_actor));
    [apply test_journal_well_formed|by apply test_plan_fit|done|done].
Qed.
Lemma test_approved_ok : well_formed test_approved 2.
Proof.
  apply (run_well_formed test_drafted 1 (UpdatePlan (approved_plan 1) test_actor));
    [apply test_drafted_ok|by apply test_plan_fit|done|done].
Qed.
Lemma test_consumed_ok : well_formed test_consumed 4.
Proof.
  apply (run_well_formed test_approved 2 (CreateGoalFromPlan (test_goal 0) (executed_plan 2) test_actor));
    [apply test_approved_ok|split; [by apply test_goal_fit|by apply test_plan_fit]|done|done].
Qed.
Lemma test_decided_ok : well_formed test_decided 1.
Proof.
  by apply (run_well_formed test_journal 0 (CreateDecision test_decision test_actor)); [apply test_journal_well_formed|..].
Qed.
Lemma test_queued_ok : well_formed test_queued 1.
Proof.
  apply (run_well_formed test_journal 0 (CreateSubagent queued_job None test_actor []));
    [apply test_journal_well_formed| |done|done].
  split; [done|]. split; apply Forall_nil_2.
Qed.

(** ** The witnesses *)

Lemma work_operation_refines_witness :
  exists batches, rtc work_step (test_journal : test_store, [])
    (run_work test_inputs (CreateTask test_task test_actor) test_journal, batches).
Proof.
  destruct work_empty as [Hh Hok].
  exact (work_operation_refines test_journal [] [] test_inputs (CreateTask test_task test_actor) Hh Hok
    test_inputs_ok I eq_refl).
Defined.

Definition test_task_batch : list NewEvent :=
  [work_event (task_stream "task-1") 0 TASK_CREATED test_actor "s1" (record_payload test_task)].
Lemma test_task_prepared : work_batch [] test_task_batch /\ Forall recordable test_task_batch.
Proof.
  split.
  - apply (task_batch [] [] _ "task-1" test_task); [|apply Forall_nil_2].
    split_and!; try done. by left.
  - apply Forall_singleton. by apply (payload_recordable (A:=TaskRecord)).
Qed.
(** A batch committed, and tried again. *)
Lemma work_interleaved_witness :
  exists (j' : test_store) g, rtc work_step (test_journal, []) (j', [test_task_batch]) /\ holds j' g /\ work_ok g.
Proof.
  set (j1 := (ej_append_batch test_inputs test_task_batch (test_journal : test_store)).2).
  destruct work_empty as [Hh Hok]. destruct test_task_prepared as [Hp Hr].
  assert (rtc work_step (test_journal : test_store, []) (j1, [test_task_batch])) as Hrun.
  { eapply rtc_l; [eapply (step_prepare _ _ [] _ test_task_batch); [exact Hh|done|exact Hp|exact Hr]|].
    apply rtc_once. eapply (step_commit _ _ [] _ test_task_batch); [exact Hh|done|by left|apply test_inputs_ok]. }
  destruct (work_interleaved test_journal j1 [] [test_task_batch] Hh Hok Hrun) as (g & Hg & Hs).
  exists j1, g. exact (conj Hrun (conj Hg Hs)).
Defined.

Lemma stale_check_refines_witness :
  exists batches, rtc work_step (test_decided, [])
    ((append_next test_inputs (decision_stream "kd_1") DECISION_UPDATED test_actor test_decision test_decided).2,
     batches).
Proof.
  destruct test_decided_ok as (h & Hh & Hok & Hle).
  assert (check_decision_update test_decision test_decided = (Ok tt, test_decided)) as Hc by (vm_compute; reflexivity).
  refine (stale_check_refines test_decided test_decided h [] [] test_inputs
    (fun inputs j' => (append_next inputs (decision_stream "kd_1") DECISION_UPDATED test_actor test_decision j').2)
    Hh Hok (checked_update _ test_decision test_actor Hc) _ _ test_inputs_ok _); rewrite app_nil_r; [done|done|].
  unfold u64_max. lia.
Defined.

(** The approved plan is executed, and then neither updated nor consumed by a goal. *)
#[local] Abbreviation executed_now := (update_plan test_inputs (executed_plan 2) test_actor test_approved).
Lemma plan_executed_as_approved_witness :
  exists j', executed_now = (Ok (executed_plan 3), j') /\
    get_plan "plan-1" j' = (Ok (Some (executed_plan 3)), j') /\
    (exists e, update_plan test_inputs (executed_plan 3) test_actor j' = (Err e, j')) /\
    exists e, create_goal_from_plan test_inputs (test_goal 0) (executed_plan 3) test_actor j' = (Err e, j').
Proof.
  destruct test_approved_ok as (h & Hh & Hok & Hle).
  assert (executed_now.1 = Ok (executed_plan 3)) as Hr by (vm_compute; reflexivity).
  destruct executed_now as [r j'] eqn:Hx. cbn [fst] in Hr. subst r.
  destruct (plan_executed_as_approved test_approved j' h test_inputs (executed_plan 2) test_actor (executed_plan 3)
    Hh Hok test_inputs_ok (test_plan_fit _ 2 _ _ ltac:(done)) ltac:(unfold u64_max; lia) Hx eq_refl)
    as (q & before & e & v & g & _ & _ & _ & _ & _ & _ & _ & _ & _ & _ & _ & Hcount & Hg & Hgok & Hlater).
  assert (count ((h ++ g) ++ [])%list + 2 < u64_max)%N as Hroom
    by (rewrite app_nil_r, Hcount; unfold u64_max; lia).
  destruct (Hlater j' [] ltac:(by rewrite app_nil_r) ltac:(by rewrite app_nil_r) Hroom) as (Hget & Hu & Hc).
  exists j'. refine (conj eq_refl (conj Hget (conj _ _))).
  - exact (Hu test_inputs (executed_plan 3) test_actor test_inputs_ok (test_plan_fit _ 3 _ _ ltac:(done)) eq_refl).
  - exact (Hc test_inputs (test_goal 0) (executed_plan 3) test_actor (test_goal_fit 0 ltac:(done))
      (test_plan_fit _ 3 _ _ ltac:(done)) eq_refl).
Defined.

Definition running_job : SubagentJob := test_job SJ_Running (Some "2024-01-02") None None.
Lemma subagent_over_time_witness :
  exists (h g : history), holds test_queued h /\
    holds (run_work test_inputs (UpdateSubagent running_job test_actor []) test_queued) (h ++ g) /\
    record_trace "agent-1" (stream_entries (subagent_stream "agent-1") (h ++ g)) running_job /\
    job_origin running_job = job_origin queued_job /\ rtc job_transition SJ_Queued SJ_Running.
Proof.
  destruct test_queued_ok as (h & Hh & Hok & Hle).
  assert ((update_subagent_with_events test_inputs running_job test_actor [] test_queued).1 = Ok running_job) as Hrun
    by (vm_compute; reflexivity).
  destruct (updated_job test_queued h Hh Hok 1 Hle ltac:(done) test_inputs running_job test_actor test_inputs_ok Hrun) as (g & Hh' & Hok' & Hle').
  assert ((get_subagent "agent-1" test_queued).1 = Ok (Some queued_job)) as Hq by (vm_compute; reflexivity).
  assert ((get_subagent "agent-1" (run_work test_inputs (UpdateSubagent running_job test_actor []) test_queued)).1
    = Ok (Some running_job)) as Hr by (vm_compute; reflexivity).
  pose proof (read_job test_queued h Hh Hok 1 Hle ltac:(done) "agent-1" queued_job Hq) as Ha.
  pose proof (read_job _ (h ++ g) Hh' Hok' 2 Hle' ltac:(done) "agent-1" running_job Hr) as Hb.
  destruct (subagent_over_time h g "agent-1" queued_job running_job Ha Hb) as (Ho & Ht & _).
  exists h, g. exact (conj Hh (conj Hh' (conj Hb (conj Ho Ht)))).
Defined.

Lemma iteration_slot_once_witness :
  exists j', record_goal_iteration test_inputs (test_goal 1) 0 test_actor test_consumed = (Ok (test_goal 1), j') /\
    get_goal "goal-1" j' = (Ok (Some (test_goal 1)), j').
Proof.
  destruct test_consumed_ok as (h & Hh & Hok & Hle).
  assert ((record_goal_iteration test_inputs (test_goal 1) 0 test_actor test_consumed).1 = Ok (test_goal 1)) as Hr
    by (vm_compute; reflexivity).
  destruct (record_goal_iteration test_inputs (test_goal 1) 0 test_actor test_consumed) as [r j'] eqn:Hx.
  cbn [fst] in Hr. subst r.
  destruct (iteration_slot_once test_consumed j' h test_inputs (test_goal 1) 0 test_actor (test_goal 1) Hh Hok
    test_inputs_ok (test_goal_fit 1 ltac:(done)) ltac:(unfold u64_max; lia) Hx)
    as (_ & _ & _ & g & _ & _ & Hg & _).
  exists j'. exact (conj eq_refl Hg).
Defined.

#[local] Abbreviation goal_planned_now :=
  (create_goal_from_plan test_inputs (test_goal 0) (executed_plan 2) test_actor test_approved).
Lemma goal_from_plan_atomic_witness :
  exists j' plan', goal_planned_now = (Ok (test_goal 0, plan'), j') /\
    get_goal "goal-1" j' = (Ok (Some (test_goal 0)), j') /\ pn_status plan' = PS_Executed.
Proof.
  destruct test_approved_ok as (h & Hh & Hok & Hle).
  pose proof (goal_from_plan_atomic test_approved h test_inputs (test_goal 0) (executed_plan 2) test_actor
    Hh Hok test_inputs_ok (test_goal_fit 0 ltac:(done)) (test_plan_fit _ 2 _ _ ltac:(done))
    ltac:(unfold u64_max; lia)) as Hat.
  assert (goal_planned_now.1 = Ok (test_goal 0, executed_plan 3)) as Hr by (vm_compute; reflexivity).
  destruct goal_planned_now as [r j'] eqn:Hx. cbn [fst] in Hr. subst r.
  destruct Hat as [(e & He & _)|(plan_id & current & plan' & e & v & e' & v' & _ & _ & _ & _ & _ & _ & _ & _ & Hres
    & _ & Hex & _ & Hg & _)]; [discriminate He|].
  specialize (Hres _ eq_refl). injection Hres as Hres. subst plan'. exists j', (executed_plan 3).
  exact (conj eq_refl (conj Hg Hex)).
Defined.

Lemma streams_bound prefix h n : (count h <= n)%N -> streams_of prefix h < S (N.to_nat n).
Proof.
  intros Hle. unfold streams_of, ids_after, stream_ids.
  pose proof (filter_length_le (fun id => starts_with id prefix && is_none_or None (fun c => str_ltb c id))
    (sort_dedup (ev_stream_id <$> h.*1))) as Hf.
  assert (sort_dedup (ev_stream_id <$> h.*1) ⊆+ ev_stream_id <$> h.*1) as Hs%submseteq_length.
  { apply NoDup_submseteq; [apply sort_dedup_NoDup|]. intros x. apply sort_dedup_elem. }
  rewrite !length_fmap in Hs. unfold count in Hle. lia.
Qed.
Lemma listings_exact_witness :
  exists (h : history) l, list_plans 5 None (Some PS_Executed) 10 test_consumed = (Ok l, test_consumed) /\
    lists h None (fun r => bool_decide (pn_status r = PS_Executed)) 10 l /\ l = [executed_plan 3].
Proof.
  destruct test_consumed_ok as (h & Hh & Hok & Hle).
  assert ((list_plans 5 None (Some PS_Executed) 10 test_consumed).1 = Ok [executed_plan 3]) as Hr
    by (vm_compute; reflexivity).
  pose proof (fun prefix => streams_bound prefix h 4 Hle) as Hb.
  destruct (listings_exact test_consumed h 5 None 10 None None (Some PS_Executed) None None Hh
    ltac:(unfold u64_max; lia) Hok (Hb _) (Hb _) (Hb _) (Hb _) (Hb _)) as (_ & _ & (l & Hl & Hls) & _).
  exists h, l. rewrite Hl in Hr. injection Hr as ->. exact (conj Hl (conj Hls eq_refl)).
Defined.
Lemma recovery_page_exact_witness :
  exists (h : history) entries,
    page (fun _ => "expected a string") (Some "agent-0") 10 test_queued = (Ok entries, test_queued) /\
    Forall2 (recovers h) (take 10 (ids_after "subagent:" (Some "subagent:agent-0") h)) entries /\
    entries = [(queued_job, None)].
Proof.
  destruct test_queued_ok as (h & Hh & Hok & Hle).
  assert ((page (fun _ => "expected a string") (Some "agent-0") 10 test_queued).1 = Ok [(queued_job, None)]) as Hr
    by (vm_compute; reflexivity).
  destruct (recovery_page_exact (fun _ => "expected a string") test_queued h Hh ltac:(unfold u64_max; lia) Hok
    (Some "agent-0") 10 eq_refl) as (entries & He & Hf).
  exists h, entries. rewrite He in Hr. injection Hr as ->. exact (conj He (conj Hf eq_refl)).
Defined.

(** ** What the checks let through *)

(** [update_decision] checks the status on one reading and takes
    the version from another, so an archive between the two is not seen: the decision is
    archived, the update is still accepted after it, and the decision is active again. *)
Lemma archived_decision_revived :
  let archived := run_work test_inputs (ArchiveDecision (Ok "2024-01-02") "kd_1" test_actor) test_decided in
  let update := append_next test_inputs (decision_stream "kd_1") DECISION_UPDATED test_actor test_decision in
  (check_decision_update test_decision test_decided).1 = Ok tt /\
  (get_decision "kd_1" archived).1 = Ok (Some (with_decision_status DS_Archived "2024-01-02" test_decision)) /\
  (update archived).1 = Ok test_decision /\
  (get_decision "kd_1" (update archived).2).1 = Ok (Some test_decision) /\
  kd_status test_decision = DS_Active.
Proof. vm_compute. split_and!; reflexivity. Qed.

(** The plan of session s1, consumed by a goal of session s2. *)
Definition other_goal : GoalRecord :=
  mkGoalRecord "goal-1" "s2" "Do it" (Some "plan-1") GS_Active "" "" 3 0 "2024-01-01" "2024-01-01".
Definition moved_plan (revision : N) : PlanRecord :=
  mkPlanRecord "plan-1" "s2" "Do it" PS_Executed revision "content" [test_step] "2024-01-01" "2024-01-01"
    (Some "2024-01-02") (Some "goal-1").
(** [create_goal_from_plan] means to require an unchanged plan of the
    goal's session, but compares the goal's session with the record it is given and not
    with the one that is stored: it consumes a plan of another session and moves it. *)
Lemma goal_moves_plan_session :
  let consumed := create_goal_from_plan test_inputs other_goal (moved_plan 2) test_actor test_approved in
  (get_plan "plan-1" test_approved).1 = Ok (Some (approved_plan 2)) /\
  pn_session_id (approved_plan 2) = "s1" /\
  consumed.1 = Ok (other_goal, moved_plan 3) /\
  (get_plan "plan-1" consumed.2).1 = Ok (Some (moved_plan 3)) /\ pn_session_id (moved_plan 3) = "s2".
Proof. vm_compute. split_and!; reflexivity. Qed.

(** ** The services on one journal *)

#[local] Abbreviation test_service := (CommunicationService test_store).
Definition test_supply (n : nat) : Minted :=
  mkMinted (Ok "2024-01-02") (match n with 0 => "p0" | 1 => "m1" | 2 => "m2" | _ => "m3" end).
Definition test_communication (j : test_store) : test_service :=
  mkCommunicationService j ∅ ∅ 0 test_supply 0.
Lemma test_supply_ok n : valid_token (fr_uuid (test_supply n)) = true.
Proof. by destruct n as [|[|[|n]]]. Qed.
Lemma test_peer_input_ok : peer_input_ok.
Proof. intros m. destruct m as [? ? [] ? ? ? ? ? ?]; (split; [cbn; unfold MAX_PARSED_DEPTH; lia|reflexivity]). Qed.
Lemma joint_empty : holds (test_journal : test_store) [] /\ joint_ok [].
Proof.
  split; [exact (conj test_journal_ok (Forall_nil_2 _))|].
  split; [apply test_empty|]. split; [apply work_ok_nil|apply comm_ok_nil].
Qed.

(** A state that holds a joint history with at most [n] events. *)
Definition joint_well {J} `{EventJournalOk J} (s : J) (n : N) : Prop :=
  exists h, holds s h /\ joint_ok h /\ (count h <= n)%N.
Lemma moves_well {J} `{EventJournalOk J} (s s' : J) n size h :
  (count h <= n)%N -> moves joint_batch joint_ok size s h s' -> joint_well s' (n + size).
Proof.
  intros Hn [_ (g & Hg & Hok & Hle)]. exists (h ++ g)%list. split_and!; [done..|]. rewrite count_app. lia.
Qed.
Lemma test_session_joint : joint_well (test_session : test_store) 1.
Proof.
  destruct joint_empty as [Hh Hok].
  by apply (moves_well (test_journal : test_store) _ 0 1 []), (joint_action_moves test_journal [] test_inputs
    (OnSession (DoCreate "s1" None test_actor)) Hh Hok test_inputs_ok (conj I (staged_nil _))).
Qed.

(** The execution "run-1" of session "s1" begins; its owner sends it a message, which is
    included in its first turn. *)
Definition test_owner : Actor := mkActor Application "desk".
Definition test_run : ExecutionContext :=
  mkExecutionContext None "c" None (Some "s1") (Some "run-1") None None None None None [] [] [] None None None None.
Definition test_send : SendAgentMessage := mkSendAgentMessage "p0" "Stop and report" "key-1" None.
Definition test_sent : AgentMessage :=
  mkAgentMessage "m1" "run-1" (ApplicationSender "desk") "p0" 1 "Stop and report" None "2024-01-02" Accepted.
Definition test_batch_prepared : AgentInboxBatch := mkAgentInboxBatch "p0" 3 [test_sent].
Definition test_hash : string := "0123456789abcdef0123456789abcdef0123456789abcdef0123456789abcdef".
Definition run_test (a : CommunicationAction (J:=test_store)) (s : test_service) : test_service :=
  run_communication (fun _ _ => test_inputs) a s.
Definition test_begun : test_service := run_test (CaBeginRun test_run test_owner 1%N) (test_communication test_session).
Definition test_sent_state : test_service :=
  run_test (CaSendFromApplication test_owner test_send (fun _ => op_ret [])) test_begun.
Definition test_included : test_service :=
  run_test (CaInclude test_batch_prepared test_run 1 test_hash) test_sent_state.

Lemma run_well s n a :
  joint_well s n -> communication_fit a -> (n <= 10000000)%N -> joint_well (run_test a s) (n + RECOVER_SIZE).
Proof.
  intros (h & Hh & Hok & Hle) Hfit Hn. eapply moves_well; [exact Hle|].
  apply communication_moves; try done; [apply test_peer_input_ok|intros; apply test_inputs_ok|].
  assert (RECOVER_SIZE = 1066000)%N as -> by reflexivity. unfold u64_max. lia.
Qed.
Lemma test_begun_well : joint_well test_begun (1 + RECOVER_SIZE).
Proof.
  destruct test_session_joint as (h & Hh & Hok & Hle). apply run_well; [|done|done].
  exists h. split_and!; [split; [exact Hh|intros n; apply (test_supply_ok n)]|done|done].
Qed.
Lemma test_sent_well : joint_well test_sent_state (1 + RECOVER_SIZE + RECOVER_SIZE).
Proof. apply run_well; [apply test_begun_well|apply nothing_added|done]. Qed.

(** ** What the services promise *)

(** The messages of the inbox, the transcript, the receipt, and the next batch. *)
Example message_included :
  (list_messages (J:=test_store) test_owner "p0" 0 4 test_sent_state).1 = Ok (mkAgentMessagePage [test_sent] 1 false) /\
  (prepare (J:=test_store) test_run test_sent_state).1 = Ok (Some test_batch_prepared) /\
  (get_message (J:=test_store) test_owner "m1" test_included).1
    = Ok (with_receipt (IncludedInTurn "run-1" 1 test_hash) test_sent) /\
  (prepare (J:=test_store) test_run test_included).1 = Ok None /\
  (try_complete (fun _ => test_inputs) test_run test_sent_state).1 = Ok false /\
  (try_complete (fun _ => test_inputs) test_run test_included).1 = Ok true.
Proof. vm_compute. split_and!; reflexivity. Qed.

Lemma joint_interleaved_witness :
  (exists g, holds (test_session : test_store) g /\ joint_ok g) /\
  exists batches, rtc joint_step (test_journal : test_store, [])
    (run_joint test_inputs (OnWork (CreateTask test_task test_actor)) test_journal, batches).
Proof.
  destruct joint_empty as [Hh Hok].
  destruct (joint_interleaved test_journal test_session [] [] Hh Hok) as [_ Hrun].
  split.
  - destruct test_session_joint as (h & Hs & Hsok & _). by exists h.
  - exact (Hrun test_inputs (OnWork (CreateTask test_task test_actor)) test_inputs_ok (conj I (staged_nil _)) eq_refl).
Defined.

(** A queued job, and the inputs of its request. *)
Definition test_request : CreateSubagentRequest :=
  mkCreateSubagentRequest "s1" "run-1" "call-1" " Look " "worker" (Some ["shell"]) None.
Definition test_fresh : Minted := mkMinted (Ok "2024-01-03") "u1".
Definition run_test_service (a : ServiceAction) (s : test_service) : test_service :=
  run_service (Some child_communication) (fun _ => test_inputs) test_fresh (fr_now test_fresh) test_actor a s.
(** The job is queued, and its attempt is a participant of the execution's scope. *)
Example service_job_queued :
  let s := run_test_service (SvCreateSubagent "s2" test_request) test_begun in
  (match (get_subagent "agent-u1" s).1 with Ok (Some job) => Some (sj_status job) | _ => None end) = Some SJ_Queued /\
  (match (list_participants (J:=test_store) test_owner "run-1" s).1 with
   | Ok l => (fun p => (ap_id p, ap_parent_id p)) <$> l | Err _ => [] end)
  = [("p0", None); ("m1", Some "p0")].
Proof. vm_compute. split; reflexivity. Qed.

Lemma service_refines_witness :
  exists batches, rtc joint_step (test_begun, [])
    (run_test_service (SvCreateSubagent "s2" test_request) test_begun, batches).
Proof.
  destruct test_begun_well as (h & Hh & Hok & Hle).
  refine (proj1 (service_refines (Some child_communication) test_begun h [] (fun _ => test_inputs) test_fresh
    (fr_now test_fresh) test_actor (SvCreateSubagent "s2" test_request) Hh Hok (fun _ => test_inputs_ok)
    child_communication_ok I _)).
  assert (RECOVER_SIZE = 1066000)%N as Hr by reflexivity. rewrite Hr in Hle. unfold SERVICE_SIZE, MAX_STAGED, u64_max. lia.
Defined.

(** The queued job is cancelled: its inbox is closed in the same batch. *)
Definition test_job_queued : test_service := run_test_service (SvCreateSubagent "s2" test_request) test_begun.
#[local] Abbreviation cancel :=
  (run_job_command (Some child_communication) (fun _ => test_inputs) test_fresh "agent-u1"
     (StopJob SJ_Cancelled "not needed") test_actor test_job_queued).
Lemma test_job_queued_well : joint_well test_job_queued (1 + RECOVER_SIZE + SERVICE_SIZE).
Proof.
  destruct test_begun_well as (h & Hh & Hok & Hle). eapply moves_well; [exact Hle|].
  apply create_subagent_moves; [intros _; apply test_inputs_ok|exact child_communication_ok|done|done|].
  assert (RECOVER_SIZE = 1066000)%N as Hr by reflexivity. rewrite Hr in Hle. unfold SERVICE_SIZE, MAX_STAGED, u64_max. lia.
Qed.
Lemma job_command_exact_witness :
  exists job s', cancel = (Ok job, s') /\ sj_status job = SJ_Cancelled /\
    get_subagent "agent-u1" s' = (Ok (Some job), s').
Proof.
  destruct test_job_queued_well as (h & Hh & Hok & Hle).
  assert (count h + SERVICE_SIZE < u64_max)%N as Hroom.
  { assert (RECOVER_SIZE = 1066000)%N as Hr by reflexivity. rewrite Hr in Hle. unfold SERVICE_SIZE, MAX_STAGED, u64_max in *. lia. }
  pose proof (job_command_exact (Some child_communication) (fun _ => test_inputs) (fun _ => test_inputs_ok)
    child_communication_ok test_job_queued h test_fresh "agent-u1" (StopJob SJ_Cancelled "not needed") test_actor
    Hh Hok Hroom) as [_ Hx].
  assert (exists out, cancel.1 = Ok out /\ sj_status out = SJ_Cancelled) as (out & Hr & Hs)
    by (eexists; split; [vm_compute; reflexivity|reflexivity]).
  destruct cancel as [r s'] eqn:Hc. cbn [fst snd] in *. subst r.
  destruct Hx as [[[e He] _]|(job & t & _ & _ & _ & [[(jn & _ & He)|(n & jn & g & _ & _ & _ & _ & _ & Hdone)] _])];
    [discriminate He|discriminate He|].
  destruct (Hdone out eq_refl) as (-> & staged & event & es & _ & _ & _ & _ & _ & Hget).
  exists (job_result (StopJob SJ_Cancelled "not needed") t job), s'. exact (conj eq_refl (conj Hs Hget)).
Defined.

Lemma plan_command_exact_witness :
  exists h event, holds test_drafted h /\
    commits test_drafted test_inputs [event]
      (next_plan Approve "2024-01-03" (test_plan PS_Draft 1 None None))
      (approve_plan_at_revision test_inputs test_fresh "plan-1" 1 test_actor test_drafted).
Proof.
  destruct test_drafted_ok as (h & Hh & Hok & Hle).
  assert ((get_plan "plan-1" test_drafted).1 = Ok (Some (test_plan PS_Draft 1 None None))) as Hr by (vm_compute; reflexivity).
  pose proof (read_plan test_drafted h Hh Hok 1 Hle ltac:(done) "plan-1" _ Hr) as Ht.
  destruct (plan_command_exact test_drafted h Hh Hok test_inputs test_inputs_ok ltac:(unfold u64_max; lia)
    test_fresh "plan-1" 1 Approve test_actor I) as [_ Hc].
  destruct (Hc (test_plan PS_Draft 1 None None) "2024-01-03" Ht eq_refl eq_refl eq_refl ltac:(done) eq_refl) as (event & _ & Hcm).
  exists h, event. exact (conj Hh Hcm).
Defined.

(** An inclusion is a run of the joint system. *)
Lemma communication_refines_witness :
  exists batches, rtc joint_step (test_sent_state, []) (test_included, batches).
Proof.
  destruct test_sent_well as (h & Hh & Hok & Hle).
  refine (proj1 (communication_refines (fun _ _ => test_inputs) (CaInclude test_batch_prepared test_run 1 test_hash)
    h test_sent_state [] test_peer_input_ok (fun _ _ => test_inputs_ok) _ Hh Hok _)); [by vm_compute|].
  assert (RECOVER_SIZE = 1066000)%N as Hr by reflexivity. rewrite Hr in *. unfold u64_max. lia.
Defined.

#[local] Abbreviation test_send_to :=
  (send (fun _ => test_inputs) test_owner (ApplicationSender "desk") test_send (fun _ => op_ret [])).
Definition test_other : SendAgentMessage := mkSendAgentMessage "p0" "Go on" "key-1" None.
(** The message is sent, and sent again: the same message, and no other under its key. *)
Lemma send_once_witness :
  (test_send_to test_begun).1 = Ok test_sent /\
  (exists m, test_send_to (test_send_to test_begun).2 = (Ok m, (test_send_to test_begun).2) /\ am_text m = "Stop and report") /\
  exists e, send (fun _ => test_inputs) test_owner (ApplicationSender "desk") test_other (fun _ => op_ret [])
    (test_send_to test_begun).2 = (Err e, (test_send_to test_begun).2).
Proof.
  destruct test_begun_well as (h & Hh & Hok & Hle).
  assert (RECOVER_SIZE = 1066000)%N as Hr by reflexivity. rewrite Hr in Hle.
  assert (sends_as test_owner (ApplicationSender "desk")) as Has by (by intros id [= <-]).
  assert (count h + SEND_SIZE + 1 < u64_max)%N as Hroom
    by (assert (SEND_SIZE = 8048)%N as -> by reflexivity; unfold u64_max; lia).
  destruct (send_moves (fun _ => test_inputs) test_owner (ApplicationSender "desk") test_send (fun _ => op_ret []) h
    test_begun (fun _ => test_inputs_ok) nothing_added Has Hh Hok Hroom) as [_ (g & Hg & Hgok & Hgle)].
  assert ((test_send_to test_begun).1 = Ok test_sent) as Hx by (vm_compute; reflexivity).
  assert (test_send_to test_begun = (Ok test_sent, (test_send_to test_begun).2)) as Hx2
    by (rewrite <- Hx; apply surjective_pairing).
  assert (holds (test_send_to test_begun).2 ((h ++ g) ++ [])) as Hg2 by (rewrite app_nil_r; exact Hg).
  assert (joint_ok ((h ++ g) ++ [])) as Hgok2 by (rewrite app_nil_r; exact Hgok).
  destruct (send_once (fun _ => test_inputs) (fun _ => test_inputs) test_owner (ApplicationSender "desk") test_send
    (fun _ => op_ret []) (fun _ => op_ret []) h (h ++ g) [] test_begun (test_send_to test_begun).2
    (test_send_to test_begun).2 test_sent (fun _ => test_inputs_ok) nothing_added Has Hh Hok Hroom Hx2 Hg Hg2 Hgok2)
    as [(m & Hm & He) Hother].
  - rewrite app_nil_r, count_app. assert (SEND_SIZE = 8048)%N as Hs by reflexivity. rewrite Hs in Hgle. unfold u64_max. lia.
  - refine (conj Hx (conj (ex_intro _ m (conj Hm _)) (Hother test_other eq_refl _))); [by rewrite He|by vm_compute].
Defined.

(** The execution's attempt in the history of a state. *)
Lemma test_part (s : test_service) h x :
  holds s h -> (count h + 1 < u64_max)%N -> joint_ok h ->
  match (participant (J:=test_store) "p0" s).1 with Ok (p, _) => Some p | Err _ => None end = Some x ->
  part (comm_store h) "p0" = Some x.
Proof.
  intros Hh Hmax Hok. rewrite (participant_is h Hmax (comm_part h Hok) "p0" s Hh).
  by destruct (part (comm_store h) "p0").
Qed.
Lemma test_run_is (s : test_service) h p v :
  holds s h -> (count h + 1 < u64_max)%N -> joint_ok h ->
  (participant_for_run (J:=test_store) "run-1" s).1 = Ok (Some (p, v)) -> run_is h "run-1" (ap_id (pt_participant p)).
Proof.
  intros Hh Hmax Hok. rewrite (participant_for_run_is h Hmax (comm_part h Hok) "run-1" s Hh). cbn [fst]. unfold run_part.
  destruct (latest (comm_store h (run_stream "run-1"))) as [i|] eqn:Hi; [|discriminate]. cbn [option_bind mbind].
  destruct (part (comm_store h) (ai_participant_id i)) as [q|] eqn:Hq; [|discriminate]. intros [= <- <-].
  exists i. split; [exact Hi|]. by destruct (wf_participant _ (proj1 (comm_part h Hok)) _ _ Hq) as [-> _].
Qed.
Definition test_participant : ParticipantState :=
  mkParticipantState
    (mkAgentParticipant "p0" "run-1" test_owner "s1" (Some "run-1") None None 1 true None 1 15 "2024-01-02")
    [mkPendingInput "m1" 15] 1 None.
Lemma test_room (h : history) : (count h <= 1 + RECOVER_SIZE + RECOVER_SIZE)%N -> (count h + 10000 < u64_max)%N.
Proof. assert (RECOVER_SIZE = 1066000)%N as -> by reflexivity. unfold u64_max. lia. Qed.

Lemma inbox_listed_witness :
  exists ms, (list_messages (J:=test_store) test_owner "p0" 0 4 test_sent_state).1
    = Ok (mkAgentMessagePage ms (0 + count ms) (0 + count ms <? 1)%N) /\ count ms = 1%N.
Proof.
  destruct test_sent_well as (h & Hh & Hok & Hle%test_room).
  assert (count h + 1 < u64_max)%N as Hmax by lia.
  assert (part (comm_store h) "p0" = Some test_participant) as Hp by
    (apply (test_part test_sent_state h test_participant Hh Hmax Hok); vm_compute; reflexivity).
  destruct (inbox_listed test_sent_state h Hh Hmax (comm_part h Hok) test_owner "p0" 0 4) as (_ & _ & _ & _ & _ & Hl).
  destruct (Hl test_participant eq_refl Hp eq_refl ltac:(done)) as (ms & Hms & Hc & _).
  exists ms. exact (conj Hms Hc).
Defined.

Lemma closing_settles_witness :
  exists h g, (close_run (fun _ => test_inputs) "run-1" MF_Cancelled test_sent_state).1 = Ok tt /\
    part (comm_store (h ++ g)) "p0" = Some (closed MF_Cancelled test_participant) /\
    cs_controls (close_run (fun _ => test_inputs) "run-1" MF_Cancelled test_sent_state).2 !! "run-1" = None.
Proof.
  destruct test_sent_well as (h & Hh & Hok & Hle%test_room).
  assert (count h + 1 < u64_max)%N as Hmax by lia.
  assert (part (comm_store h) "p0" = Some test_participant) as Hp by
    (apply (test_part test_sent_state h test_participant Hh Hmax Hok); vm_compute; reflexivity).
  assert (run_is h "run-1" "p0") as Hrun by
    (apply (test_run_is test_sent_state h test_participant 3%N Hh Hmax Hok); vm_compute; reflexivity).
  assert ((close_run (fun _ => test_inputs) "run-1" MF_Cancelled test_sent_state).1 = Ok tt) as Hx by (vm_compute; reflexivity).
  assert (count h + CLOSE_SIZE + 1 < u64_max)%N as Hroom by (assert (CLOSE_SIZE = 1040)%N as -> by reflexivity; lia).
  destruct (closing_settles (fun _ => test_inputs) "run-1" "p0" h test_sent_state (fun _ => test_inputs_ok) Hh Hok Hroom Hrun)
    as [Hclose _].
  destruct (Hclose MF_Cancelled (close_run (fun _ => test_inputs) "run-1" MF_Cancelled test_sent_state).2) as (g & _ & _ & Hc & Hctl);
    [rewrite <- Hx; apply surjective_pairing|].
  destruct Hc as (p & Hp0 & Hp1 & _). assert (p = test_participant) as -> by congruence.
  exists h, g. exact (conj Hx (conj Hp1 Hctl)).
Defined.

Lemma inclusion_atomic_witness :
  exists before out,
    Session.list_messages "s1" test_sent_state = (Ok before, test_sent_state) /\
    Session.list_messages "s1" test_included = (Ok (before ++ out)%list, test_included) /\
    sm_message <$> out = agent_input_messages test_batch_prepared.
Proof.
  destruct test_sent_well as (h & Hh & Hok & Hle%test_room).
  assert (count h + 1 < u64_max)%N as Hmax by lia.
  assert (part (comm_store h) "p0" = Some test_participant) as Hp by
    (apply (test_part test_sent_state h test_participant Hh Hmax Hok); vm_compute; reflexivity).
  assert (count h + INCLUDE_SIZE + 1 < u64_max)%N as Hroom by (assert (INCLUDE_SIZE = 138)%N as -> by reflexivity; lia).
  assert (include test_inputs test_batch_prepared test_run 1 test_hash test_sent_state = (Ok tt, test_included)) as Hx.
  { assert ((include test_inputs test_batch_prepared test_run 1 test_hash test_sent_state).1 = Ok tt) as <-
      by (vm_compute; reflexivity). apply surjective_pairing. }
  destruct (inclusion_atomic test_inputs test_batch_prepared test_run 1 test_hash h test_sent_state test_included
    test_peer_input_ok test_inputs_ok ltac:(by vm_compute) Hh Hok Hroom Hx)
    as (run_id & p & sc & g & before & out & Hin & _ & Hb & Ha & Hm & _).
  destruct Hin as [_ Hp0 _ _ _ _]. assert (p = test_participant) as -> by (cbn in Hp0; congruence).
  exists before, out. exact (conj Hb (conj Ha Hm)).
Defined.

(** After a restart, the execution that had begun is closed as interrupted. *)
Definition begun_participant : ParticipantState :=
  mkParticipantState
    (mkAgentParticipant "p0" "run-1" test_owner "s1" (Some "run-1") None None 1 true None 0 0 "2024-01-02") [] 0 None.
Lemma recovery_ends_witness :
  exists h g s', recover 2 (fun _ _ => test_inputs) test_begun = (Ok 1, s') /\ holds s' (h ++ g) /\
    part (comm_store (h ++ g)) "p0" = Some (closed MF_Interrupted begun_participant).
Proof.
  destruct test_begun_well as (h & Hh & Hok & Hle). assert (RECOVER_SIZE = 1066000)%N as Hr by reflexivity.
  assert (count h + 1 < u64_max)%N as Hmax by (rewrite Hr in Hle; unfold u64_max; lia).
  assert (count h + RECOVER_SIZE + 1 < u64_max)%N as Hroom by (rewrite Hr in *; unfold u64_max; lia).
  assert (part (comm_store h) "p0" = Some begun_participant) as Hp by
    (apply (test_part test_begun h begun_participant Hh Hmax Hok); vm_compute; reflexivity).
  assert (streams_of "agent-participant:" h = 1) as Hs.
  { assert ((ej_list_stream_ids "agent-participant:" None 128 test_begun).1 = Ok ["agent-participant:p0"]) as Hl
      by (vm_compute; reflexivity).
    rewrite (ej_list_stream_ids_ok test_begun h "agent-participant:" None 128 Hh eq_refl ltac:(done)) in Hl.
    cbn [fst] in Hl. change (N.to_nat (N.min 128 MAX_STREAM_LIST_BATCH)) with 128 in Hl. injection Hl as Hl.
    unfold streams_of. apply (f_equal length) in Hl. rewrite length_take in Hl. change (length ["agent-participant:p0"]) with 1 in Hl. lia. }
  assert (recover 2 (fun _ _ => test_inputs) test_begun = (Ok 1, (recover 2 (fun _ _ => test_inputs) test_begun).2)) as Hx.
  { assert ((recover 2 (fun _ _ => test_inputs) test_begun).1 = Ok 1) as <- by (vm_compute; reflexivity). apply surjective_pairing. }
  destruct (recovery_ends (fun _ _ => test_inputs) (fun _ _ => test_inputs_ok) h test_begun Hh Hok Hroom) as [_ Hdone].
  rewrite Hs in Hdone. destruct (Hdone 1 _ Hx) as (g & Hg & _ & Hall).
  exists h, g, (recover 2 (fun _ _ => test_inputs) test_begun).2. refine (conj Hx (conj Hg _)). rewrite Hall, Hp. reflexivity.
Defined.
