(* ===== verification/WorkflowCondition.v ===== *)
(** * Workflow conditions

    [crates/colossus-workflow/src/condition.rs]: the restricted expressions that choose
    a branch of a workflow: the tokenizer, the recursive-descent parser with its bounds on
    nesting and on boolean nodes, and the evaluator over a JSON context.  Sources are
    UTF-8; the parser's recursion has a fuel that [Condition_parse] makes large enough
    ([condition_parse_exact] says so).  [serde_json::from_str] and the [Debug] form of a
    string (it depends on the tables of Unicode) are the class [ConditionCodec].

    [print] is the inverse the round trip is stated with; it is not in the sources. *)

From S2P Require Import Prelude Json Boundary.
From Stdlib Require Import SpecFloat.

Open Scope string_scope.

Definition MAX_CONDITION_BYTES : N := 16384.
Definition MAX_CONDITION_TOKENS : N := 4096.
Definition MAX_CONDITION_DEPTH : N := 128.

(** [WorkflowError]. *)
Inductive WorkflowError :=
| WE_Conflict (s : string)
| PermissionDenied
| InvalidDefinition (s : string)
| Schema (s : string)
| WE_NotFound (s : string)
| InvalidTransition (s : string)
| Effect (s : string)
| OutcomeUnknown (s : string)
| WE_Store (e : StoreError).

Inductive Compare := Eq_ | Ne_ | Gt_ | Ge_ | Lt_ | Le_.
Inductive Operand := OPointer (path : string) | OLiteral (v : value).
Inductive Expr :=
| Exists (path : string)
| ECompare (left : Operand) (comparison : Compare) (right : Operand)
| Not (e : Expr)
| And (left right : Expr)
| Or (left right : Expr).
Inductive Token :=
| TExists
| TPointer (path : string)
| TLiteral (v : value)
| TLParen
| TRParen
| TNot
| TAnd
| TOr
| TCompare (comparison : Compare).

#[export] Instance Compare_eq_dec : EqDecision Compare.
Proof. solve_decision. Defined.

Class ConditionCodec := {
  json_from_str : string -> option value;
  debug_str : string -> string;
  (** The empty text is not JSON. *)
  json_from_empty : json_from_str "" = None;
}.

(** ** Tokens *)

Definition is_ascii_whitespace (c : ascii) : bool :=
  existsb (fun n => N.eqb n (byte_n c)) [9; 10; 12; 13; 32]%N.
Definition is_operator_byte (c : ascii) : bool :=
  existsb (ascii_eqb c) ["("; ")"; "!"; "="; "<"; ">"; "&"; "|"]%char.

(** [&s[..n]] and [&s[n..]]. *)
Definition str_to (n : nat) (s : string) : string := of_bytes (take n (bytes s)).
Definition str_from (n : nat) (s : string) : string := of_bytes (drop n (bytes s)).

(** [tail.find(..).unwrap_or(tail.len())]: the bytes before the first character that is
    white space or opens an operator. *)
Fixpoint word_length (l : list ascii) : nat :=
  match l with
  | [] => 0
  | c :: l' =>
      if is_some (strip_one white_space_encodings l) || is_operator_byte c then 0
      else S (word_length l')
  end.

(** The loop of [json_string_length], behind the opening quote. *)
Fixpoint string_end (escaped : bool) (index : nat) (l : list ascii) : option nat :=
  match l with
  | [] => None
  | c :: l' =>
      if escaped then string_end false (S index) l'
      else if ascii_eqb c "\" then string_end true (S index) l'
      else if (byte_n c =? 34)%N then Some (index + 1)
      else string_end false (S index) l'
  end.
Definition json_string_length (source : string) : result WorkflowError nat :=
  ok_or (string_end false 1 (drop 1 (bytes source)))
    (InvalidDefinition "unterminated JSON string in condition").

Definition quote : string := String (ascii_of_N 34) "".

Section Tokenizer.
Context `{ConditionCodec}.

Definition literal_length (tail : string) : result WorkflowError nat :=
  if starts_with tail quote then json_string_length tail
  else Ok (word_length (bytes tail)).
Definition literal (tail : string) : result WorkflowError (Token * nat) :=
  length ← literal_length tail;
  v ← ok_or (json_from_str (str_to length tail))
    (InvalidDefinition ("condition literal " ++s debug_str (str_to length tail)
      ++s " is not JSON"));
  Ok (TLiteral v, length).

(** One token of [tokenize] and the bytes it takes. *)
Definition next_token (tail : string) : result WorkflowError (Token * nat) :=
  if starts_with tail "exists" then Ok (TExists, 6)
  else if starts_with tail "&&" then Ok (TAnd, 2)
  else if starts_with tail "||" then Ok (TOr, 2)
  else if starts_with tail "==" then Ok (TCompare Eq_, 2)
  else if starts_with tail "!=" then Ok (TCompare Ne_, 2)
  else if starts_with tail ">=" then Ok (TCompare Ge_, 2)
  else if starts_with tail "<=" then Ok (TCompare Le_, 2)
  else if starts_with tail "!" then Ok (TNot, 1)
  else if starts_with tail ">" then Ok (TCompare Gt_, 1)
  else if starts_with tail "<" then Ok (TCompare Lt_, 1)
  else if starts_with tail "(" then Ok (TLParen, 1)
  else if starts_with tail ")" then Ok (TRParen, 1)
  else if starts_with tail "/" then
    let length := word_length (bytes tail) in
    Ok (TPointer (str_to length tail), length)
  else literal tail.

(** The loop, on what is left of the source; [None] is out of fuel. *)
Fixpoint tokenize_from (fuel : nat) (tail : string) (tokens : list Token)
    : option (result WorkflowError (list Token)) :=
  match fuel with
  | O => None
  | S fuel =>
      match tail with
      | EmptyString => Some (Ok tokens)
      | String c rest =>
          if is_ascii_whitespace c then tokenize_from fuel rest tokens
          else match next_token tail with
               | Ok (token, consumed) =>
                   tokenize_from fuel (str_from consumed tail) (tokens ++ [token])%list
               | Err e => Some (Err e)
               end
      end
  end.
Definition tokenize (source : string) : option (result WorkflowError (list Token)) :=
  match tokenize_from (S (String.length source)) source [] with
  | Some (Ok []) => Some (Err (InvalidDefinition "condition cannot be empty"))
  | r => r
  end.
End Tokenizer.

(** ** The parser *)

Record Parser := mkParser {
  tokens : list Token;
  position : nat;
  depth : N;
  complexity : N;
}.

(** [&mut Parser] and [Result]; [None] is out of fuel. *)
Definition parsing (A : Type) : Type := Parser -> option (result WorkflowError (A * Parser)).
Definition p_ret {A} (a : A) : parsing A := fun s => Some (Ok (a, s)).
Definition p_fail {A} (e : WorkflowError) : parsing A := fun _ => Some (Err e).
Definition p_bind {A B} (m : parsing A) (f : A -> parsing B) : parsing B := fun s =>
  match m s with
  | Some (Ok (a, s')) => f a s'
  | Some (Err e) => Some (Err e)
  | None => None
  end.
Declare Scope parsing_scope.
Notation "x <~ m ;; k" := (p_bind m (fun x => k))
  (at level 100, m at next level, right associativity) : parsing_scope.
Open Scope parsing_scope.

Definition number_eqb (a b : number) : bool :=
  match a, b with
  | PosInt n, PosInt m => N.eqb n m
  | NegInt x, NegInt y => Z.eqb x y
  | Float f, Float g => SFeqb f g
  | _, _ => false
  end.
(** [==] on [serde_json::Value]: floats compare as floats. *)
Fixpoint json_eqb (v w : value) : bool :=
  match v, w with
  | Null, Null => true
  | Bool a, Bool b => Bool.eqb a b
  | Number n, Number m => number_eqb n m
  | Str s, Str t => String.eqb s t
  | Array l, Array l' =>
      (fix go l l' :=
        match l, l' with
        | [], [] => true
        | x :: r, y :: r' => json_eqb x y && go r r'
        | _, _ => false
        end) l l'
  | Object fs, Object fs' =>
      (fix go fs fs' :=
        match fs, fs' with
        | [], [] => true
        | (k, x) :: r, (k', y) :: r' => String.eqb k k' && json_eqb x y && go r r'
        | _, _ => false
        end) fs fs'
  | _, _ => false
  end.
Definition token_eqb (a b : Token) : bool :=
  match a, b with
  | TExists, TExists | TLParen, TLParen | TRParen, TRParen
  | TNot, TNot | TAnd, TAnd | TOr, TOr => true
  | TPointer p, TPointer q => String.eqb p q
  | TLiteral v, TLiteral w => json_eqb v w
  | TCompare c, TCompare d => bool_decide (c = d)
  | _, _ => false
  end.

Definition advance (s : Parser) : Parser :=
  mkParser (tokens s) (S (position s)) (depth s) (complexity s).
Definition consume (expected : Token) : parsing bool := fun s =>
  if is_some_and (tokens s !! position s) (fun t => token_eqb t expected)
  then Some (Ok (true, advance s)) else Some (Ok (false, s)).
Definition next : parsing (option Token) := fun s =>
  match tokens s !! position s with
  | Some t => Some (Ok (Some t, advance s))
  | None => Some (Ok (None, s))
  end.
Definition expect (expected : Token) (message : string) : parsing unit :=
  found <~ consume expected;;
  if found then p_ret tt else p_fail (InvalidDefinition message).

Definition add_boolean_node : parsing unit := fun s =>
  if (MAX_CONDITION_DEPTH <=? complexity s)%N
  then Some (Err (InvalidDefinition ("condition boolean complexity exceeds "
         ++s pretty MAX_CONDITION_DEPTH ++s " nodes")))
  else Some (Ok (tt, mkParser (tokens s) (position s) (depth s) (complexity s + 1))).
Definition nested {A} (parse : parsing A) : parsing A := fun s =>
  if (MAX_CONDITION_DEPTH <=? depth s)%N
  then Some (Err (InvalidDefinition ("condition nesting exceeds "
         ++s pretty MAX_CONDITION_DEPTH ++s " levels")))
  else match parse (mkParser (tokens s) (position s) (depth s + 1) (complexity s)) with
       | Some (Ok (a, s')) =>
           Some (Ok (a, mkParser (tokens s') (position s') (depth s' - 1) (complexity s')))
       | r => r
       end.

Definition parse_operand : parsing Operand :=
  t <~ next;;
  match t with
  | Some (TPointer p) => p_ret (OPointer p)
  | Some (TLiteral v) => p_ret (OLiteral v)
  | _ => p_fail (InvalidDefinition "condition comparison operand is missing")
  end.
(** The [exists(..)] and comparison branches of [parse_unary]. *)
Definition parse_exists : parsing Expr :=
  _ <~ expect TLParen "exists requires parentheses";;
  t <~ next;;
  match t with
  | Some (TPointer p) =>
      _ <~ expect TRParen "exists is missing a closing parenthesis";;
      p_ret (Exists p)
  | _ => p_fail (InvalidDefinition "exists requires a JSON pointer")
  end.
Definition parse_comparison : parsing Expr :=
  left <~ parse_operand;;
  t <~ next;;
  match t with
  | Some (TCompare c) =>
      right <~ parse_operand;;
      p_ret (ECompare left c right)
  | _ => p_fail (InvalidDefinition "conditions must use exists or an explicit comparison")
  end.

(** [or_loop] and [and_loop] are the [while] loops of [parse_or] and [parse_and]. *)
Fixpoint parse_or (fuel : nat) : parsing Expr :=
  match fuel with
  | O => fun _ => None
  | S fuel => expression <~ parse_and fuel;; or_loop fuel expression
  end
with or_loop (fuel : nat) (expression : Expr) : parsing Expr :=
  match fuel with
  | O => fun _ => None
  | S fuel =>
      more <~ consume TOr;;
      if more then
        _ <~ add_boolean_node;;
        right <~ parse_and fuel;;
        or_loop fuel (Or expression right)
      else p_ret expression
  end
with parse_and (fuel : nat) : parsing Expr :=
  match fuel with
  | O => fun _ => None
  | S fuel => expression <~ parse_unary fuel;; and_loop fuel expression
  end
with and_loop (fuel : nat) (expression : Expr) : parsing Expr :=
  match fuel with
  | O => fun _ => None
  | S fuel =>
      more <~ consume TAnd;;
      if more then
        _ <~ add_boolean_node;;
        right <~ parse_unary fuel;;
        and_loop fuel (And expression right)
      else p_ret expression
  end
with parse_unary (fuel : nat) : parsing Expr :=
  match fuel with
  | O => fun _ => None
  | S fuel =>
      negated <~ consume TNot;;
      if negated then
        _ <~ add_boolean_node;;
        expression <~ nested (parse_unary fuel);;
        p_ret (Not expression)
      else
        grouped <~ consume TLParen;;
        if grouped then
          expression <~ nested (parse_or fuel);;
          _ <~ expect TRParen "condition is missing a closing parenthesis";;
          p_ret expression
        else
          existence <~ consume TExists;;
          if existence then parse_exists else parse_comparison
  end.

(** Every call takes a unit of fuel and every second one a token. *)
Definition parser_fuel (tokens : list Token) : nat := 4 * length tokens + 4.

(** [Condition::parse]. *)
Definition Condition_parse `{ConditionCodec} (source : string) : option (result WorkflowError Expr) :=
  if (MAX_CONDITION_BYTES <? slen source)%N
  then Some (Err (InvalidDefinition ("condition exceeds " ++s pretty MAX_CONDITION_BYTES
         ++s " bytes")))
  else
    match tokenize source with
    | None => None
    | Some (Err e) => Some (Err e)
    | Some (Ok tokens) =>
        if (MAX_CONDITION_TOKENS <? count tokens)%N
        then Some (Err (InvalidDefinition ("condition exceeds " ++s pretty MAX_CONDITION_TOKENS
               ++s " tokens")))
        else
          match parse_or (parser_fuel tokens) (mkParser tokens 0 0 0) with
          | None => None
          | Some (Err e) => Some (Err e)
          | Some (Ok (expression, parser)) =>
              if negb (Nat.eqb (position parser) (length tokens))
              then Some (Err (InvalidDefinition "condition has trailing tokens"))
              else Some (Ok expression)
          end
    end.

(** ** Evaluation *)

Definition operand_value (o : Operand) (context : value) : option value :=
  match o with
  | OPointer path => pointer context path
  | OLiteral v => Some v
  end.

(** [Number::as_f64]: integers round to nearest, ties to even. *)
Definition f64_of_Z (z : Z) : spec_float := binary_normalize 53 1024 z 0 false.
Definition as_f64 (n : number) : spec_float :=
  match n with
  | PosInt n => f64_of_Z (Z.of_N n)
  | NegInt z => f64_of_Z z
  | Float f => f
  end.

Definition ordering_of (left right : value) : option comparison :=
  match left, right with
  | Number a, Number b => SFcompare (as_f64 a) (as_f64 b)
  | Str a, Str b => Some (String.compare a b)
  | _, _ => None
  end.
Definition compare_order (left right : value) (c : Compare) : bool :=
  is_some_and (ordering_of left right) (fun o =>
    match c, o with
    | Gt_, Gt => true
    | Ge_, (Gt | Eq) => true
    | Lt_, Lt => true
    | Le_, (Lt | Eq) => true
    | _, _ => false
    end).
Definition evaluate_compare (left : Operand) (c : Compare) (right : Operand) (context : value)
    : bool :=
  match operand_value left context, operand_value right context with
  | Some l, Some r =>
      match c with
      | Eq_ => json_eqb l r
      | Ne_ => negb (json_eqb l r)
      | _ => compare_order l r c
      end
  | _, _ => false
  end.
Fixpoint evaluate_expr (e : Expr) (context : value) : bool :=
  match e with
  | Exists path => is_some (pointer context path)
  | Not e => negb (evaluate_expr e context)
  | And l r => evaluate_expr l context && evaluate_expr r context
  | Or l r => evaluate_expr l context || evaluate_expr r context
  | ECompare l c r => evaluate_compare l c r context
  end.

(** ** The grammar *)

Definition operand_token (o : Operand) : Token :=
  match o with OPointer p => TPointer p | OLiteral v => TLiteral v end.

(** A text of tokens, the expression it is, and how deep [!] and parentheses nest. *)
Inductive disjunction : list Token -> Expr -> N -> Prop :=
| Disj_one ts e d : conjunction ts e d -> disjunction ts e d
| Disj_more ts l d ts' r d' : disjunction ts l d -> conjunction ts' r d' ->
    disjunction (ts ++ TOr :: ts') (Or l r) (N.max d d')
with conjunction : list Token -> Expr -> N -> Prop :=
| Conj_one ts e d : factor ts e d -> conjunction ts e d
| Conj_more ts l d ts' r d' : conjunction ts l d -> factor ts' r d' ->
    conjunction (ts ++ TAnd :: ts') (And l r) (N.max d d')
with factor : list Token -> Expr -> N -> Prop :=
| Factor_not ts e d : factor ts e d -> factor (TNot :: ts) (Not e) (1 + d)
| Factor_group ts e d : disjunction ts e d -> factor (TLParen :: ts ++ [TRParen]) e (1 + d)
| Factor_exists p : factor [TExists; TLParen; TPointer p; TRParen] (Exists p) 0
| Factor_compare l c r :
    factor [operand_token l; TCompare c; operand_token r] (ECompare l c r) 0.
Scheme disjunction_mut := Minimality for disjunction Sort Prop
  with conjunction_mut := Minimality for conjunction Sort Prop
  with factor_mut := Minimality for factor Sort Prop.
Combined Scheme grammar_ind from disjunction_mut, conjunction_mut, factor_mut.

(** The boolean nodes of an expression. *)
Fixpoint booleans (e : Expr) : N :=
  match e with
  | Exists _ | ECompare _ _ _ => 0
  | Not e => 1 + booleans e
  | And l r | Or l r => 1 + booleans l + booleans r
  end.

(** An expression as tokens, with parentheses where a level needs them: 0 for a
    disjunction, 1 for a conjunction, 2 for a factor; and how deep that nests. *)
Definition group (grouped : bool) (ts : list Token) : list Token :=
  if grouped then TLParen :: ts ++ [TRParen] else ts.
Fixpoint print (level : nat) (e : Expr) : list Token :=
  match e with
  | Or l r => group (Nat.leb 1 level) (print 0 l ++ TOr :: print 1 r)
  | And l r => group (Nat.leb 2 level) (print 1 l ++ TAnd :: print 2 r)
  | Not e => TNot :: print 2 e
  | Exists p => [TExists; TLParen; TPointer p; TRParen]
  | ECompare l c r => [operand_token l; TCompare c; operand_token r]
  end.
Fixpoint nesting (level : nat) (e : Expr) : N :=
  match e with
  | Or l r => (if Nat.leb 1 level then 1 else 0) + N.max (nesting 0 l) (nesting 1 r)
  | And l r => (if Nat.leb 2 level then 1 else 0) + N.max (nesting 1 l) (nesting 2 r)
  | Not e => 1 + nesting 2 e
  | Exists _ | ECompare _ _ _ => 0
  end.

(** The texts of a token. *)
Definition is_word (s : string) : Prop := word_length (bytes s) = String.length s.
Definition operator_text (t : Token) : option string :=
  match t with
  | TExists => Some "exists"
  | TLParen => Some "("
  | TRParen => Some ")"
  | TNot => Some "!"
  | TAnd => Some "&&"
  | TOr => Some "||"
  | TCompare Eq_ => Some "=="
  | TCompare Ne_ => Some "!="
  | TCompare Gt_ => Some ">"
  | TCompare Ge_ => Some ">="
  | TCompare Lt_ => Some "<"
  | TCompare Le_ => Some "<="
  | TPointer _ | TLiteral _ => None
  end.
Inductive spelling `{ConditionCodec} : Token -> string -> Prop :=
| Spell_operator t s : operator_text t = Some s -> spelling t s
| Spell_pointer s : starts_with s "/" = true -> is_word s -> spelling (TPointer s) s
| Spell_word v s : is_word s -> starts_with s "exists" = false -> starts_with s "/" = false ->
    starts_with s quote = false -> json_from_str s = Some v -> spelling (TLiteral v) s
| Spell_string v s : starts_with s quote = true ->
    json_string_length s = Ok (String.length s) -> json_from_str s = Some v ->
    spelling (TLiteral v) s.
Fixpoint spaced (l : list string) : string :=
  match l with
  | [] => ""
  | [s] => s
  | s :: l => s ++s " " ++s spaced l
  end.

(** ** The parser reads the grammar *)

Definition rest (s : Parser) : list Token := drop (position s) (tokens s).
(** The parser's state behind a text that is the expression. *)
Definition after (ts : list Token) (e : Expr) (s : Parser) : Parser :=
  mkParser (tokens s) (position s + length ts) (depth s) (complexity s + booleans e).
(** The parser can go from [s] over [ts] within its bounds. *)
Definition reads (ts : list Token) (e : Expr) (d : N) (s : Parser) : Prop :=
  take (length ts) (rest s) = ts /\
  (depth s <= MAX_CONDITION_DEPTH -> depth s + d <= MAX_CONDITION_DEPTH)%N /\
  (complexity s <= MAX_CONDITION_DEPTH -> complexity s + booleans e <= MAX_CONDITION_DEPTH)%N.

Definition skip (n : nat) (s : Parser) : Parser :=
  mkParser (tokens s) (position s + n) (depth s) (complexity s).
Definition is_constant (t : Token) : bool := is_some (operator_text t).

Lemma token_eqb_constant t t' : is_constant t' = true -> token_eqb t t' = true <-> t = t'.
Proof.
  destruct t, t'; simpl; try done; intros _.
  rewrite bool_decide_eq_true. naive_solver.
Qed.

Lemma lookup_rest s : tokens s !! position s = head (rest s).
Proof. unfold rest. by rewrite head_lookup, lookup_drop, Nat.add_0_r. Qed.

Lemma rest_skip n s : rest (skip n s) = drop n (rest s).
Proof. unfold rest, skip; simpl. by rewrite drop_drop. Qed.

Lemma skip_0 s : skip 0 s = s.
Proof. destruct s. unfold skip; simpl. by rewrite Nat.add_0_r. Qed.

Lemma consume_spec t s : is_constant t = true ->
  (exists r, rest s = t :: r /\ consume t s = Some (Ok (true, skip 1 s)))
  \/ (head (rest s) <> Some t /\ consume t s = Some (Ok (false, s))).
Proof.
  intros Ht. unfold consume. rewrite lookup_rest. destruct (rest s) as [|t' r]; simpl; [by right|].
  destruct (token_eqb t' t) eqn:E.
  - apply (token_eqb_constant _ _ Ht) in E as ->. left. exists r. split; [done|].
    unfold advance, skip. by rewrite Nat.add_1_r.
  - right. split; [|done]. intros [= ->].
    by rewrite (proj2 (token_eqb_constant t t Ht) eq_refl) in E.
Qed.

Lemma consume_yes t r s : is_constant t = true -> rest s = t :: r ->
  consume t s = Some (Ok (true, skip 1 s)).
Proof.
  intros Ht Hr. destruct (consume_spec t s Ht) as [(? & _ & ?)|[Hh _]]; [done|].
  by rewrite Hr in Hh.
Qed.

Lemma consume_no t s : is_constant t = true -> head (rest s) <> Some t ->
  consume t s = Some (Ok (false, s)).
Proof.
  intros Ht Hr. by destruct (consume_spec t s Ht) as [(? & E & _)|[_ ?]]; [rewrite E in Hr|].
Qed.

Lemma next_spec s :
  next s = match rest s with
           | t :: _ => Some (Ok (Some t, skip 1 s))
           | [] => Some (Ok (None, s))
           end.
Proof.
  unfold next. rewrite lookup_rest. destruct (rest s); simpl; [done|].
  unfold advance, skip. by rewrite Nat.add_1_r.
Qed.

(** *** A successful computation, taken apart *)

Lemma p_bind_Ok {A B} (m : parsing A) (f : A -> parsing B) s b s' :
  p_bind m f s = Some (Ok (b, s')) <->
  exists a s1, m s = Some (Ok (a, s1)) /\ f a s1 = Some (Ok (b, s')).
Proof.
  unfold p_bind. split.
  - destruct (m s) as [[[a s1]|]|]; naive_solver.
  - by intros (a & s1 & -> & ?).
Qed.

Lemma expect_Ok t message s u s' : is_constant t = true ->
  expect t message s = Some (Ok (u, s')) ->
  exists r, rest s = t :: r /\ s' = skip 1 s.
Proof.
  intros Ht. unfold expect, p_bind.
  destruct (consume_spec t s Ht) as [(r & Hr & ->)|[_ ->]]; simpl; [|done].
  intros [= _ <-]. eauto.
Qed.

Lemma add_boolean_node_Ok s u s' : add_boolean_node s = Some (Ok (u, s')) <->
  (complexity s < MAX_CONDITION_DEPTH)%N /\
  s' = mkParser (tokens s) (position s) (depth s) (complexity s + 1) /\ u = tt.
Proof.
  unfold add_boolean_node. destruct (N.leb_spec MAX_CONDITION_DEPTH (complexity s)).
  - split; [done|lia].
  - destruct u. naive_solver.
Qed.

Definition deeper (s : Parser) : Parser :=
  mkParser (tokens s) (position s) (depth s + 1) (complexity s).
Definition shallower (s : Parser) : Parser :=
  mkParser (tokens s) (position s) (depth s - 1) (complexity s).
Lemma nested_Ok {A} (m : parsing A) s a s' : nested m s = Some (Ok (a, s')) <->
  (depth s < MAX_CONDITION_DEPTH)%N /\
  exists s1, m (deeper s) = Some (Ok (a, s1)) /\ s' = shallower s1.
Proof.
  unfold nested, deeper, shallower. destruct (N.leb_spec MAX_CONDITION_DEPTH (depth s)).
  - split; [done|lia].
  - destruct (m _) as [[[a' s1]|]|]; naive_solver.
Qed.

(** *** Soundness *)

Lemma parse_operand_Ok s o s' : parse_operand s = Some (Ok (o, s')) ->
  exists r, rest s = operand_token o :: r /\ s' = skip 1 s.
Proof.
  unfold parse_operand, p_bind. rewrite next_spec. destruct (rest s) as [|t r]; [done|].
  destruct t; simpl; intros [=]; subst; simpl; eauto.
Qed.

Lemma skip_skip n m s : skip m (skip n s) = skip (n + m) s.
Proof. unfold skip; simpl. by rewrite Nat.add_assoc. Qed.

Lemma after_skip ts e s : booleans e = 0%N -> after ts e s = skip (length ts) s.
Proof. intros Hb. unfold after, skip. by rewrite Hb, N.add_0_r. Qed.

Lemma rest_tail s t r : rest s = t :: r -> rest (skip 1 s) = r.
Proof. intros Hr. by rewrite rest_skip, Hr. Qed.

(** The result of a parsing function: it read a text of the nonterminal. *)
Definition sound (grammar : list Token -> Expr -> N -> Prop) (m : parsing Expr) : Prop :=
  forall s e s', m s = Some (Ok (e, s')) ->
    exists ts d, grammar ts e d /\ reads ts e d s /\ s' = after ts e s.

Lemma parse_comparison_sound : sound factor parse_comparison.
Proof.
  intros s e s' H. unfold parse_comparison in H.
  apply p_bind_Ok in H as (l & s1 & (r1 & H1 & ->)%parse_operand_Ok & H).
  apply p_bind_Ok in H as (t & s2 & Hn & H).
  rewrite next_spec, (rest_tail _ _ _ H1) in Hn. destruct r1 as [|t' r2]; [by injection Hn as <- <-|].
  injection Hn as <- <-. destruct t' as [| | | | | | | |c]; try done.
  apply p_bind_Ok in H as (o & s3 & (r3 & H3 & ->)%parse_operand_Ok & [= <- <-]).
  rewrite rest_skip, (rest_tail _ _ _ H1) in H3. simpl in H3. rewrite drop_0 in H3. rewrite skip_skip in *.
  exists [operand_token l; TCompare c; operand_token o], 0%N. split; [constructor|]. split.
  - unfold reads. rewrite H1, H3. simpl. split; [done|]. lia.
  - by rewrite after_skip, skip_skip.
Qed.

Lemma parse_exists_sound s e s' : parse_exists s = Some (Ok (e, s')) ->
  exists p r, rest s = TLParen :: TPointer p :: TRParen :: r /\ e = Exists p /\ s' = skip 3 s.
Proof.
  intros H. unfold parse_exists in H.
  apply p_bind_Ok in H as ([] & s1 & (r1 & H1 & ->)%expect_Ok & H); [|done].
  apply p_bind_Ok in H as (t & s2 & Hn & H).
  rewrite next_spec, (rest_tail _ _ _ H1) in Hn. destruct r1 as [|t' r2]; [by injection Hn as <- <-|].
  injection Hn as <- <-. destruct t'; try done.
  apply p_bind_Ok in H as ([] & s3 & (r3 & H3 & ->)%expect_Ok & [= <- <-]); [|done].
  rewrite rest_skip, (rest_tail _ _ _ H1) in H3. simpl in H3. rewrite drop_0 in H3. subst r2.
  rewrite !skip_skip. eauto.
Qed.

Definition bump (s : Parser) : Parser :=
  mkParser (tokens s) (position s) (depth s) (complexity s + 1).

Lemma rest_after ts e s : rest (after ts e s) = drop (length ts) (rest s).
Proof. unfold rest, after; simpl. by rewrite drop_drop. Qed.

Lemma reads_rest ts e d s : reads ts e d s -> rest s = (ts ++ rest (after ts e s))%list.
Proof. intros (Ht & _). by rewrite rest_after, <- Ht at 1; rewrite take_drop. Qed.

Lemma take_app_cons {A} (ts ts' l l' : list A) t :
  l = (ts ++ t :: l')%list -> take (length ts') l' = ts' ->
  take (length (ts ++ t :: ts')) l = (ts ++ t :: ts')%list.
Proof.
  intros -> H. rewrite length_app. simpl. rewrite take_app, take_ge by lia.
  replace (length ts + S (length ts') - length ts) with (S (length ts')) by lia.
  simpl. by rewrite H.
Qed.

(** A text, an operator and a text. *)
Lemma reads_binary t e l r ts d ts' d' rs s :
  booleans e = (1 + booleans l + booleans r)%N ->
  reads ts l d s -> rest (after ts l s) = t :: rs ->
  (complexity (after ts l s) < MAX_CONDITION_DEPTH)%N ->
  reads ts' r d' (bump (skip 1 (after ts l s))) ->
  reads (ts ++ t :: ts') e (N.max d d') s /\
  after ts' r (bump (skip 1 (after ts l s))) = after (ts ++ t :: ts') e s.
Proof.
  intros Hb Hl Hr Hc Hr'. split.
  - pose proof (reads_rest _ _ _ _ Hl) as E. destruct Hl as (_ & Hd & Hn).
    destruct Hr' as (Ht' & Hd' & Hn'). simpl in *. split; [|lia].
    apply (take_app_cons ts ts' _ rs); [by rewrite E, Hr|].
    rewrite <- Ht' at 2. f_equal. change (rs = rest (skip 1 (after ts l s))).
    by rewrite (rest_tail _ _ _ Hr).
  - unfold after, bump, skip; simpl. rewrite length_app, Hb. simpl. f_equal; lia.
Qed.

(** [!] and parentheses. *)
Lemma reads_not ts e d rs s : rest s = TNot :: rs -> (depth s < MAX_CONDITION_DEPTH)%N ->
  (complexity s < MAX_CONDITION_DEPTH)%N ->
  reads ts e d (deeper (bump (skip 1 s))) ->
  reads (TNot :: ts) (Not e) (1 + d) s /\
  shallower (after ts e (deeper (bump (skip 1 s)))) = after (TNot :: ts) (Not e) s.
Proof.
  intros Hr Hd Hc (Ht & Hd' & Hc'). simpl in *.
  change (rest (deeper (bump (skip 1 s)))) with (rest (skip 1 s)) in Ht.
  rewrite (rest_tail _ _ _ Hr) in Ht. split.
  - unfold reads. rewrite Hr. simpl. rewrite Ht. split; [done|]. lia.
  - unfold after, shallower, deeper, bump, skip; simpl. f_equal; lia.
Qed.

Lemma reads_group ts e d rs rs' s : rest s = TLParen :: rs -> (depth s < MAX_CONDITION_DEPTH)%N ->
  reads ts e d (deeper (skip 1 s)) ->
  rest (shallower (after ts e (deeper (skip 1 s)))) = TRParen :: rs' ->
  reads (TLParen :: ts ++ [TRParen]) e (1 + d) s /\
  skip 1 (shallower (after ts e (deeper (skip 1 s)))) = after (TLParen :: ts ++ [TRParen]) e s.
Proof.
  intros Hr Hd Hts Hr'. pose proof (reads_rest _ _ _ _ Hts) as E.
  destruct Hts as (_ & Hd' & Hc'). simpl in *.
  change (rest (deeper (skip 1 s))) with (rest (skip 1 s)) in E.
  rewrite (rest_tail _ _ _ Hr) in E.
  change (rest (shallower (after ts e (deeper (skip 1 s)))))
    with (rest (after ts e (deeper (skip 1 s)))) in Hr'.
  split.
  - unfold reads. rewrite Hr. simpl. split; [|lia]. f_equal.
    by apply (take_app_cons ts [] _ rs'); [rewrite E, Hr'|].
  - unfold after, shallower, deeper, skip; simpl. rewrite length_app; simpl. f_equal; lia.
Qed.

Definition loop_sound (grammar : list Token -> Expr -> N -> Prop) (loop : Expr -> parsing Expr)
    : Prop :=
  forall s0 ts0 e0 d0 e s', grammar ts0 e0 d0 -> reads ts0 e0 d0 s0 ->
    loop e0 (after ts0 e0 s0) = Some (Ok (e, s')) ->
    exists ts d, grammar ts e d /\ reads ts e d s0 /\ s' = after ts e s0.

(** One turn of the loops. *)
Lemma loop_step (base item : list Token -> Expr -> N -> Prop) t (node : Expr -> Expr -> Expr)
    (m : parsing Expr) (loop : Expr -> parsing Expr) :
  is_constant t = true ->
  (forall ts l d ts' r d', base ts l d -> item ts' r d' ->
     base (ts ++ t :: ts')%list (node l r) (N.max d d')) ->
  (forall l r, booleans (node l r) = (1 + booleans l + booleans r)%N) ->
  sound item m -> loop_sound base loop ->
  loop_sound base (fun e => more <~ consume t;;
    if more then _ <~ add_boolean_node;; right <~ m;; loop (node e right) else p_ret e).
Proof.
  intros Ht Hbase Hb Hm Hloop s0 ts0 e0 d0 e s' Hg Hr H.
  apply p_bind_Ok in H as (more & s1 & Hc & H).
  destruct (consume_spec t (after ts0 e0 s0) Ht) as [(rs & Hrs & E)|[_ E]];
    rewrite E in Hc; injection Hc as <- <-; [|injection H as <- <-; eauto].
  apply p_bind_Ok in H as (u & s2 & (Hlt & -> & _)%add_boolean_node_Ok & H).
  apply p_bind_Ok in H as (r & s3 & (ts' & d' & Hg' & Hr' & ->)%Hm & H).
  destruct (reads_binary t (node e0 r) e0 r ts0 d0 ts' d' rs s0) as [Hr2 E2]; auto.
  change (mkParser _ _ _ _) with (bump (skip 1 (after ts0 e0 s0))) in H.
  rewrite E2 in H. by apply (Hloop s0 _ _ (N.max d0 d')) in H; [|by apply Hbase|].
Qed.

Lemma parser_sound n :
  sound disjunction (parse_or n) /\ loop_sound disjunction (or_loop n) /\
  sound conjunction (parse_and n) /\ loop_sound conjunction (and_loop n) /\
  sound factor (parse_unary n).
Proof.
  induction n as [|n (IHo & IHol & IHa & IHal & IHu)]; [by repeat split; intros ?|].
  split_and!.
  - intros s e s' (e0 & s1 & (ts & d & Hg & Hr & ->)%IHa & H)%p_bind_Ok.
    by apply (IHol s ts e0 d) in H; [|by apply Disj_one|].
  - apply (loop_step disjunction conjunction); eauto using disjunction.
  - intros s e s' (e0 & s1 & (ts & d & Hg & Hr & ->)%IHu & H)%p_bind_Ok.
    by apply (IHal s ts e0 d) in H; [|by apply Conj_one|].
  - apply (loop_step conjunction factor); eauto using conjunction.
  - intros s e s' H. simpl in H. apply p_bind_Ok in H as (negated & s1 & Hc & H).
    destruct (consume_spec TNot s eq_refl) as [(rs & Hrs & E)|[_ E]];
      rewrite E in Hc; injection Hc as <- <-.
    { apply p_bind_Ok in H as (u & s2 & (Hlt & -> & _)%add_boolean_node_Ok & H).
      apply p_bind_Ok in H as (e1 & s3 & (Hd & s4 & (ts & d & Hg & Hr & ->)%IHu & ->)%nested_Ok
        & [= <- <-]).
      destruct (reads_not ts e1 d rs s) as [Hr2 E2]; auto. eexists _, _.
      split_and!; [by apply Factor_not|exact Hr2|exact E2]. }
    apply p_bind_Ok in H as (grouped & s1 & Hc & H).
    destruct (consume_spec TLParen s eq_refl) as [(rs & Hrs & E')|[_ E']];
      rewrite E' in Hc; injection Hc as <- <-.
    { apply p_bind_Ok in H as (e1 & s3 & (Hd & s4 & (ts & d & Hg & Hr & ->)%IHo & ->)%nested_Ok & H).
      apply p_bind_Ok in H as (u & s5 & (rs' & Hrs' & ->)%expect_Ok & [= <- <-]); [|done].
      destruct (reads_group ts e1 d rs rs' s) as [Hr2 E2]; auto. eexists _, _.
      split_and!; [by apply Factor_group|exact Hr2|exact E2]. }
    apply p_bind_Ok in H as (existence & s1 & Hc & H).
    destruct (consume_spec TExists s eq_refl) as [(rs & Hrs & E'')|[_ E'']];
      rewrite E'' in Hc; injection Hc as <- <-; [|by apply parse_comparison_sound].
    apply parse_exists_sound in H as (p & r & Hr & -> & ->).
    rewrite (rest_tail _ _ _ Hrs) in Hr. subst rs.
    exists [TExists; TLParen; TPointer p; TRParen], 0%N. split; [constructor|].
    rewrite after_skip, skip_skip by done. split; [|done].
    unfold reads. rewrite Hrs. simpl. split; [done|]. lia.
Qed.

(** *** Fuel *)

Definition refines {A} (m m' : parsing A) : Prop :=
  forall s r, m s = Some r -> m' s = Some r.

Lemma p_bind_refines {A B} (m m' : parsing A) (f f' : A -> parsing B) :
  refines m m' -> (forall a, refines (f a) (f' a)) -> refines (p_bind m f) (p_bind m' f').
Proof.
  intros Hm Hf s r. unfold p_bind. destruct (m s) as [[[a s1]|e]|] eqn:E; [| |done];
    rewrite (Hm _ _ E); [apply Hf|done].
Qed.
Lemma nested_refines {A} (m m' : parsing A) : refines m m' -> refines (nested m) (nested m').
Proof.
  intros Hm s r. unfold nested. destruct (_ <=? _)%N; [done|].
  destruct (m _) as [r'|] eqn:E; [by rewrite (Hm _ _ E)|done].
Qed.
Lemma refines_refl {A} (m : parsing A) : refines m m.
Proof. by intros s r. Qed.

Lemma parser_refines n :
  refines (parse_or n) (parse_or (S n)) /\
  (forall e, refines (or_loop n e) (or_loop (S n) e)) /\
  refines (parse_and n) (parse_and (S n)) /\
  (forall e, refines (and_loop n e) (and_loop (S n) e)) /\
  refines (parse_unary n) (parse_unary (S n)).
Proof.
  induction n as [|n (IHo & IHol & IHa & IHal & IHu)]; [by repeat split; intros ?|].
  split_and!; repeat first
    [ intros e; apply p_bind_refines | apply p_bind_refines | apply nested_refines
    | apply refines_refl | assumption | apply IHol | apply IHal
    | intros []; simpl | intros ? ].
Qed.

Lemma refines_le {A} (m : nat -> parsing A) : (forall n, refines (m n) (m (S n))) ->
  forall n n', n <= n' -> refines (m n) (m n').
Proof.
  intros Hm n n' Hle. induction Hle as [|n' _ IH]; [apply refines_refl|].
  intros s r H. by apply Hm, IH.
Qed.
Lemma parse_or_le n n' s r : n <= n' -> parse_or n s = Some r -> parse_or n' s = Some r.
Proof. intros H. apply (refines_le parse_or); [intros k; apply (parser_refines k)|done]. Qed.
Lemma parse_and_le n n' s r : n <= n' -> parse_and n s = Some r -> parse_and n' s = Some r.
Proof. intros H. apply (refines_le parse_and); [intros k; apply (parser_refines k)|done]. Qed.
Lemma parse_unary_le n n' s r : n <= n' -> parse_unary n s = Some r -> parse_unary n' s = Some r.
Proof. intros H. apply (refines_le parse_unary); [intros k; apply (parser_refines k)|done]. Qed.
Lemma or_loop_le n n' e s r : n <= n' -> or_loop n e s = Some r -> or_loop n' e s = Some r.
Proof. intros H. apply (refines_le (fun n => or_loop n e)); [intros k; apply (parser_refines k)|done]. Qed.
Lemma and_loop_le n n' e s r : n <= n' -> and_loop n e s = Some r -> and_loop n' e s = Some r.
Proof. intros H. apply (refines_le (fun n => and_loop n e)); [intros k; apply (parser_refines k)|done]. Qed.

Definition left_ (s : Parser) : nat := length (rest s).
(** [m] answers on every state with at most [k] tokens left. *)
Definition answers {A} (m : parsing A) (s : Parser) : Prop := m s <> None.

Lemma answers_bind {A B} (m : parsing A) (f : A -> parsing B) s :
  answers m s -> (forall a s1, m s = Some (Ok (a, s1)) -> answers (f a) s1) ->
  answers (p_bind m f) s.
Proof.
  unfold answers, p_bind. intros Hm Hf. destruct (m s) as [[[a s1]|e]|]; [by apply Hf|done|done].
Qed.

Lemma grammar_nonempty :
  (forall ts e d, disjunction ts e d -> ts <> []) /\
  (forall ts e d, conjunction ts e d -> ts <> []) /\
  (forall ts e d, factor ts e d -> ts <> []).
Proof. by apply grammar_ind; try done; intros; intros [? [=]]%app_eq_nil. Qed.

Lemma left_after ts e d s : ts <> [] -> reads ts e d s -> left_ (after ts e s) < left_ s.
Proof.
  intros Hne Hr. pose proof (reads_rest _ _ _ _ Hr) as E. unfold left_.
  rewrite E, length_app. destruct ts; [done|simpl; lia].
Qed.

Lemma expect_answers t message s : answers (expect t message) s.
Proof.
  unfold expect. apply answers_bind; [by unfold answers, consume; destruct (is_some_and _ _)|].
  by intros [].
Qed.
Lemma parse_operand_answers s : answers parse_operand s.
Proof.
  apply answers_bind; [by unfold answers, next; destruct (_ !! _)|]. by intros [[]|] ? ?.
Qed.
Lemma next_answers s : answers next s.
Proof. unfold answers, next. by destruct (_ !! _). Qed.
Lemma consume_answers t s : answers (consume t) s.
Proof. unfold answers, consume. by destruct (is_some_and _ _). Qed.
Lemma parse_comparison_answers s : answers parse_comparison s.
Proof.
  apply answers_bind; [apply parse_operand_answers|]. intros l s1 _.
  apply answers_bind; [apply next_answers|]. intros [[]|] s2 _; try done.
  apply answers_bind; [apply parse_operand_answers|done].
Qed.
Lemma parse_exists_answers s : answers parse_exists s.
Proof.
  apply answers_bind; [apply expect_answers|]. intros l s1 _.
  apply answers_bind; [apply next_answers|]. intros [[]|] s2 _; try done.
  apply answers_bind; [apply expect_answers|done].
Qed.
Lemma nested_answers {A} (m : parsing A) s : answers m (deeper s) -> answers (nested m) s.
Proof.
  unfold answers, nested, deeper. destruct (_ <=? _)%N; [done|]. by destruct (m _) as [[[]|]|].
Qed.

Lemma loop_answers t (node : Expr -> Expr -> Expr) item (m : parsing Expr)
    (loop : Expr -> parsing Expr) e s :
  is_constant t = true -> sound item m -> (forall ts e d, item ts e d -> ts <> []) ->
  (forall s', left_ s' < left_ s -> answers m s') ->
  (forall e s', left_ s' < left_ s -> answers (loop e) s') ->
  answers (more <~ consume t;;
    if more then _ <~ add_boolean_node;; right <~ m;; loop (node e right) else p_ret e) s.
Proof.
  intros Ht Hs Hne Hm Hl. apply answers_bind; [apply consume_answers|]. intros more s1 Hc.
  destruct (consume_spec t s Ht) as [(rs & Hrs & E)|[_ E]];
    rewrite E in Hc; injection Hc as <- <-; [|done].
  assert (left_ (skip 1 s) < left_ s) as Hlt
    by (unfold left_; rewrite (rest_tail _ _ _ Hrs), Hrs; simpl; lia).
  apply answers_bind; [by unfold answers, add_boolean_node; destruct (_ <=? _)%N|].
  intros u s2 (_ & -> & _)%add_boolean_node_Ok.
  apply answers_bind; [by apply Hm|]. intros r s3 (ts & d & Hg & Hr & ->)%Hs.
  apply Hl. etrans; [by apply (left_after ts r d); eauto|done].
Qed.

Lemma parser_answers n :
  (forall s, 4 * left_ s + 3 <= n -> answers (parse_or n) s) /\
  (forall e s, 4 * left_ s + 1 <= n -> answers (or_loop n e) s) /\
  (forall s, 4 * left_ s + 2 <= n -> answers (parse_and n) s) /\
  (forall e s, 4 * left_ s + 1 <= n -> answers (and_loop n e) s) /\
  (forall s, 4 * left_ s + 1 <= n -> answers (parse_unary n) s).
Proof.
  destruct grammar_nonempty as (Hne1 & Hne2 & Hne3).
  induction n as [|n (IHo & IHol & IHa & IHal & IHu)]; [split_and!; intros; lia|].
  destruct (parser_sound n) as (Hso & _ & Hsa & _ & Hsu).
  split_and!.
  - intros s Hn. simpl. apply answers_bind; [apply IHa; lia|].
    intros e s1 (ts & d & Hg & Hr & ->)%Hsa. apply IHol.
    apply left_after in Hr; [|by eauto]. lia.
  - intros e s Hn. apply (loop_answers TOr Or conjunction); eauto; intros; [apply IHa|apply IHol]; lia.
  - intros s Hn. simpl. apply answers_bind; [apply IHu; lia|].
    intros e s1 (ts & d & Hg & Hr & ->)%Hsu. apply IHal.
    apply left_after in Hr; [|by eauto]. lia.
  - intros e s Hn. apply (loop_answers TAnd And factor); eauto; intros; [apply IHu|apply IHal]; lia.
  - intros s Hn. simpl. apply answers_bind; [apply consume_answers|]. intros negated s1 Hc.
    destruct (consume_spec TNot s eq_refl) as [(rs & Hrs & E)|[_ E]];
      rewrite E in Hc; injection Hc as <- <-.
    { apply answers_bind; [by unfold answers, add_boolean_node; destruct (_ <=? _)%N|].
      intros u s2 (_ & -> & _)%add_boolean_node_Ok.
      apply answers_bind; [|done]. apply nested_answers, IHu.
      change (4 * left_ (skip 1 s) + 1 <= n). unfold left_ in *.
      rewrite (rest_tail _ _ _ Hrs). rewrite Hrs in Hn. simpl in Hn. lia. }
    apply answers_bind; [apply consume_answers|]. intros grouped s1 Hc.
    destruct (consume_spec TLParen s eq_refl) as [(rs & Hrs & E')|[_ E']];
      rewrite E' in Hc; injection Hc as <- <-.
    { apply answers_bind; [|intros; apply answers_bind; [apply expect_answers|done]].
      apply nested_answers, IHo. change (4 * left_ (skip 1 s) + 3 <= n). unfold left_ in *.
      rewrite (rest_tail _ _ _ Hrs). rewrite Hrs in Hn. simpl in Hn. lia. }
    apply answers_bind; [apply consume_answers|]. intros [] s1 _;
      [apply parse_exists_answers|apply parse_comparison_answers].
Qed.

(** *** Completeness *)

(** What a text of a nonterminal does, whatever the loop behind it goes on to do. *)
Definition fits (d : N) (e : Expr) (s : Parser) : Prop :=
  (depth s + d <= MAX_CONDITION_DEPTH)%N /\ (complexity s + booleans e <= MAX_CONDITION_DEPTH)%N.

Lemma bind_run {A B} (m : parsing A) (f : A -> parsing B) s a s1 :
  m s = Some (Ok (a, s1)) -> p_bind m f s = f a s1.
Proof. unfold p_bind. by intros ->. Qed.
Lemma add_boolean_node_run s : (complexity s < MAX_CONDITION_DEPTH)%N ->
  add_boolean_node s = Some (Ok (tt, bump s)).
Proof. intros. by apply add_boolean_node_Ok. Qed.
Lemma nested_run {A} (m : parsing A) s a s1 : (depth s < MAX_CONDITION_DEPTH)%N ->
  m (deeper s) = Some (Ok (a, s1)) -> nested m s = Some (Ok (a, shallower s1)).
Proof. intros. apply nested_Ok. eauto. Qed.
Lemma expect_run t message s r : is_constant t = true -> rest s = t :: r ->
  expect t message s = Some (Ok (tt, skip 1 s)).
Proof. intros Ht Hr. unfold expect. by rewrite (bind_run _ _ _ _ _ (consume_yes _ _ _ Ht Hr)). Qed.


Definition complete_loop (m : nat -> parsing Expr) (loop : nat -> Expr -> parsing Expr)
    (stop : list Token -> Prop) (ts : list Token) (e : Expr) (d : N) : Prop :=
  forall s r res, rest s = (ts ++ r)%list -> stop r -> fits d e s ->
    (exists n, loop n e (after ts e s) = Some res) -> exists n, m n s = Some res.
Definition complete_item (m : nat -> parsing Expr) (stop : list Token -> Prop)
    (ts : list Token) (e : Expr) (d : N) : Prop :=
  forall s r, rest s = (ts ++ r)%list -> stop r -> fits d e s ->
    exists n, m n s = Some (Ok (e, after ts e s)).
Definition not_and (r : list Token) : Prop := head r <> Some TAnd.
Definition not_or (r : list Token) : Prop := head r <> Some TOr.

Lemma rest_after_app ts e s r : rest s = (ts ++ r)%list -> rest (after ts e s) = r.
Proof. intros Hr. by rewrite rest_after, Hr, drop_app_length. Qed.

(** A text that is one item of the loop. *)
Lemma complete_one (outer item : nat -> parsing Expr) (loop : nat -> Expr -> parsing Expr)
    stop ts e d :
  (forall n, outer (S n) = p_bind (item n) (loop n)) ->
  (forall n n' s r, n <= n' -> item n s = Some r -> item n' s = Some r) ->
  (forall n n' e s r, n <= n' -> loop n e s = Some r -> loop n' e s = Some r) ->
  complete_item item stop ts e d -> complete_loop outer loop stop ts e d.
Proof.
  intros Ho Hi Hl Hc s r res Hr Hstop Hf [n1 H1]. destruct (Hc s r Hr Hstop Hf) as [n2 H2].
  exists (S (max n1 n2)). rewrite Ho.
  rewrite (bind_run _ _ _ _ _ (Hi n2 (max n1 n2) _ _ ltac:(lia) H2)).
  by apply (Hl n1); [lia|].
Qed.

(** A text, the operator and an item. *)
Lemma complete_more t (node : Expr -> Expr -> Expr) (outer item : nat -> parsing Expr)
    (loop : nat -> Expr -> parsing Expr) (stop stop' : list Token -> Prop) ts l d ts' e d' :
  is_constant t = true -> (forall r, stop (t :: r)) -> (forall r, stop r -> stop' r) ->
  (forall l r, booleans (node l r) = (1 + booleans l + booleans r)%N) ->
  (forall n e, loop (S n) e = (more <~ consume t;;
     if more then _ <~ add_boolean_node;; right <~ item n;; loop n (node e right) else p_ret e)) ->
  (forall n n' s r, n <= n' -> item n s = Some r -> item n' s = Some r) ->
  (forall n n' e s r, n <= n' -> loop n e s = Some r -> loop n' e s = Some r) ->
  complete_loop outer loop stop ts l d -> complete_item item stop' ts' e d' ->
  complete_loop outer loop stop (ts ++ t :: ts')%list (node l e) (N.max d d').
Proof.
  intros Ht Hgo Hsub Hb Hloop Hi Hlm Hl Hc s r res Hr Hstop [Hfd Hfc] [n1 H1].
  rewrite Hb in Hfc. rewrite <- app_assoc in Hr. simpl in Hr.
  pose proof (rest_after_app ts l s _ Hr) as Hr1.
  apply (Hl s (t :: ts' ++ r)); [done|apply Hgo|split; lia|].
  destruct (Hc (bump (skip 1 (after ts l s))) r) as [n2 H2];
    [by apply (rest_tail _ t)|by apply Hsub|split; simpl; lia|].
  assert (after ts' e (bump (skip 1 (after ts l s))) = after (ts ++ t :: ts') (node l e) s) as E.
  { unfold after, bump, skip; simpl. rewrite length_app, Hb. simpl. f_equal; lia. }
  rewrite E in H2. exists (S (max n1 n2)). rewrite Hloop.
  rewrite (bind_run _ _ _ _ _ (consume_yes _ _ _ Ht Hr1)). cbv iota.
  rewrite (bind_run _ _ _ _ _ (add_boolean_node_run (skip 1 (after ts l s)) ltac:(simpl; lia))).
  rewrite (bind_run _ _ _ _ _ (Hi n2 (max n1 n2) _ _ ltac:(lia) H2)).
  by apply (Hlm n1); [lia|].
Qed.

(** A loop that stops gives its expression. *)
Lemma complete_stop t (node : Expr -> Expr -> Expr) (outer item : nat -> parsing Expr)
    (loop : nat -> Expr -> parsing Expr) (stop : list Token -> Prop) ts e d :
  is_constant t = true ->
  (forall n e, loop (S n) e = (more <~ consume t;;
     if more then _ <~ add_boolean_node;; right <~ item n;; loop n (node e right) else p_ret e)) ->
  complete_loop outer loop stop ts e d ->
  complete_item outer (fun r => stop r /\ head r <> Some t) ts e d.
Proof.
  intros Ht Hloop Hc s r Hr [Hstop Hh] Hf. apply (Hc s r); [done..|]. exists 1. rewrite Hloop.
  rewrite (bind_run _ _ _ _ _ (consume_no t (after ts e s) Ht ltac:(by rewrite (rest_after_app _ _ _ _ Hr)))).
  done.
Qed.

Definition anything (r : list Token) : Prop := True.

Lemma factor_complete_compare l c r0 :
  complete_item parse_unary anything [operand_token l; TCompare c; operand_token r0]
    (ECompare l c r0) 0.
Proof.
  intros s r Hr _ _. exists 1. rewrite after_skip by done. simpl in *.
  assert (forall t, is_constant t = true -> consume t s = Some (Ok (false, s))) as Hno.
  { intros t Ht. apply consume_no; [done|]. rewrite Hr. intros [= <-]. by destruct l. }
  rewrite (bind_run _ _ _ _ _ (Hno TNot eq_refl)). cbv iota.
  rewrite (bind_run _ _ _ _ _ (Hno TLParen eq_refl)). cbv iota.
  rewrite (bind_run _ _ _ _ _ (Hno TExists eq_refl)). cbv iota.
  assert (forall o s r, rest s = operand_token o :: r ->
    parse_operand s = Some (Ok (o, skip 1 s))) as Ho.
  { intros o s1 r1 H1. unfold parse_operand, p_bind. rewrite next_spec, H1. by destruct o. }
  unfold parse_comparison. rewrite (bind_run _ _ _ _ _ (Ho _ _ _ Hr)).
  pose proof (rest_tail _ _ _ Hr) as Hr1.
  erewrite bind_run by (rewrite next_spec, Hr1; reflexivity). cbv iota beta.
  pose proof (rest_tail _ _ _ Hr1) as Hr2.
  rewrite (bind_run _ _ _ _ _ (Ho _ _ _ Hr2)). by rewrite !skip_skip.
Qed.

Lemma factor_complete_exists p :
  complete_item parse_unary anything [TExists; TLParen; TPointer p; TRParen] (Exists p) 0.
Proof.
  intros s r Hr _ _. exists 1. rewrite after_skip by done. simpl in *.
  assert (forall t, is_constant t = true -> t <> TExists -> consume t s = Some (Ok (false, s)))
    as Hno.
  { intros t Ht Hne. apply consume_no; [done|]. rewrite Hr. simpl. congruence. }
  rewrite (bind_run _ _ _ _ _ (Hno TNot eq_refl ltac:(done))). cbv iota.
  rewrite (bind_run _ _ _ _ _ (Hno TLParen eq_refl ltac:(done))). cbv iota.
  rewrite (bind_run _ _ _ _ _ (consume_yes TExists _ _ eq_refl Hr)). cbv iota.
  pose proof (rest_tail _ _ _ Hr) as Hr1. unfold parse_exists.
  rewrite (bind_run _ _ _ _ _ (expect_run TLParen _ _ _ eq_refl Hr1)).
  pose proof (rest_tail _ _ _ Hr1) as Hr2.
  erewrite bind_run by (rewrite next_spec, Hr2; reflexivity). cbv iota beta.
  pose proof (rest_tail _ _ _ Hr2) as Hr3.
  rewrite (bind_run _ _ _ _ _ (expect_run TRParen _ _ _ eq_refl Hr3)). by rewrite !skip_skip.
Qed.

Lemma factor_complete_not ts e d : complete_item parse_unary anything ts e d ->
  complete_item parse_unary anything (TNot :: ts) (Not e) (1 + d).
Proof.
  intros Hc s r Hr _ [Hd Hb]. simpl in Hr, Hb.
  destruct (Hc (deeper (bump (skip 1 s))) r) as [n Hn];
    [by apply (rest_tail _ TNot)|done|split; simpl; lia|].
  exists (S n). simpl. rewrite (bind_run _ _ _ _ _ (consume_yes TNot _ _ eq_refl Hr)). cbv iota.
  rewrite (bind_run _ _ _ _ _ (add_boolean_node_run (skip 1 s) ltac:(simpl; lia))).
  rewrite (bind_run _ _ _ _ _ (nested_run _ (bump (skip 1 s)) _ _ ltac:(simpl; lia) Hn)).
  unfold p_ret. do 3 f_equal. unfold after, shallower, deeper, bump, skip; simpl. f_equal; lia.
Qed.

Lemma factor_complete_group ts e d :
  complete_item parse_or (fun r => not_and r /\ not_or r) ts e d ->
  complete_item parse_unary anything (TLParen :: ts ++ [TRParen])%list e (1 + d).
Proof.
  intros Hc s r Hr _ [Hd Hb]. simpl in Hr. rewrite <- app_assoc in Hr. simpl in Hr.
  pose proof (rest_tail _ _ _ Hr) as Hr1.
  destruct (Hc (deeper (skip 1 s)) (TRParen :: r)) as [n Hn]; [done|done|split; simpl; lia|].
  exists (S n). simpl.
  rewrite (bind_run _ _ _ _ _ (consume_no TNot s eq_refl ltac:(by rewrite Hr))). cbv iota.
  rewrite (bind_run _ _ _ _ _ (consume_yes TLParen _ _ eq_refl Hr)). cbv iota.
  rewrite (bind_run _ _ _ _ _ (nested_run _ (skip 1 s) _ _ ltac:(simpl; lia) Hn)).
  assert (rest (shallower (after ts e (deeper (skip 1 s)))) = TRParen :: r) as Hr2
    by exact (rest_after_app ts e (deeper (skip 1 s)) _ Hr1).
  rewrite (bind_run _ _ _ _ _ (expect_run TRParen _ _ _ eq_refl Hr2)).
  unfold p_ret. do 3 f_equal. unfold after, shallower, deeper, skip; simpl.
  rewrite length_app; simpl. f_equal; lia.
Qed.

Lemma parser_complete :
  (forall ts e d, disjunction ts e d -> complete_loop parse_or or_loop not_and ts e d) /\
  (forall ts e d, conjunction ts e d -> complete_loop parse_and and_loop anything ts e d) /\
  (forall ts e d, factor ts e d -> complete_item parse_unary anything ts e d).
Proof.
  apply grammar_ind.
  - intros ts e d _ IH.
    apply (complete_one _ parse_and); [done|apply parse_and_le|apply or_loop_le|].
    apply (complete_stop TAnd And _ parse_unary) in IH; [|done..].
    intros s r Hr Hstop Hf. by apply (IH s r).
  - intros ts l d ts' r d' _ IHl _ IHr.
    apply (complete_stop TAnd And _ parse_unary) in IHr; [|done..].
    apply (complete_more TOr Or _ parse_and _ not_and
      (fun r => anything r /\ head r <> Some TAnd)); try done; try apply parse_and_le;
      apply or_loop_le.
  - intros ts e d _ IH.
    apply (complete_one _ parse_unary); [done|apply parse_unary_le|apply and_loop_le|done].
  - intros ts l d ts' r d' _ IHl _ IHr.
    apply (complete_more TAnd And _ parse_unary _ anything anything); try done;
      try apply parse_unary_le; apply and_loop_le.
  - intros ts e d _. apply factor_complete_not.
  - intros ts e d _ IH. apply factor_complete_group.
    by apply (complete_stop TOr Or _ parse_and) in IH.
  - intros p. apply factor_complete_exists.
  - intros l c r. apply factor_complete_compare.
Qed.

(** ** The tokenizer ends *)

Lemma string_end_pos escaped l : forall i n, string_end escaped i l = Some n -> i < n.
Proof.
  revert escaped. induction l as [|c l IH]; intros escaped i n; simpl; [done|].
  destruct escaped; [intros H%IH; lia|].
  destruct (ascii_eqb _ _); [intros H%IH; lia|].
  destruct (_ =? _)%N; [intros [= <-]; lia|intros H%IH; lia].
Qed.

Lemma starts_with_cons c d s p :
  starts_with (String c s) (String d p) = true <-> c = d /\ starts_with s p = true.
Proof.
  unfold starts_with. cbn [String.prefix]. destruct (Ascii.ascii_dec d c) as [<-|]; [tauto|].
  split; [done|]. by intros [-> _].
Qed.

Section TokenizerEnds.
Context `{ConditionCodec}.

Lemma next_token_pos c tail token n : next_token (String c tail) = Ok (token, n) -> 0 < n.
Proof.
  unfold next_token.
  repeat match goal with
  | |- context [if starts_with ?s ?p then _ else _] =>
      let E := fresh "E" in destruct (starts_with s p) eqn:E; [intros [= <- <-]; try lia|]
  end.
  - match goal with Hs : starts_with _ "/" = true |- _ => rename Hs into Es end.
    apply starts_with_cons in Es as [-> _]. cbn -[is_some]. destruct (is_some _ || _) eqn:Ew; [|lia]. by vm_compute in Ew.
  - unfold literal. intros (n' & Hn & (v & Hv%ok_or_Ok & [= <- <-])%bind_Ok)%bind_Ok.
    destruct n' as [|n']; [|lia]. unfold str_to in Hv. simpl in Hv. by rewrite json_from_empty in Hv.
Qed.

Lemma tokenize_from_answers fuel : forall tail ts, String.length tail < fuel ->
  tokenize_from fuel tail ts <> None.
Proof.
  induction fuel as [|fuel IH]; intros tail ts Hf; [lia|]. destruct tail as [|c tail]; simpl in *; [done|].
  destruct (is_ascii_whitespace c); [apply IH; lia|].
  destruct (next_token (String c tail)) as [[t n]|] eqn:E; [|done].
  apply next_token_pos in E. apply IH. unfold str_from. rewrite length_of_bytes, length_drop.
  rewrite length_bytes. simpl. lia.
Qed.

Lemma tokenize_answers source : exists r, tokenize source = Some r.
Proof.
  unfold tokenize. pose proof (tokenize_from_answers (S (String.length source)) source [] ltac:(lia)).
  destruct (tokenize_from _ _ _) as [[[]|]|]; eauto. done.
Qed.

(** The parser's answers on a whole text. *)
Lemma parse_text_answers ts : exists r, parse_or (parser_fuel ts) (mkParser ts 0 0 0) = Some r.
Proof.
  destruct (parse_or _ _) eqn:E; [eauto|exfalso].
  refine (proj1 (parser_answers (parser_fuel ts)) (mkParser ts 0 0 0) _ E).
  unfold left_, rest, parser_fuel; simpl. rewrite drop_0. lia.
Qed.

Lemma parse_text_exact ts e :
  (exists s, parse_or (parser_fuel ts) (mkParser ts 0 0 0) = Some (Ok (e, s)) /\
     position s = length ts) <->
  exists d, disjunction ts e d /\ (d <= MAX_CONDITION_DEPTH)%N /\
    (booleans e <= MAX_CONDITION_DEPTH)%N.
Proof.
  split.
  - intros (s & Hs & Hp). destruct (parser_sound (parser_fuel ts)) as [Hsound _].
    apply Hsound in Hs as (ts' & d & Hg & (Ht & Hd & Hc) & ->).
    unfold rest in Ht. simpl in *. subst. rewrite drop_0 in Ht.
    assert (ts' = ts) as ->
      by (rewrite take_ge in Ht by lia; done).
    exists d. unfold MAX_CONDITION_DEPTH in *. split_and!; [done|lia|lia].
  - intros (d & Hg & Hd & Hb). destruct parser_complete as [Hcomplete _].
    set (s := mkParser ts 0 0 0). set (s' := after ts e s).
    assert (rest s = (ts ++ [])%list) as Hr by (unfold rest; simpl; by rewrite drop_0, app_nil_r).
    destruct (Hcomplete _ _ _ Hg s [] (Ok (e, s'))) as [n Hn]; [done|done|by split|..].
    { exists 1. simpl. by rewrite (bind_run _ _ _ _ _ (consume_no TOr s' eq_refl
        ltac:(by unfold s'; rewrite (rest_after_app _ _ _ _ Hr)))). }
    destruct (parse_text_answers ts) as [r Hans]. exists s'. split; [|done].
    fold s in Hans |- *. rewrite Hans.
    apply (parse_or_le _ (max n (parser_fuel ts))) in Hn; [|lia].
    apply (parse_or_le _ (max n (parser_fuel ts))) in Hans; [|lia]. congruence.
Qed.
End TokenizerEnds.

(** ** Conditions *)

Lemma condition_accepts `{ConditionCodec} source :
  (exists r, Condition_parse source = Some r) /\
  forall e, Condition_parse source = Some (Ok e) <->
    (slen source <= MAX_CONDITION_BYTES)%N /\
    exists ts d, tokenize source = Some (Ok ts) /\ (count ts <= MAX_CONDITION_TOKENS)%N /\
      disjunction ts e d /\ (d <= MAX_CONDITION_DEPTH)%N /\
      (booleans e <= MAX_CONDITION_DEPTH)%N.
Proof.
  unfold Condition_parse. destruct (N.ltb_spec MAX_CONDITION_BYTES (slen source)) as [Hl|Hl].
  { split; [eauto|]. intros e. split; [done|]. intros [? _]. lia. }
  destruct (tokenize_answers source) as [[ts|err] ->];
    [|by split; [eauto|intros e; split; [done|intros (_ & ts & d & [=] & _)]]].
  destruct (N.ltb_spec MAX_CONDITION_TOKENS (count ts)) as [Hc|Hc].
  { split; [eauto|]. intros e. split; [done|]. intros (_ & ts' & d & [= <-] & ? & _). lia. }
  destruct (parse_text_answers ts) as [r Hr]. pose proof (parse_text_exact ts) as Hexact.
  rewrite Hr in Hexact |- *. split; [destruct r as [[? s]|]; [destruct (negb _)|]; eauto|].
  intros e. trans (exists s, Some r = Some (Ok (e, s)) /\ position s = length ts).
  - destruct r as [[e' s]|err]; [|split; [done|by intros (s & [=] & _)]].
    destruct (Nat.eqb_spec (position s) (length ts)); simpl; naive_solver.
  - rewrite Hexact. split; [intros (d & ?)|intros (_ & ts' & d & [= <-] & _ & ?)]; eauto 10.
Qed.

(** ** Spelling tokens *)

(** What may follow a token. *)
Definition gap (r : string) : Prop := r = "" \/ exists r', r = String " " r'.

Lemma starts_with_gap p s r : contains_byte " " p = false -> gap r ->
  starts_with (s ++s r) p = starts_with s p.
Proof.
  intros Hp Hr. revert s Hp. induction p as [|d p IH]; intros s Hp; [by destruct s, r|].
  unfold contains_byte in *. simpl in Hp. apply orb_false_iff in Hp as [Hd Hp].
  destruct s as [|c s].
  - destruct Hr as [->|[r' ->]]; [done|]. simpl. unfold starts_with. cbn [String.prefix].
    destruct (Ascii.ascii_dec d " ") as [->|]; [done|done].
  - unfold starts_with in *. rewrite append_cons. cbn [String.prefix].
    destruct (Ascii.ascii_dec d c); [by apply IH|done].
Qed.

Lemma strip_one_Some codes l :
  is_some (strip_one codes l) = existsb (fun code => is_some (strip_code code l)) codes.
Proof.
  induction codes as [|code codes IH]; [done|]. simpl. rewrite <- IH.
  by destruct (strip_code code l).
Qed.

Lemma strip_code_gap code l r : Forall (fun n => n <> 32%N) code -> gap r ->
  is_some (strip_code code (l ++ bytes r)) = is_some (strip_code code l).
Proof.
  intros Hc Hr. revert l. induction Hc as [|n code Hn _ IH]; intros l; [done|].
  destruct l as [|c l].
  - destruct Hr as [->|[r' ->]]; [done|]. cbn [strip_code bytes app].
    by rewrite (proj2 (N.eqb_neq n (byte_n " ")) Hn).
  - cbn [strip_code app]. destruct (_ =? _)%N; [apply IH|done].
Qed.

Lemma white_space_tails :
  Forall (fun code => match code with
                      | [] => False
                      | _ :: code => Forall (fun n => n <> 32%N) code
                      end) white_space_encodings.
Proof. repeat (constructor; [repeat constructor; discriminate|]). constructor. Qed.

Lemma white_space_gap c l r : gap r ->
  is_some (strip_one white_space_encodings (c :: l ++ bytes r))
  = is_some (strip_one white_space_encodings (c :: l)).
Proof.
  intros Hr. rewrite !strip_one_Some. induction white_space_tails as [|code codes Hc _ IH]; [done|].
  cbn [existsb]. rewrite IH. f_equal. destruct code as [|n code]; [done|]. cbn [strip_code].
  destruct (_ =? _)%N; [by apply strip_code_gap|done].
Qed.

Lemma word_length_le l : word_length l <= length l.
Proof. induction l as [|c l IH]; simpl; [lia|]. destruct (_ || _); lia. Qed.

Lemma word_length_gap l r : gap r -> word_length l = length l ->
  word_length (l ++ bytes r) = length l.
Proof.
  intros Hr. induction l as [|c l IH]; intros Hl.
  - destruct Hr as [->|[r' ->]]; [done|reflexivity].
  - cbn [word_length app length] in Hl |- *. rewrite (white_space_gap c l r Hr).
    destruct (_ || _); [done|]. by rewrite IH by lia.
Qed.

Lemma word_head c s : is_word (String c s) ->
  is_ascii_whitespace c = false /\ is_operator_byte c = false.
Proof.
  unfold is_word. simpl bytes. cbn [word_length String.length].
  destruct (is_some _) eqn:Ew; [done|]. destruct (is_operator_byte c); [done|]. intros _.
  split; [|done]. rewrite strip_one_Some in Ew. apply not_true_iff_false. intros Hc.
  apply existsb_exists in Hc as (n & Hn & Hnc%N.eqb_eq). simpl in Ew. rewrite <- Hnc in Ew.
  repeat (destruct Hn as [<-|Hn]; [done|]). done.
Qed.

Lemma str_to_append s r : str_to (String.length s) (s ++s r) = s.
Proof.
  unfold str_to. rewrite bytes_append, <- length_bytes, take_app_length.
  apply of_bytes_bytes.
Qed.
Lemma str_from_append s r : str_from (String.length s) (s ++s r) = r.
Proof.
  unfold str_from. rewrite bytes_append, <- length_bytes, drop_app_length.
  apply of_bytes_bytes.
Qed.

Lemma string_end_append l r : forall escaped i n,
  string_end escaped i l = Some n -> string_end escaped i (l ++ r) = Some n.
Proof.
  induction l as [|c l IH]; intros escaped i n; simpl; [done|].
  destruct escaped; [apply IH|]. destruct (ascii_eqb _ _); [apply IH|].
  destruct (_ =? _)%N; [done|apply IH].
Qed.

(** The operators and [exists] are told by their first character. *)
Ltac no_operator :=
  repeat match goal with
  | |- context [starts_with ?s ?p] =>
      let E := fresh "E" in
      destruct (starts_with s p) eqn:E;
        [exfalso; apply starts_with_cons in E as [E _];
         first [by vm_compute in E | subst; discriminate]|]; clear E
  end.

Section Spelling.
Context `{ConditionCodec}.

Lemma next_token_word c s r t :
  is_word (String c s) -> gap r -> starts_with (String c s) "exists" = false ->
  next_token (String c s ++s r) = Ok t <->
  (if starts_with (String c s) "/" then
     Ok (TPointer (String c s), String.length (String c s))
   else literal (String c s ++s r)) = Ok t.
Proof.
  intros Hw Hr He. unfold next_token. rewrite (starts_with_gap "exists") by done. rewrite He.
  rewrite (starts_with_gap "/") by done.
  pose proof (proj2 (word_head _ _ Hw)) as Hop.
  change (String c s ++s r) with (String c (s ++s r)).
  destruct (starts_with (String c s) "/") eqn:Ep; no_operator.
  - change (String c (s ++s r)) with (String c s ++s r). rewrite bytes_append.
    rewrite (word_length_gap _ _ Hr) by (by rewrite length_bytes). rewrite length_bytes.
    by rewrite str_to_append.
  - done.
Qed.

Lemma spelling_nonempty t s : spelling t s -> exists c s', s = String c s'.
Proof.
  intros Hs. destruct s as [|c s]; [exfalso|eauto].
  inversion Hs as [t' s' Ho|s' Hp Hw|v s' Hw He Hp Hq Hj|v s' Hq Hl Hj]; subst; try done.
  - by destruct t as [| | | | | | | |[]].
  - by rewrite json_from_empty in Hj.
Qed.

Lemma next_token_operator t s r : operator_text t = Some s -> gap r ->
  next_token (s ++s r) = Ok (t, String.length s).
Proof.
  intros Ho [->|[r' ->]]; destruct t as [| | | | | | | |[]]; try done;
    injection Ho as <-; reflexivity.
Qed.

Lemma next_token_spelled t s r : spelling t s -> gap r ->
  next_token (s ++s r) = Ok (t, String.length s).
Proof.
  intros Hs Hr. destruct (spelling_nonempty _ _ Hs) as (c & s' & ->).
  inversion Hs as [t' s0 Ho|s0 Hp Hw|v s0 Hw He Hp Hq Hj|v s0 Hq Hl Hj]; subst.
  - by apply next_token_operator.
  - apply next_token_word; [done|done| |by rewrite Hp].
    destruct (starts_with (String c s') "exists") eqn:E; [|done].
    apply starts_with_cons in E as [-> _]. by apply starts_with_cons in Hp as [? _].
  - apply next_token_word; [done|done|done|]. rewrite Hp. unfold literal, literal_length.
    rewrite (starts_with_gap quote) by done. rewrite Hq, bytes_append.
    rewrite (word_length_gap _ _ Hr) by (by rewrite length_bytes). rewrite length_bytes.
    unfold mbind, result_bind. by rewrite str_to_append, Hj.
  - apply starts_with_cons in Hq as [-> _]. unfold next_token. rewrite append_cons. no_operator.
    rewrite <- append_cons. unfold literal, literal_length.
    rewrite (starts_with_gap quote) by done.
    assert (starts_with (String (ascii_of_N 34) s') quote = true) as ->
      by (apply starts_with_cons; by destruct s').
    unfold json_string_length in *. rewrite bytes_append.
    apply ok_or_Ok in Hl. cbn [bytes app drop] in Hl |- *.
    rewrite drop_0 in Hl |- *. rewrite (string_end_append _ _ _ _ _ Hl).
    unfold mbind, result_bind. cbn [ok_or]. cbv iota beta. by rewrite str_to_append, Hj.
Qed.

Lemma spelling_head t c s : spelling t (String c s) -> is_ascii_whitespace c = false.
Proof.
  intros Hs. inversion Hs as [t' s0 Ho|s0 Hp Hw|v s0 Hw He Hp Hq Hj|v s0 Hq Hl Hj]; subst.
  - by destruct t as [| | | | | | | |[]]; try done; injection Ho as <- _.
  - by apply word_head in Hw as [? _].
  - by apply word_head in Hw as [? _].
  - by apply starts_with_cons in Hq as [-> _].
Qed.

(** Spellings with spaces between them are read as their tokens. *)
Lemma tokenize_spaced ts ss : Forall2 spelling ts ss -> forall fuel acc,
  String.length (spaced ss) < fuel ->
  tokenize_from fuel (spaced ss) acc = Some (Ok (acc ++ ts)%list).
Proof.
  induction 1 as [|t s ts ss Hs Hss IH]; intros fuel acc Hf.
  { destruct fuel; [simpl in Hf; lia|]. simpl. by rewrite app_nil_r. }
  set (r := match ss with [] => "" | _ => String " " (spaced ss) end).
  assert (gap r) as Hr by (unfold r; destruct ss; [by left|right; eauto]).
  assert (spaced (s :: ss) = (s ++s r)) as E.
  { unfold r. destruct ss; [|done]. simpl. clear. induction s as [|c s IH]; [done|].
    by rewrite append_cons, <- IH. }
  rewrite E in Hf |- *. destruct (spelling_nonempty _ _ Hs) as (c & s' & ->).
  pose proof (next_token_spelled _ _ _ Hs Hr) as Hn. pose proof (str_from_append (String c s') r) as Hd.
  destruct fuel as [|fuel]; [lia|]. rewrite append_cons in Hn, Hd, Hf |- *.
  cbn [tokenize_from]. rewrite (spelling_head _ _ _ Hs), Hn, Hd.
  assert (String.length r < fuel) as Hlr.
  { cbn [String.length] in Hf. rewrite <- length_bytes, bytes_append, length_app, !length_bytes in Hf.
    lia. }
  replace (acc ++ t :: ts)%list with ((acc ++ [t]) ++ ts)%list by (by rewrite <- app_assoc).
  unfold r in *. destruct ss as [|s2 ss].
  - inversion Hss; subst. destruct fuel; [lia|]. by rewrite app_nil_r.
  - destruct fuel as [|fuel]; [lia|]. apply IH. simpl in Hlr. simpl. lia.
Qed.
End Spelling.

(** ** Printed expressions are in the grammar *)

Lemma group_factor b ts e d : (b = false -> factor ts e d) -> disjunction ts e d ->
  factor (group b ts) e ((if b then 1 else 0) + d).
Proof. destruct b; intros Hf Hd; [by apply Factor_group|by apply Hf]. Qed.

Lemma print_grammar e :
  disjunction (print 0 e) e (nesting 0 e) /\ conjunction (print 1 e) e (nesting 1 e) /\
  factor (print 2 e) e (nesting 2 e).
Proof.
  assert (forall ts e d, factor ts e d -> disjunction ts e d /\ conjunction ts e d /\ factor ts e d)
    as Hup by (intros; split_and!; eauto using disjunction, conjunction).
  induction e as [p|l c r|e (_ & _ & IH)|l (_ & IHl & _) r (_ & _ & IHr)|l (IHl & _ & _) r (_ & IHr & _)].
  - apply Hup. constructor.
  - apply Hup. constructor.
  - apply Hup. by constructor.
  - assert (conjunction (print 1 l ++ TAnd :: print 2 r) (And l r) (N.max (nesting 1 l) (nesting 2 r)))
      as Hc by by constructor.
    split_and!; [by constructor|done|]. apply (group_factor true); [done|by constructor].
  - assert (disjunction (print 0 l ++ TOr :: print 1 r) (Or l r) (N.max (nesting 0 l) (nesting 1 r)))
      as Hd by by constructor.
    split_and!; [done| |]; [apply Conj_one|]; by apply (group_factor true).
Qed.
Lemma print_nonempty e : print 0 e <> [].
Proof. by eapply (proj1 grammar_nonempty), print_grammar. Qed.

(** C25. [Condition::parse] ends on every source, and it accepts a source as an expression
    exactly when the source is within its size, its tokens are within their number and form
    that expression in the grammar, and neither nesting nor boolean nodes pass 128. *)
Theorem condition_parse_exact `{ConditionCodec} source :
  (exists r, Condition_parse source = Some r) /\
  forall e, Condition_parse source = Some (Ok e) <->
    (slen source <= MAX_CONDITION_BYTES)%N /\
    exists ts d, tokenize source = Some (Ok ts) /\ (count ts <= MAX_CONDITION_TOKENS)%N /\
      disjunction ts e d /\ (d <= MAX_CONDITION_DEPTH)%N /\
      (booleans e <= MAX_CONDITION_DEPTH)%N.
Proof. apply condition_accepts. Qed.

(** C26. Whatever expression within the bounds is written down, with parentheses where a level
    needs them, tokens spelled any of the ways the language has and spaces between them,
    parsing the text gives the expression back. *)
Theorem condition_roundtrip `{ConditionCodec} e ss :
  Forall2 spelling (print 0 e) ss ->
  (slen (spaced ss) <= MAX_CONDITION_BYTES)%N -> (count (print 0 e) <= MAX_CONDITION_TOKENS)%N ->
  (nesting 0 e <= MAX_CONDITION_DEPTH)%N -> (booleans e <= MAX_CONDITION_DEPTH)%N ->
  Condition_parse (spaced ss) = Some (Ok e).
Proof.
  intros Hs Hl Hc Hn Hb. apply condition_accepts. split; [done|].
  exists (print 0 e), (nesting 0 e). split_and!; try done; [|apply print_grammar].
  unfold tokenize. rewrite (tokenize_spaced _ _ Hs) by lia. pose proof (print_nonempty e).
  by destruct (print 0 e).
Qed.

(** ** A reader of literals *)

(** Numbers in decimal, [true], [false], [null], and strings without escapes. *)
Definition read_literal (s : string) : option value :=
  if String.eqb s "true" then Some (Bool true)
  else if String.eqb s "false" then Some (Bool false)
  else if String.eqb s "null" then Some Null
  else if starts_with s quote then
    match bytes s with
    | _ :: l => match rev l with
                | c :: r => if ascii_eqb c (ascii_of_N 34) then Some (Str (of_bytes (rev r))) else None
                | [] => None
                end
    | [] => None
    end
  else match parse_index s with Some n => Some (Number (PosInt n)) | None => None end.
Definition test_conditions : ConditionCodec.
Proof.
  refine {| json_from_str := read_literal; debug_str := fun s => quote ++s s ++s quote |}.
  reflexivity.
Defined.
#[local] Existing Instance test_conditions.

(** [!(exists(/a) && /b >= 2) || /c == "x y"]. *)
Definition test_expression : Expr :=
  Or (Not (And (Exists "/a") (ECompare (OPointer "/b") Ge_ (OLiteral (Number (PosInt 2))))))
    (ECompare (OPointer "/c") Eq_ (OLiteral (Str "x y"))).
Definition test_spelling : list string :=
  ["!"; "("; "exists"; "("; "/a"; ")"; "&&"; "/b"; ">="; "2"; ")"; "||"; "/c"; "==";
   quote ++s "x y" ++s quote].
Lemma test_spelled : Forall2 spelling (print 0 test_expression) test_spelling.
Proof.
  repeat first
    [ apply Forall2_nil_2
    | apply Forall2_cons_2; [first
        [ by apply Spell_operator | by apply Spell_pointer | by apply Spell_word
        | by apply Spell_string ]|] ].
Qed.

Lemma condition_parse_exact_witness :
  Condition_parse "exists(/a)" = Some (Ok (Exists "/a")).
Proof.
  apply (condition_parse_exact "exists(/a)"). split; [by vm_compute|].
  exists [TExists; TLParen; TPointer "/a"; TRParen], 0%N. split; [reflexivity|].
  split; [by vm_compute|]. split; [apply Disj_one, Conj_one, Factor_exists|]. by split.
Defined.

Lemma condition_roundtrip_witness :
  Condition_parse (spaced test_spelling) = Some (Ok test_expression).
Proof. apply (condition_roundtrip test_expression test_spelling test_spelled); by vm_compute. Defined.

(** Of a missing operand neither [==] nor [!=] holds. *)
Example missing_operand_differs :
  evaluate_expr (ECompare (OPointer "/a") Ne_ (OLiteral Null)) (Object []) = false /\
  evaluate_expr (Not (ECompare (OPointer "/a") Eq_ (OLiteral Null))) (Object []) = true.
Proof. split; reflexivity. Qed.
(** An integer is not a float of the same value, and compares as one. *)
Example integer_and_float :
  let one := Number (Float (f64_of_Z 1)) in
  evaluate_compare (OLiteral (Number (PosInt 1))) Eq_ (OLiteral one) Null = false /\
  evaluate_compare (OLiteral (Number (PosInt 1))) Ge_ (OLiteral one) Null = true /\
  evaluate_compare (OLiteral (Number (PosInt 1))) Le_ (OLiteral one) Null = true.
Proof. repeat split; reflexivity. Qed.
