(* ===== verification/Workflow.v ===== *)
(** * Workflow definitions

    [crates/colossus-workflow/src/validation.rs] with the contract of a definition
    ([crates/colossus-contracts/src/workflow.rs]), the part of the event-sourced repository
    that stores definitions ([repository.rs]: [register], [definition]) and the operation of
    the service that registers one ([service.rs]).  The steps of a definition are nested;
    every function that walks them is the fixpoint the source writes.  [visit] recurses over
    the definitions it reads: its fuel is the call depth it allows, and a unit more.

    The serde forms of a definition, the YAML parser and the validator of JSON schemas are
    the class [WorkflowCodec]; [WorkflowRepository] is the repository as the service sees
    it. *)

From S2P Require Import Prelude Json Contracts Boundary Platform JournalStore Journal Store.
From S2P Require Import JournalModel JournalAppend JournalTest JournalPort JournalHolds SessionTest.
From S2P Require Import ProjectionView StoreSpec StoreCorrect WorkflowCondition.

Open Scope string_scope.
Open Scope op_scope.

Definition MAX_WORKFLOW_BYTES : N := 1048576.
Definition MAX_CONCURRENCY : N := 64.
Definition MAX_STEP_BUDGET : N := 10000.
Definition MAX_FOREACH_ITEMS : N := 1000.
Definition MAX_WORKFLOW_CALL_DEPTH : nat := 16.

(** ** The contract *)

Inductive ReasoningEffort :=
| Effort_None | Effort_Minimal | Effort_Low | Effort_Medium | Effort_High | Effort_XHigh
| Effort_Max | Effort_Ultra.
Record WorkflowAgentOptions := mkWorkflowAgentOptions {
  ao_model_profile : option string;
  ao_reasoning_effort : option ReasoningEffort;
}.
Record WorkflowMetadata := mkWorkflowMetadata {
  md_name : string;
  md_version : string;
  md_description : string;
  md_scheduled_task : bool;
}.
Inductive WorkflowStep :=
| Agent (id prompt : string) (options : WorkflowAgentOptions) (idempotency : option string)
| Tool (id tool : string) (arguments : value) (idempotency : option string)
| Workflow (id workflow version : string) (inputs : value)
| Approval (id prompt : string)
| Condition (id expression : string) (then_ otherwise : list WorkflowStep)
| Parallel (id : string) (branches : list (list WorkflowStep)) (max_concurrency : N)
| Foreach (id items : string) (max_items : N) (steps : list WorkflowStep)
| WaitForInput (id prompt : string) (schema : value)
| Emit (id : string) (v : value).
Record WorkflowDefinition := mkWorkflowDefinition {
  wd_api_version : string;
  wd_kind : string;
  wd_metadata : WorkflowMetadata;
  wd_inputs : value;
  wd_outputs : value;
  wd_capabilities : list string;
  wd_max_concurrency : N;
  wd_step_budget : N;
  wd_steps : list WorkflowStep;
  wd_compensation : list WorkflowStep;
}.
Record ValidatedWorkflow := mkValidatedWorkflow {
  vw_definition : WorkflowDefinition;
  vw_content_hash : string;
}.

Class WorkflowCodec := {
  definition_to_value : WorkflowDefinition -> value;
  definition_from_value : value -> result string WorkflowDefinition;
  yaml_from_str : string -> result string WorkflowDefinition;
  schema_validator_for : value -> result string unit;
}.

(** ** Steps *)

Definition step_id (s : WorkflowStep) : string :=
  match s with
  | Agent id _ _ _ | Tool id _ _ _ | Workflow id _ _ _ | Approval id _ | Condition id _ _ _
  | Parallel id _ _ | Foreach id _ _ _ | WaitForInput id _ _ | Emit id _ => id
  end.
Definition step_id_byte (c : ascii) : bool :=
  is_ascii_alphanumeric c || ascii_eqb c "_" || ascii_eqb c "-" || ascii_eqb c ".".
Definition valid_step_id (id : string) : bool :=
  negb (is_empty id) && all_bytes step_id_byte id.
Definition name_byte (c : ascii) : bool :=
  is_ascii_lowercase c || is_ascii_digit c || ascii_eqb c "." || ascii_eqb c "-".
Definition valid_name (name : string) : bool := all_bytes name_byte name.

Definition step_retryable (s : WorkflowStep) : bool :=
  match s with
  | Agent _ _ _ (Some _) | Tool _ _ _ (Some _) | Workflow _ _ _ _ => true
  | _ => false
  end.

(** [iter().find_map(f)]. *)
Fixpoint find_map {A B} (f : A -> option B) (l : list A) : option B :=
  match l with
  | [] => None
  | a :: l => match f a with Some b => Some b | None => find_map f l end
  end.
(** One turn of [find_step]'s loop. *)
Fixpoint find_in (id : string) (s : WorkflowStep) : option WorkflowStep :=
  if String.eqb (step_id s) id then Some s
  else match s with
       | Condition _ _ then_ otherwise =>
           match find_map (find_in id) then_ with
           | Some s => Some s
           | None => find_map (find_in id) otherwise
           end
       | Parallel _ branches _ => find_map (find_map (find_in id)) branches
       | Foreach _ _ _ steps => find_map (find_in id) steps
       | _ => None
       end.
Definition find_step (steps : list WorkflowStep) (id : string) : option WorkflowStep :=
  find_map (find_in id) steps.

(** Identities of executions: a step under the scope of the containers around it; the scope
    of a branch ([execute_parallel]) and of an iteration ([execute_step]). *)
Definition scoped_execution_id (scope id : string) : string :=
  if is_empty scope then id else scope ++s "/" ++s id.
Definition branch_scope (execution_id : string) (index : N) : string :=
  execution_id ++s ".branch[" ++s pretty index ++s "]".
Definition iteration_scope (execution_id : string) (index : N) : string :=
  execution_id ++s "[" ++s pretty index ++s "]".

(** ** Validation *)

Definition saturating_add_u32 (a b : N) : N := N.min u32_max (a + b).

Fixpoint references_of (s : WorkflowStep) : list (string * string) :=
  match s with
  | Workflow _ workflow version _ => [(workflow, version)]
  | Condition _ _ then_ otherwise =>
      flat_map references_of then_ ++ flat_map references_of otherwise
  | Parallel _ branches _ => flat_map (flat_map references_of) branches
  | Foreach _ _ _ steps => flat_map references_of steps
  | _ => []
  end.
Definition workflow_references (steps : list WorkflowStep) : list (string * string) :=
  flat_map references_of steps.

Fixpoint rejects_direct_cycle (name version : string) (s : WorkflowStep) : result WorkflowError unit :=
  match s with
  | Workflow _ workflow called_version _ =>
      reject (String.eqb workflow name && String.eqb called_version version)
        (InvalidDefinition "workflow cannot directly call its own name and version")
  | Condition _ _ then_ otherwise =>
      try_for_each (rejects_direct_cycle name version) then_ ;;
      try_for_each (rejects_direct_cycle name version) otherwise
  | Parallel _ branches _ => try_for_each (try_for_each (rejects_direct_cycle name version)) branches
  | Foreach _ _ _ steps => try_for_each (rejects_direct_cycle name version) steps
  | _ => Ok tt
  end.
Definition reject_direct_workflow_cycle (steps : list WorkflowStep) (name version : string)
    : result WorkflowError unit := try_for_each (rejects_direct_cycle name version) steps.

(** [str::contains] with a string. *)
Fixpoint str_contains (p s : string) : bool :=
  starts_with s p || match s with EmptyString => false | String _ s => str_contains p s end.

Section Validation.
Context `{Externals} `{ConditionCodec} `{WorkflowCodec}.

(** [Condition::parse] for its error; [condition_parse_exact]: it always answers. *)
Definition check_condition (expression : string) : result WorkflowError unit :=
  match Condition_parse expression with
  | Some (Ok _) => Ok tt
  | Some (Err e) => Err e
  | None => Err (WE_Store FUEL_EXHAUSTED)
  end.

(** One turn of [validate_steps], with the loop on nested steps in place: the count so far
    and the identifiers taken. *)
Fixpoint validate_step (workflow_concurrency : N) (s : WorkflowStep) (state : N * gset string)
    : result WorkflowError (N * gset string) :=
  let validate_nested (steps : list WorkflowStep) (state : N * gset string) :=
    nested ← try_fold (fun state s => validate_step workflow_concurrency s state) steps (0%N, state.2);
    Ok (saturating_add_u32 state.1 nested.1, nested.2) in
  let count := saturating_add_u32 state.1 1 in
  let id := step_id s in
  reject (negb (valid_step_id id) || bool_decide (id ∈ state.2))
    (InvalidDefinition ("step id " ++s debug_str id ++s " is invalid or duplicated")) ;;
  let state := (count, {[id]} ∪ state.2) in
  match s with
  | Agent _ _ _ idempotency | Tool _ _ _ idempotency =>
      reject (is_some_and idempotency is_empty)
        (InvalidDefinition "idempotency strategy cannot be empty") ;; Ok state
  | Workflow _ workflow version _ =>
      reject (is_empty workflow || is_empty version)
        (InvalidDefinition "subworkflow name and version are required") ;; Ok state
  | Condition _ expression then_ otherwise =>
      check_condition expression ;;
      state ← validate_nested then_ state;
      validate_nested otherwise state
  | Parallel _ branches max_concurrency =>
      reject (bool_decide (branches = []) || (max_concurrency =? 0)%N
              || (workflow_concurrency <? max_concurrency)%N)
        (InvalidDefinition "parallel branches must be non-empty and locally bounded") ;;
      try_fold (fun state branch =>
        reject (bool_decide (branch = [])) (InvalidDefinition "parallel branches cannot be empty") ;;
        validate_nested branch state) branches state
  | Foreach _ items max_items steps =>
      reject (negb (starts_with items "/") || (max_items =? 0)%N
              || (MAX_FOREACH_ITEMS <? max_items)%N || bool_decide (steps = []))
        (InvalidDefinition "foreach needs a JSON pointer, 1..=1000 item limit, and steps") ;;
      validate_nested steps state
  | WaitForInput _ _ schema =>
      map_err (fun e => Schema ("invalid wait_for_input schema: " ++s e))
        (schema_validator_for schema) ;; Ok state
  | Approval _ _ | Emit _ _ => Ok state
  end.
Definition validate_steps (steps : list WorkflowStep) (workflow_concurrency : N) (ids : gset string)
    : result WorkflowError (N * gset string) :=
  try_fold (fun state s => validate_step workflow_concurrency s state) steps (0%N, ids).

Definition validate_compensation_step (ids : gset string) (s : WorkflowStep)
    : result WorkflowError (gset string) :=
  let id := step_id s in
  reject (negb (valid_step_id id) || bool_decide (id ∈ ids))
    (InvalidDefinition ("compensation step id " ++s debug_str id ++s " is invalid or duplicated")) ;;
  let required := InvalidDefinition "compensation effects require an explicit idempotency strategy" in
  match s with
  | Agent _ _ _ idempotency | Tool _ _ _ idempotency =>
      reject (is_none_or idempotency is_empty) required ;; Ok ({[id]} ∪ ids)
  | _ => Err (InvalidDefinition "compensation supports only idempotent agent or tool steps")
  end.
Definition validate_compensation_steps (steps : list WorkflowStep) (ids : gset string)
    : result WorkflowError N :=
  try_fold validate_compensation_step steps ids ;;
  reject (u32_max <? count steps)%N
    (InvalidDefinition "out of range integral type conversion attempted") ;;
  Ok (count steps).

Definition validate_capability (capabilities : gset string) (capability : string)
    : result WorkflowError (gset string) :=
  reject (is_empty capability || bool_decide (capability ∈ capabilities))
    (InvalidDefinition "capabilities must be non-empty and unique") ;;
  Ok ({[capability]} ∪ capabilities).

Definition validate_parsed (d : WorkflowDefinition) (raw : string)
    : result WorkflowError ValidatedWorkflow :=
  let md := wd_metadata d in
  reject (negb (String.eqb (wd_api_version d) "colossus.dev/v1alpha1")
          || negb (String.eqb (wd_kind d) "Workflow"))
    (InvalidDefinition "apiVersion must be colossus.dev/v1alpha1 and kind must be Workflow") ;;
  reject (is_empty (md_name md) || is_empty (md_version md) || is_empty (md_description md))
    (InvalidDefinition "metadata name, version, and description are required") ;;
  reject (negb (valid_name (md_name md)))
    (InvalidDefinition "workflow name must use lowercase letters, digits, dots, or hyphens") ;;
  reject (negb ((1 <=? wd_max_concurrency d) && (wd_max_concurrency d <=? MAX_CONCURRENCY))%N)
    (InvalidDefinition ("maxConcurrency must be between 1 and " ++s pretty MAX_CONCURRENCY)) ;;
  reject (negb ((1 <=? wd_step_budget d) && (wd_step_budget d <=? MAX_STEP_BUDGET))%N)
    (InvalidDefinition ("stepBudget must be between 1 and " ++s pretty MAX_STEP_BUDGET)) ;;
  reject (bool_decide (wd_steps d = [])) (InvalidDefinition "at least one root step is required") ;;
  map_err (fun e => Schema ("invalid input schema: " ++s e)) (schema_validator_for (wd_inputs d)) ;;
  map_err (fun e => Schema ("invalid output schema: " ++s e)) (schema_validator_for (wd_outputs d)) ;;
  '(steps, ids) ← validate_steps (wd_steps d) (wd_max_concurrency d) ∅;
  compensation ← validate_compensation_steps (wd_compensation d) ids;
  let step_count := saturating_add_u32 steps compensation in
  reject_direct_workflow_cycle (wd_steps d) (md_name md) (md_version md) ;;
  reject_direct_workflow_cycle (wd_compensation d) (md_name md) (md_version md) ;;
  reject (wd_step_budget d <? step_count)%N
    (InvalidDefinition ("definition contains " ++s pretty step_count ++s " steps but budget is "
      ++s pretty (wd_step_budget d))) ;;
  try_fold validate_capability (wd_capabilities d) ∅ ;;
  Ok (mkValidatedWorkflow d (sha256_hex raw)).

Definition validate_definition (yaml : string) : result WorkflowError ValidatedWorkflow :=
  reject (MAX_WORKFLOW_BYTES <? slen yaml)%N
    (InvalidDefinition ("definition exceeds " ++s pretty MAX_WORKFLOW_BYTES ++s " bytes")) ;;
  reject (str_contains "!!" yaml || str_contains "&" yaml || str_contains "*" yaml)
    (InvalidDefinition "YAML tags, anchors, and aliases are prohibited") ;;
  d ← map_err InvalidDefinition (yaml_from_str yaml);
  validate_parsed d yaml.
Definition validate_task_definition (v : value) : result WorkflowError ValidatedWorkflow :=
  raw ← map_err InvalidDefinition (to_vec_value v);
  reject (MAX_WORKFLOW_BYTES <? slen raw)%N
    (InvalidDefinition "task definition exceeds its bound") ;;
  d ← map_err InvalidDefinition (definition_from_value v);
  validate_parsed d raw.
End Validation.

(** ** Operations that fail with a [WorkflowError] *)

Definition wop (S A : Type) : Type := S -> result WorkflowError A * S.
Definition w_lift {S A} (r : result WorkflowError A) : wop S A := fun s => (r, s).
Definition w_store {S A} (m : op S A) : wop S A := fun s =>
  let '(r, s') := m s in (map_err WE_Store r, s').
Definition w_bind {S A B} (m : wop S A) (f : A -> wop S B) : wop S B := fun s =>
  let '(r, s') := m s in
  match r with Ok a => f a s' | Err e => (Err e, s') end.
Declare Scope wop_scope.
Notation "x <~~ m ;; k" := (w_bind m (fun x => k))
  (at level 100, m at next level, right associativity) : wop_scope.
Open Scope wop_scope.
Fixpoint w_for_each {S A} (f : A -> wop S unit) (l : list A) : wop S unit :=
  match l with
  | [] => w_lift (Ok tt)
  | a :: l => _ <~~ f a;; w_for_each f l
  end.

(** ** The repository *)

(** [WorkflowRepository], its two operations on definitions; a registration has the stamps
    and the correlation identifier of its event as input. *)
Class WorkflowRepository (R : Type) := {
  wr_register : Inputs -> string -> WorkflowDefinition -> string -> string -> op R unit;
  wr_definition : string -> string -> op R (option (WorkflowDefinition * string));
}.

Definition definition_stream (name version : string) : string :=
  "workflow-definition:" ++s name ++s ":" ++s version.

Section Repository.
Context `{WorkflowCodec} {J} `{EventJournal J}.

Definition registration_payload (d : WorkflowDefinition) (content_hash provenance : string)
    (trust_invalidated : bool) : value :=
  Object [("content_hash", Str content_hash); ("definition", definition_to_value d);
          ("provenance", Str provenance); ("trust_invalidated", Bool trust_invalidated)].
Definition registration_event (correlation_id : string) (d : WorkflowDefinition)
    (content_hash provenance : string) (existing : list EventEnvelope) : NewEvent :=
  let first := bool_decide (existing = []) in
  mkNewEvent 1 (definition_stream (md_name (wd_metadata d)) (md_version (wd_metadata d)))
    (count existing) EC_Workflow
    (if first then "workflow.definition.registered.v1" else "workflow.definition.changed.v1")
    (mkActor User "workflow-registrar")
    (mkExecutionContext None correlation_id None None None None None None None None [] [] []
       None None None None)
    (registration_payload d content_hash provenance (negb first)).

(** Whether the last event of a stream has the content hash already. *)
Definition registered_hash (existing : list EventEnvelope) : op J (option string) :=
  match last existing with
  | None => op_ret None
  | Some event =>
      payload <~ ej_decrypt_payload event;;
      op_ret (get_str "content_hash" payload)
  end.
Definition register (inputs : Inputs) (correlation_id : string) (d : WorkflowDefinition)
    (content_hash provenance : string) : op J unit :=
  existing <~ ej_read_stream
    (definition_stream (md_name (wd_metadata d)) (md_version (wd_metadata d)));;
  current <~ registered_hash existing;;
  if bool_decide (current = Some content_hash) then op_ret tt
  else
    _ <~ ej_append inputs
      (registration_event correlation_id d content_hash provenance existing);;
    op_ret tt.

Definition definition (name version : string) : op J (option (WorkflowDefinition * string)) :=
  events <~ ej_read_stream (definition_stream name version);;
  match last events with
  | None => op_ret None
  | Some event =>
      payload <~ ej_decrypt_payload event;;
      op_lift (
        v ← ok_or (get "definition" payload) (Verification "definition payload is absent");
        d ← map_err Verification (definition_from_value v);
        content_hash ← ok_or (get_str "content_hash" payload)
          (Verification "definition hash is absent");
        Ok (Some (d, content_hash)))
  end.

#[export] Instance event_sourced_workflow_repository : WorkflowRepository J := {|
  wr_register := register;
  wr_definition := definition;
|}.
End Repository.

(** ** The call graph and the service *)

Definition same_key (a b : string * string) : bool := String.eqb a.1 b.1 && String.eqb a.2 b.2.
Definition key_text (key : string * string) : string := key.1 ++s ":" ++s key.2.
(** The stack from the first entry that is the key. *)
Fixpoint from_key (key : string * string) (stack : list (string * string))
    : option (list (string * string)) :=
  match stack with
  | [] => None
  | entry :: stack' => if same_key entry key then Some stack else from_key key stack'
  end.
Fixpoint join (separator : string) (l : list string) : string :=
  match l with
  | [] => ""
  | [s] => s
  | s :: l => s ++s separator ++s join separator l
  end.

Section Service.
Context `{Externals} `{ConditionCodec} `{WorkflowCodec} {R} `{WorkflowRepository R}.

Definition definition_key (d : WorkflowDefinition) : string * string :=
  (md_name (wd_metadata d), md_version (wd_metadata d)).

(** [visit] of [validate_call_graph]; the stack is the calls being visited. *)
Fixpoint visit (fuel : nat) (proposed : WorkflowDefinition) (require_complete : bool)
    (key : string * string) (stack : list (string * string)) : wop R unit :=
  match fuel with
  | O => w_lift (Err (WE_Store FUEL_EXHAUSTED))
  | S fuel =>
      _ <~~ w_lift match from_key key stack with
            | Some cycle => Err (InvalidDefinition ("workflow call cycle detected: "
                ++s join " -> " (map key_text cycle ++ [key_text key])%list))
            | None => Ok tt
            end;;
      _ <~~ w_lift (reject (Nat.leb MAX_WORKFLOW_CALL_DEPTH (length stack))
        (InvalidDefinition ("workflow call depth exceeds "
          ++s pretty (N.of_nat MAX_WORKFLOW_CALL_DEPTH))));;
      found <~~ (if same_key key (definition_key proposed) then w_lift (Ok (Some proposed))
                 else r <~~ w_store (wr_definition key.1 key.2);; w_lift (Ok (fst <$> r)));;
      match found with
      | None =>
          if require_complete then w_lift (Err (WE_NotFound (key_text key)))
          else w_lift (Ok tt)
      | Some d =>
          w_for_each (fun child => visit fuel proposed require_complete child (stack ++ [key])%list)
            (workflow_references (wd_steps d))
      end
  end.
Definition validate_call_graph (proposed : WorkflowDefinition) (require_complete : bool)
    : wop R unit :=
  visit (S MAX_WORKFLOW_CALL_DEPTH) proposed require_complete (definition_key proposed) [].

(** [WorkflowService::register_definition]; its writer lock makes it one step. *)
Definition register_definition (inputs : Inputs) (correlation_id yaml provenance : string)
    : wop R ValidatedWorkflow :=
  validated <~~ w_lift (validate_definition yaml);;
  _ <~~ validate_call_graph (vw_definition validated) false;;
  _ <~~ w_store (wr_register inputs correlation_id (vw_definition validated)
    (vw_content_hash validated) provenance);;
  w_lift (Ok validated).
End Service.

(** ** What makes a definition valid *)

(** A step and the steps in it. *)
Fixpoint steps_in (s : WorkflowStep) : list WorkflowStep :=
  s :: match s with
       | Condition _ _ then_ otherwise => flat_map steps_in then_ ++ flat_map steps_in otherwise
       | Parallel _ branches _ => flat_map (flat_map steps_in) branches
       | Foreach _ _ _ steps => flat_map steps_in steps
       | _ => []
       end.
Definition all_steps (steps : list WorkflowStep) : list WorkflowStep := flat_map steps_in steps.
Definition ids_of (steps : list WorkflowStep) : list string := step_id <$> all_steps steps.

Section Valid.
Context `{ConditionCodec} `{WorkflowCodec}.

Definition content_ok (workflow_concurrency : N) (s : WorkflowStep) : Prop :=
  match s with
  | Agent _ _ _ idempotency | Tool _ _ _ idempotency => idempotency <> Some ""
  | Workflow _ workflow version _ => workflow <> "" /\ version <> ""
  | Condition _ expression _ _ => exists e, Condition_parse expression = Some (Ok e)
  | Parallel _ branches m =>
      branches <> [] /\ Forall (fun branch => branch <> []) branches /\ (1 <= m <= workflow_concurrency)%N
  | Foreach _ items m steps =>
      starts_with items "/" = true /\ (1 <= m <= MAX_FOREACH_ITEMS)%N /\ steps <> []
  | WaitForInput _ _ schema => schema_validator_for schema = Ok tt
  | Approval _ _ | Emit _ _ => True
  end.
Definition step_ok (workflow_concurrency : N) (s : WorkflowStep) : Prop :=
  valid_step_id (step_id s) = true /\ content_ok workflow_concurrency s.
Definition compensation_ok (s : WorkflowStep) : Prop :=
  valid_step_id (step_id s) = true /\
  match s with
  | Agent _ _ _ (Some strategy) | Tool _ _ _ (Some strategy) => strategy <> ""
  | _ => False
  end.

Record well_formed (d : WorkflowDefinition) : Prop := {
  wf_version : wd_api_version d = "colossus.dev/v1alpha1" /\ wd_kind d = "Workflow";
  wf_metadata : md_name (wd_metadata d) <> "" /\ md_version (wd_metadata d) <> "" /\
    md_description (wd_metadata d) <> "" /\ valid_name (md_name (wd_metadata d)) = true;
  wf_concurrency : (1 <= wd_max_concurrency d <= MAX_CONCURRENCY)%N;
  wf_budget : (count (all_steps (wd_steps d)) + count (wd_compensation d) <= wd_step_budget d
               <= MAX_STEP_BUDGET)%N;
  wf_steps : wd_steps d <> [] /\ Forall (step_ok (wd_max_concurrency d)) (all_steps (wd_steps d));
  wf_compensation : Forall compensation_ok (wd_compensation d);
  wf_ids : NoDup (ids_of (wd_steps d) ++ (step_id <$> wd_compensation d));
  wf_schemas : schema_validator_for (wd_inputs d) = Ok tt /\ schema_validator_for (wd_outputs d) = Ok tt;
  wf_no_self_call : (md_name (wd_metadata d), md_version (wd_metadata d))
    ∉ workflow_references (wd_steps d);
  wf_capabilities : Forall (fun c => c <> "") (wd_capabilities d) /\ NoDup (wd_capabilities d);
}.
End Valid.

(** ** Walking the steps *)

Section StepInd.
Context (P : WorkflowStep -> Prop).
Context (Hagent : forall id p o i, P (Agent id p o i)) (Htool : forall id t a i, P (Tool id t a i)).
Context (Hwf : forall id w v i, P (Workflow id w v i)) (Happroval : forall id p, P (Approval id p)).
Context (Hcond : forall id e t o, Forall P t -> Forall P o -> P (Condition id e t o)).
Context (Hpar : forall id bs m, Forall (Forall P) bs -> P (Parallel id bs m)).
Context (Heach : forall id i m l, Forall P l -> P (Foreach id i m l)).
Context (Hwait : forall id p s, P (WaitForInput id p s)) (Hemit : forall id v, P (Emit id v)).

(** Induction through the nested lists. *)
Fixpoint step_rec_full (s : WorkflowStep) : P s :=
  let all := fix all (l : list WorkflowStep) : Forall P l :=
    match l with
    | [] => @List.Forall_nil _ P
    | x :: l => @List.Forall_cons _ P x l (step_rec_full x) (all l)
    end in
  match s with
  | Agent id p o i => Hagent id p o i
  | Tool id t a i => Htool id t a i
  | Workflow id w v i => Hwf id w v i
  | Approval id p => Happroval id p
  | Condition id e t o => Hcond id e t o (all t) (all o)
  | Parallel id bs m =>
      Hpar id bs m ((fix alls (bs : list (list WorkflowStep)) : Forall (Forall P) bs :=
        match bs with
        | [] => @List.Forall_nil _ (Forall P)
        | b :: bs => @List.Forall_cons _ (Forall P) b bs (all b) (alls bs)
        end) bs)
  | Foreach id i m l => Heach id i m l (all l)
  | WaitForInput id p s => Hwait id p s
  | Emit id v => Hemit id v
  end.
End StepInd.

Lemma try_fold_ext {E A S} (f g : S -> A -> result E S) l s :
  Forall (fun a => forall s, f s a = g s a) l -> try_fold f l s = try_fold g l s.
Proof.
  intros Hl. revert s. induction Hl as [|a l Ha _ IH]; intros s; simpl; [done|].
  rewrite Ha. by destruct (g s a); simpl.
Qed.

Lemma flat_map_Forall {A B} (f : A -> list B) (Q : B -> Prop) l :
  Forall Q (flat_map f l) <-> Forall (fun a => Forall Q (f a)) l.
Proof.
  induction l as [|a l IH]; simpl; [by split; constructor|]. by rewrite Forall_app, Forall_cons, IH.
Qed.
Lemma elem_of_flat_map {A B} (f : A -> list B) l b :
  b ∈ flat_map f l <-> exists a, a ∈ l /\ b ∈ f a.
Proof. rewrite list_elem_of_In, in_flat_map. by setoid_rewrite list_elem_of_In. Qed.

(** Nothing but the step itself carries its identifier's checks. *)
Lemma steps_in_head s : exists l, steps_in s = s :: l.
Proof. destruct s; simpl; eauto. Qed.

(** *** Loops that count steps and take identifiers *)

Abbreviation walk := (N * gset string -> result WorkflowError (N * gset string)).
Definition fresh (l : list WorkflowStep) (ids : gset string) : Prop :=
  NoDup (step_id <$> l) /\ forall x, x ∈ step_id <$> l -> x ∉ ids.
Definition taken (l : list WorkflowStep) (ids : gset string) : gset string :=
  list_to_set (step_id <$> l) ∪ ids.
(** [f] walks the steps [l], and succeeds exactly if [P] and their identifiers are new. *)
Definition walks (f : walk) (l : list WorkflowStep) (P : Prop) : Prop :=
  forall c ids st, (c <= u32_max)%N ->
    f (c, ids) = Ok st <->
    P /\ fresh l ids /\ st = (saturating_add_u32 c (count l), taken l ids).

Lemma saturating_add_u32_add c a b :
  saturating_add_u32 (saturating_add_u32 c a) b = saturating_add_u32 c (a + b).
Proof. unfold saturating_add_u32, u32_max. lia. Qed.
Lemma saturating_add_u32_bound c a : (saturating_add_u32 c a <= u32_max)%N.
Proof. unfold saturating_add_u32. lia. Qed.

Lemma fresh_app l l' ids : fresh (l ++ l') ids <-> fresh l ids /\ fresh l' (taken l ids).
Proof.
  unfold fresh, taken. rewrite fmap_app, NoDup_app. set_solver.
Qed.
Lemma taken_app l l' ids : taken (l ++ l') ids = taken l' (taken l ids).
Proof. unfold taken. rewrite fmap_app, list_to_set_app_L. set_solver. Qed.

Lemma walks_nil (f : walk) P : (forall st st', f st = Ok st' <-> P /\ st' = st) -> walks f [] P.
Proof.
  intros Hf c ids st Hc. rewrite Hf. unfold fresh, taken, saturating_add_u32, count. simpl.
  rewrite N.add_0_r, N.min_r, (left_id_L ∅ (∪)) by done.
  split; [intros [? ->]|intros (? & _ & ->)]; split_and!; try done; [constructor|].
  intros x. by rewrite elem_of_nil.
Qed.
Lemma walks_bind (f g : walk) l l' P P' : walks f l P -> walks g l' P' ->
  walks (fun st => st ← f st; g st) (l ++ l') (P /\ P').
Proof.
  intros Hf Hg c ids st Hc. rewrite bind_Ok. rewrite fresh_app, taken_app, count_app.
  split.
  - intros (st1 & (HP & Hl & ->)%Hf & Hg1); [|done].
    apply Hg in Hg1 as (HP' & Hl' & ->); [|apply saturating_add_u32_bound].
    by rewrite saturating_add_u32_add.
  - intros ([HP HP'] & [Hl Hl'] & ->). eexists. split; [by apply Hf|].
    apply Hg; [apply saturating_add_u32_bound|]. by rewrite saturating_add_u32_add.
Qed.
Lemma walks_iff (f : walk) l P P' : (P <-> P') -> walks f l P -> walks f l P'.
Proof. intros HP Hf c ids st Hc. by rewrite (Hf c ids st Hc), HP. Qed.

Lemma walks_fold {A} (f : N * gset string -> A -> result WorkflowError (N * gset string))
    (g : A -> list WorkflowStep) (P : A -> Prop) l :
  Forall (fun a => walks (fun st => f st a) (g a) (P a)) l ->
  walks (try_fold f l) (flat_map g l) (Forall P l).
Proof.
  induction 1 as [|a l Ha _ IH].
  - apply walks_nil. intros st st'. simpl. split; [by intros [= ->]|by intros [_ ->]].
  - simpl. eapply walks_iff; [symmetry; apply Forall_cons|].
    exact (walks_bind _ _ _ _ _ _ Ha IH).
Qed.

(** The count of nested steps starts anew and is added. *)
Lemma walks_nested (f : walk) l P : walks f l P ->
  walks (fun st => nested ← f (0%N, st.2); Ok (saturating_add_u32 st.1 nested.1, nested.2)) l P.
Proof.
  intros Hf c ids st Hc. rewrite bind_Ok. simpl. split.
  - intros (n & (HP & Hl & ->)%Hf & [= <-]); [|done]. simpl. split_and!; [done..|].
    f_equal. unfold saturating_add_u32, u32_max in *. lia.
  - intros (HP & Hl & ->). eexists. split; [by apply Hf|]. simpl. do 2 f_equal.
    unfold saturating_add_u32, u32_max in *. lia.
Qed.

Section ValidatesSteps.
Context `{Externals} `{ConditionCodec} `{WorkflowCodec}.

Lemma walks_reject (b : bool) e (f : walk) l P P' :
  (b = false <-> P) -> walks f l P' -> walks (fun st => reject b e ;; f st) l (P /\ P').
Proof.
  intros Hb Hf c ids st Hc. rewrite bind_Ok. setoid_rewrite (Hf c ids st Hc). rewrite <- Hb.
  destruct b; simpl.
  - split; [by intros (? & ? & _)|by intros [[? _] _]].
  - split; [intros (u & _ & ? & ? & ?)|intros ([_ ?] & ? & ?)]; eauto 6.
Qed.
Lemma walks_check (r : result WorkflowError unit) (f : walk) l P P' :
  (r = Ok tt <-> P) -> walks f l P' -> walks (fun st => r ;; f st) l (P /\ P').
Proof.
  intros Hb Hf c ids st Hc. rewrite bind_Ok. setoid_rewrite (Hf c ids st Hc). rewrite <- Hb.
  destruct r as [[]|]; simpl.
  - split; [intros (u & _ & ? & ? & ?)|intros ([_ ?] & ? & ?)]; eauto 6.
  - split; [by intros (? & ? & _)|by intros [[? _] _]].
Qed.

Lemma check_condition_ok expression :
  check_condition expression = Ok tt <-> exists e, Condition_parse expression = Some (Ok e).
Proof.
  unfold check_condition. destruct (Condition_parse expression) as [[e|e]|];
    split; try done; eauto; by intros (? & [=]).
Qed.

(** The part of [validate_step] before its [match]. *)
Lemma walks_step s (rest : walk) l P :
  walks rest l P ->
  walks (fun state =>
    reject (negb (valid_step_id (step_id s)) || bool_decide (step_id s ∈ state.2))
      (InvalidDefinition ("step id " ++s debug_str (step_id s) ++s " is invalid or duplicated")) ;;
    rest (saturating_add_u32 state.1 1, {[step_id s]} ∪ state.2))
    (s :: l) (valid_step_id (step_id s) = true /\ P).
Proof.
  intros Hr c ids st Hc. rewrite bind_Ok. simpl.
  assert ((taken (s :: l) ids) = (taken l ({[step_id s]} ∪ ids))) as -> by (unfold taken; simpl; set_solver).
  assert (fresh (s :: l) ids <-> (step_id s ∉ ids) /\ fresh l ({[step_id s]} ∪ ids)) as ->
    by (unfold fresh; simpl; rewrite NoDup_cons; set_solver).
  assert (saturating_add_u32 c (count (s :: l)) = saturating_add_u32 (saturating_add_u32 c 1) (count l)) as ->.
  { rewrite saturating_add_u32_add. f_equal. unfold count. simpl. lia. }
  setoid_rewrite (Hr _ _ st (saturating_add_u32_bound c 1)).
  destruct (valid_step_id (step_id s)); simpl.
  - case_bool_decide; simpl; split; [by intros (? & ? & _)|naive_solver| |naive_solver].
    intros (? & _ & ?). naive_solver.
  - split; [by intros (? & ? & _)|naive_solver].
Qed.
End ValidatesSteps.

Section StepsExact.
Context `{Externals} `{ConditionCodec} `{WorkflowCodec} (wc : N).

Definition nested_walk (l : list WorkflowStep) : walk := fun st =>
  nested ← try_fold (fun st s => validate_step wc s st) l (0%N, st.2);
  Ok (saturating_add_u32 st.1 nested.1, nested.2).
(** The [match] of [validate_step]. *)
Definition step_walk (s : WorkflowStep) : walk := fun st =>
  match s with
  | Agent _ _ _ idempotency | Tool _ _ _ idempotency =>
      reject (is_some_and idempotency is_empty)
        (InvalidDefinition "idempotency strategy cannot be empty") ;; Ok st
  | Workflow _ workflow version _ =>
      reject (is_empty workflow || is_empty version)
        (InvalidDefinition "subworkflow name and version are required") ;; Ok st
  | Condition _ expression then_ otherwise =>
      check_condition expression ;; (st ← nested_walk then_ st; nested_walk otherwise st)
  | Parallel _ branches max_concurrency =>
      reject (bool_decide (branches = []) || (max_concurrency =? 0)%N || (wc <? max_concurrency)%N)
        (InvalidDefinition "parallel branches must be non-empty and locally bounded") ;;
      try_fold (fun st branch =>
        reject (bool_decide (branch = [])) (InvalidDefinition "parallel branches cannot be empty") ;;
        nested_walk branch st) branches st
  | Foreach _ items max_items steps =>
      reject (negb (starts_with items "/") || (max_items =? 0)%N
              || (MAX_FOREACH_ITEMS <? max_items)%N || bool_decide (steps = []))
        (InvalidDefinition "foreach needs a JSON pointer, 1..=1000 item limit, and steps") ;;
      nested_walk steps st
  | WaitForInput _ _ schema =>
      map_err (fun e => Schema ("invalid wait_for_input schema: " ++s e))
        (schema_validator_for schema) ;; Ok st
  | Approval _ _ | Emit _ _ => Ok tt ;; Ok st
  end.
Definition inner_steps (s : WorkflowStep) : list WorkflowStep := tail (steps_in s).
Lemma leaf_walk s (b : result WorkflowError unit) P :
  (forall st, step_walk s st = (b ;; Ok st)) -> (b = Ok tt <-> P) ->
  walks (step_walk s) [] (P /\ Forall (step_ok wc) []).
Proof.
  intros Hs Hb. eapply (walks_iff _ _ P); [by rewrite Forall_nil, (right_id True and)|].
  apply walks_nil. intros st st'. rewrite Hs, bind_Ok, <- Hb.
  split; [by intros ([] & ? & [= ->])|intros [? ->]; eauto].
Qed.

Lemma not_empty_strategy (o : option string) : is_some_and o is_empty = false <-> o <> Some "".
Proof. destruct o as [s|]; [|done]. simpl. rewrite is_empty_false. naive_solver. Qed.
Abbreviation all_ok := (fun s => Forall (step_ok wc) (steps_in s)).
Abbreviation walked := (fun s => walks (validate_step wc s) (steps_in s) (all_ok s)).

Lemma nested_walks l : Forall walked l ->
  walks (nested_walk l) (flat_map steps_in l) (Forall (step_ok wc) (flat_map steps_in l)).
Proof.
  intros Hl. eapply walks_iff; [symmetry; apply flat_map_Forall|].
  apply (walks_nested (try_fold (fun st s => validate_step wc s st) l)).
  exact (walks_fold (fun st s => validate_step wc s st) steps_in _ l Hl).
Qed.

(** The checks and the steps of one step's [match]. *)
Lemma step_walks s : match s with
    | Condition _ _ t o => Forall walked t /\ Forall walked o
    | Parallel _ bs _ => Forall (Forall walked) bs
    | Foreach _ _ _ l => Forall walked l
    | _ => True
    end ->
  walks (step_walk s) (inner_steps s) (content_ok wc s /\ Forall (step_ok wc) (inner_steps s)).
Proof.
  intros Hs.
  destruct s as [id p o i|id t a i|id w v i|id p|id e t o|id bs m|id i m l|id p sch|id v];
    unfold inner_steps; cbn [steps_in tail].
  - eapply leaf_walk; [done|]. rewrite reject_Ok. apply not_empty_strategy.
  - eapply leaf_walk; [done|]. rewrite reject_Ok. apply not_empty_strategy.
  - eapply leaf_walk; [done|]. by rewrite reject_Ok, orb_false_iff, !is_empty_false.
  - by eapply (leaf_walk _ (Ok tt)).
  - destruct Hs as [Ht Ho]. eapply walks_iff; [|
      exact (walks_check _ _ _ _ _ (check_condition_ok e)
        (walks_bind _ _ _ _ _ _ (nested_walks t Ht) (nested_walks o Ho)))].
    by rewrite Forall_app.
  - eapply walks_iff; [|refine (walks_reject _ _ _ (flat_map (flat_map steps_in) bs)
      (bs <> [] /\ (1 <= m <= wc)%N) _ _ (walks_fold _ (flat_map steps_in)
        (fun b => b <> [] /\ Forall (step_ok wc) (flat_map steps_in b)) bs _))].
    + rewrite flat_map_Forall, Forall_and. simpl. tauto.
    + rewrite !orb_false_iff, bool_decide_eq_false, N.eqb_neq, N.ltb_ge.
      split; [intros [[? ?] ?]|intros (? & ? & ?)]; split_and?; done || lia.
    + eapply Forall_impl; [exact Hs|]. intros b Hb.
      exact (walks_reject _ _ _ _ _ _ (bool_decide_eq_false _) (nested_walks b Hb)).
  - eapply walks_iff; [|refine (walks_reject _ _ _ (flat_map steps_in l)
      (starts_with i "/" = true /\ (1 <= m <= MAX_FOREACH_ITEMS)%N /\ l <> []) _ _ (nested_walks l Hs))].
    + simpl. tauto.
    + rewrite !orb_false_iff, bool_decide_eq_false, N.eqb_neq, N.ltb_ge, negb_false_iff.
      split; [intros [[[? ?] ?] ?]|intros (? & ? & ?)]; split_and?; done || lia.
  - eapply leaf_walk; [done|]. by rewrite map_err_Ok.
  - by eapply (leaf_walk _ (Ok tt)).
Qed.

Lemma validate_step_walks s : walked s.
Proof.
  assert (forall s, walks (step_walk s) (inner_steps s) (content_ok wc s /\ Forall (step_ok wc) (inner_steps s)) ->
    walked s) as Hstep.
  { clear s. intros s Hs. destruct (steps_in_head s) as [l Hl].
    assert (inner_steps s = l) as Hi by (unfold inner_steps; by rewrite Hl). rewrite Hi in Hs. rewrite Hl.
    eapply walks_iff; [|intros c ids st; etrans; [|exact (walks_step s _ l _ Hs c ids st ltac:(done))]].
    - rewrite Forall_cons. unfold step_ok at 2. tauto.
    - by destruct s. }
  induction s using step_rec_full; apply Hstep, step_walks; done.
Qed.
End StepsExact.

(** *** The other checks of a definition *)

Lemma direct_cycle_exact name version s :
  rejects_direct_cycle name version s = Ok tt <-> (name, version) ∉ references_of s.
Proof.
  assert (forall l, Forall (fun s => rejects_direct_cycle name version s = Ok tt <->
    (name, version) ∉ references_of s) l ->
    try_for_each (rejects_direct_cycle name version) l = Ok tt <->
    (name, version) ∉ flat_map references_of l) as Hl.
  { induction 1 as [|s' l Hs _ IH]; simpl; [split; [by intros _ ?%elem_of_nil|done]|].
    rewrite bind_Ok, not_elem_of_app, <- Hs, <- IH.
    split; [intros ([] & ? & ?)|intros [? ?]; exists tt]; done. }
  induction s as [id p o i|id t a i|id w v i|id p|id e t o IHt IHo|id bs m IH|id i m l IH|id p sch|id v]
    using step_rec_full; cbn [rejects_direct_cycle references_of];
    try (split; [by intros _ ?%elem_of_nil|done]).
  - rewrite reject_Ok, andb_false_iff, !String.eqb_neq, not_elem_of_cons.
    split; [intros Hne; split; [naive_solver|by intros ?%elem_of_nil]|].
    intros [Hne _]. destruct (String.eqb_spec w name); [subst; right|by left]. naive_solver.
  - rewrite bind_Ok, not_elem_of_app, <- (Hl t IHt), <- (Hl o IHo).
    split; [intros ([] & ? & ?)|intros [? ?]; exists tt]; done.
  - induction IH as [|b bs Hb _ IHbs]; simpl; [split; [by intros _ ?%elem_of_nil|done]|].
    rewrite bind_Ok, not_elem_of_app, <- (Hl b Hb), <- IHbs.
    split; [intros ([] & ? & ?)|intros [? ?]; exists tt]; done.
  - by apply Hl.
Qed.
Lemma reject_direct_workflow_cycle_exact steps name version :
  reject_direct_workflow_cycle steps name version = Ok tt <->
  (name, version) ∉ workflow_references steps.
Proof.
  unfold reject_direct_workflow_cycle, workflow_references.
  rewrite try_for_each_Ok, Forall_forall, elem_of_flat_map.
  setoid_rewrite direct_cycle_exact. naive_solver.
Qed.

(** A loop that takes keys one by one. *)
Lemma take_keys {A E} (f : gset string -> A -> result E (gset string)) (key : A -> string)
    (Q : A -> Prop) l :
  (forall ids a ids', f ids a = Ok ids' <-> Q a /\ (key a ∉ ids) /\ ids' = {[key a]} ∪ ids) ->
  forall ids, (exists ids', try_fold f l ids = Ok ids') <->
    Forall Q l /\ NoDup (key <$> l) /\ forall x, x ∈ key <$> l -> x ∉ ids.
Proof.
  intros Hf. induction l as [|a l IH]; intros ids; simpl.
  { split; [|eauto]. intros _. split_and!; [constructor|constructor|]. by intros x ?%elem_of_nil. }
  rewrite Forall_cons, NoDup_cons. setoid_rewrite bind_Ok. setoid_rewrite Hf. split.
  - intros (ids' & ids1 & (HQ & Hid & ->) & Hl).
    destruct (proj1 (IH ({[key a]} ∪ ids)) (ex_intro _ _ Hl)) as (HQl & Hnd & Hfr). set_solver.
  - intros ([HQ HQl] & [Hn Hnd] & Hfr).
    destruct (proj2 (IH ({[key a]} ∪ ids))) as [ids' Hl]; [split_and!; set_solver|].
    exists ids', ({[key a]} ∪ ids). set_solver.
Qed.

Section DefinitionExact.
Context `{Externals} `{ConditionCodec} `{WorkflowCodec}.

Lemma compensation_step_exact ids s ids' :
  validate_compensation_step ids s = Ok ids' <->
  compensation_ok s /\ (step_id s ∉ ids) /\ ids' = {[step_id s]} ∪ ids.
Proof.
  unfold validate_compensation_step, compensation_ok. rewrite bind_Ok.
  assert (forall o : option string, is_none_or o is_empty = false <->
    match o with Some strategy => strategy <> "" | None => False end) as Ho.
  { intros [o|]; [apply is_empty_false|done]. }
  assert (forall (b : bool) (e : WorkflowError) (P : Prop), (b = false <-> P) ->
    (reject b e ;; Ok ({[step_id s]} ∪ ids)) = Ok ids' <-> P /\ ids' = {[step_id s]} ∪ ids) as Hr.
  { intros b e P <-. rewrite bind_Ok.
    destruct b; simpl; [naive_solver|]. split; [intros ([] & _ & [= <-]); done|].
    intros [_ ->]. by exists tt. }
  destruct (valid_step_id (step_id s)); simpl; [|naive_solver].
  case_bool_decide as Hid; simpl; [naive_solver|].
  destruct s as [id p o i|id t a i|id w v i|id p|id e t o|id bs m|id i m l|id p sch|id v];
    try naive_solver.
Qed.

Lemma compensation_references l : Forall compensation_ok l -> workflow_references l = [].
Proof.
  induction 1 as [|s l [_ Hs] _ IH]; [done|]. unfold workflow_references in *. simpl. rewrite IH.
  by destruct s.
Qed.
Lemma compensation_steps_exact l ids n :
  validate_compensation_steps l ids = Ok n <->
  Forall compensation_ok l /\ NoDup (step_id <$> l) /\ (forall x, x ∈ step_id <$> l -> x ∉ ids) /\
  (count l <= u32_max)%N /\ n = count l.
Proof.
  unfold validate_compensation_steps. rewrite bind_Ok.
  pose proof (take_keys _ step_id compensation_ok l compensation_step_exact ids) as Hl.
  split.
  - intros (ids' & Hf & (u & Hc & [= <-])%bind_Ok).
    destruct (proj1 Hl (ex_intro _ _ Hf)) as (? & ? & ?). destruct u.
    apply reject_Ok, N.ltb_ge in Hc. done.
  - intros (H1' & H2' & H3' & Hc & ->). destruct (proj2 Hl) as [ids' Hf]; [done|].
    exists ids'. split; [done|]. apply bind_Ok. exists tt. split; [|done].
    by apply reject_Ok, N.ltb_ge.
Qed.

Lemma capability_exact ids c ids' :
  validate_capability ids c = Ok ids' <-> c <> "" /\ (c ∉ ids) /\ ids' = {[c]} ∪ ids.
Proof.
  unfold validate_capability. rewrite bind_Ok, <- is_empty_false.
  destruct (is_empty c); simpl; [naive_solver|]. case_bool_decide; simpl; [naive_solver|].
  split; [intros ([] & _ & [= <-]); done|]. intros (_ & _ & ->). by exists tt.
Qed.

Lemma validate_steps_exact steps wc r :
  validate_steps steps wc ∅ = Ok r <->
  Forall (step_ok wc) (all_steps steps) /\ NoDup (ids_of steps) /\
  r = (N.min u32_max (count (all_steps steps)), list_to_set (ids_of steps)).
Proof.
  pose proof (walks_fold (fun st s => validate_step wc s st) steps_in _ steps
    (proj2 (Forall_forall _ _) (fun s _ => validate_step_walks wc s))) as Hw.
  unfold validate_steps. rewrite (Hw 0%N ∅ r) by done. rewrite <- flat_map_Forall.
  unfold fresh, taken, saturating_add_u32, ids_of, all_steps. rewrite N.add_0_l, (right_id_L ∅ (∪)).
  set_solver.
Qed.
End DefinitionExact.

(** *** Whole definitions *)

Section WholeDefinition.
Context `{Externals} `{ConditionCodec} `{WorkflowCodec}.

Lemma reject_then {A} (b : bool) (e : WorkflowError) (m : result WorkflowError A) a :
  (reject b e ;; m) = Ok a <-> b = false /\ m = Ok a.
Proof. rewrite bind_Ok. destruct b; simpl; naive_solver. Qed.
Lemma check_then {A} (c : result WorkflowError unit) (m : result WorkflowError A) a :
  (c ;; m) = Ok a <-> c = Ok tt /\ m = Ok a.
Proof. rewrite bind_Ok. destruct c as [[]|]; naive_solver. Qed.
Lemma ignore_then {A B} (c : result WorkflowError B) (m : result WorkflowError A) a :
  (c ;; m) = Ok a <-> (exists b, c = Ok b) /\ m = Ok a.
Proof. rewrite bind_Ok. naive_solver. Qed.

Lemma validate_parsed_exact d raw w :
  validate_parsed d raw = Ok w <-> well_formed d /\ w = mkValidatedWorkflow d (sha256_hex raw).
Proof.
  unfold validate_parsed. rewrite !reject_then, !check_then.
  rewrite !map_err_Ok, !orb_false_iff, !negb_false_iff, !String.eqb_eq, !is_empty_false, !andb_true_iff,
    !N.leb_le, bool_decide_eq_false, bind_Ok.
  split.
  - intros ([Hv Hk] & [[Hn Hve] Hd] & Hname & Hc & Hb & Hs & Hin & Hout & [n ids] & Hsteps & Hrest).
    apply validate_steps_exact in Hsteps as (Hok & Hnd & [= -> ->]).
    apply bind_Ok in Hrest as (m & (Hcok & Hcnd & Hfr & Hcc & ->)%compensation_steps_exact & Hrest).
    rewrite !check_then, ignore_then, reject_Ok in Hrest.
    destruct Hrest as (Hself & _ & Hbudget & Hcap & [= <-]).
    apply reject_direct_workflow_cycle_exact in Hself. apply N.ltb_ge in Hbudget.
    apply (take_keys _ id (fun c => c <> "")) in Hcap as (Hcap & Hcapnd & _);
      [|apply capability_exact]. rewrite list_fmap_id in Hcapnd.
    split; [|done]. unfold saturating_add_u32, u32_max, MAX_STEP_BUDGET in *.
    split; unfold MAX_CONCURRENCY, MAX_STEP_BUDGET in *; split_and?; try done; try lia.
    + apply NoDup_app. split_and!; [done| |done]. intros x Hx Hx'. apply (Hfr x Hx').
      by apply elem_of_list_to_set.
  - intros [[[Hv Hk] (Hn & Hve & Hd & Hname) Hc [Hb Hb'] [Hs Hok] Hcomp Hids [Hin Hout] Hself [Hcap Hcapnd]] ->].
    apply NoDup_app in Hids as (Hnd & Hfr & Hcnd).
    assert (1 <= count (all_steps (wd_steps d)))%N as Hpos.
    { destruct (wd_steps d) as [|s l]; [done|]. unfold all_steps, count. simpl.
      destruct (steps_in_head s) as [l' ->]. simpl. lia. }
    split_and!; try done; try lia.
    eexists. split; [by apply validate_steps_exact|]. apply bind_Ok.
    unfold MAX_STEP_BUDGET, u32_max in *.
    exists (count (wd_compensation d)). split.
    { apply compensation_steps_exact. unfold u32_max. split_and!; try done; [|lia].
      intros x Hx Hx'. apply (Hfr x); [|done]. by apply elem_of_list_to_set in Hx'. }
    rewrite !check_then, ignore_then, reject_Ok. split_and!; try done.
    + by apply reject_direct_workflow_cycle_exact.
    + apply reject_direct_workflow_cycle_exact. rewrite compensation_references by done.
      by intros ?%elem_of_nil.
    + apply N.ltb_ge. unfold saturating_add_u32, u32_max. lia.
    + apply (take_keys _ id (fun c => c <> "")); [apply capability_exact|]. rewrite list_fmap_id.
      by split_and!.
Qed.
End WholeDefinition.

(** ** Finding a step *)

Lemma find_map_in {A B} (f : A -> option B) l b : find_map f l = Some b -> exists a, a ∈ l /\ f a = Some b.
Proof.
  induction l as [|a l IH]; simpl; [done|]. destruct (f a) eqn:Ha.
  - intros [= <-]. exists a. split; [by left|done].
  - intros (a' & ? & ?)%IH. exists a'. split; [by right|done].
Qed.
Lemma find_map_none {A B} (f : A -> option B) l : find_map f l = None <-> Forall (fun a => f a = None) l.
Proof.
  induction l as [|a l IH]; simpl; [done|]. rewrite Forall_cons, <- IH. destruct (f a); naive_solver.
Qed.

(** [find_in] finds a step with the identifier, if there is one. *)
Lemma find_in_spec id s :
  (forall r, find_in id s = Some r -> r ∈ steps_in s /\ step_id r = id) /\
  (find_in id s = None -> Forall (fun r => step_id r <> id) (steps_in s)).
Proof.
  assert (forall l, Forall (fun s =>
    (forall r, find_in id s = Some r -> r ∈ steps_in s /\ step_id r = id) /\
    (find_in id s = None -> Forall (fun r => step_id r <> id) (steps_in s))) l ->
    (forall r, find_map (find_in id) l = Some r -> r ∈ flat_map steps_in l /\ step_id r = id) /\
    (find_map (find_in id) l = None -> Forall (fun r => step_id r <> id) (flat_map steps_in l))) as Hl.
  { intros l Hl. rewrite Forall_forall in Hl. split.
    - intros r (a & Ha & Hr)%find_map_in. apply (Hl a Ha) in Hr as [Hr Hid]. split; [|done].
      apply elem_of_flat_map. eauto.
    - intros Hn%find_map_none. apply flat_map_Forall. rewrite Forall_forall in Hn |- *.
      intros a Ha. by apply Hl, Hn. }
  assert (forall s (inner : option WorkflowStep) l, steps_in s = s :: l ->
    find_in id s = (if String.eqb (step_id s) id then Some s else inner) ->
    (forall r, inner = Some r -> r ∈ l /\ step_id r = id) /\
    (inner = None -> Forall (fun r => step_id r <> id) l) ->
    (forall r, find_in id s = Some r -> r ∈ steps_in s /\ step_id r = id) /\
    (find_in id s = None -> Forall (fun r => step_id r <> id) (steps_in s))) as Hstep.
  { clear. intros s inner l -> ->. intros [Hin Hnone]. destruct (String.eqb_spec (step_id s) id).
    - split; [|done]. intros r [= <-]. split; [by left|done].
    - split; [intros r [? ?]%Hin; split; [by right|done]|]. intros ?%Hnone. by constructor. }
  induction s as [i p o k|i t a k|i w v k|i p|i e t o IHt IHo|i bs m IH|i it m l IH|i p sch|i v]
    using step_rec_full;
    try (apply (Hstep _ None []); [done|done|split; [done|constructor]]).
  - apply (Hstep _ (match find_map (find_in id) t with
                    | Some s => Some s
                    | None => find_map (find_in id) o
                    end) (flat_map steps_in t ++ flat_map steps_in o)%list); [done|done|].
    destruct (Hl t IHt) as [Ht Ht'], (Hl o IHo) as [Ho Ho'].
    destruct (find_map (find_in id) t) as [r|].
    + split; [|done]. intros r' [= <-]. destruct (Ht r eq_refl). set_solver.
    + split; [intros r' [? ?]%Ho; set_solver|]. intros ?%Ho'. apply Forall_app. auto.
  - apply (Hstep _ (find_map (find_map (find_in id)) bs) (flat_map (flat_map steps_in) bs)); [done|done|].
    rewrite Forall_forall in IH. split.
    + intros r (b & Hb & Hr)%find_map_in.
      apply (Hl b (IH b Hb)) in Hr as [Hr ?]. split; [|done]. apply elem_of_flat_map. eauto.
    + intros Hn%find_map_none. apply flat_map_Forall. rewrite Forall_forall in Hn |- *.
      intros b Hb. apply (Hl b (IH b Hb)), Hn, Hb.
  - apply (Hstep _ (find_map (find_in id) l) (flat_map steps_in l)); [done|done|]. apply Hl, IH.
Qed.

Lemma unique_id steps s s' : NoDup (ids_of steps) -> s ∈ all_steps steps -> s' ∈ all_steps steps ->
  step_id s = step_id s' -> s = s'.
Proof.
  intros Hnd (i & Hi)%list_elem_of_lookup (j & Hj)%list_elem_of_lookup He.
  assert (i = j) as <-; [|congruence].
  eapply NoDup_lookup; [exact Hnd| |]; unfold ids_of; rewrite list_lookup_fmap; [by rewrite Hi|].
  rewrite Hj. simpl. by rewrite He.
Qed.
Lemma find_step_exact steps id s : NoDup (ids_of steps) ->
  find_step steps id = Some s <-> s ∈ all_steps steps /\ step_id s = id.
Proof.
  intros Hnd.
  assert (forall r, find_step steps id = Some r -> r ∈ all_steps steps /\ step_id r = id) as Hsome.
  { intros r (a & Ha & Hr)%find_map_in. apply find_in_spec in Hr as [Hr ?]. split; [|done].
    apply elem_of_flat_map. eauto. }
  split; [apply Hsome|]. intros [Hs Hid]. destruct (find_step steps id) as [r|] eqn:Hr.
  - destruct (Hsome r eq_refl) as [Hin Hrid]. f_equal. apply (unique_id steps); congruence.
  - exfalso. apply elem_of_flat_map in Hs as (a & Ha & Hs). apply find_map_none in Hr.
    rewrite Forall_forall in Hr. pose proof (proj2 (find_in_spec id a) (Hr a Ha)) as Hnone.
    rewrite Forall_forall in Hnone. by apply (Hnone s Hs).
Qed.

(** ** Execution identities *)

(** A run of [steps] under [scope] executes the step under a scope of its own: the branches
    and iterations around it have these indices. *)
Inductive executed : list WorkflowStep -> string -> list N -> WorkflowStep -> string -> Prop :=
| Executed_here steps scope s : s ∈ steps -> executed steps scope [] s scope
| Executed_then steps scope id e t o p s sc :
    Condition id e t o ∈ steps -> executed t scope p s sc -> executed steps scope p s sc
| Executed_otherwise steps scope id e t o p s sc :
    Condition id e t o ∈ steps -> executed o scope p s sc -> executed steps scope p s sc
| Executed_branch steps scope id bs m i b p s sc :
    Parallel id bs m ∈ steps -> bs !! i = Some b ->
    executed b (branch_scope (scoped_execution_id scope id) (N.of_nat i)) p s sc ->
    executed steps scope (N.of_nat i :: p) s sc
| Executed_iteration steps scope id items m l i p s sc :
    Foreach id items m l ∈ steps ->
    executed l (iteration_scope (scoped_execution_id scope id) i) p s sc ->
    executed steps scope (i :: p) s sc.

(** *** Steps occur once *)

Lemma flat_map_unique {A B} (f : A -> list B) l i j a b x : NoDup (flat_map f l) ->
  l !! i = Some a -> l !! j = Some b -> x ∈ f a -> x ∈ f b -> i = j.
Proof.
  revert i j. induction l as [|c l IH]; intros i j; simpl; [done|].
  intros (_ & Hd & Hl)%NoDup_app Hi Hj Ha Hb.
  assert (forall k d, l !! k = Some d -> x ∈ f d -> x ∈ flat_map f l) as Hin.
  { intros k d Hk Hx. apply elem_of_flat_map. exists d. split; [|done]. by eapply list_elem_of_lookup_2. }
  destruct i as [|i], j as [|j]; simpl in *; [done| | |f_equal; by apply (IH i j)].
  - injection Hi as ->. destruct (Hd x Ha). by apply (Hin j b).
  - injection Hj as ->. destruct (Hd x Hb). by apply (Hin i a).
Qed.
Lemma flat_map_NoDup_in {A B} (f : A -> list B) l a : NoDup (flat_map f l) -> a ∈ l -> NoDup (f a).
Proof.
  induction l as [|c l IH]; simpl; [by intros _ ?%elem_of_nil|].
  intros (Hc & _ & Hl)%NoDup_app [->|Ha]%elem_of_cons; [done|by apply IH].
Qed.
Lemma same_container steps a b x : NoDup (all_steps steps) -> a ∈ steps -> b ∈ steps ->
  x ∈ steps_in a -> x ∈ steps_in b -> a = b.
Proof.
  intros Hnd (i & Hi)%list_elem_of_lookup (j & Hj)%list_elem_of_lookup Ha Hb.
  pose proof (flat_map_unique steps_in steps i j a b x Hnd Hi Hj Ha Hb) as <-. congruence.
Qed.
Lemma step_in_itself s : s ∈ steps_in s.
Proof. destruct (steps_in_head s) as [l ->]. by left. Qed.
(** A step of the list itself is not inside another. *)
Lemma not_inside steps a s l : NoDup (all_steps steps) -> a ∈ steps -> s ∈ steps ->
  steps_in a = a :: l -> s ∉ l.
Proof.
  intros Hnd Ha Hs Hl Hin.
  assert (a = s) as <- by (apply (same_container steps a s s); try done; [rewrite Hl; by right|apply step_in_itself]).
  pose proof (flat_map_NoDup_in _ _ _ Hnd Ha) as Hnda. rewrite Hl in Hnda.
  by apply NoDup_cons in Hnda as [? _].
Qed.

Lemma executed_in steps scope p s sc : executed steps scope p s sc -> s ∈ all_steps steps.
Proof.
  unfold all_steps. induction 1; apply elem_of_flat_map.
  - exists s. split; [done|apply step_in_itself].
  - eexists. split; [done|]. simpl. right. apply elem_of_app. by left.
  - eexists. split; [done|]. simpl. right. apply elem_of_app. by right.
  - eexists. split; [done|]. simpl. right. apply elem_of_flat_map. exists b.
    split; [by eapply list_elem_of_lookup_2|done].
  - eexists. split; [done|]. simpl. by right.
Qed.

(** *** Scopes are read back *)

Lemma before_first (c : ascii) a b r r' : c ∉ a -> c ∉ b ->
  (a ++ c :: r)%list = (b ++ c :: r')%list -> a = b /\ r = r'.
Proof.
  revert b. induction a as [|x a IH]; intros [|y b] Ha Hb Heq; simplify_eq/=; [done|set_solver|set_solver|].
  destruct (IH b) as [-> ->]; set_solver.
Qed.
Lemma behind_last (c : ascii) a b r r' : c ∉ r -> c ∉ r' ->
  (a ++ c :: r)%list = (b ++ c :: r')%list -> a = b /\ r = r'.
Proof.
  intros Hr Hr' He. apply (f_equal reverse) in He. rewrite !reverse_app, !reverse_cons, <- !app_assoc in He.
  apply before_first in He as [He1 He2]; [|by rewrite elem_of_reverse..].
  apply (inj reverse) in He1. by apply (inj reverse) in He2.
Qed.

Lemma pretty_N_char_digit x : pretty_N_char x <> "]"%char.
Proof. unfold pretty_N_char. by repeat case_match. Qed.
Lemma pretty_no_bracket (n : N) : "]"%char ∉ bytes (pretty n).
Proof.
  assert (forall x s, "]"%char ∉ bytes s -> "]"%char ∉ bytes (pretty_N_go x s)) as Hgo.
  { intros x. induction x as [x IH] using (well_founded_induction N.lt_wf_0). intros s Hs.
    destruct (decide (x = 0%N)) as [->|Hx]; [by rewrite pretty_N_go_0|].
    rewrite pretty_N_go_step by lia. apply IH; [apply N.div_lt; lia|].
    simpl. apply not_elem_of_cons. split; [|done]. intros He. by destruct (pretty_N_char_digit (x mod 10)). }
  unfold pretty, pretty_N. case_decide; [|apply Hgo; simpl; by intros ?%elem_of_nil].
  simpl. intros [?|?%elem_of_nil]%elem_of_cons; done.
Qed.

Lemma index_read_back e (i j : N) t t' :
  (iteration_scope e i ++s t) = (iteration_scope e j ++s t') -> i = j.
Proof.
  unfold iteration_scope. rewrite !append_assoc. intros He%append_inj%append_inj. apply (f_equal bytes) in He.
  rewrite !bytes_append in He. simpl in He.
  apply before_first in He as [He _]; [|apply pretty_no_bracket..].
  apply (f_equal of_bytes) in He. rewrite !of_bytes_bytes in He. by apply (inj pretty) in He.
Qed.

Lemma scoped_prefix scope id : exists tail, scoped_execution_id scope id = (scope ++s tail).
Proof.
  unfold scoped_execution_id. destruct (is_empty scope) eqn:He.
  - apply String.eqb_eq in He as ->. by exists id.
  - eauto.
Qed.
Lemma executed_prefix steps scope p s sc : executed steps scope p s sc -> exists tail, sc = (scope ++s tail).
Proof.
  induction 1 as [steps scope s Hs|steps scope id e t o p s sc _ _ IH|steps scope id e t o p s sc _ _ IH
    |steps scope id bs m i b p s sc _ _ _ [tail ->]|steps scope id items m l i p s sc _ _ [tail ->]]; try done.
  - exists "". induction scope as [|c scope IH]; [done|]. by rewrite append_cons, <- IH.
  - unfold branch_scope. destruct (scoped_prefix scope id) as [t ->]. rewrite !append_assoc. eauto.
  - unfold iteration_scope. destruct (scoped_prefix scope id) as [t ->]. rewrite !append_assoc. eauto.
Qed.

(** How one step of the list executes another. *)
Definition inside (a : WorkflowStep) (scope : string) (p : list N) (s : WorkflowStep) (sc : string)
    : Prop :=
  match a with
  | Condition _ _ t o => executed t scope p s sc \/ executed o scope p s sc
  | Parallel id bs _ => exists i b p', bs !! i = Some b /\ p = N.of_nat i :: p' /\
      executed b (branch_scope (scoped_execution_id scope id) (N.of_nat i)) p' s sc
  | Foreach id _ _ l => exists i p', p = i :: p' /\
      executed l (iteration_scope (scoped_execution_id scope id) i) p' s sc
  | _ => False
  end.
Definition through (a : WorkflowStep) (scope : string) (p : list N) (s : WorkflowStep) (sc : string)
    : Prop := (s = a /\ p = []) \/ inside a scope p s sc.

Lemma inside_in a scope p s sc : inside a scope p s sc -> s ∈ tail (steps_in a).
Proof.
  destruct a; try done; simpl.
  - intros [H%executed_in|H%executed_in]; apply elem_of_app; [by left|by right].
  - intros (i & b & p' & Hb & _ & H%executed_in). apply elem_of_flat_map. exists b.
    split; [by eapply list_elem_of_lookup_2|done].
  - by intros (i & p' & _ & H%executed_in).
Qed.
Lemma executed_through steps scope p s sc : executed steps scope p s sc ->
  exists a, a ∈ steps /\ s ∈ steps_in a /\ through a scope p s sc.
Proof.
  assert (forall a scope p s sc, a ∈ steps -> inside a scope p s sc ->
    exists a, a ∈ steps /\ s ∈ steps_in a /\ through a scope p s sc) as Hin.
  { intros a sc0 p0 s0 sc1 Ha H. exists a. split_and!; [done| |by right].
    apply inside_in in H. destruct (steps_in_head a) as [l Hl]. rewrite Hl in H |- *. by right. }
  destruct 1 as [steps scope s Hs|steps scope id e t o p s sc Ha H|steps scope id e t o p s sc Ha H
    |steps scope id bs m i b p s sc Ha Hb H|steps scope id items m l i p s sc Ha H].
  - exists s. split_and!; [done|apply step_in_itself|by left].
  - apply (Hin _ _ _ _ _ Ha). by left.
  - apply (Hin _ _ _ _ _ Ha). by right.
  - apply (Hin _ _ _ _ _ Ha). by exists i, b, p.
  - apply (Hin _ _ _ _ _ Ha). by exists i, p.
Qed.

(** The scope a step runs in gives the indices around it. *)
Definition indexed (a : WorkflowStep) : Prop := forall scope p p' s sc, NoDup (steps_in a) ->
  through a scope p s sc -> through a scope p' s sc -> p = p'.
Lemma executed_indexed steps : Forall indexed steps -> forall scope p p' s sc, NoDup (all_steps steps) ->
  executed steps scope p s sc -> executed steps scope p' s sc -> p = p'.
Proof.
  intros Hi scope p p' s sc Hnd (a & Ha & Hs & Hp)%executed_through (a' & Ha' & Hs' & Hp')%executed_through.
  pose proof (same_container steps a a' s Hnd Ha Ha' Hs Hs') as <-. rewrite Forall_forall in Hi.
  apply (Hi a Ha scope p p' s sc); try done. by apply (flat_map_NoDup_in _ _ _ Hnd).
Qed.
Lemma steps_indexed a : indexed a.
Proof.
  assert (forall a, (forall scope p p' s sc, NoDup (tail (steps_in a)) ->
    inside a scope p s sc -> inside a scope p' s sc -> p = p') -> indexed a) as Hstep.
  { clear. intros a Ha scope p p' s sc Hnd. destruct (steps_in_head a) as [l Hl].
    pose proof (fun p => inside_in a scope p s sc) as Hin. rewrite Hl in *. simpl in *.
    apply NoDup_cons in Hnd as [Hn Hnd].
    intros [[-> ->]|Hp] [[? ->]|Hp']; [done|by destruct Hn; eapply Hin|subst; by destruct Hn; eapply Hin|].
    by eapply Ha. }
  induction a as [i p o k|i t a k|i w v k|i p|i e t o IHt IHo|i bs m IH|i it m l IH|i p sch|i v]
    using step_rec_full; apply Hstep; try done; simpl; intros scope q q' s sc Hnd.
  - apply NoDup_app in Hnd as (Ht & Hd & Ho).
    intros [H|H] [H'|H'].
    + by apply (executed_indexed t IHt scope q q' s sc).
    + destruct (Hd s); [exact (executed_in _ _ _ _ _ H)|exact (executed_in _ _ _ _ _ H')].
    + destruct (Hd s); [exact (executed_in _ _ _ _ _ H')|exact (executed_in _ _ _ _ _ H)].
    + by apply (executed_indexed o IHo scope q q' s sc).
  - intros (j & b & p & Hb & -> & H) (j' & b' & p' & Hb' & -> & H').
    pose proof (flat_map_unique (flat_map steps_in) bs j j' b b' s Hnd Hb Hb'
      (executed_in _ _ _ _ _ H) (executed_in _ _ _ _ _ H')) as <-.
    assert (b = b') as <- by congruence. f_equal. pose proof (list_elem_of_lookup_2 _ _ _ Hb) as Hin.
    rewrite Forall_forall in IH. apply (executed_indexed b (IH b Hin) _ _ _ _ _
      (flat_map_NoDup_in _ _ _ Hnd Hin) H H').
  - intros (j & p & -> & H) (j' & p' & -> & H').
    destruct (executed_prefix _ _ _ _ _ H) as [t Ht], (executed_prefix _ _ _ _ _ H') as [t' Ht'].
    rewrite Ht in Ht'. apply index_read_back in Ht' as <-. f_equal.
    apply (executed_indexed l IH _ _ _ _ _ Hnd H H').
Qed.

(** An identity names its step and its scope. *)
Lemma valid_id_no_slash id : valid_step_id id = true -> "/"%char ∉ bytes id.
Proof.
  unfold valid_step_id, all_bytes. intros [_ Hb]%andb_true_iff Hin.
  rewrite forallb_forall in Hb. by specialize (Hb "/"%char (proj1 (list_elem_of_In _ _) Hin)).
Qed.
Lemma scoped_inj scope scope' id id' : valid_step_id id = true -> valid_step_id id' = true ->
  scoped_execution_id scope id = scoped_execution_id scope' id' -> scope = scope' /\ id = id'.
Proof.
  intros Hid%valid_id_no_slash Hid'%valid_id_no_slash. unfold scoped_execution_id.
  destruct (is_empty scope) eqn:He, (is_empty scope') eqn:He'; unfold is_empty in *; inv_bool; subst.
  - done.
  - intros ->. destruct Hid. rewrite !bytes_append. simpl. set_solver.
  - intros <-. destruct Hid'. rewrite !bytes_append. simpl. set_solver.
  - intros Heq%(f_equal bytes). rewrite !bytes_append in Heq. simpl in Heq.
    apply behind_last in Heq as [Hs Hi]; [|done..].
    apply (f_equal of_bytes) in Hs, Hi. by rewrite !of_bytes_bytes in Hs, Hi.
Qed.

(** ** The call graph *)

Abbreviation key := (string * string)%type.
Lemma same_key_true (a b : key) : same_key a b = true <-> a = b.
Proof. destruct a, b. unfold same_key. simpl. rewrite andb_true_iff, !String.eqb_eq. naive_solver. Qed.
Lemma from_key_none k stack : from_key k stack = None <-> k ∉ stack.
Proof.
  induction stack as [|entry stack IH]; simpl; [split; [by intros _ ?%elem_of_nil|done]|].
  rewrite not_elem_of_cons, <- IH. destruct (same_key entry k) eqn:E.
  - apply same_key_true in E. naive_solver.
  - split; [|naive_solver]. intros Hn. split; [|done]. intros ->.
    by rewrite (proj2 (same_key_true _ _) eq_refl) in E.
Qed.

Section CallGraph.
Context {R} `{WorkflowRepository R} (r : R) (proposed : WorkflowDefinition).
Context (lookup : key -> option (WorkflowDefinition * string)).
Context (Hlookup : forall k, wr_definition k.1 k.2 r = (Ok (lookup k), r)).

(** The definition a call of [k] runs, and the calls in it. *)
Definition resolves (k : key) : option WorkflowDefinition :=
  if same_key k (definition_key proposed) then Some proposed else fst <$> lookup k.
Definition calls_of (k : key) : list key :=
  match resolves k with Some d => workflow_references (wd_steps d) | None => [] end.
(** The calls below a call: the calls that lead to it, and the call. *)
Inductive visited : list key -> key -> list key -> key -> Prop :=
| Visited_here stack k : visited stack k stack k
| Visited_call stack k child stack' k' : child ∈ calls_of k ->
    visited (stack ++ [k])%list child stack' k' -> visited stack k stack' k'.
Lemma visited_snoc stack k stack' k' child :
  visited stack k stack' k' -> child ∈ calls_of k' -> visited stack k (stack' ++ [k'])%list child.
Proof.
  induction 1 as [stack k|stack k c stack' k' Hc _ IH]; intros Hchild.
  - eapply Visited_call; [done|constructor].
  - eapply Visited_call; [done|by apply IH].
Qed.

(** A call the validation lets pass. *)
Definition call_ok (require_complete : bool) (stack : list key) (k : key) : Prop :=
  (k ∉ stack) /\ length stack < MAX_WORKFLOW_CALL_DEPTH /\
  (require_complete = true -> resolves k <> None).

Lemma w_for_each_ok (f : key -> wop R unit) l : (forall a, a ∈ l -> (f a r).2 = r) ->
  (w_for_each f l r).2 = r /\ (w_for_each f l r = (Ok tt, r) <-> forall a, a ∈ l -> f a r = (Ok tt, r)).
Proof.
  induction l as [|a l IH]; intros Hf; simpl.
  - split; [done|]. split; [by intros _ a ?%elem_of_nil|done].
  - destruct IH as [IH1 IH2]; [intros; apply Hf; by right|]. unfold w_bind.
    pose proof (Hf a ltac:(by left)) as Ha. destruct (f a r) as [[[]|e] r'] eqn:E; simpl in Ha; subst r'.
    + split; [done|]. rewrite IH2. split.
      * intros Hl b [->|Hb]%elem_of_cons; [done|by apply Hl].
      * intros Hl b Hb. apply Hl. by right.
    + split; [done|]. split; [done|]. intros Hl. specialize (Hl a ltac:(by left)). congruence.
Qed.

(** One call of [visit], with its reads done. *)
Lemma visit_step fuel require_complete k stack :
  visit (S fuel) proposed require_complete k stack r =
  match from_key k stack with
  | Some cycle => (Err (InvalidDefinition ("workflow call cycle detected: "
      ++s join " -> " (map key_text cycle ++ [key_text k])%list)), r)
  | None =>
      if Nat.leb MAX_WORKFLOW_CALL_DEPTH (length stack)
      then (Err (InvalidDefinition ("workflow call depth exceeds "
             ++s pretty (N.of_nat MAX_WORKFLOW_CALL_DEPTH))), r)
      else match resolves k with
           | Some _ => w_for_each (fun child =>
               visit fuel proposed require_complete child (stack ++ [k])%list) (calls_of k) r
           | None => (if require_complete then Err (WE_NotFound (key_text k)) else Ok tt, r)
           end
  end.
Proof.
  cbn [visit]. unfold w_bind at 1, w_lift at 1. destruct (from_key k stack) as [cycle|]; [done|].
  unfold w_bind at 1, w_lift at 1, reject. destruct (Nat.leb _ _); [done|]. unfold w_bind at 1.
  unfold calls_of, resolves. destruct (same_key k _); [done|].
  unfold w_bind at 1, w_store. rewrite Hlookup. simpl.
  destruct (lookup k) as [[d hash]|]; simpl; [done|]. by destruct require_complete.
Qed.

Lemma visit_exact require_complete fuel : forall stack k,
  length stack + fuel = S MAX_WORKFLOW_CALL_DEPTH -> length stack <= MAX_WORKFLOW_CALL_DEPTH ->
  (visit fuel proposed require_complete k stack r).2 = r /\
  (visit fuel proposed require_complete k stack r = (Ok tt, r) <->
   forall stack' k', visited stack k stack' k' -> call_ok require_complete stack' k').
Proof.
  induction fuel as [|fuel IH]; intros stack k Hf Hs; [lia|]. rewrite visit_step.
  destruct (from_key k stack) as [cycle|] eqn:Hk.
  { split; [done|]. split; [done|]. intros Hall.
    destruct (Hall stack k (Visited_here _ _)) as (Hn & _). apply from_key_none in Hn. congruence. }
  apply from_key_none in Hk.
  destruct (Nat.leb_spec MAX_WORKFLOW_CALL_DEPTH (length stack)) as [Hd|Hd].
  { split; [done|]. split; [done|]. intros Hall.
    destruct (Hall stack k (Visited_here _ _)) as (_ & Hlt & _). lia. }
  destruct (resolves k) as [d|] eqn:Hr.
  - destruct (w_for_each_ok (fun child => visit fuel proposed require_complete child (stack ++ [k])%list)
      (calls_of k)) as [H1 H2].
    { intros a _. apply IH; rewrite length_app; simpl; lia. }
    split; [exact H1|]. etrans; [exact H2|]. split.
    + intros Hall stack' k' Hv. destruct Hv as [|? ? child stack' k' Hc Hv].
      * split_and!; [done|done|by rewrite Hr].
      * specialize (Hall child Hc). by eapply (proj2 (IH (stack ++ [k])%list child ltac:(rewrite length_app; simpl; lia)
          ltac:(rewrite length_app; simpl; lia))).
    + intros Hall child Hc. apply IH; [rewrite length_app; simpl; lia..|].
      intros stack' k' Hv. apply Hall. by eapply Visited_call.
  - assert (calls_of k = []) as Hcalls by (unfold calls_of; by rewrite Hr).
    assert (forall stack' k', visited stack k stack' k' -> stack' = stack /\ k' = k) as Hv.
    { destruct 1 as [|? ? child ? ? Hc]; [done|]. rewrite Hcalls in Hc. by apply elem_of_nil in Hc. }
    destruct require_complete; simpl; (split; [done|]).
    + split; [done|]. intros Hall. destruct (Hall stack k (Visited_here _ _)) as (_ & _ & Hn).
      by destruct (Hn eq_refl).
    + split; [|done]. intros _ stack' k' [-> ->]%Hv. by split_and!.
Qed.

(** The validation of a call graph, and that it answers whatever the definitions call. *)
Lemma call_graph_accepts require_complete :
  (validate_call_graph proposed require_complete r).2 = r /\
  (validate_call_graph proposed require_complete r = (Ok tt, r) <->
   forall stack k, visited [] (definition_key proposed) stack k -> call_ok require_complete stack k).
Proof. apply visit_exact; simpl; unfold MAX_WORKFLOW_CALL_DEPTH; lia. Qed.
End CallGraph.

(** ** The registry in the journal *)

(** What [serde] does with the definitions that fit its types and are not nested too deep. *)
Class WorkflowCodecOk `{WorkflowCodec} (fit : WorkflowDefinition -> Prop) : Prop := {
  definition_roundtrip : forall d, fit d -> definition_from_value (definition_to_value d) = Ok d;
  definition_parseable : forall d content_hash provenance trust_invalidated, fit d ->
    parseable (registration_payload d content_hash provenance trust_invalidated);
  definition_exact : forall d, fit d -> exact_json (definition_to_value d) = true;
}.

(** Names without a colon: a call is of the stream it names. *)
Definition plain (name : string) : Prop := ":"%char ∉ bytes name.
Definition clean (d : WorkflowDefinition) : Prop :=
  plain (md_name (wd_metadata d)) /\ Forall (fun k => plain k.1) (workflow_references (wd_steps d)).

Lemma definition_stream_inj n v n' v' : plain n -> plain n' ->
  definition_stream n v = definition_stream n' v' -> n = n' /\ v = v'.
Proof.
  unfold definition_stream, plain. intros Hn Hn' He%append_inj. apply (f_equal bytes) in He.
  rewrite !bytes_append in He. apply before_first in He as [He1 He2]; [|done..].
  apply (f_equal of_bytes) in He1, He2. by rewrite !of_bytes_bytes in He1, He2.
Qed.
Lemma valid_name_plain name : valid_name name = true -> plain name.
Proof.
  unfold valid_name, all_bytes, plain. intros Hb Hin. rewrite forallb_forall in Hb.
  by specialize (Hb ":"%char (proj1 (list_elem_of_In _ _) Hin)).
Qed.

Section Registry.
Context `{WorkflowCodecOk fit}.

(** A recorded event of a definition's stream. *)
Definition registration (ev : EventEnvelope * value) : Prop :=
  forall name version, ev_stream_id ev.1 = definition_stream name version ->
  exists d content_hash provenance trust_invalidated,
    ev.2 = registration_payload d content_hash provenance trust_invalidated /\
    ev_stream_id ev.1 = definition_stream (md_name (wd_metadata d)) (md_version (wd_metadata d)) /\
    fit d.
Definition read_registration (v : value) : option (WorkflowDefinition * string) :=
  match get "definition" v, get_str "content_hash" v with
  | Some dv, Some content_hash =>
      match definition_from_value dv with Ok d => Some (d, content_hash) | Err _ => None end
  | _, _ => None
  end.
(** The definition of a name and a version as the journal holds it. *)
Definition stored (h : history) (k : key) : option (WorkflowDefinition * string) :=
  last (stream_entries (definition_stream k.1 k.2) h) ≫= fun ev => read_registration ev.2.

Definition calls (h : history) (k k' : key) : Prop :=
  exists d content_hash, stored h k = Some (d, content_hash) /\ k' ∈ workflow_references (wd_steps d).
Definition acyclic (h : history) : Prop := forall k, ~ tc (calls h) k k.
(** The definitions the journal holds call plain names, and not in a cycle. *)
Definition all_clean (h : history) : Prop := forall k d c, stored h k = Some (d, c) -> clean d.
Definition registry_ok (h : history) : Prop := Forall registration h /\ all_clean h /\ acyclic h.

Lemma read_registration_payload d content_hash provenance trust_invalidated : fit d ->
  read_registration (registration_payload d content_hash provenance trust_invalidated)
  = Some (d, content_hash).
Proof. intros Hd. unfold read_registration. simpl. by rewrite (definition_roundtrip d Hd). Qed.

Lemma last_registration h name version ev : Forall registration h ->
  last (stream_entries (definition_stream name version) h) = Some ev ->
  exists d content_hash provenance trust_invalidated,
    ev.2 = registration_payload d content_hash provenance trust_invalidated /\
    definition_stream name version = definition_stream (md_name (wd_metadata d)) (md_version (wd_metadata d)) /\
    fit d /\ stored h (name, version) = Some (d, content_hash).
Proof.
  intros Hreg Hl. assert (ev ∈ stream_entries (definition_stream name version) h) as Hin
    by (by apply last_Some_elem_of).
  apply filter_elem in Hin as [Hin Hs%String.eqb_eq]. rewrite Forall_forall in Hreg.
  destruct (Hreg ev Hin name version Hs) as (d & c & p & t & Hv & Hd & Hfit).
  exists d, c, p, t. split_and!; [done|congruence|done|].
  unfold stored. cbn [fst snd]. rewrite Hl. cbn [mbind option_bind]. rewrite Hv. by apply read_registration_payload.
Qed.
(** *** Reads and registrations *)

Context {J} `{EventJournalOk J}.

Lemma definition_reads j h k : holds j h -> (count h + 1 < u64_max)%N -> Forall registration h ->
  wr_definition k.1 k.2 j = (Ok (stored h k), j).
Proof.
  intros Hh Hc Hreg. destruct k as [n v]. cbn [wr_definition event_sourced_workflow_repository fst snd].
  unfold definition. rewrite (op_bind_run _ _ _ _ _ (ej_read_stream_ok j h _ Hh Hc)).
  rewrite fmap_last. destruct (last (stream_entries (definition_stream n v) h)) as [[e x]|] eqn:Hl;
    cbn [fmap option_fmap option_map fst].
  - destruct (last_registration h n v _ Hreg Hl) as (d & c & p & t & Hx & _ & Hfit & Hst).
    cbn [snd] in Hx. subst x. assert ((e, registration_payload d c p t) ∈ h) as Hin.
    { apply last_Some_elem_of in Hl. by apply filter_elem in Hl as [? _]. }
    rewrite (op_bind_run _ _ _ _ _ (ej_decrypt_payload_ok j h _ _ Hh Hin)). unfold op_lift. simpl.
    rewrite (definition_roundtrip d Hfit). simpl. by rewrite Hst.
  - unfold stored. cbn [fst snd]. by rewrite Hl.
Qed.

(** What [register] does to the journal. *)
Lemma register_run inputs correlation_id d content_hash provenance j h :
  holds j h -> (count h + 2 < u64_max)%N -> Forall registration h -> inputs_ok inputs ->
  fit d ->
  let '(r, j') := register inputs correlation_id d content_hash provenance j in
  exists h', holds j' h' /\ Forall registration h' /\
    (h' = h \/
     exists e t, h' = (h ++ [(e, registration_payload d content_hash provenance t)])%list /\
       ev_stream_id e = definition_stream (md_name (wd_metadata d)) (md_version (wd_metadata d))) /\
    (r = Ok tt -> stored h' (definition_key d) = Some (d, content_hash) \/
       h' = h /\ snd <$> stored h (definition_key d) = Some content_hash).
Proof.
  intros Hh Hc Hreg Hin Hfit. unfold register, definition_key. set (md := wd_metadata d).
  rewrite (op_bind_run _ _ _ _ _ (ej_read_stream_ok j h _ Hh ltac:(lia))).
  set (s := definition_stream (md_name md) (md_version md)).
  assert (forall ex, (ex = (stream_entries s h).*1) ->
    registered_hash ex j = (Ok (snd <$> stored h (md_name md, md_version md)), j)) as Hcur.
  { intros ex ->. unfold registered_hash. rewrite fmap_last.
    destruct (last (stream_entries s h)) as [[e x]|] eqn:Hl; cbn [fmap option_fmap option_map fst].
    - destruct (last_registration h _ _ _ Hreg Hl) as (d' & c & p & t & Hx & _ & _ & Hst).
      cbn [snd] in Hx. subst x. apply last_Some_elem_of in Hl. apply filter_elem in Hl as [Hl _].
      rewrite (op_bind_run _ _ _ _ _ (ej_decrypt_payload_ok j h _ _ Hh Hl)). by rewrite Hst.
    - unfold stored. cbn [fst snd]. fold s. by rewrite Hl. }
  rewrite (op_bind_run _ _ _ _ _ (Hcur _ eq_refl)). case_bool_decide as Hsame.
  { unfold op_ret. exists h. split_and!; [done|done|by left|by right]. }
  set (event := registration_event correlation_id d content_hash provenance (stream_entries s h).*1).
  assert (recordable event) as Hrec.
  { split; [by apply definition_parseable|]. unfold event. simpl. by rewrite (definition_exact d Hfit). }
  pose proof (ej_append_batch_ok j h inputs [event] Hh ltac:(by apply Forall_singleton) Hin
    ltac:(unfold count in *; simpl; lia)) as Hb.
  assert (forall es, batch_committed h inputs [event] es ->
    Forall registration (h ++ entries [event] es) /\
    (exists e t, (h ++ entries [event] es = h ++ [(e, registration_payload d content_hash provenance t)])%list /\
       ev_stream_id e = s) /\
    stored (h ++ entries [event] es) (md_name md, md_version md) = Some (d, content_hash)) as Hadd.
  { intros es [Hes%recorded_all _]. destruct (recorded_one _ _ Hes) as (e & -> & He & _ & ->).
    pose proof (recorded_stream _ _ He) as Hst. split_and!.
    - apply Forall_app. split; [done|]. apply Forall_singleton. intros n v Hnv.
      cbn [fst snd] in *. eexists d, content_hash, provenance, _. split_and!; [reflexivity| |done].
      exact Hst.
    - eexists _, _. by split.
    - unfold stored. cbn [fst snd]. fold s. rewrite stream_entries_app, last_app.
      unfold stream_entries at 1. cbn [List.filter fst]. rewrite Hst.
      replace (String.eqb (ne_stream_id event) s) with true by (symmetry; by apply String.eqb_eq).
      cbn [last mbind option_bind snd]. unfold event, registration_event. cbn [ne_payload].
      by rewrite (read_registration_payload d). }
  rewrite (append_one j inputs). destruct (ej_append_batch inputs [event] j) as [[es|err] j'].
  - destruct Hb as [Hbc Hh']. destruct (Hadd es Hbc) as (Hreg' & Hnew & Hst).
    pose proof (committed_length _ _ _ _ Hbc) as Hlen. destruct (last es) as [e|] eqn:Hl.
    + exists (h ++ entries [event] es)%list. unfold op_ret. split_and!; [done|done|by right|by left].
    + apply last_None in Hl. by subst es.
  - destruct Hb as [Hh'|(es & Hbc & Hh')].
    + exists h. split_and!; [done|done|by left|done].
    + destruct (Hadd es Hbc) as (Hreg' & Hnew & Hst). exists (h ++ entries [event] es)%list.
      split_and!; [done|done|by right|done].
Qed.


(** *** A registration keeps the call graph without cycles *)

Section NewDefinition.
Context (h : history) (e : EventEnvelope) (d : WorkflowDefinition) (content_hash provenance : string)
  (t : bool).
Context (Hold : all_clean h) (Hfit : fit d) (Hclean : clean d).
Context (Hs : ev_stream_id e
  = definition_stream (md_name (wd_metadata d)) (md_version (wd_metadata d))).
#[local] Abbreviation h' := (h ++ [(e, registration_payload d content_hash provenance t)])%list.
#[local] Abbreviation kd := (definition_key d).
(** The reads of [visit] when [d] is proposed. *)
#[local] Abbreviation called := (calls_of d (stored h)).

Lemma stored_new k : definition_stream k.1 k.2 = ev_stream_id e -> stored h' k = Some (d, content_hash).
Proof.
  intros Hk. unfold stored. rewrite stream_entries_app, last_app, Hk. unfold stream_entries at 1.
  cbn [List.filter fst]. rewrite String.eqb_refl. cbn [last mbind option_bind snd].
  by apply read_registration_payload.
Qed.
Lemma stored_old k : definition_stream k.1 k.2 <> ev_stream_id e -> stored h' k = stored h k.
Proof.
  intros Hk. unfold stored. rewrite stream_entries_app. unfold stream_entries at 2.
  cbn [List.filter fst]. rewrite (proj2 (String.eqb_neq _ _)) by (by apply not_eq_sym).
  by rewrite app_nil_r.
Qed.
(** A plain name is of the new stream only if it is the new definition's. *)
Lemma new_key (k : key) : plain k.1 -> definition_stream k.1 k.2 = ev_stream_id e -> k = kd.
Proof.
  intros Hk He. rewrite Hs in He. apply definition_stream_inj in He as [H1' H2']; [|done|apply Hclean].
  destruct k. by simplify_eq/=.
Qed.
Lemma stored_clean : all_clean h'.
Proof.
  intros k d' c. destruct (decide (definition_stream k.1 k.2 = ev_stream_id e)) as [Hk|Hk].
  - rewrite (stored_new _ Hk). congruence.
  - rewrite (stored_old _ Hk). by apply Hold.
Qed.
Lemma called_plain k k' : calls h' k k' -> plain k'.1.
Proof.
  intros (d' & c & [_ Hd]%stored_clean & Hin). rewrite Forall_forall in Hd. by apply Hd.
Qed.
Lemma tc_called_plain k k' : tc (calls h') k k' -> plain k'.1.
Proof. induction 1; by eauto using called_plain. Qed.

(** Calls below a plain name are what the validation visits. *)
Lemma calls_visited k k' : plain k.1 -> calls h' k k' -> k' ∈ called k.
Proof.
  intros Hk (d' & c & Hst & Hin). unfold calls_of, resolves.
  destruct (decide (definition_stream k.1 k.2 = ev_stream_id e)) as [He|He].
  - rewrite (stored_new _ He) in Hst. injection Hst as <- <-.
    rewrite (new_key k Hk He), (proj2 (same_key_true _ _) eq_refl). done.
  - rewrite (stored_old _ He) in Hst. destruct (same_key k kd) eqn:Ek.
    + apply same_key_true in Ek as ->. by destruct He.
    + by rewrite Hst.
Qed.
Lemma tc_visited k : tc (calls h') kd k ->
  exists stack, visited d (stored h) [] kd stack k /\ kd ∈ stack.
Proof.
  intros Hk. cut (plain k.1 /\ exists stack, visited d (stored h) [] kd stack k /\ kd ∈ stack);
    [by intros [_ ?]|].
  revert k Hk. apply tc_ind_r.
  - intros k Hk. split; [by eapply called_plain|]. exists [kd]. split; [|by left]. apply (visited_snoc _ _ [] kd [] kd); [constructor|].
    apply calls_visited; [apply Hclean|done].
  - intros x k _ Hk (Hx & stack & Hv & Hin). split; [by eapply called_plain|].
    exists (stack ++ [x])%list. split; [|apply elem_of_app; by left].
    apply visited_snoc; [done|]. by apply calls_visited.
Qed.

(** Calls go on as before, or pass through the new definition. *)
Lemma tc_old_or_new x y : tc (calls h') x y ->
  tc (calls h) x y \/ exists m, definition_stream m.1 m.2 = ev_stream_id e /\
    rtc (calls h') x m /\ tc (calls h') m y.
Proof.
  induction 1 as [x y Hxy|x y z Hxy Hyz IH].
  - destruct (decide (definition_stream x.1 x.2 = ev_stream_id e)) as [He|He].
    + right. exists x. split_and!; [done|done|by apply tc_once].
    + left. apply tc_once. destruct Hxy as (d' & c & Hst & Hin). rewrite (stored_old _ He) in Hst.
      by exists d', c.
  - destruct (decide (definition_stream x.1 x.2 = ev_stream_id e)) as [He|He].
    + right. exists x. split_and!; [done|done|by eapply tc_l].
    + destruct IH as [IH|(m & Hm & Hr & Ht)].
      * left. eapply tc_l; [|done]. destruct Hxy as (d' & c & Hst & Hin).
        rewrite (stored_old _ He) in Hst. by exists d', c.
      * right. exists m. split_and!; [done|by eapply rtc_l|done].
Qed.

Lemma registration_acyclic : acyclic h ->
  (forall stack k, visited d (stored h) [] kd stack k -> call_ok d (stored h) false stack k) ->
  acyclic h'.
Proof.
  intros Ha Hv k Hk. destruct (tc_old_or_new k k Hk) as [Hk'|(m & Hm & Hr & Ht)]; [by apply (Ha k)|].
  assert (tc (calls h') m m) as Hcycle by (by eapply tc_rtc_r).
  rewrite (new_key m (tc_called_plain _ _ Hcycle) Hm) in Hcycle.
  apply tc_visited in Hcycle as (stack & Hvis & Hin). by destruct (Hv _ _ Hvis) as (Hn & _).
Qed.
End NewDefinition.

(** *** Registering *)

Context `{Externals} `{ConditionCodec}.

Lemma call_graph_reads j h d require_complete : holds j h -> (count h + 1 < u64_max)%N ->
  Forall registration h ->
  (validate_call_graph d require_complete j).2 = j /\
  (validate_call_graph d require_complete j = (Ok tt, j) <->
   forall stack k, visited d (stored h) [] (definition_key d) stack k ->
     call_ok d (stored h) require_complete stack k).
Proof.
  intros Hh Hc Hreg. apply call_graph_accepts. intros k. by apply definition_reads.
Qed.

Lemma validate_definition_wf yaml w : validate_definition yaml = Ok w ->
  yaml_from_str yaml = Ok (vw_definition w) /\ well_formed (vw_definition w).
Proof.
  unfold validate_definition. rewrite !reject_then, bind_Ok.
  intros (_ & _ & d & Hd%map_err_Ok & [Hwf ->]%validate_parsed_exact). done.
Qed.

Lemma register_definition_run inputs correlation_id yaml provenance j h :
  holds j h -> (count h + 2 < u64_max)%N -> registry_ok h -> inputs_ok inputs ->
  (forall d, yaml_from_str yaml = Ok d ->
     fit d /\ Forall (fun k => plain k.1) (workflow_references (wd_steps d))) ->
  let '(r, j') := register_definition inputs correlation_id yaml provenance j in
  exists h', holds j' h' /\ registry_ok h' /\ (count h' <= count h + 1)%N /\
    forall w, r = Ok w -> well_formed (vw_definition w) /\
      (stored h' (definition_key (vw_definition w)) = Some (vw_definition w, vw_content_hash w) \/
       h' = h /\ snd <$> stored h (definition_key (vw_definition w)) = Some (vw_content_hash w)).
Proof.
  intros Hh Hc (Hreg & Hcl & Ha) Hin Hyaml. unfold register_definition, w_bind at 1, w_lift at 1.
  assert (exists h', holds j h' /\ registry_ok h' /\ (count h' <= count h + 1)%N) as Hsame
    by (exists h; split_and!; [done|by split_and!|lia]).
  destruct (validate_definition yaml) as [w|err] eqn:Hw.
  2:{ destruct Hsame as (h' & ? & ? & ?). exists h'. by split_and!. }
  apply validate_definition_wf in Hw as [Hd Hwf]. destruct (Hyaml _ Hd) as [Hfit Href].
  assert (clean (vw_definition w)) as Hclean
    by (split; [apply valid_name_plain, Hwf|done]).
  destruct (call_graph_reads j h (vw_definition w) false Hh ltac:(lia) Hreg) as [Hst Hgraph].
  unfold w_bind at 1. destruct (validate_call_graph (vw_definition w) false j) as [[[]|err] j1].
  2:{ simpl in Hst. subst j1. destruct Hsame as (h' & ? & ? & ?). exists h'. by split_and!. }
  simpl in Hst. subst j1. pose proof (proj1 Hgraph eq_refl) as Hcalls.
  unfold w_bind, w_store. cbn [wr_register event_sourced_workflow_repository].
  pose proof (register_run inputs correlation_id (vw_definition w) (vw_content_hash w) provenance j h
    Hh Hc Hreg Hin Hfit) as Hrun.
  destruct (register _ _ _ _ _ j) as [r j']. destruct Hrun as (h' & Hh' & Hreg' & Hnew & Hok).
  assert (registry_ok h' /\ (count h' <= count h + 1)%N) as [Hro Hle].
  { destruct Hnew as [->|(e & t & -> & Hs)]; [split; [by split_and!|lia]|].
    split; [|rewrite count_snoc; lia]. split_and!; [done| |].
    - by apply stored_clean.
    - by apply registration_acyclic. }
  destruct r as [[]|err]; simpl; exists h'; split_and!; try done.
  intros w' [= <-]. split; [done|]. by apply Hok.
Qed.
End Registry.

(** ** What the checks promise *)

(** C22. [validate_parsed] accepts a definition exactly when it is well formed: named and
    versioned, within its bounds, every step at any depth as its type asks and every
    condition parsed, identifiers valid and unique over steps and compensation, compensation
    idempotent, no direct call of itself, the steps within the budget.  In such a definition
    [find_step] finds exactly the step with an identifier. *)
Theorem definition_accepted_exact `{Externals} `{ConditionCodec} `{WorkflowCodec} d raw :
  (forall w, validate_parsed d raw = Ok w <->
     well_formed d /\ w = mkValidatedWorkflow d (sha256_hex raw)) /\
  (forall w id s, validate_parsed d raw = Ok w ->
     find_step (wd_steps d) id = Some s <-> s ∈ all_steps (wd_steps d) /\ step_id s = id).
Proof.
  split; [intros w; apply validate_parsed_exact|]. intros w id s [Hwf _]%validate_parsed_exact.
  apply find_step_exact. by destruct (proj1 (NoDup_app _ _) (wf_ids d Hwf)).
Qed.

(** C24. In a definition that was accepted an execution identity names one execution: two runs
    of a step, through whatever branches and iterations, with the same identity are runs of
    the same step with the same indices around it. *)
Theorem execution_identities_unique `{Externals} `{ConditionCodec} `{WorkflowCodec} d raw w p p' s s' sc sc' :
  validate_parsed d raw = Ok w ->
  executed (wd_steps d) "" p s sc -> executed (wd_steps d) "" p' s' sc' ->
  scoped_execution_id sc (step_id s) = scoped_execution_id sc' (step_id s') ->
  s = s' /\ p = p' /\ sc = sc'.
Proof.
  intros [Hwf _]%validate_parsed_exact Hs Hs' Hid.
  destruct (proj1 (NoDup_app _ _) (wf_ids d Hwf)) as [Hnd _].
  destruct (wf_steps d Hwf) as [_ Hok]. rewrite Forall_forall in Hok.
  pose proof (executed_in _ _ _ _ _ Hs) as Hin. pose proof (executed_in _ _ _ _ _ Hs') as Hin'.
  apply scoped_inj in Hid as [<- Hid]; [|by apply Hok..].
  assert (s = s') as <- by (by apply (unique_id (wd_steps d))).
  assert (NoDup (all_steps (wd_steps d))) as Hsteps by (by eapply NoDup_fmap_1).
  split_and!; [done| |done]. eapply executed_indexed; [|exact Hsteps|exact Hs|exact Hs'].
  apply Forall_forall. intros a _. apply steps_indexed.
Qed.

(** C23. Over a journal that holds registrations, the validation of a call graph ends, reads
    only, and passes exactly when no call at any depth is of a workflow being called, no call
    is more than sixteen deep, and - when asked for - every called definition is there. *)
Theorem call_graph_exact `{WorkflowCodecOk fit} {J} `{EventJournalOk J} j h d require_complete :
  holds j h -> (count h + 1 < u64_max)%N -> Forall (registration (fit:=fit)) h ->
  (validate_call_graph d require_complete j).2 = j /\
  (validate_call_graph d require_complete j = (Ok tt, j) <->
   forall stack k, visited d (stored h) [] (definition_key d) stack k ->
     call_ok d (stored h) require_complete stack k).
Proof. apply call_graph_reads. Qed.

(** C21. Registering any text that is no definition, or one whose definition the codec reads
    back exactly ([fit]) and which calls plain names only, valid or not and whether the
    journal fails or not, leaves the registered definitions calling each other without a
    cycle; a definition that was registered is well formed, and the journal then holds
    exactly it with its content hash, unless the registered definition of its name and
    version had that content hash already, and then nothing was written. *)
Theorem registrations_acyclic `{WorkflowCodecOk fit} {J} `{EventJournalOk J} `{Externals} `{ConditionCodec}
    inputs correlation_id yaml provenance j h :
  holds j h -> (count h + 2 < u64_max)%N -> registry_ok (fit:=fit) h -> inputs_ok inputs ->
  (forall d, yaml_from_str yaml = Ok d ->
     fit d /\ Forall (fun k => plain k.1) (workflow_references (wd_steps d))) ->
  let '(r, j') := register_definition inputs correlation_id yaml provenance j in
  exists h', holds j' h' /\ registry_ok (fit:=fit) h' /\ (count h' <= count h + 1)%N /\
    forall w, r = Ok w -> well_formed (vw_definition w) /\
      (stored h' (definition_key (vw_definition w)) = Some (vw_definition w, vw_content_hash w) \/
       h' = h /\ snd <$> stored h (definition_key (vw_definition w)) = Some (vw_content_hash w)).
Proof. apply register_definition_run. Qed.

(** ** What they do not *)

(** A call is compared by name and version, and stored by the two joined: a definition that
    calls itself as [name:prefix] and [rest] of its version passes, and is in the journal a
    call cycle that the next validation finds. *)
Lemma alias_cycle_registered `{WorkflowCodecOk fit} {J} `{EventJournalOk J} j h d prefix rest :
  holds j h -> (count h + 1 < u64_max)%N -> Forall (registration (fit:=fit)) h -> plain (md_name (wd_metadata d)) ->
  md_version (wd_metadata d) = (prefix ++s ":" ++s rest) ->
  workflow_references (wd_steps d) = [(md_name (wd_metadata d) ++s ":" ++s prefix, rest)] ->
  stored h (definition_key d) = None ->
  validate_call_graph d false j = (Ok tt, j) /\
  forall j' h' content_hash, holds j' h' -> (count h' + 1 < u64_max)%N -> Forall (registration (fit:=fit)) h' ->
    stored h' (definition_key d) = Some (d, content_hash) ->
    exists k, calls h' k k /\ (validate_call_graph d true j').1
      = Err (InvalidDefinition ("workflow call cycle detected: " ++s key_text k ++s " -> " ++s key_text k)).
Proof.
  intros Hh Hc Hreg Hplain Hv Href Hnone. set (k := (md_name (wd_metadata d) ++s ":" ++s prefix, rest)).
  assert (forall g, stored g k = stored g (definition_key d)) as Hsame.
  { intros g. unfold stored, definition_key, k, definition_stream. cbn [fst snd]. rewrite Hv.
    by rewrite !append_assoc. }
  assert (k <> definition_key d) as Hne.
  { unfold k, definition_key. intros [= He _]. apply (f_equal bytes) in He. unfold plain in Hplain.
    rewrite !bytes_append in He. rewrite <- He in Hplain. apply Hplain. simpl. set_solver. }
  assert (same_key k (definition_key d) = false) as Hk.
  { apply not_true_iff_false. by rewrite same_key_true. }
  assert (same_key (definition_key d) (definition_key d) = true) as Hself by (by apply same_key_true).
  split.
  - apply (call_graph_reads j h d false Hh Hc Hreg). intros stack k' Hvis.
    inversion Hvis as [|? ? child ? ? Hchild Hvis']; subst.
    { split_and!; [by intros ?%elem_of_nil|simpl; unfold MAX_WORKFLOW_CALL_DEPTH; lia|done]. }
    unfold calls_of, resolves in Hchild. rewrite Hself, Href in Hchild.
    apply list_elem_of_singleton in Hchild as ->. fold k in Hvis'.
    inversion Hvis' as [|? ? child ? ? Hchild ?]; subst.
    { split_and!; [|simpl; unfold MAX_WORKFLOW_CALL_DEPTH; lia|done].
      simpl. rewrite list_elem_of_singleton. done. }
    exfalso. unfold calls_of, resolves in Hchild. rewrite Hk, Hsame, Hnone in Hchild.
    by apply elem_of_nil in Hchild.
  - intros j' h' content_hash Hh' Hc' Hreg' Hst. exists k. split.
    + exists d, content_hash. rewrite Hsame. split; [done|]. rewrite Href. by left.
    + assert (forall key, wr_definition key.1 key.2 j' = (Ok (stored h' key), j')) as Hread
        by (intros key; by apply definition_reads).
      unfold validate_call_graph. rewrite (visit_step j' d (stored h') Hread). cbn [from_key length Nat.leb].
      assert (calls_of d (stored h') (definition_key d) = [k]) as Hc1
        by (unfold calls_of, resolves; by rewrite Hself, Href).
      assert (resolves d (stored h') (definition_key d) = Some d) as Hr1
        by (unfold resolves; by rewrite Hself).
      assert (calls_of d (stored h') k = [k]) as Hc2
        by (unfold calls_of, resolves; by rewrite Hk, Hsame, Hst).
      assert (resolves d (stored h') k = Some d) as Hr2
        by (unfold resolves; by rewrite Hk, Hsame, Hst).
      unfold MAX_WORKFLOW_CALL_DEPTH. cbv iota. rewrite Hr1, Hc1. cbn [w_for_each]. unfold w_bind at 1.
      rewrite (visit_step j' d (stored h') Hread). cbn [app from_key].
      assert (same_key (definition_key d) k = false) as Hk'
        by (apply not_true_iff_false; rewrite same_key_true; congruence).
      rewrite Hk'. cbn [length Nat.leb]. rewrite Hr2, Hc2. cbn [w_for_each]. unfold w_bind at 1.
      rewrite (visit_step j' d (stored h') Hread). cbn [app from_key]. rewrite Hk'.
      rewrite (proj2 (same_key_true k k) eq_refl). done.
Qed.

(** ** Definitions to run on the redb journal *)

#[local] Existing Instances journal_externals test_codec test_codec_ok test_conditions.
#[local] Abbreviation test_store := (RedbEventJournal StaticKeyProvider TestSigner).

Definition test_definition (name : string) (steps compensation : list WorkflowStep) : WorkflowDefinition :=
  mkWorkflowDefinition "colossus.dev/v1alpha1" "Workflow" (mkWorkflowMetadata name "1:0" "an example" false)
    (Object []) (Object []) ["shell"] 4 20 steps compensation.
Definition build : WorkflowDefinition := test_definition "build" [Emit "done" Null] [].
(** Nested steps, a call, and a compensation. *)
Definition release_flow : WorkflowDefinition :=
  test_definition "release"
    [Condition "gate" "exists(/inputs/name)" [Workflow "call" "build" "1:0" Null] [Emit "skipped" Null];
     Foreach "each" "/inputs/items" 10
       [Parallel "both" [[Tool "left" "shell" Null (Some "left")]; [Emit "right" Null]] 2]]
    [Tool "undo" "shell" Null (Some "undo")].
(** It calls itself, by another name. *)
Definition loop : WorkflowDefinition :=
  test_definition "loop" [Workflow "again" "loop:1" "0" Null] [].
(** The [k]-th of seventeen definitions that call each the next. *)
Definition link (k : N) : WorkflowDefinition :=
  test_definition ("w" ++s pretty k)
    (if (k <? 17)%N then [Workflow "next" ("w" ++s pretty (k + 1)%N) "1:0" Null] else [Emit "done" Null]) [].

Definition catalogue : list WorkflowDefinition :=
  build :: release_flow :: loop :: map (fun k => link (N.of_nat k)) (seq 1 17).
Definition named (name : string) : result string WorkflowDefinition :=
  ok_or (find_map (fun d => if String.eqb (md_name (wd_metadata d)) name then Some d else None) catalogue)
    "unknown definition".
(** A definition's text is its name. *)
Definition test_workflows : WorkflowCodec := {|
  definition_to_value d := Str (md_name (wd_metadata d));
  definition_from_value v := match v with Str name => named name | _ => Err "not a name" end;
  yaml_from_str := named;
  schema_validator_for _ := Ok tt;
|}.
#[local] Existing Instance test_workflows.
Definition in_catalogue (d : WorkflowDefinition) : Prop := d ∈ catalogue.
#[local] Instance test_workflows_ok : WorkflowCodecOk in_catalogue.
Proof.
  split.
  - assert (Forall (fun d => named (md_name (wd_metadata d)) = Ok d) catalogue) as Hall
      by (repeat constructor).
    rewrite Forall_forall in Hall. intros d Hd. by apply Hall.
  - intros d c p t _. unfold parseable, MAX_PARSED_DEPTH. simpl. lia.
  - done.
Qed.


(** *** The witnesses *)

Lemma empty_registry : holds (test_journal : test_store) [] /\ registry_ok (fit:=in_catalogue) [].
Proof.
  split; [exact (conj test_journal_ok (Forall_nil_2 _))|]. split_and!; [constructor|done|].
  intros k Hk. assert (forall x y, ~ calls [] x y) as Hno by (by intros x y (d & c & [=] & _)).
  destruct Hk as [x y Hxy|x y z Hxy _]; by destruct (Hno x y).
Qed.
Lemma build_named : Forall (fun k : key => plain k.1) (workflow_references (wd_steps release_flow)).
Proof.
  repeat constructor. apply (bool_decide_unpack ((":" : ascii) ∉ bytes "build")). by vm_compute.
Qed.

Definition left_step : WorkflowStep := Tool "left" "shell" Null (Some "left").
Lemma release_accepted : exists w, validate_parsed release_flow "release" = Ok w.
Proof. eexists. vm_compute. reflexivity. Qed.

Lemma definition_accepted_exact_witness : find_step (wd_steps release_flow) "left" = Some left_step.
Proof.
  destruct release_accepted as [w Hw].
  apply (proj2 (definition_accepted_exact release_flow "release") w "left" left_step Hw).
  split; [|done]. do 5 right. left.
Defined.

Lemma execution_identities_unique_witness :
  exists sc, executed (wd_steps release_flow) "" [1; 0]%N left_step sc /\
    scoped_execution_id sc "left" = "each[1]/both.branch[0]/left" /\
    forall p sc', executed (wd_steps release_flow) "" p left_step sc' ->
      scoped_execution_id sc' "left" = "each[1]/both.branch[0]/left" -> [1; 0]%N = p.
Proof.
  destruct release_accepted as [w Hw].
  assert (executed (wd_steps release_flow) "" [1; 0]%N left_step "each[1]/both.branch[0]") as Hs.
  { eapply (Executed_iteration _ _ "each"); [right; by left|].
    eapply (Executed_branch _ _ "both" _ 2 0); [by left|done|]. apply Executed_here. by left. }
  eexists. split; [exact Hs|]. split; [reflexivity|]. intros p sc' Hs' Hid.
  exact (proj1 (proj2 (execution_identities_unique release_flow "release" w _ _ _ _ _ _ Hw Hs Hs' (eq_sym Hid)))).
Defined.

Lemma call_graph_exact_witness :
  validate_call_graph build true (test_journal : test_store) = (Ok tt, test_journal).
Proof.
  destruct empty_registry as [Hh (Hreg & _)].
  apply (call_graph_exact (fit:=in_catalogue) test_journal [] build true Hh); [done|exact Hreg|].
  intros stack k Hv. inversion Hv as [|? ? child ? ? Hc _]; subst; [|by apply elem_of_nil in Hc].
  split_and!; [by intros ?%elem_of_nil|simpl; unfold MAX_WORKFLOW_CALL_DEPTH; lia|done].
Defined.

Lemma registrations_acyclic_witness :
  exists h', holds (register_definition test_inputs "correlation" "release" "example"
      (test_journal : test_store)).2 h' /\ registry_ok (fit:=in_catalogue) h'.
Proof.
  destruct empty_registry as [Hh Hreg].
  pose proof (registrations_acyclic (fit:=in_catalogue) test_inputs "correlation" "release" "example"
    test_journal [] Hh eq_refl Hreg test_inputs_ok) as Hrun.
  destruct (register_definition _ _ _ _ _) as [r j']. destruct Hrun as (h' & Hh' & Hreg' & _).
  - intros d [= <-]. split; [right; by left|apply build_named].
  - by exists h'.
Defined.

(** ** The gaps, run *)

Definition registers {R} `{WorkflowRepository R} (name : string) (r : R)
    : result WorkflowError ValidatedWorkflow * R :=
  register_definition test_inputs "correlation" name "example" r.
Fixpoint register_all {R} `{WorkflowRepository R} (names : list string) (r : R)
    : result WorkflowError unit * R :=
  match names with
  | [] => (Ok tt, r)
  | name :: names =>
      let '(res, r') := registers name r in
      match res with Ok _ => register_all names r' | Err e => (Err e, r') end
  end.

(** A definition that calls itself by another name is registered, and cannot be run. *)
Example self_call_registered :
  let '(r, j) := register_all ["loop"] (test_journal : test_store) in
  r = Ok tt /\ (validate_call_graph loop true j).1
    = Err (InvalidDefinition "workflow call cycle detected: loop:1:0 -> loop:1:0").
Proof. vm_compute. by split. Qed.

(** The newest definition of every stream, in place of the journal. *)
Definition memory : Type := list (string * (WorkflowDefinition * string)).
#[local] Instance memory_repository : WorkflowRepository memory := {|
  wr_register _ _ d content_hash _ := fun m =>
    (Ok tt, (definition_stream (md_name (wd_metadata d)) (md_version (wd_metadata d)),
             (d, content_hash)) :: m);
  wr_definition name version := fun m =>
    (Ok (find_map (fun entry => if String.eqb entry.1 (definition_stream name version)
                                then Some entry.2 else None) m), m);
|}.
(** Seventeen definitions in a row: the first is registered before what it calls, and every
    one is accepted; together they call deeper than the validation of any allows. *)
Definition late_links : list string := "w1" :: map (fun k => "w" ++s pretty (N.of_nat k)) (rev (seq 2 16)).
Example deep_calls_registered :
  let '(r, m) := register_all late_links ([] : memory) in
  r = Ok tt /\ (validate_call_graph (link 1) true m).1
    = Err (InvalidDefinition "workflow call depth exceeds 16").
Proof. vm_compute. by split. Qed.
