(* ===== verification/SchemaDisclosure.v ===== *)
(** * Schema disclosure

    [crates/colossus-policy/src/schema_disclosure.rs]: tool schemas at the known MCP and
    provider positions are checked for literal secrets by a worklist over local
    references, detached, and restored after the rest of the request was redacted.
    References are compared by address in the source; here a value inside the schema is
    identified by its path from the root. *)

From S2P Require Import Prelude Json Contracts Network Boundary Platform Redaction.

Open Scope string_scope.

(** [contains_secret_data]. *)
Fixpoint contains_secret_data (v : value) : bool :=
  match v with
  | Object fields =>
      existsb (fun kc => is_hard_secret_key kc.1 || contains_secret_data kc.2) fields
  | Array l => existsb contains_secret_data l
  | _ => false
  end.

(** ** Positions *)

(** A place is the list of child indices from the root. *)
Abbreviation place := (list nat).

Definition children (v : value) : list value :=
  match v with
  | Object fields => fields.*2
  | Array l => l
  | _ => []
  end.

Fixpoint key_index (k : string) (fields : list (string * value)) : option nat :=
  match fields with
  | [] => None
  | (k', _) :: fields' => if String.eqb k k' then Some 0 else S <$> key_index k fields'
  end.

(** The child one pointer token selects ([Value::pointer] on ["/token"]). *)
Definition token_index (v : value) (token : string) : option nat :=
  match v with
  | Object fields => key_index token fields
  | Array l =>
      i ← parse_index token;
      if (i <? N.of_nat (length l))%N then Some (N.to_nat i) else None
  | _ => None
  end.

(** A value with its place in the schema under check. *)
Record node := mkNode { nd_place : place; nd_value : value }.

Definition descend_token (n : node) (token : string) : option node :=
  i ← token_index (nd_value n) (unescape_token token);
  v ← children (nd_value n) !! i;
  Some (mkNode (nd_place n ++ [i])%list v).

(** ** Dialects *)

Inductive SchemaDialect := Draft4 | Draft6Or7 | Modern.
#[export] Instance SchemaDialect_eq_dec : EqDecision SchemaDialect.
Proof. solve_decision. Defined.

Definition detect (self : SchemaDialect) (schema : value) : option SchemaDialect :=
  match get_str "$schema" schema with
  | None => Some self
  | Some uri =>
      let uri := trim_end_matches "#" uri in
      if is_one_of uri ["http://json-schema.org/draft-04/schema"] then Some Draft4
      else if is_one_of uri ["http://json-schema.org/draft-06/schema";
                             "http://json-schema.org/draft-07/schema"] then Some Draft6Or7
      else if is_one_of uri ["https://json-schema.org/draft/2019-09/schema";
                             "https://json-schema.org/draft/2020-12/schema"] then Some Modern
      else None
  end.

Definition is_resource (self : SchemaDialect) (schema : value) : bool :=
  match get_str (if bool_decide (self = Draft4) then "id" else "$id") schema with
  | None => false
  | Some id =>
      bool_decide (self = Modern)
      || (is_none (get "$ref" schema) && negb (starts_with id "#"))
  end.

(** ** Local references *)

(** [decode_fragment]: percent decoding. *)
Fixpoint decode_bytes (l : list ascii) : option (list ascii) :=
  match l with
  | [] => Some []
  | b :: l' =>
      if ascii_eqb b "%" then
        match l' with
        | h :: lo :: l'' =>
            high ← digit_of 16 h;
            low ← digit_of 16 lo;
            rest ← decode_bytes l'';
            Some (ascii_of_N (high * 16 + low) :: rest)
        | _ => None
        end
      else rest ← decode_bytes l'; Some (b :: rest)
  end.
Definition decode_fragment (fragment : string) : option string :=
  decoded ← decode_bytes (bytes fragment);
  if valid_utf8 decoded then Some (of_bytes decoded) else None.

(** One pointer segment: the target moves, and the scope with it at a new resource. *)
Definition follow_segment (acc : option (node * node * SchemaDialect)) (segment : string)
    : option (node * node * SchemaDialect) :=
  '(target, scope, dialect) ← acc;
  target ← descend_token target segment;
  dialect ← detect dialect (nd_value target);
  Some (target, if is_resource dialect (nd_value target) then target else scope, dialect).

Definition local_reference_target (root : node) (fragment : string) (dialect : SchemaDialect)
    : option (node * node * SchemaDialect) :=
  path ← decode_fragment fragment;
  dialect ← detect dialect (nd_value root);
  if is_empty path then Some (root, root, dialect)
  else
    path ← strip_prefix "/" path;
    foldl follow_segment (Some (root, root, dialect)) (split_on "/" path).

(** ** The worklist *)

(** A pending check. *)
Record item := mkItem {
  it_node : node;
  it_sensitive : bool;
  it_root : node;
  it_dialect : SchemaDialect;
}.

(** What a keyword schedules: a subschema, or the target of a reference (checked once
    per target, scope and dialect). *)
Inductive push := Subschema (i : item) | Reference (i : item).

Definition named_subschema (below : node) (sensitive : bool) (root : node)
    (dialect : SchemaDialect) (keyword : string) (i : nat) (nc : string * value)
    : option (list push) :=
  let '(name, child) := nc in
  if is_one_of keyword ["dependencies"; "dependentRequired"]
     && is_some (as_array child) then
    if contains_secret_data child then None else Some []
  else if is_hard_secret_key name && negb (is_object child) && negb (is_boolean child)
  then None
  else Some [Subschema (mkItem (mkNode (nd_place below ++ [i])%list child)
               (sensitive || is_hard_secret_key name) root dialect)].

(** All of [f] over the entries from index [i] on, or an early return. *)
Fixpoint try_concat {A B} (f : nat -> A -> option (list B)) (i : nat) (l : list A)
    : option (list B) :=
  match l with
  | [] => Some []
  | a :: l' => x ← f i a; y ← try_concat f (S i) l'; Some (x ++ y)%list
  end.

(** One [(keyword, value)] of a schema object; [None] is [return true]. *)
Definition visit_keyword (here : node) (sensitive : bool) (root : node)
    (dialect : SchemaDialect) (j : nat) (kv : string * value) : option (list push) :=
  let '(keyword, v) := kv in
  let below := mkNode (nd_place here ++ [j])%list v in
  if is_one_of keyword ["properties"; "patternProperties"; "$defs"; "definitions";
                        "dependentSchemas"; "dependencies"; "dependentRequired"] then
    match v with
    | Object schemas =>
        try_concat (named_subschema below sensitive root dialect keyword) 0 schemas
    | _ => if contains_secret_data v then None else Some []
    end
  else if is_one_of keyword ["allOf"; "anyOf"; "oneOf"; "prefixItems"; "items"] then
    match v with
    | Array schemas =>
        Some (imap (fun i child => Subschema
          (mkItem (mkNode (nd_place below ++ [i])%list child) sensitive root dialect)) schemas)
    | _ => Some [Subschema (mkItem below sensitive root dialect)]
    end
  else if is_one_of keyword ["additionalProperties"; "unevaluatedProperties";
            "additionalItems"; "unevaluatedItems"; "contains"; "propertyNames"; "not"; "if";
            "then"; "else"; "contentSchema"] then
    Some [Subschema (mkItem below sensitive root dialect)]
  else if is_one_of keyword ["$ref"; "$dynamicRef"; "$recursiveRef"] && sensitive then
    '(target, scope, target_dialect) ←
      (reference ← as_str v; path ← strip_prefix "#" reference;
       local_reference_target root path dialect);
    Some [Reference (mkItem target true scope target_dialect)]
  else if is_one_of keyword ["default"; "examples"; "const"; "enum"] && sensitive then
    if negb (is_null v) then None else Some []
  else if is_hard_secret_key keyword || contains_secret_data v then None
  else Some [].

(** One popped item. *)
Definition visit (i : item) : option (list push) :=
  let schema := nd_value (it_node i) in
  match schema with
  | Object object =>
      dialect ← detect (it_dialect i) schema;
      let root := if is_resource dialect schema then it_node i else it_root i in
      try_concat (visit_keyword (it_node i) (it_sensitive i) root dialect) 0 object
  | _ => if contains_secret_data schema then None else Some []
  end.

Definition reference_key (i : item) : place * place * SchemaDialect :=
  (nd_place (it_node i), nd_place (it_root i), it_dialect i).

(** [pending] (a stack) and [checked_references]. *)
Abbreviation worklist := (list item * list (place * place * SchemaDialect))%type.

Definition schedule (w : worklist) (p : push) : worklist :=
  let '(pending, checked) := w in
  match p with
  | Subschema i => (i :: pending, checked)
  | Reference i =>
      if bool_decide (reference_key i ∈ checked) then (pending, checked)
      else (i :: pending, reference_key i :: checked)
  end.

Definition check_next (w : worklist) : worklist + bool :=
  match w.1 with
  | [] => inr false
  | i :: pending =>
      match visit i with
      | None => inr true
      | Some pushes => inl (foldl schedule (pending, w.2) pushes)
      end
  end.

(** The number of values in a value: the measure of the walk. *)
Fixpoint vsize (v : value) : N :=
  match v with
  | Object fields => (1 + foldr (fun kc n => vsize kc.2 + n) 0 fields)%N
  | Array l => (1 + foldr (fun c n => vsize c + n) 0 l)%N
  | _ => 1%N
  end.

Definition root_item (schema : value) : item :=
  mkItem (mkNode [] schema) false (mkNode [] schema) Modern.

(** Every value is popped at most once as a subschema of each reference target, and
    there are at most [3 * size * size] targets ([schema_walk_returns] below). *)
Definition walk_bound (schema : value) : positive :=
  let k := vsize schema in N.succ_pos (k + 3 * k * k * k).
Definition schema_walk (schema : value) : worklist + bool :=
  iterate check_next (walk_bound schema) (inl ([root_item schema], [])).

Definition schema_contains_secret (schema : value) : bool :=
  match schema_walk schema with inr b => b | inl _ => true end.

(** ** Detaching and restoring the schemas *)

Definition pointer_tokens (path : string) : option (list string) :=
  if is_empty path then Some []
  else if negb (starts_with path "/") then None
  else Some (unescape_token <$> tail (split_on "/" path)).

(** [*value.pointer_mut(path)? = new]. *)
Definition set_child (v : value) (i : nat) (new : value) : value :=
  match v with
  | Object fields => Object (alter (fun kc : string * value => (kc.1, new)) i fields)
  | Array l => Array (<[i := new]> l)
  | _ => v
  end.
Fixpoint assign (tokens : list string) (new : value) (v : value) : option value :=
  match tokens with
  | [] => Some new
  | t :: tokens' =>
      i ← token_index v t;
      c ← children v !! i;
      c' ← assign tokens' new c;
      Some (set_child v i c')
  end.
Definition pointer_assign (path : string) (new : value) (v : value) : option value :=
  tokens ← pointer_tokens path; assign tokens new v.

Definition schema_actions : list string :=
  ["provider.echo"; "provider.openai.responses"; "provider.openai.codex";
   "provider.openai.chat"; "provider.anthropic.messages"].

Definition schema_paths (request : EffectRequest) : list string :=
  if negb (bool_decide (er_phase request = PreEffect)) then []
  else if (String.eqb (er_action request) "mcp.call"
           || (starts_with (er_action request) "plugin.mcp."
               && ends_with (er_action request) ".call"))
          && bool_decide (pointer (er_content request) "/operation/kind" ≫= as_str
                          = Some "call_tool")
  then ["/operation/input_schema"; "/operation/output_schema"]
  else if is_one_of (er_action request) schema_actions then
    match pointer (er_content request) "/request/tools" ≫= as_array with
    | Some tools =>
        (fun index : nat => "/request/tools/" ++s pretty index ++s "/input_schema")
          <$> seq 0 (length tools)
    | None => []
    end
  else [].

Section Redact.
Context `{Externals}.

Definition detach_schema (s : value * list (string * value)) (path : string)
    : result GatewayError (value * list (string * value)) :=
  let '(content, schemas) := s in
  match pointer content path with
  | None => Ok (content, schemas)
  | Some schema =>
      reject (schema_contains_secret schema)
        (Safety "tool schema contains hard-secret literal data") ;;
      Ok (default content (pointer_assign path Null content), (schemas ++ [(path, schema)])%list)
  end.

Definition restore_schema (content : value) (ps : string * value)
    : result GatewayError value :=
  ok_or (pointer_assign ps.1 ps.2 content)
    (Contract "tool schema position changed during redaction").

(** [redact_request_content]. *)
Definition redact_request_content (request : EffectRequest)
    : result GatewayError EffectRequest :=
  '(content, schemas) ← try_fold detach_schema (schema_paths request) (er_content request, []);
  content ← try_fold restore_schema schemas (redact_hard_secrets content);
  Ok (with_content content request).

End Redact.

(** ** What a secret in a schema is *)

(** Literal data that names a secret: an object in it, however deep, has a hard-secret key. *)
Inductive names_secret : value -> Prop :=
| ns_key fields k c : (k, c) ∈ fields -> is_hard_secret_key k = true -> names_secret (Object fields)
| ns_field fields k c : (k, c) ∈ fields -> names_secret c -> names_secret (Object fields)
| ns_element l c : c ∈ l -> names_secret c -> names_secret (Array l).

(** What a keyword of JSON Schema holds. *)
Definition map_keywords : list string :=
  ["properties"; "patternProperties"; "$defs"; "definitions"; "dependentSchemas";
   "dependencies"; "dependentRequired"].
Definition dependency_keywords : list string := ["dependencies"; "dependentRequired"].
Definition list_keywords : list string := ["allOf"; "anyOf"; "oneOf"; "prefixItems"; "items"].
Definition single_keywords : list string :=
  ["additionalProperties"; "unevaluatedProperties"; "additionalItems"; "unevaluatedItems";
   "contains"; "propertyNames"; "not"; "if"; "then"; "else"; "contentSchema"].
Definition reference_keywords : list string := ["$ref"; "$dynamicRef"; "$recursiveRef"].
Definition literal_keywords : list string := ["default"; "examples"; "const"; "enum"].

(** A dependency on property names is no subschema. *)
Definition names_only (keyword : string) (child : value) : Prop :=
  keyword ∈ dependency_keywords /\ exists l, child = Array l.
(** Where a reference leads inside its resource. *)
Definition refers (v : value) (root : node) (dialect : SchemaDialect)
    (target : node * node * SchemaDialect) : Prop :=
  exists fragment, v = Str ("#" ++s fragment) /\
    local_reference_target root fragment dialect = Some target.
(** The [j]th entry of a schema object, and the resource and dialect it is read in. *)
Definition entry (i : item) (j : nat) (keyword : string) (v : value) (root : node)
    (dialect : SchemaDialect) : Prop :=
  exists fields, nd_value (it_node i) = Object fields /\ fields !! j = Some (keyword, v) /\
    detect (it_dialect i) (nd_value (it_node i)) = Some dialect /\
    root = if is_resource dialect (nd_value (it_node i)) then it_node i else it_root i.
Definition child_of (n : node) (i : nat) (v : value) : node := mkNode (nd_place n ++ [i])%list v.

(** The subschemas of an entry: what is declared under a secret's name, at any depth, is
    about the secret, and so is what is referred to from there. *)
Inductive entry_next (here : node) (sensitive : bool) (root : node) (dialect : SchemaDialect)
    (j : nat) (keyword : string) (v : value) : item -> Prop :=
| next_named schemas k name child :
    keyword ∈ map_keywords -> v = Object schemas -> schemas !! k = Some (name, child) ->
    ~ names_only keyword child ->
    entry_next here sensitive root dialect j keyword v
      (mkItem (child_of (child_of here j v) k child) (sensitive || is_hard_secret_key name) root dialect)
| next_listed schemas k child :
    keyword ∈ list_keywords -> v = Array schemas -> schemas !! k = Some child ->
    entry_next here sensitive root dialect j keyword v
      (mkItem (child_of (child_of here j v) k child) sensitive root dialect)
| next_single :
    keyword ∈ single_keywords \/ (keyword ∈ list_keywords /\ forall l, v <> Array l) ->
    entry_next here sensitive root dialect j keyword v (mkItem (child_of here j v) sensitive root dialect)
| next_reference target scope target_dialect :
    keyword ∈ reference_keywords -> sensitive = true ->
    refers v root dialect (target, scope, target_dialect) ->
    entry_next here sensitive root dialect j keyword v (mkItem target true scope target_dialect).
(** An entry holds a literal secret, or may: a reference that leads nowhere in the
    document. *)
Inductive entry_secret (sensitive : bool) (root : node) (dialect : SchemaDialect)
    (keyword : string) (v : value) : Prop :=
| secret_map : keyword ∈ map_keywords -> (forall schemas, v <> Object schemas) ->
    names_secret v -> entry_secret sensitive root dialect keyword v
| secret_names schemas name child : keyword ∈ map_keywords -> v = Object schemas ->
    (name, child) ∈ schemas -> names_only keyword child -> names_secret child ->
    entry_secret sensitive root dialect keyword v
| secret_value schemas name child : keyword ∈ map_keywords -> v = Object schemas ->
    (name, child) ∈ schemas -> ~ names_only keyword child -> is_hard_secret_key name = true ->
    (forall fields, child <> Object fields) -> (forall b, child <> Bool b) ->
    entry_secret sensitive root dialect keyword v
| secret_literal : keyword ∈ literal_keywords -> sensitive = true -> v <> Null ->
    entry_secret sensitive root dialect keyword v
| secret_reference : keyword ∈ reference_keywords -> sensitive = true ->
    (forall target, ~ refers v root dialect target) ->
    entry_secret sensitive root dialect keyword v
| secret_other : keyword ∉ (map_keywords ++ list_keywords ++ single_keywords)%list ->
    (sensitive = true -> keyword ∉ (reference_keywords ++ literal_keywords)%list) ->
    is_hard_secret_key keyword = true \/ names_secret v ->
    entry_secret sensitive root dialect keyword v.

(** The subschemas next to one, the secrets of one, and of a schema. *)
Definition next_schema (i i' : item) : Prop :=
  exists j keyword v root dialect, entry i j keyword v root dialect /\
    entry_next (it_node i) (it_sensitive i) root dialect j keyword v i'.
Inductive secret_at (i : item) : Prop :=
| at_data : (forall fields, nd_value (it_node i) <> Object fields) ->
    names_secret (nd_value (it_node i)) -> secret_at i
| at_dialect fields : nd_value (it_node i) = Object fields ->
    detect (it_dialect i) (nd_value (it_node i)) = None -> secret_at i
| at_entry j keyword v root dialect : entry i j keyword v root dialect ->
    entry_secret (it_sensitive i) root dialect keyword v -> secret_at i.
Definition holds_secret (schema : value) : Prop :=
  exists i, rtc next_schema (root_item schema) i /\ secret_at i.

Definition push_item (p : push) : item :=
  match p with Subschema i => i | Reference i => i end.

(** [i] schedules [j]: a subschema of [i], or the target of a local reference in it. *)
Definition schedules (i j : item) : Prop :=
  exists ps p, visit i = Some ps /\ p ∈ ps /\ push_item p = j.

(** *** The code decides it *)

Lemma contains_secret_data_names v : contains_secret_data v = true <-> names_secret v.
Proof.
  split.
  - induction v as [| | | |l IH|fs IH] using value_rec_full; simpl; try done.
    + intros (c & Hc & Hs)%existsb_exists. apply list_elem_of_In in Hc.
      rewrite Forall_forall in IH. eapply ns_element; [exact Hc|by apply IH].
    + intros ([k c] & Hc & [Hk|Hs]%orb_true_iff)%existsb_exists; apply list_elem_of_In in Hc;
        [by eapply ns_key|].
      rewrite Forall_forall in IH. eapply ns_field; [exact Hc|]. by apply (IH (k, c)).
  - induction 1 as [fs k c Hc Hk|fs k c Hc _ IH|l c Hc _ IH]; simpl; apply existsb_exists;
      eexists; (split; [apply list_elem_of_In; exact Hc|]); cbn [fst snd];
      [by rewrite Hk|by rewrite IH, orb_true_r|done].
Qed.
Lemma secret_data_None {A} v (x : A) :
  (if contains_secret_data v then None else Some x) = None <-> names_secret v.
Proof. rewrite <- contains_secret_data_names. by destruct (contains_secret_data v). Qed.

Lemma try_concat_None {A B} (f : nat -> A -> option (list B)) l : forall i,
  try_concat f i l = None <-> exists k a, l !! k = Some a /\ f (i + k) a = None.
Proof.
  induction l as [|a l IH]; intros i; simpl; [split; [done|by intros (k & a & [=] & _)]|].
  specialize (IH (S i)). destruct (f i a) as [x|] eqn:Ef; simpl.
  - destruct (try_concat f (S i) l) as [y|]; simpl.
    + split; [done|]. intros ([|k] & b & Hk & Hb); simpl in Hk.
      * injection Hk as <-. rewrite Nat.add_0_r in Hb. congruence.
      * enough (Some y = None) by done. apply IH. exists k, b. by rewrite Nat.add_succ_comm.
    + split; [intros _|done]. destruct (proj1 IH eq_refl) as (k & b & Hk & Hb).
      exists (S k), b. by rewrite <- Nat.add_succ_comm.
  - split; [intros _|done]. exists 0, a. by rewrite Nat.add_0_r.
Qed.
Lemma try_concat_elem {A B} (f : nat -> A -> option (list B)) l : forall i ps,
  try_concat f i l = Some ps -> forall p, p ∈ ps <->
    exists k a x, l !! k = Some a /\ f (i + k) a = Some x /\ p ∈ x.
Proof.
  induction l as [|a l IH]; intros i ps; simpl.
  { intros [= <-] p. split; [by intros ?%elem_of_nil|by intros (k & a & x & [=] & _)]. }
  destruct (f i a) as [x|] eqn:Ef; simpl; [|done].
  destruct (try_concat f (S i) l) as [y|] eqn:Ey; simpl; [|done]. intros [= <-] p.
  rewrite elem_of_app, (IH _ _ Ey). split.
  - intros [Hp|(k & b & z & Hk & Hb & Hp)].
    + exists 0, a, x. by rewrite Nat.add_0_r.
    + exists (S k), b, z. by rewrite <- Nat.add_succ_comm.
  - intros ([|k] & b & z & Hk & Hb & Hp); simpl in Hk.
    + injection Hk as <-. rewrite Nat.add_0_r in Hb. left. congruence.
    + right. exists k, b, z. by rewrite Nat.add_succ_comm.
Qed.

(** The classes of keywords are apart. *)
Lemma one_of_apart k l l' :
  k ∈ l -> forallb (fun x => negb (is_one_of x l')) l = true -> is_one_of k l' = false.
Proof.
  intros Hk Hf. rewrite forallb_forall in Hf. apply negb_true_iff, Hf. by apply list_elem_of_In.
Qed.
Lemma not_one_of k l : k ∉ l -> is_one_of k l = false.
Proof. intros Hk. apply not_true_iff_false. by rewrite is_one_of_true. Qed.

Section Entries.
Context (here : node) (sensitive : bool) (root : node) (dialect : SchemaDialect) (j : nat)
  (keyword : string) (v : value).
Local Abbreviation visited := (visit_keyword here sensitive root dialect j (keyword, v)).

Lemma visit_map : keyword ∈ map_keywords -> visited =
  match v with
  | Object schemas =>
      try_concat (named_subschema (child_of here j v) sensitive root dialect keyword) 0 schemas
  | _ => if contains_secret_data v then None else Some []
  end.
Proof. intros Hk%is_one_of_true. unfold visit_keyword. fold map_keywords. by rewrite Hk. Qed.
Lemma visit_list : keyword ∈ list_keywords -> visited =
  match v with
  | Array schemas => Some (imap (fun i child => Subschema
      (mkItem (child_of (child_of here j v) i child) sensitive root dialect)) schemas)
  | _ => Some [Subschema (mkItem (child_of here j v) sensitive root dialect)]
  end.
Proof.
  intros Hk. unfold visit_keyword. fold map_keywords list_keywords.
  rewrite (one_of_apart _ _ map_keywords Hk eq_refl). apply is_one_of_true in Hk. by rewrite Hk.
Qed.
Lemma visit_single : keyword ∈ single_keywords ->
  visited = Some [Subschema (mkItem (child_of here j v) sensitive root dialect)].
Proof.
  intros Hk. unfold visit_keyword. fold map_keywords list_keywords single_keywords.
  rewrite (one_of_apart _ _ map_keywords Hk eq_refl), (one_of_apart _ _ list_keywords Hk eq_refl).
  apply is_one_of_true in Hk. by rewrite Hk.
Qed.
Lemma visit_reference : keyword ∈ reference_keywords -> sensitive = true -> visited =
  match (reference ← as_str v; path ← strip_prefix "#" reference;
         local_reference_target root path dialect) with
  | Some (target, scope, target_dialect) =>
      Some [Reference (mkItem target true scope target_dialect)]
  | None => None
  end.
Proof.
  intros Hk Hs. unfold visit_keyword. fold map_keywords list_keywords single_keywords reference_keywords.
  rewrite (one_of_apart _ _ map_keywords Hk eq_refl), (one_of_apart _ _ list_keywords Hk eq_refl),
    (one_of_apart _ _ single_keywords Hk eq_refl).
  apply is_one_of_true in Hk. by rewrite Hk, Hs.
Qed.
Lemma visit_literal : keyword ∈ literal_keywords -> sensitive = true ->
  visited = if negb (is_null v) then None else Some [].
Proof.
  intros Hk Hs. unfold visit_keyword.
  fold map_keywords list_keywords single_keywords reference_keywords literal_keywords.
  rewrite (one_of_apart _ _ map_keywords Hk eq_refl), (one_of_apart _ _ list_keywords Hk eq_refl),
    (one_of_apart _ _ single_keywords Hk eq_refl), (one_of_apart _ _ reference_keywords Hk eq_refl).
  apply is_one_of_true in Hk. by rewrite Hk, Hs.
Qed.
Lemma visit_other :
  keyword ∉ (map_keywords ++ list_keywords ++ single_keywords)%list ->
  (sensitive = true -> keyword ∉ (reference_keywords ++ literal_keywords)%list) ->
  visited = if is_hard_secret_key keyword || contains_secret_data v then None else Some [].
Proof.
  intros Hk Hs. rewrite !not_elem_of_app in Hk. destruct Hk as (Hm & Hl & Hn).
  unfold visit_keyword. fold map_keywords list_keywords single_keywords reference_keywords literal_keywords.
  rewrite !not_one_of by done. destruct sensitive; [|by rewrite !andb_false_r].
  specialize (Hs eq_refl). rewrite not_elem_of_app in Hs. destruct Hs. by rewrite !not_one_of.
Qed.

(** Every keyword is of one class. *)
Lemma keyword_classes :
  keyword ∈ map_keywords \/ keyword ∈ list_keywords \/ keyword ∈ single_keywords \/
  (keyword ∈ reference_keywords /\ sensitive = true) \/ (keyword ∈ literal_keywords /\ sensitive = true) \/
  (keyword ∉ (map_keywords ++ list_keywords ++ single_keywords)%list /\
   (sensitive = true -> keyword ∉ (reference_keywords ++ literal_keywords)%list)).
Proof.
  destruct (decide (keyword ∈ map_keywords)); [tauto|]. destruct (decide (keyword ∈ list_keywords)); [tauto|].
  destruct (decide (keyword ∈ single_keywords)); [tauto|]. do 3 right.
  destruct (decide (keyword ∈ reference_keywords /\ sensitive = true)) as [|Hr]; [by left|right].
  destruct (decide (keyword ∈ literal_keywords /\ sensitive = true)) as [|Hl]; [by left|right].
  split; [by rewrite !not_elem_of_app|]. intros Hs. rewrite not_elem_of_app. split; intros ?; tauto.
Qed.
End Entries.

Lemma apart k l l' :
  k ∈ l -> forallb (fun x => negb (is_one_of x l')) l = true -> k ∉ l'.
Proof. intros Hk Hf. rewrite <- is_one_of_true. by rewrite (one_of_apart _ _ _ Hk Hf). Qed.
(** Two classes of one keyword. *)
Ltac clash :=
  exfalso; rewrite ?not_elem_of_app in *;
  first [ match goal with H : ?k ∈ ?l, H' : ?k ∈ ?l' |- _ => by apply (apart k l l' H eq_refl) end
        | naive_solver ].

Lemma names_only_spec keyword child :
  is_one_of keyword ["dependencies"; "dependentRequired"] && is_some (as_array child) = true
  <-> names_only keyword child.
Proof.
  unfold names_only. rewrite andb_true_iff, is_one_of_true. destruct child; simpl; naive_solver.
Qed.
Lemma named_subschema_cases below sensitive root dialect keyword i name child :
  let x := named_subschema below sensitive root dialect keyword i (name, child) in
  (names_only keyword child /\ x = (if contains_secret_data child then None else Some [])) \/
  (~ names_only keyword child /\
   ((is_hard_secret_key name = true /\ (forall fields, child <> Object fields) /\
     (forall b, child <> Bool b) /\ x = None) \/
    (~ (is_hard_secret_key name = true /\ (forall fields, child <> Object fields) /\
        (forall b, child <> Bool b)) /\
     x = Some [Subschema (mkItem (child_of below i child)
                 (sensitive || is_hard_secret_key name) root dialect)]))).
Proof.
  cbn zeta. unfold named_subschema. rewrite <- names_only_spec.
  destruct (is_one_of keyword _ && is_some (as_array child)); [by left|right]. split; [done|].
  destruct (is_hard_secret_key name); simpl; [|right; split; [by intros [? _]|done]].
  destruct child; simpl; try (left; by split_and!); right; split; try done; naive_solver.
Qed.

Section Entry.
Context (here : node) (sensitive : bool) (root : node) (dialect : SchemaDialect) (j : nat)
  (keyword : string) (v : value).
Local Abbreviation visited := (visit_keyword here sensitive root dialect j (keyword, v)).
Local Abbreviation secret := (entry_secret sensitive root dialect keyword v).
Local Abbreviation nexts := (entry_next here sensitive root dialect j keyword v).

(** What a loop over declared names does. *)
Lemma named_None schemas : v = Object schemas -> keyword ∈ map_keywords ->
  try_concat (named_subschema (child_of here j v) sensitive root dialect keyword) 0 schemas = None
  <-> secret.
Proof.
  intros Hv Hk. rewrite try_concat_None. split.
  - intros (k & [name child] & Hl & Hn). apply list_elem_of_lookup_2 in Hl.
    destruct (named_subschema_cases (child_of here j v) sensitive root dialect keyword (0 + k) name child)
      as [(Ho & Hx)|(Ho & [(Hh & Hf & Hb & _)|(_ & Hx)])]; [| |congruence].
    + rewrite Hx in Hn. apply secret_data_None in Hn. by eapply secret_names.
    + by eapply secret_value.
  - intros Hs.
    assert (exists name child, (name, child) ∈ schemas /\
      ((names_only keyword child /\ names_secret child) \/
       (~ names_only keyword child /\ is_hard_secret_key name = true /\
        (forall fields, child <> Object fields) /\ (forall b, child <> Bool b))))
      as (name & child & Hin & Hc).
    { destruct Hs as [_ Hn _|s' name child _ Hs' Hin ? ?|s' name child _ Hs' Hin ? ? ? ?|? ? ?|? ? ?|? ? ?];
        [by destruct (Hn schemas)|assert (s' = schemas) as -> by congruence; eauto 10..|clash|clash|clash]. }
    apply list_elem_of_lookup_1 in Hin as [k Hin]. exists k, (name, child). split; [done|].
    destruct (named_subschema_cases (child_of here j v) sensitive root dialect keyword (0 + k) name child)
      as [(Ho & ->)|(Ho & [(_ & _ & _ & ->)|(Hno & _)])]; [|done|].
    + apply secret_data_None. destruct Hc as [[_ ?]|[? _]]; done.
    + destruct Hc as [[? _]|(_ & ? & ? & ?)]; naive_solver.
Qed.
Lemma named_Some schemas ps : v = Object schemas -> keyword ∈ map_keywords ->
  try_concat (named_subschema (child_of here j v) sensitive root dialect keyword) 0 schemas = Some ps ->
  forall i', (exists p, p ∈ ps /\ push_item p = i') <-> nexts i'.
Proof.
  intros Hv Hk Hps i'. pose proof (try_concat_elem _ _ _ _ Hps) as Hp. split.
  - intros (p & (k & [name child] & x & Hl & Hx & Hin)%Hp & <-).
    destruct (named_subschema_cases (child_of here j v) sensitive root dialect keyword (0 + k) name child)
      as [(_ & Hc)|(Ho & [(_ & _ & _ & Hc)|(_ & Hc)])]; rewrite Hc in Hx; [|done|].
    + destruct (contains_secret_data child); [done|]. injection Hx as <-. by apply elem_of_nil in Hin.
    + injection Hx as <-. apply list_elem_of_singleton in Hin as ->. by eapply next_named.
  - intros Hn. destruct Hn as [s' k name child _ Hs' Hl Ho|? ? ? ? ? ?|[?|[? ?]]|? ? ? ? ? ?]; [|clash..].
    assert (s' = schemas) as -> by congruence.
    destruct (named_subschema_cases (child_of here j v) sensitive root dialect keyword (0 + k) name child)
      as [(? & _)|(_ & [(_ & _ & _ & Hc)|(_ & Hc)])]; [done| |].
    + exfalso. assert (Some ps = None) as [=]. rewrite <- Hps. apply try_concat_None. eauto.
    + eexists. split; [apply Hp; exists k, (name, child); eexists; split_and!; [done|exact Hc|by left]|done].
Qed.
End Entry.

(** *** An entry *)

Lemma refers_spec v root dialect target : refers v root dialect target <->
  (reference ← as_str v; path ← strip_prefix "#" reference;
   local_reference_target root path dialect) = Some target.
Proof.
  unfold refers. split.
  - intros (f & -> & Hf). cbn [as_str mbind option_bind]. by rewrite strip_prefix_append.
  - destruct v as [| | |r| |]; cbn [as_str mbind option_bind]; try done.
    destruct (strip_prefix "#" r) as [f|] eqn:Hr; [|done]. cbn [mbind option_bind]. intros Hf.
    apply strip_prefix_Some in Hr. exists f. by rewrite Hr.
Qed.

Lemma visit_entry_None here sensitive root dialect j keyword v :
  visit_keyword here sensitive root dialect j (keyword, v) = None <->
  entry_secret sensitive root dialect keyword v.
Proof.
  destruct (keyword_classes sensitive keyword) as [Hk|[Hk|[Hk|[[Hk Hs]|[[Hk Hs]|[Hk Hs]]]]]].
  - rewrite visit_map by done. destruct v as [| | | | |schemas]; [..|by apply named_None];
      rewrite secret_data_None; (split; [by apply secret_map|]);
      (intros [_ _ ?|s' ? ? _ ? _ _ _|s' ? ? _ ? _ _ _ _ _|? _ _|? _ _|? _ _]; [done|done|done|clash..]).
  - rewrite visit_list by done. split; [by destruct v|].
    intros [? _ _|? ? ? ? _ _ _ _|? ? ? ? _ _ _ _ _ _|? _ _|? _ _|? _ _]; clash.
  - rewrite visit_single by done. split; [done|].
    intros [? _ _|? ? ? ? _ _ _ _|? ? ? ? _ _ _ _ _ _|? _ _|? _ _|? _ _]; clash.
  - rewrite visit_reference by done. pose proof (refers_spec v root dialect) as Hr.
    destruct (mbind _ _) as [[[t sc] d]|].
    + split; [done|]. intros [? _ _|? ? ? ? _ _ _ _|? ? ? ? _ _ _ _ _ _|? _ _|_ _ Hn|? Ho _];
        [clash..| |specialize (Ho Hs); clash]. by destruct (Hn _ (proj2 (Hr _) eq_refl)).
    + split; [|done]. intros _. apply secret_reference; [done..|]. intros t Ht. by apply Hr in Ht.
  - rewrite visit_literal by done. split.
    + intros Hv. apply secret_literal; [done..|]. by intros ->.
    + intros [? _ _|? ? ? ? _ _ _ _|? ? ? ? _ _ _ _ _ _|_ _ Hn|? _ _|? Ho _];
        [clash..| |clash|specialize (Ho Hs); clash]. by destruct v.
  - rewrite visit_other by done. rewrite <- contains_secret_data_names || idtac. split.
    + intros Hv. apply secret_other; [done..|]. rewrite <- contains_secret_data_names.
      destruct (is_hard_secret_key keyword); [by left|right]. simpl in Hv.
      by destruct (contains_secret_data v).
    + intros [? _ _|? ? ? ? _ _ _ _|? ? ? ? _ _ _ _ _ _|? H1 _|? H1 _|_ _ Hn];
        [clash..|specialize (Hs H1); clash|specialize (Hs H1); clash|].
      rewrite <- contains_secret_data_names in Hn. destruct Hn as [->| ->]; [done|by rewrite orb_true_r].
Qed.

Lemma singleton_pushes x i' : (exists p, p ∈ [x] /\ push_item p = i') <-> i' = push_item x.
Proof. split; [intros (p & ->%list_elem_of_singleton & <-); done|intros ->; exists x; split; [by left|done]]. Qed.
Lemma no_pushes i' : (exists p, p ∈ ([] : list push) /\ push_item p = i') <-> False.
Proof. split; [by intros (p & Hp%elem_of_nil & _)|done]. Qed.

Lemma visit_entry_Some here sensitive root dialect j keyword v ps :
  visit_keyword here sensitive root dialect j (keyword, v) = Some ps -> forall i',
  (exists p, p ∈ ps /\ push_item p = i') <-> entry_next here sensitive root dialect j keyword v i'.
Proof.
  intros Hv i'. destruct (keyword_classes sensitive keyword) as [Hk|[Hk|[Hk|[[Hk Hs]|[[Hk Hs]|[Hk Hs]]]]]].
  - rewrite visit_map in Hv by done. destruct v as [| | | | |schemas]; [..|by eapply named_Some];
      (destruct (contains_secret_data _); [done|]); injection Hv as <-; rewrite no_pushes;
      (split; [done|]);
      (intros [s' k nm c _ Hs' _ _|s' k c Hl _ _|[Hl|[Hl _]]|? ? ? Hl _ _]; [done|clash..]).
  - rewrite visit_list in Hv by done. destruct v as [| | | |l|]; injection Hv as <-.
    all: try (rewrite singleton_pushes; split;
      [intros ->; apply next_single; by right
      |by intros [s' k nm c ? ? _ _|s' k c _ ? _|_|? ? ? ? _ _]; try clash]).
    split.
    + intros (p & Hp & <-). apply list_elem_of_lookup_1 in Hp as [k Hp]. rewrite list_lookup_imap in Hp.
      destruct (l !! k) as [c|] eqn:Hc; [|done]. injection Hp as <-. by eapply next_listed.
    + intros [s' k nm c ? _ _ _|s' k c _ Hl Hc|[?|[_ Hn]]|? ? ? ? _ _]; [clash| |clash|by destruct (Hn l)|clash].
      injection Hl as <-. eexists (Subschema _). split; [|reflexivity]. apply (list_elem_of_lookup_2 _ k).
      by rewrite list_lookup_imap, Hc.
  - rewrite visit_single in Hv by done. injection Hv as <-. rewrite singleton_pushes. split.
    + intros ->. apply next_single. by left.
    + by intros [s' k nm c ? _ _ _|s' k c ? _ _|_|? ? ? ? _ _]; try clash.
  - rewrite visit_reference in Hv by done. pose proof (refers_spec v root dialect) as Hr.
    destruct (mbind _ _) as [[[t sc] d]|]; [|done]. injection Hv as <-. rewrite singleton_pushes. split.
    + intros ->. apply next_reference; [done..|]. by apply Hr.
    + intros [s' k nm c ? _ _ _|s' k c ? _ _|[?|[? _]]|t' sc' d' _ _ Ht]; [clash..|].
      apply Hr in Ht. by injection Ht as -> -> ->.
  - rewrite visit_literal in Hv by done. destruct (negb (is_null v)); [done|]. injection Hv as <-.
    rewrite no_pushes. split; [done|].
    intros [s' k nm c ? _ _ _|s' k c ? _ _|[?|[? _]]|? ? ? ? _ _]; clash.
  - rewrite visit_other in Hv by done. destruct (_ || _); [done|]. injection Hv as <-.
    rewrite no_pushes. split; [done|].
    intros [s' k nm c ? _ _ _|s' k c ? _ _|[?|[? _]]|? ? ? ? H1 _]; [clash..|specialize (Hs H1); clash].
Qed.

(** *** A subschema, and the schema *)

Lemma visit_entries i fields dialect :
  nd_value (it_node i) = Object fields -> detect (it_dialect i) (nd_value (it_node i)) = Some dialect ->
  visit i = try_concat (visit_keyword (it_node i) (it_sensitive i)
    (if is_resource dialect (nd_value (it_node i)) then it_node i else it_root i) dialect) 0 fields.
Proof. intros Hv Hd. unfold visit. rewrite Hd, Hv. done. Qed.
Lemma visit_data i : (forall fields, nd_value (it_node i) <> Object fields) ->
  visit i = if contains_secret_data (nd_value (it_node i)) then None else Some [].
Proof. intros Hn. unfold visit. destruct (nd_value (it_node i)); try done. by destruct (Hn fields). Qed.

Lemma visit_secret i : visit i = None <-> secret_at i.
Proof.
  destruct (decide (is_object (nd_value (it_node i)) = true)) as [Ho|Ho].
  2: { assert (forall fields, nd_value (it_node i) <> Object fields) as Hn
         by (intros fields Hf; by rewrite Hf in Ho).
       rewrite visit_data, secret_data_None by done. split; [by apply at_data|].
       intros [_ ?|f Hf _|? ? ? ? ? (f & Hf & _) _]; [done|by destruct (Hn f)..]. }
  destruct (nd_value (it_node i)) as [| | | | |fields] eqn:Hv; try done.
  destruct (detect (it_dialect i) (nd_value (it_node i))) as [d|] eqn:Hd.
  - rewrite (visit_entries i fields d Hv Hd), try_concat_None. split.
    + intros (j & [k v] & Hj & Hn). apply visit_entry_None in Hn.
      eapply (at_entry i j); [|exact Hn]. by exists fields.
    + intros [Hn _|f _ Hn|j k v r d' (f & Hf & Hj & Hd' & ->) Hs]; [by destruct (Hn fields)|congruence|].
      assert (f = fields) as -> by congruence. assert (d' = d) as -> by congruence.
      exists j, (k, v). split; [done|]. by apply visit_entry_None.
  - split; [|by intros _; unfold visit; rewrite Hd, Hv].
    intros _. by eapply at_dialect.
Qed.
Lemma schedules_next i i' ps : visit i = Some ps -> schedules i i' <-> next_schema i i'.
Proof.
  intros Hps.
  assert (schedules i i' <-> exists p, p ∈ ps /\ push_item p = i') as ->.
  { unfold schedules. rewrite Hps. naive_solver. }
  destruct (decide (is_object (nd_value (it_node i)) = true)) as [Ho|Ho].
  2: { assert (forall fields, nd_value (it_node i) <> Object fields) as Hn
         by (intros fields Hf; by rewrite Hf in Ho).
       rewrite visit_data in Hps by done. destruct (contains_secret_data _); [done|]. injection Hps as <-.
       rewrite no_pushes. split; [done|]. intros (? & ? & ? & ? & ? & (f & Hf & _) & _). by destruct (Hn f). }
  destruct (nd_value (it_node i)) as [| | | | |fields] eqn:Hv; try done.
  destruct (detect (it_dialect i) (nd_value (it_node i))) as [d|] eqn:Hd;
    [|by unfold visit in Hps; rewrite Hd, Hv in Hps].
  rewrite (visit_entries i fields d Hv Hd) in Hps. pose proof (try_concat_elem _ _ _ _ Hps) as Hp. split.
  - intros (p & (j & [k v] & x & Hj & Hx & Hin)%Hp & Hi). do 5 eexists. split; [by exists fields|].
    apply (visit_entry_Some _ _ _ _ _ _ _ _ Hx). by exists p.
  - intros (j & k & v & r & d' & (f & Hf & Hj & Hd' & ->) & Hn).
    assert (f = fields) as -> by congruence. assert (d' = d) as -> by congruence.
    destruct (visit_keyword (it_node i) (it_sensitive i) (if is_resource d (nd_value (it_node i))
      then it_node i else it_root i) d j (k, v)) as [x|] eqn:Hx.
    + apply (visit_entry_Some _ _ _ _ _ _ _ _ Hx) in Hn as (p & Hin & Hi). exists p. split; [|done].
      apply Hp. by exists j, (k, v), x.
    + exfalso. assert (Some ps = None) as [=]. rewrite <- Hps. apply try_concat_None. by exists j, (k, v).
Qed.

(** ** The walk returns *)

Definition total_size (l : list value) : N := foldr (fun c n => vsize c + n)%N 0%N l.

Lemma vsize_pos v : (0 < vsize v)%N.
Proof. destruct v; simpl; lia. Qed.

Lemma vsize_children v : vsize v = (1 + total_size (children v))%N.
Proof.
  destruct v as [| | | |l|fs]; try done. simpl. f_equal. unfold total_size.
  induction fs as [|[k c] fs IH]; simpl; [done|]. by rewrite IH.
Qed.

Lemma total_size_lookup l i c : l !! i = Some c -> (vsize c <= total_size l)%N.
Proof.
  revert i. induction l as [|d l IH]; intros [|i]; simpl; try done.
  - intros [= ->]. lia.
  - intros Hi. specialize (IH _ Hi). lia.
Qed.

(** The value a place denotes. *)
Fixpoint value_at (v : value) (p : place) : option value :=
  match p with
  | [] => Some v
  | i :: p' => c ← children v !! i; value_at c p'
  end.

Lemma value_at_app v p q : value_at v (p ++ q)%list = value_at v p ≫= fun c => value_at c q.
Proof.
  revert v. induction p as [|i p IH]; intros v; simpl; [done|].
  destruct (children v !! i); simpl; auto.
Qed.

Lemma value_at_vsize v p c : value_at v p = Some c -> (vsize c <= vsize v)%N.
Proof.
  revert v. induction p as [|i p IH]; intros v; simpl; [intros [= ->]; lia|].
  destruct (children v !! i) as [d|] eqn:Ed; simpl; [|done]. intros Hc.
  apply IH in Hc. apply total_size_lookup in Ed. rewrite (vsize_children v). lia.
Qed.

(** The places of a value: as many as [vsize] says. *)
Fixpoint places (v : value) : list place :=
  [] :: match v with
        | Object fields =>
            (fix go i fs := match fs with
             | [] => []
             | kc :: fs' => ((cons i <$> places kc.2) ++ go (S i) fs')%list
             end) 0 fields
        | Array l =>
            (fix go i l := match l with
             | [] => []
             | c :: l' => ((cons i <$> places c) ++ go (S i) l')%list
             end) 0 l
        | _ => []
        end.

Fixpoint places_from (i : nat) (l : list value) : list place :=
  match l with [] => [] | c :: l' => ((cons i <$> places c) ++ places_from (S i) l')%list end.

Lemma places_children v : places v = [] :: places_from 0 (children v).
Proof.
  destruct v as [| | | |l|fs]; try done. simpl. f_equal. generalize 0.
  induction fs as [|[k c] fs IH]; intros i; simpl; [done|]. by rewrite IH.
Qed.

Lemma value_rec_children (P : value -> Prop) :
  (forall v, Forall P (children v) -> P v) -> forall v, P v.
Proof.
  intros HP v. induction v as [| | | |l IH|fs IH] using value_rec_full; apply HP; simpl; auto.
  by apply Forall_fmap.
Qed.

Lemma places_length v : N.of_nat (length (places v)) = vsize v.
Proof.
  induction v as [v IH] using value_rec_children.
  rewrite places_children, vsize_children. simpl length.
  assert (forall i, N.of_nat (length (places_from i (children v))) = total_size (children v))
    as Hl.
  { induction IH as [|c l Hc _ IHl]; intros i; simpl; [done|].
    rewrite length_app, length_fmap. specialize (IHl (S i)). unfold total_size in *. simpl. lia. }
  specialize (Hl 0). lia.
Qed.

Lemma places_from_elem j l i c p :
  l !! i = Some c -> p ∈ places c -> (j + i :: p) ∈ places_from j l.
Proof.
  revert i j. induction l as [|d l IH]; intros [|i] j; simpl; try done.
  - intros [= ->] Hp. rewrite Nat.add_0_r. apply elem_of_app. left. by apply list_elem_of_fmap_2.
  - intros Hi Hp. apply elem_of_app. right. rewrite <- Nat.add_succ_comm. by apply IH.
Qed.

Lemma value_at_places v p c : value_at v p = Some c -> p ∈ places v.
Proof.
  revert v. induction p as [|i p IH]; intros v; rewrite places_children; simpl; [by left|].
  destruct (children v !! i) as [d|] eqn:Ed; simpl; [|done]. intros Hc.
  right. apply (places_from_elem 0 _ _ _ _ Ed). auto.
Qed.

Lemma value_at_snoc v p i d :
  value_at v p = Some d -> value_at v (p ++ [i])%list = children d !! i.
Proof. intros Hp. rewrite value_at_app, Hp. simpl. by destruct (children d !! i). Qed.

(** The invariant: every place in the worklist denotes its value. *)
Section Walk.
Context (schema : value).

Definition node_ok (n : node) : Prop := value_at schema (nd_place n) = Some (nd_value n).
Definition item_ok (i : item) : Prop := node_ok (it_node i) /\ node_ok (it_root i).
Definition push_ok (p : push) : Prop :=
  match p with Subschema i => item_ok i | Reference i => item_ok i /\ it_sensitive i = true end.
Definition push_size (p : push) : N :=
  match p with Subschema i => vsize (nd_value (it_node i)) | Reference _ => 0 end.
Definition pushes_size (l : list push) : N := foldr (fun p n => push_size p + n)%N 0%N l.
Definition pending_size (l : list item) : N :=
  foldr (fun i n => vsize (nd_value (it_node i)) + n)%N 0%N l.

Lemma node_ok_child n i c : node_ok n -> children (nd_value n) !! i = Some c ->
  node_ok (mkNode (nd_place n ++ [i])%list c).
Proof. unfold node_ok. intros Hn Hc. simpl. by rewrite (value_at_snoc _ _ _ _ Hn). Qed.

Lemma pushes_size_app l l' : pushes_size (l ++ l')%list = (pushes_size l + pushes_size l')%N.
Proof. induction l; simpl; lia. Qed.

(** A loop over entries whose pushes are within each entry. *)
Lemma try_concat_ok {A} (f : nat -> A -> option (list push)) (size : A -> N) l0 :
  (forall i a ps, l0 !! i = Some a -> f i a = Some ps ->
     Forall push_ok ps /\ (pushes_size ps <= size a)%N) ->
  forall l i ps, drop i l0 = l -> try_concat f i l = Some ps ->
    Forall push_ok ps /\ (pushes_size ps <= foldr (fun a n => size a + n) 0 l)%N.
Proof.
  intros Hf l. induction l as [|a l IH]; intros i ps Hd; simpl; [intros [= <-]; by split|].
  destruct (f i a) as [x|] eqn:Ex; simpl; [|done].
  destruct (try_concat f (S i) l) as [y|] eqn:Ey; simpl; [|done]. intros [= <-].
  assert (l0 !! i = Some a) as Ha.
  { rewrite <- (Nat.add_0_r i), <- lookup_drop, Hd. done. }
  destruct (Hf _ _ _ Ha Ex) as [Hx Hxs].
  destruct (IH (S i) y) as [Hy Hys]; [|done|].
  { rewrite <- Nat.add_1_r, <- drop_drop, Hd. done. }
  split; [by apply Forall_app|]. rewrite pushes_size_app. lia.
Qed.

Lemma descend_token_ok n t m : node_ok n -> descend_token n t = Some m -> node_ok m.
Proof.
  unfold descend_token. intros Hn. destruct (token_index _ _) as [i|]; simpl; [|done].
  destruct (children (nd_value n) !! i) as [c|] eqn:Ec; simpl; [|done]. intros [= <-].
  by apply node_ok_child.
Qed.

Definition target_ok (x : option (node * node * SchemaDialect)) : Prop :=
  match x with Some (t, s, _) => node_ok t /\ node_ok s | None => True end.

Lemma follow_segments_ok segs x : target_ok x -> target_ok (foldl follow_segment x segs).
Proof.
  revert x. induction segs as [|t segs IH]; intros x Hx; simpl; [done|]. apply IH.
  destruct x as [[[n sc] d]|]; [|done]. destruct Hx as [Hn Hs]. simpl.
  destruct (descend_token n t) as [m|] eqn:Em; simpl; [|done].
  destruct (detect d _) as [d'|]; simpl; [|done].
  pose proof (descend_token_ok _ _ _ Hn Em). by destruct (is_resource _ _).
Qed.

Lemma local_reference_target_ok root f d : node_ok root ->
  target_ok (local_reference_target root f d).
Proof.
  intros Hr. unfold local_reference_target. destruct (decode_fragment f); simpl; [|done].
  destruct (detect d _); simpl; [|done]. destruct (is_empty _); [done|].
  destruct (strip_prefix "/" _); simpl; [|done]. by apply follow_segments_ok.
Qed.

Lemma entries_size (fs : list (string * value)) :
  foldr (fun kc n => vsize kc.2 + n)%N 0%N fs = total_size fs.*2.
Proof. induction fs as [|[k c] fs IH]; simpl; [done|]. by rewrite IH. Qed.

Lemma visit_keyword_ok here sens root d j kv ps :
  node_ok here -> node_ok root -> children (nd_value here) !! j = Some kv.2 ->
  visit_keyword here sens root d j kv = Some ps ->
  Forall push_ok ps /\ (pushes_size ps <= vsize kv.2)%N.
Proof.
  intros Hh Hr Hj. destruct kv as [k v]. simpl in Hj.
  pose proof (node_ok_child _ _ _ Hh Hj) as Hb. unfold visit_keyword; simpl fst; simpl snd.
  set (below := mkNode _ v) in *. intros Hv. pose proof (vsize_pos v) as Hpos.
  assert (forall i c b, children v !! i = Some c ->
    push_ok (Subschema (mkItem (mkNode (nd_place below ++ [i])%list c) b root d))) as Hchild.
  { intros i c b Hc. split; simpl; [|done]. by apply (node_ok_child below). }
  repeat match type of Hv with (if ?b then _ else _) = _ => destruct b end;
    try (injection Hv as <-); try discriminate Hv;
    try (by split; [constructor|simpl; lia]);
    try (split; [by repeat constructor|simpl; lia]).
  - destruct v as [| | | |l|fs]; try (destruct (contains_secret_data _); [done|];
      injection Hv as <-; split; [constructor|simpl; lia]).
    assert (Forall push_ok ps /\ (pushes_size ps <= foldr (fun kc n => vsize kc.2 + n) 0 fs)%N)
      as [? Hs]; [|split; [done|simpl; lia]].
    eapply (try_concat_ok _ (fun kc => vsize kc.2) fs); [|apply drop_0|exact Hv].
    intros i [name c] qs Hi. unfold named_subschema; simpl.
    assert (fs.*2 !! i = Some c) as Hi2 by (by rewrite list_lookup_fmap, Hi).
    repeat case_match; intros [= <-]; simpl; (split; [|lia]); repeat constructor; eauto.
    by apply Hchild.
  - destruct v as [| | | |l|fs]; injection Hv as <-;
      try (split; [by repeat constructor|simpl; lia]).
    split.
    + apply Forall_lookup. intros i p. rewrite list_lookup_imap.
      destruct (l !! i) as [c|] eqn:Ec; simpl; [|done]. intros [= <-]. by apply (Hchild i c).
    + simpl. clear. match goal with |- (pushes_size (imap ?f l) <= _)%N =>
        assert (forall g, (forall i c, push_size (g i c) = vsize c) ->
          pushes_size (imap g l) = foldr (fun c n => vsize c + n)%N 0%N l) as Hg end.
      { induction l as [|c l IH]; intros g Hg; [done|]. rewrite imap_cons. simpl.
        rewrite Hg, (IH (g ∘ S)); [done|]. intros i c'. apply Hg. }
      rewrite Hg by done. lia.
  - destruct (as_str v) as [rf|]; simpl in Hv; [|done].
    destruct (strip_prefix "#" rf) as [p|]; simpl in Hv; [|done].
    pose proof (local_reference_target_ok root p d Hr) as Ht.
    destruct (local_reference_target root p d) as [[[t sc] d']|]; simpl in Hv; [|done].
    injection Hv as <-. destruct Ht. split; [by repeat constructor|simpl; lia].
Qed.

Lemma visit_ok i ps : item_ok i -> visit i = Some ps ->
  Forall push_ok ps /\ (pushes_size ps < vsize (nd_value (it_node i)))%N.
Proof.
  intros [Hn Hr]. unfold visit. pose proof (vsize_pos (nd_value (it_node i))) as Hpos.
  destruct (nd_value (it_node i)) as [| | | |l|fs] eqn:Ev;
    try (destruct (contains_secret_data _); [done|]; intros [= <-]; split;
         [constructor|simpl in *; lia]).
  destruct (detect _ _) as [d|]; simpl; [|done]. intros Hv.
  assert (Forall push_ok ps /\ (pushes_size ps <= foldr (fun kc n => vsize kc.2 + n) 0 fs)%N)
    as [? ?]; [|split; [done|lia]].
  eapply (try_concat_ok _ (fun kc => vsize kc.2) fs); [|apply drop_0|exact Hv].
  intros j kv qs Hj. apply visit_keyword_ok; [done| |].
  - by destruct (is_resource _ _).
  - rewrite Ev. simpl. by rewrite list_lookup_fmap, Hj.
Qed.
Definition key_ok (k : place * place * SchemaDialect) : Prop :=
  k.1.1 ∈ places schema /\ k.1.2 ∈ places schema.
Definition worklist_ok (w : worklist) : Prop :=
  Forall item_ok w.1 /\ NoDup w.2 /\ Forall key_ok w.2.

Definition measure (w : worklist) : N :=
  let k := vsize schema in
  (pending_size w.1 + (3 * k * k - N.of_nat (length w.2)) * k)%N.

Lemma checked_bound l :
  NoDup l -> Forall key_ok l -> (N.of_nat (length l) <= 3 * vsize schema * vsize schema)%N.
Proof.
  intros Hnd Hok.
  set (universe := list_prod (list_prod (places schema) (places schema))
                     [Draft4; Draft6Or7; Modern]).
  assert (l ⊆+ universe) as Hsub.
  { apply NoDup_submseteq; [done|]. intros [[t s] d] Hin.
    rewrite Forall_forall in Hok. destruct (Hok _ Hin) as [Ht Hs]. simpl in Ht, Hs.
    apply list_elem_of_In, in_prod; [apply in_prod; by apply list_elem_of_In|].
    destruct d; simpl; auto. }
  apply submseteq_length in Hsub. unfold universe in Hsub.
  rewrite !length_prod in Hsub. rewrite <- (places_length schema). simpl length in Hsub. nia.
Qed.

Lemma reference_key_ok i : item_ok i -> key_ok (reference_key i).
Proof. intros [Hn Hr]. split; simpl; by eapply value_at_places. Qed.

Lemma schedule_ok w p : worklist_ok w -> push_ok p ->
  worklist_ok (schedule w p) /\ (measure (schedule w p) <= measure w + push_size p)%N.
Proof.
  destruct w as [pending checked]. intros (Hp & Hnd & Hk) Hi. destruct p as [i|i]; simpl.
  - split; [by split_and!; [constructor|..]|]. unfold measure; simpl. lia.
  - destruct Hi as [Hi _].
    case_bool_decide as Hin; [split; [done|unfold measure; simpl; lia]|].
    pose proof (reference_key_ok _ Hi) as Hki.
    assert (NoDup (reference_key i :: checked)) as Hnd' by by constructor.
    assert (Forall key_ok (reference_key i :: checked)) as Hk' by by constructor.
    split; [by split_and!; [constructor|..]|].
    pose proof (checked_bound _ Hnd' Hk') as Hb. simpl length in Hb.
    destruct Hi as [Hn _]. apply value_at_vsize in Hn. unfold measure; simpl. nia.
Qed.

Lemma schedule_all_ok ps w : worklist_ok w -> Forall push_ok ps ->
  worklist_ok (foldl schedule w ps) /\
  (measure (foldl schedule w ps) <= measure w + pushes_size ps)%N.
Proof.
  revert w. induction ps as [|p ps IH]; intros w Hw Hps; simpl; [split; [done|lia]|].
  apply Forall_cons in Hps as [Hp Hps]. destruct (schedule_ok _ _ Hw Hp) as [Hw' Hm].
  destruct (IH _ Hw' Hps) as [Hw'' Hm']. split; [done|lia].
Qed.

Lemma check_next_decreases w : worklist_ok w ->
  match check_next w with
  | inl w' => worklist_ok w' /\ (measure w' < measure w)%N
  | inr _ => True
  end.
Proof.
  destruct w as [[|i pending] checked]; intros (Hp & Hnd & Hk); unfold check_next; simpl; [done|].
  apply Forall_cons in Hp as [Hi Hp].
  destruct (visit i) as [ps|] eqn:Ev; [|done].
  destruct (visit_ok _ _ Hi Ev) as [Hps Hs].
  destruct (schedule_all_ok ps (pending, checked)) as [Hw Hm]; [by split_and!|done|].
  split; [done|]. unfold measure in *. simpl in *. lia.
Qed.

Lemma root_worklist_ok : worklist_ok ([root_item schema], []).
Proof. split_and!; simpl; repeat constructor. Qed.

Lemma schema_walk_answers : exists b, schema_walk schema = inr b.
Proof.
  unfold schema_walk.
  pose proof (iterate_decreasing check_next worklist_ok measure (walk_bound schema)
    (inl ([root_item schema], [])) check_next_decreases root_worklist_ok) as H.
  destruct (iterate _ _ _) as [w|b]; [|by exists b].
  destruct H as [_ H]. unfold measure, walk_bound in H. simpl in H.
  rewrite N.succ_pos_spec, N.sub_0_r in H. clear -H. exfalso.
  enough (forall a b c d : N, (a + b + N.succ (c + d) <= c + 0 + d)%N -> False) as Hn
    by exact (Hn _ _ _ _ H). lia.
Qed.

(** *** What the walk decides *)

(** What the walk looks for: a reachable item on which it stops. *)
Definition reaches_secret : Prop :=
  exists i, rtc schedules (root_item schema) i /\ visit i = None.

(** The loop invariant: all pending items are reachable, and the reachable items are
    covered by the pending ones and a set of visited ones closed under [schedules]. *)
Definition walk_inv (w : worklist) : Prop :=
  worklist_ok w /\
  Forall (fun i => rtc schedules (root_item schema) i) w.1 /\
  exists visited : list item,
    Forall item_ok visited /\
    root_item schema ∈ (visited ++ w.1)%list /\
    (forall k, k ∈ w.2 -> exists i, i ∈ (visited ++ w.1)%list /\ item_ok i /\
       it_sensitive i = true /\ reference_key i = k) /\
    (forall i, i ∈ visited -> exists ps, visit i = Some ps /\
       forall p, p ∈ ps -> push_item p ∈ (visited ++ w.1)%list).

Lemma reference_key_inj i j : item_ok i -> item_ok j ->
  it_sensitive i = true -> it_sensitive j = true ->
  reference_key i = reference_key j -> i = j.
Proof.
  destruct i as [[p v] b [q r] d], j as [[p' v'] b' [q' r'] d'].
  unfold item_ok, node_ok, reference_key; simpl.
  intros [Hp Hq] [Hp' Hq'] -> -> [= -> -> ->]. congruence.
Qed.

Lemma schedule_pending w p : w.1 ⊆ (schedule w p).1.
Proof.
  destruct w as [pending checked], p as [i|i]; simpl; [|case_bool_decide; simpl];
    try done; intros x Hx; by right.
Qed.

(** Scheduling covers every push: it is pending afterwards, or it was covered. *)
Lemma schedule_all_covers visited ps w :
  worklist_ok w -> Forall push_ok ps ->
  (forall k, k ∈ w.2 -> exists i, i ∈ (visited ++ w.1)%list /\ item_ok i /\
       it_sensitive i = true /\ reference_key i = k) ->
  let w' := foldl schedule w ps in
  w.1 ⊆ w'.1 /\
  (forall k, k ∈ w'.2 -> exists i, i ∈ (visited ++ w'.1)%list /\ item_ok i /\
       it_sensitive i = true /\ reference_key i = k) /\
  (forall p, p ∈ ps -> push_item p ∈ (visited ++ w'.1)%list) /\
  (forall i, i ∈ w'.1 -> i ∈ w.1 \/ exists p, p ∈ ps /\ push_item p = i).
Proof.
  revert w. induction ps as [|p ps IH]; intros w Hw Hps Hc; simpl.
  { split_and!; auto. intros p Hp. by apply elem_of_nil in Hp. }
  apply Forall_cons in Hps as [Hp Hps].
  destruct (schedule_ok _ _ Hw Hp) as [Hw' _].
  assert (push_item p ∈ (visited ++ (schedule w p).1)%list /\
    (forall k, k ∈ (schedule w p).2 -> exists i, i ∈ (visited ++ (schedule w p).1)%list /\
       item_ok i /\ it_sensitive i = true /\ reference_key i = k) /\
    (forall i, i ∈ (schedule w p).1 -> i ∈ w.1 \/ push_item p = i)) as (Hin & Hc' & Hfrom).
  { destruct w as [pending checked]. destruct p as [i|i]; simpl in *.
    - split_and!.
      + apply elem_of_app. right. by left.
      + intros k Hk. destruct (Hc k Hk) as (j & Hj & ?). exists j. split; [|done].
        apply elem_of_app in Hj as [?|?]; apply elem_of_app; [by left|right; by right].
      + intros j [->|?]%elem_of_cons; auto.
    - destruct Hp as [Hi Hs]. case_bool_decide as Hk; simpl.
      + split_and!; auto. destruct (Hc _ Hk) as (j & Hj & Hjo & Hjs & Hjk).
        by rewrite <- (reference_key_inj j i Hjo Hi Hjs Hs Hjk).
      + split_and!.
        * apply elem_of_app. right. by left.
        * intros k [->|Hk']%elem_of_cons.
          -- exists i. split_and!; auto. apply elem_of_app. right. by left.
          -- destruct (Hc k Hk') as (j & Hj & ?). exists j. split; [|done].
             apply elem_of_app in Hj as [?|?]; apply elem_of_app; [by left|right; by right].
        * intros j [->|?]%elem_of_cons; auto. }
  destruct (IH _ Hw' Hps Hc') as (Hsub & Hc'' & Hall & Hfrom'). split_and!.
  - intros i Hi. by apply Hsub, schedule_pending.
  - done.
  - intros q [->|Hq]%elem_of_cons; [|auto].
    apply elem_of_app in Hin as [?|?]; apply elem_of_app; [by left|right; by apply Hsub].
  - intros i Hi. destruct (Hfrom' i Hi) as [Hi'|(q & Hq & <-)].
    + destruct (Hfrom i Hi') as [?|<-]; [by left|right; exists p; split; [by left|done]].
    + right. exists q. split; [by right|done].
Qed.

Lemma check_next_inv w : walk_inv w ->
  match check_next w with
  | inl w' => walk_inv w'
  | inr b => b = true <-> reaches_secret
  end.
Proof.
  destruct w as [[|i pending] checked]; intros (Hw & Hreach & visited & Hvo & Hroot & Hc & Hv);
    unfold check_next; simpl in *.
  - split; [done|]. intros (j & Hj & Hbad). exfalso.
    assert (j ∈ visited) as Hin.
    { rewrite app_nil_r in *. clear Hbad Hreach Hw Hc.
      induction Hj as [|x y z (ps & p & Hx & Hp & <-) _ IH]; [done|]. apply IH.
      destruct (Hv x Hroot) as (ps' & Hx' & Hall). rewrite Hx in Hx'. injection Hx' as <-.
      specialize (Hall _ Hp). by rewrite ?app_nil_r in Hall. }
    destruct (Hv j Hin) as (ps & Hps & _). congruence.
  - destruct Hw as (Hp & Hnd & Hk). simpl in *.
    apply Forall_cons in Hp as [Hi Hp]. apply Forall_cons in Hreach as [Hri Hrp].
    destruct (visit i) as [ps|] eqn:Ev; [|split; [intros _; by exists i|done]].
    destruct (visit_ok _ _ Hi Ev) as [Hps _].
    assert (worklist_ok (pending, checked)) as Hw0 by (by split_and!).
    destruct (schedule_all_ok ps _ Hw0 Hps) as [Hw' _].
    assert (forall x, x ∈ (visited ++ i :: pending)%list <->
                      x ∈ ((i :: visited) ++ pending)%list) as Hperm.
    { intros x. rewrite !elem_of_app, !elem_of_cons. tauto. }
    destruct (schedule_all_covers (i :: visited) ps (pending, checked) Hw0 Hps)
      as (Hsub & Hc' & Hall & Hfrom).
    { intros k Hk'. destruct (Hc k Hk') as (j & Hj & ?). exists j. by rewrite <- Hperm. }
    set (w' := foldl schedule (pending, checked) ps) in *.
    assert (forall x, x ∈ (visited ++ i :: pending)%list -> x ∈ ((i :: visited) ++ w'.1)%list)
      as Hmono.
    { intros x Hx. apply Hperm in Hx. apply elem_of_app in Hx as [?|?]; apply elem_of_app;
        [by left|right; by apply Hsub]. }
    split; [done|]. split.
    { apply Forall_forall. intros j Hj. destruct (Hfrom j Hj) as [Hj'|(p & Hp' & <-)].
      - rewrite Forall_forall in Hrp. auto.
      - eapply rtc_r; [exact Hri|]. by exists ps, p. }
    exists (i :: visited). split_and!; [by constructor|by apply Hmono|done|].
    intros j [->|Hj]%elem_of_cons; [by exists ps|].
    destruct (Hv j Hj) as (qs & Hq & Hqs). exists qs. split; [done|]. intros p Hpq. auto.
Qed.

Lemma schema_contains_secret_reaches :
  schema_contains_secret schema = true <-> reaches_secret.
Proof.
  unfold schema_contains_secret. destruct schema_walk_answers as [b Hb].
  pose proof (iterate_invariant check_next walk_inv (fun b => b = true <-> reaches_secret)
    (walk_bound schema) (inl ([root_item schema], [])) check_next_inv) as Hinv.
  unfold schema_walk in *. rewrite Hb in *. apply Hinv.
  split; [apply root_worklist_ok|]. simpl. split; [by repeat constructor|].
  exists []. split_and!; simpl; [constructor|by left| |];
    intros x Hx; by apply elem_of_nil in Hx.
Qed.
End Walk.

(** An item the walk stops on is reached exactly when some subschema holds a secret. *)
Lemma reaches_secret_holds schema : reaches_secret schema <-> holds_secret schema.
Proof.
  unfold reaches_secret, holds_secret. split; intros (i & Hr & Hs).
  - exists i. split; [|by apply visit_secret].
    eapply rtc_subrel; [|exact Hr]. intros x y Hxy. pose proof Hxy as (ps & p & Hx & _).
    by apply (schedules_next x y ps Hx).
  - induction Hr as [i|x y i Hxy _ IH]; [exists i; split; [done|by apply visit_secret]|].
    destruct (visit x) as [ps|] eqn:Hx; [|by exists x].
    destruct (IH Hs) as (i' & Hr & Hn). exists i'. split; [|done].
    eapply rtc_l; [|exact Hr]. by apply (schedules_next x y ps Hx).
Qed.

(** C39. Correctness and termination of the tool-schema check: on every schema
    the worklist empties or finds a secret within its bound (reference cycles
    included), and it answers [true] exactly when the schema holds a secret: some
    subschema - declared at any depth, or referred to from below a secret-named
    declaration - has literal data under a secret's name, data with a hard-secret key
    where data is not declared, an unknown dialect, or, below a secret's name, a reference
    that cannot be resolved inside the document. *)
Theorem schema_contains_secret_correct schema :
  (exists b, schema_walk schema = inr b) /\
  (schema_contains_secret schema = true <-> holds_secret schema).
Proof.
  split; [apply schema_walk_answers|]. rewrite <- reaches_secret_holds.
  apply schema_contains_secret_reaches.
Qed.

(** A password whose schema is a reference: its default is found, under whatever name it is
    declared; the same declarations away from the password hold no secret. *)
Definition test_schema (name : string) : value :=
  Object [("$defs", Object [("credential", Object [("default", Str "hunter2"); ("type", Str "string")])]);
          ("properties", Object [(name, Object [("$ref", Str "#/$defs/credential")])]);
          ("type", Str "object")].
Lemma schema_contains_secret_correct_witness :
  holds_secret (test_schema "password") /\ ~ holds_secret (test_schema "nickname").
Proof.
  split; [apply (schema_contains_secret_correct (test_schema "password")); by vm_compute|].
  rewrite <- (proj2 (schema_contains_secret_correct (test_schema "nickname"))). by vm_compute.
Defined.
