(* ===== verification/Kernel.v ===== *)
(** * The safety kernel

    [crates/colossus-policy/src/kernel.rs], [SafetyKernel] and its helpers: the checks no
    policy can override, before a request reaches policy ([prepare]) and on every
    decision that comes back ([validate_decision]). *)

From S2P Require Import Prelude Json Contracts Network Boundary Platform Redaction.
From S2P Require Import CommandApproval SchemaDisclosure.

Open Scope string_scope.

Definition DEFAULT_POLICY_INPUT_LIMIT : N := 1024 * 1024.
Definition DEFAULT_POST_EFFECT_POLICY_INPUT_LIMIT : N := 8 * 1024 * 1024.
Definition PERMIT_LIFETIME_MS : Z := 30000.
Definition MIN_OCI_EFFECT_TIMEOUT_MS : N := 5000.
Definition MIN_OCI_NETWORK_EFFECT_TIMEOUT_MS : N := 10000.
Definition MIN_WINDOWS_JOB_EFFECT_TIMEOUT_MS : N := 10000.

(** ** State *)

Record SafetyKernel := mkKernel {
  known_capabilities : gset string;
  policy_input_limit : N;
  post_effect_policy_input_limit : N;
  browser_upload_policy_input_limit : N;
  computer_screenshot_policy_input_limit : N;
  sandbox_boundary_gate : option SandboxBoundaryGate;
}.

Definition kernel_new (known : list string) : SafetyKernel :=
  mkKernel (list_to_set known) DEFAULT_POLICY_INPUT_LIMIT
    DEFAULT_POST_EFFECT_POLICY_INPUT_LIMIT DEFAULT_POST_EFFECT_POLICY_INPUT_LIMIT
    (24 * 1024 * 1024) None.
Definition with_policy_input_limit (n : N) (k : SafetyKernel) : SafetyKernel :=
  mkKernel (known_capabilities k) n n n n (sandbox_boundary_gate k).
Definition with_sandbox_boundary_gate (g : SandboxBoundaryGate) (k : SafetyKernel)
    : SafetyKernel :=
  mkKernel (known_capabilities k) (policy_input_limit k) (post_effect_policy_input_limit k)
    (browser_upload_policy_input_limit k) (computer_screenshot_policy_input_limit k) (Some g).

Definition sandbox_boundary_mode (k : SafetyKernel) : option SandboxBoundaryMode :=
  sandbox_boundary_gate k ≫= gate_mode.
Definition acknowledged_sandbox_boundary_mode (active session_id : option string)
    (k : SafetyKernel) : option SandboxBoundaryMode :=
  sandbox_boundary_gate k ≫= acknowledged_mode active session_id.

(** ** Classification of actions *)

Definition is_process_action (action : string) : bool :=
  starts_with action "plugin.mcp."
  || is_one_of action ["process.spawn"; "plugin.registry.credential_helper"; "shell.run";
       "git.status"; "git.diff"; "git.show"; "mcp.tools"; "mcp.call"].

Definition is_streamable_http_mcp (request : EffectRequest) : bool :=
  is_one_of (er_action request) ["mcp.tools"; "mcp.call"]
  && bool_decide (get_str "transport" (er_content request) = Some "streamable_http").

Definition is_process_effect (request : EffectRequest) : bool :=
  is_process_action (er_action request) && negb (is_streamable_http_mcp request).

Definition is_filesystem_action (action : string) : bool :=
  starts_with action "filesystem." || starts_with action "repo."
  || is_one_of action ["patch.preview"; "patch.apply"; "patch.reverse"; "trace.export"].

(** [str::contains]. *)
Fixpoint contains_bytes (p l : list ascii) : bool :=
  match l with
  | [] => match p with [] => true | _ => false end
  | _ :: l' => String.prefix (of_bytes p) (of_bytes l) || contains_bytes p l'
  end.
Definition contains_str (s p : string) : bool := contains_bytes (bytes p) (bytes s).

(** ** Paths *)

Definition is_ascii_letter_at (n : nat) (s : string) : bool :=
  is_some_and (String.get n s) is_ascii_alphabetic.
Definition byte_at_is (n : nat) (cs : list ascii) (s : string) : bool :=
  is_some_and (String.get n s) (fun b => existsb (ascii_eqb b) cs).
(** ["\\"] is the byte 92. *)
Definition absolute_policy_root (root : string) : bool :=
  path_has_root root
  || ((3 <=? slen root)%N && is_ascii_letter_at 0 root && byte_at_is 1 [":"%char] root
      && byte_at_is 2 ["092"%char; "/"%char] root).

Definition normalized_absolute_path (v : string) : bool :=
  starts_with v "/" && (1 <? slen v)%N
  && forallb (fun c => negb (is_empty c) && negb (is_one_of c ["."; ".."]))
       (tail (split_on "/" v)).

Section Kernel.
Context `{Externals} `{CommandDisplay}.
Context (env : HostEnv).

Definition canonical_effect_path (resource : string) (allow_missing_leaf : bool)
    : result GatewayError path :=
  match canonicalize env resource with
  | Ok p => Ok p
  | Err error =>
      if allow_missing_leaf then
        parent ← ok_or (path_parent resource)
          (Safety ("effect path has no parent: " ++ resource));
        name ← ok_or (path_file_name resource)
          (Safety ("effect path has no filename: " ++ resource));
        match canonicalize env parent with
        | Ok parent => Ok (parent ++ [name])%list
        | Err _ => Err (Safety error)
        end
      else Err (Safety error)
  end.

(** ** Network authority *)

Inductive NetworkDestinationMatch := MatchAmbient | Exact | PublicWildcard.

Definition canonical_network_origin (resource : string) : result GatewayError string :=
  url ← map_err (fun e => Safety ("invalid network URL: " ++ e)) (url_parse resource);
  reject (negb (is_one_of (url_scheme url) ["http"; "https"])
          || is_none (url_host_str url)
          || negb (is_empty (url_username url))
          || is_some (url_password url))
    (Safety "network URLs require HTTP(S), a host, and no embedded credentials") ;;
  Ok (url_origin url).

(** Names the public wildcard never reaches. *)
Definition non_public_host (host : string) : bool :=
  let lower := to_ascii_lowercase (trim_end_matches "." host) in
  is_one_of lower ["localhost"; "metadata.google.internal"; "metadata.goog";
                   "instance-data"; "instance-data.ec2.internal"]
  || is_some_and (parse_host_ip host) non_public_network_address.

Definition network_destination_match (destinations : list string) (resource : string)
    : result GatewayError (option NetworkDestinationMatch) :=
  origin ← canonical_network_origin resource;
  if is_one_of origin destinations then Ok (Some Exact)
  else if negb (is_one_of "*" destinations) then Ok None
  else
    url ← map_err (fun e => Safety ("invalid network origin: " ++ e)) (url_parse origin);
    host ← ok_or (url_host_str url) (Safety "network origin has no host");
    if non_public_host host then Ok None else Ok (Some PublicWildcard).

Definition network_authority_match (obligations : PolicyObligations) (resource : string)
    : result GatewayError (option NetworkDestinationMatch) :=
  canonical_network_origin resource ;;
  if bool_decide (ob_resource_authority obligations = Ambient) then Ok (Some MatchAmbient)
  else network_destination_match (ob_network_destinations obligations) resource.

Definition loopback_host (host : string) : bool :=
  eq_ignore_ascii_case host "localhost" || is_some_and (parse_host_ip host) is_loopback.

Definition http_transport_authority_match (obligations : PolicyObligations)
    (resource : string) : result GatewayError (option NetworkDestinationMatch) :=
  url ← map_err (fun e => Safety ("invalid network URL: " ++ e)) (url_parse resource);
  canonical_network_origin resource ;;
  reject (String.eqb (url_scheme url) "http"
          && negb (is_some_and (url_host_str url) loopback_host)
          && negb (bool_decide (ob_resource_authority obligations = Ambient)))
    (Safety "non-loopback plaintext HTTP requires ambient resource authority in the execution permit") ;;
  network_authority_match obligations resource.

(** ** Process and filesystem obligations *)

(** [grant.mode == mode && canonicalize(root).is_ok_and(f)], for some grant. *)
Definition grants (obligations : PolicyObligations) (mode : string -> bool)
    (f : path -> bool) : bool :=
  existsb (fun grant => mode (fg_mode grant) && is_ok_and (canonicalize env (fg_root grant)) f)
    (ob_filesystem obligations).

Definition executable_allowed (request : EffectRequest) (obligations : PolicyObligations)
    : result GatewayError bool :=
  if String.eqb (ob_sandbox_backend obligations) (as_backend DangerFullAccess) then
    p ← canonical_effect_path (er_resource request) false; Ok (is_file env p)
  else if String.eqb (ob_sandbox_backend obligations) "oci" then
    Ok (normalized_absolute_path (er_resource request)
        && existsb (fun grant => String.eqb (fg_mode grant) "execute"
                     && String.eqb (fg_root grant) (er_resource request))
             (ob_filesystem obligations))
  else
    executable ← canonical_effect_path (er_resource request) false;
    Ok (grants obligations (String.eqb "execute") (fun root => bool_decide (executable = root))).

Definition validate_process_obligations (request : EffectRequest)
    (obligations : PolicyObligations) : result GatewayError unit :=
  let danger := String.eqb (ob_sandbox_backend obligations) (as_backend DangerFullAccess) in
  allowed ← executable_allowed request obligations;
  reject (negb allowed)
    (Safety ("executable " ++ er_resource request ++ " is not explicitly granted")) ;;
  cwd ← ok_or (get_str "cwd" (er_content request)) (Safety "process cwd is absent");
  cwd ← canonical_effect_path cwd false;
  reject (is_none (from_backend (ob_sandbox_backend obligations))
          && negb (grants obligations (fun m => is_one_of m ["read"; "write"])
                     (fun root => path_starts_with root cwd)))
    (Safety "process cwd is outside allowed filesystem roots") ;;
  environment ← ok_or (get "environment" (er_content request) ≫= as_object)
    (Safety "process environment object is absent");
  try_for_each (fun name =>
    reject (negb danger && negb (is_one_of name (ob_allowed_environment obligations)))
      (Safety ("environment variable " ++ name ++ " is not allowed"))) (keys environment).

Definition requested_mode (action : string) : string :=
  if contains_str action "write" || is_one_of action ["patch.apply"; "patch.reverse"]
     || String.eqb action "trace.export" then "write"
  else if contains_str action "metadata" then "metadata"
  else "read".

Definition mode_allowed (requested mode : string) : bool :=
  String.eqb mode "write" || String.eqb mode requested
  || (String.eqb requested "metadata" && String.eqb mode "read").

Definition validate_filesystem_containment (request : EffectRequest)
    (obligations : PolicyObligations) : result GatewayError unit :=
  let requested := requested_mode (er_action request) in
  target ← canonical_effect_path (er_resource request) (String.eqb requested "write");
  if bool_decide (ob_resource_authority obligations = Ambient) then Ok tt
  else reject (negb (grants obligations (mode_allowed requested)
                       (fun root => path_starts_with root target)))
    (Safety (er_resource request ++ " is outside allowed " ++ requested ++ " roots")).

(** ** Before policy *)

Definition policy_limit (k : SafetyKernel) (request : EffectRequest) : N :=
  if bool_decide (er_phase request = PostEffect)
     && String.eqb (er_action request) "computer.screenshot"
  then computer_screenshot_policy_input_limit k
  else if bool_decide (er_phase request = PostEffect) then post_effect_policy_input_limit k
  else if String.eqb (er_action request) "browser.upload"
  then browser_upload_policy_input_limit k
  else policy_input_limit k.

Definition validate_policy_input_size (k : SafetyKernel) (request : EffectRequest)
    : result GatewayError unit :=
  encoded ← canonical_request request;
  let limit := policy_limit k request in
  reject (limit <? slen encoded)%N (Policy (InputTooLarge limit)).

(** [SafetyKernel::prepare]. *)
Definition prepare (k : SafetyKernel) (request : EffectRequest)
    : result GatewayError EffectRequest :=
  reject (negb (er_schema_version request =? 1)%N || is_empty (er_request_id request))
    (Safety "unsupported schema version or empty request id") ;;
  reject (is_empty (er_action request) || is_empty (er_resource request))
    (Safety "action and resource must be non-empty") ;;
  try_for_each (fun capability =>
    reject (negb (bool_decide (capability ∈ known_capabilities k)))
      (Safety ("unknown or unsigned capability " ++ capability))) (er_capabilities request) ;;
  (if bool_decide (er_phase request = PreEffect)
   then command_approval_context request ;; Ok tt else Ok tt) ;;
  prepared ← redact_request_content request;
  validate_policy_input_size k prepared ;;
  Ok prepared.

(** [SafetyKernel::policy_projection]: only the digest of the task intent leaves. *)
Definition project_intent (request : EffectRequest) : EffectRequest :=
  match er_command_intent request with
  | Some intent =>
      with_command_intent (Some (mkCommandIntent ("sha256:" ++ sha256_hex (justification intent))))
        request
  | None => request
  end.
Definition policy_projection (k : SafetyKernel) (request : EffectRequest)
    : result GatewayError EffectRequest :=
  let projected := project_intent request in
  validate_policy_input_size k projected ;; Ok projected.

(** ** On every decision *)

Section Decision.
Context (k : SafetyKernel) (active : option string).
Context (request : EffectRequest) (decision : PolicyDecision).
Let obligations := pd_obligations decision.
Let backend := ob_sandbox_backend obligations.
Let ambient := bool_decide (ob_resource_authority obligations = Ambient).

Definition check_required_fields : result GatewayError unit :=
  reject (is_empty (pd_decision_id decision) || is_empty (pd_policy_revision decision)
          || is_empty (pd_reason decision) || is_empty (ob_sandbox_backend obligations)
          || is_empty (ob_sandbox_profile obligations) || (ob_timeout_ms obligations =? 0)%N
          || (ob_max_output_bytes obligations =? 0)%N || (ob_max_processes obligations =? 0)%N
          || (ob_max_memory_bytes obligations =? 0)%N
          || (ob_max_concurrency obligations =? 0)%N || is_empty (ob_retention obligations))
    (Policy (InvalidDecision "required decision field or obligation is absent/zero")).

Definition check_backend : result GatewayError unit :=
  reject (negb (is_one_of backend ["broker"; "native"; "oci"; "windows_job"; "external";
                                   "danger_full_access"]))
    (Safety ("unknown sandbox backend " ++ backend)) ;;
  reject (ambient && negb (String.eqb backend (as_backend DangerFullAccess)))
    (Safety "ambient resource authority requires the danger_full_access sandbox backend") ;;
  reject (is_process_effect request && String.eqb backend (as_backend DangerFullAccess)
          && negb ambient)
    (Safety "danger_full_access process execution requires explicit ambient resource authority") ;;
  reject (String.eqb backend "broker" && is_process_effect request
          && negb (ob_allow_sandbox_downgrade obligations))
    (Safety "process execution cannot downgrade to the broker without an explicit obligation").

(** The direct-execution boundary a permit would cross. *)
Definition decision_boundary : option SandboxBoundaryMode :=
  if ambient then Some DangerFullAccess
  else if is_process_effect request then from_backend backend
  else None.

Definition check_boundary : result GatewayError unit :=
  if bool_decide (er_phase request = PreEffect)
     && negb (bool_decide (pd_outcome decision = Deny)) then
    match decision_boundary with
    | Some mode =>
        gate ← ok_or (sandbox_boundary_gate k)
          (Safety (as_backend mode ++ " execution requires a runtime acknowledgement gate"));
        gate_validate active request mode gate
    | None => Ok tt
    end
  else Ok tt.

Definition check_platform : result GatewayError unit :=
  let process := is_process_effect request in
  reject (String.eqb backend "windows_job" && process && negb (target_windows env))
    (Safety "windows_job process execution is available only on Windows") ;;
  reject (String.eqb backend "windows_job" && process
          && (ob_timeout_ms obligations <? MIN_WINDOWS_JOB_EFFECT_TIMEOUT_MS)%N)
    (Safety "Windows Job Object process execution requires timeout_ms >= 10000 so cleanup can be confirmed") ;;
  reject (target_windows env && String.eqb backend "oci" && process)
    (Safety "OCI process execution is disabled on Windows until path mapping passes live acceptance") ;;
  reject (String.eqb backend "oci" && process
          && (ob_timeout_ms obligations <? MIN_OCI_EFFECT_TIMEOUT_MS)%N)
    (Safety "OCI process execution requires timeout_ms >= 5000 so cleanup can be confirmed") ;;
  reject (String.eqb backend "oci" && process
          && negb (bool_decide (ob_network_destinations obligations = []))
          && (ob_timeout_ms obligations <? MIN_OCI_NETWORK_EFFECT_TIMEOUT_MS)%N)
    (Safety "networked OCI process execution requires timeout_ms >= 10000 so proxy cleanup can be confirmed").

(** A loop that inserts each name into a set it started empty. *)
Definition check_environment : result GatewayError unit :=
  try_fold (fun (seen : list string) name =>
    if negb (valid_environment_name name) || is_one_of name seen then
      Err (Safety "environment obligations must be unique POSIX-style names")
    else Ok (name :: seen)) (ob_allowed_environment obligations) [] ;; Ok tt.

Definition check_destinations : result GatewayError unit :=
  try_for_each (fun destination =>
    if String.eqb destination "*" then Ok tt
    else
      origin ← canonical_network_origin destination;
      reject (negb (String.eqb origin destination))
        (Safety ("network destination must be * or a canonical HTTP(S) origin: "
                 ++ destination))) (ob_network_destinations obligations).

Definition check_grants : result GatewayError unit :=
  try_for_each (fun grant =>
    reject (negb (absolute_policy_root (fg_root grant))
            || negb (is_one_of (fg_mode grant) ["read"; "write"; "metadata"; "execute"]))
      (Safety "filesystem obligations require absolute roots and known modes"))
    (ob_filesystem obligations).

Definition check_protected_path (seen : list string) (p : string)
    : result GatewayError (list string) :=
  reject (negb (absolute_policy_root p) || is_one_of p seen)
    (Safety "protected filesystem obligations require unique absolute paths") ;;
  canonical ← map_err (fun e => Safety ("protected filesystem path is unavailable: " ++ e))
    (canonicalize env p);
  reject (negb (grants obligations (String.eqb "write")
                  (fun root => path_starts_with root canonical
                               && negb (bool_decide (canonical = root)))))
    (Safety "protected filesystem paths must be strict descendants of writable grants") ;;
  Ok (p :: seen).
Definition check_protected : result GatewayError unit :=
  try_fold check_protected_path (ob_protected_filesystem obligations) [] ;; Ok tt.

(** The checks that only an [Allow] decision must pass. *)
Definition requires_post_effect (action : string) : bool :=
  String.eqb action "web.search" || starts_with action "browser."
  || starts_with action "computer.".

Definition network_actions : list string :=
  ["network.http"; "web.search"; "audit.export.worm.write"; "provider.openai.responses";
   "provider.openai.codex"; "provider.openai.chat"; "provider.anthropic.messages";
   "provider.models"; "plugin.pull"; "plugin.push"].

Definition check_transport : result GatewayError unit :=
  origin ← canonical_network_origin (er_resource request);
  m ← http_transport_authority_match obligations origin;
  reject (is_none m) (Safety ("network destination " ++ origin ++ " is not allowed")).

Definition check_allow : result GatewayError unit :=
  let allow := bool_decide (pd_outcome decision = Allow) in
  let pre := bool_decide (er_phase request = PreEffect) in
  (if allow && is_filesystem_action (er_action request)
   then validate_filesystem_containment request obligations else Ok tt) ;;
  reject (allow && pre && requires_post_effect (er_action request)
          && negb (ob_require_post_effect obligations))
    (Safety "browser, computer, and search effects require mandatory post-effect authorization") ;;
  (if allow && pre && is_process_effect request
   then validate_process_obligations request obligations else Ok tt) ;;
  (if allow && (is_one_of (er_action request) network_actions
                || is_streamable_http_mcp request)
   then check_transport else Ok tt).

(** [SafetyKernel::validate_decision]. *)
Definition validate_decision : result GatewayError unit :=
  check_required_fields ;;
  check_backend ;;
  check_boundary ;;
  check_platform ;;
  check_environment ;;
  check_destinations ;;
  check_grants ;;
  check_protected ;;
  check_allow.

End Decision.

(** [build_disclosure_summary], with the [json!] object in key order. *)
Definition phase_text (p : EffectPhase) : string :=
  match p with PreEffect => "pre_effect" | PostEffect => "post_effect" end.
Definition credential_json (c : CredentialReference) : value :=
  Object [("reference", Str (cr_reference c));
          ("value_hash", match cr_value_hash c with Some h => Str h | None => Null end)].
Definition disclosure_summary (request : EffectRequest) : value :=
  let encoded := to_vec_or_default (er_content request) in
  Object [("action", Str (er_action request));
          ("capabilities", Array (Str <$> er_capabilities request));
          ("content_fields", Array (match as_object (er_content request) with
             | Some fs => Str <$> keys fs | None => [] end));
          ("content_hash", Str (sha256_hex encoded));
          ("content_size", Number (PosInt (slen encoded)));
          ("credential_references", Array (credential_json <$> er_credential_references request));
          ("phase", Str (phase_text (er_phase request)));
          ("request_id", Str (er_request_id request));
          ("resource", Str (er_resource request))].

(** ** Properties *)

Lemma existsb_elem {A} (f : A -> bool) l : existsb f l = true <-> exists x, x ∈ l /\ f x = true.
Proof. rewrite existsb_exists. by setoid_rewrite list_elem_of_In. Qed.

Lemma grants_true obligations mode f :
  grants obligations mode f = true <->
  exists grant root, grant ∈ ob_filesystem obligations /\ mode (fg_mode grant) = true /\
    canonicalize env (fg_root grant) = Ok root /\ f root = true.
Proof.
  unfold grants. rewrite existsb_elem. setoid_rewrite andb_true_iff.
  setoid_rewrite is_ok_and_true. naive_solver.
Qed.

Lemma path_starts_with_true root p :
  path_starts_with root p = true <-> exists suffix, p = (root ++ suffix)%list.
Proof.
  revert p. induction root as [|r root IH]; intros p; simpl.
  - split; [by exists p|done].
  - destruct p as [|c p]; [split; [done|by intros [? ?]]|].
    rewrite andb_true_iff, String.eqb_eq, IH. naive_solver.
Qed.

(** The nine stages of [validate_decision]. *)
Lemma validate_decision_Ok k active request decision :
  validate_decision k active request decision = Ok tt <->
  check_required_fields decision = Ok tt /\ check_backend request decision = Ok tt /\
  check_boundary k active request decision = Ok tt /\
  check_platform request decision = Ok tt /\ check_environment decision = Ok tt /\
  check_destinations decision = Ok tt /\ check_grants decision = Ok tt /\
  check_protected decision = Ok tt /\ check_allow request decision = Ok tt.
Proof.
  unfold validate_decision. split.
  - intros Hv. inv_ok. by split_and!.
  - intros (-> & -> & -> & -> & -> & -> & -> & -> & ->). reflexivity.
Qed.

Ltac stage H := apply validate_decision_Ok in H as (Hreq & Hback & Hbound & Hplat & Henv & Hdest
  & Hgr & Hprot & Hallow).

Lemma check_allow_Ok request decision :
  check_allow request decision = Ok tt -> pd_outcome decision = Allow ->
  let o := pd_obligations decision in
  (is_filesystem_action (er_action request) = true ->
     validate_filesystem_containment request o = Ok tt) /\
  (er_phase request = PreEffect -> requires_post_effect (er_action request) = true ->
     ob_require_post_effect o = true) /\
  (er_phase request = PreEffect -> is_process_effect request = true ->
     validate_process_obligations request o = Ok tt) /\
  (is_one_of (er_action request) network_actions || is_streamable_http_mcp request = true ->
     check_transport request decision = Ok tt).
Proof.
  intros Ha Ho. unfold check_allow in Ha. rewrite Ho in Ha.
  rewrite (bool_decide_eq_true_2 (Allow = Allow)) in Ha by done. rewrite !andb_true_l in Ha.
  cbv zeta. inv_ok. split_and!.
  - intros Hf. by rewrite Hf in E.
  - intros Hp Hr. rewrite (bool_decide_eq_true_2 _ Hp), Hr in E0. by apply negb_false_iff in E0.
  - intros Hp Hr. by rewrite (bool_decide_eq_true_2 _ Hp), Hr in E1.
  - intros Hn. by rewrite Hn in Ha.
Qed.

Lemma check_backend_Ok request decision :
  check_backend request decision = Ok tt ->
  let o := pd_obligations decision in
  (ob_resource_authority o = Ambient -> ob_sandbox_backend o = "danger_full_access") /\
  (is_process_effect request = true ->
     (ob_sandbox_backend o = "danger_full_access" -> ob_resource_authority o = Ambient) /\
     (ob_sandbox_backend o = "broker" -> ob_allow_sandbox_downgrade o = true)) /\
  is_one_of (ob_sandbox_backend o)
    ["broker"; "native"; "oci"; "windows_job"; "external"; "danger_full_access"] = true.
Proof.
  intros Hb. unfold check_backend in Hb. inv_ok. apply negb_false_iff in E. simpl. split_and!.
  - intros Ha. rewrite (bool_decide_eq_true_2 _ Ha) in E0. simpl in E0.
    by apply negb_false_iff, String.eqb_eq in E0.
  - intros Hp. rewrite Hp in *. simpl in *. split.
    + intros Hd. rewrite Hd in E1. simpl in E1. apply negb_false_iff in E1. by inv_bool.
    + intros Hd. rewrite Hd in Hb. simpl in Hb. by apply negb_false_iff in Hb.
  - done.
Qed.

(** C34. Filesystem containment: when the kernel accepts an [Allow] decision for a
    filesystem action, either the decision carries ambient authority (and then the
    danger-full-access backend), or the canonical target lies below the canonical root of
    a grant whose mode permits the access: [write] grants permit everything, a [read]
    grant also permits metadata, and writes need a [write] grant.  [..] and symlinks are
    resolved before the comparison, which is by whole path components. *)
Theorem filesystem_containment k active request decision :
  validate_decision k active request decision = Ok tt ->
  pd_outcome decision = Allow -> is_filesystem_action (er_action request) = true ->
  let o := pd_obligations decision in
  let requested := requested_mode (er_action request) in
  exists target,
    canonical_effect_path (er_resource request) (String.eqb requested "write") = Ok target /\
    ((ob_resource_authority o = Ambient /\ ob_sandbox_backend o = "danger_full_access") \/
     exists grant root suffix,
       grant ∈ ob_filesystem o /\ canonicalize env (fg_root grant) = Ok root /\
       target = (root ++ suffix)%list /\ absolute_policy_root (fg_root grant) = true /\
       (fg_mode grant = "write" \/ (fg_mode grant = requested /\ requested <> "write") \/
        (requested = "metadata" /\ fg_mode grant = "read"))).
Proof.
  intros Hv Hout Hfs. simpl. stage Hv.
  destruct (check_allow_Ok _ _ Hallow Hout) as (Hc & _). specialize (Hc Hfs).
  unfold validate_filesystem_containment in Hc. apply bind_Ok in Hc as (target & Ht & Hc).
  exists target. split; [exact Ht|].
  case_bool_decide as Hamb.
  { left. split; [done|]. by apply check_backend_Ok in Hback as (? & _); auto. }
  right. apply reject_Ok, negb_false_iff, grants_true in Hc
    as (grant & root & Hin & Hm & Hr & Hsw).
  apply path_starts_with_true in Hsw as [suffix Hsuf].
  exists grant, root, suffix. split_and!; try done.
  - unfold check_grants in Hgr. apply try_for_each_Ok in Hgr.
    rewrite Forall_forall in Hgr. specialize (Hgr _ Hin). apply reject_Ok in Hgr. by inv_bool.
  - unfold mode_allowed in Hm. apply orb_true_iff in Hm as [Hm|Hm]; inv_bool; subst; [|auto].
    apply orb_true_iff in Hm as [Hm|Hm]; inv_bool; [by left|].
    destruct (String.eqb_spec (requested_mode (er_action request)) "write") as [Hw|Hw];
      [left; congruence|auto].
Qed.

Lemma canonical_network_origin_Ok resource origin :
  canonical_network_origin resource = Ok origin <->
  exists url, url_parse resource = Ok url /\ url_origin url = origin /\
    (url_scheme url = "http" \/ url_scheme url = "https") /\
    is_Some (url_host_str url) /\ url_username url = "" /\ url_password url = None.
Proof.
  unfold canonical_network_origin. split.
  - intros Hc. inv_ok. apply orb_false_iff in E0 as [E0 Hp].
    apply orb_false_iff in E0 as [E0 Hu]. apply orb_false_iff in E0 as [Hs Hh].
    apply negb_false_iff, is_one_of_true in Hs. apply negb_false_iff, String.eqb_eq in Hu.
    exists x. split_and!; try done.
    + rewrite !elem_of_cons in Hs. destruct Hs as [?|[?|?%elem_of_nil]]; auto; done.
    + by destruct (url_host_str x).
    + by destruct (url_password x).
  - intros (url & -> & <- & Hs & [h Hh] & Hu & Hp). simpl. rewrite Hh, Hu, Hp.
    by destruct Hs as [-> | ->].
Qed.

(** A loopback host is never reached through the public wildcard. *)
Lemma loopback_not_public host : loopback_host host = true -> non_public_host host = true.
Proof.
  unfold loopback_host, non_public_host. intros [Hl|Hl]%orb_true_iff.
  - unfold eq_ignore_ascii_case in Hl. apply String.eqb_eq in Hl.
    destruct (trim_end_matches_cases "." host) as [->|Hlast]; [by rewrite Hl|]. exfalso.
    apply (f_equal (fun s => last (bytes s))) in Hl. unfold to_ascii_lowercase, map_bytes in Hl.
    by rewrite bytes_of_bytes, fmap_last, Hlast in Hl.
  - apply orb_true_iff. right. apply is_some_and_true in Hl as (ip & -> & Hip). simpl.
    by apply loopback_non_public.
Qed.

(** C36. Network containment: when the kernel accepts an [Allow] decision for an
    action that talks to a network endpoint, the resource is an HTTP(S) URL with a host
    and without embedded credentials, and either the decision is ambient under
    danger-full-access, or the URL's origin is listed exactly and plaintext HTTP stays on
    loopback, or the public wildcard is listed, the scheme is HTTPS and the host is not a
    loopback, private, link-local or metadata name or address literal. *)
Theorem network_containment `{!OriginRoundtrip} k active request decision :
  validate_decision k active request decision = Ok tt ->
  pd_outcome decision = Allow ->
  is_one_of (er_action request) network_actions || is_streamable_http_mcp request = true ->
  let o := pd_obligations decision in
  exists url host,
    url_parse (er_resource request) = Ok url /\ url_host_str url = Some host /\
    (url_scheme url = "http" \/ url_scheme url = "https") /\
    url_username url = "" /\ url_password url = None /\
    ((ob_resource_authority o = Ambient /\ ob_sandbox_backend o = "danger_full_access") \/
     (url_origin url ∈ ob_network_destinations o /\
        (url_scheme url = "http" -> loopback_host host = true)) \/
     ("*" ∈ ob_network_destinations o /\ non_public_host host = false /\
        url_scheme url = "https")).
Proof.
  intros Hv Hout Hnet. cbv zeta. stage Hv.
  destruct (check_allow_Ok _ _ Hallow Hout) as (_ & _ & _ & Hc). specialize (Hc Hnet).
  unfold check_transport in Hc. inv_ok.
  apply canonical_network_origin_Ok in E as (url & Hp & <- & Hs & [host Hh] & Hu & Hpw).
  exists url, host. do 5 (split; [done|]).
  destruct (origin_roundtrip _ _ _ Hp Hs Hh) as (u & Hpu & Hsu & Hhu & Huu & Hpwu & Hou).
  unfold http_transport_authority_match in E0. rewrite Hpu in E0. simpl in E0.
  unfold canonical_network_origin in E0. rewrite Hpu in E0. simpl in E0.
  rewrite Hhu, Huu, Hpwu, Hsu, Hou in E0.
  assert (is_one_of (url_scheme url) ["http"; "https"] = true) as Hsc
    by (destruct Hs as [-> | ->]; done).
  rewrite Hsc in E0. simpl in E0.
  destruct (bool_decide (ob_resource_authority (pd_obligations decision) = Ambient)) eqn:Ea.
  { apply bool_decide_eq_true in Ea. left. split; [done|].
    by apply check_backend_Ok in Hback as (? & _); auto. }
  right. rewrite andb_true_r in E0.
  destruct ((url_scheme url =s "http") && negb (loopback_host host)) eqn:Eplain; [done|].
  simpl in E0. unfold network_authority_match, network_destination_match in E0.
  unfold canonical_network_origin in E0. rewrite Hpu in E0. simpl in E0.
  rewrite Hhu, Huu, Hpwu, Hsu, Hou, Ea, Hsc in E0. simpl in E0.
  destruct (is_one_of (url_origin url) _) eqn:El.
  - left. apply is_one_of_true in El. split; [done|]. intros Hhttp.
    rewrite Hhttp in Eplain. simpl in Eplain. by apply negb_false_iff in Eplain.
  - right. destruct (is_one_of "*" _) eqn:Ew; [|inv_ok; simplify_eq/=].
    apply is_one_of_true in Ew. simpl in E0. rewrite Hpu in E0. simpl in E0.
    rewrite Hhu in E0. simpl in E0. destruct (non_public_host host) eqn:Enp; [inv_ok; simplify_eq/=|].
    split_and!; [done..|]. destruct Hs as [Hhttp|?]; [|done]. exfalso.
    rewrite Hhttp in Eplain. simpl in Eplain. apply negb_false_iff in Eplain.
    apply loopback_not_public in Eplain. congruence.
Qed.

Lemma check_boundary_Ok k active request decision :
  check_boundary k active request decision = Ok tt ->
  er_phase request = PreEffect -> pd_outcome decision <> Deny ->
  forall mode, decision_boundary request decision = Some mode ->
  exists gate, sandbox_boundary_gate k = Some gate /\
    gate_mode gate = Some mode /\
    acknowledged active (ctx_session_id (er_context request)) mode gate = true.
Proof.
  intros Hb Hp Hd mode Hm. unfold check_boundary in Hb.
  rewrite (bool_decide_eq_true_2 _ Hp), (bool_decide_eq_false_2 _ Hd), Hm in Hb. simpl in Hb.
  apply bind_Ok in Hb as (gate & Hg & Hv). apply ok_or_Ok in Hg. exists gate.
  split; [done|]. by apply gate_validate_ok in Hv.
Qed.

(** No unsandboxed authority without consent: whenever the kernel accepts
    a pre-effect decision that is not a denial (approvals to come included), ambient
    resource authority and, for process effects, a direct-execution backend imply that
    the runtime has a boundary gate configured for exactly that mode and that this
    request's session, or the running task, acknowledged it.  Ambient authority never
    travels with another backend, and a danger-full-access process effect is always
    ambient. *)
Lemma direct_execution_acknowledged k active request decision :
  validate_decision k active request decision = Ok tt ->
  er_phase request = PreEffect -> pd_outcome decision <> Deny ->
  let o := pd_obligations decision in
  (ob_resource_authority o = Ambient -> ob_sandbox_backend o = "danger_full_access") /\
  (is_process_effect request = true -> ob_sandbox_backend o = "danger_full_access" ->
     ob_resource_authority o = Ambient) /\
  forall mode,
    (ob_resource_authority o = Ambient /\ mode = DangerFullAccess) \/
    (is_process_effect request = true /\ from_backend (ob_sandbox_backend o) = Some mode) ->
    exists gate, sandbox_boundary_gate k = Some gate /\ gate_mode gate = Some mode /\
      acknowledged active (ctx_session_id (er_context request)) mode gate = true.
Proof.
  intros Hv Hp Hd. cbv zeta. stage Hv. apply check_backend_Ok in Hback as (Hamb & Hproc & _).
  split; [done|]. split; [intros Hpe; by apply Hproc|].
  intros mode Hm. apply (check_boundary_Ok _ _ _ _ Hbound Hp Hd). unfold decision_boundary.
  case_bool_decide as Ha.
  - destruct Hm as [[_ ->]|[_ Hb]]; [done|]. by rewrite (Hamb Ha) in Hb.
  - destruct Hm as [[? _]|[Hpe Hb]]; [done|]. by rewrite Hpe.
Qed.

Lemma check_environment_Ok decision :
  check_environment decision = Ok tt ->
  let names := ob_allowed_environment (pd_obligations decision) in
  NoDup names /\ Forall (fun n => valid_environment_name n = true) names.
Proof.
  unfold check_environment. intros Hc. apply bind_Ok in Hc as (seen & Hf & _). cbv zeta.
  assert (forall l seen0 seen1,
    try_fold (fun (seen : list string) name =>
      if negb (valid_environment_name name) || is_one_of name seen then
        Err (Safety "environment obligations must be unique POSIX-style names")
      else Ok (name :: seen)) l seen0 = Ok seen1 ->
    NoDup l /\ Forall (fun n => valid_environment_name n = true) l /\
    forall n, n ∈ l -> n ∉ seen0) as Hl.
  { induction l as [|n l IH]; intros s0 s1; simpl; intros Hs.
    { split_and!; [constructor|constructor|]. intros n Hn. by apply elem_of_nil in Hn. }
    destruct (negb _ || _) eqn:E; [done|]. simpl in Hs. inv_bool.
    destruct (IH _ _ Hs) as (Hnd & Hall & Hout).
    assert (n ∉ s0) as Hn0 by (intros Hin; apply is_one_of_true in Hin; congruence).
    split_and!.
    - constructor; [|done]. intros Hin. apply (Hout _ Hin). by left.
    - by constructor.
    - intros m [->|Hm]%elem_of_cons; [done|]. intros Hin. apply (Hout _ Hm). by right. }
  destruct (Hl _ _ _ Hf) as (? & ? & _). done.
Qed.

Lemma check_environment_complete decision :
  let names := ob_allowed_environment (pd_obligations decision) in
  NoDup names -> Forall (fun n => valid_environment_name n = true) names ->
  check_environment decision = Ok tt.
Proof.
  cbv zeta. unfold check_environment. set (f := fun (seen : list string) name => _).
  assert (forall l seen, NoDup l -> Forall (fun n => valid_environment_name n = true) l ->
    (forall n, n ∈ l -> n ∉ seen) -> exists seen', try_fold f l seen = Ok seen') as Hl.
  { induction l as [|n l IH]; intros seen Hnd Hv Hs; simpl; [by exists seen|].
    apply NoDup_cons in Hnd as [Hn Hnd]. apply Forall_cons in Hv as [Hvn Hv].
    assert (f seen n = Ok (n :: seen)) as ->.
    { unfold f. rewrite Hvn. simpl. destruct (is_one_of n seen) eqn:E; [|done].
      apply is_one_of_true in E. exfalso. apply (Hs n); [by left|done]. }
    simpl. apply IH; auto. intros m Hm [->|Hin]%elem_of_cons; [done|].
    apply (Hs m); [by right|done]. }
  intros Hnd Hv. destruct (Hl _ [] Hnd Hv) as [seen' ->]; [|done].
  intros n _ Hn. by apply elem_of_nil in Hn.
Qed.

Lemma check_protected_Ok decision :
  check_protected decision = Ok tt ->
  let o := pd_obligations decision in
  NoDup (ob_protected_filesystem o) /\
  forall p, p ∈ ob_protected_filesystem o ->
    absolute_policy_root p = true /\
    exists canonical root suffix grant, canonicalize env p = Ok canonical /\
      grant ∈ ob_filesystem o /\ fg_mode grant = "write" /\
      canonicalize env (fg_root grant) = Ok root /\ suffix <> [] /\
      canonical = (root ++ suffix)%list.
Proof.
  unfold check_protected. intros Hc. apply bind_Ok in Hc as (seen & Hf & _). cbv zeta.
  assert (forall l seen0 seen1, try_fold (check_protected_path decision) l seen0 = Ok seen1 ->
    NoDup l /\ (forall p, p ∈ l -> (p ∉ seen0) /\ absolute_policy_root p = true /\
      exists canonical root suffix grant, canonicalize env p = Ok canonical /\
      grant ∈ ob_filesystem (pd_obligations decision) /\ fg_mode grant = "write" /\
      canonicalize env (fg_root grant) = Ok root /\ suffix <> [] /\
      canonical = (root ++ suffix)%list)) as Hl.
  { induction l as [|p l IH]; intros s0 s1; simpl; intros Hs.
    { split; [constructor|]. intros p Hp. by apply elem_of_nil in Hp. }
    apply bind_Ok in Hs as (s' & Hp & Hs). unfold check_protected_path in Hp. inv_ok.
    apply orb_false_iff in E as [Habs Hseen]. apply negb_false_iff in Habs.
    destruct (IH _ _ Hs) as (Hnd & Hall). split.
    - constructor; [|done]. intros Hin. destruct (Hall _ Hin) as [Hnin _]. apply Hnin. by left.
    - intros q [->|Hq]%elem_of_cons.
      + split; [intros Hin; apply is_one_of_true in Hin; congruence|]. split; [done|].
        apply negb_false_iff, grants_true in E1 as (grant & root & Hin & Hm & Hr & Hsw).
        apply andb_true_iff in Hsw as [Hsw Hne]. apply negb_true_iff, bool_decide_eq_false in Hne.
        apply path_starts_with_true in Hsw as [suffix ->].
        apply String.eqb_eq in Hm. exists (root ++ suffix)%list, root, suffix, grant.
        split_and!; auto. intros ->. by rewrite app_nil_r in Hne.
      + destruct (Hall _ Hq) as (Hnin & ?). split; [|done]. intros Hin. apply Hnin. by right. }
  destruct (Hl _ _ _ Hf) as (? & Hall). split; [done|]. intros p Hp. by apply Hall.
Qed.

(** Well-formedness of accepted obligations, whatever the outcome: every
    ceiling (time, output, processes, memory, concurrency) is positive; the environment
    names are valid and pairwise distinct; every destination is the wildcard or a URL
    equal to its own canonical origin; every grant has an absolute root and a known mode;
    and the protected paths are pairwise distinct, exist, and lie strictly below a
    writable grant, so protection always restricts an authority that was granted. *)
Lemma accepted_obligations_well_formed k active request decision :
  validate_decision k active request decision = Ok tt ->
  let o := pd_obligations decision in
  (0 < ob_timeout_ms o /\ 0 < ob_max_output_bytes o /\ 0 < ob_max_processes o /\
   0 < ob_max_memory_bytes o /\ 0 < ob_max_concurrency o)%N /\
  NoDup (ob_allowed_environment o) /\
  Forall (fun n => valid_environment_name n = true) (ob_allowed_environment o) /\
  Forall (fun d => d = "*" \/ canonical_network_origin d = Ok d) (ob_network_destinations o) /\
  Forall (fun g => absolute_policy_root (fg_root g) = true /\
     fg_mode g ∈ ["read"; "write"; "metadata"; "execute"]) (ob_filesystem o) /\
  NoDup (ob_protected_filesystem o) /\
  forall p, p ∈ ob_protected_filesystem o ->
    exists canonical root suffix grant, canonicalize env p = Ok canonical /\
      grant ∈ ob_filesystem o /\ fg_mode grant = "write" /\
      canonicalize env (fg_root grant) = Ok root /\ suffix <> [] /\
      canonical = (root ++ suffix)%list.
Proof.
  intros Hv. cbv zeta. stage Hv. split.
  { apply reject_Ok in Hreq. repeat apply orb_false_iff in Hreq as [Hreq ?].
    repeat match goal with H : (_ =? 0)%N = false |- _ => apply N.eqb_neq in H end. lia. }
  apply check_environment_Ok in Henv as [? ?]. do 2 (split; [done|]). split.
  { apply try_for_each_Ok in Hdest. eapply Forall_impl; [exact Hdest|]. intros d Hd.
    simpl in Hd. destruct (String.eqb_spec d "*"); [by left|right]. inv_ok. by inv_bool; subst. }
  split.
  { apply try_for_each_Ok in Hgr. eapply Forall_impl; [exact Hgr|]. intros g Hg.
    simpl in Hg. apply reject_Ok, orb_false_iff in Hg as [Ha Hm].
    apply negb_false_iff in Ha. by apply negb_false_iff, is_one_of_true in Hm. }
  apply check_protected_Ok in Hprot as [? Hp]. split; [done|]. intros p Hin. by apply Hp.
Qed.

(** C35. Process containment: when the kernel accepts an [Allow] decision for a
    process effect, then unless the backend is a direct one the canonical working
    directory lies below a readable or writable grant; unless it is danger-full-access
    every environment variable handed over is in the allowed list; the executable is
    itself granted (by its canonical path, or literally and in normal form for OCI); the
    broker runs it only under an explicit downgrade; and OCI and Windows jobs have the
    time their clean-up needs. *)
Theorem process_containment k active request decision :
  validate_decision k active request decision = Ok tt ->
  pd_outcome decision = Allow -> er_phase request = PreEffect ->
  is_process_effect request = true ->
  let o := pd_obligations decision in
  let b := ob_sandbox_backend o in
  (exists cwd p, get_str "cwd" (er_content request) = Some cwd /\
     canonicalize env cwd = Ok p /\
     (from_backend b = None -> exists grant root suffix, grant ∈ ob_filesystem o /\
        fg_mode grant ∈ ["read"; "write"] /\ canonicalize env (fg_root grant) = Ok root /\
        p = (root ++ suffix)%list)) /\
  (exists vars, get "environment" (er_content request) = Some (Object vars) /\
     (b <> "danger_full_access" -> forall n, n ∈ keys vars -> n ∈ ob_allowed_environment o)) /\
  (b <> "danger_full_access" -> b <> "oci" -> exists grant p, grant ∈ ob_filesystem o /\
     fg_mode grant = "execute" /\ canonicalize env (er_resource request) = Ok p /\
     canonicalize env (fg_root grant) = Ok p) /\
  (b = "oci" -> normalized_absolute_path (er_resource request) = true /\
     mkFilesystemGrant (er_resource request) "execute" ∈ ob_filesystem o /\
     (5000 <= ob_timeout_ms o)%N /\
     (ob_network_destinations o <> [] -> (10000 <= ob_timeout_ms o)%N)) /\
  (b = "broker" -> ob_allow_sandbox_downgrade o = true) /\
  (b = "windows_job" -> target_windows env = true /\ (10000 <= ob_timeout_ms o)%N).
Proof.
  intros Hv Hout Hp Hpe. cbv zeta. stage Hv.
  destruct (check_allow_Ok _ _ Hallow Hout) as (_ & _ & Hc & _). specialize (Hc Hp Hpe).
  apply check_backend_Ok in Hback as (_ & Hbr & _). specialize (Hbr Hpe) as [_ Hbr].
  unfold validate_process_obligations in Hc.
  apply bind_Ok in Hc as (allowed & Hexe & Hc). apply bind_Ok in Hc as ([] & Hal & Hc).
  apply bind_Ok in Hc as (cwd & Hcwd & Hc). apply bind_Ok in Hc as (p & Hcp & Hc).
  apply bind_Ok in Hc as ([] & Hin & Hc). apply bind_Ok in Hc as (vars & Hvars & Hc).
  apply reject_Ok, negb_false_iff in Hal as ->. apply reject_Ok in Hin.
  apply ok_or_Ok in Hcwd, Hvars. unfold check_platform in Hplat. rewrite Hpe in Hplat.
  apply bind_Ok in Hplat as ([] & Hw1 & Hplat). apply bind_Ok in Hplat as ([] & Hw2 & Hplat).
  apply bind_Ok in Hplat as ([] & _ & Hplat). apply bind_Ok in Hplat as ([] & Ho1 & Ho2).
  apply reject_Ok in Hw1, Hw2, Ho1, Ho2.
  split_and!.
  - unfold canonical_effect_path in Hcp. destruct (canonicalize env cwd) as [p'|] eqn:Ec; [|done].
    injection Hcp as ->. exists cwd, p. do 2 (split; [done|]). intros Hnone. rewrite Hnone in Hin.
    simpl in Hin. apply negb_false_iff, grants_true in Hin as (g & root & Hg & Hm & Hr & Hsw).
    apply path_starts_with_true in Hsw as [suffix ->]. apply is_one_of_true in Hm.
    by exists g, root, suffix.
  - destruct (get "environment" _) as [[]|]; try done. simpl in Hvars. injection Hvars as ->.
    exists vars. split; [done|]. intros Hb n Hn. apply try_for_each_Ok in Hc.
    rewrite Forall_forall in Hc. specialize (Hc _ Hn). apply reject_Ok in Hc.
    apply String.eqb_neq in Hb. simpl in Hc. rewrite Hb in Hc. simpl in Hc.
    by apply negb_false_iff, is_one_of_true in Hc.
  - intros Hd Ho. unfold executable_allowed in Hexe. apply String.eqb_neq in Hd, Ho.
    simpl in Hexe. rewrite Hd, Ho in Hexe. unfold canonical_effect_path in Hexe.
    destruct (canonicalize env (er_resource request)) as [e|] eqn:Ec; [|done]. simpl in Hexe.
    injection Hexe as Hexe. apply grants_true in Hexe as (g & root & Hg & Hm & Hr & Heq).
    apply bool_decide_eq_true in Heq as <-. apply String.eqb_eq in Hm. by exists g, e.
  - intros Ho. unfold executable_allowed in Hexe. rewrite Ho in *. simpl in *.
    injection Hexe as Hexe. apply andb_true_iff in Hexe as [Hn Hexe].
    apply existsb_elem in Hexe as ([r m] & Hg & Hm). simpl in Hm.
    apply andb_true_iff in Hm as [->%String.eqb_eq Hr%String.eqb_eq]. subst r.
    split_and!; [done|done| |].
    + by apply N.ltb_ge.
    + intros Hnet. rewrite (bool_decide_eq_false_2 _ Hnet) in Ho2. by apply N.ltb_ge.
  - done.
  - intros Hw. rewrite Hw in Hw1, Hw2. simpl in Hw1, Hw2.
    split; [by apply negb_false_iff|by apply N.ltb_ge].
Qed.

(** What leaves for policy: preparation succeeds only for schema version 1,
    non-empty identifiers and known capabilities; it changes nothing of the request but
    its content, which for requests without declared tool schemas is exactly the redacted
    content (no literal below a secret-named key survives); the result is within the
    disclosure limit of its phase and action; and the projection handed to the policy
    engine replaces the task intent by its digest and nothing else. *)
Lemma prepared_request_disclosable k request prepared projected :
  prepare k request = Ok prepared ->
  policy_projection k prepared = Ok projected ->
  prepared = with_content (er_content prepared) request /\
  er_schema_version request = 1%N /\ er_request_id request <> "" /\
  (forall c, c ∈ er_capabilities request -> c ∈ known_capabilities k) /\
  (schema_paths request = [] ->
     er_content prepared = redact_hard_secrets (er_content request) /\
     disclosable_root (er_content projected)) /\
  (exists b, to_vec_request projected = Ok b /\ (slen b <= policy_limit k projected)%N) /\
  er_command_intent projected =
    (fun i => mkCommandIntent ("sha256:" ++ sha256_hex (justification i)))
      <$> er_command_intent request /\
  with_command_intent (er_command_intent request) projected = prepared.
Proof.
  intros Hp Hq. unfold prepare in Hp.
  apply bind_Ok in Hp as ([] & Hids & Hp). apply bind_Ok in Hp as ([] & _ & Hp).
  apply bind_Ok in Hp as ([] & Hcaps & Hp). apply bind_Ok in Hp as ([] & _ & Hp).
  apply bind_Ok in Hp as (p & Hred & Hp). apply bind_Ok in Hp as ([] & _ & Hp).
  injection Hp as ->. unfold policy_projection in Hq. apply bind_Ok in Hq as ([] & Hsize & Hq).
  injection Hq as <-.
  apply reject_Ok, orb_false_iff in Hids as [Hver Hid]. apply negb_false_iff, N.eqb_eq in Hver.
  assert (exists c, prepared = with_content c request /\
    (schema_paths request = [] -> c = redact_hard_secrets (er_content request)))
    as (c & -> & Hc).
  { unfold redact_request_content in Hred. apply bind_Ok in Hred as ([c0 ss] & Hd & Hred).
    apply bind_Ok in Hred as (c & Hr & Hred). injection Hred as <-. exists c. split; [done|].
    intros Hs. rewrite Hs in Hd. injection Hd as <- <-. by injection Hr. }
  unfold validate_policy_input_size in Hsize. apply bind_Ok in Hsize as (b & Hb & Hlim).
  apply map_err_Ok in Hb. apply reject_Ok, N.ltb_ge in Hlim.
  split_and!; try done.
  - by apply String.eqb_neq in Hid.
  - intros cap Hcap. apply try_for_each_Ok in Hcaps. rewrite Forall_forall in Hcaps.
    specialize (Hcaps _ Hcap). apply reject_Ok in Hcaps. by inv_bool.
  - intros Hs. rewrite <- (Hc Hs). split; [done|]. unfold project_intent. simpl.
    destruct (er_command_intent request); simpl; rewrite (Hc Hs);
      apply redact_hard_secrets_root.
  - eauto.
  - by destruct request as [???????? [] ?????].
  - by destruct request as [???????? [] ?????].
Qed.

End Kernel.

(** ** Concrete instances, for the witnesses *)

Definition test_obligations (backend : string) (authority : ResourceAuthority) : PolicyObligations :=
  mkPolicyObligations backend "offline-default" authority
    [mkFilesystemGrant "/bin/curl" "execute"; mkFilesystemGrant "/work" "write"]
    ["/work/.git"] ["*"; "https://example.org"] ["HOME"; "PATH"] false 900000 4194304 1 1073741824 1
    [] true ∅ "standard".
Definition test_decision (outcome : DecisionOutcome) (o : PolicyObligations) : PolicyDecision :=
  mkPolicyDecision "d1" "rev1" outcome "ok" o.
Definition test_kernel : SafetyKernel :=
  with_sandbox_boundary_gate (mkGate (Some DangerFullAccess) false {["s1"]} ∅)
    (kernel_new ["fs"]).
Definition test_request (action resource : string) (content : value) : EffectRequest :=
  mkEffectRequest 1 "r1" (mkActor Model "m") action resource ["fs"]
    (mkRiskInput Unavailable None None) content None [] test_context None PreEffect None.
Definition test_validate (request : EffectRequest) (decision : PolicyDecision)
    : result GatewayError unit :=
  validate_decision (H:=test_externals) test_host test_kernel None request decision.

Lemma filesystem_containment_witness :
  let request := test_request "filesystem.write" "/work/a.txt" Null in
  let decision := test_decision Allow (test_obligations "native" Declared) in
  test_validate request decision = Ok tt /\
  exists target, canonical_effect_path test_host "/work/a.txt" true = Ok target.
Proof.
  intros request decision. split; [vm_compute; reflexivity|].
  destruct (filesystem_containment (H:=test_externals) test_host test_kernel None request decision)
    as (target & Ht & _); [vm_compute; reflexivity|reflexivity|reflexivity|].
  exists target. exact Ht.
Defined.

Lemma network_containment_witness :
  let request := test_request "network.http" "https://example.org" Null in
  let decision := test_decision Allow (test_obligations "native" Declared) in
  test_validate request decision = Ok tt /\
  exists url host, url_parse (Externals:=test_externals) "https://example.org" = Ok url /\
    url_host_str url = Some host.
Proof.
  intros request decision. split; [vm_compute; reflexivity|].
  destruct (network_containment (H:=test_externals) test_host test_kernel None request decision)
    as (url & host & Hu & Hh & _); [vm_compute; reflexivity|reflexivity|reflexivity|].
  exists url, host. split; [exact Hu|exact Hh].
Defined.

Definition test_process : EffectRequest :=
  test_request "process.spawn" "/bin/curl"
    (Object [("cwd", Str "/work/sub"); ("environment", Object [("HOME", Str "/home")])]).

Lemma direct_execution_acknowledged_witness :
  let decision := test_decision RequireApproval (test_obligations "danger_full_access" Ambient) in
  test_validate test_process decision = Ok tt /\
  exists gate, sandbox_boundary_gate test_kernel = Some gate /\
    gate_mode gate = Some DangerFullAccess /\
    acknowledged None (Some "s1") DangerFullAccess gate = true.
Proof.
  intros decision. split; [vm_compute; reflexivity|].
  destruct (direct_execution_acknowledged (H:=test_externals) test_host test_kernel None
    test_process decision) as (_ & _ & Hgate);
    [vm_compute; reflexivity|reflexivity|discriminate|].
  apply Hgate. left. split; reflexivity.
Defined.

Lemma accepted_obligations_well_formed_witness :
  let decision := test_decision Deny (test_obligations "native" Declared) in
  test_validate test_process decision = Ok tt /\ (0 < 900000)%N.
Proof.
  intros decision. split; [vm_compute; reflexivity|].
  destruct (accepted_obligations_well_formed (H:=test_externals) test_host test_kernel None
    test_process decision) as ((Ht & _) & _); [vm_compute; reflexivity|exact Ht].
Defined.

Lemma process_containment_witness :
  let decision := test_decision Allow (test_obligations "native" Declared) in
  test_validate test_process decision = Ok tt /\
  exists vars, get "environment" (er_content test_process) = Some (Object vars).
Proof.
  intros decision. split; [vm_compute; reflexivity|].
  destruct (process_containment (H:=test_externals) test_host test_kernel None test_process decision)
    as (_ & (vars & Hv & _) & _); [vm_compute; reflexivity|reflexivity|reflexivity|reflexivity|].
  exists vars. exact Hv.
Defined.

Lemma prepared_request_disclosable_witness :
  let request := test_request "filesystem.read" "/work/a" (Object [("password", Str "hunter2")]) in
  exists prepared projected,
    prepare (H:=test_externals) (H0:=test_display) test_kernel request = Ok prepared /\
    policy_projection (H:=test_externals) test_kernel prepared = Ok projected /\
    with_command_intent None projected = prepared.
Proof.
  intros request. eexists _, _. split; [vm_compute; reflexivity|].
  split; [vm_compute; reflexivity|].
  eapply (prepared_request_disclosable (H:=test_externals) (H0:=test_display) test_kernel request);
    vm_compute; reflexivity.
Defined.
