(* ===== verification/Builtin.v ===== *)
(** * The built-in policy

    [crates/colossus-policy/src/builtin.rs]: the offline policy decision point.  Its
    builder methods are the operations [with_*]; [decide] is the policy decision, with
    the fresh decision identifier ([Uuid::now_v7]) as an argument. *)

From S2P Require Import Prelude Json Contracts Network Boundary Platform Redaction.
From S2P Require Import CommandApproval SchemaDisclosure Kernel.

Open Scope string_scope.

Definition DEFAULT_MAX_OUTPUT_BYTES : N := 4 * 1024 * 1024.
Definition DEFAULT_MAX_MEMORY_BYTES : N := 1024 * 1024 * 1024.

Definition default_obligations : PolicyObligations :=
  mkPolicyObligations "broker" "offline-default" Declared [] [] [] [] false
    DEFAULT_SANDBOX_TIMEOUT_MS DEFAULT_MAX_OUTPUT_BYTES 1 DEFAULT_MAX_MEMORY_BYTES 1 []
    false ∅ "standard".

(** ** State *)

Record WorkspaceDevelopmentObligations := mkWorkspaceDevelopment {
  wd_filesystem : list FilesystemGrant;
  wd_protected_filesystem : list string;
  wd_allowed_environment : list string;
}.

Record BuiltInPolicy := mkBuiltInPolicy {
  bp_revision : string;
  bp_actions : gmap string DecisionOutcome;
  bp_obligations : PolicyObligations;
  bp_action_obligations : gmap string PolicyObligations;
  bp_workspace_development : option WorkspaceDevelopmentObligations;
}.

Definition offline_default : BuiltInPolicy :=
  mkBuiltInPolicy "builtin/offline-v1" {["provider.echo" := Allow]} default_obligations ∅ None.

(** ** Updates of one obligation *)

Definition set_resources (fs : list FilesystemGrant) (protected env : list string)
    (net : list string) (o : PolicyObligations) : PolicyObligations :=
  mkPolicyObligations (ob_sandbox_backend o) (ob_sandbox_profile o) (ob_resource_authority o)
    fs protected net env (ob_allow_sandbox_downgrade o) (ob_timeout_ms o)
    (ob_max_output_bytes o) (ob_max_processes o) (ob_max_memory_bytes o)
    (ob_max_concurrency o) (ob_required_redactions o) (ob_require_post_effect o)
    (ob_audit_labels o) (ob_retention o).
Definition set_filesystem fs o :=
  set_resources fs (ob_protected_filesystem o) (ob_allowed_environment o)
    (ob_network_destinations o) o.
Definition set_environment env o :=
  set_resources (ob_filesystem o) (ob_protected_filesystem o) env (ob_network_destinations o) o.
Definition set_network net o :=
  set_resources (ob_filesystem o) (ob_protected_filesystem o) (ob_allowed_environment o) net o.
Definition set_post_effect (b : bool) (o : PolicyObligations) : PolicyObligations :=
  mkPolicyObligations (ob_sandbox_backend o) (ob_sandbox_profile o) (ob_resource_authority o)
    (ob_filesystem o) (ob_protected_filesystem o) (ob_network_destinations o)
    (ob_allowed_environment o) (ob_allow_sandbox_downgrade o) (ob_timeout_ms o)
    (ob_max_output_bytes o) (ob_max_processes o) (ob_max_memory_bytes o)
    (ob_max_concurrency o) (ob_required_redactions o) b (ob_audit_labels o) (ob_retention o).
Definition set_sandbox (backend profile : string) (downgrade : bool) (o : PolicyObligations)
    : PolicyObligations :=
  mkPolicyObligations backend profile (ob_resource_authority o)
    (ob_filesystem o) (ob_protected_filesystem o) (ob_network_destinations o)
    (ob_allowed_environment o) downgrade (ob_timeout_ms o)
    (ob_max_output_bytes o) (ob_max_processes o) (ob_max_memory_bytes o)
    (ob_max_concurrency o) (ob_required_redactions o) (ob_require_post_effect o)
    (ob_audit_labels o) (ob_retention o).
Definition set_authority (a : ResourceAuthority) (labels : gmap string string)
    (o : PolicyObligations) : PolicyObligations :=
  mkPolicyObligations (ob_sandbox_backend o) (ob_sandbox_profile o) a
    (ob_filesystem o) (ob_protected_filesystem o) (ob_network_destinations o)
    (ob_allowed_environment o) (ob_allow_sandbox_downgrade o) (ob_timeout_ms o)
    (ob_max_output_bytes o) (ob_max_processes o) (ob_max_memory_bytes o)
    (ob_max_concurrency o) (ob_required_redactions o) (ob_require_post_effect o)
    labels (ob_retention o).
Definition set_limits (timeout output processes memory concurrency : N)
    (o : PolicyObligations) : PolicyObligations :=
  mkPolicyObligations (ob_sandbox_backend o) (ob_sandbox_profile o) (ob_resource_authority o)
    (ob_filesystem o) (ob_protected_filesystem o) (ob_network_destinations o)
    (ob_allowed_environment o) (ob_allow_sandbox_downgrade o) timeout output processes memory
    concurrency (ob_required_redactions o) (ob_require_post_effect o)
    (ob_audit_labels o) (ob_retention o).

(** ** Builder *)

Definition map_obligations (f : PolicyObligations -> PolicyObligations) (p : BuiltInPolicy)
    : BuiltInPolicy :=
  mkBuiltInPolicy (bp_revision p) (bp_actions p) (f (bp_obligations p))
    (bp_action_obligations p) (bp_workspace_development p).

Definition with_action (action : string) (outcome : DecisionOutcome) (p : BuiltInPolicy)
    : BuiltInPolicy :=
  mkBuiltInPolicy (bp_revision p) (<[action := outcome]> (bp_actions p)) (bp_obligations p)
    (bp_action_obligations p) (bp_workspace_development p).
Definition with_post_effect (required : bool) : BuiltInPolicy -> BuiltInPolicy :=
  map_obligations (set_post_effect required).
Definition with_filesystem_root (root mode : string) : BuiltInPolicy -> BuiltInPolicy :=
  map_obligations (fun o =>
    set_filesystem (ob_filesystem o ++ [mkFilesystemGrant root mode])%list o).
Definition with_filesystem_read_root (root : string) : BuiltInPolicy -> BuiltInPolicy :=
  with_filesystem_root root "read".
Definition with_sandbox (backend profile : string) (allow_downgrade : bool)
    : BuiltInPolicy -> BuiltInPolicy :=
  map_obligations (set_sandbox backend profile allow_downgrade).
Definition with_resource_authority (authority : ResourceAuthority)
    : BuiltInPolicy -> BuiltInPolicy :=
  map_obligations (fun o => set_authority authority
    (match authority with
     | Declared => delete "resource_authority" (ob_audit_labels o)
     | Ambient => <["resource_authority" := "ambient"]> (ob_audit_labels o)
     end) o).
Definition with_environment (name : string) : BuiltInPolicy -> BuiltInPolicy :=
  map_obligations (fun o => set_environment (ob_allowed_environment o ++ [name])%list o).
Definition with_workspace_development (fs : list FilesystemGrant)
    (protected env : list string) (p : BuiltInPolicy) : BuiltInPolicy :=
  mkBuiltInPolicy (bp_revision p) (bp_actions p) (bp_obligations p) (bp_action_obligations p)
    (Some (mkWorkspaceDevelopment fs protected env)).
Definition with_network_destination (origin : string) : BuiltInPolicy -> BuiltInPolicy :=
  map_obligations (fun o => set_network (ob_network_destinations o ++ [origin])%list o).
Definition with_limits (timeout output processes memory concurrency : N)
    : BuiltInPolicy -> BuiltInPolicy :=
  map_obligations (set_limits timeout output processes memory concurrency).

Definition set_action_obligations (action : string) (o : PolicyObligations)
    (p : BuiltInPolicy) : BuiltInPolicy :=
  mkBuiltInPolicy (bp_revision p) (bp_actions p) (bp_obligations p)
    (<[action := o]> (bp_action_obligations p)) (bp_workspace_development p).

Definition with_action_restrictions (action : string) (fs : list FilesystemGrant)
    (env net : list string) (p : BuiltInPolicy) : BuiltInPolicy :=
  let o := bp_obligations p in
  let o := set_authority Declared (delete "resource_authority" (ob_audit_labels o)) o in
  set_action_obligations action
    (set_resources fs (ob_protected_filesystem o) env net o) p.

(** [action_obligations.entry(action).or_insert_with(..)]. *)
Definition action_entry (action : string) (p : BuiltInPolicy) : PolicyObligations :=
  default (bp_obligations p) (bp_action_obligations p !! action).
Definition with_action_timeout (action : string) (timeout_ms : N) (p : BuiltInPolicy)
    : BuiltInPolicy :=
  let o := action_entry action p in
  set_action_obligations action (set_limits timeout_ms (ob_max_output_bytes o)
    (ob_max_processes o) (ob_max_memory_bytes o) (ob_max_concurrency o) o) p.
Definition with_action_max_output_bytes (action : string) (max : N) (p : BuiltInPolicy)
    : BuiltInPolicy :=
  let o := action_entry action p in
  set_action_obligations action (set_limits (ob_timeout_ms o) max
    (ob_max_processes o) (ob_max_memory_bytes o) (ob_max_concurrency o) o) p.

(** ** Decision *)

Definition default_outcome (action : string) : DecisionOutcome :=
  if starts_with action "openapi." || starts_with action "github."
     || starts_with action "searxng." || is_one_of action ["web.search"; "mcp.call"]
  then RequireApproval else Deny.

(** The outcome, with an approval or the post-effect phase satisfying [RequireApproval]. *)
Definition decide_outcome (p : BuiltInPolicy) (request : EffectRequest) : DecisionOutcome :=
  let outcome := default (default_outcome (er_action request))
                   (bp_actions p !! er_action request) in
  if bool_decide (outcome = RequireApproval)
     && (is_some (er_approval request) || bool_decide (er_phase request = PostEffect))
  then Allow else outcome.

Definition inherits_workspace_development (request : EffectRequest) : bool :=
  (match actor_type (er_actor request) with
   | User | Model | Subagent => true
   | _ => false
   end)
  && is_none (ctx_workflow_id (er_context request))
  && is_none (ctx_workflow_hash (er_context request)).

(** Grants in order of root, then mode. *)
Definition grant_le (a b : FilesystemGrant) : Prop :=
  fg_root a <> fg_root b /\ String.le (fg_root a) (fg_root b)
  \/ fg_root a = fg_root b /\ String.le (fg_mode a) (fg_mode b).
#[export] Instance grant_le_dec : RelDecision grant_le.
Proof. intros a b. unfold grant_le. apply _. Defined.
Definition grant_eqb (a b : FilesystemGrant) : bool :=
  String.eqb (fg_root a) (fg_root b) && String.eqb (fg_mode a) (fg_mode b).

Definition extend_development (d : WorkspaceDevelopmentObligations) (o : PolicyObligations)
    : PolicyObligations :=
  set_resources
    (dedup_by grant_eqb (merge_sort grant_le (ob_filesystem o ++ wd_filesystem d)%list))
    (sort_dedup (ob_protected_filesystem o ++ wd_protected_filesystem d)%list)
    (ob_allowed_environment o ++ wd_allowed_environment d)%list
    (ob_network_destinations o) o.

Definition SHELL_ENVIRONMENT : list string := ["HOME"; "PATH"; "TEMP"; "TMP"; "TMPDIR"].

(** Actions whose results always cross post-effect policy. *)
Definition post_effect_prefixes : list string :=
  ["task."; "decision."; "plan."; "goal."; "subagent."; "agent.message."; "memory.";
   "plugin."; "research."; "integration."; "openapi."; "github."; "searxng."; "mcp.";
   "bundle."; "browser."; "computer."].
Definition post_effect_action (action : string) : bool :=
  starts_with action "filesystem." || is_process_action action
  || is_one_of action ["provider.openai.responses"; "provider.openai.codex";
       "provider.openai.chat"; "provider.anthropic.messages"; "provider.models"]
  || existsb (starts_with action) post_effect_prefixes
  || is_one_of action ["network.http"; "web.search"; "audit.export.worm.write"].

Definition decide_obligations (p : BuiltInPolicy) (request : EffectRequest)
    : PolicyObligations :=
  let action := er_action request in
  let o := action_entry action p in
  let o := if String.eqb action "shell.run"
           then set_environment (ob_allowed_environment o ++ SHELL_ENVIRONMENT)%list o else o in
  let o := match bp_workspace_development p with
           | Some d => if inherits_workspace_development request
                       then extend_development d o else o
           | None => o
           end in
  let o := set_environment (sort_dedup (ob_allowed_environment o)) o in
  if post_effect_action action then set_post_effect true o else o.

Definition outcome_reason (outcome : DecisionOutcome) : string :=
  match outcome with
  | Allow => "allowed by explicit built-in rule"
  | Deny => "denied by built-in default"
  | RequireApproval => "explicit operator approval required"
  end.

(** [PolicyDecisionPoint::decide] for [BuiltInPolicy]: it never fails. *)
Definition builtin_decide (p : BuiltInPolicy) (decision_id : string) (request : EffectRequest)
    : result PolicyError PolicyDecision :=
  let outcome := decide_outcome p request in
  Ok (mkPolicyDecision decision_id (bp_revision p) outcome (outcome_reason outcome)
        (decide_obligations p request)).

(** ** Properties *)

(** The builder methods, as steps on the policy under construction. *)
Inductive builder_step (p : BuiltInPolicy) : BuiltInPolicy -> Prop :=
| b_action a o : builder_step p (with_action a o p)
| b_post_effect b : builder_step p (with_post_effect b p)
| b_root r m : builder_step p (with_filesystem_root r m p)
| b_sandbox b pr d : builder_step p (with_sandbox b pr d p)
| b_authority a : builder_step p (with_resource_authority a p)
| b_environment n : builder_step p (with_environment n p)
| b_development fs pr env : builder_step p (with_workspace_development fs pr env p)
| b_network n : builder_step p (with_network_destination n p)
| b_limits t o n m c : builder_step p (with_limits t o n m c p)
| b_restrict a fs env net : builder_step p (with_action_restrictions a fs env net p)
| b_timeout a t : builder_step p (with_action_timeout a t p)
| b_output a n : builder_step p (with_action_max_output_bytes a n p).

(** The built-in policy denies by default: it always answers, and it
    allows a request exactly when its action is configured as allowed, or the action needs
    approval (by configuration, or by the built-in default for integrations, web search
    and MCP calls) and the request carries an approval or asks for release; an
    unconfigured action outside that default is denied whatever it carries.  A fresh
    offline policy therefore allows nothing before approval except the echo provider. *)
Lemma builtin_denies_by_default p decision_id request :
  exists d, builtin_decide p decision_id request = Ok d /\
  (pd_outcome d = Allow <->
     bp_actions p !! er_action request = Some Allow \/
     ((bp_actions p !! er_action request = Some RequireApproval \/
       bp_actions p !! er_action request = None /\
         default_outcome (er_action request) = RequireApproval) /\
      (is_Some (er_approval request) \/ er_phase request = PostEffect))) /\
  (bp_actions p !! er_action request = None ->
     default_outcome (er_action request) = Deny -> pd_outcome d = Deny) /\
  (p = offline_default -> er_phase request = PreEffect -> er_approval request = None ->
     pd_outcome d = Allow -> er_action request = "provider.echo").
Proof.
  eexists. split; [reflexivity|]. simpl. unfold decide_outcome.
  assert (forall o : option ApprovalProof, is_some o = true <-> is_Some o) as Hs.
  { intros [?|]; split; intros Hs; [by eexists|done|done|by destruct Hs]. }
  assert (default_outcome (er_action request) <> Allow) as Hna
    by (unfold default_outcome; by destruct (_ || _)).
  set (o := bp_actions p !! er_action request).
  split; [|split].
  - destruct (is_some (er_approval request) || bool_decide (er_phase request = PostEffect)) eqn:E.
    + rewrite andb_true_r.
      assert (is_Some (er_approval request) \/ er_phase request = PostEffect) as Hc.
      { apply orb_true_iff in E as [?%Hs|?%bool_decide_eq_true]; auto. }
      clearbody o. clear E. case_bool_decide as Hr; destruct o as [[]|]; simpl in *; naive_solver.
    + rewrite andb_false_r.
      assert (~ (is_Some (er_approval request) \/ er_phase request = PostEffect)) as Hc.
      { apply orb_false_iff in E as [E1 E2]. apply bool_decide_eq_false in E2.
        rewrite <- Hs. intros [?|?]; congruence. }
      clearbody o. clear E. destruct o as [[]|]; simpl in *; naive_solver.
  - by intros -> ->.
  - intros -> Hp Ha. subst o. rewrite Hp, Ha. simpl.
    rewrite andb_false_r. destruct (decide (er_action request = "provider.echo")) as [|Hne]; [done|].
    rewrite lookup_singleton_ne by done. simpl. unfold default_outcome.
    by destruct (_ || _).
Qed.

Lemma dedup_by_subset {A} (f : A -> A -> bool) l x : x ∈ dedup_by f l -> x ∈ l.
Proof.
  induction l as [|a l IH]; simpl; [done|]. destruct (dedup_by f l) as [|b r].
  - by intros [->|?%elem_of_nil]%elem_of_cons; [left|].
  - rewrite elem_of_cons in *. destruct (f a b); rewrite !elem_of_cons; intuition.
Qed.

(** What [decide] takes from the configured obligations of an action. *)
Lemma decide_obligations_spec p request :
  let o := action_entry (er_action request) p in
  let o' := decide_obligations p request in
  ob_resource_authority o' = ob_resource_authority o /\
  ob_audit_labels o' = ob_audit_labels o /\
  ob_network_destinations o' = ob_network_destinations o /\
  (forall g, g ∈ ob_filesystem o' -> g ∈ ob_filesystem o \/
     exists d, bp_workspace_development p = Some d /\
       inherits_workspace_development request = true /\ g ∈ wd_filesystem d) /\
  (forall n, n ∈ ob_allowed_environment o' -> n ∈ ob_allowed_environment o \/
     er_action request = "shell.run" /\ n ∈ SHELL_ENVIRONMENT \/
     exists d, bp_workspace_development p = Some d /\
       inherits_workspace_development request = true /\ n ∈ wd_allowed_environment d) /\
  NoDup (ob_allowed_environment o') /\
  (NoDup (ob_protected_filesystem o) -> NoDup (ob_protected_filesystem o')).
Proof.
  cbv zeta. unfold decide_obligations.
  set (o := action_entry (er_action request) p).
  set (o1 := if String.eqb (er_action request) "shell.run" then _ else _).
  set (o2 := match bp_workspace_development p with Some d => _ | None => o1 end).
  assert (forall n, n ∈ ob_allowed_environment o1 -> n ∈ ob_allowed_environment o \/
    er_action request = "shell.run" /\ n ∈ SHELL_ENVIRONMENT) as He1.
  { intros n. unfold o1. destruct (String.eqb_spec (er_action request) "shell.run"); [|by left].
    simpl. rewrite elem_of_app. tauto. }
  assert (ob_resource_authority o1 = ob_resource_authority o /\
    ob_audit_labels o1 = ob_audit_labels o /\
    ob_network_destinations o1 = ob_network_destinations o /\
    ob_filesystem o1 = ob_filesystem o /\
    ob_protected_filesystem o1 = ob_protected_filesystem o) as (Ha & Hl & Hn & Hf & Hp)
    by (unfold o1; by destruct (String.eqb _ _)).
  assert (ob_resource_authority o2 = ob_resource_authority o /\
    ob_audit_labels o2 = ob_audit_labels o /\
    ob_network_destinations o2 = ob_network_destinations o /\
    (forall g, g ∈ ob_filesystem o2 -> g ∈ ob_filesystem o \/
     exists d, bp_workspace_development p = Some d /\
       inherits_workspace_development request = true /\ g ∈ wd_filesystem d) /\
    (forall n, n ∈ ob_allowed_environment o2 -> n ∈ ob_allowed_environment o1 \/
     exists d, bp_workspace_development p = Some d /\
       inherits_workspace_development request = true /\ n ∈ wd_allowed_environment d) /\
    (NoDup (ob_protected_filesystem o) -> NoDup (ob_protected_filesystem o2)))
    as (Ha2 & Hl2 & Hn2 & Hf2 & He2 & Hp2).
  { unfold o2. destruct (bp_workspace_development p) as [d|]; [destruct (inherits_workspace_development request)|].
    - simpl. split_and!; auto.
      + intros g Hg. apply dedup_by_subset in Hg. rewrite merge_sort_Permutation in Hg.
        apply elem_of_app in Hg as [Hg|Hg]; [rewrite Hf in Hg; by left|right; eauto].
      + intros n Hin. apply elem_of_app in Hin as [Hin|Hin]; [by left|right; eauto].
      + intros _. apply sort_dedup_NoDup.
    - rewrite Hf, Hp. split_and!; auto.
    - rewrite Hf, Hp. split_and!; auto. }
  destruct (post_effect_action _); simpl; split_and!; auto using sort_dedup_NoDup;
    intros n Hin; rewrite sort_dedup_elem in Hin; apply He2 in Hin as [Hin|?]; auto;
    apply He1 in Hin; tauto.
Qed.

Definition declared_entry (a : string) (p : BuiltInPolicy) : Prop :=
  exists o, bp_action_obligations p !! a = Some o /\ ob_resource_authority o = Declared /\
    ob_audit_labels o !! "resource_authority" = None.

Lemma set_action_declared a b o p :
  declared_entry a p ->
  (a = b -> ob_resource_authority o = Declared /\ ob_audit_labels o !! "resource_authority" = None) ->
  declared_entry a (set_action_obligations b o p).
Proof.
  intros (o' & Ho' & ? & ?) Ho. unfold declared_entry. simpl.
  destruct (decide (a = b)) as [<-|Hne].
  - exists o. rewrite lookup_insert_eq. split; [done|by apply Ho].
  - exists o'. by rewrite lookup_insert_ne by done.
Qed.

Lemma builder_keeps_declared a p p' :
  builder_step p p' -> declared_entry a p -> declared_entry a p'.
Proof.
  intros Hs Hd. destruct Hs; try exact Hd; apply set_action_declared; try done.
  - intros _. simpl. by rewrite lookup_delete_eq.
  - intros <-. destruct Hd as (o & Ho & ? & ?). unfold action_entry. by rewrite Ho.
  - intros <-. destruct Hd as (o & Ho & ? & ?). unfold action_entry. by rewrite Ho.
Qed.

(** Action restrictions are permission ceilings: once an action has been
    restricted, no sequence of later builder calls (ambient authority included) makes the
    built-in policy grant it ambient authority or label it so; and the decisions taken
    under the restriction grant no network destination but the declared ones, no
    filesystem root or environment variable but the declared ones, the workspace
    development grants of non-workflow users and agents, and the fixed environment of
    [shell.run]. *)
Lemma action_restrictions_are_ceilings a fs env net p0 p decision_id request d :
  rtc builder_step (with_action_restrictions a fs env net p0) p ->
  er_action request = a ->
  builtin_decide p decision_id request = Ok d ->
  let o := pd_obligations d in
  ob_resource_authority o = Declared /\
  ob_audit_labels o !! "resource_authority" = None /\
  (p = with_action_restrictions a fs env net p0 ->
     ob_network_destinations o = net /\
     (forall g, g ∈ ob_filesystem o -> g ∈ fs \/
        exists w, bp_workspace_development p = Some w /\
          inherits_workspace_development request = true /\ g ∈ wd_filesystem w) /\
     (forall n, n ∈ ob_allowed_environment o -> n ∈ env \/
        a = "shell.run" /\ n ∈ SHELL_ENVIRONMENT \/
        exists w, bp_workspace_development p = Some w /\
          inherits_workspace_development request = true /\ n ∈ wd_allowed_environment w)).
Proof.
  intros Hr Ha Hd. injection Hd as <-. cbv zeta. simpl.
  assert (declared_entry a p) as (o & Ho & Hauth & Hlab).
  { assert (declared_entry a (with_action_restrictions a fs env net p0)) as H0.
    { eexists. split; [apply lookup_insert_eq|]. simpl. by rewrite lookup_delete_eq. }
    revert H0. clear -Hr. induction Hr; eauto using builder_keeps_declared. }
  destruct (decide_obligations_spec p request) as (H1 & H2 & H3 & H4 & H5 & _).
  rewrite Ha in *. unfold action_entry in *. rewrite Ho in *. simpl in *.
  rewrite H1, H2, H3. split; [done|]. split; [done|].
  intros ->. simpl in Ho. rewrite lookup_insert_eq in Ho. injection Ho as <-.
  simpl in *. split_and!; auto.
Qed.

Lemma action_restrictions_are_ceilings_witness :
  let p0 := with_network_destination "*" offline_default in
  let p1 := with_action_restrictions "network.http" [] [] ["https://example.org"] p0 in
  let p := with_resource_authority Ambient p1 in
  let request := test_request "network.http" "https://example.org" Null in
  exists d, builtin_decide p "d" request = Ok d /\
    ob_resource_authority (pd_obligations d) = Declared.
Proof.
  intros p0 p1 p request. eexists. split; [reflexivity|].
  refine (proj1 (action_restrictions_are_ceilings "network.http" [] [] ["https://example.org"] p0
    p "d" request _ _ eq_refl eq_refl)).
  eapply rtc_l; [apply (b_authority p1 Ambient)|apply rtc_refl].
Defined.

(** The built-in policy and the kernel agree: its decisions demand
    post-effect authorisation for every action the kernel insists on it for (and for every
    process action); their environment obligations pass the kernel's uniqueness check
    exactly when every configured name is valid; and, built from the offline default by
    builder calls, their protected paths are pairwise distinct. *)
Lemma builtin_agrees_with_kernel p decision_id request d :
  rtc builder_step offline_default p ->
  builtin_decide p decision_id request = Ok d ->
  let o := pd_obligations d in
  (requires_post_effect (er_action request) || is_process_action (er_action request) = true ->
     ob_require_post_effect o = true) /\
  (check_environment d = Ok tt <->
     Forall (fun n => valid_environment_name n = true) (ob_allowed_environment o)) /\
  NoDup (ob_protected_filesystem o).
Proof.
  intros Hr Hd. injection Hd as <-. cbv zeta. simpl. split_and!.
  - intros Hq. unfold decide_obligations.
    assert (post_effect_action (er_action request) = true) as ->; [|done].
    unfold post_effect_action, requires_post_effect in *.
    apply orb_true_iff in Hq as [Hq|Hq]; [|rewrite Hq; by rewrite orb_true_r].
    apply orb_true_iff in Hq as [Hq|Hq];
      [apply orb_true_iff in Hq as [->%String.eqb_eq|Hq]; [done|]|];
      cbn [existsb post_effect_prefixes]; rewrite Hq; by rewrite !orb_true_r.
  - split.
    + intros Hc. by apply check_environment_Ok in Hc as [_ ?].
    + intros Hv. apply check_environment_complete; [|done]. apply decide_obligations_spec.
  - apply decide_obligations_spec.
    assert (ob_protected_filesystem (bp_obligations p) = [] /\
      forall a o, bp_action_obligations p !! a = Some o -> ob_protected_filesystem o = [])
      as [Hb Ha].
    { remember offline_default as q eqn:Eq.
      assert (ob_protected_filesystem (bp_obligations q) = [] /\
        forall a o, bp_action_obligations q !! a = Some o -> ob_protected_filesystem o = [])
        as Hq by (subst; done).
      clear Eq. induction Hr as [|x y z Hxy _ IH]; [done|]. apply IH. destruct Hq as [Hb Ha].
      destruct Hxy; simpl; split; auto; intros b o' [[<- <-]|[Hne Ho]]%lookup_insert_Some; eauto;
        unfold action_entry; match goal with |- context[default _ ?e] =>
          destruct e eqn:E end; simpl; eauto. }
    unfold action_entry. destruct (bp_action_obligations p !! _) eqn:E; simpl.
    + rewrite (Ha _ _ E). constructor.
    + rewrite Hb. constructor.
Qed.

Lemma builtin_agrees_with_kernel_witness :
  let p := with_environment "HOME" offline_default in
  let request := test_request "browser.open" "https://example.org" Null in
  exists d, builtin_decide p "d" request = Ok d /\ ob_require_post_effect (pd_obligations d) = true.
Proof.
  intros p request. eexists. split; [reflexivity|].
  refine (proj1 (builtin_agrees_with_kernel p "d" request _ _ eq_refl) eq_refl).
  eapply rtc_l; [apply (b_environment offline_default "HOME")|apply rtc_refl].
Defined.
