(* ===== verification/Ports.v ===== *)
(** * Effects through ports

    The services the gateway calls ([crates/colossus-ports/src/]: [EventJournal],
    [PolicyDecisionPoint], [ApprovalProvider], [RiskEvaluator], [RuntimeExecutionFence];
    the adapters and observers of [kernel.rs]; the clock, [Uuid] and the timer), as the
    queries of a free monad.  A program is a tree of queries; the environment answers
    each of them in any way its type allows.  [runs] gives the traces of a program and
    [wlp] the weakest precondition of a protocol on its history. *)

From S2P Require Import Prelude Json Contracts Boundary Platform.

Open Scope string_scope.

(** ** The types that cross the ports *)

(** [kernel.rs], [ExecutionError]. *)
Inductive ExecutionError :=
| ExProviderRejected (failure : ProviderFailure)
| ExFailed (msg : string)
| ExRecoverable (code msg : string) (http_status retry_after_ms : option N)
| ExHttpStatus (status : N) (msg : string)
| ExOutcomeUnknown (msg : string)
| ExReleaseDenied (msg : string).

Record ReleasedEffectResult := mkReleased { rr_media_type : string; rr_bytes : list ascii }.

(** [kernel.rs], [ExecutionPermit]; [consumed] is the [AtomicBool]. *)
Record ExecutionPermit := mkPermit {
  ep_request_hash : string;
  ep_decision_id : string;
  ep_obligations_hash : string;
  ep_actor_id : string;
  ep_nonce : string;
  ep_expires_at_unix_ms : Z;
  ep_authentication_tag : string;
  ep_obligations : PolicyObligations;
  ep_consumed : bool;
}.

Inductive RiskEvaluationError := RiskUnavailable (msg : string) | RiskInvalid (msg : string).

(** The behaviour of a streaming adapter: it submits chunks, each continuation depending on
    the observer's answer, and returns. *)
Inductive adapter :=
| AdapterReturn (r : result ExecutionError QuarantinedEffectResult)
| AdapterSubmit (chunk : QuarantinedEffectResult) (k : result ExecutionError unit -> adapter).

(** What the timer of [execute_owned] does while a polled future is pending: some ownership
    ticks, and then the answer arrives or the deadline has passed. *)
Inductive timer := Resume (ticks : nat) | Elapsed (ticks : nat).

(** ** Queries *)

Inductive query :=
| Fence (** [RuntimeExecutionFence::verify] *)
| IsRecoveryMode
| ReadTail (stream_id : string) (** [read_stream_backwards(stream, None, 1)?.first()] version *)
| Append (e : NewEvent)
| SummaryWorker (** whether the [spawn_blocking] worker of the summary survived *)
| Observe_World (** the filesystem and the boundary gate, when the kernel looks *)
| Decide (request : EffectRequest)
| RiskAutoEnabled
| UpgradeEvaluator (** [Weak::upgrade] of the bound evaluator *)
| Evaluate (request : EffectRequest) (decision : PolicyDecision)
| RequestApproval (request : EffectRequest) (request_hash : string)
    (decision : PolicyDecision) (context : option CommandApprovalContext)
| AutomaticApprovalGranted (n : AutomaticApprovalNotice)
| RiskReviewFallback (n : RiskReviewFallbackNotice)
| Now
| NewUuid
| Timestamp
| Execute (request : EffectRequest) (permit : ExecutionPermit)
| ExecuteStream (request : EffectRequest) (permit : ExecutionPermit)
| AdapterYield (** the streaming adapter is suspended *)
| ObserveReleased (r : ReleasedEffectResult)
| Timer.

Definition answer (q : query) : Type :=
  match q with
  | Fence => result StoreError unit
  | IsRecoveryMode => bool
  | ReadTail _ => result StoreError (option N)
  | Append _ => result StoreError unit
  | SummaryWorker => bool
  | Observe_World => HostEnv * SandboxBoundaryGate
  | Decide _ => result PolicyError PolicyDecision
  | RiskAutoEnabled => bool
  | UpgradeEvaluator => bool
  | Evaluate _ _ => result RiskEvaluationError RiskAssessment
  | RequestApproval _ _ _ _ => result PolicyError (option ApprovalProof)
  | AutomaticApprovalGranted _ => unit
  | RiskReviewFallback _ => unit
  | Now => Z
  | NewUuid => string
  | Timestamp => result string string
  | Execute _ _ => result ExecutionError QuarantinedEffectResult
  | ExecuteStream _ _ => adapter
  | AdapterYield => unit
  | ObserveReleased _ => result ExecutionError unit
  | Timer => timer
  end.

(** The [await] points: where a pending future can be dropped. *)
Definition is_await (q : query) : bool :=
  match q with
  | SummaryWorker | Decide _ | Evaluate _ _ | RequestApproval _ _ _ _
  | AutomaticApprovalGranted _ | RiskReviewFallback _ | Execute _ _ | ExecuteStream _ _
  | AdapterYield | ObserveReleased _ => true
  | _ => false
  end.

(** ** Programs *)

Inductive prog (A : Type) : Type :=
| Ret (a : A)
| Do (q : query) (k : answer q -> prog A).
Arguments Ret {A} a.
Arguments Do {A} q k.

Fixpoint pbind {A B} (p : prog A) (f : A -> prog B) : prog B :=
  match p with
  | Ret a => f a
  | Do q k => Do q (fun x => pbind (k x) f)
  end.

Definition ask (q : query) : prog (answer q) := Do q Ret.

(** Programs that can fail: [async fn .. -> Result<A, E>]. *)
Definition eff (E A : Type) : Type := prog (result E A).
Definition ok {E A} (a : A) : eff E A := Ret (Ok a).
Definition fail {E A} (e : E) : eff E A := Ret (Err e).
Definition lift {E A} (r : result E A) : eff E A := Ret r.
Definition ebind {E A B} (p : eff E A) (f : A -> eff E B) : eff E B :=
  pbind p (fun r => match r with Ok a => f a | Err e => fail e end).
(** [.map_err(f)] on a future. *)
Definition emap_err {E F A} (f : E -> F) (p : eff E A) : eff F A :=
  pbind p (fun r => Ret (map_err f r)).

Declare Scope eff_scope.
Delimit Scope eff_scope with eff.
Notation "'let*' x := p 'in' q" := (ebind p (fun x => q))
  (at level 10, x pattern, p at level 100, q at level 200) : eff_scope.
Notation "'ask*' x := p 'in' q" := (pbind (ask p) (fun x => q))
  (at level 10, x pattern, p at level 100, q at level 200) : eff_scope.
Notation "p ';;*' q" := (ebind p (fun _ => q))
  (at level 100, q at level 200, right associativity) : eff_scope.
Open Scope eff_scope.

(** ** Traces *)

Inductive interaction := Ev (q : query) (a : answer q).

Definition ev_query (e : interaction) : query := match e with Ev q _ => q end.

Fixpoint runs {A} (p : prog A) (tr : list interaction) (a : A) : Prop :=
  match p with
  | Ret b => tr = [] /\ a = b
  | Do q k => exists x tr', tr = Ev q x :: tr' /\ runs (k x) tr' a
  end.

(** Driving a program with a deterministic environment, for concrete runs. *)
Fixpoint drive {A} (env : list interaction -> forall q, answer q) (p : prog A) (h : list interaction)
    : list interaction * A :=
  match p with
  | Ret a => ([], a)
  | Do q k =>
      let x := env h q in
      let '(tr, a) := drive env (k x) (h ++ [Ev q x])%list in
      (Ev q x :: tr, a)
  end.

Lemma drive_runs {A} env (p : prog A) h :
  runs p (drive env p h).1 (drive env p h).2.
Proof.
  revert h. induction p as [a|q k IH]; intros h; simpl; [done|].
  specialize (IH (env h q) (h ++ [Ev q (env h q)])%list).
  destruct (drive env (k (env h q)) _) as [tr a]. simpl in *. eauto.
Qed.

Lemma runs_pbind {A B} (p : prog A) (f : A -> prog B) tr b :
  runs (pbind p f) tr b <->
  exists tr1 tr2 a, tr = (tr1 ++ tr2)%list /\ runs p tr1 a /\ runs (f a) tr2 b.
Proof.
  revert tr. induction p as [a|q k IH]; intros tr; simpl.
  - split; [intros Hr; by exists [], tr, a|by intros (? & ? & ? & -> & [-> ->] & ?)].
  - split.
    + intros (x & tr' & -> & Hr). apply IH in Hr as (tr1 & tr2 & a & -> & H1 & H2).
      exists (Ev q x :: tr1), tr2, a. split; [done|]. split; [eauto|done].
    + intros (tr1 & tr2 & a & -> & (x & tr' & -> & H1) & H2).
      exists x, (tr' ++ tr2)%list. split; [done|]. apply IH. eauto 10.
Qed.

(** ** Weakest preconditions of a protocol *)

Section Wlp.
(** [allowed h q]: the protocol lets query [q] be issued after history [h]. *)
Context (allowed : list interaction -> query -> Prop).

(** Every query of [p] is allowed, [I] holds of the history after each of them, and the
    result meets [Q]. *)
Fixpoint wlp {A} (I : list interaction -> Prop) (p : prog A) (h : list interaction)
    (Q : list interaction -> A -> Prop) : Prop :=
  match p with
  | Ret a => Q h a
  | Do q k => allowed h q /\
      forall x, I (h ++ [Ev q x])%list /\ wlp I (k x) (h ++ [Ev q x])%list Q
  end.

Lemma wlp_mono {A} I (p : prog A) h (Q Q' : list interaction -> A -> Prop) :
  wlp I p h Q -> (forall h a, Q h a -> Q' h a) -> wlp I p h Q'.
Proof.
  revert h. induction p as [a|q k IH]; intros h; simpl; [auto|].
  intros [Ha Hw] HQ. split; [done|]. intros x. destruct (Hw x). split; [done|]. eauto.
Qed.

Lemma wlp_pbind {A B} I (p : prog A) (f : A -> prog B) h Q :
  wlp I p h (fun h' a => wlp I (f a) h' Q) -> wlp I (pbind p f) h Q.
Proof.
  revert h. induction p as [a|q k IH]; intros h; simpl; [auto|].
  intros [Ha Hw]. split; [done|]. intros x. destruct (Hw x). split; [done|]. by apply IH.
Qed.

Lemma wlp_ebind {E A B} I (p : eff E A) (f : A -> eff E B) h Q :
  wlp I p h (fun h' r => match r with Ok a => wlp I (f a) h' Q | Err e => Q h' (Err e) end) ->
  wlp I (ebind p f) h Q.
Proof.
  intros Hp. apply wlp_pbind. eapply wlp_mono; [exact Hp|]. intros h' [a|e]; auto.
Qed.

Lemma wlp_emap_err {E F A} I (g : E -> F) (p : eff E A) h Q :
  wlp I p h (fun h' r => Q h' (map_err g r)) -> wlp I (emap_err g p) h Q.
Proof. intros Hp. apply wlp_pbind. exact Hp. Qed.

Lemma wlp_lift {E A} I (r : result E A) h (Q : list interaction -> result E A -> Prop) :
  Q h r -> wlp I (lift r) h Q.
Proof. done. Qed.

(** Soundness: every query of every run is allowed, and the result meets [Q]. *)
Lemma wlp_runs {A} I (p : prog A) h Q tr a :
  wlp I p h Q -> runs p tr a ->
  (forall pre e post, tr = (pre ++ e :: post)%list -> allowed (h ++ pre)%list (ev_query e)) /\
  Q (h ++ tr)%list a.
Proof.
  revert h tr. induction p as [b|q k IH]; intros h tr; simpl.
  - intros HQ [-> ->]. rewrite app_nil_r. split; [|done]. intros [|? ?] ? ? Heq; discriminate Heq.
  - intros [Ha Hw] (x & tr' & -> & Hr). destruct (Hw x) as [_ Hwx].
    destruct (IH x (h ++ [Ev q x])%list tr' Hwx Hr) as [Hall HQ].
    rewrite <- app_assoc in HQ. split; [|done].
    intros [|e0 pre] e post Heq; simpl in Heq; injection Heq as <- ->.
    + by rewrite app_nil_r.
    + specialize (Hall pre e post eq_refl). by rewrite <- app_assoc in Hall.
Qed.
End Wlp.

(** ** Results whose errors satisfy a predicate *)

Definition errs {E A} (P : E -> Prop) (m : result E A) : Prop := forall e, m = Err e -> P e.

Lemma errs_ok {E A} (P : E -> Prop) (a : A) : errs P (Ok a).
Proof. by intros e [=]. Qed.
Lemma errs_err {E A} (P : E -> Prop) e : P e -> errs P (@Err E A e).
Proof. by intros HP e' [= <-]. Qed.
Lemma errs_bind {E A B} (P : E -> Prop) (m : result E A) (f : A -> result E B) :
  errs P m -> (forall a, errs P (f a)) -> errs P (m ≫= f).
Proof. intros Hm Hf e. destruct m as [a|e']; [apply Hf|]. intros [= <-]. by apply Hm. Qed.
Lemma errs_reject {E} (P : E -> Prop) b e : P e -> errs P (reject b e).
Proof. intros HP. destruct b; [by apply errs_err|apply errs_ok]. Qed.
Lemma errs_ok_or {E A} (P : E -> Prop) (o : option A) e : P e -> errs P (ok_or o e).
Proof. intros HP. destruct o; [apply errs_ok|by apply errs_err]. Qed.
Lemma errs_map_err {E F A} (P : F -> Prop) (f : E -> F) (m : result E A) :
  (forall e, P (f e)) -> errs P (map_err f m).
Proof. intros HP. destruct m; [apply errs_ok|by apply errs_err]. Qed.
Lemma errs_try_for_each {E A} (P : E -> Prop) (f : A -> result E unit) l :
  (forall a, errs P (f a)) -> errs P (try_for_each f l).
Proof. intros Hf. induction l; simpl; [apply errs_ok|by apply errs_bind]. Qed.
Lemma errs_try_fold {E A S} (P : E -> Prop) (f : S -> A -> result E S) l s :
  (forall s a, errs P (f s a)) -> errs P (try_fold f l s).
Proof. intros Hf. revert s. induction l; intros s; simpl; [apply errs_ok|by apply errs_bind]. Qed.

Create HintDb errs discriminated.
#[export] Hint Resolve errs_ok errs_err errs_bind errs_reject errs_ok_or errs_map_err
  errs_try_for_each errs_try_fold : errs.

(** Follow the structure of a fallible computation. *)
Ltac solve_errs :=
  repeat (intros; cbv beta zeta;
    match goal with
    | |- errs _ (Ok _) => apply errs_ok
    | |- errs _ (Err _) => apply errs_err
    | |- errs _ (reject _ _) => apply errs_reject
    | |- errs _ (ok_or _ _) => apply errs_ok_or
    | |- errs _ (map_err _ _) => apply errs_map_err
    | |- errs _ (try_for_each _ _) => apply errs_try_for_each
    | |- errs _ (try_fold _ _ _) => apply errs_try_fold
    | |- errs _ (_ ≫= _) => apply errs_bind
    | |- errs _ (match ?x with _ => _ end) => destruct x
    | |- errs _ _ => solve [auto with errs nocore]
    end).
