(* ===== verification/Gateway.v ===== *)
(** * The effect gateway

    [crates/colossus-policy/src/gateway.rs] and [gateway/fence.rs]: the single enforcement
    point of all external effects, as programs over the ports.  The definitions follow
    the source function by function; [execute_internal] is cut into its stages
    ([admission], [approve], [authorize], [settle], [release]). *)

From S2P Require Import Prelude Json Contracts Network Boundary Platform Redaction.
From S2P Require Import CommandApproval SchemaDisclosure Kernel Ports.

Open Scope string_scope.

(** ** Error texts ([Display]) *)

Definition policy_error_text (e : PolicyError) : string :=
  match e with
  | InputTooLarge limit => "policy input exceeds " ++s pretty limit ++s " bytes"
  | PolicyUnavailable m => "policy unavailable: " ++s m
  | InvalidDecision m => "invalid policy response: " ++s m
  end.
Definition gateway_error_text (e : GatewayError) : string :=
  match e with
  | ProviderRejected f => reason_message (pf_reason f)
  | Safety m => "safety kernel rejected request: " ++s m
  | Denied m => "policy denied effect: " ++s m
  | Approval m => "effect was not approved: " ++s m
  | Policy e => policy_error_text e
  | Journal e => store_error_text e
  | Execution m => "effect failed: " ++s m
  | RecoverableExecution code m _ _ => "recoverable effect failure " ++s code ++s ": " ++s m
  | HttpStatus _ m => "effect failed: " ++s m
  | OutcomeUnknown m => "effect outcome is unknown: " ++s m
  | Contract m => "contract failure: " ++s m
  end.

(** ** JSON of the contract enums *)

Definition outcome_text (o : DecisionOutcome) : string :=
  match o with Allow => "allow" | Deny => "deny" | RequireApproval => "require_approval" end.
Definition authority_text (a : ResourceAuthority) : string :=
  match a with Declared => "declared" | Ambient => "ambient" end.
Definition level_text (l : RiskLevel) : string :=
  match l with Low => "low" | Medium => "medium" | High => "high" end.
Definition recommendation_text (r : RiskRecommendation) : string :=
  match r with RR_Allow => "allow" | RR_Deny => "deny" | RR_RequireApproval => "require_approval" end.
Definition failure_text (f : RiskReviewFailure) : string :=
  match f with
  | EvaluatorUnavailable => "evaluator_unavailable"
  | InvalidAssessment => "invalid_assessment"
  end.
Definition num (n : N) : value := Number (PosInt n).
Definition opt_num (o : option N) : value := match o with Some n => num n | None => Null end.
Definition blen (l : list ascii) : N := N.of_nat (length l).
Definition context_json (c : CommandApprovalContext) : value :=
  Object [("arguments", Array (Str <$> cac_arguments c)); ("executable", Str (cac_executable c));
          ("justification", Str (cac_justification c)); ("redacted", Bool (cac_redacted c));
          ("working_directory", Str (cac_working_directory c))].

(** ** Risk-auto review eligibility *)

Section Eligibility.
Context `{Externals}.

Definition supported_mcp_annotations (v : value) : bool :=
  is_null v
  || is_some_and (as_object v) (forallb (fun kv =>
       if String.eqb kv.1 "title" then
         is_null kv.2 || is_some_and (as_str kv.2) (fun t => slen t <=? 8 * 1024)%N
       else if is_one_of kv.1 ["readOnlyHint"; "destructiveHint"; "idempotentHint";
                               "openWorldHint"]
       then is_null kv.2 || is_boolean kv.2
       else false)).

Definition supported_transport (request : EffectRequest) (content : list (string * value)) : bool :=
  match field "transport" content ≫= as_str with
  | Some t =>
      if String.eqb t "stdio" then is_none_or (field "url" content) is_null
      else if String.eqb t "streamable_http" then
        is_some_and (field "url" content ≫= as_str) (fun url => String.eqb url (er_resource request))
      else false
  | None => false
  end.

Definition short_name (o : option value) : bool :=
  is_some_and (o ≫= as_str) (fun v => negb (is_empty v) && (slen v <=? 256)%N).

Definition schema_hash_matches (operation : list (string * value)) (input_schema : value) : bool :=
  is_ok_and (canonical_value input_schema) (fun b =>
    (slen b <=? 256 * 1024)%N
    && bool_decide (field "schema_sha256" operation ≫= as_str = Some (sha256_hex b))).

Definition supported_mcp_review_metadata (request : EffectRequest) : bool :=
  match as_object (er_content request) with
  | None => false
  | Some content =>
      match field "operation" content ≫= as_object with
      | None => false
      | Some operation =>
          match field "input_schema" operation with
          | Some input_schema =>
              is_object input_schema
              && supported_transport request content
              && bool_decide (field "kind" operation ≫= as_str = Some "call_tool")
              && short_name (field "server" operation) && short_name (field "tool" operation)
              && is_none_or (field "description" operation) (fun v =>
                   is_null v || is_some_and (as_str v) (fun t => slen t <=? 32 * 1024)%N)
              && is_none_or (field "annotations" operation) supported_mcp_annotations
              && is_some_and (field "arguments" operation) is_object
              && is_none_or (field "output_schema" operation) (fun v =>
                   is_null v || (is_object v && is_ok_and (canonical_value v)
                     (fun b => slen b <=? 256 * 1024)%N))
              && schema_hash_matches operation input_schema
          | None => false
          end
      end
  end.

Definition bodyless_get (request : EffectRequest) : bool :=
  is_some_and (get_str "method" (er_content request)) (fun m => eq_ignore_ascii_case m "GET")
  && is_none (get "body_base64" (er_content request)).

(** [risk_auto_ineligibility]: the reason, or [None] when the review may run. *)
Definition risk_auto_ineligibility (request : EffectRequest) : option string :=
  if negb (match actor_type (er_actor request) with Model | Subagent => true | _ => false end)
  then Some "Risk-auto review is limited to model and child-agent effects."
  else if is_some (ctx_workflow_id (er_context request))
          || is_some (ctx_workflow_hash (er_context request))
  then Some "Risk-auto review is disabled for effects with workflow lineage."
  else if is_one_of (er_action request) ["shell.run"; "web.search"] then None
  else if String.eqb (er_action request) "network.http" then
    if bodyless_get request then None
    else Some "Risk-auto review requires network.http to be a bodyless GET request."
  else if String.eqb (er_action request) "mcp.call" then
    if supported_mcp_review_metadata request then None
    else Some "Risk-auto review requires a configured top-level MCP call with supported, request-bound discovery metadata."
  else Some "This effect action is not eligible for risk-auto review.".
End Eligibility.

(** ** The gateway *)

Record EffectGateway := mkGateway {
  gw_kernel : SafetyKernel;
  gw_permit_key : string;
  gw_fenced : bool; (** whether an execution fence is bound *)
  gw_active : option string; (** the task-local boundary acknowledgement *)
}.

(** The kernel, with the gate as it is when the kernel looks. *)
Definition kernel_at (k : SafetyKernel) (g : SandboxBoundaryGate) : SafetyKernel :=
  match sandbox_boundary_gate k with
  | Some _ => with_sandbox_boundary_gate g k
  | None => k
  end.

(** How a future polled under the timer ends ([fence.rs]). *)
Inductive outcome (A : Type) := Finished (a : A) | TimedOut | OwnerLost.
Arguments Finished {A} a.
Arguments TimedOut {A}.
Arguments OwnerLost {A}.

Section Gateway.
Context `{Externals} `{CommandDisplay}.
Context (gw : EffectGateway).

(** [fence.rs]. *)
Definition OWNER_LOST : string := "runtime ownership was lost after execution began".

Definition verify_execution_fence : eff GatewayError unit :=
  if gw_fenced gw then ask* r := Fence in lift (map_err Journal r) else ok tt.
Definition verify_started_owner : eff GatewayError unit :=
  emap_err (fun _ => OutcomeUnknown OWNER_LOST) verify_execution_fence.

Definition effect_stream (request : EffectRequest) : string := "effect:" ++s er_request_id request.

(** The event [event] appends when the stream is at [version]. *)
Definition new_event (request : EffectRequest) (event_type : string)
    (classification : EventClassification) (payload : value) (version : option N) : NewEvent :=
  mkNewEvent 1 (effect_stream request) (default 0%N version) classification event_type
    (er_actor request) (er_context request) payload.

Definition event (request : EffectRequest) (event_type : string)
    (classification : EventClassification) (payload : value) : eff GatewayError unit :=
  ask* tail := ReadTail (effect_stream request) in
  let* version := lift (map_err Journal tail) in
  ask* r := Append (new_event request event_type classification payload version) in
  lift (map_err Journal r).

Definition summary (request : EffectRequest) : eff GatewayError value :=
  ask* alive := SummaryWorker in
  if alive : bool then ok (disclosure_summary request)
  else fail (Contract "disclosure summary worker failed").

(** *** [decide] *)

Definition decided_payload (request : EffectRequest) (decision : PolicyDecision) : value :=
  let o := pd_obligations decision in
  Object [("action", Str (er_action request));
          ("audit_labels", Object ((fun kv => (kv.1, Str kv.2)) <$> sorted_entries (ob_audit_labels o)));
          ("decision_id", Str (pd_decision_id decision));
          ("outcome", Str (outcome_text (pd_outcome decision)));
          ("phase", Str (phase_text (er_phase request)));
          ("policy_revision", Str (pd_policy_revision decision));
          ("reason", Str (pd_reason decision));
          ("require_post_effect", Bool (ob_require_post_effect o));
          ("resource_authority", Str (authority_text (ob_resource_authority o)));
          ("sandbox_backend", Str (ob_sandbox_backend o))].

Definition ask_policy (request : EffectRequest) : eff GatewayError PolicyDecision :=
  let* projected := lift (policy_projection (gw_kernel gw) request) in
  ask* r := Decide projected in
  lift (map_err Policy r).

(** Record a policy failure and close the effect. *)
Definition deny_closed {A} (request : EffectRequest) (kind reason : string) (error : GatewayError)
    : eff GatewayError A :=
  event request "policy.error.v1" EC_Policy
    (Object [("error_kind", Str kind); ("message", Str (gateway_error_text error))]) ;;*
  event request "effect.denied.v1" EC_Effect (Object [("reason", Str reason)]) ;;*
  fail error.

Definition decide (request : EffectRequest) : eff GatewayError PolicyDecision :=
  pbind (ask_policy request) (fun r =>
    match r with
    | Err error => deny_closed request "unavailable_or_invalid" "policy failure; fail closed" error
    | Ok decision =>
        ask* w := Observe_World in
        match validate_decision w.1 (kernel_at (gw_kernel gw) w.2) (gw_active gw) request decision with
        | Err error =>
            deny_closed request "invalid_decision" "invalid policy decision; fail closed" error
        | Ok _ =>
            event request "policy.decided.v1" EC_Policy (decided_payload request decision) ;;*
            ok decision
        end
    end).

(** *** [review_risk] *)

Definition UNAVAILABLE_REASON : string :=
  "The configured risk evaluator was unavailable, so manual approval is required.".
Definition INVALID_REASON : string :=
  "The risk evaluator response failed strict validation, so manual approval is required.".

(** Fall back to explicit approval. *)
Definition risk_unavailable (request : EffectRequest) (failure : RiskReviewFailure)
    (reason : string) : eff GatewayError (EffectRequest * bool) :=
  let request := with_risk (mkRiskInput Unavailable None (Some reason)) request in
  event request "risk.review.unavailable.v1" EC_Policy
    (Object [("failure", Str (failure_text failure))]) ;;*
  ask* _ := RiskReviewFallback (mkRiskReviewFallbackNotice (er_action request)
              (er_resource request) failure reason) in
  ok (request, false).

Definition assess (request : EffectRequest) (decision : PolicyDecision)
    : eff GatewayError (EffectRequest * bool) :=
  ask* r := Evaluate request decision in
  match r with
  | Ok assessment =>
      let reason := trim (ra_reason assessment) in
      if is_empty reason || (1000 <? N.of_nat (length (chars reason)))%N
      then risk_unavailable request InvalidAssessment INVALID_REASON
      else
        let request := with_risk
          (mkRiskInput Available (Some (level_text (ra_risk_level assessment))) (Some reason))
          request in
        event request "risk.review.completed.v1" EC_Policy
          (Object [("decision_id", Str (pd_decision_id decision)); ("reason", Str reason);
                   ("recommended_decision",
                     Str (recommendation_text (ra_recommended_decision assessment)));
                   ("risk_level", Str (level_text (ra_risk_level assessment)))]) ;;*
        ok (request, bool_decide (ra_risk_level assessment = Low)
                     && bool_decide (ra_recommended_decision assessment = RR_Allow))
  | Err (RiskUnavailable _) => risk_unavailable request EvaluatorUnavailable UNAVAILABLE_REASON
  | Err (RiskInvalid _) => risk_unavailable request InvalidAssessment INVALID_REASON
  end.

Definition review_risk (request : EffectRequest) (decision : PolicyDecision)
    : eff GatewayError (EffectRequest * bool) :=
  ask* enabled := RiskAutoEnabled in
  if negb enabled then ok (request, false)
  else match risk_auto_ineligibility request with
  | Some reason =>
      let request := with_risk (mkRiskInput Unavailable None (Some reason)) request in
      event request "risk.review.ineligible.v1" EC_Policy
        (Object [("decision_id", Str (pd_decision_id decision)); ("reason", Str reason)]) ;;*
      ok (request, false)
  | None =>
      event request "risk.review.requested.v1" EC_Policy
        (Object [("decision_id", Str (pd_decision_id decision));
                 ("policy_revision", Str (pd_policy_revision decision))]) ;;*
      ask* bound := UpgradeEvaluator in
      if negb bound then risk_unavailable request EvaluatorUnavailable UNAVAILABLE_REASON
      else assess request decision
  end.

(** *** Permits *)

Definition request_hash (request : EffectRequest) : result GatewayError string :=
  b ← canonical_request request; Ok (sha256_hex b).
Definition obligations_hash (o : PolicyObligations) : result GatewayError string :=
  b ← canonical_obligations o; Ok (sha256_hex b).

Definition permit_claims (p : ExecutionPermit) : PermitClaims :=
  mkPermitClaims (ep_request_hash p) (ep_decision_id p) (ep_obligations_hash p) (ep_actor_id p)
    (ep_nonce p) (ep_expires_at_unix_ms p).

Definition mint_permit (request : EffectRequest) (hash : string) (decision : PolicyDecision)
    : eff GatewayError ExecutionPermit :=
  let* ohash := lift (obligations_hash (pd_obligations decision)) in
  ask* nonce := NewUuid in
  ask* now := Now in
  let claims := mkPermitClaims hash (pd_decision_id decision) ohash (actor_id (er_actor request))
    nonce (now + PERMIT_LIFETIME_MS) in
  let* message := lift (canonical_claims claims) in
  ok (mkPermit hash (pd_decision_id decision) ohash (actor_id (er_actor request)) nonce
        (now + PERMIT_LIFETIME_MS) (hmac_sha256 (gw_permit_key gw) message)
        (pd_obligations decision) false).

Definition permit_mismatch : GatewayError :=
  Safety "permit does not match request, decision, actor, obligations, or expiry".

(** The result is the permit with its [consumed] flag set. *)
Definition authenticate_and_consume (permit : ExecutionPermit) (request : EffectRequest)
    (decision : PolicyDecision) : eff GatewayError ExecutionPermit :=
  let* rhash := lift (request_hash request) in
  let* ohash := lift (obligations_hash (pd_obligations decision)) in
  if negb (String.eqb (ep_request_hash permit) rhash)
     || negb (String.eqb (ep_decision_id permit) (pd_decision_id decision))
     || negb (String.eqb (ep_obligations_hash permit) ohash)
     || negb (String.eqb (ep_actor_id permit) (actor_id (er_actor request)))
  then fail permit_mismatch
  else
    ask* now := Now in
    if (ep_expires_at_unix_ms permit <? now)%Z then fail permit_mismatch
    else
      let* message := lift (canonical_claims (permit_claims permit)) in
      if negb (String.eqb (ep_authentication_tag permit) (hmac_sha256 (gw_permit_key gw) message))
      then fail (Safety "permit authentication failed")
      else if ep_consumed permit then fail (Safety "permit has already been consumed")
      else ok (mkPermit (ep_request_hash permit) (ep_decision_id permit)
                 (ep_obligations_hash permit) (ep_actor_id permit) (ep_nonce permit)
                 (ep_expires_at_unix_ms permit) (ep_authentication_tag permit)
                 (ep_obligations permit) true).

(** *** Admission *)

Definition admission (request : EffectRequest)
    : eff GatewayError (option CommandApprovalContext * EffectRequest) :=
  verify_execution_fence ;;*
  ask* recovery := IsRecoveryMode in
  if recovery : bool then fail (Journal RecoveryMode)
  else if negb (er_schema_version request =? 1)%N || is_empty (er_request_id request)
          || negb (bool_decide (er_phase request = PreEffect))
  then fail (Safety "unsupported schema version, empty request id, or caller-supplied post-effect phase")
  else
    let* s := summary request in
    event request "effect.requested.v1" EC_Effect s ;;*
    match (context ← command_approval_context request;
           prepared ← prepare (gw_kernel gw) request;
           Ok (context, prepared)) with
    | Ok prepared => ok prepared
    | Err error =>
        event request "effect.denied.v1" EC_Effect
          (Object [("reason", Str (gateway_error_text error)); ("source", Str "safety_kernel")]) ;;*
        fail error
    end.

(** *** Approval *)

Definition approval_proof (hash approved_by : string) : eff GatewayError ApprovalProof :=
  ask* t := Timestamp in
  let* approved_at := lift (map_err (fun e => Policy (PolicyUnavailable e)) t) in
  ask* approval_id := NewUuid in
  ok (mkApprovalProof approval_id hash approved_by approved_at).

Definition AUTO_APPROVER : string := "risk-evaluator:auto-low-risk".

(** The answer of the evaluator or of the approval provider. *)
Definition obtain_approval (request : EffectRequest) (hash : string) (decision : PolicyDecision)
    (context : option CommandApprovalContext) (auto : bool)
    : eff GatewayError (result PolicyError (option ApprovalProof)) :=
  if auto then
    let* proof := approval_proof hash AUTO_APPROVER in ok (Ok (Some proof))
  else ask* r := RequestApproval request hash decision context in ok r.

Definition deny_approval {A} (request : EffectRequest) (decision : PolicyDecision)
    (event_type : string) (detail : string * value) (reason : string) (error : GatewayError)
    : eff GatewayError A :=
  let decision_id := ("decision_id", Str (pd_decision_id decision)) in
  event request event_type EC_Approval (Object [decision_id; detail]) ;;*
  event request "effect.denied.v1" EC_Effect (Object [decision_id; ("reason", Str reason)]) ;;*
  fail error.

Definition granted (request : EffectRequest) (proof : ApprovalProof) (auto : bool)
    : eff GatewayError unit :=
  event request "approval.granted.v1" EC_Approval
    (Object [("approval_id", Str (ap_approval_id proof)); ("approved_by", Str (ap_approved_by proof));
             ("request_hash", Str (ap_request_hash proof))]) ;;*
  if auto then
    ask* _ := AutomaticApprovalGranted (mkAutomaticApprovalNotice (er_action request)
      (er_resource request) Low
      (default "automatic low-risk review approved the effect" (ri_reason (er_risk request)))) in
    ok tt
  else ok tt.

Definition approve (context : option CommandApprovalContext) (request : EffectRequest)
    (decision : PolicyDecision) : eff GatewayError (EffectRequest * PolicyDecision) :=
  if negb (bool_decide (pd_outcome decision = RequireApproval)) then ok (request, decision)
  else
    match context with
    | Some c => event request "approval.requested.v1" EC_Approval
                  (Object [("command_context", context_json c)])
    | None => ok tt
    end ;;*
    let* (request, auto) := review_risk request decision in
    let* hash := lift (request_hash request) in
    let* approval := obtain_approval request hash decision context auto in
    match approval with
    | Err error => deny_approval request decision "approval.error.v1"
        ("message", Str (policy_error_text error)) "approval provider failed" (Policy error)
    | Ok None => deny_approval request decision "approval.denied.v1"
        ("reason", Str "operator declined") "operator declined" (Approval "operator declined")
    | Ok (Some proof) =>
        if negb (String.eqb (ap_request_hash proof) hash)
        then fail (Approval "approval proof is bound to a different request")
        else
          granted request proof auto ;;*
          let request := with_approval (Some proof) request in
          let* decision := decide request in
          ok (request, decision)
    end.

(** *** Authorization *)

Definition started_payload (decision : PolicyDecision) (permit : ExecutionPermit) : value :=
  Object [("decision_id", Str (pd_decision_id decision));
          ("permit_expires_at_unix_ms",
            Number (if (ep_expires_at_unix_ms permit <? 0)%Z
                    then NegInt (ep_expires_at_unix_ms permit)
                    else PosInt (Z.to_N (ep_expires_at_unix_ms permit))));
          ("permit_nonce", Str (ep_nonce permit));
          ("resource_authority",
            Str (authority_text (ob_resource_authority (pd_obligations decision))))].

Definition authorize (request : EffectRequest) (decision : PolicyDecision)
    : eff GatewayError ExecutionPermit :=
  if negb (bool_decide (pd_outcome decision = Allow)) then
    event request "effect.denied.v1" EC_Effect
      (Object [("decision_id", Str (pd_decision_id decision)); ("reason", Str (pd_reason decision))]) ;;*
    fail (Denied (pd_reason decision))
  else
    let* hash := lift (request_hash request) in
    let* permit := mint_permit request hash decision in
    let* permit := authenticate_and_consume permit request decision in
    event request "effect.started.v1" EC_Effect (started_payload decision permit) ;;*
    ok permit.

(** *** Post-effect release *)

(** The post-effect request over quarantined content; [chunk] is the sequence number of a
    stream chunk. *)
Definition post_content (result : QuarantinedEffectResult) (chunk : option N) : value :=
  Object ([("content_base64", Str (base64_encode (of_bytes (qr_bytes result))));
           ("media_type", Str (qr_media_type result))]
          ++ match chunk with Some n => [("sequence", num n)] | None => [] end
          ++ [("size", num (blen (qr_bytes result)))])%list.
Definition post_request (request : EffectRequest) (result : QuarantinedEffectResult)
    (chunk : option N) : EffectRequest :=
  let suffix := match chunk with
                | Some n => ":post:chunk:" ++s pretty n
                | None => ":post"
                end in
  with_content (post_content result chunk) (with_approval None (with_phase PostEffect
    (with_request_id (er_request_id request ++s suffix) request))).

Definition content_hash (result : QuarantinedEffectResult) : value :=
  Str (sha256_hex (of_bytes (qr_bytes result))).
Definition release_denied_payload (decision : PolicyDecision) (result : QuarantinedEffectResult)
    (chunk : option N) : value :=
  Object ([("content_hash", content_hash result); ("decision_id", Str (pd_decision_id decision));
           ("reason", Str (pd_reason decision))]
          ++ match chunk with Some n => [("sequence", num n)] | None => [] end
          ++ [("size", num (blen (qr_bytes result)))])%list.

Definition post_authorize (request : EffectRequest) (result : QuarantinedEffectResult)
    (chunk : option N) : eff GatewayError unit :=
  let* post := lift (prepare (gw_kernel gw) (post_request request result chunk)) in
  let* s := summary post in
  event post "effect.release_requested.v1" EC_Effect s ;;*
  let* post_decision := decide post in
  if negb (bool_decide (pd_outcome post_decision = Allow)) then
    event post "effect.release_denied.v1" EC_Effect
      (release_denied_payload post_decision result chunk) ;;*
    fail (Denied ((if is_some chunk then "stream chunk post-effect release denied: "
                   else "post-effect release denied: ") ++s pd_reason post_decision))
  else ok tt.

Definition release_stream_chunk (request : EffectRequest) (obligations : PolicyObligations)
    (sequence : N) (result : QuarantinedEffectResult) : eff GatewayError ReleasedEffectResult :=
  verify_started_owner ;;*
  (if ob_require_post_effect obligations
   then post_authorize request result (Some sequence) else ok tt) ;;*
  event request "effect.chunk_released.v1" EC_Effect
    (Object [("content_hash", content_hash result); ("media_type", Str (qr_media_type result));
             ("sequence", num sequence); ("size", num (blen (qr_bytes result)))]) ;;*
  ok (mkReleased (qr_media_type result) (qr_bytes result)).

(** *** The stream sink *)

Inductive StreamSinkFailure :=
| SinkFailed (msg : string) | SinkUnknown (msg : string) | SinkDenied (msg : string).

Definition execution_error (f : StreamSinkFailure) : ExecutionError :=
  match f with
  | SinkFailed m => ExFailed m
  | SinkUnknown m => ExOutcomeUnknown m
  | SinkDenied m => ExReleaseDenied m
  end.

Record GatewayStreamSink := mkSink {
  sk_sequence : N;
  sk_total_bytes : N;
  sk_last : option QuarantinedEffectResult;
  sk_failure : option StreamSinkFailure;
}.
Definition sink_new : GatewayStreamSink := mkSink 0 0 None None.

Definition observation_failure (e : ExecutionError) : StreamSinkFailure :=
  let unknown m := SinkUnknown ("released stream observation failed: " ++s m) in
  match e with
  | ExProviderRejected f => unknown (reason_message (pf_reason f))
  | ExReleaseDenied m => SinkDenied m
  | ExFailed m | ExOutcomeUnknown m | ExRecoverable _ m _ _ | ExHttpStatus _ m => unknown m
  end.

(** [self.failure = Some(failure); return Err(error)]. *)
Definition sink_fail (f : StreamSinkFailure) (s : GatewayStreamSink)
    : result ExecutionError unit * GatewayStreamSink :=
  (Err (execution_error f), mkSink (sk_sequence s) (sk_total_bytes s) (sk_last s) (Some f)).

(** [GatewayStreamSink::observe]; [usize] is 64 bits wide. *)
Definition observe (request : EffectRequest) (obligations : PolicyObligations)
    (result : QuarantinedEffectResult) (s : GatewayStreamSink)
    : prog (Prelude.result ExecutionError unit * GatewayStreamSink) :=
  match sk_failure s with
  | Some f => Ret (Err (execution_error f), s)
  | None =>
      if negb (qr_effect_succeeded result) then
        Ret (sink_fail (SinkFailed "streaming adapter reported chunk failure") s)
      else
        let total := saturating_add (sk_total_bytes s) (blen (qr_bytes result)) in
        let s := mkSink (sk_sequence s) total (sk_last s) None in
        if (ob_max_output_bytes obligations <? total)%N then
          Ret (sink_fail (SinkUnknown "streamed effect output exceeds the cumulative permitted bound") s)
        else
          let s := mkSink (saturating_add (sk_sequence s) 1) total (sk_last s) None in
          pbind (release_stream_chunk request obligations (sk_sequence s) result) (fun r =>
            match r with
            | Err (Denied m) => Ret (sink_fail (SinkDenied m) s)
            | Err error => Ret (sink_fail (SinkUnknown
                ("stream release failed after execution began: " ++s gateway_error_text error)) s)
            | Ok released =>
                ask* o := ObserveReleased released in
                match o with
                | Err error => Ret (sink_fail (observation_failure error) s)
                | Ok _ => Ret (Ok tt, mkSink (sk_sequence s) (sk_total_bytes s) (Some result) None)
                end
            end)
  end.

(** The adapter runs against the sink. *)
Fixpoint run_adapter (request : EffectRequest) (obligations : PolicyObligations) (a : adapter)
    (s : GatewayStreamSink)
    : prog (Prelude.result ExecutionError QuarantinedEffectResult * GatewayStreamSink) :=
  ask* _ := AdapterYield in
  match a with
  | AdapterReturn r => Ret (r, s)
  | AdapterSubmit chunk k =>
      pbind (observe request obligations chunk s) (fun os =>
        run_adapter request obligations (k os.1) os.2)
  end.

(** [StreamBridge::execute]. *)
Definition bridge_result (r : result ExecutionError QuarantinedEffectResult)
    (s : GatewayStreamSink) : result ExecutionError QuarantinedEffectResult :=
  terminal ← r;
  match sk_failure s with
  | Some f => Err (execution_error f)
  | None =>
      if (sk_sequence s =? 0)%N || negb (bool_decide (sk_last s = Some terminal))
      then Err (ExFailed "streaming adapter terminal result did not match its last released chunk")
      else Ok terminal
  end.

(** [executor.execute(request, permit)], for both kinds of executor. *)
Definition run_executor (streaming : bool) (request : EffectRequest) (permit : ExecutionPermit)
    : eff ExecutionError QuarantinedEffectResult :=
  if streaming then
    ask* a := ExecuteStream request permit in
    pbind (run_adapter request (ep_obligations permit) a sink_new) (fun rs =>
      Ret (bridge_result rs.1 rs.2))
  else ask* r := Execute request permit in lift r.

(** *** [execute_owned] *)

(** Ownership checks while the future is pending; without a fence the timer has no
    ownership branch. *)
Fixpoint ticks {A} (n : nat) (p : prog (outcome A)) : prog (outcome A) :=
  match n with
  | O => p
  | S n' =>
      pbind verify_execution_fence (fun r =>
        match r with Ok _ => ticks n' p | Err _ => Ret OwnerLost end)
  end.

(** The future polled under the timer: whenever it is pending, the deadline or the loss of
    ownership may drop it. *)
Fixpoint interruptible {A} (p : prog A) : prog (outcome A) :=
  match p with
  | Ret a => Ret (Finished a)
  | Do q k =>
      Do q (fun x =>
        if is_await q then
          ask* t := Timer in
          match t with
          | Resume n => ticks n (interruptible (k x))
          | Elapsed n => ticks n (Ret TimedOut)
          end
        else interruptible (k x))
  end.

Definition execute_owned (streaming : bool) (request : EffectRequest) (permit : ExecutionPermit)
    : eff ExecutionError QuarantinedEffectResult :=
  emap_err (fun _ => ExOutcomeUnknown OWNER_LOST) verify_started_owner ;;*
  pbind (interruptible (run_executor streaming request permit)) (fun o =>
    match o with
    | OwnerLost => fail (ExOutcomeUnknown OWNER_LOST)
    | Finished r =>
        emap_err (fun _ => ExOutcomeUnknown OWNER_LOST) verify_started_owner ;;* lift r
    | TimedOut =>
        emap_err (fun _ => ExOutcomeUnknown OWNER_LOST) verify_started_owner ;;*
        fail (ExOutcomeUnknown "adapter timed out after execution began")
    end).

(** *** Settling the adapter's result *)

Definition failed {A} (request : EffectRequest) (payload : value) (error : GatewayError)
    : eff GatewayError A :=
  event request "effect.failed.v1" EC_Effect payload ;;* fail error.

Definition settle (request : EffectRequest)
    (r : result ExecutionError QuarantinedEffectResult) : eff GatewayError QuarantinedEffectResult :=
  match r with
  | Ok result => ok result
  | Err (ExProviderRejected f) => failed request
      (Object [("code", Str (reason_code (pf_reason f))); ("http_status", opt_num (pf_http_status f));
               ("message", Str (reason_message (pf_reason f))); ("recoverable", Bool false)])
      (ProviderRejected f)
  | Err (ExFailed m) => failed request (Object [("message", Str m)]) (Execution m)
  | Err (ExRecoverable code m status retry) => failed request
      (Object [("code", Str code); ("http_status", opt_num status); ("message", Str m);
               ("recoverable", Bool true); ("retry_after_ms", opt_num retry)])
      (RecoverableExecution code m status retry)
  | Err (ExHttpStatus status m) => failed request
      (Object [("http_status", num status); ("message", Str m); ("recoverable", Bool false)])
      (HttpStatus status m)
  | Err (ExOutcomeUnknown m) =>
      pbind verify_execution_fence (fun r =>
        match r with
        | Err _ => fail (OutcomeUnknown m)
        | Ok _ =>
            event request "effect.outcome_unknown.v1" EC_Effect (Object [("message", Str m)]) ;;*
            fail (OutcomeUnknown m)
        end)
  | Err (ExReleaseDenied m) => fail (Denied m)
  end.

(** *** Release *)

Definition release (streaming : bool) (request : EffectRequest) (decision : PolicyDecision)
    (result : QuarantinedEffectResult) : eff GatewayError ReleasedEffectResult :=
  verify_started_owner ;;*
  if (ob_max_output_bytes (pd_obligations decision) <? blen (qr_bytes result))%N then
    failed request (Object [("message", Str "quarantined output exceeded policy limit")])
      (Execution "quarantined output exceeded policy limit")
  else if negb (qr_effect_succeeded result) then
    failed request (Object [("message", Str "adapter reported effect failure")])
      (Execution "adapter reported effect failure")
  else
    (if ob_require_post_effect (pd_obligations decision) && negb streaming
     then post_authorize request result None else ok tt) ;;*
    event request "effect.completed.v1" EC_Effect
      (Object [("content_hash", content_hash result);
               ("decision_id", Str (pd_decision_id decision));
               ("resource_authority",
                 Str (authority_text (ob_resource_authority (pd_obligations decision))));
               ("size", num (blen (qr_bytes result)))]) ;;*
    ok (mkReleased (qr_media_type result) (qr_bytes result)).

(** [execute_internal]; [streaming] is [chunks_already_released]. *)
Definition execute_internal (streaming : bool) (request : EffectRequest)
    : eff GatewayError ReleasedEffectResult :=
  let* (context, request) := admission request in
  let* decision := decide request in
  let* (request, decision) := approve context request decision in
  let* permit := authorize request decision in
  verify_started_owner ;;*
  pbind (execute_owned streaming request permit) (fun r =>
    let* result := settle request r in
    release streaming request decision result).

(** [EffectGateway::execute] and [EffectGateway::execute_stream]. *)
Definition execute (request : EffectRequest) : eff GatewayError ReleasedEffectResult :=
  execute_internal false request.
Definition execute_stream (request : EffectRequest) : eff GatewayError ReleasedEffectResult :=
  execute_internal true request.

End Gateway.
