(* ===== verification/Permit.v ===== *)
(** * Execution permits

    The life of a permit in [gateway.rs]: [mint_permit] binds it to one request, decision,
    obligation set and actor for [PERMIT_LIFETIME_MS]; [authenticate_and_consume] redeems it
    once.  The specification is the predicate [redeemable]; the theorems say that redeeming
    implements it and that a minted permit meets it exactly for what it was minted for. *)

From S2P Require Import Prelude Json Contracts Network Boundary Platform CommandApproval Kernel.
From S2P Require Import Ports Gateway.

Open Scope string_scope.

Section Permit.
Context `{Externals}.
Context (gw : EffectGateway).

(** The permit after its [consumed] flag was swapped to [true]. *)
Definition consumed_permit (p : ExecutionPermit) : ExecutionPermit :=
  mkPermit (ep_request_hash p) (ep_decision_id p) (ep_obligations_hash p) (ep_actor_id p)
    (ep_nonce p) (ep_expires_at_unix_ms p) (ep_authentication_tag p) (ep_obligations p) true.

(** What the permit is bound to. *)
Definition bound_to (p : ExecutionPermit) (request : EffectRequest) (decision : PolicyDecision)
    : Prop :=
  request_hash request = Ok (ep_request_hash p) /\
  obligations_hash (pd_obligations decision) = Ok (ep_obligations_hash p) /\
  ep_decision_id p = pd_decision_id decision /\
  ep_actor_id p = actor_id (er_actor request).

(** The tag is the gateway's MAC of the permit's claims. *)
Definition authentic (p : ExecutionPermit) : Prop :=
  exists message, canonical_claims (permit_claims p) = Ok message /\
    ep_authentication_tag p = hmac_sha256 (gw_permit_key gw) message.

(** The specification of redeeming a permit at time [now]. *)
Definition redeemable (p : ExecutionPermit) (request : EffectRequest) (decision : PolicyDecision)
    (now : Z) : Prop :=
  bound_to p request decision /\ (now <= ep_expires_at_unix_ms p)%Z /\ authentic p /\
  ep_consumed p = false.

(** A run of redeeming, computed: the clock is read at most once. *)
Lemma consume_runs p request decision tr p' :
  runs (authenticate_and_consume gw p request decision) tr (Ok p') <->
  p' = consumed_permit p /\ exists now, tr = [Ev Now now] /\ redeemable p request decision now.
Proof.
  unfold authenticate_and_consume, redeemable, bound_to, authentic.
  destruct (request_hash request) as [rh|e]; cbn [lift ebind pbind fail runs];
    [|split; [by intros [_ [=]]|by intros (_ & ? & _ & ([=] & _) & _)]].
  destruct (obligations_hash (pd_obligations decision)) as [oh|e];
    cbn [lift ebind pbind fail runs];
    [|split; [by intros [_ [=]]|by intros (_ & ? & _ & (_ & [=] & _) & _)]].
  destruct (String.eqb_spec (ep_request_hash p) rh) as [<-|Hn];
    [|split; [by intros [_ [=]]|by intros (_ & ? & _ & ([=] & _) & _)]].
  destruct (String.eqb_spec (ep_decision_id p) (pd_decision_id decision)) as [Hd|Hn];
    [|split; [by intros [_ [=]]|by intros (_ & ? & _ & (_ & _ & ? & _) & _)]].
  destruct (String.eqb_spec (ep_obligations_hash p) oh) as [<-|Hn];
    [|split; [by intros [_ [=]]|by intros (_ & ? & _ & (_ & [=] & _) & _)]].
  destruct (String.eqb_spec (ep_actor_id p) (actor_id (er_actor request))) as [Ha|Hn];
    [|split; [by intros [_ [=]]|by intros (_ & ? & _ & (_ & _ & _ & ?) & _)]].
  cbn [negb orb ask pbind runs].
  split.
  - intros (now & tr' & -> & Hr).
    destruct (Z.ltb_spec (ep_expires_at_unix_ms p) now) as [Hlt|Hle]; [by destruct Hr as [_ [=]]|].
    destruct (canonical_claims (permit_claims p)) as [m|e]; cbn [lift ebind pbind] in Hr;
      [|by destruct Hr as [_ [=]]].
    destruct (String.eqb_spec (ep_authentication_tag p) (hmac_sha256 (gw_permit_key gw) m))
      as [Ht|]; [|by destruct Hr as [_ [=]]].
    cbn [negb] in Hr. destruct (ep_consumed p) eqn:Hc; destruct Hr as [-> Heq]; [done|]. injection Heq as ->.
    split; [done|]. exists now. split; [done|]. by split_and!; eauto.
  - intros (-> & now & -> & _ & Hle & (m & Hm & Ht) & Hc).
    exists now, []. split; [done|]. destruct (Z.ltb_spec (ep_expires_at_unix_ms p) now); [lia|].
    rewrite Hm. cbn [lift ebind pbind]. rewrite Ht, String.eqb_refl, Hc.
    unfold consumed_permit. by rewrite Ht.
Qed.

(** A refusal says that the permit does not fit, is not authentic or was used (or that a
    value has no canonical form). *)
Lemma consume_runs_err p request decision tr e :
  runs (authenticate_and_consume gw p request decision) tr (Err e) ->
  match e with Safety _ | Contract _ => True | _ => False end.
Proof.
  unfold authenticate_and_consume, request_hash, obligations_hash, canonical_request,
    canonical_obligations, canonical_claims.
  destruct (to_vec_request request); cbn; [|by intros [_ [= ->]]].
  destruct (to_vec_obligations _); cbn; [|by intros [_ [= ->]]].
  destruct (_ || _); cbn; [by intros [_ [= ->]]|]. intros (now & ? & -> & Hr). revert Hr.
  destruct (_ <? _)%Z; cbn; [by intros [_ [= ->]]|].
  destruct (to_vec_claims _); cbn; [|by intros [_ [= ->]]].
  destruct (negb _); cbn; [by intros [_ [= ->]]|].
  destruct (ep_consumed p); cbn; [by intros [_ [= ->]]|by intros [_ [=]]].
Qed.

Lemma mint_runs request hash decision tr p :
  runs (mint_permit gw request hash decision) tr (Ok p) ->
  exists now, ep_request_hash p = hash /\ ep_decision_id p = pd_decision_id decision /\
    obligations_hash (pd_obligations decision) = Ok (ep_obligations_hash p) /\
    ep_actor_id p = actor_id (er_actor request) /\ authentic p /\ ep_consumed p = false /\
    ep_expires_at_unix_ms p = (now + PERMIT_LIFETIME_MS)%Z /\ ep_obligations p = pd_obligations decision /\
    Ev Now now ∈ tr.
Proof.
  unfold mint_permit.
  destruct (obligations_hash (pd_obligations decision)) as [oh|e];
    cbn [lift ebind pbind ask runs fail]; [|by intros [_ [=]]].
  intros (nonce & ? & -> & now & ? & -> & Hr). revert Hr.
  destruct (canonical_claims _) as [m|e] eqn:Hm; cbn [lift ebind pbind ok fail runs];
    [|by intros [_ [=]]].
  intros [-> [= ->]]. exists now. split_and!; try done.
  - by exists m.
  - set_solver.
Qed.

(** The gateway accepts an execution permit exactly when the permit is
    bound to this very request, decision, obligation set and actor, has not expired at the
    time the clock shows, carries the gateway's authentication tag over its claims, and was
    never consumed; accepting it leaves it consumed and changes nothing else. *)
Lemma permit_redeemed_iff_valid (p : ExecutionPermit) (request : EffectRequest)
    (decision : PolicyDecision) (tr : list interaction) (p' : ExecutionPermit) :
  runs (authenticate_and_consume gw p request decision) tr (Ok p') <->
  p' = consumed_permit p /\ exists now, tr = [Ev Now now] /\ redeemable p request decision now.
Proof. apply consume_runs. Qed.

(** C37. A permit the gateway minted for a request and a decision is redeemed
    for exactly the requests and decisions with the same canonical hash, decision id,
    obligations hash and actor, within thirty seconds of minting; and once redeemed, every
    further attempt, for any request and at any time, is refused as a safety (or
    canonicalisation) failure. *)
Theorem minted_permit_single_use (request request' request'' : EffectRequest) (hash : string)
    (decision decision' decision'' : PolicyDecision) (tr tr' tr'' : list interaction)
    (p p' : ExecutionPermit) (res : result GatewayError ExecutionPermit) :
  runs (mint_permit gw request hash decision) tr (Ok p) ->
  runs (authenticate_and_consume gw p request' decision') tr' (Ok p') ->
  (request_hash request' = Ok hash /\ pd_decision_id decision' = pd_decision_id decision /\
   obligations_hash (pd_obligations decision') = obligations_hash (pd_obligations decision) /\
   actor_id (er_actor request') = actor_id (er_actor request) /\
   exists minted now, Ev Now minted ∈ tr /\ tr' = [Ev Now now] /\ (now <= minted + 30000)%Z) /\
  (runs (authenticate_and_consume gw p' request'' decision'') tr'' res ->
   exists e, res = Err e /\ match e with Safety _ | Contract _ => True | _ => False end).
Proof.
  intros Hm Hc. apply mint_runs in Hm as (now0 & <- & Hd & Ho & Ha & _ & _ & He & _ & Hin).
  apply consume_runs in Hc as (-> & now & -> & (Hr & Ho' & Hd' & Ha') & Hle & _).
  split.
  - split_and!; [done|congruence|congruence|congruence|].
    exists now0, now. split_and!; [done|done|]. rewrite He in Hle. exact Hle.
  - intros Hr2. destruct res as [p2|e].
    + apply consume_runs in Hr2 as (_ & ? & _ & _ & _ & _ & [=]).
    + exists e. split; [done|]. by eapply consume_runs_err.
Qed.

(** Every permit the gateway mints for a request's own hash is accepted
    for that request and decision at any time up to thirty seconds later: minting and
    redeeming agree on what the permit binds. *)
Lemma minted_permit_redeemable (request : EffectRequest) (hash : string)
    (decision : PolicyDecision) (tr : list interaction) (p : ExecutionPermit) :
  request_hash request = Ok hash ->
  runs (mint_permit gw request hash decision) tr (Ok p) ->
  exists minted, Ev Now minted ∈ tr /\ forall now, (now <= minted + 30000)%Z ->
    runs (authenticate_and_consume gw p request decision) [Ev Now now] (Ok (consumed_permit p)).
Proof.
  intros Hh Hm. apply mint_runs in Hm as (now0 & <- & Hd & Ho & Ha & Hauth & Hc & He & _ & Hin).
  exists now0. split; [done|]. intros now Hle. apply consume_runs. split; [done|].
  exists now. split; [done|]. repeat (split; [by auto|]). split; [rewrite He; exact Hle|done].
Qed.
End Permit.

(** ** Witnesses *)

Definition permit_gateway : EffectGateway := mkGateway (kernel_new ["fs"]) "key" false None.
Definition permit_request : EffectRequest := test_request "filesystem.write" "/work/a.txt" Null.
Definition permit_decision : PolicyDecision := test_decision Allow (test_obligations "native" Declared).
Definition request_text : string := "r1:filesystem.write:/work/a.txt".


Definition minted_example : ExecutionPermit :=
  mkPermit request_text "d1" "native:offline-default" "m" "nonce" 31000
    ("key#" ++ request_text ++ "|d1|native:offline-default|m|nonce") (pd_obligations permit_decision)
    false.
Definition mint_example_trace : list interaction := [Ev NewUuid "nonce"; Ev Now 1000%Z].

Lemma mint_example_runs :
  runs (mint_permit (H:=test_externals) permit_gateway permit_request request_text permit_decision)
    mint_example_trace (Ok minted_example).
Proof. vm_compute. by repeat eexists. Qed.

(** At the last millisecond of its life. *)
Lemma redeem_example_runs :
  runs (authenticate_and_consume (H:=test_externals) permit_gateway minted_example permit_request
    permit_decision) [Ev Now 31000%Z] (Ok (consumed_permit minted_example)).
Proof. vm_compute. by repeat eexists. Qed.

(** A second attempt within the life of the permit. *)
Lemma replay_example_runs :
  runs (authenticate_and_consume (H:=test_externals) permit_gateway (consumed_permit minted_example)
    permit_request permit_decision) [Ev Now 2000%Z]
    (Err (Safety "permit has already been consumed")).
Proof. vm_compute. by repeat eexists. Qed.

Lemma minted_permit_single_use_witness :
  (exists minted now, Ev Now minted ∈ mint_example_trace /\ [Ev Now 31000%Z] = [Ev Now now] /\
     (now <= minted + 30000)%Z) /\
  exists e, @Err _ ExecutionPermit (Safety "permit has already been consumed") = Err e /\
    match e with Safety _ | Contract _ => True | _ => False end.
Proof.
  destruct (minted_permit_single_use (H:=test_externals) permit_gateway permit_request
    permit_request permit_request request_text permit_decision permit_decision permit_decision
    mint_example_trace [Ev Now 31000%Z] [Ev Now 2000%Z] minted_example
    (consumed_permit minted_example) (Err (Safety "permit has already been consumed"))
    mint_example_runs redeem_example_runs) as [(_ & _ & _ & _ & Hb) Hreplay].
  split; [exact Hb|exact (Hreplay replay_example_runs)].
Defined.

Lemma minted_permit_redeemable_witness :
  exists minted, Ev Now minted ∈ mint_example_trace /\ forall now, (now <= minted + 30000)%Z ->
    runs (authenticate_and_consume (H:=test_externals) permit_gateway minted_example permit_request
      permit_decision) [Ev Now now] (Ok (consumed_permit minted_example)).
Proof.
  exact (minted_permit_redeemable (H:=test_externals) permit_gateway permit_request request_text
    permit_decision mint_example_trace minted_example eq_refl mint_example_runs).
Defined.
