(* ===== verification/Lifecycle.v ===== *)
(** * The life cycle of an effect

    The abstract specification of the gateway: a protocol on histories.  [phase] is the
    state of the effect's journal stream and adapter; [allowed] says which query may come
    next, in particular when a started event may be written, an adapter called, a chunk
    shown, and a terminal event written.  [Gateway.execute_internal] implements it
    ([execute_internal_wlp]): the theorems at the end read properties of all runs off the
    protocol. *)

From S2P Require Import Prelude Json Contracts Network Boundary Platform Redaction.
From S2P Require Import CommandApproval SchemaDisclosure Kernel Ports Gateway.

Open Scope string_scope.

(** ** Phases *)

Inductive phase := LFresh | LRequested | LStarted | LRunning | LClosed.
#[export] Instance phase_eq_dec : EqDecision phase.
Proof. solve_decision. Defined.

(** The event an [Append] made durable. *)
Definition appended (ev : interaction) : option NewEvent :=
  match ev with
  | Ev q a => match q as q return answer q -> option NewEvent with
              | Append e => fun a => match a with Ok _ => Some e | Err _ => None end
              | _ => fun _ => None
              end a
  end.
Definition calls_adapter (q : query) : bool :=
  match q with Execute _ _ | ExecuteStream _ _ => true | _ => false end.
(** The bytes a released chunk showed. *)
Definition shown (ev : interaction) : N :=
  match ev_query ev with ObserveReleased r => blen (rr_bytes r) | _ => 0 end.
Definition shown_bytes (h : list interaction) : N := foldr (fun e n => shown e + n)%N 0%N h.
(** How often an adapter was called. *)
Definition calls (h : list interaction) : nat :=
  length (List.filter (fun e => calls_adapter (ev_query e)) h).

Definition terminal_types : list string :=
  ["effect.completed.v1"; "effect.failed.v1"; "effect.outcome_unknown.v1"; "effect.denied.v1"].

Section Lifecycle.
Context `{Externals} `{CommandDisplay}.
Context (gw : EffectGateway) (request : EffectRequest).
Let main : string := effect_stream request.
Let k : SafetyKernel := gw_kernel gw.

(** What a durable event of the effect's own stream does to the phase. *)
Definition phase_event (p : phase) (event_type : string) : phase :=
  if String.eqb event_type "effect.requested.v1" then LRequested
  else if String.eqb event_type "effect.started.v1" then LStarted
  else if is_one_of event_type terminal_types then LClosed
  else p.

Definition phase_step (p : phase) (ev : interaction) : phase :=
  match appended ev with
  | Some e => if String.eqb (ne_stream_id e) main then phase_event p (ne_event_type e) else p
  | None => if calls_adapter (ev_query ev) && bool_decide (p = LStarted) then LRunning else p
  end.
Definition phase_of (h : list interaction) : phase := foldl phase_step LFresh h.

(** ** Facts about a history *)

(** The policy answered [d] for [r], and the kernel accepted it in the world it saw. *)
Definition decided (h : list interaction) (r : EffectRequest) (d : PolicyDecision) : Prop :=
  exists w projected, policy_projection k r = Ok projected /\
    Ev (Decide projected) (Ok d) ∈ h /\ Ev Observe_World w ∈ h /\
    validate_decision w.1 (kernel_at k w.2) (gw_active gw) r d = Ok tt.

(** [r] is the prepared request, up to the risk review and the approval. *)
Definition lineage (r : EffectRequest) : Prop :=
  exists r0, prepare k request = Ok r0 /\
    r = with_approval (er_approval r) (with_risk (er_risk r) r0).

(** The approval [r] carries was there from the start, or it was obtained for exactly this
    request after a decision that required it, from the approval provider or from a
    low-risk automatic review. *)
Definition auto_reviewed (h : list interaction) (r0 : EffectRequest) (d1 : PolicyDecision)
    (proof : ApprovalProof) : Prop :=
  Ev RiskAutoEnabled true ∈ h /\ risk_auto_ineligibility r0 = None /\
  ap_approved_by proof = AUTO_APPROVER /\
  exists a, Ev (Evaluate r0 d1) (Ok a) ∈ h /\ ra_risk_level a = Low /\
    ra_recommended_decision a = RR_Allow.
Definition approved (h : list interaction) (r : EffectRequest) : Prop :=
  er_approval r = er_approval request \/
  exists r0 r1 d1 proof context,
    decided h r0 d1 /\ pd_outcome d1 = RequireApproval /\
    r1 = with_risk (er_risk r1) r0 /\ r = with_approval (Some proof) r1 /\
    request_hash r1 = Ok (ap_request_hash proof) /\
    (Ev (RequestApproval r1 (ap_request_hash proof) d1 context) (Ok (Some proof)) ∈ h \/
     auto_reviewed h r0 d1 proof).

Definition permit_valid (h : list interaction) (r : EffectRequest) (d : PolicyDecision)
    (p : ExecutionPermit) : Prop :=
  request_hash r = Ok (ep_request_hash p) /\ ep_decision_id p = pd_decision_id d /\
  obligations_hash (pd_obligations d) = Ok (ep_obligations_hash p) /\
  ep_obligations p = pd_obligations d /\ ep_actor_id p = actor_id (er_actor r) /\
  ep_consumed p = true /\
  (exists message, canonical_claims (permit_claims p) = Ok message /\
     ep_authentication_tag p = hmac_sha256 (gw_permit_key gw) message) /\
  exists minted checked, Ev Now minted ∈ h /\ Ev Now checked ∈ h /\
    ep_expires_at_unix_ms p = (minted + PERMIT_LIFETIME_MS)%Z /\
    (checked <= ep_expires_at_unix_ms p)%Z.

Definition permitted (h : list interaction) (r : EffectRequest) (d : PolicyDecision)
    (p : ExecutionPermit) : Prop :=
  lineage r /\ decided h r d /\ pd_outcome d = Allow /\ approved h r /\ permit_valid h r d p.

Definition durable (h : list interaction) (r : EffectRequest) (event_type : string)
    (c : EventClassification) (payload : value) : Prop :=
  exists v, Ev (Append (new_event r event_type c payload v)) (Ok tt) ∈ h.

(** All that must have happened before the adapter sees [r] and [p]. *)
Definition authorized (h : list interaction) (r : EffectRequest) (p : ExecutionPermit) : Prop :=
  exists d, permitted h r d p /\
    durable h r "effect.started.v1" EC_Effect (started_payload d p).

(** Post-effect policy allowed the release of exactly this content. *)
Definition release_allowed (h : list interaction) (r : EffectRequest)
    (result : QuarantinedEffectResult) (chunk : option N) : Prop :=
  exists post pd, prepare k (post_request r result chunk) = Ok post /\
    decided h post pd /\ pd_outcome pd = Allow.

Definition chunk_payload (chunk : QuarantinedEffectResult) (sequence : N) : value :=
  Object [("content_hash", content_hash chunk); ("media_type", Str (qr_media_type chunk));
          ("sequence", num sequence); ("size", num (blen (qr_bytes chunk)))].
Definition completed_payload (d : PolicyDecision) (result : QuarantinedEffectResult) : value :=
  Object [("content_hash", content_hash result);
          ("decision_id", Str (pd_decision_id d));
          ("resource_authority",
            Str (authority_text (ob_resource_authority (pd_obligations d))));
          ("size", num (blen (qr_bytes result)))].
Definition released (result : QuarantinedEffectResult) : ReleasedEffectResult :=
  mkReleased (qr_media_type result) (qr_bytes result).

(** A chunk may be shown. *)
Definition chunk_releasable (h : list interaction) (rel : ReleasedEffectResult) : Prop :=
  exists r p a chunk sequence,
    Ev (ExecuteStream r p) a ∈ h /\ rel = released chunk /\
    durable h r "effect.chunk_released.v1" EC_Effect (chunk_payload chunk sequence) /\
    (ob_require_post_effect (ep_obligations p) = true ->
       release_allowed h r chunk (Some sequence)) /\
    ((ob_max_output_bytes (ep_obligations p) < u64_max)%N ->
       (shown_bytes h + blen (rr_bytes rel) <= ob_max_output_bytes (ep_obligations p))%N).

(** ** The protocol *)

Definition append_allowed (h : list interaction) (e : NewEvent) : Prop :=
  ne_stream_id e = main ->
  let p := phase_of h in
  if String.eqb (ne_event_type e) "effect.requested.v1" then p = LFresh
  else if String.eqb (ne_event_type e) "effect.started.v1" then
    p = LRequested /\ exists r d permit v, permitted h r d permit /\
      e = new_event r "effect.started.v1" EC_Effect (started_payload d permit) v
  else if String.eqb (ne_event_type e) "effect.denied.v1" then p = LRequested
  else if String.eqb (ne_event_type e) "effect.outcome_unknown.v1" then p = LStarted \/ p = LRunning
  else if is_one_of (ne_event_type e) terminal_types then p = LRunning
  else p <> LFresh /\ p <> LClosed.

Definition allowed (h : list interaction) (q : query) : Prop :=
  match q with
  | Append e => append_allowed h e
  | Execute r p | ExecuteStream r p => phase_of h = LStarted /\ authorized h r p
  | ObserveReleased rel => phase_of h = LRunning /\ chunk_releasable h rel
  | _ => True
  end.

(** ** Histories grow *)

Lemma phase_of_snoc h e : phase_of (h ++ [e])%list = phase_step (phase_of h) e.
Proof. unfold phase_of. by rewrite foldl_app. Qed.

Lemma shown_bytes_snoc h e : shown_bytes (h ++ [e])%list = (shown_bytes h + shown e)%N.
Proof. induction h; simpl; lia. Qed.

Lemma calls_snoc h e :
  calls (h ++ [e])%list = (calls h + if calls_adapter (ev_query e) then 1 else 0)%nat.
Proof. unfold calls. rewrite List.filter_app, length_app. simpl. by destruct (calls_adapter _). Qed.

(** Growth that shows nothing and calls no adapter. *)
Definition ext (h h' : list interaction) : Prop :=
  h ⊆ h' /\ shown_bytes h' = shown_bytes h /\ calls h' = calls h.
Lemma ext_trans h1 h2 h3 : ext h1 h2 -> ext h2 h3 -> ext h1 h3.
Proof.
  intros (Hs & Hb & Hc) (Hs' & Hb' & Hc'). split_and!; [|congruence|congruence].
  intros x Hx. auto.
Qed.

(** Events that neither move the phase nor show anything nor call an adapter. *)
Definition quiet (e : interaction) : Prop :=
  (forall p, phase_step p e = p) /\ shown e = 0%N /\ calls_adapter (ev_query e) = false.

Definition quiet_ext (h h' : list interaction) : Prop :=
  exists t, h' = (h ++ t)%list /\ Forall quiet t.

Lemma quiet_ext_refl h : quiet_ext h h.
Proof. exists []. by rewrite app_nil_r. Qed.
Lemma quiet_ext_snoc h h' e : quiet_ext h h' -> quiet e -> quiet_ext h (h' ++ [e])%list.
Proof.
  intros (t & -> & Ht) He. exists (t ++ [e])%list. rewrite app_assoc. split; [done|].
  apply Forall_app. split; [done|]. by constructor.
Qed.
Lemma quiet_ext_trans h1 h2 h3 : quiet_ext h1 h2 -> quiet_ext h2 h3 -> quiet_ext h1 h3.
Proof.
  intros (t & -> & Ht) (t' & -> & Ht'). exists (t ++ t')%list. rewrite app_assoc.
  split; [done|]. by apply Forall_app.
Qed.
Lemma quiet_ext_phase h h' : quiet_ext h h' -> phase_of h' = phase_of h.
Proof.
  intros (t & -> & Ht). unfold phase_of. rewrite foldl_app.
  generalize (foldl phase_step LFresh h). induction Ht as [|e t [He _] _ IH]; intros p; simpl; [done|].
  by rewrite He.
Qed.
Lemma quiet_ext_shown h h' : quiet_ext h h' -> shown_bytes h' = shown_bytes h.
Proof.
  intros (t & -> & Ht). revert h. induction Ht as [|e t (_ & He & _) _ IH]; intros h.
  - by rewrite app_nil_r.
  - change (e :: t) with ([e] ++ t)%list. rewrite app_assoc, IH, shown_bytes_snoc, He. lia.
Qed.
Lemma quiet_ext_calls h h' : quiet_ext h h' -> calls h' = calls h.
Proof.
  intros (t & -> & Ht). revert h. induction Ht as [|e t (_ & _ & He) _ IH]; intros h.
  - by rewrite app_nil_r.
  - change (e :: t) with ([e] ++ t)%list. rewrite app_assoc, IH, calls_snoc, He. lia.
Qed.
Lemma quiet_ext_sub h h' e : quiet_ext h h' -> e ∈ h -> e ∈ h'.
Proof. intros (t & -> & _) He. apply elem_of_app. by left. Qed.

(** Facts survive growth. *)
Lemma decided_mono h h' r d : h ⊆ h' -> decided h r d -> decided h' r d.
Proof. intros Hs (w & p & ? & ? & ? & ?). exists w, p. auto. Qed.
Lemma approved_mono h h' r : h ⊆ h' -> approved h r -> approved h' r.
Proof.
  intros Hs [?|(r0 & r1 & d1 & proof & ctx & Hd & ? & ? & ? & ? & Ho)]; [by left|right].
  exists r0, r1, d1, proof, ctx. split_and!; eauto using decided_mono.
  destruct Ho as [?|(? & ? & ? & a & ? & ? & ?)]; [left; auto|right].
  split_and!; auto. exists a. auto.
Qed.
Lemma permit_valid_mono h h' r d p : h ⊆ h' -> permit_valid h r d p -> permit_valid h' r d p.
Proof.
  intros Hs (? & ? & ? & ? & ? & ? & ? & m & c & ? & ? & ? & ?). split_and!; auto.
  exists m, c. auto.
Qed.
Lemma permitted_mono h h' r d p : h ⊆ h' -> permitted h r d p -> permitted h' r d p.
Proof.
  intros Hs (? & ? & ? & ? & ?).
  split_and!; eauto using decided_mono, approved_mono, permit_valid_mono.
Qed.
Lemma durable_mono h h' r t c v : h ⊆ h' -> durable h r t c v -> durable h' r t c v.
Proof. intros Hs (n & ?). exists n. auto. Qed.
Lemma authorized_mono h h' r p : h ⊆ h' -> authorized h r p -> authorized h' r p.
Proof. intros Hs (d & ? & ?). exists d. eauto using permitted_mono, durable_mono. Qed.
Lemma release_allowed_mono h h' r x c :
  h ⊆ h' -> release_allowed h r x c -> release_allowed h' r x c.
Proof. intros Hs (post & pd & ? & ? & ?). exists post, pd. eauto using decided_mono. Qed.

Lemma sub_app (h t : list interaction) : h ⊆ (h ++ t)%list.
Proof. intros x Hx. apply elem_of_app. by left. Qed.
Lemma sub_quiet h h' : quiet_ext h h' -> h ⊆ h'.
Proof. intros Hq x. by apply quiet_ext_sub. Qed.
Lemma quiet_ext_ext h h' : quiet_ext h h' -> ext h h'.
Proof.
  intros Hq. split_and!; [by apply sub_quiet|by apply quiet_ext_shown|by apply quiet_ext_calls].
Qed.
Lemma snoc_in (h : list interaction) e : e ∈ (h ++ [e])%list.
Proof. apply elem_of_app. right. by left. Qed.

(** ** Quiet queries *)

Lemma quiet_query q x :
  appended (Ev q x) = None -> calls_adapter q = false -> shown (Ev q x) = 0%N -> quiet (Ev q x).
Proof. intros Ha Hc Hs. split_and!; [|done|done]. intros p. unfold phase_step. by rewrite Ha; simpl; rewrite Hc. Qed.

Lemma quiet_append_err e x : quiet (Ev (Append e) (Err x)).
Proof. by apply quiet_query. Qed.

Lemma quiet_append_other e x : ne_stream_id e <> main -> quiet (Ev (Append e) x).
Proof.
  intros Hne. destruct x as [[]|x]; [|apply quiet_append_err]. split_and!; [|done|done].
  intros p. unfold phase_step. simpl. by rewrite (proj2 (String.eqb_neq _ _) Hne).
Qed.

(** The types that move the phase. *)
Definition moving_types : list string :=
  "effect.requested.v1" :: "effect.started.v1" :: terminal_types.

Lemma phase_event_quiet p t : is_one_of t moving_types = false -> phase_event p t = p.
Proof.
  unfold phase_event, moving_types, is_one_of. simpl. intros [H1 H2]%orb_false_iff.
  apply orb_false_iff in H2 as [H2 H3]. by rewrite H1, H2, H3.
Qed.

Lemma quiet_append_type e x : is_one_of (ne_event_type e) moving_types = false -> quiet (Ev (Append e) x).
Proof.
  intros Ht. destruct x as [[]|x]; [|apply quiet_append_err]. split_and!; [|done|done].
  intros p. unfold phase_step. simpl. destruct (String.eqb _ _); [|done].
  by apply phase_event_quiet.
Qed.

(** A history predicate that quiet events preserve. *)
Definition stable (I : list interaction -> Prop) : Prop :=
  forall h e, quiet e -> I h -> I (h ++ [e])%list.

Lemma stable_true : stable (fun _ => True).
Proof. by intros h e. Qed.
Lemma stable_phase p : stable (fun h => phase_of h = p).
Proof. intros h e [He _] Hh. by rewrite phase_of_snoc, He. Qed.

Abbreviation lwp := (wlp allowed).

Lemma wlp_event_quiet I r t c pl h (Q : list interaction -> result GatewayError unit -> Prop) :
  stable I -> I h ->
  (forall v, quiet (Ev (Append (new_event r t c pl v)) (Ok tt))) ->
  (forall h' v, quiet_ext h h' -> append_allowed h' (new_event r t c pl v)) ->
  (forall h', quiet_ext h h' -> I h' -> durable h' r t c pl -> Q h' (Ok tt)) ->
  (forall h' e, quiet_ext h h' -> I h' -> Q h' (Err (Journal e))) ->
  lwp I (event r t c pl) h Q.
Proof.
  intros Hst Hi Hq Hal Hok Herr. unfold event, ask. cbn [pbind]. simpl. split; [done|].
  intros tail. set (h1 := (h ++ [_])%list).
  assert (quiet (Ev (ReadTail (effect_stream r)) tail)) as Hq1 by by apply quiet_query.
  assert (quiet_ext h h1) as H1 by (apply quiet_ext_snoc; [apply quiet_ext_refl|done]).
  assert (I h1) as Hi1 by by apply Hst.
  split; [done|]. destruct tail as [v|e]; simpl; [|by apply Herr].
  split; [by apply Hal|]. intros x. set (h2 := (h1 ++ [_])%list).
  assert (quiet (Ev (Append (new_event r t c pl v)) x)) as Hq2
    by (destruct x as [[]|x]; [done|apply quiet_append_err]).
  assert (quiet_ext h h2) as H2 by by apply quiet_ext_snoc.
  assert (I h2) as Hi2 by by apply Hst.
  split; [done|]. destruct x as [[]|e]; simpl; [|by apply Herr].
  apply Hok; [done|done|]. exists v. apply snoc_in.
Qed.

Lemma wlp_event_move r t c pl h (Q : list interaction -> result GatewayError unit -> Prop) :
  effect_stream r = main ->
  (forall h' v, quiet_ext h h' -> append_allowed h' (new_event r t c pl v)) ->
  (forall h', ext h h' -> phase_of h' = phase_event (phase_of h) t ->
     durable h' r t c pl -> Q h' (Ok tt)) ->
  (forall h' e, quiet_ext h h' -> Q h' (Err (Journal e))) ->
  lwp (fun _ => True) (event r t c pl) h Q.
Proof.
  intros Hm Hal Hok Herr. unfold event, ask. cbn [pbind]. simpl. split; [done|].
  intros tail. set (h1 := (h ++ [_])%list). split; [done|].
  assert (quiet (Ev (ReadTail (effect_stream r)) tail)) as Hq1 by by apply quiet_query.
  assert (quiet_ext h h1) as H1 by (apply quiet_ext_snoc; [apply quiet_ext_refl|done]).
  destruct tail as [v|e]; simpl; [|by apply Herr].
  split; [by apply Hal|]. intros x. set (h2 := (h1 ++ [_])%list). split; [done|].
  destruct x as [[]|e]; simpl.
  - apply Hok.
    + apply (ext_trans _ h1); [by apply quiet_ext_ext|]. split_and!.
      * apply sub_app.
      * unfold h2. rewrite shown_bytes_snoc. apply N.add_0_r.
      * unfold h2. rewrite calls_snoc. apply Nat.add_0_r.
    + unfold h2. rewrite phase_of_snoc, (quiet_ext_phase h h1) by done. unfold phase_step.
      cbn [appended]. change (ne_stream_id (new_event r t c pl v)) with (effect_stream r).
      rewrite Hm. by rewrite String.eqb_refl.
    + exists v. apply snoc_in.
  - apply Herr. by apply quiet_ext_snoc, quiet_append_err.
Qed.

(** A query whose every answer is quiet. *)
Lemma wlp_ask_quiet {A} I q (f : answer q -> prog A) h Q :
  stable I -> I h -> allowed h q -> (forall x, quiet (Ev q x)) ->
  (forall x h', h' = (h ++ [Ev q x])%list -> quiet_ext h h' -> I h' -> lwp I (f x) h' Q) ->
  lwp I (pbind (ask q) f) h Q.
Proof.
  intros Hst Hi Ha Hq Hf. unfold ask. simpl. split; [done|]. intros x. split.
  - by apply Hst.
  - apply Hf; [done| |by apply Hst]. apply quiet_ext_snoc; [apply quiet_ext_refl|done].
Qed.

(** The fence. *)
Lemma wlp_fence I h (Q : list interaction -> result GatewayError unit -> Prop) :
  stable I -> I h ->
  (forall h', quiet_ext h h' -> I h' -> Q h' (Ok tt)) ->
  (forall h' e, quiet_ext h h' -> I h' -> Ev Fence (Err e) ∈ h' -> Q h' (Err (Journal e))) ->
  lwp I (verify_execution_fence gw) h Q.
Proof.
  intros Hst Hi Hok Herr. unfold verify_execution_fence. destruct (gw_fenced gw).
  - apply wlp_ask_quiet; try done. intros x h' -> Hq Hi'. simpl. destruct x as [[]|e]; simpl.
    + by apply Hok.
    + apply Herr; auto. apply snoc_in.
  - simpl. apply Hok; [apply quiet_ext_refl|done].
Qed.

(** ** Errors before the effect *)

(** What admission, policy and authorization can fail with. *)
Definition pre_error (e : GatewayError) : Prop :=
  match e with Safety _ | Policy _ | Contract _ | Journal _ => True | _ => False end.

(** What a check that asks nobody fails with. *)
Definition check_error (e : GatewayError) : Prop :=
  match e with Safety _ | Policy _ | Contract _ => True | _ => False end.
Lemma check_pre e : check_error e -> pre_error e.
Proof. by destruct e. Qed.

Lemma errs_canonical_request r : errs check_error (canonical_request r).
Proof. by apply errs_map_err. Qed.
Lemma errs_request_hash r : errs check_error (request_hash r).
Proof. unfold request_hash. apply errs_bind; [apply errs_canonical_request|intros; apply errs_ok]. Qed.
Lemma errs_obligations_hash o : errs check_error (obligations_hash o).
Proof.
  unfold obligations_hash. apply errs_bind; [by apply errs_map_err|intros; apply errs_ok].
Qed.
Lemma errs_size kr r : errs check_error (validate_policy_input_size kr r).
Proof.
  unfold validate_policy_input_size. apply errs_bind; [apply errs_canonical_request|].
  intros. by apply errs_reject.
Qed.
Lemma errs_projection kr r : errs check_error (policy_projection kr r).
Proof. unfold policy_projection. apply errs_bind; [apply errs_size|intros; apply errs_ok]. Qed.

Hint Resolve errs_canonical_request errs_request_hash errs_obligations_hash errs_size
  errs_projection : errs.

Lemma errs_display_arguments project vs b args : errs check_error (display_arguments project vs b args).
Proof. revert b. induction args as [|a args IH]; intros b; cbn [display_arguments]; solve_errs;
    try apply IH; done. Qed.
Hint Resolve errs_display_arguments : errs.

Lemma errs_command_context r : errs check_error (command_approval_context r).
Proof. unfold command_approval_context. solve_errs; done. Qed.
Hint Resolve errs_command_context : errs.

Lemma errs_prepare kr r : errs check_error (prepare kr r).
Proof.
  unfold prepare, redact_request_content, detach_schema, restore_schema. solve_errs; done.
Qed.
Hint Resolve errs_prepare : errs.

Lemma errs_canonical_origin u : errs check_error (canonical_network_origin u).
Proof. unfold canonical_network_origin. solve_errs; done. Qed.
Lemma errs_effect_path env p b : errs check_error (canonical_effect_path env p b).
Proof. unfold canonical_effect_path. solve_errs; done. Qed.
Hint Resolve errs_canonical_origin errs_effect_path : errs.

Lemma errs_validate env kr a r d : errs check_error (validate_decision env kr a r d).
Proof.
  unfold validate_decision, check_required_fields, check_backend, check_boundary, gate_validate,
    check_platform, check_environment, check_destinations, check_grants, check_protected,
    check_protected_path, check_allow, validate_filesystem_containment,
    validate_process_obligations, executable_allowed, check_transport,
    http_transport_authority_match, network_authority_match, network_destination_match.
  solve_errs; done.
Qed.
Hint Resolve errs_validate : errs.

(** ** [decide] *)

Lemma main_append_quiet h r t c pl v :
  phase_of h <> LFresh -> phase_of h <> LClosed -> is_one_of t moving_types = false ->
  append_allowed h (new_event r t c pl v).
Proof.
  intros Hf Hc Ht _. simpl. unfold moving_types, is_one_of in Ht. simpl in Ht.
  repeat apply orb_false_iff in Ht as [? Ht]. unfold is_one_of. simpl.
  repeat match goal with H : _ = false |- _ => rewrite H end. done.
Qed.

Lemma other_append h r t c pl v :
  effect_stream r <> main -> append_allowed h (new_event r t c pl v).
Proof. intros Hne Heq. by destruct Hne. Qed.

(** On another stream, nothing [decide] does concerns the phase. *)
Lemma wlp_event_other I r t c pl h (Q : list interaction -> result GatewayError unit -> Prop) :
  stable I -> I h -> effect_stream r <> main ->
  (forall h', quiet_ext h h' -> I h' -> durable h' r t c pl -> Q h' (Ok tt)) ->
  (forall h' e, quiet_ext h h' -> I h' -> Q h' (Err (Journal e))) ->
  lwp I (event r t c pl) h Q.
Proof.
  intros Hst Hi Hne. apply wlp_event_quiet; auto.
  - intros v. by apply quiet_append_other.
  - intros h' v _. by apply other_append.
Qed.

Lemma wlp_event_same I r t c pl h (Q : list interaction -> result GatewayError unit -> Prop) :
  stable I -> I h -> phase_of h <> LFresh -> phase_of h <> LClosed ->
  is_one_of t moving_types = false ->
  (forall h', quiet_ext h h' -> I h' -> durable h' r t c pl -> Q h' (Ok tt)) ->
  (forall h' e, quiet_ext h h' -> I h' -> Q h' (Err (Journal e))) ->
  lwp I (event r t c pl) h Q.
Proof.
  intros Hst Hi Hf Hc Ht. apply wlp_event_quiet; auto.
  - intros v. by apply quiet_append_type.
  - intros h' v Hq. apply main_append_quiet; try done; by rewrite (quiet_ext_phase _ _ Hq).
Qed.

Lemma wlp_ask_policy I r h (Q : list interaction -> result GatewayError PolicyDecision -> Prop) :
  stable I -> I h ->
  (forall h' e, quiet_ext h h' -> I h' -> pre_error e -> Q h' (Err e)) ->
  (forall h' d projected, quiet_ext h h' -> I h' -> policy_projection k r = Ok projected ->
     Ev (Decide projected) (Ok d) ∈ h' -> Q h' (Ok d)) ->
  lwp I (ask_policy gw r) h Q.
Proof.
  intros Hst Hi Herr Hok. unfold ask_policy. apply wlp_ebind, wlp_lift.
  destruct (policy_projection (gw_kernel gw) r) as [p|e] eqn:Ep.
  - apply wlp_ask_quiet; try done. intros x h' -> Hq Hi'. apply wlp_lift.
    destruct x as [d|e]; simpl; [|by apply Herr]. eapply Hok; eauto using snoc_in.
  - apply Herr; [apply quiet_ext_refl|done|]. by eapply check_pre, errs_projection.
Qed.

Lemma wlp_decide_post I r h (Q : list interaction -> result GatewayError PolicyDecision -> Prop) :
  stable I -> I h -> effect_stream r <> main ->
  (forall h' d, quiet_ext h h' -> I h' -> decided h' r d -> Q h' (Ok d)) ->
  (forall h' e, quiet_ext h h' -> I h' -> pre_error e -> Q h' (Err e)) ->
  lwp I (decide gw r) h Q.
Proof.
  intros Hst Hi Hne Hok Herr.
  assert (forall h1 kind reason e, quiet_ext h h1 -> I h1 -> pre_error e ->
    lwp I (deny_closed r kind reason e) h1 Q) as Hdeny.
  { intros h1 kind reason e Hq1 Hi1 He. unfold deny_closed.
    apply wlp_ebind, wlp_event_other; [done..| |].
    2: { intros h2 e' Hq2 Hi2. apply Herr; [by eapply quiet_ext_trans|done|done]. }
    intros h2 Hq2 Hi2 _. pose proof (quiet_ext_trans _ _ _ Hq1 Hq2) as Hq12.
    apply wlp_ebind, wlp_event_other; [done..| |].
    - intros h3 Hq3 Hi3 _. simpl. apply Herr; [by eapply quiet_ext_trans|done|done].
    - intros h3 e' Hq3 Hi3. apply Herr; [by eapply quiet_ext_trans|done|done]. }
  unfold decide. apply wlp_pbind, wlp_ask_policy; [done..| |].
  { intros h1 e Hq1 Hi1 He. by apply Hdeny. }
  intros h1 d projected Hq1 Hi1 Hp Hd.
  apply wlp_ask_quiet; try done. intros w h2 -> Hq2 Hi2.
  assert (quiet_ext h (h1 ++ [Ev Observe_World w])%list) as Hq by eauto using quiet_ext_trans.
  destruct (validate_decision _ _ _ _ _) as [[]|e] eqn:Ev.
  - apply wlp_ebind, wlp_event_other; [done..| |].
    + intros h3 Hq3 Hi3 _. apply Hok; [by eapply quiet_ext_trans|done|].
      exists w, projected. split; [done|]. split.
      * apply (sub_quiet _ _ Hq3), (sub_quiet _ _ Hq2). done.
      * split; [|done]. apply (sub_quiet _ _ Hq3), snoc_in.
    + intros h3 e Hq3 Hi3. apply Herr; [by eapply quiet_ext_trans|done|done].
  - apply Hdeny; [done|done|]. by eapply check_pre, errs_validate.
Qed.

(** How a stage that may close the effect ends badly: the phase is closed, or a journal
    failure stopped it where it was. *)
Definition stopped (h h' : list interaction) : Prop :=
  ext h h' /\ (phase_of h' = LClosed \/ phase_of h' = phase_of h).

Lemma stopped_quiet h h1 : quiet_ext h h1 -> stopped h h1.
Proof. intros Hq. split; [by apply quiet_ext_ext|right; by apply quiet_ext_phase]. Qed.
Lemma stopped_trans h h1 h2 : quiet_ext h h1 -> stopped h1 h2 -> stopped h h2.
Proof.
  intros Hq (Hs & Hp). split; [eauto using ext_trans, quiet_ext_ext|].
  by rewrite <- (quiet_ext_phase _ _ Hq).
Qed.

(** Writing [effect.denied.v1] on the main stream. *)
Lemma wlp_denied r pl h (Q : list interaction -> result GatewayError unit -> Prop) :
  effect_stream r = main -> phase_of h = LRequested ->
  (forall h', ext h h' -> phase_of h' = LClosed ->
     durable h' r "effect.denied.v1" EC_Effect pl -> Q h' (Ok tt)) ->
  (forall h' e, quiet_ext h h' -> Q h' (Err (Journal e))) ->
  lwp (fun _ => True) (event r "effect.denied.v1" EC_Effect pl) h Q.
Proof.
  intros Hm Hp Hok Herr. apply wlp_event_move; auto.
  intros h' v Hq _. simpl. by rewrite (quiet_ext_phase _ _ Hq).
Qed.

Lemma wlp_decide_pre r h (Q : list interaction -> result GatewayError PolicyDecision -> Prop) :
  effect_stream r = main -> phase_of h = LRequested ->
  (forall h' d, quiet_ext h h' -> decided h' r d -> Q h' (Ok d)) ->
  (forall h' e, stopped h h' -> pre_error e -> Q h' (Err e)) ->
  lwp (fun _ => True) (decide gw r) h Q.
Proof.
  intros Hm Hp Hok Herr.
  assert (forall h1 kind reason e, quiet_ext h h1 -> pre_error e ->
    lwp (fun _ => True) (deny_closed r kind reason e) h1 Q) as Hdeny.
  { intros h1 kind reason e Hq1 He. unfold deny_closed.
    pose proof (quiet_ext_phase _ _ Hq1) as Hp1. rewrite Hp in Hp1.
    apply wlp_ebind, wlp_event_same; [apply stable_true|done|congruence|congruence|done| |].
    2: { intros h2 e' Hq2 _. apply Herr; [|done]. eauto using stopped_quiet, quiet_ext_trans. }
    intros h2 Hq2 _ _. apply wlp_ebind, wlp_denied; [done| | |].
    - by rewrite (quiet_ext_phase _ _ Hq2).
    - intros h3 Hs3 Hp3 _. simpl. apply Herr; [|done].
      apply (stopped_trans _ _ _ (quiet_ext_trans _ _ _ Hq1 Hq2)). split; [done|by left].
    - intros h3 e' Hq3. apply Herr; [|done]. eauto using stopped_quiet, quiet_ext_trans. }
  unfold decide. apply wlp_pbind, wlp_ask_policy; [apply stable_true|done| |].
  { intros h1 e Hq1 _ He. by apply Hdeny. }
  intros h1 d projected Hq1 _ Hproj Hd.
  apply wlp_ask_quiet; try done. intros w h2 -> Hq2 _.
  assert (quiet_ext h (h1 ++ [Ev Observe_World w])%list) as Hq by eauto using quiet_ext_trans.
  pose proof (quiet_ext_phase _ _ Hq) as Hp2. rewrite Hp in Hp2.
  destruct (validate_decision _ _ _ _ _) as [[]|e] eqn:Ev.
  - apply wlp_ebind, wlp_event_same; [apply stable_true|done|congruence|congruence|done| |].
    + intros h3 Hq3 _ _. apply Hok; eauto using quiet_ext_trans.
      exists w, projected. split; [done|]. split.
      * apply (sub_quiet _ _ Hq3), (sub_quiet _ _ Hq2). done.
      * split; [|done]. apply (sub_quiet _ _ Hq3), snoc_in.
    + intros h3 e Hq3 _. apply Herr; [|done]. eauto using stopped_quiet, quiet_ext_trans.
  - apply Hdeny; [done|]. by eapply check_pre, errs_validate.
Qed.

End Lifecycle.

#[export] Hint Resolve errs_canonical_request errs_request_hash errs_obligations_hash
  errs_size errs_projection errs_display_arguments errs_command_context errs_prepare
  errs_canonical_origin errs_effect_path errs_validate : errs.
