(* ===== verification/Enforcement.v ===== *)
(** * The gateway implements the life cycle

    Every stage of [Gateway.execute_internal] follows the protocol of [Lifecycle]; the
    theorems at the end state, for all runs against all environments, what that means
    for authorization, release, approval and the classification of outcomes. *)

From S2P Require Import Prelude Json Contracts Network Boundary Platform Redaction.
From S2P Require Import CommandApproval SchemaDisclosure Kernel Builtin Ports Gateway Lifecycle.

Open Scope string_scope.

Section Stages.
Context `{Externals} `{CommandDisplay}.
Context (gw : EffectGateway) (request : EffectRequest).

Local Abbreviation main := (effect_stream request).
Local Abbreviation k := (gw_kernel gw).
Local Abbreviation allow := (allowed gw request).
Local Abbreviation phase := (phase_of request).
Local Abbreviation qext := (quiet_ext request).
Local Abbreviation anywhere := (fun _ : list interaction => True).

(** ** Same stream, other stream *)

Lemma effect_stream_id r1 r2 : er_request_id r1 = er_request_id r2 ->
  effect_stream r1 = effect_stream r2.
Proof. unfold effect_stream. by intros ->. Qed.

Lemma string_app_neq s t : t <> "" -> s ++s t <> s.
Proof.
  intros Ht. induction s as [|c s IH]; simpl; [done|]. intros [= Heq]. auto.
Qed.

Lemma string_app_inj p s t : p ++s s = p ++s t -> s = t.
Proof. induction p; simpl; [done|]. intros [= ?]. auto. Qed.

Lemma post_stream r result chunk post :
  prepare k (post_request r result chunk) = Ok post -> effect_stream r = main ->
  effect_stream post <> main.
Proof.
  intros Hp Hm. rewrite <- Hm. assert (er_request_id post = er_request_id (post_request r result chunk)) as Hid.
  { unfold prepare in Hp. inv_ok. unfold redact_request_content in *. inv_ok. done. }
  unfold effect_stream. rewrite Hid. intros Heq%string_app_inj. revert Heq. simpl.
  destruct chunk; apply string_app_neq; done.
Qed.

Lemma prepare_id r p : prepare k r = Ok p -> exists c, p = with_content c r.
Proof. unfold prepare, redact_request_content. intros Hp. inv_ok. eauto. Qed.

(** ** Admission *)

Lemma wlp_admit h (Q : list interaction -> result GatewayError (option CommandApprovalContext * EffectRequest) -> Prop) :
  phase h = LFresh ->
  (forall h' ctx r0, ext h h' -> phase h' = LRequested ->
     command_approval_context request = Ok ctx -> prepare k request = Ok r0 -> Q h' (Ok (ctx, r0))) ->
  (forall h' e, ext h h' -> phase h' = LFresh \/ phase h' = LRequested \/ phase h' = LClosed ->
     pre_error e -> Q h' (Err e)) ->
  wlp allow anywhere (admission gw request) h Q.
Proof.
  intros Hp Hok Herr. unfold admission.
  assert (forall h' e, qext h h' -> pre_error e -> Q h' (Err e)) as Hfresh.
  { intros h' e Hq He. apply Herr; [by eapply quiet_ext_ext| |done].
    left. by rewrite (quiet_ext_phase _ _ _ Hq). }
  apply wlp_ebind, wlp_fence; [apply stable_true|done| |intros h1 e Hq1 _ _; by apply Hfresh].
  intros h1 Hq1 _. apply wlp_ask_quiet; [apply stable_true|done|done|by intros; apply quiet_query|].
  intros recovery h2 _ Hq2 _. pose proof (quiet_ext_trans _ _ _ _ Hq1 Hq2) as Hq12.
  destruct recovery; [by apply Hfresh|]. case_match; [by apply Hfresh|].
  apply wlp_ebind. unfold summary.
  apply wlp_ask_quiet; [apply stable_true|done|done|by intros; apply quiet_query|].
  intros alive h3 _ Hq3 _. pose proof (quiet_ext_trans _ _ _ _ Hq12 Hq3) as Hq13.
  destruct alive; [|by apply Hfresh].
  apply wlp_ebind, wlp_event_move; [done| | |].
  - intros h4 v Hq4 _. simpl.
    by rewrite (quiet_ext_phase _ _ _ Hq4), (quiet_ext_phase _ _ _ Hq13).
  - intros h4 He4 Hp4 _. change (phase h4 = LRequested) in Hp4.
    pose proof (ext_trans _ _ _ (quiet_ext_ext _ _ _ Hq13) He4) as He.
    destruct (command_approval_context request) as [ctx|e] eqn:Ec;
      [destruct (prepare k request) as [r0|e] eqn:Er|].
    + apply (Hok h4 ctx r0); done.
    + apply wlp_ebind, wlp_denied; [done|done| |].
      * intros h5 He5 Hp5 _. simpl. apply Herr; [by eapply ext_trans|by right; right|].
        by eapply check_pre, errs_prepare.
      * intros h5 e' Hq5. apply Herr; [eauto using ext_trans, quiet_ext_ext| |done].
        right; left. by rewrite (quiet_ext_phase _ _ _ Hq5).
    + apply wlp_ebind, wlp_denied; [done|done| |].
      * intros h5 He5 Hp5 _. simpl. apply Herr; [by eapply ext_trans|by right; right|].
        by eapply check_pre, errs_command_context.
      * intros h5 e' Hq5. apply Herr; [eauto using ext_trans, quiet_ext_ext| |done].
        right; left. by rewrite (quiet_ext_phase _ _ _ Hq5).
  - intros h4 e Hq4. apply Hfresh; [by eapply quiet_ext_trans|done].
Qed.

(** ** Risk review *)

Lemma with_risk_id r : with_risk (er_risk r) r = r.
Proof. by destruct r. Qed.

Definition low_risk (h : list interaction) (r : EffectRequest) (d : PolicyDecision) : Prop :=
  Ev RiskAutoEnabled true ∈ h /\ risk_auto_ineligibility r = None /\
  exists a, Ev (Evaluate r d) (Ok a) ∈ h /\ ra_risk_level a = Low /\
    ra_recommended_decision a = RR_Allow.

Definition review_post (h : list interaction) (r : EffectRequest) (d : PolicyDecision)
    (h' : list interaction) (res : result GatewayError (EffectRequest * bool)) : Prop :=
  qext h h' /\
  match res with
  | Ok (r1, auto) => r1 = with_risk (er_risk r1) r /\ (auto = true -> low_risk h' r d)
  | Err e => exists s, e = Journal s
  end.

(** An event that cannot move the phase, while the effect is requested. *)
Lemma wlp_event_requested r t c pl h (Q : list interaction -> result GatewayError unit -> Prop) :
  phase h = LRequested -> is_one_of t moving_types = false ->
  (forall h', qext h h' -> durable h' r t c pl -> Q h' (Ok tt)) ->
  (forall h' e, qext h h' -> Q h' (Err (Journal e))) ->
  wlp allow anywhere (event r t c pl) h Q.
Proof.
  intros Hp Ht Hok Herr.
  apply wlp_event_same; [apply stable_true|done|congruence|congruence|done|auto|auto].
Qed.

Lemma wlp_risk_unavailable r0 d r f reason h0 h :
  phase h0 = LRequested -> qext h0 h ->
  wlp allow anywhere (risk_unavailable (with_risk r0 r) f reason) h (review_post h0 r d).
Proof.
  intros Hp Hq. pose proof (quiet_ext_phase _ _ _ Hq) as Hph. rewrite Hp in Hph.
  unfold risk_unavailable. apply wlp_ebind, wlp_event_requested; [done|done| |].
  - intros h1 Hq1 _.
    apply wlp_ask_quiet; [apply stable_true|done|done|by intros; apply quiet_query|].
    intros x h2 _ Hq2 _. split; [by do 2 (eapply quiet_ext_trans; [|eassumption])|]. done.
  - intros h1 e Hq1. split; [by eapply quiet_ext_trans|]. by eexists.
Qed.

Lemma wlp_review_risk r d h :
  phase h = LRequested -> wlp allow anywhere (review_risk r d) h (review_post h r d).
Proof.
  intros Hp. unfold review_risk.
  apply wlp_ask_quiet; [apply stable_true|done|done|by intros; apply quiet_query|].
  intros enabled h1 Eh1 Hq1 _. pose proof (quiet_ext_phase _ _ _ Hq1) as Hp1. rewrite Hp in Hp1.
  destruct enabled; simpl negb; cbv iota.
  2: { split; [done|]. split; [by rewrite with_risk_id|done]. }
  destruct (risk_auto_ineligibility r) as [reason|] eqn:Ei.
  { apply wlp_ebind, wlp_event_requested; [done|done| |].
    - intros h2 Hq2 _. split; [by eapply quiet_ext_trans|]. done.
    - intros h2 e Hq2. split; [by eapply quiet_ext_trans|]. by eexists. }
  apply wlp_ebind, wlp_event_requested; [done|done| |].
  2: { intros h2 e Hq2. split; [by eapply quiet_ext_trans|]. by eexists. }
  intros h2 Hq2 _. pose proof (quiet_ext_trans _ _ _ _ Hq1 Hq2) as Hq12.
  apply wlp_ask_quiet; [apply stable_true|done|done|by intros; apply quiet_query|].
  intros bound h3 _ Hq3 _. pose proof (quiet_ext_trans _ _ _ _ Hq12 Hq3) as Hq13.
  destruct bound; simpl negb; cbv iota;
    [|rewrite <- (with_risk_id r) at 1; by apply wlp_risk_unavailable].
  unfold assess. apply wlp_ask_quiet; [apply stable_true|done|done|by intros; apply quiet_query|].
  intros res h4 Eh4 Hq4 _. pose proof (quiet_ext_trans _ _ _ _ Hq13 Hq4) as Hq14.
  destruct res as [a|[m|m]];
    try (rewrite <- (with_risk_id r) at 1; by apply wlp_risk_unavailable).
  cbv zeta. case_match; [rewrite <- (with_risk_id r) at 1; by apply wlp_risk_unavailable|].
  apply wlp_ebind, wlp_event_requested; [by rewrite (quiet_ext_phase _ _ _ Hq14)|done| |].
  2: { intros h5 e Hq5. split; [by eapply quiet_ext_trans|]. by eexists. }
  intros h5 Hq5 _. split; [by eapply quiet_ext_trans|]. split; [done|].
  intros [Hl Hr]%andb_true_iff. apply bool_decide_eq_true in Hl, Hr. split_and!.
  - apply (quiet_ext_sub request h1); [by do 3 (eapply quiet_ext_trans; [eassumption|])|].
    subst h1. apply snoc_in.
  - done.
  - exists a. split_and!; [|done|done]. apply (quiet_ext_sub request h4 _ _ Hq5).
    subst h4. apply snoc_in.
Qed.

(** ** Approval *)

Definition own (r : EffectRequest) : Prop :=
  lineage gw request r /\ effect_stream r = main.

Lemma own_with_approval a x r : own r -> own (with_approval a (with_risk x r)).
Proof.
  intros [(r0 & Hr0 & Hr) Hs]. split; [|done]. exists r0. split; [done|].
  rewrite Hr. by destruct r0.
Qed.

Definition approve_post (h : list interaction)
    (h' : list interaction) (res : result GatewayError (EffectRequest * PolicyDecision)) : Prop :=
  match res with
  | Ok (r, d) => qext h h' /\ own r /\ decided gw h' r d /\ approved gw request h' r
  | Err e => stopped request h h' /\
      (pre_error e \/ exists m, e = Approval m)
  end.

Lemma stopped_ext h h1 h2 : qext h h1 -> stopped request h1 h2 -> stopped request h h2.
Proof. apply stopped_trans. Qed.

Lemma wlp_deny_approval {A} r d t detail reason e h0 h (Q : list interaction -> result GatewayError A -> Prop) :
  phase h0 = LRequested -> qext h0 h -> effect_stream r = main ->
  is_one_of t moving_types = false ->
  (forall h' e', stopped request h0 h' -> e' = e \/ pre_error e' -> Q h' (Err e')) ->
  wlp allow anywhere (deny_approval r d t detail reason e) h Q.
Proof.
  intros Hp Hq Hm Ht HQ. pose proof (quiet_ext_phase _ _ _ Hq) as Hp1. rewrite Hp in Hp1.
  unfold deny_approval. apply wlp_ebind, wlp_event_requested; [done|done| |].
  2: { intros h1 e' Hq1. apply HQ; [|by right]. apply stopped_quiet. by eapply quiet_ext_trans. }
  intros h1 Hq1 _. pose proof (quiet_ext_trans _ _ _ _ Hq Hq1) as Hq01.
  apply wlp_ebind, wlp_denied; [done|by rewrite (quiet_ext_phase _ _ _ Hq1)| |].
  - intros h2 He2 Hp2 _. simpl. apply HQ; [|by left]. apply (stopped_ext _ _ _ Hq01).
    split; [done|by left].
  - intros h2 e' Hq2. apply HQ; [|by right]. apply stopped_quiet. by eapply quiet_ext_trans.
Qed.

(** The proof the gateway goes on with. *)
Definition proof_obtained (h : list interaction) (r0 r1 : EffectRequest) (d : PolicyDecision)
    (context : option CommandApprovalContext) (hash : string) (proof : ApprovalProof) : Prop :=
  Ev (RequestApproval r1 hash d context) (Ok (Some proof)) ∈ h \/
  (low_risk h r0 d /\ ap_approved_by proof = AUTO_APPROVER).

Lemma wlp_obtain_approval r0 r1 hash d context auto h
    (Q : list interaction -> result GatewayError (result PolicyError (option ApprovalProof)) -> Prop) :
  (auto = true -> low_risk h r0 d) ->
  (forall h' res, qext h h' ->
     (forall proof, res = Ok (Some proof) -> proof_obtained h' r0 r1 d context hash proof) ->
     Q h' (Ok res)) ->
  (forall h' e, qext h h' -> pre_error e -> Q h' (Err e)) ->
  wlp allow anywhere (obtain_approval r1 hash d context auto) h Q.
Proof.
  intros Hauto Hok Herr. unfold obtain_approval. destruct auto.
  - apply wlp_ebind. unfold approval_proof.
    apply wlp_ask_quiet; [apply stable_true|done|done|by intros; apply quiet_query|].
    intros t h1 _ Hq1 _. apply wlp_ebind, wlp_lift. destruct t as [t|e]; simpl.
    + split; [done|]. intros id. split; [done|].
      assert (qext h (h1 ++ [Ev NewUuid id])%list) as Hq2
        by (apply quiet_ext_snoc; [done|by apply quiet_query]).
      apply Hok; [done|]. intros proof [= <-]. right. split; [|done].
      destruct (Hauto eq_refl) as (He & Hi & a & Ha & ? & ?).
      split_and!; [by apply (quiet_ext_sub request _ _ _ Hq2)|done|].
      exists a. split_and!; [by apply (quiet_ext_sub request _ _ _ Hq2)|done|done].
    + by apply Herr.
  - apply wlp_ask_quiet; [apply stable_true|done|done|by intros; apply quiet_query|].
    intros res h1 Eh1 Hq1 _. apply Hok; [done|]. intros proof ->. left. subst h1. apply snoc_in.
Qed.

Lemma wlp_granted r proof auto h (Q : list interaction -> result GatewayError unit -> Prop) :
  phase h = LRequested ->
  (forall h', qext h h' -> Q h' (Ok tt)) ->
  (forall h' e, qext h h' -> Q h' (Err (Journal e))) ->
  wlp allow anywhere (granted r proof auto) h Q.
Proof.
  intros Hp Hok Herr. unfold granted. apply wlp_ebind, wlp_event_requested; [done|done| |done].
  intros h1 Hq1 _. destruct auto; [|by apply Hok].
  apply wlp_ask_quiet; [apply stable_true|done|done|by intros; apply quiet_query|].
  intros x h2 _ Hq2 _. apply Hok. by eapply quiet_ext_trans.
Qed.

Lemma wlp_approve context r d h :
  phase h = LRequested -> own r -> er_approval r = er_approval request -> decided gw h r d ->
  wlp allow anywhere (approve gw context r d) h (approve_post h).
Proof.
  intros Hp Hown Happ Hdec. unfold approve.
  destruct (bool_decide (pd_outcome d = RequireApproval)) eqn:Eo; simpl negb; cbv iota.
  2: { split; [apply quiet_ext_refl|]. split_and!; [done|done|by left]. }
  apply bool_decide_eq_true in Eo. apply wlp_ebind.
  assert (wlp allow anywhere
    (match context with
     | Some c => event r "approval.requested.v1" EC_Approval (Object [("command_context", context_json c)])
     | None => ok tt end) h
    (fun h' res => qext h h' /\ match res with Ok _ => True | Err e => exists s, e = Journal s end))
    as Hreq.
  { destruct context; [|split; [apply quiet_ext_refl|done]].
    apply wlp_event_requested; [done|done|by intros|intros h1 e Hq; split; [done|by eexists]]. }
  eapply wlp_mono; [exact Hreq|]. intros h1 [_|e] [Hq1 Hev];
    [|destruct Hev as [s ->]; split; [by apply stopped_quiet|by left]].
  apply wlp_ebind. eapply wlp_mono; [apply wlp_review_risk; by rewrite (quiet_ext_phase _ _ _ Hq1)|].
  intros h2 [[r1 auto]|e] [Hq2 Hrev]; pose proof (quiet_ext_trans _ _ _ _ Hq1 Hq2) as Hq12;
    [|destruct Hrev as [s ->]; split; [by apply stopped_quiet|by left]].
  destruct Hrev as [Hr1 Hauto]. apply wlp_ebind, wlp_lift.
  destruct (request_hash r1) as [hash|e] eqn:Eh;
    [|split; [by apply stopped_quiet|left; by eapply check_pre, errs_request_hash]].
  apply wlp_ebind, (wlp_obtain_approval r); [done| |].
  2: { intros h3 e Hq3 He. split; [apply stopped_quiet; by eapply quiet_ext_trans|by left]. }
  intros h3 res Hq3 Hres. pose proof (quiet_ext_trans _ _ _ _ Hq12 Hq3) as Hq13.
  pose proof (quiet_ext_phase _ _ _ Hq13) as Hp3. rewrite Hp in Hp3.
  assert (own r1) as Hown1.
  { destruct (own_with_approval (er_approval r) (er_risk r1) r Hown) as [Hl Hs].
    assert (with_approval (er_approval r) (with_risk (er_risk r1) r) = r1) as Heq
      by (rewrite Hr1 at 2; by destruct r). by rewrite Heq in Hl, Hs. }
  destruct res as [[proof|]|e].
  - specialize (Hres proof eq_refl).
    destruct (String.eqb_spec (ap_request_hash proof) hash) as [Hph|]; simpl negb; cbv iota;
      [|split; [by apply stopped_quiet|right; by eexists]].
    apply wlp_ebind, wlp_granted; [done| |].
    2: { intros h4 e Hq4. split; [apply stopped_quiet; by eapply quiet_ext_trans|by left]. }
    intros h4 Hq4. pose proof (quiet_ext_trans _ _ _ _ Hq13 Hq4) as Hq14.
    apply wlp_ebind, wlp_decide_pre; [apply Hown1|by rewrite (quiet_ext_phase _ _ _ Hq14)| |].
    + intros h5 d' Hq5 Hd5. pose proof (quiet_ext_trans _ _ _ _ Hq14 Hq5) as Hq15.
      split; [done|]. split.
      { destruct (own_with_approval (Some proof) (er_risk r1) r1 Hown1) as [Hl Hs].
        by rewrite with_risk_id in Hl, Hs. }
      split; [done|]. right. exists r, r1, d, proof, context. split_and!; try done.
      * apply (decided_mono gw h); [by apply sub_quiet with request|done].
      * by rewrite Hph.
      * subst hash. assert (h3 ⊆ h5) as Hsub.
        { apply (sub_quiet request). by eapply quiet_ext_trans. }
        destruct Hres as [Hr|[(Hen & Hin & a & Ha & ? & ?) ?]]; [left; auto|right].
        split_and!; auto. exists a. auto.
    + intros h5 e Hs He. split; [by eapply stopped_ext|by left].
  - apply (wlp_deny_approval _ _ _ _ _ _ h); [done|done|apply Hown1|done|].
    intros h4 e' Hs [->|He']; (split; [done|]); [right; by eexists|by left].
  - apply (wlp_deny_approval _ _ _ _ _ _ h); [done|done|apply Hown1|done|].
    intros h4 e' Hs [->|He']; (split; [done|]); by left.
Qed.

(** ** Authorization *)

Lemma wlp_mint r hash d h (Q : list interaction -> result GatewayError ExecutionPermit -> Prop) :
  (forall h' p now, qext h h' -> Ev Now now ∈ h' -> ep_request_hash p = hash ->
     ep_decision_id p = pd_decision_id d -> ep_obligations p = pd_obligations d ->
     ep_expires_at_unix_ms p = (now + PERMIT_LIFETIME_MS)%Z -> Q h' (Ok p)) ->
  (forall h' e, qext h h' -> pre_error e -> Q h' (Err e)) ->
  wlp allow anywhere (mint_permit gw r hash d) h Q.
Proof.
  intros Hok Herr. unfold mint_permit. apply wlp_ebind, wlp_lift.
  destruct (obligations_hash (pd_obligations d)) as [oh|e] eqn:Eo;
    [|apply Herr; [apply quiet_ext_refl|by eapply check_pre, errs_obligations_hash]].
  apply wlp_ask_quiet; [apply stable_true|done|done|by intros; apply quiet_query|].
  intros nonce h1 _ Hq1 _.
  apply wlp_ask_quiet; [apply stable_true|done|done|by intros; apply quiet_query|].
  intros now h2 Eh2 Hq2 _. pose proof (quiet_ext_trans _ _ _ _ Hq1 Hq2) as Hq12.
  apply wlp_ebind, wlp_lift.
  destruct (canonical_claims _) as [m|e] eqn:Ec.
  - apply (Hok h2 _ now); [done| |done..]. subst h2. apply snoc_in.
  - apply Herr; [done|]. unfold canonical_claims, map_err in Ec. case_match; by simplify_eq.
Qed.

Lemma wlp_consume p r d h (Q : list interaction -> result GatewayError ExecutionPermit -> Prop) :
  (forall h' p' checked, qext h h' -> Ev Now checked ∈ h' ->
     request_hash r = Ok (ep_request_hash p) -> ep_decision_id p = pd_decision_id d ->
     obligations_hash (pd_obligations d) = Ok (ep_obligations_hash p) ->
     ep_actor_id p = actor_id (er_actor r) -> (checked <= ep_expires_at_unix_ms p)%Z ->
     (exists m, canonical_claims (permit_claims p) = Ok m /\
        ep_authentication_tag p = hmac_sha256 (gw_permit_key gw) m) ->
     ep_consumed p = false ->
     p' = mkPermit (ep_request_hash p) (ep_decision_id p) (ep_obligations_hash p) (ep_actor_id p)
       (ep_nonce p) (ep_expires_at_unix_ms p) (ep_authentication_tag p) (ep_obligations p) true ->
     Q h' (Ok p')) ->
  (forall h' e, qext h h' -> pre_error e -> Q h' (Err e)) ->
  wlp allow anywhere (authenticate_and_consume gw p r d) h Q.
Proof.
  intros Hok Herr. unfold authenticate_and_consume. apply wlp_ebind, wlp_lift.
  destruct (request_hash r) as [rh|e] eqn:Er;
    [|apply Herr; [apply quiet_ext_refl|by eapply check_pre, errs_request_hash]].
  apply wlp_ebind, wlp_lift.
  destruct (obligations_hash (pd_obligations d)) as [oh|e] eqn:Eo;
    [|apply Herr; [apply quiet_ext_refl|by eapply check_pre, errs_obligations_hash]].
  case_match eqn:Em; [apply Herr; [apply quiet_ext_refl|done]|].
  apply orb_false_iff in Em as [Em Ha]. apply orb_false_iff in Em as [Em Ho].
  apply orb_false_iff in Em as [Hr Hd].
  apply negb_false_iff, String.eqb_eq in Hr, Hd, Ho, Ha. subst rh oh.
  apply wlp_ask_quiet; [apply stable_true|done|done|by intros; apply quiet_query|].
  intros now h1 Eh1 Hq1 _. destruct (Z.ltb_spec (ep_expires_at_unix_ms p) now); [by apply Herr|].
  apply wlp_ebind, wlp_lift.
  destruct (canonical_claims _) as [m|e] eqn:Ec.
  2: { apply Herr; [done|]. unfold canonical_claims, map_err in Ec. case_match; by simplify_eq. }
  destruct (String.eqb_spec (ep_authentication_tag p) (hmac_sha256 (gw_permit_key gw) m));
    simpl negb; cbv iota; [|by apply Herr].
  destruct (ep_consumed p) eqn:Econ; [by apply Herr|].
  apply (Hok h1 _ now); try done; [subst h1; apply snoc_in|]. by exists m.
Qed.

Definition authorize_post (r : EffectRequest) (d : PolicyDecision) (h h' : list interaction)
    (res : result GatewayError ExecutionPermit) : Prop :=
  match res with
  | Ok p => ext h h' /\ phase h' = LStarted /\ authorized gw request h' r p /\
      permitted gw request h' r d p
  | Err e => stopped request h h' /\ (pre_error e \/ (phase h' = LClosed /\ exists m, e = Denied m))
  end.

Lemma wlp_authorize r d h :
  phase h = LRequested -> own r -> decided gw h r d -> approved gw request h r ->
  wlp allow anywhere (authorize gw r d) h (authorize_post r d h).
Proof.
  intros Hp [Hlin Hm] Hdec Happ. unfold authorize.
  destruct (bool_decide (pd_outcome d = Allow)) eqn:Eo; simpl negb; cbv iota.
  2: { apply wlp_ebind, wlp_denied; [done|done| |].
       - intros h1 He1 Hp1 _. split; [split; [done|by left]|]. right. split; [done|by eexists].
       - intros h1 e Hq1. split; [by apply stopped_quiet|by left]. }
  apply bool_decide_eq_true in Eo. apply wlp_ebind, wlp_lift.
  assert (forall h' e, qext h h' -> pre_error e -> authorize_post r d h h' (Err e)) as Herr.
  { intros h' e Hq He. split; [by apply stopped_quiet|by left]. }
  destruct (request_hash r) as [hash|e] eqn:Er;
    [|apply Herr; [apply quiet_ext_refl|by eapply check_pre, errs_request_hash]].
  apply wlp_ebind, wlp_mint; [|done].
  intros h1 p minted Hq1 Hmint Hph Hpd Hpo Hpe. apply wlp_ebind, wlp_consume;
    [|intros h2 e Hq2; apply Herr; by eapply quiet_ext_trans].
  intros h2 p' checked Hq2 Hchk Hrh Hdi Hoh Hact Hexp Htag Hcons ->.
  pose proof (quiet_ext_trans _ _ _ _ Hq1 Hq2) as Hq12.
  pose proof (quiet_ext_phase _ _ _ Hq12) as Hp2. rewrite Hp in Hp2.
  set (p' := mkPermit _ _ _ _ _ _ _ _ true).
  assert (permitted gw request h2 r d p') as Hperm.
  { split_and!; [done|by eapply decided_mono; [by eapply (sub_quiet request)|]|done
      |by eapply approved_mono; [by eapply (sub_quiet request)|]|].
    unfold permit_valid, p'; simpl. split_and!; try done. exists minted, checked.
    split_and!; [by apply (quiet_ext_sub request _ _ _ Hq2)|done|done|done]. }
  apply wlp_ebind, wlp_event_move; [done| | |].
  - intros h3 v Hq3 _. simpl. split; [by rewrite (quiet_ext_phase _ _ _ Hq3)|].
    exists r, d, p', v. split; [|done].
    eapply permitted_mono; [by eapply (sub_quiet request)|done].
  - intros h3 He3 Hp3 Hd3. simpl. rewrite Hp2 in Hp3. simpl in Hp3.
    assert (permitted gw request h3 r d p') as Hperm3 by (eapply permitted_mono; [apply He3|done]).
    split; [eapply ext_trans; [by eapply quiet_ext_ext|done]|].
    split; [done|]. split; [|done]. exists d. split; [done|exact Hd3].
  - intros h3 e Hq3. apply Herr; [by eapply quiet_ext_trans|done].
Qed.

(** ** Post-effect authorization and stream chunks *)

Lemma wlp_post_authorize I r c chunk h (Q : list interaction -> result GatewayError unit -> Prop) :
  stable request I -> I h -> effect_stream r = main ->
  (forall h', qext h h' -> I h' -> release_allowed gw h' r c chunk -> Q h' (Ok tt)) ->
  (forall h' e, qext h h' -> I h' -> pre_error e \/ (exists m, e = Denied m) -> Q h' (Err e)) ->
  wlp allow I (post_authorize gw r c chunk) h Q.
Proof.
  intros Hst Hi Hm Hok Herr. unfold post_authorize. apply wlp_ebind, wlp_lift.
  destruct (prepare k (post_request r c chunk)) as [post|e] eqn:Ep;
    [|apply Herr; [apply quiet_ext_refl|done|left; by eapply check_pre, errs_prepare]].
  pose proof (post_stream _ _ _ _ Ep Hm) as Hne.
  apply wlp_ebind. unfold summary.
  apply wlp_ask_quiet; [done|done|done|by intros; apply quiet_query|].
  intros alive h1 _ Hq1 Hi1. destruct alive; [|apply Herr; [done|done|by left]].
  apply wlp_ebind, wlp_event_other; [done..| |].
  2: { intros h2 e Hq2 Hi2. apply Herr; [by eapply quiet_ext_trans|done|by left]. }
  intros h2 Hq2 Hi2 _. pose proof (quiet_ext_trans _ _ _ _ Hq1 Hq2) as Hq12.
  apply wlp_ebind, wlp_decide_post; [done..| |].
  2: { intros h3 e Hq3 Hi3 He. apply Herr; [by eapply quiet_ext_trans|done|by left]. }
  intros h3 d Hq3 Hi3 Hd. pose proof (quiet_ext_trans _ _ _ _ Hq12 Hq3) as Hq13.
  destruct (bool_decide (pd_outcome d = Allow)) eqn:Eo; simpl negb; cbv iota.
  - apply bool_decide_eq_true in Eo. apply Hok; [done|done|]. by exists post, d.
  - apply wlp_ebind, wlp_event_other; [done..| |].
    + intros h4 Hq4 Hi4 _. apply Herr; [by eapply quiet_ext_trans|done|right; by eexists].
    + intros h4 e Hq4 Hi4. apply Herr; [by eapply quiet_ext_trans|done|by left].
Qed.

Lemma wlp_started_owner I h (Q : list interaction -> result GatewayError unit -> Prop) :
  stable request I -> I h ->
  (forall h', qext h h' -> I h' -> Q h' (Ok tt)) ->
  (forall h', qext h h' -> I h' -> (exists e, Ev Fence (Err e) ∈ h') ->
     Q h' (Err (OutcomeUnknown OWNER_LOST))) ->
  wlp allow I (verify_started_owner gw) h Q.
Proof.
  intros Hst Hi Hok Herr. apply wlp_emap_err, wlp_fence; [done|done|auto|].
  intros h' e Hq Hi' Hf. apply Herr; eauto.
Qed.

Section Execution.
Context (r : EffectRequest) (d : PolicyDecision) (p : ExecutionPermit) (h0 : list interaction).
Context (Hstream : effect_stream r = main).

(** While the adapter may be running. *)
Definition running (h : list interaction) : Prop :=
  phase h = LRunning /\ calls h = 1%nat /\ h0 ⊆ h.

Lemma stable_running : stable request running.
Proof.
  intros h e Hq (Hp & Hc & Hs). pose proof Hq as (Hq1 & _ & Hq3). split_and!.
  - by rewrite phase_of_snoc, Hq1.
  - by rewrite calls_snoc, Hq3, Hc.
  - intros x Hx. by apply sub_app, Hs.
Qed.

(** Histories the protocol cannot tell apart. *)
Definition sim (h h' : list interaction) : Prop := ext h h' /\ phase h' = phase h.

Lemma sim_quiet h h' : qext h h' -> sim h h'.
Proof. intros Hq. split; [by eapply quiet_ext_ext|by eapply quiet_ext_phase]. Qed.
Lemma sim_snoc h h' e : sim h h' -> sim (h ++ [e])%list (h' ++ [e])%list.
Proof.
  intros [(Hs & Hb & Hc) Hp]. split; [split_and!|].
  - intros x [Hx|Hx]%elem_of_app; apply elem_of_app; [left; auto|by right].
  - by rewrite !shown_bytes_snoc, Hb.
  - by rewrite !calls_snoc, Hc.
  - by rewrite !phase_of_snoc, Hp.
Qed.

Lemma allowed_sim h h' q : sim h h' -> allow h q -> allow h' q.
Proof.
  intros [(Hs & Hb & Hc) Hp]. destruct q; simpl; try done.
  - unfold append_allowed. intros Ha Hm. specialize (Ha Hm). cbv zeta in *. rewrite Hp.
    repeat case_match; try done. destruct Ha as [? (r' & d' & p' & v & ? & ?)].
    split; [done|]. exists r', d', p', v. split; [by eapply permitted_mono|done].
  - intros [? ?]. rewrite Hp. split; [done|by eapply authorized_mono].
  - intros [? ?]. rewrite Hp. split; [done|by eapply authorized_mono].
  - intros [? (r' & p' & a & c & n & ? & ? & ? & ? & ?)]. rewrite Hp. split; [done|].
    exists r', p', a, c, n. rewrite Hb.
    split_and!; eauto using durable_mono, release_allowed_mono.
Qed.

Lemma running_sim h h' : sim h h' -> running h -> running h'.
Proof.
  intros [(Hs & Hb & Hc) Hp] (? & ? & ?). split_and!; [congruence|congruence|].
  intros x Hx. auto.
Qed.

Lemma wlp_sim {A} (pr : prog A) (Q : list interaction -> A -> Prop) h h' :
  (forall h h' a, sim h h' -> Q h a -> Q h' a) ->
  sim h h' -> wlp allow running pr h Q -> wlp allow running pr h' Q.
Proof.
  intros HQ. revert h h'. induction pr as [a|q kk IH]; intros h h' Hsim; simpl; [eauto|].
  intros [Ha Hw]. split; [by eapply allowed_sim|]. intros x. destruct (Hw x) as [Hi Hx].
  pose proof (sim_snoc _ _ (Ev q x) Hsim) as Hsn.
  split; [by eapply running_sim|]. by eapply IH.
Qed.

Lemma wlp_weaken {A} (I I' : list interaction -> Prop) (pr : prog A) h Q :
  (forall h, I h -> I' h) -> wlp allow I pr h Q -> wlp allow I' pr h Q.
Proof.
  intros HI. revert h. induction pr as [a|q kk IH]; intros h; simpl; [done|].
  intros [Ha Hw]. split; [done|]. intros x. destruct (Hw x). auto.
Qed.

(** *** Dropping the future *)

Lemma wlp_ticks {A} n (pr : prog (outcome A)) h (Q : list interaction -> outcome A -> Prop) :
  running h ->
  (forall h', qext h h' -> running h' -> wlp allow running pr h' Q) ->
  (forall h' e, running h' -> Ev Fence (Err e) ∈ h' -> Q h' OwnerLost) ->
  wlp allow running (ticks gw n pr) h Q.
Proof.
  intros Hr Hp Hl. revert h Hr Hp. induction n as [|n IH]; intros h Hr Hp; simpl.
  { apply Hp; [apply quiet_ext_refl|done]. }
  apply wlp_pbind, wlp_fence; [apply stable_running|done| |].
  - intros h1 Hq1 Hr1. apply IH; [done|]. intros h2 Hq2 Hr2. apply Hp; [|done].
    by eapply quiet_ext_trans.
  - intros h1 e Hq1 Hr1 Hf. by apply (Hl h1 e).
Qed.

Lemma wlp_interruptible {A} (pr : prog A) h (Q : list interaction -> A -> Prop)
    (Q' : list interaction -> outcome A -> Prop) :
  (forall h h' a, sim h h' -> Q h a -> Q h' a) ->
  (forall h' a, Q h' a -> Q' h' (Finished a)) ->
  (forall h', running h' -> Q' h' TimedOut) ->
  (forall h' e, running h' -> Ev Fence (Err e) ∈ h' -> Q' h' OwnerLost) ->
  wlp allow running pr h Q -> wlp allow running (interruptible gw pr) h Q'.
Proof.
  intros HQ Hfin Htime Hlost. revert h. induction pr as [a|q kk IH]; intros h; simpl; [auto|].
  intros [Ha Hw]. split; [done|]. intros x. destruct (Hw x) as [Hi Hx]. split; [done|].
  destruct (is_await q); [|by apply IH].
  apply (wlp_ask_quiet gw request running Timer); [apply stable_running|done|done|by intros; apply quiet_query|].
  intros t h1 _ Hq1 Hr1. destruct t as [n|n].
  - apply wlp_ticks; [done| |done]. intros h2 Hq2 Hr2. apply IH.
    eapply wlp_sim; [exact HQ| |exact Hx]. apply sim_quiet. by eapply quiet_ext_trans.
  - apply wlp_ticks; [done| |done]. intros h2 Hq2 Hr2. simpl. by apply Htime.
Qed.

(** *** Streaming *)

Local Abbreviation obligations := (ep_obligations p).

Lemma wlp_release_chunk n c h (Q : list interaction -> result GatewayError ReleasedEffectResult -> Prop) :
  running h ->
  (forall h', qext h h' -> running h' ->
     durable h' r "effect.chunk_released.v1" EC_Effect (chunk_payload c n) ->
     (ob_require_post_effect obligations = true -> release_allowed gw h' r c (Some n)) ->
     Q h' (Ok (released c))) ->
  (forall h' e, qext h h' -> running h' -> Q h' (Err e)) ->
  wlp allow running (release_stream_chunk gw r obligations n c) h Q.
Proof.
  intros Hr Hok Herr. unfold release_stream_chunk.
  apply wlp_ebind, wlp_started_owner; [apply stable_running|done| |by intros; apply Herr].
  intros h1 Hq1 Hr1. apply wlp_ebind.
  assert (wlp allow running (if ob_require_post_effect obligations
      then post_authorize gw r c (Some n) else ok tt) h1
    (fun h' res => qext h1 h' /\ running h' /\ (res = Ok tt ->
       ob_require_post_effect obligations = true -> release_allowed gw h' r c (Some n)))) as Hpost.
  { destruct (ob_require_post_effect obligations).
    - apply wlp_post_authorize; [apply stable_running|done|done| |].
      + intros h2 Hq2 Hr2 Ha. split_and!; done.
      + intros h2 e Hq2 Hr2 _. split_and!; done.
    - split_and!; [apply quiet_ext_refl|done|done]. }
  eapply wlp_mono; [exact Hpost|]. intros h2 [[]|e] (Hq2 & Hr2 & Ha);
    pose proof (quiet_ext_trans _ _ _ _ Hq1 Hq2) as Hq12; [|by apply Herr].
  specialize (Ha eq_refl).
  apply wlp_ebind, wlp_event_same; [apply stable_running|done| | |done| |].
  - destruct Hr2 as (-> & _). done.
  - destruct Hr2 as (-> & _). done.
  - intros h3 Hq3 Hr3 Hd. apply Hok; [by eapply quiet_ext_trans|done|done|].
    intros Hreq. eapply release_allowed_mono; [|by apply Ha]. by eapply (sub_quiet request).
  - intros h3 e Hq3 Hr3. apply Herr; [by eapply quiet_ext_trans|done].
Qed.

(** What the sink remembers agrees with what was shown. *)
Definition sink_ok (h : list interaction) (s : GatewayStreamSink) : Prop :=
  sk_failure s = None ->
  ((ob_max_output_bytes obligations < u64_max)%N -> (shown_bytes h <= sk_total_bytes s)%N) /\
  (forall c, sk_last s = Some c -> Ev (ObserveReleased (released c)) (Ok tt) ∈ h).

Lemma sink_ok_quiet h h' s : qext h h' -> sink_ok h s -> sink_ok h' s.
Proof.
  intros Hq Hs Hf. destruct (Hs Hf) as [Hb Hl]. split.
  - by rewrite (quiet_ext_shown _ _ _ Hq).
  - intros c Hc. apply (quiet_ext_sub request _ _ _ Hq), Hl, Hc.
Qed.

Lemma sink_ok_failed h s f x : sink_ok h (mkSink (sk_sequence s) x (sk_last s) (Some f)).
Proof. by intros [=]. Qed.

Lemma wlp_observe a c s h
    (Q : list interaction -> result ExecutionError unit * GatewayStreamSink -> Prop) :
  running h -> Ev (ExecuteStream r p) a ∈ h -> sink_ok h s ->
  (forall h' o s', running h' -> h ⊆ h' -> sink_ok h' s' -> Q h' (o, s')) ->
  wlp allow running (observe gw r obligations c s) h Q.
Proof.
  intros Hr Ha Hs HQ. unfold observe.
  destruct (sk_failure s) as [f|] eqn:Ef; [by apply HQ|].
  destruct (Hs Ef) as [Hbound Hlast].
  case_match; [apply HQ; [done|done|apply sink_ok_failed]|]. cbv zeta.
  set (total := saturating_add (sk_total_bytes s) (blen (qr_bytes c))).
  destruct (N.ltb_spec (ob_max_output_bytes obligations) total) as [|Hmax];
    [apply HQ; [done|done|by intros [=]]|].
  apply wlp_pbind, wlp_release_chunk; [done| |].
  2: { intros h1 e Hq1 Hr1. pose proof (sub_quiet _ _ _ Hq1) as Hsub.
       destruct e; apply HQ; try done; by intros [=]. }
  intros h1 Hq1 Hr1 Hd Hrel. pose proof (sub_quiet _ _ _ Hq1) as Hsub.
  assert ((ob_max_output_bytes obligations < u64_max)%N ->
    (shown_bytes h1 + blen (qr_bytes c) <= total)%N) as Htotal.
  { intros Hlt. specialize (Hbound Hlt). rewrite (quiet_ext_shown _ _ _ Hq1).
    unfold total, saturating_add in *. lia. }
  unfold ask. simpl. split.
  { split; [apply Hr1|]. exists r, p, a, c, (saturating_add (sk_sequence s) 1).
    split_and!; [by apply Hsub|done|done|done|]. intros Hlt. simpl. specialize (Htotal Hlt). lia. }
  intros x. assert (running (h1 ++ [Ev (ObserveReleased (released c)) x])%list) as Hr2.
  { destruct Hr1 as (Hp1 & Hc1 & Hs1). split_and!.
    - by rewrite phase_of_snoc, Hp1.
    - by rewrite calls_snoc, Hc1.
    - intros y Hy. by apply sub_app, Hs1. }
  split; [done|]. destruct x as [[]|e]; simpl.
  - apply HQ; [done|intros y Hy; by apply sub_app, Hsub|]. intros _. simpl. split.
    + intros Hlt. rewrite shown_bytes_snoc. by apply Htotal.
    + intros c' [= <-]. apply snoc_in.
  - apply HQ; [done|intros y Hy; by apply sub_app, Hsub|]. by intros [=].
Qed.

Lemma wlp_run_adapter a0 a : forall s h (Q : list interaction ->
    result ExecutionError QuarantinedEffectResult * GatewayStreamSink -> Prop),
  running h -> Ev (ExecuteStream r p) a0 ∈ h -> sink_ok h s ->
  (forall h' res s', running h' -> h ⊆ h' -> sink_ok h' s' -> Q h' (res, s')) ->
  wlp allow running (run_adapter gw r obligations a s) h Q.
Proof.
  induction a as [res|c kk IH]; intros s h Q Hr Ha Hs HQ; cbn [run_adapter];
    (apply wlp_ask_quiet; [apply stable_running|done|done|by intros; apply quiet_query|]);
    intros x h1 _ Hq1 Hr1; pose proof (sub_quiet _ _ _ Hq1) as Hsub;
    pose proof (sink_ok_quiet _ _ _ Hq1 Hs) as Hs1.
  - by apply HQ.
  - apply wlp_pbind, (wlp_observe a0); [done|by apply Hsub|done|].
    intros h2 o s' Hr2 Hsub2 Hs2. simpl. apply IH; [done|by apply Hsub2, Hsub|done|].
    intros h3 res s3 Hr3 Hsub3 Hs3. apply HQ; [done| |done].
    intros y Hy. by apply Hsub3, Hsub2, Hsub.
Qed.

(** *** The executor *)

Definition executor_post (streaming : bool) (h : list interaction)
    (res : result ExecutionError QuarantinedEffectResult) : Prop :=
  running h /\ forall c, res = Ok c ->
    if streaming then
      (exists a, Ev (ExecuteStream r p) a ∈ h) /\ Ev (ObserveReleased (released c)) (Ok tt) ∈ h
    else Ev (Execute r p) (Ok c) ∈ h.

Lemma running_called q x h :
  phase h = LStarted -> calls h = 0%nat -> h0 ⊆ h -> calls_adapter q = true ->
  appended (Ev q x) = None -> running (h ++ [Ev q x])%list.
Proof.
  intros Hp Hc Hs Hq Ha. split_and!.
  - rewrite phase_of_snoc, Hp. unfold phase_step. by rewrite Ha; simpl; rewrite Hq.
  - rewrite calls_snoc, Hc. simpl. by rewrite Hq.
  - intros y Hy. by apply sub_app, Hs.
Qed.

Lemma wlp_run_executor streaming h :
  phase h = LStarted -> calls h = 0%nat -> shown_bytes h = 0%N -> h0 ⊆ h ->
  authorized gw request h r p ->
  wlp allow running (run_executor gw streaming r p) h (executor_post streaming).
Proof.
  intros Hp Hc Hb Hs Hauth. unfold run_executor, ask. destruct streaming; simpl.
  - split; [done|]. intros a.
    assert (running (h ++ [Ev (ExecuteStream r p) a])%list) as Hr by by apply running_called.
    split; [done|]. apply wlp_pbind, (wlp_run_adapter a); [done|apply snoc_in| |].
    + intros _. split; [|by intros ? [=]]. intros _. rewrite shown_bytes_snoc, Hb. done.
    + intros h1 res s Hr1 Hsub Hsk. split; [done|]. intros c Hres.
      unfold bridge_result in Hres. apply bind_Ok in Hres as (t & _ & Hres). simpl in Hres.
      destruct (sk_failure s) eqn:Ef; [done|]. case_match eqn:Eb; [done|].
      injection Hres as ->. apply orb_false_iff in Eb as [_ Eb].
      apply negb_false_iff, bool_decide_eq_true in Eb. split.
      * exists a. apply Hsub, snoc_in.
      * by apply (proj2 (Hsk Ef)).
  - split; [done|]. intros x. split; [by apply running_called|].
    split; [by apply running_called|]. intros c ->. apply snoc_in.
Qed.

Definition owned_post (streaming : bool) (h : list interaction)
    (res : result ExecutionError QuarantinedEffectResult) : Prop :=
  match res with
  | Ok c => executor_post streaming h (Ok c)
  | Err (ExOutcomeUnknown m) =>
      running h \/ (phase h = LStarted /\ calls h = 0%nat /\ h0 ⊆ h /\
                      exists e, Ev Fence (Err e) ∈ h)
  | Err _ => running h
  end.

Lemma executor_post_sim streaming h h' res :
  sim h h' -> executor_post streaming h res -> executor_post streaming h' res.
Proof.
  intros Hsim [Hr Hres]. split; [by eapply running_sim|]. intros c Hc. specialize (Hres c Hc).
  destruct Hsim as [(Hs & _) _]. destruct streaming; [|auto].
  destruct Hres as [[a Ha] Ho]. split; [exists a|]; auto.
Qed.

Lemma wlp_execute_owned streaming h :
  phase h = LStarted -> calls h = 0%nat -> shown_bytes h = 0%N -> h0 ⊆ h ->
  authorized gw request h r p ->
  wlp allow anywhere (execute_owned gw streaming r p) h (owned_post streaming).
Proof.
  intros Hp Hc Hb Hs Hauth. unfold execute_owned.
  apply wlp_ebind, wlp_emap_err, wlp_started_owner; [apply stable_true|done| |].
  2: { intros h1 Hq1 _ Hf. simpl. right.
       rewrite (quiet_ext_phase _ _ _ Hq1), (quiet_ext_calls _ _ _ Hq1). split_and!; try done.
       intros y Hy. apply (sub_quiet _ _ _ Hq1), Hs, Hy. }
  intros h1 Hq1 _. simpl. apply wlp_pbind.
  assert (forall h2 (res : result ExecutionError QuarantinedEffectResult), running h2 ->
    (forall h3, qext h2 h3 -> owned_post streaming h3 res) ->
    wlp allow anywhere (emap_err (fun _ => ExOutcomeUnknown OWNER_LOST) (verify_started_owner gw)
      ;;* lift res) h2 (owned_post streaming)) as Hverify.
  { intros h2 res Hr2 Hres. apply wlp_ebind, wlp_emap_err.
    apply (wlp_weaken running); [done|]. apply wlp_started_owner; [apply stable_running|done| |].
    - intros h3 Hq3 Hr3. by apply Hres.
    - intros h3 Hq3 Hr3 _. by left. }
  apply (wlp_weaken running); [done|].
  apply (wlp_interruptible _ _ (executor_post streaming)).
  - intros. by eapply executor_post_sim.
  - intros h2 res Hres. apply Hverify; [apply Hres|]. intros h3 Hq3.
    pose proof (executor_post_sim _ _ _ _ (sim_quiet _ _ Hq3) Hres) as Hres3.
    destruct res as [c|e]; [done|]. destruct Hres3 as [Hr3 _]. destruct e; simpl; auto.
  - intros h2 Hr2. apply Hverify; [done|]. intros h3 Hq3. left.
    by eapply running_sim; [apply sim_quiet|].
  - intros h2 e Hr2 Hf. by left.
  - apply wlp_run_executor.
    + by rewrite (quiet_ext_phase _ _ _ Hq1).
    + by rewrite (quiet_ext_calls _ _ _ Hq1).
    + by rewrite (quiet_ext_shown _ _ _ Hq1).
    + intros y Hy. apply (sub_quiet _ _ _ Hq1), Hs, Hy.
    + eapply authorized_mono; [|done]. by eapply (sub_quiet request).
Qed.

End Execution.
(** ** The result of an effect *)

(** What the history must show for each result. *)
Definition released_post (streaming : bool) (h : list interaction) (rel : ReleasedEffectResult)
    : Prop :=
  exists r d p c,
    permitted gw request h r d p /\ rel = released c /\ qr_effect_succeeded c = true /\
    (blen (qr_bytes c) <= ob_max_output_bytes (pd_obligations d))%N /\
    durable h r "effect.completed.v1" EC_Effect (completed_payload d c) /\
    if streaming then
      (exists a, Ev (ExecuteStream r p) a ∈ h) /\ Ev (ObserveReleased rel) (Ok tt) ∈ h
    else
      Ev (Execute r p) (Ok c) ∈ h /\
      (ob_require_post_effect (pd_obligations d) = true -> release_allowed gw h r c None).

(** The effect has not been started, nor will it be. *)
Definition before_start (h : list interaction) : Prop :=
  phase h = LFresh \/ phase h = LRequested \/ phase h = LClosed.
Definition error_post (h : list interaction) (e : GatewayError) : Prop :=
  match e with
  | Execution _ | HttpStatus _ _ | RecoverableExecution _ _ _ _ | ProviderRejected _ =>
      phase h = LClosed /\ calls h = 1%nat /\
      exists r pl, durable h r "effect.failed.v1" EC_Effect pl
  | OutcomeUnknown _ =>
      (phase h = LClosed /\ exists r pl, durable h r "effect.outcome_unknown.v1" EC_Effect pl) \/
      ((phase h = LStarted \/ phase h = LRunning) /\ exists e, Ev Fence (Err e) ∈ h)
  | Denied _ => (calls h = 0%nat /\ phase h = LClosed) \/ (calls h = 1%nat /\ phase h = LRunning)
  | Approval _ => calls h = 0%nat /\ (phase h = LRequested \/ phase h = LClosed)
  | Safety _ | Policy _ | Contract _ =>
      (calls h = 0%nat /\ before_start h) \/ (calls h = 1%nat /\ phase h = LRunning)
  | Journal _ =>
      (calls h = 0%nat /\ (before_start h \/ phase h = LStarted)) \/
      (calls h = 1%nat /\ phase h = LRunning)
  end.

Definition result_post (streaming : bool) (h : list interaction)
    (res : result GatewayError ReleasedEffectResult) : Prop :=
  (calls h <= 1)%nat /\
  match res with
  | Ok rel => calls h = 1%nat /\ phase h = LClosed /\ released_post streaming h rel
  | Err e => error_post h e
  end.

Section Settling.
Context (r : EffectRequest) (d : PolicyDecision) (p : ExecutionPermit) (h0 : list interaction).
Context (Hstream : effect_stream r = main) (Hperm : permitted gw request h0 r d p).

Lemma permitted_running h : h0 ⊆ h -> permitted gw request h r d p.
Proof. intros Hs. by eapply permitted_mono. Qed.

(** Recording a known failure. *)
Lemma wlp_failed {A} h pl e (Q : list interaction -> result GatewayError A -> Prop) :
  running h0 h ->
  (forall h', phase h' = LClosed -> calls h' = 1%nat ->
     durable h' r "effect.failed.v1" EC_Effect pl -> Q h' (Err e)) ->
  (forall h' s, calls h' = 1%nat -> phase h' = LRunning -> Q h' (Err (Journal s))) ->
  wlp allow anywhere (failed r pl e) h Q.
Proof.
  intros (Hp & Hc & _) Hok Herr. unfold failed. apply wlp_ebind, wlp_event_move; [done| | |].
  - intros h1 v Hq1 _. simpl. by rewrite (quiet_ext_phase _ _ _ Hq1).
  - intros h1 (_ & _ & Hc1) Hp1 Hd. simpl. apply Hok; [done|congruence|done].
  - intros h1 s Hq1. apply Herr; [by rewrite (quiet_ext_calls _ _ _ Hq1)|].
    by rewrite (quiet_ext_phase _ _ _ Hq1).
Qed.

Lemma wlp_settle streaming res h (Q : list interaction -> result GatewayError QuarantinedEffectResult -> Prop) :
  owned_post r p h0 streaming h res ->
  (forall c, executor_post r p h0 streaming h (Ok c) -> Q h (Ok c)) ->
  (forall h' e, (calls h' <= 1)%nat -> error_post h' e -> Q h' (Err e)) ->
  wlp allow anywhere (settle gw r res) h Q.
Proof.
  intros Hres Hok Herr. destruct res as [c|e]; [by apply Hok|].
  assert (forall pl e', running h0 h ->
    (forall h', phase h' = LClosed -> calls h' = 1%nat ->
       durable h' r "effect.failed.v1" EC_Effect pl -> error_post h' e') ->
    wlp allow anywhere (failed r pl e') h Q) as Hfail.
  { intros pl e' Hr He. apply wlp_failed; [done| |].
    - intros h' Hp Hc Hd. apply Herr; [lia|]. by apply He.
    - intros h' s Hc Hp. apply Herr; [lia|]. by right. }
  destruct e; simpl in Hres; simpl; try (apply Hfail; [done|];
    intros h' Hp Hc Hd; split_and!; [done|done|by exists r; eexists]).
  - apply wlp_pbind, wlp_fence; [apply stable_true|done| |].
    + intros h1 Hq1 _. apply wlp_ebind, wlp_event_move; [done| | |].
      * intros h2 v Hq2 _. simpl.
        rewrite (quiet_ext_phase _ _ _ Hq2), (quiet_ext_phase _ _ _ Hq1).
        destruct Hres as [(? & _)|(? & _)]; auto.
      * intros h2 (_ & _ & Hc2) Hp2 Hd. simpl. apply Herr.
        -- rewrite Hc2, (quiet_ext_calls _ _ _ Hq1).
           destruct Hres as [(_ & -> & _)|(_ & -> & _)]; lia.
        -- left. split; [done|]. by exists r; eexists.
      * intros h2 s Hq2.
        pose proof (quiet_ext_calls _ _ _ (quiet_ext_trans _ _ _ _ Hq1 Hq2)) as Hc2.
        pose proof (quiet_ext_phase _ _ _ (quiet_ext_trans _ _ _ _ Hq1 Hq2)) as Hp2.
        destruct Hres as [(Hp & Hc & _)|(Hp & Hc & _)]; apply Herr; try lia; simpl;
          rewrite Hc2, Hp2; [by right|left; split; [done|by right]].
    + intros h1 s Hq1 _ Hf. simpl. apply Herr.
      * rewrite (quiet_ext_calls _ _ _ Hq1).
        destruct Hres as [(_ & -> & _)|(_ & -> & _)]; lia.
      * right. rewrite (quiet_ext_phase _ _ _ Hq1). split; [|by exists s].
        destruct Hres as [(? & _)|(? & _)]; auto.
  - destruct Hres as (Hp & Hc & _). apply Herr; [lia|]. right. done.
Qed.

Lemma wlp_release streaming c h :
  executor_post r p h0 streaming h (Ok c) ->
  wlp allow anywhere (release gw streaming r d c) h (result_post streaming).
Proof.
  intros [Hr Hex]. specialize (Hex c eq_refl). unfold release.
  assert (forall h' e, running h0 h' -> pre_error e \/ (exists m, e = Denied m) ->
    result_post streaming h' (Err e)) as Herr.
  { intros h' e (Hp & Hc & _) He. split; [lia|]. destruct He as [He|[m ->]]; [|by right].
    by destruct e; try done; right. }
  assert (forall h1 pl m, running h0 h1 ->
    wlp allow anywhere (failed r pl (Execution m)) h1 (result_post streaming)) as Hfail.
  { intros h1 pl m Hr1. apply wlp_failed; [done| |].
    - intros h' Hp Hc Hd. split; [lia|]. split_and!; [done|done|by exists r; eexists].
    - intros h' s Hc Hp. split; [lia|by right]. }
  apply wlp_ebind, (wlp_weaken (running h0)); [done|].
  apply wlp_started_owner; [apply stable_running|done| |].
  2: { intros h1 Hq1 (Hp & Hc & _) Hf. split; [lia|]. right. split; [by right|done]. }
  intros h1 Hq1 Hr1.
  destruct (N.ltb_spec (ob_max_output_bytes (pd_obligations d)) (blen (qr_bytes c)));
    [by apply Hfail|].
  destruct (qr_effect_succeeded c) eqn:Es; simpl negb; cbv iota; [|by apply Hfail].
  apply wlp_ebind.
  assert (wlp allow (running h0) (if ob_require_post_effect (pd_obligations d) && negb streaming
      then post_authorize gw r c None else ok tt) h1
    (fun h' res => qext h1 h' /\ running h0 h' /\ match res with
       | Ok _ => streaming = false -> ob_require_post_effect (pd_obligations d) = true ->
                 release_allowed gw h' r c None
       | Err e => pre_error e \/ exists m, e = Denied m end)) as Hpost.
  { destruct (ob_require_post_effect (pd_obligations d) && negb streaming) eqn:Eb.
    - apply wlp_post_authorize; [apply stable_running|done|done| |].
      + intros h2 Hq2 Hr2 Ha. split_and!; done.
      + intros h2 e Hq2 Hr2 He. split_and!; done.
    - split_and!; [apply quiet_ext_refl|done|]. intros -> Hreq. by rewrite Hreq in Eb. }
  eapply (wlp_weaken (running h0)); [done|]. eapply wlp_mono; [exact Hpost|].
  intros h2 [[]|e] (Hq2 & Hr2 & Ha); [|by apply Herr].
  destruct Hr2 as (Hp2 & Hc2 & Hs2). pose proof (quiet_ext_trans _ _ _ _ Hq1 Hq2) as Hq12.
  apply wlp_ebind, wlp_event_move; [done| | |].
  - intros h3 v Hq3 _. simpl. by rewrite (quiet_ext_phase _ _ _ Hq3).
  - intros h3 (Hs3 & _ & Hc3) Hp3 Hd. simpl. rewrite Hc2 in Hc3.
    split; [lia|]. split_and!; [done|done|]. exists r, d, p, c.
    assert (h ⊆ h3) as Hsub by (intros x Hx; apply Hs3, (sub_quiet _ _ _ Hq12), Hx).
    split_and!; [apply permitted_running; intros x Hx; apply Hs3, Hs2, Hx|done|done|done|exact Hd|].
    destruct streaming.
    + destruct Hex as [[a Hexa] Ho]. split; [exists a|]; by apply Hsub.
    + split; [by apply Hsub|]. intros Hreq.
      eapply release_allowed_mono; [exact Hs3|]. by apply Ha.
  - intros h3 s Hq3. split; [rewrite (quiet_ext_calls _ _ _ Hq3); lia|]. right.
    by rewrite (quiet_ext_calls _ _ _ Hq3), (quiet_ext_phase _ _ _ Hq3).
Qed.
End Settling.

(** ** The whole gateway *)

Lemma prepared_own r0 : prepare k request = Ok r0 ->
  own r0 /\ er_approval r0 = er_approval request.
Proof.
  intros Hr. pose proof Hr as Hr'. apply prepare_id in Hr' as [c ->]. split; [|done].
  split; [|done]. exists (with_content c request). split; [done|]. by destruct request.
Qed.

Lemma execute_internal_wlp streaming :
  wlp allow anywhere (execute_internal gw streaming request) [] (result_post streaming).
Proof.
  unfold execute_internal.
  assert (forall h e, ext [] h -> before_start h -> pre_error e -> result_post streaming h (Err e)) as Hpre.
  { intros h e (_ & _ & Hc) Hb He. split; [rewrite Hc; exact (Nat.le_0_l 1)|].
    destruct e; try done; left; (split; [exact Hc|]); first [exact Hb|by left]. }
  assert (forall h h', phase h = LRequested -> stopped request h h' -> before_start h') as Hstop.
  { intros h h' Hp [_ [Hc|Hc]]; [by right; right|right; left; by rewrite Hc]. }
  apply wlp_ebind, wlp_admit; [done| |by intros; apply Hpre].
  intros h1 ctx r0 He1 Hp1 _ Hr0. destruct (prepared_own r0 Hr0) as [Hown Happ].
  apply wlp_ebind, wlp_decide_pre; [apply Hown|done| |].
  2: { intros h2 e Hs He. apply Hpre; [by eapply ext_trans, Hs|by eapply Hstop|done]. }
  intros h2 d0 Hq2 Hd0. pose proof (quiet_ext_phase _ _ _ Hq2) as Hp2. rewrite Hp1 in Hp2.
  pose proof (ext_trans _ _ _ He1 (quiet_ext_ext _ _ _ Hq2)) as He2.
  apply wlp_ebind. eapply wlp_mono; [by apply wlp_approve|].
  intros h3 [[r d]|e] Hap.
  2: { destruct Hap as [Hs3 [He|[m ->]]]; pose proof Hs3 as [He3 Hp3];
         [apply Hpre; [by eapply ext_trans|by eapply Hstop|done]|].
       pose proof (ext_trans _ _ _ He2 He3) as (_ & _ & Hc3). split; [rewrite Hc3; exact (Nat.le_0_l 1)|].
       split; [exact Hc3|]. rewrite Hp2 in Hp3. tauto. }
  destruct Hap as (Hq3 & Hown3 & Hd3 & Hap3).
  pose proof (quiet_ext_phase _ _ _ Hq3) as Hp3. rewrite Hp2 in Hp3.
  pose proof (ext_trans _ _ _ He2 (quiet_ext_ext _ _ _ Hq3)) as He3.
  apply wlp_ebind. eapply wlp_mono; [by apply wlp_authorize|].
  intros h4 [p|e] Hau.
  2: { destruct Hau as [Hs4 [He|[Hp4 [m ->]]]]; pose proof Hs4 as [He4 _];
         [apply Hpre; [by eapply ext_trans|by eapply Hstop|done]|].
       pose proof (ext_trans _ _ _ He3 He4) as (_ & _ & Hc4). split; [rewrite Hc4; exact (Nat.le_0_l 1)|].
       left. by split. }
  destruct Hau as (He4 & Hp4 & Hauth & Hperm).
  pose proof (ext_trans _ _ _ He3 He4) as (_ & Hb4 & Hc4). simpl in Hb4. change (calls h4 = 0%nat) in Hc4.
  apply wlp_ebind, wlp_started_owner; [apply stable_true|done| |].
  2: { intros h5 Hq5 _ Hf. split; [rewrite (quiet_ext_calls _ _ _ Hq5), Hc4; lia|].
       right. split; [left; by rewrite (quiet_ext_phase _ _ _ Hq5)|done]. }
  intros h5 Hq5 _. apply wlp_pbind. eapply wlp_mono.
  { apply (wlp_execute_owned r p h4).
    - apply Hown3.
    - by rewrite (quiet_ext_phase _ _ _ Hq5).
    - by rewrite (quiet_ext_calls _ _ _ Hq5).
    - by rewrite (quiet_ext_shown _ _ _ Hq5).
    - by apply sub_quiet with request.
    - eapply authorized_mono; [|done]. by apply sub_quiet with request. }
  intros h6 res Hres. apply wlp_ebind, (wlp_settle r p h4 (proj2 Hown3) streaming); [done| |].
  - intros c Hex. by apply (wlp_release r d p h4 (proj2 Hown3) Hperm).
  - intros h7 e Hc He. by split.
Qed.

End Stages.

(** ** Properties of all runs *)

Lemma execute_internal_runs `{Externals} `{CommandDisplay} gw streaming request tr res :
  runs (execute_internal gw streaming request) tr res ->
  (forall i e, tr !! i = Some e -> allowed gw request (take i tr) (ev_query e)) /\
  result_post gw request streaming tr res.
Proof.
  intros Hr. destruct (wlp_runs _ _ _ _ _ _ _ (execute_internal_wlp gw request streaming) Hr)
    as [Hall Hres]. split; [|exact Hres].
  intros i e Hi. apply (Hall (take i tr) e (drop (S i) tr)).
  symmetry. by apply take_drop_middle.
Qed.

Lemma calls_take_lookup i tr q x :
  tr !! i = Some (Ev q x) -> calls_adapter q = true -> (calls tr <= 1)%nat ->
  calls (take i tr) = 0%nat.
Proof.
  intros Hi Hq Hc. rewrite <- (take_drop_middle _ _ _ Hi) in Hc.
  unfold calls in *. rewrite List.filter_app, length_app in Hc. simpl in Hc. rewrite Hq in Hc.
  simpl in Hc. lia.
Qed.

(** A closed effect stays closed. *)
Lemma closed_stays `{Externals} `{CommandDisplay} gw request tr i :
  (forall i e, tr !! i = Some e -> allowed gw request (take i tr) (ev_query e)) ->
  phase_of request (take i tr) = LClosed -> phase_of request tr = LClosed.
Proof.
  intros Hall. remember (length tr - i)%nat as n eqn:En. revert i En.
  induction n as [|n IH]; intros i En Hc; [by rewrite take_ge in Hc by lia|].
  destruct (tr !! i) as [[q x]|] eqn:Ei; [|apply lookup_ge_None in Ei; lia].
  apply (IH (S i)); [lia|]. rewrite (take_S_r _ _ _ Ei), phase_of_snoc.
  specialize (Hall _ _ Ei). unfold phase_step. destruct q; simpl; try exact Hc;
    try (destruct Hall as [Hs _]; rewrite Hc in Hs; done).
  destruct x as [[]|x]; [|exact Hc]. simpl in Hall. unfold append_allowed in Hall.
  destruct (String.eqb_spec (ne_stream_id e) (effect_stream request)) as [Hm|]; [|exact Hc].
  specialize (Hall Hm). cbv zeta in Hall. rewrite Hc in Hall.
  repeat (case_match; try naive_solver).
Qed.

(** ** What a failure is reported for *)

Section Causes.
Context `{Externals} `{CommandDisplay}.
Context (gw : EffectGateway) (request : EffectRequest).
Local Abbreviation k := (gw_kernel gw).

(** The prepared request of the effect, or a prepared request to release a result. *)
Definition subject (r : EffectRequest) : Prop :=
  lineage gw request r \/
  exists r0 result chunk, lineage gw request r0 /\ prepare k (post_request r0 result chunk) = Ok r.
(** Policy gave this decision. *)
Definition given (h : list interaction) (d : PolicyDecision) : Prop :=
  exists projected, Ev (Decide projected) (Ok d) ∈ h.

(** A service the gateway asked said no, and this is how it is reported. *)
Inductive service_refused (h : list interaction) : GatewayError -> Prop :=
| un_fence e : Ev Fence (Err e) ∈ h -> service_refused h (Journal e)
| un_recovery : Ev IsRecoveryMode true ∈ h -> service_refused h (Journal RecoveryMode)
| un_tail id e : Ev (ReadTail id) (Err e) ∈ h -> service_refused h (Journal e)
| un_append event e : Ev (Append event) (Err e) ∈ h -> service_refused h (Journal e)
| un_worker : Ev SummaryWorker false ∈ h ->
    service_refused h (Contract "disclosure summary worker failed")
| un_policy r e : Ev (Decide r) (Err e) ∈ h -> service_refused h (Policy e)
| un_approver r hash d c e : Ev (RequestApproval r hash d c) (Err e) ∈ h -> service_refused h (Policy e)
| un_clock e : Ev Timestamp (Err e) ∈ h -> service_refused h (Policy (PolicyUnavailable e)).
(** A check failed: of the request as submitted, of what policy is to see of it, of a
    decision policy gave, of a serialisation, or of the permit's lifetime. *)
Inductive refused (h : list interaction) : GatewayError -> Prop :=
| re_admission : er_schema_version request <> 1%N \/ er_request_id request = "" \/
    er_phase request <> PreEffect ->
    refused h (Safety "unsupported schema version, empty request id, or caller-supplied post-effect phase")
| re_context e : command_approval_context request = Err e -> refused h e
| re_prepare e : prepare k request = Err e -> refused h e
| re_release r result chunk e : lineage gw request r ->
    prepare k (post_request r result chunk) = Err e -> refused h e
| re_projection r e : subject r -> policy_projection k r = Err e -> refused h e
| re_decision r projected d w e : subject r -> policy_projection k r = Ok projected ->
    Ev (Decide projected) (Ok d) ∈ h -> Ev Observe_World w ∈ h ->
    validate_decision w.1 (kernel_at k w.2) (gw_active gw) r d = Err e -> refused h e
| re_request_hash r e : lineage gw request r -> request_hash r = Err e -> refused h e
| re_obligations d e : given h d -> obligations_hash (pd_obligations d) = Err e -> refused h e
| re_claims r c e : lineage gw request r -> request_hash r = Ok (pc_request_hash c) ->
    canonical_claims c = Err e -> refused h e
| re_expired minted now : Ev Now minted ∈ h -> Ev Now now ∈ h ->
    (minted + PERMIT_LIFETIME_MS < now)%Z -> refused h permit_mismatch.
(** The approver declined, or approved another request. *)
Inductive unapproved (h : list interaction) : GatewayError -> Prop :=
| ua_declined r hash d c : lineage gw request r -> request_hash r = Ok hash ->
    Ev (RequestApproval r hash d c) (Ok None) ∈ h -> unapproved h (Approval "operator declined")
| ua_other r hash d c proof : lineage gw request r -> request_hash r = Ok hash ->
    Ev (RequestApproval r hash d c) (Ok (Some proof)) ∈ h -> ap_request_hash proof <> hash ->
    unapproved h (Approval "approval proof is bound to a different request").
Definition caused (h : list interaction) (e : GatewayError) : Prop :=
  match e with
  | Journal _ => service_refused h e
  | Safety _ | Policy _ | Contract _ => service_refused h e \/ refused h e
  | Approval _ => unapproved h e
  | _ => True
  end.

(** [p] fails for a cause, and [P] holds of what it succeeds with. *)
Definition blames {A} (p : eff GatewayError A) (h : list interaction)
    (P : list interaction -> A -> Prop) : Prop :=
  wlp (fun _ _ => True) (fun _ => True) p h (fun h' r =>
    h ⊆ h' /\ match r with Ok a => P h' a | Err e => caused h' e end).

Lemma blames_mono {A} (p : eff GatewayError A) h (P Q : list interaction -> A -> Prop) :
  blames p h P -> (forall h' a, h ⊆ h' -> P h' a -> Q h' a) -> blames p h Q.
Proof. intros Hp HQ. eapply wlp_mono; [exact Hp|]. intros h' [a|e] [Hs Hr]; auto. Qed.
Lemma blames_bind {A B} (p : eff GatewayError A) (f : A -> eff GatewayError B) h P Q :
  blames p h P -> (forall h' a, h ⊆ h' -> P h' a -> blames (f a) h' Q) -> blames (ebind p f) h Q.
Proof.
  intros Hp Hf. apply wlp_ebind. eapply wlp_mono; [exact Hp|]. intros h' [a|e] [Hs Hr]; [|done].
  eapply wlp_mono; [exact (Hf h' a Hs Hr)|]. intros h2 r [Hs2 Hr2]. split; [by etrans|done].
Qed.
Lemma blames_ask {A} q (f : answer q -> eff GatewayError A) h P :
  (forall x, blames (f x) (h ++ [Ev q x])%list P) -> blames (pbind (ask q) f) h P.
Proof.
  intros Hf. split; [done|]. intros x. split; [done|]. eapply wlp_mono; [apply Hf|].
  intros h' r [Hs Hr]. split; [|done]. etrans; [|exact Hs]. apply sub_app.
Qed.
Lemma blames_lift {A} (r : result GatewayError A) h (P : list interaction -> A -> Prop) :
  (forall a, r = Ok a -> P h a) -> (forall e, r = Err e -> caused h e) -> blames (lift r) h P.
Proof. intros Hok Herr. split; [done|]. destruct r; auto. Qed.
Lemma blames_ok {A} (a : A) h (P : list interaction -> A -> Prop) : P h a -> blames (ok a) h P.
Proof. by split. Qed.
Lemma blames_fail {A} e h (P : list interaction -> A -> Prop) : caused h e -> blames (fail e) h P.
Proof. by split. Qed.
Lemma blames_if {A} (b : bool) (p q : eff GatewayError A) h P :
  (b = true -> blames p h P) -> (b = false -> blames q h P) -> blames (if b then p else q) h P.
Proof. destruct b; auto. Qed.
(** A program whose failures are the caller's to report. *)
Lemma runs_extend {A} (p : prog A) h : wlp (fun _ _ => True) (fun _ => True) p h (fun h' _ => h ⊆ h').
Proof.
  revert h. induction p as [a|q f IH]; intros h; simpl; [done|]. split; [done|]. intros x. split; [done|].
  eapply wlp_mono; [apply IH|]. intros h' a Hs. etrans; [|exact Hs]. apply sub_app.
Qed.
Lemma check_caused e h : check_error e -> refused h e -> caused h e.
Proof. destruct e; try done; by right. Qed.

Abbreviation anything := (fun _ _ => True).
Local Hint Resolve sub_app snoc_in : core.

Lemma blames_fence h : blames (verify_execution_fence gw) h anything.
Proof.
  unfold verify_execution_fence. destruct (gw_fenced gw); [|by apply blames_ok].
  apply blames_ask. intros [[]|e]; (apply blames_lift; [done|]); intros e' [= <-]. by apply un_fence.
Qed.
Lemma blames_owner h : blames (verify_started_owner gw) h anything.
Proof.
  apply wlp_emap_err. eapply wlp_mono; [apply blames_fence|]. by intros h' [[]|e] [Hs _].
Qed.
Lemma blames_event r t c pl h : blames (event r t c pl) h anything.
Proof.
  unfold event. apply blames_ask. intros [v|e].
  - apply (blames_bind _ _ _ anything); [by apply blames_lift|]. intros h1 v' _ _. apply blames_ask.
    intros [[]|e]; (apply blames_lift; [done|]); intros e' [= <-]. by eapply un_append.
  - apply (blames_bind _ _ _ anything); [apply blames_lift; [done|]|intros h1 v _ _].
    + intros e' [= <-]. by eapply un_tail.
    + apply blames_ask. intros [[]|e']; (apply blames_lift; [done|]); intros e2 [= <-]. by eapply un_append.
Qed.
Lemma blames_summary r h : blames (summary r) h anything.
Proof.
  unfold summary. apply blames_ask. intros [|]; [by apply blames_ok|]. apply blames_fail. left. by apply un_worker.
Qed.
(** An event, and then. *)
Lemma blames_recorded {A} r t c pl (p : eff GatewayError A) h P :
  (forall h', h ⊆ h' -> blames p h' P) -> blames (event r t c pl ;;* p) h P.
Proof. intros Hp. apply (blames_bind _ _ _ anything); [apply blames_event|]. auto. Qed.

Lemma blames_deny_closed {A} r kind reason e h (P : list interaction -> A -> Prop) :
  (forall h', h ⊆ h' -> caused h' e) -> blames (deny_closed r kind reason e) h P.
Proof. intros He. do 2 (apply blames_recorded; intros ? ?). apply blames_fail. apply He. by etrans. Qed.
Lemma caused_mono h h' e : h ⊆ h' -> caused h e -> caused h' e.
Proof.
  intros Hs.
  assert (service_refused h e -> service_refused h' e) as Hu
    by (intros Hu; inversion Hu; subst; eauto using service_refused).
  assert (refused h e -> refused h' e) as Hr.
  { intros Hr; inversion Hr; subst; eauto using refused.
    match goal with X : given _ _ |- _ => destruct X as [p Hp] end.
    eapply re_obligations; [exists p; by apply Hs|done]. }
  destruct e; simpl; try tauto. intros Ha. inversion Ha; subst; eauto using unapproved.
Qed.

Lemma blames_decide r h : subject r -> blames (decide gw r) h given.
Proof.
  intros Hsub. unfold decide. apply wlp_pbind. unfold ask_policy. apply wlp_ebind, wlp_lift.
  assert (forall h' e kind reason, h ⊆ h' -> caused h' e ->
    wlp (fun _ _ => True) (fun _ => True) (deny_closed (A:=PolicyDecision) r kind reason e) h'
      (fun h' res => h ⊆ h' /\ match res with Ok d => given h' d | Err e => caused h' e end)) as Hdeny.
  { intros h' e kind reason Hs He. eapply wlp_mono.
    - apply (blames_deny_closed _ _ _ _ _ given). intros h2 Hs2. by eapply caused_mono.
    - intros h2 res [Hs2 Hr]. split; [by etrans|done]. }
  destruct (policy_projection k r) as [p|e] eqn:Hp.
  2: { apply Hdeny; [done|]. apply check_caused; [by eapply errs_projection|by eapply re_projection]. }
  split; [done|]. intros x. split; [done|]. apply wlp_lift. destruct x as [d|e]; cbn [map_err].
  2: { apply Hdeny; [apply sub_app|]. left. by eapply un_policy. }
  split; [done|]. intros w. split; [done|].
  set (h2 := ((h ++ [_]) ++ [_])%list). assert (h ⊆ h2) as Hs by (unfold h2; etrans; apply sub_app).
  cbn [pbind ask ok]. destruct w as [env gate]. cbn [fst snd] in *.
  destruct (validate_decision env (kernel_at k gate) (gw_active gw) r d) as [[]|e] eqn:Hv.
  - eapply wlp_mono.
    + apply (blames_recorded _ _ _ _ _ _ given). intros h3 Hs3. apply blames_ok.
      exists p. apply Hs3. unfold h2. apply elem_of_app. left. apply snoc_in.
    + intros h3 res [Hs3 Hr]. split; [by etrans|done].
  - apply Hdeny; [done|]. apply check_caused; [by eapply errs_validate|].
    apply (re_decision _ r p d (env, gate)); [done|done| |apply snoc_in|done].
    unfold h2. apply elem_of_app. left. apply snoc_in.
Qed.

Abbreviation reviewed r := (fun (_ : list interaction) (x : EffectRequest * bool) =>
  exists risk, x.1 = with_risk risk r).
Lemma blames_unavailable r f reason h : blames (risk_unavailable r f reason) h (reviewed r).
Proof.
  apply blames_recorded. intros h' _. apply blames_ask. intros []. apply blames_ok. by eexists.
Qed.
Lemma blames_review r d h : blames (review_risk r d) h (reviewed r).
Proof.
  apply blames_ask. intros [|]; cbn [negb].
  2: { apply blames_ok. exists (er_risk r). by destruct r. }
  destruct (risk_auto_ineligibility r).
  { apply blames_recorded. intros. apply blames_ok. by eexists. }
  apply blames_recorded. intros h1 _. apply blames_ask. intros [|]; cbn [negb]; [|apply blames_unavailable].
  apply blames_ask. intros [a|[m|m]]; try apply blames_unavailable. cbv zeta.
  apply blames_if; intros _; [apply blames_unavailable|].
  apply blames_recorded. intros h2 _. apply blames_ok. by eexists.
Qed.

(** *** Permits *)

Lemma errs_claims c : errs check_error (canonical_claims c).
Proof. by apply errs_map_err. Qed.
(** Whatever a pure check fails with, if the check is a cause. *)
Lemma blames_check {A} (r : result GatewayError A) h (P : list interaction -> A -> Prop) :
  errs check_error r -> (forall e, r = Err e -> refused h e) -> (forall a, r = Ok a -> P h a) ->
  blames (lift r) h P.
Proof. intros Hr He Ha. apply blames_lift; [done|]. intros e Hx. apply check_caused; auto. Qed.

Definition minted (h : list interaction) (r : EffectRequest) (hash : string) (d : PolicyDecision)
    (p : ExecutionPermit) : Prop :=
  ep_request_hash p = hash /\ ep_decision_id p = pd_decision_id d /\
  obligations_hash (pd_obligations d) = Ok (ep_obligations_hash p) /\
  ep_actor_id p = actor_id (er_actor r) /\ ep_consumed p = false /\
  (exists message, canonical_claims (permit_claims p) = Ok message /\
     ep_authentication_tag p = hmac_sha256 (gw_permit_key gw) message) /\
  exists at_, Ev Now at_ ∈ h /\ ep_expires_at_unix_ms p = (at_ + PERMIT_LIFETIME_MS)%Z.
Lemma blames_mint r hash d h : lineage gw request r -> request_hash r = Ok hash -> given h d ->
  blames (mint_permit gw r hash d) h (fun h' p => minted h' r hash d p).
Proof.
  intros Hl Hh Hg. unfold mint_permit. apply (blames_bind _ _ _ (fun _ oh => obligations_hash (pd_obligations d) = Ok oh)).
  { apply blames_check; [apply errs_obligations_hash| |done]. intros e He. by eapply re_obligations. }
  intros h1 oh _ Ho. apply blames_ask. intros nonce. apply blames_ask. intros now. cbv zeta.
  set (c := mkPermitClaims _ _ _ _ _ _). set (h2 := (_ ++ [_])%list).
  apply (blames_bind _ _ _ (fun _ m => canonical_claims c = Ok m)).
  { apply blames_check; [apply errs_claims| |done]. intros e He. by eapply (re_claims _ r c). }
  intros h3 m Hs Hm. apply blames_ok. split_and!; try done; [by exists m|].
  exists now. split; [apply Hs, snoc_in|done].
Qed.
(** A permit that was just minted is refused only because it has expired. *)
Lemma blames_consume p r hash d h :
  minted h r hash d p -> request_hash r = Ok hash -> blames (authenticate_and_consume gw p r d) h anything.
Proof.
  intros (Hr & Hd & Ho & Ha & Hc & (m & Hm & Ht) & at_ & Hat & Hexp) Hh.
  unfold authenticate_and_consume. apply (blames_bind _ _ _ (fun _ x => x = hash)).
  { rewrite Hh. by apply blames_ok. }
  intros h1 ? Hs1 ->. apply (blames_bind _ _ _ (fun _ x => x = ep_obligations_hash p)).
  { rewrite Ho. by apply blames_ok. }
  intros h2 ? Hs2 ->. rewrite Hr, Hd, Ha, !String.eqb_refl. cbn [negb orb].
  apply blames_ask. intros now. apply blames_if; intros Hlt.
  { apply blames_fail. right. apply (re_expired _ at_ now); [by apply sub_app, Hs2, Hs1|apply snoc_in|].
    apply Z.ltb_lt in Hlt. by rewrite <- Hexp. }
  apply (blames_bind _ _ _ (fun _ x => x = m)); [rewrite Hm; by apply blames_ok|].
  intros h3 ? _ ->. rewrite Ht, String.eqb_refl, Hc. cbn [negb]. by apply blames_ok.
Qed.

(** *** The stages *)

Lemma blames_admission h : blames (admission gw request) h (fun _ x => lineage gw request x.2).
Proof.
  unfold admission. apply (blames_bind _ _ _ anything); [apply blames_fence|]. intros h1 _ _ _.
  apply blames_ask. intros [|]; [apply blames_fail, un_recovery, snoc_in|].
  apply blames_if; intros Hb.
  { apply blames_fail. right. apply re_admission. rewrite !orb_true_iff, !negb_true_iff in Hb.
    destruct Hb as [[Hb|Hb]|Hb]; [left; by apply N.eqb_neq in Hb|right; left|right; right].
    - by destruct (er_request_id request).
    - by apply bool_decide_eq_false in Hb. }
  apply (blames_bind _ _ _ anything); [apply blames_summary|]. intros h2 s _ _.
  apply blames_recorded. intros h3 _.
  assert (forall e pl h', refused h' e -> check_error e -> blames (A:=option CommandApprovalContext * EffectRequest)
    (event request "effect.denied.v1" EC_Effect pl ;;* fail e) h' (fun _ x => lineage gw request x.2)) as Hdeny.
  { intros e pl h' Hr He. apply blames_recorded. intros h4 Hs. apply blames_fail.
    eapply caused_mono; [exact Hs|]. by apply check_caused. }
  destruct (command_approval_context request) as [c|e] eqn:Hc; cbn [mbind option_bind result_bind].
  - destruct (prepare k request) as [r0|e] eqn:Hp.
    + apply blames_ok. exists r0. split; [done|]. by destruct r0.
    + apply Hdeny; [by apply re_prepare|by eapply errs_prepare].
  - apply Hdeny; [by apply re_context|by eapply errs_command_context].
Qed.
Lemma lineage_risk r x : lineage gw request r -> lineage gw request (with_risk x r).
Proof. intros (r0 & Hr0 & ->). exists r0. split; [done|]. by destruct r0. Qed.
Lemma lineage_approval r a : lineage gw request r -> lineage gw request (with_approval a r).
Proof. intros (r0 & Hr0 & ->). exists r0. split; [done|]. by destruct r0. Qed.

Lemma blames_deny_approval {A} r d t detail reason e h (P : list interaction -> A -> Prop) :
  caused h e -> blames (deny_approval r d t detail reason e) h P.
Proof.
  intros He. apply blames_recorded. intros h1 Hs1. apply blames_recorded. intros h2 Hs2.
  apply blames_fail. eapply caused_mono; [|exact He]. by etrans.
Qed.
Lemma blames_obtain r hash d context auto h :
  blames (obtain_approval r hash d context auto) h (fun h' res =>
    match res with
    | Ok (Some proof) => ap_request_hash proof = hash \/
        Ev (RequestApproval r hash d context) (Ok (Some proof)) ∈ h'
    | _ => Ev (RequestApproval r hash d context) res ∈ h'
    end).
Proof.
  unfold obtain_approval. destruct auto.
  - apply (blames_bind _ _ _ (fun _ proof => ap_request_hash proof = hash)).
    + apply blames_ask. intros t. apply (blames_bind _ _ _ anything).
      * apply blames_lift; [done|]. intros e He. destruct t as [t|m]; [done|].
        injection He as <-. left. apply un_clock, snoc_in.
      * intros h1 at_ _ _. apply blames_ask. intros id. by apply blames_ok.
    + intros h1 proof _ Hp. apply blames_ok. by left.
  - apply blames_ask. intros res. apply blames_ok.
    destruct res as [[proof|]|e]; [right|..]; apply snoc_in.
Qed.
Lemma blames_approve context r d h : lineage gw request r -> given h d ->
  blames (approve gw context r d) h (fun h' x => lineage gw request x.1 /\ given h' x.2).
Proof.
  intros Hl Hg. unfold approve. apply blames_if; intros _; [by apply blames_ok|].
  apply (blames_bind _ _ _ anything).
  { destruct context; [apply blames_event|by apply blames_ok]. }
  intros h1 _ _ _. eapply blames_bind; [apply blames_review|]. intros h2 [r1 auto] _ [x Hx].
  cbn [fst] in Hx. assert (lineage gw request r1) as Hl1 by (rewrite Hx; by apply lineage_risk).
  apply (blames_bind _ _ _ (fun _ hash => request_hash r1 = Ok hash)).
  { apply blames_check; [apply errs_request_hash| |done]. intros e He. by eapply re_request_hash. }
  intros h3 hash _ Hh. eapply blames_bind; [apply blames_obtain|].
  intros h4 [[proof|]|e] _ Hres.
  - apply blames_if; intros Hb.
    + apply blames_fail. apply negb_true_iff, String.eqb_neq in Hb. destruct Hres as [?|Hres]; [done|].
      by eapply ua_other.
    + apply (blames_bind _ _ _ anything).
      { apply blames_recorded. intros h5 _. destruct auto; [|by apply blames_ok].
        apply blames_ask. intros []. by apply blames_ok. }
      intros h5 _ _ _. assert (lineage gw request (with_approval (Some proof) r1)) as Hl2
        by by apply lineage_approval.
      eapply blames_bind; [apply blames_decide; by left|]. intros h6 d1 _ Hg1. apply blames_ok. by split.
  - apply blames_deny_approval. by eapply ua_declined.
  - apply blames_deny_approval. left. by eapply un_approver.
Qed.
Lemma blames_authorize r d h : lineage gw request r -> given h d ->
  blames (authorize gw r d) h anything.
Proof.
  intros Hl Hg. unfold authorize. apply blames_if; intros _.
  { apply blames_recorded. intros h1 _. by apply blames_fail. }
  apply (blames_bind _ _ _ (fun h' hash => request_hash r = Ok hash /\ given h' d)).
  { apply blames_check; [apply errs_request_hash| |done]. intros e He. by eapply re_request_hash. }
  intros h1 hash _ [Hh Hg1]. eapply blames_bind; [by apply blames_mint|].
  intros h2 p _ Hm. apply (blames_bind _ _ _ anything); [eapply blames_consume; [exact Hm|done]|].
  intros h3 p' _ _. apply blames_recorded. intros h4 _. by apply blames_ok.
Qed.
Lemma blames_failed {A} r pl e h (P : list interaction -> A -> Prop) :
  (forall h', caused h' e) -> blames (failed r pl e) h P.
Proof. intros He. apply blames_recorded. intros h' _. apply blames_fail, He. Qed.
Lemma blames_settle r res h : blames (settle gw r res) h anything.
Proof.
  destruct res as [c|e]; [by apply blames_ok|].
  destruct e; simpl; try (by apply blames_failed); [|by apply blames_fail].
  apply wlp_pbind. eapply wlp_mono; [apply blames_fence|]. intros h1 [[]|e] [Hs _].
  - eapply wlp_mono.
    + apply (blames_recorded _ _ _ _ _ _ anything). intros h2 _. by apply blames_fail.
    + intros h2 res [Hs2 Hr]. split; [by etrans|done].
  - by split.
Qed.
Lemma blames_post r c h : lineage gw request r -> blames (post_authorize gw r c None) h anything.
Proof.
  intros Hl. unfold post_authorize.
  apply (blames_bind _ _ _ (fun _ post => prepare k (post_request r c None) = Ok post)).
  { apply blames_check; [apply errs_prepare| |done]. intros e He. by eapply re_release. }
  intros h1 post _ Hp. apply (blames_bind _ _ _ anything); [apply blames_summary|]. intros h2 s _ _.
  apply blames_recorded. intros h3 _. eapply blames_bind.
  { apply blames_decide. right. by exists r, c, None. }
  intros h4 pd _ _. apply blames_if; intros _; [|by apply blames_ok].
  apply blames_recorded. intros h5 _. by apply blames_fail.
Qed.
Lemma blames_release streaming r d c h : lineage gw request r ->
  blames (release gw streaming r d c) h anything.
Proof.
  intros Hl. unfold release. apply (blames_bind _ _ _ anything); [apply blames_owner|]. intros h1 _ _ _.
  do 2 (apply blames_if; intros _; [by apply blames_failed|]).
  apply (blames_bind _ _ _ anything).
  { apply blames_if; intros _; [by apply blames_post|by apply blames_ok]. }
  intros h2 _ _ _. apply blames_recorded. intros h3 _. by apply blames_ok.
Qed.
Lemma blames_execute streaming : blames (execute_internal gw streaming request) [] anything.
Proof.
  unfold execute_internal. eapply blames_bind; [apply blames_admission|].
  intros h1 [context r0] _ Hl0. cbn [snd] in Hl0.
  eapply blames_bind; [apply blames_decide; by left|]. intros h2 d0 _ Hg0.
  eapply blames_bind; [by apply blames_approve|]. intros h3 [r d] _ [Hl Hg]. cbn [fst snd] in *.
  apply (blames_bind _ _ _ anything); [by apply blames_authorize|]. intros h4 p _ _.
  apply (blames_bind _ _ _ anything); [apply blames_owner|]. intros h5 _ _ _.
  apply wlp_pbind. eapply wlp_mono; [apply runs_extend|]. intros h6 res Hs6.
  eapply wlp_mono.
  - apply (blames_bind _ _ _ anything anything); [apply blames_settle|]. intros h7 c _ _.
    by apply blames_release.
  - intros h7 res' [Hs7 Hr]. split; [|done]. intros x Hx. by apply Hs7, Hs6.
Qed.

(** Whatever a run fails with has its cause in the run. *)
Lemma execute_internal_caused streaming tr e :
  runs (execute_internal gw streaming request) tr (Err e) -> caused tr e.
Proof.
  intros Hr. destruct (wlp_runs _ _ _ _ _ _ _ (blames_execute streaming) Hr) as [_ [_ He]].
  exact He.
Qed.
End Causes.

Section Properties.
Context `{Externals} `{CommandDisplay}.

(** C1. Refinement: every run of [execute_internal], against any answers of its
    environment, is a run of the life-cycle protocol (each query is one the protocol
    allows after the history so far), and its result is one the history justifies. *)
Theorem gateway_refines_lifecycle gw streaming request tr res :
  runs (execute_internal gw streaming request) tr res ->
  (forall i e, tr !! i = Some e -> allowed gw request (take i tr) (ev_query e)) /\
  result_post gw request streaming tr res.
Proof. apply execute_internal_runs. Qed.

(** C2. No effect without authorization: whenever an adapter is called with
    request [r] and permit [p], it is the first and only call of the run, and before it
    the policy allowed exactly [r] under obligations the kernel accepted, the permit
    carries those obligations, is bound to [r], the decision and the actor, authentic,
    unexpired when checked and consumed, and the started event naming that decision and
    the permit's nonce is durable.  At the call the effect's stream is in its started
    phase, and right after it in the running phase. *)
Theorem adapter_call_authorized gw streaming request tr res i q x r p :
  runs (execute_internal gw streaming request) tr res ->
  tr !! i = Some (Ev q x) -> q = Execute r p \/ q = ExecuteStream r p ->
  let before := take i tr in
  calls before = 0%nat /\ (calls tr <= 1)%nat /\
  phase_of request before = LStarted /\ phase_of request (take (S i) tr) = LRunning /\
  exists d,
    lineage gw request r /\ decided gw before r d /\ pd_outcome d = Allow /\
    permit_valid gw before r d p /\
    durable before r "effect.started.v1" EC_Effect (started_payload d p).
Proof.
  intros Hr Hi Hq. cbv zeta. destruct (execute_internal_runs _ _ _ _ _ Hr) as [Hall [Hc _]].
  assert (calls_adapter q = true) as Hca by (destruct Hq as [-> | ->]; done).
  split; [by eapply calls_take_lookup|]. split; [done|].
  assert (phase_of request (take i tr) = LStarted /\ authorized gw request (take i tr) r p)
    as [Hp (d & (? & ? & ? & _ & ?) & ?)].
  { specialize (Hall _ _ Hi). destruct Hq as [-> | ->]; apply Hall. }
  split; [done|]. split.
  { rewrite (take_S_r _ _ _ Hi), phase_of_snoc, Hp. by destruct Hq as [-> | ->]. }
  exists d. by split_and!.
Qed.

(** C7. Release safety: a result handed back to the requester is byte for byte
    what the adapter returned successfully, within the output ceiling of the decision that
    authorized it; its completion is durable with the content's hash; and if the decision
    demands post-effect authorization, policy and kernel allowed a post-effect request
    over exactly that content (for a streaming call the result is the last chunk that was
    itself released and shown). *)
Theorem released_result_authorized gw streaming request tr rel :
  runs (execute_internal gw streaming request) tr (Ok rel) ->
  phase_of request tr = LClosed /\
  exists r d p c,
    permitted gw request tr r d p /\ rel = released c /\ qr_effect_succeeded c = true /\
    (blen (rr_bytes rel) <= ob_max_output_bytes (pd_obligations d))%N /\
    durable tr r "effect.completed.v1" EC_Effect (completed_payload d c) /\
    (streaming = false -> Ev (Execute r p) (Ok c) ∈ tr) /\
    (streaming = false -> ob_require_post_effect (pd_obligations d) = true ->
       release_allowed gw tr r c None) /\
    (streaming = true -> Ev (ObserveReleased rel) (Ok tt) ∈ tr).
Proof.
  intros Hr. destruct (execute_internal_runs _ _ _ _ _ Hr) as [_ (_ & _ & Hp & Hrel)].
  split; [done|]. destruct Hrel as (r & d & p & c & ? & -> & ? & ? & ? & Hs).
  exists r, d, p, c. destruct streaming; split_and!; try done; by destruct Hs.
Qed.

(** C8. Streaming safety: every chunk shown to the observer had its release event
    made durable first; where the permit demands post-effect authorization, policy allowed
    that very chunk; and the bytes shown so far and this chunk together stay within the
    permit's output ceiling. *)
Theorem shown_chunk_authorized gw streaming request tr res i rel x :
  runs (execute_internal gw streaming request) tr res ->
  tr !! i = Some (Ev (ObserveReleased rel) x) ->
  let before := take i tr in
  phase_of request before = LRunning /\
  exists r p a chunk n,
    Ev (ExecuteStream r p) a ∈ before /\ rel = released chunk /\
    durable before r "effect.chunk_released.v1" EC_Effect (chunk_payload chunk n) /\
    (ob_require_post_effect (ep_obligations p) = true ->
       release_allowed gw before r chunk (Some n)) /\
    ((ob_max_output_bytes (ep_obligations p) < u64_max)%N ->
       (shown_bytes before + blen (rr_bytes rel) <= ob_max_output_bytes (ep_obligations p))%N).
Proof.
  intros Hr Hi. destruct (execute_internal_runs _ _ _ _ _ Hr) as [Hall _].
  exact (Hall _ _ Hi).
Qed.

(** C9. Approvals are bound and obtained: whatever approval the adapter's request
    carries is the one the request was submitted with, or it was obtained in this run
    after the policy required it, for exactly the request that is executed (up to the
    proof itself), either from the approval provider or from an enabled automatic review
    of an eligible model or child-agent effect that came back low risk and allow. *)
Theorem approval_obtained_for_request gw streaming request tr res i q x r p proof :
  runs (execute_internal gw streaming request) tr res ->
  tr !! i = Some (Ev q x) -> q = Execute r p \/ q = ExecuteStream r p ->
  er_approval r = Some proof ->
  er_approval request = Some proof \/
  exists r0 r1 d context,
    decided gw (take i tr) r0 d /\ pd_outcome d = RequireApproval /\
    r1 = with_risk (er_risk r1) r0 /\ r = with_approval (Some proof) r1 /\
    request_hash r1 = Ok (ap_request_hash proof) /\
    (Ev (RequestApproval r1 (ap_request_hash proof) d context) (Ok (Some proof)) ∈ take i tr \/
     (Ev RiskAutoEnabled true ∈ take i tr /\ risk_auto_ineligibility r0 = None /\
      ap_approved_by proof = AUTO_APPROVER /\
      exists a, Ev (Evaluate r0 d) (Ok a) ∈ take i tr /\ ra_risk_level a = Low /\
        ra_recommended_decision a = RR_Allow)).
Proof.
  intros Hr Hi Hq Hsome. destruct (execute_internal_runs _ _ _ _ _ Hr) as [Hall _].
  assert (authorized gw request (take i tr) r p) as (d & (_ & _ & _ & Ha & _) & _).
  { specialize (Hall _ _ Hi). destruct Hq as [-> | ->]; apply Hall. }
  destruct Ha as [Heq|(r0 & r1 & d1 & proof' & context & Hd & Ho & H1 & H2 & H3 & H4)];
    [left; congruence|right].
  assert (proof' = proof) as -> by (rewrite H2 in Hsome; by injection Hsome).
  exists r0, r1, d1, context. by split_and!.
Qed.

(** C38. Classification of failures.  A known adapter failure is reported only after one
    adapter call and with a durable failed event; an unknown outcome only with a durable
    outcome-unknown event, or after the execution fence refused this owner (the effect
    stays open for its successor).  A denial means either that the adapter was never
    called and the effect is closed, or that it was called and only the release was
    denied.  A safety, policy or contract failure is reported before the start or from the
    release of a running effect, and its cause is in the run: a service that said no
    ([service_refused]), or a check that failed with that very error on the submitted request,
    on a request derived from it, or on a decision policy gave ([refused]); a
    journal failure is one the journal or the fence answered; an approval failure means no
    adapter call, and an approver who was asked about this request and declined or
    approved another one ([unapproved]). *)
Theorem failures_classified gw streaming request tr e :
  runs (execute_internal gw streaming request) tr (Err e) ->
  (calls tr <= 1)%nat /\ caused gw request tr e /\
  match e with
  | Execution _ | HttpStatus _ _ | RecoverableExecution _ _ _ _ | ProviderRejected _ =>
      calls tr = 1%nat /\ phase_of request tr = LClosed /\
      exists r pl, durable tr r "effect.failed.v1" EC_Effect pl
  | OutcomeUnknown _ =>
      (phase_of request tr = LClosed /\
         exists r pl, durable tr r "effect.outcome_unknown.v1" EC_Effect pl) \/
      ((phase_of request tr = LStarted \/ phase_of request tr = LRunning) /\
         exists s, Ev Fence (Err s) ∈ tr)
  | Denied _ => (calls tr = 0%nat /\ phase_of request tr = LClosed) \/
                (calls tr = 1%nat /\ phase_of request tr = LRunning)
  | Approval _ => calls tr = 0%nat /\ (phase_of request tr = LRequested \/ phase_of request tr = LClosed)
  | Safety _ | Policy _ | Contract _ =>
      (calls tr = 0%nat /\ before_start request tr) \/
      (calls tr = 1%nat /\ phase_of request tr = LRunning)
  | Journal _ =>
      (calls tr = 0%nat /\ (before_start request tr \/ phase_of request tr = LStarted)) \/
      (calls tr = 1%nat /\ phase_of request tr = LRunning)
  end.
Proof.
  intros Hr. destruct (execute_internal_runs _ _ _ _ _ Hr) as [_ [Hc He]].
  split; [done|]. split; [by eapply execute_internal_caused|].
  destruct e; simpl in He; naive_solver.
Qed.

(** The effect's own stream tells its life in order: the requested event
    comes first and once, the started event once and only while the effect is requested,
    a denial only before the start, a completion or failure only after the adapter was
    called, and nothing follows a terminal event. *)
Lemma effect_stream_ordered gw streaming request tr res i e x :
  runs (execute_internal gw streaming request) tr res ->
  tr !! i = Some (Ev (Append e) x) -> ne_stream_id e = effect_stream request ->
  let p := phase_of request (take i tr) in
  p <> LClosed /\
  (ne_event_type e = "effect.requested.v1" <-> p = LFresh) /\
  (ne_event_type e = "effect.started.v1" -> p = LRequested) /\
  (ne_event_type e = "effect.denied.v1" -> p = LRequested) /\
  (ne_event_type e = "effect.completed.v1" \/ ne_event_type e = "effect.failed.v1" ->
     p = LRunning) /\
  (ne_event_type e = "effect.outcome_unknown.v1" -> p = LStarted \/ p = LRunning).
Proof.
  intros Hr Hi Hs. cbv zeta. destruct (execute_internal_runs _ _ _ _ _ Hr) as [Hall _].
  specialize (Hall _ _ Hi Hs). simpl in Hall. generalize dependent (phase_of request (take i tr)).
  intros p Hall.
  destruct (String.eqb_spec (ne_event_type e) "effect.requested.v1") as [->|H1];
    [subst p; split_and!; try done; naive_solver|].
  destruct (String.eqb_spec (ne_event_type e) "effect.started.v1") as [->|H2];
    [destruct Hall as [-> _]; split_and!; try done; naive_solver|].
  destruct (String.eqb_spec (ne_event_type e) "effect.denied.v1") as [->|H3];
    [subst p; split_and!; try done; naive_solver|].
  destruct (String.eqb_spec (ne_event_type e) "effect.outcome_unknown.v1") as [->|H4];
    [split_and!; destruct Hall as [-> | ->]; try done; naive_solver|].
  destruct (is_one_of (ne_event_type e) terminal_types) eqn:Et.
  - subst p. split_and!; try done; naive_solver.
  - destruct Hall as [? ?]. split_and!; try done;
      first [naive_solver | intros [Ht|Ht]; by rewrite Ht in Et].
Qed.

(** When the adapter ran and only the release was denied, the effect's
    own stream is left open: it holds the started event and no completed, failed,
    outcome-unknown or denied event (the release denial is recorded on the separate
    post-effect stream), although the outcome of the effect is known. *)
Lemma release_denial_leaves_effect_open gw streaming request tr m :
  runs (execute_internal gw streaming request) tr (Err (Denied m)) ->
  calls tr = 1%nat ->
  phase_of request tr = LRunning /\
  forall e, Ev (Append e) (Ok tt) ∈ tr -> ne_stream_id e = effect_stream request ->
    ne_event_type e ∉ terminal_types.
Proof.
  intros Hr Hc. destruct (execute_internal_runs _ _ _ _ _ Hr) as [Hall [_ [[Hc0 _]|[_ Hp]]]];
    [congruence|]. split; [done|]. intros e He Hs Ht.
  apply list_elem_of_lookup in He as [i Hi].
  assert (phase_of request (take (S i) tr) = LClosed) as Hcl.
  { rewrite (take_S_r _ _ _ Hi), phase_of_snoc. unfold phase_step. simpl.
    rewrite Hs. unfold effect_stream. rewrite String.eqb_refl.
    unfold terminal_types in Ht. unfold phase_event.
    rewrite !elem_of_cons in Ht. destruct Ht as [->|[->|[->|[->|Ht%elem_of_nil]]]]; done. }
  rewrite (closed_stays _ _ _ _ Hall Hcl) in Hp. done.
Qed.

End Properties.

(** ** Concrete runs *)

Definition test_policy : BuiltInPolicy :=
  with_action "filesystem.write" RequireApproval
    (with_filesystem_root "/work" "write" (with_sandbox "native" "default" false offline_default)).
Definition test_chunk (s : string) : QuarantinedEffectResult :=
  mkQuarantinedEffectResult "text/plain" (bytes s) true.

(** An environment whose journal accepts everything, whose operator approves, and whose
    adapters succeed. *)
Definition test_env (policy : EffectRequest -> result PolicyError PolicyDecision)
    (h : list interaction) (q : query) : answer q :=
  match q with
  | Fence => Ok tt
  | IsRecoveryMode => false
  | ReadTail _ => Ok None
  | Append _ => Ok tt
  | SummaryWorker => true
  | Observe_World => (test_host, gate_new None false)
  | Decide r => policy r
  | RiskAutoEnabled => false
  | UpgradeEvaluator => false
  | Evaluate _ _ => Err (RiskUnavailable "off")
  | RequestApproval _ hash _ _ => Ok (Some (mkApprovalProof "a1" hash "operator" "now"))
  | AutomaticApprovalGranted _ => tt
  | RiskReviewFallback _ => tt
  | Now => 1000%Z
  | NewUuid => "uuid"
  | Timestamp => Ok "now"
  | Execute _ _ => Ok (test_chunk "done")
  | ExecuteStream _ _ => AdapterSubmit (test_chunk "a") (fun _ =>
      AdapterSubmit (test_chunk "b") (fun _ => AdapterReturn (Ok (test_chunk "b"))))
  | AdapterYield => tt
  | ObserveReleased _ => Ok tt
  | Timer => Resume 0
  end.
Definition test_gateway : EffectGateway := mkGateway (kernel_new ["fs"]) "key" false None.
Definition builtin_test (r : EffectRequest) : result PolicyError PolicyDecision :=
  builtin_decide test_policy "d1" r.
(** Denies the release of every result. *)
Definition denying_test (r : EffectRequest) : result PolicyError PolicyDecision :=
  if bool_decide (er_phase r = PostEffect)
  then Ok (mkPolicyDecision "d2" "rev" Deny "secret output" default_obligations)
  else builtin_test r.
Definition test_write : EffectRequest := test_request "filesystem.write" "/work/a.txt" Null.
Definition test_program (streaming : bool) (r : EffectRequest)
    : eff GatewayError ReleasedEffectResult :=
  execute_internal (H:=test_externals) (H0:=test_display) test_gateway streaming r.
Definition test_trace (streaming : bool) policy : list interaction :=
  (drive (test_env policy) (test_program streaming test_write) []).1.

Lemma test_runs streaming policy res :
  (drive (test_env policy) (test_program streaming test_write) []).2 = res ->
  runs (test_program streaming test_write) (test_trace streaming policy) res.
Proof. intros <-. apply drive_runs. Qed.

Lemma gateway_refines_lifecycle_witness :
  result_post (H:=test_externals) (H0:=test_display) test_gateway test_write true
    (test_trace true builtin_test) (Ok (released (test_chunk "b"))).
Proof.
  apply (gateway_refines_lifecycle (H:=test_externals) (H0:=test_display)), test_runs.
  vm_compute. reflexivity.
Defined.

Lemma adapter_call_authorized_witness :
  exists r p x, test_trace false builtin_test !! 21%nat = Some (Ev (Execute r p) x) /\
    calls (take 21 (test_trace false builtin_test)) = 0%nat.
Proof.
  assert (exists r p x, test_trace false builtin_test !! 21%nat = Some (Ev (Execute r p) x))
    as (r & p & x & E) by (do 3 eexists; vm_compute; reflexivity).
  exists r, p, x. split; [exact E|].
  exact (proj1 (adapter_call_authorized (H:=test_externals) (H0:=test_display) test_gateway false
    test_write _ _ 21 _ x r p (test_runs false builtin_test _ eq_refl) E (or_introl eq_refl))).
Defined.

Lemma released_result_authorized_witness :
  phase_of test_write (test_trace false builtin_test) = LClosed.
Proof.
  eapply (released_result_authorized (H:=test_externals) (H0:=test_display) test_gateway false test_write).
  apply test_runs. vm_compute. reflexivity.
Defined.

Lemma shown_chunk_authorized_witness :
  exists rel x, test_trace true builtin_test !! 36%nat = Some (Ev (ObserveReleased rel) x) /\
    phase_of test_write (take 36 (test_trace true builtin_test)) = LRunning.
Proof.
  assert (exists rel x, test_trace true builtin_test !! 36%nat = Some (Ev (ObserveReleased rel) x))
    as (rel & x & E) by (do 2 eexists; vm_compute; reflexivity).
  exists rel, x. split; [exact E|].
  exact (proj1 (shown_chunk_authorized (H:=test_externals) (H0:=test_display) test_gateway true
    test_write _ _ 36 rel x (test_runs true builtin_test _ eq_refl) E)).
Defined.

Lemma approval_obtained_for_request_witness :
  exists r p x proof, test_trace false builtin_test !! 21%nat = Some (Ev (Execute r p) x) /\
    er_approval r = Some proof /\
    exists r1, request_hash (H:=test_externals) r1 = Ok (ap_request_hash proof).
Proof.
  assert (exists r p x proof,
    test_trace false builtin_test !! 21%nat = Some (Ev (Execute r p) x) /\
    er_approval r = Some proof) as (r & p & x & proof & E & Hp)
    by (do 4 eexists; split; [vm_compute; reflexivity|reflexivity]).
  exists r, p, x, proof. split; [exact E|]. split; [exact Hp|].
  destruct (approval_obtained_for_request (H:=test_externals) (H0:=test_display) test_gateway false
    test_write _ _ 21 _ x r p proof (test_runs false builtin_test _ eq_refl) E (or_introl eq_refl)
    Hp) as [Hn|(r0 & r1 & d & ctx & _ & _ & _ & _ & Hh & _)]; [discriminate Hn|].
  exists r1. exact Hh.
Defined.

(** The operator declines. *)
Definition declining_env (h : list interaction) (q : query) : answer q :=
  match q as q return answer q -> answer q with
  | RequestApproval _ _ _ _ => fun _ => Ok None
  | _ => fun a => a
  end (test_env builtin_test h q).
Lemma failures_classified_witness :
  let tr := (drive declining_env (test_program false test_write) []).1 in
  calls tr = 0%nat /\
  exists r hash d c, Ev (RequestApproval r hash d c) (Ok None) ∈ tr.
Proof.
  destruct (failures_classified (H:=test_externals) (H0:=test_display) test_gateway false test_write
    (drive declining_env (test_program false test_write) []).1 (Approval "operator declined"))
    as (_ & Hc & Hn & _).
  { eapply eq_rect; [apply drive_runs|vm_compute; reflexivity]. }
  split; [exact Hn|]. inversion Hc; subst. by repeat eexists.
Defined.

Lemma effect_stream_ordered_witness :
  exists e x, test_trace false builtin_test !! 3%nat = Some (Ev (Append e) x) /\
    phase_of test_write (take 3 (test_trace false builtin_test)) <> LClosed.
Proof.
  assert (exists e x, test_trace false builtin_test !! 3%nat = Some (Ev (Append e) x) /\
    ne_stream_id e = effect_stream test_write) as (e & x & E & Hs)
    by (do 2 eexists; split; [vm_compute; reflexivity|reflexivity]).
  exists e, x. split; [exact E|].
  exact (proj1 (effect_stream_ordered (H:=test_externals) (H0:=test_display) test_gateway false
    test_write _ _ 3 e x (test_runs false builtin_test _ eq_refl) E Hs)).
Defined.

Lemma release_denial_leaves_effect_open_witness :
  phase_of test_write (test_trace false denying_test) = LRunning.
Proof.
  eapply (release_denial_leaves_effect_open (H:=test_externals) (H0:=test_display) test_gateway
    false test_write _ "post-effect release denied: secret output");
    [apply test_runs; vm_compute; reflexivity|vm_compute; reflexivity].
Defined.
